(* ===== verification/_CoqProject ===== *)
-Q . S2P
Prelude.v
Bpf.v
BpfSafety.v
BpfEquiv.v
BpfDev.v
BpfDevSpec.v
BpfDevOps.v
BpfDevRead.v
BpfDevCtl.v
BpfDevRun.v
BpfDevThms.v
Lockf.v
LockfHeap.v
LockfList.v
LockfEdit.v
LockfGrant.v
LockfCoalesce.v
LockfClear.v
LockfBlock.v
LockfWait.v
LockfSpec.v
CStr.v
CStrSpec.v
Printf.v
PrintfTrace.v
PrintfSpec.v
KextVersion.v
KextVersionSpec.v
KextVersionPrint.v
Sbuf.v
SbufSpec.v
SbufRefine.v
SbufTests.v
Clist.v
ClistBits.v
ClistSpec.v
ClistRefine.v
ClistFifo.v
Ipc.v
Sem.v
SemSpec.v
SemUndos.v
SemAdjust.v
SemClear.v
SemLayout.v
SemOps.v
SemExit.v
SemRmid.v
SemCtl.v
SemGet.v
SemThms.v
Chain.v
Msg.v
MsgSpec.v
MsgRel.v
MsgSegs.v
MsgBase.v
MsgQueue.v
MsgMove.v
MsgSend.v
MsgText.v
MsgCopyin.v
MsgAlloc.v
MsgInit.v
MsgCalls.v
MsgGet.v
MsgRecv.v
MsgCopyout.v
MsgRun.v
MsgProgress.v
MsgTrip.v
MsgThms.v
Shm.v
ShmInv.v
ShmHeap.v
ShmOps.v
ShmCalls.v
ShmAttach.v
ShmGet.v
ShmThms.v
