(* ===== verification/Prelude.v ===== *)
(** * PureDarwin: a verification of parts of its kernel

    PureDarwin is built around the XNU kernel.  This library models parts of
    the kernel that keep their state to themselves and have a contract that
    can be stated: the packet filter and the packet capture devices, advisory
    record locks, System V semaphores, message queues and shared memory,
    terminal queues, string buffers, formatted output, the kernel's string functions, and the
    versions of kernel extensions.  Paths below are relative to [src/src/Kernel/xnu].

    ** How code is modelled

    A C function is a Rocq function of the same name.  Integers are [Z] with
    the wrap-around of their type written out ([u8] to [u64], [s32], [s64];
    [wrap], [swrap]).  Memory is explicit: an array is a list, and an access
    outside it, through a null pointer or to freed memory is [Fault], as are a
    failed assertion, [panic] and a division trap.  Code that cannot change
    state is in the monad [res]; code with state is in the monad [st] over the
    component's state record, which is defined in this file with its weakest
    preconditions ([wp]).  Code that runs under a lock and sleeps is cut at
    its sleeps, and where it releases the lock to copy from or to user memory:
    each definition is one section that runs with the lock held, and the runs of a component interleave the sections of any
    number of threads in any order.  Answers of code outside the model (the
    allocator, the policy modules, the time, copies from and to user memory,
    undefined shifts) are parameters of the definitions or parts of the state.

    Recursion that the code bounds by a pointer chain or a counter has fuel,
    and the theorems show that the fuel given is enough: the number of
    structures in the store for the loops over lock lists, the length of the
    program for the filter, the length of the format for [__doprnt], the
    number of digits of a 64-bit number for [printnum], the length of the
    buffer for the walk over captured packets, the number of undo structures
    and one for the loops over undo lists, the number of message headers (and
    one for the search) for the loops over message queues, the size of a
    message for the loop that frees its segments, the number of handles for
    the loops over the handles of a shared memory segment.

    ** Components

    - Packet filter machine, [bsd/net/bpf_filter.c]: [Bpf] has the interpreter
      on buffers and on mbuf chains and the validator; [BpfSafety] shows that
      the validator accepts exactly the well-formed programs and that these
      never fault and end within their length; [BpfEquiv] that a program
      computes the same on a chain and on its contiguous copy.
    - Packet capture devices, [bsd/net/bpf.c]: [BpfDev] has the device with
      its store, hold and free buffers and the sections of open, attach,
      capture, read, timeout, select, control and close.  [BpfDevSpec] says
      what packets the buffers hold, [BpfDevOps], [BpfDevRead] and [BpfDevCtl]
      what each section does to them, [BpfDevRun] has the machine of a device
      with its readers, and [BpfDevThms] the theorems on all runs: no fault,
      packets are delivered in order and drops are counted, no wakeup is lost.
    - Advisory record locks, [bsd/kern/kern_lockf.c]: [Lockf] has every
      operation on the lock lists and the queues of those who wait, over a
      store of lock structures.  [LockfHeap] and [LockfList] give the meaning
      of the lists, [LockfEdit], [LockfGrant], [LockfCoalesce], [LockfClear],
      [LockfBlock] and [LockfWait] follow the operations, and [LockfSpec] has
      the theorems: exclusion, what granting and releasing do byte by byte,
      queueing, deadlock detection, and the conversion of ranges.
    - System V semaphores, [bsd/kern/sysv_sem.c], [bsd/kern/sysv_ipc.c]: [Ipc]
      has identifiers and permissions, [Sem] the calls, the pool of
      semaphores and the undo structures.
      [SemSpec] treats passes over a vector of operations, [SemUndos],
      [SemAdjust] and [SemClear] the undo structures as maps of adjustments,
      [SemLayout] the sets as a tiling of the pool, [SemOps], [SemExit],
      [SemRmid], [SemCtl] and [SemGet] show that the calls meet their
      specifications, and [SemThms] that all runs of any number of processes
      do, that [semop] is all or nothing, and that exit restores values.
    - System V message queues, [bsd/kern/sysv_msg.c], [bsd/sys/msg.h]: [Msg]
      has the sections of the calls over the arrays of headers, segments and
      queues and the pool of text, with permissions from [Ipc].  [MsgSpec]
      says what each section should do when a queue is a list of messages, and
      [MsgRel] how the arrays represent queues: [Chain] has linked lists in
      arrays and the ownership of their elements.  [MsgSegs], [MsgBase],
      [MsgQueue], [MsgMove], [MsgText] and [MsgAlloc] treat the lists and the
      text; [MsgInit], [MsgGet], [MsgCalls], [MsgSend], [MsgCopyin], [MsgRecv]
      and [MsgCopyout] show that the sections meet their specifications.
      [MsgRun] puts the sections of any number of threads in any order,
      [MsgProgress] follows the lock of a queue and bounds copying, and
      [MsgTrip] follows one message.  [MsgThms] has the theorems on all runs:
      no fault and refinement, exclusive locks, nothing leaks, round trips,
      copying ends.  A run is assumed to have no [IPC_SET] of the super user
      that ends after its queue has been removed, which would panic
      ([ipc_set_revives]), sizes that are not negative and fit 64 bits, and
      copies from user memory that have all their bytes when they succeed;
      limits are assumed positive, and the pool to have room for all segments,
      as the initial limits are.
    - System V shared memory, [bsd/kern/sysv_shm.c]: [Shm] has the calls over
      the table of segments, the tables of the processes, and a store of the
      handles of segments, each with a named entry of the virtual memory
      system.  [ShmInv] has the invariant, [ShmHeap] the lists of handles,
      [ShmOps], [ShmCalls], [ShmAttach] and [ShmGet] show that the calls keep
      it, and [ShmThms] has the lock of the subsystem and processes that make
      calls, fork, execute programs and exit in any order, and the theorems on
      their runs: no fault and exact counts, what attaching maps, what the last
      detach frees.  Runs are assumed to be able to make named entries, to have
      less than 32768 entries for a segment and at most 65536 segments, and to
      be able to unmap at exit; theorems show what happens, from any state of
      such a run, without the first two.
    - Terminal queues, [bsd/kern/tty_subr.c]: [Clist] has the ring buffers
      with quote bits, [ClistBits] the bit arrays, [ClistSpec] and
      [ClistRefine] the queues as sequences, and [ClistFifo] the theorem that
      every run is a run of a bounded first-in first-out queue; all functions
      that change or scan a queue are operations of these runs, [ndqb] has a
      lemma of its own.
    - String buffers, [bsd/kern/subr_sbuf.c]: [Sbuf] has the operations over a
      memory with allocations that may fail, [SbufSpec] and [SbufRefine] the
      refinement of an abstract text and the accounting of memory for sbufs
      that allocate their structure and buffer, and [SbufTests] the self-test of
      the file run on the model.
    - Formatted output, [osfmk/kern/printf.c], [bsd/kern/subr_prf.c]: [Printf]
      has [__doprnt] over any output routine and [vsnprintf], [PrintfTrace]
      shows that the engine produces one text whatever the routine, and
      [PrintfSpec] what that text is, that [vsnprintf] cuts it to its buffer,
      and that formats of a grammar of directives whose arguments have the types
      they name do not fault ([%b], [%B] and [%D] are not in the grammar).
    - String functions, [osfmk/device/subrs.c]: [CStr] and their
      specifications in [CStrSpec].
    - Versions of kernel extensions, [libkern/OSKextVersion.c]: [KextVersion]
      has the parser and the printer, which calls [Printf] and [CStr];
      [KextVersionSpec] shows that the parser decides a grammar, which has the
      documented format in it, and keeps the order of versions, and [KextVersionPrint] that printing and parsing are
      inverse.

    The components use each other as the code does: versions and string
    buffers call formatted output, which calls the string functions; a capture
    device runs the filter machine, and its safety uses that of validated
    programs.

    ** Where the code falls short

    Some theorems and lemmas state what the code does in states or on inputs
    that its authors did not mean: a lock that ends at the largest offset, headers of different sizes
    in one capture buffer, a read that is going on while a device is closed, a
    semaphore number that is out of range or does not fit the undo entry, a
    message queue that is removed while its settings are copied in, a sender
    that is interrupted while another one waits for it, a shared memory segment
    whose memory cannot be had or that has too many attachments.
    They are named with the operation and the effect; the theorems among them
    are about every state in which this can happen and come last in the list of
    properties, and the lemmas are examples next to the specifications.

    ** What is not modelled

    The rest of the kernel (processes, virtual memory, ports, files, sockets,
    protocols, drivers), the system libraries and the build tools.  Within the
    modelled files: output to the console and the log, the lists of
    interfaces, writing packets and the trace format of capture devices,
    [strdup], the labels of policy modules, and the control interfaces that
    only copy structures to user programs. *)

From Stdlib Require Export ZArith Lia.
From stdpp Require Export numbers base gmap strings list.
#[global] Open Scope Z_scope.
#[global] Set Default Goal Selector "!".

(** ** Faulting computations

    A C access outside an object, a null dereference, a division trap, a
    failed assertion or a call of [panic] is [Fault]; everything the code can
    return normally is [Ok]. *)

Inductive res (A : Type) : Type :=
  | Ok (a : A)
  | Fault.
Arguments Ok {_} _.
Arguments Fault {_}.

#[export] Instance res_ret : MRet res := λ A a, Ok a.
#[export] Instance res_bind : MBind res := λ A B f m,
  match m with Ok a => f a | Fault => Fault end.

Lemma res_bind_Ok {A B} (m : res A) (f : A → res B) b :
  m ≫= f = Ok b → ∃ a, m = Ok a ∧ f a = Ok b.
Proof. destruct m; simpl; [eauto | done]. Qed.

(** ** Machine integers

    A [w]-bit unsigned integer is a [Z] kept in range by [wrap]. *)

Definition wrap (w z : Z) : Z := z mod 2 ^ w.
Definition in_u (w z : Z) : Prop := 0 <= z < 2 ^ w.
Abbreviation u8 := (wrap 8).
Abbreviation u16 := (wrap 16).
Abbreviation u32 := (wrap 32).
Abbreviation u64 := (wrap 64).

(** Two's complement reading of the low [w] bits. *)
Definition swrap (w z : Z) : Z :=
  let r := wrap w z in if r <? 2 ^ (w - 1) then r else r - 2 ^ w.
Abbreviation s32 := (swrap 32).
Abbreviation s64 := (swrap 64).

Create HintDb kern.

(** [lia] with quotients and remainders by constants. *)
Ltac zlia := Z.to_euclidean_division_equations; lia.

Lemma wrap_small w z : in_u w z → wrap w z = z.
Proof. intros H. by apply Z.mod_small. Qed.

Lemma wrap_in_u w z : 0 <= w → in_u w (wrap w z).
Proof. intros H. apply Z.mod_pos_bound. lia. Qed.

Lemma wrap_idemp w z : 0 <= w → wrap w (wrap w z) = wrap w z.
Proof. intros H. apply wrap_small. by apply wrap_in_u. Qed.

Lemma swrap_small w z :
  0 < w → - 2 ^ (w - 1) <= z < 2 ^ (w - 1) → swrap w z = z.
Proof.
  intros Hw Hz. unfold swrap, wrap.
  assert (Hp : 2 ^ w = 2 * 2 ^ (w - 1)).
  { rewrite <- Z.pow_succ_r by lia. f_equal. lia. }
  assert (0 < 2 ^ (w - 1)) by lia.
  destruct (Z.leb_spec 0 z).
  - rewrite Z.mod_small by lia. destruct (Z.ltb_spec z (2 ^ (w - 1))); lia.
  - rewrite <- (Z.mod_add z 1) by lia. rewrite Z.mod_small by lia.
    destruct (Z.ltb_spec (z + 1 * 2 ^ w) (2 ^ (w - 1))); lia.
Qed.

(** Two's complement addition: wrapping an operand first changes nothing. *)
Lemma swrap_mod w z : 0 < w → swrap w z mod 2 ^ w = z mod 2 ^ w.
Proof.
  intros Hw. unfold swrap, wrap. destruct (_ <? _).
  - apply Z.mod_mod. lia.
  - rewrite <- (Z.mod_add _ 1) by lia. rewrite Z.mul_1_l, Z.sub_add. apply Z.mod_mod. lia.
Qed.

Lemma swrap_lt w z : 0 < w → - 2 ^ (w - 1) <= swrap w z < 2 ^ (w - 1).
Proof.
  intros Hw. unfold swrap. pose proof (wrap_in_u w z ltac:(lia)) as Hr. unfold in_u in Hr.
  assert (2 ^ w = 2 * 2 ^ (w - 1)).
  { rewrite <- Z.pow_succ_r by lia. f_equal. lia. }
  destruct (Z.ltb_spec (wrap w z) (2 ^ (w - 1))); lia.
Qed.

Lemma swrap_cong w a b : a mod 2 ^ w = b mod 2 ^ w → swrap w a = swrap w b.
Proof. unfold swrap, wrap. by intros ->. Qed.

Lemma s32_add_l a b : s32 (s32 a + b) = s32 (a + b).
Proof.
  apply swrap_cong. rewrite Z.add_mod, swrap_mod, <- Z.add_mod by lia. done.
Qed.

Lemma s32_idemp a : s32 (s32 a) = s32 a.
Proof. apply swrap_cong. by rewrite swrap_mod by lia. Qed.

#[export] Hint Resolve wrap_in_u : kern.

(** ** Byte buffers

    A C buffer of [n] bytes is a list of [n] integers; an access outside it
    faults. *)

Definition rd {A} (buf : list A) (i : Z) : res A :=
  if i <? 0 then Fault
  else match buf !! Z.to_nat i with Some b => Ok b | None => Fault end.

Definition wr {A} (buf : list A) (i : Z) (v : A) : res (list A) :=
  if (0 <=? i) && (i <? Z.of_nat (length buf))
  then Ok (<[Z.to_nat i := v]> buf) else Fault.

Lemma rd_lookup {A} (buf : list A) i (b : A) :
  rd buf i = Ok b ↔ 0 <= i ∧ buf !! Z.to_nat i = Some b.
Proof.
  unfold rd. destruct (Z.ltb_spec i 0).
  - split; [done | lia].
  - destruct (buf !! Z.to_nat i); naive_solver.
Qed.

Lemma rd_in_range {A} (buf : list A) i :
  0 <= i < Z.of_nat (length buf) → ∃ b, rd buf i = Ok b.
Proof.
  intros Hi. destruct (lookup_lt_is_Some_2 buf (Z.to_nat i)) as [b Hb]; [lia |].
  exists b. apply rd_lookup. split; [lia | done].
Qed.

(** Copies out of and into a buffer. *)
Definition slice {A} (buf : list A) (off len : Z) : res (list A) :=
  if (0 <=? off) && (0 <=? len) && (off + len <=? Z.of_nat (length buf))
  then Ok (take (Z.to_nat len) (drop (Z.to_nat off) buf)) else Fault.
Definition blit {A} (buf : list A) (off : Z) (data : list A) : res (list A) :=
  if (0 <=? off) && (off + Z.of_nat (length data) <=? Z.of_nat (length buf))
  then Ok (take (Z.to_nat off) buf ++ data ++ drop (Z.to_nat off + length data) buf) else Fault.

(** ** Bit fields *)

Lemma land_shiftl_low a b n : 0 <= n → 0 <= b < 2 ^ n → Z.land (Z.shiftl a n) b = 0.
Proof.
  intros Hn Hb. apply Z.bits_inj_0. intros i.
  rewrite Z.land_spec. destruct (Z.ltb_spec i n).
  - by rewrite Z.shiftl_spec_low.
  - rewrite <- (Z.mod_small b (2 ^ n)) by done.
    rewrite (Z.mod_pow2_bits_high b n i) by lia. apply andb_false_r.
Qed.

(** A shifted field and a field below it do not carry. *)
Lemma lor_shiftl a b n :
  0 <= n → 0 <= b < 2 ^ n → Z.lor (Z.shiftl a n) b = a * 2 ^ n + b.
Proof.
  intros Hn Hb. pose proof (land_shiftl_low a b n Hn Hb) as Hland.
  rewrite <- Z.lxor_lor, <- Z.add_nocarry_lxor by done.
  by rewrite Z.shiftl_mul_pow2.
Qed.

Lemma land_ones_mod a n : 0 <= n → Z.land a (Z.ones n) = wrap n a.
Proof. intros Hn. by apply Z.land_ones. Qed.

Lemma lor_in_u w a b : 0 <= w → in_u w a → in_u w b → in_u w (Z.lor a b).
Proof.
  intros Hw Ha Hb. rewrite <- (wrap_small w a), <- (wrap_small w b) by done.
  rewrite <- !land_ones_mod, <- Z.land_lor_distr_l, land_ones_mod by done.
  by apply wrap_in_u.
Qed.

Lemma land_in_u w a b : 0 <= w → in_u w a → in_u w (Z.land a b).
Proof.
  intros Hw Ha. rewrite <- (wrap_small w a) by done.
  rewrite <- land_ones_mod, <- Z.land_assoc, (Z.land_comm _ b), Z.land_assoc,
    land_ones_mod by done.
  by apply wrap_in_u.
Qed.

Lemma shiftr_in_u w a n : 0 <= w → 0 <= n → in_u w a → in_u w (Z.shiftr a n).
Proof.
  intros Hw Hn [Ha0 Ha1]. rewrite Z.shiftr_div_pow2 by done.
  split; [apply Z.div_pos; lia |].
  apply Z.le_lt_trans with a; [| done].
  apply Z.div_le_upper_bound; [lia |]. assert (0 < 2 ^ n) by lia. nia.
Qed.

#[export] Hint Resolve lor_in_u land_in_u shiftr_in_u : kern.

(** ** Stateful code

    A C function that reads and writes kernel state [S] and may fault. *)

Definition st (S A : Type) : Type := S → res (A * S).

#[export] Instance st_ret S : MRet (st S) := λ A a s, Ok (a, s).
#[export] Instance st_bind S : MBind (st S) := λ A B f m s,
  match m s with Ok (a, s') => f a s' | Fault => Fault end.

Definition fault {S A} : st S A := λ _, Fault.
Definition get {S} : st S S := λ s, Ok (s, s).
Definition put {S} (s : S) : st S () := λ _, Ok ((), s).

Lemma st_bind_unfold {S A B} (m : st S A) (f : A → st S B) s :
  (m ≫= f) s = match m s with Ok (a, s') => f a s' | Fault => Fault end.
Proof. done. Qed.

Lemma st_bind_Ok {S A B} (m : st S A) (f : A → st S B) s a s' :
  m s = Ok (a, s') → (m ≫= f) s = f a s'.
Proof. intros H. by rewrite st_bind_unfold, H. Qed.

(** ** C flag words *)

Definition tst (flags bit : Z) : bool := negb (Z.land flags bit =? 0).

Lemma tst_lor f b c : tst (Z.lor f b) c = tst f c || tst b c.
Proof.
  unfold tst. rewrite Z.land_lor_distr_l.
  destruct (Z.eqb_spec (Z.land f c) 0) as [->|Hf]; simpl.
  - by rewrite Z.lor_0_l.
  - destruct (Z.eqb_spec (Z.lor (Z.land f c) (Z.land b c)) 0) as [H|]; [| done].
    apply Z.lor_eq_0_iff in H as [? _]. done.
Qed.

Lemma tst_clear_same f b : tst (Z.land f (Z.lnot b)) b = false.
Proof.
  unfold tst. by rewrite <- Z.land_assoc, (Z.land_comm (Z.lnot b)), Z.land_lnot_diag, Z.land_0_r.
Qed.

Lemma tst_clear_other f b c : Z.land c b = 0 → tst (Z.land f (Z.lnot b)) c = tst f c.
Proof.
  intros H. unfold tst. rewrite <- Z.land_assoc, (Z.land_comm (Z.lnot b)).
  replace (Z.land c (Z.lnot b)) with c; [done |].
  rewrite <- Z.ldiff_land. apply Z.bits_inj. intros i. rewrite Z.ldiff_spec.
  assert (Hi := f_equal (λ z, Z.testbit z i) H). simpl in Hi.
  rewrite Z.land_spec, Z.bits_0 in Hi. by destruct (Z.testbit c i), (Z.testbit b i).
Qed.

(** ** Weakest preconditions

    [wp m Q s]: run from [s], [m] does not fault and ends in a value and state
    that satisfy [Q]. *)

Definition wp {S A} (m : st S A) (Q : A → S → Prop) (s : S) : Prop :=
  match m s with Ok (a, s') => Q a s' | Fault => False end.

Lemma wp_ret {S A} (a : A) (Q : A → S → Prop) s : Q a s → wp (mret a) Q s.
Proof. done. Qed.

Lemma wp_bind {S A B} (m : st S A) (f : A → st S B) Q s :
  wp m (λ a s', wp (f a) Q s') s → wp (m ≫= f) Q s.
Proof. unfold wp. rewrite st_bind_unfold. by destruct (m s) as [[a s']|]. Qed.

Lemma wp_seq2 {S A B C} (a : st S A) (b : st S B) (k : st S C) Q s :
  wp (a ;; b) (λ _ s', wp k Q s') s → wp (a ;; (b ;; k)) Q s.
Proof.
  unfold wp. rewrite !st_bind_unfold. destruct (a s) as [[x s1]|]; [| done].
  rewrite st_bind_unfold. by destruct (b s1) as [[y s2]|].
Qed.

Lemma wp_assoc {S A B C} (a : st S A) (b : st S B) (k : st S C) Q s :
  wp (a ;; (b ;; k)) Q s → wp ((a ;; b) ;; k) Q s.
Proof.
  unfold wp. rewrite !st_bind_unfold. destruct (a s) as [[x s1]|]; [| done].
  by rewrite st_bind_unfold.
Qed.

Lemma wp_seq3 {S A B C D} (a : st S A) (b : st S B) (c : st S C) (k : st S D) Q s :
  wp (a ;; (b ;; c)) (λ _ s', wp k Q s') s → wp (a ;; (b ;; (c ;; k))) Q s.
Proof.
  unfold wp. rewrite !st_bind_unfold. destruct (a s) as [[x s1]|]; [| done].
  apply wp_seq2.
Qed.

Lemma wp_seq4 {S A B C D E} (a : st S A) (b : st S B) (c : st S C) (d : st S D) (k : st S E) Q s :
  wp (a ;; (b ;; (c ;; d))) (λ _ s', wp k Q s') s → wp (a ;; (b ;; (c ;; (d ;; k)))) Q s.
Proof.
  unfold wp. rewrite !st_bind_unfold. destruct (a s) as [[x s1]|]; [| done].
  apply wp_seq3.
Qed.

Lemma wp_mono {S A} (m : st S A) (Q Q' : A → S → Prop) s :
  wp m Q s → (∀ a s', Q a s' → Q' a s') → wp m Q' s.
Proof. unfold wp. destruct (m s) as [[a s']|]; auto. Qed.

Lemma wp_get {S} (Q : S → S → Prop) s : Q s s → wp get Q s.
Proof. done. Qed.

Lemma wp_Ok {S A} (m : st S A) Q s :
  wp m Q s → ∃ a s', m s = Ok (a, s') ∧ Q a s'.
Proof. unfold wp. destruct (m s) as [[a s']|]; [eauto | done]. Qed.

Lemma wp_of_Ok {S A} (m : st S A) (Q : A → S → Prop) s a s' :
  m s = Ok (a, s') → Q a s' → wp m Q s.
Proof. unfold wp. intros ->. done. Qed.
