(* ===== verification/Bpf.v ===== *)
(** * The packet filter machine of bsd/net/bpf_filter.c

    The interpreter [bpf_filter], the packet accessors it uses on mbuf chains
    ([m_hdr_offset], [m_xword], [m_xhalf], [m_xbyte] and the [bp_] variants)
    and the static checker [bpf_validate].  Registers are 32-bit, offsets are
    computed with the wrap-around of [u_int], and every access through a
    pointer is a read of a list that faults out of range. *)

From S2P Require Import Prelude.

(** ** Opcodes (bsd/net/bpf.h) *)

Definition BPF_LD := 0x00.
Definition BPF_LDX := 0x01.
Definition BPF_ST := 0x02.
Definition BPF_STX := 0x03.
Definition BPF_ALU := 0x04.
Definition BPF_JMP := 0x05.
Definition BPF_RET := 0x06.
Definition BPF_MISC := 0x07.
Definition BPF_W := 0x00.
Definition BPF_H := 0x08.
Definition BPF_B := 0x10.
Definition BPF_IMM := 0x00.
Definition BPF_ABS := 0x20.
Definition BPF_IND := 0x40.
Definition BPF_MEM := 0x60.
Definition BPF_LEN := 0x80.
Definition BPF_MSH := 0xa0.
Definition BPF_ADD := 0x00.
Definition BPF_SUB := 0x10.
Definition BPF_MUL := 0x20.
Definition BPF_DIV := 0x30.
Definition BPF_OR := 0x40.
Definition BPF_AND := 0x50.
Definition BPF_LSH := 0x60.
Definition BPF_RSH := 0x70.
Definition BPF_NEG := 0x80.
Definition BPF_JA := 0x00.
Definition BPF_JEQ := 0x10.
Definition BPF_JGT := 0x20.
Definition BPF_JGE := 0x30.
Definition BPF_JSET := 0x40.
Definition BPF_K := 0x00.
Definition BPF_X := 0x08.
Definition BPF_A := 0x10.
Definition BPF_TAX := 0x00.
Definition BPF_TXA := 0x80.

Definition BPF_CLASS (code : Z) : Z := Z.land code 0x07.
Definition BPF_MODE (code : Z) : Z := Z.land code 0xe0.
Definition BPF_OP (code : Z) : Z := Z.land code 0xf0.
Definition BPF_SRC (code : Z) : Z := Z.land code 0x08.

Definition BPF_MAXINSNS := 512.
Definition BPF_MEMWORDS := 16.
Definition BPF_PACKET_TYPE_MBUF := 0.

(** [a .| b] is the C [a | b] of opcode fields. *)
Declare Scope bpf_scope.
Notation "a .| b" := (Z.lor a b) (at level 50, left associativity) : bpf_scope.
#[local] Open Scope bpf_scope.

Record bpf_insn := Insn { code : Z; jt : Z; jf : Z; k : Z }.

(** The C types of the fields. *)
Definition insn_ok (i : bpf_insn) : Prop :=
  in_u 16 (code i) ∧ in_u 8 (jt i) ∧ in_u 8 (jf i) ∧ in_u 32 (k i).

(** ** Packet data *)

Definition byte_ok (b : Z) : Prop := in_u 8 b.

(** [ntohl] and [ntohs] of a little-endian load, as on x86_64 where
    [BPF_ALIGN] is 0. *)
Definition load_le16 (p : list Z) : res Z :=
  b0 ← rd p 0; b1 ← rd p 1; mret (b0 + Z.shiftl b1 8).
Definition load_le32 (p : list Z) : res Z :=
  b0 ← rd p 0; b1 ← rd p 1; b2 ← rd p 2; b3 ← rd p 3;
  mret (b0 + Z.shiftl b1 8 + Z.shiftl b2 16 + Z.shiftl b3 24).
Definition bswap16 (x : Z) : Z :=
  Z.lor (Z.shiftl (Z.land x 0xff) 8) (Z.land (Z.shiftr x 8) 0xff).
Definition bswap32 (x : Z) : Z :=
  Z.lor (Z.lor (Z.lor (Z.shiftl (Z.land x 0xff) 24)
                      (Z.shiftl (Z.land (Z.shiftr x 8) 0xff) 16))
               (Z.shiftl (Z.land (Z.shiftr x 16) 0xff) 8))
        (Z.land (Z.shiftr x 24) 0xff).

Definition EXTRACT_SHORT (p : list Z) : res Z := x ← load_le16 p; mret (bswap16 x).
Definition EXTRACT_LONG (p : list Z) : res Z := x ← load_le32 p; mret (bswap32 x).

(** An mbuf is its data, [m_len] the length of it; a chain is the list of the
    mbufs reached through [m_next], the null pointer the empty chain. *)
Abbreviation mbuf := (list Z).
Definition m_len (m : mbuf) : Z := Z.of_nat (length m).

Definition get_word_from_buffers (cp np : list Z) (num_from_cp : Z) : res Z :=
  if num_from_cp =? 1 then
    c0 ← rd cp 0; n0 ← rd np 0; n1 ← rd np 1; n2 ← rd np 2;
    mret (Z.lor (Z.lor (Z.lor (Z.shiftl c0 24) (Z.shiftl n0 16)) (Z.shiftl n1 8)) n2)
  else if num_from_cp =? 2 then
    c0 ← rd cp 0; c1 ← rd cp 1; n0 ← rd np 0; n1 ← rd np 1;
    mret (Z.lor (Z.lor (Z.lor (Z.shiftl c0 24) (Z.shiftl c1 16)) (Z.shiftl n0 8)) n1)
  else
    c0 ← rd cp 0; c1 ← rd cp 1; c2 ← rd cp 2; n0 ← rd np 0;
    mret (Z.lor (Z.lor (Z.lor (Z.shiftl c0 24) (Z.shiftl c1 16)) (Z.shiftl c2 8)) n0).

(** The [while (k >= len)] loop of [m_hdr_offset], from the mbuf [m] whose
    successors are [rest]. *)
Fixpoint m_skip (m : mbuf) (rest : list mbuf) (k : Z) : option (mbuf * list mbuf * Z) :=
  if k >=? m_len m then
    match rest with
    | [] => None
    | m' :: rest' => m_skip m' rest' (u32 (k - m_len m))
    end
  else Some (m, rest, k).

(** What [m_hdr_offset] leaves: the pointer it returns, the updated [*m_p]
    and [*k_p], and [*len_p]. *)
Record hdr_offset := HdrOffset
  { ho_cp : list Z; ho_m : list mbuf; ho_k : Z; ho_len : Z }.

Definition m_hdr_offset (m : list mbuf) (hdr : list Z) (k : Z)
  : res (option hdr_offset) :=
  let hdrlen := Z.of_nat (length hdr) in
  if k >=? hdrlen then
    match m with
    | [] => Fault
    | m0 :: rest =>
        match m_skip m0 rest (u32 (k - hdrlen)) with
        | None => Ok None
        | Some (m', rest', k') =>
            Ok (Some (HdrOffset (drop (Z.to_nat k') m') rest' k' (m_len m')))
        end
    end
  else Ok (Some (HdrOffset (drop (Z.to_nat k) hdr) m k hdrlen)).

(** The accessors; [None] is [*err = 1]. *)
Definition m_xword (m : list mbuf) (hdr : list Z) (k : Z) : res (option Z) :=
  r ← m_hdr_offset m hdr k;
  match r with
  | None => mret None
  | Some (HdrOffset cp m k len) =>
      if u64 (len - k) >=? 4 then v ← EXTRACT_LONG cp; mret (Some v)
      else match m with
           | [] => mret None
           | np :: _ =>
               if u64 (m_len np + len - k) <? 4 then mret None
               else v ← get_word_from_buffers cp np (u64 (len - k)); mret (Some v)
           end
  end.

Definition m_xhalf (m : list mbuf) (hdr : list Z) (k : Z) : res (option Z) :=
  r ← m_hdr_offset m hdr k;
  match r with
  | None => mret None
  | Some (HdrOffset cp m k len) =>
      if u64 (len - k) >=? 2 then v ← EXTRACT_SHORT cp; mret (Some v)
      else match m with
           | [] => mret None
           | np :: _ =>
               c0 ← rd cp 0; n0 ← rd np 0;
               mret (Some (u16 (Z.lor (Z.shiftl c0 8) n0)))
           end
  end.

Definition m_xbyte (m : list mbuf) (hdr : list Z) (k : Z) : res (option Z) :=
  r ← m_hdr_offset m hdr k;
  match r with
  | None => mret None
  | Some (HdrOffset cp m k len) => v ← rd cp 0; mret (Some v)
  end.

Record bpf_packet := BpfPacket
  { bpfp_type : Z; bpfp_header : list Z; bpfp_mbuf : list mbuf }.

Definition bp_xword (bp : bpf_packet) (k : Z) : res (option Z) :=
  if bpfp_type bp =? BPF_PACKET_TYPE_MBUF
  then m_xword (bpfp_mbuf bp) (bpfp_header bp) k else mret None.
Definition bp_xhalf (bp : bpf_packet) (k : Z) : res (option Z) :=
  if bpfp_type bp =? BPF_PACKET_TYPE_MBUF
  then m_xhalf (bpfp_mbuf bp) (bpfp_header bp) k else mret None.
Definition bp_xbyte (bp : bpf_packet) (k : Z) : res (option Z) :=
  if bpfp_type bp =? BPF_PACKET_TYPE_MBUF
  then m_xbyte (bpfp_mbuf bp) (bpfp_header bp) k else mret None.

(** The argument [p] of [bpf_filter]: packet bytes when [buflen] is not 0, a
    [struct bpf_packet] when it is.  Using one as the other faults. *)
Inductive packet :=
  | PBytes (p : list Z)
  | PPacket (bp : bpf_packet).

Definition pbytes (p : packet) : res (list Z) :=
  match p with PBytes l => Ok l | PPacket _ => Fault end.
Definition ppacket (p : packet) : res bpf_packet :=
  match p with PBytes _ => Fault | PPacket bp => Ok bp end.

(** ** The interpreter *)

Record regs := Regs { rA : Z; rX : Z; rmem : list Z }.
Definition setA (s : regs) (v : Z) : regs := Regs v (rX s) (rmem s).
Definition setX (s : regs) (v : Z) : regs := Regs (rA s) v (rmem s).
Definition setM (s : regs) (m : list Z) : regs := Regs (rA s) (rX s) m.

(** How one iteration of the [while (1)] loop ends: [continue] with the
    program counter moved past [off] further instructions, or [return]. *)
Inductive ctl :=
  | Next (off : Z) (s : regs)
  | Return (v : Z).

(** The C [switch] without fall-through. *)
Fixpoint switch {B} (c : Z) (cases : list (Z * B)) (dflt : B) : B :=
  match cases with
  | [] => dflt
  | (c', b) :: cases' => if c =? c' then b else switch c cases' dflt
  end.

Section interpreter.

(** What compiled code leaves in a 32-bit register for a shift by 32 or more,
    which C leaves undefined. *)
Context (shl_over shr_over : Z → Z → Z).

Definition shl32 (a n : Z) : Z :=
  if n <? 32 then u32 (Z.shiftl a n) else u32 (shl_over a n).
Definition shr32 (a n : Z) : Z :=
  if n <? 32 then Z.shiftr a n else u32 (shr_over a n).

Section step.
Context (p : packet) (wirelen buflen : Z) (pc : bpf_insn) (s : regs).

(** The branch taken when the offset is outside the flat buffer: nothing is
    loaded from a flat buffer, a [struct bpf_packet] is searched. *)
Definition outside (x : bpf_packet → res (option Z)) (set : Z → regs) : res ctl :=
  if negb (buflen =? 0) then Ok (Return 0)
  else bp ← ppacket p; r ← x bp;
       match r with None => Ok (Return 0) | Some v => Ok (Next 0 (set v)) end.

Definition ret_cases : list (Z * res ctl) :=
  [ (BPF_RET .| BPF_K, Ok (Return (k pc)));
    (BPF_RET .| BPF_A, Ok (Return (rA s))) ].

Definition ld_abs_cases : list (Z * res ctl) :=
  [ (BPF_LD .| BPF_W .| BPF_ABS,
      let k := k pc in
      if (k >? buflen) || (4 >? u32 (buflen - k))
      then outside (λ bp, bp_xword bp k) (setA s)
      else l ← pbytes p; v ← EXTRACT_LONG (drop (Z.to_nat k) l); Ok (Next 0 (setA s v)));
    (BPF_LD .| BPF_H .| BPF_ABS,
      let k := k pc in
      if (k >? buflen) || (2 >? u32 (buflen - k))
      then outside (λ bp, bp_xhalf bp k) (setA s)
      else l ← pbytes p; v ← EXTRACT_SHORT (drop (Z.to_nat k) l); Ok (Next 0 (setA s v)));
    (BPF_LD .| BPF_B .| BPF_ABS,
      let k := k pc in
      if k >=? buflen
      then outside (λ bp, bp_xbyte bp k) (setA s)
      else l ← pbytes p; v ← rd l k; Ok (Next 0 (setA s v)));
    (BPF_LD .| BPF_W .| BPF_LEN, Ok (Next 0 (setA s wirelen)));
    (BPF_LDX .| BPF_W .| BPF_LEN, Ok (Next 0 (setX s wirelen))) ].

Definition ld_ind_cases : list (Z * res ctl) :=
  [ (BPF_LD .| BPF_W .| BPF_IND,
      let k' := u32 (rX s + k pc) in
      if (k pc >? buflen) || (rX s >? u32 (buflen - k pc)) || (4 >? u32 (buflen - k'))
      then outside (λ bp, bp_xword bp k') (setA s)
      else l ← pbytes p; v ← EXTRACT_LONG (drop (Z.to_nat k') l); Ok (Next 0 (setA s v)));
    (BPF_LD .| BPF_H .| BPF_IND,
      let k' := u32 (rX s + k pc) in
      if (rX s >? buflen) || (k pc >? u32 (buflen - rX s)) || (2 >? u32 (buflen - k'))
      then outside (λ bp, bp_xhalf bp k') (setA s)
      else l ← pbytes p; v ← EXTRACT_SHORT (drop (Z.to_nat k') l); Ok (Next 0 (setA s v)));
    (BPF_LD .| BPF_B .| BPF_IND,
      let k' := u32 (rX s + k pc) in
      if (k pc >=? buflen) || (rX s >=? u32 (buflen - k pc))
      then outside (λ bp, bp_xbyte bp k') (setA s)
      else l ← pbytes p; v ← rd l k'; Ok (Next 0 (setA s v)));
    (BPF_LDX .| BPF_MSH .| BPF_B,
      let k := k pc in
      if k >=? buflen
      then outside (λ bp, bp_xbyte bp k) (λ x, setX s (Z.shiftl (Z.land x 0xf) 2))
      else l ← pbytes p; v ← rd l k;
           Ok (Next 0 (setX s (Z.shiftl (Z.land v 0xf) 2)))) ].

Definition mem_cases : list (Z * res ctl) :=
  [ (BPF_LD .| BPF_IMM, Ok (Next 0 (setA s (k pc))));
    (BPF_LDX .| BPF_IMM, Ok (Next 0 (setX s (k pc))));
    (BPF_LD .| BPF_MEM,
      if k pc >=? BPF_MEMWORDS then Ok (Return 0)
      else v ← rd (rmem s) (k pc); Ok (Next 0 (setA s (u32 v))));
    (BPF_LDX .| BPF_MEM,
      if k pc >=? BPF_MEMWORDS then Ok (Return 0)
      else v ← rd (rmem s) (k pc); Ok (Next 0 (setX s (u32 v))));
    (BPF_ST,
      if k pc >=? BPF_MEMWORDS then Ok (Return 0)
      else m ← wr (rmem s) (k pc) (s32 (rA s)); Ok (Next 0 (setM s m)));
    (BPF_STX,
      if k pc >=? BPF_MEMWORDS then Ok (Return 0)
      else m ← wr (rmem s) (k pc) (s32 (rX s)); Ok (Next 0 (setM s m))) ].

Definition jump (c : bool) : res ctl := Ok (Next (if c then jt pc else jf pc) s).

Definition jmp_cases : list (Z * res ctl) :=
  [ (BPF_JMP .| BPF_JA, Ok (Next (k pc) s));
    (BPF_JMP .| BPF_JGT .| BPF_K, jump (rA s >? k pc));
    (BPF_JMP .| BPF_JGE .| BPF_K, jump (rA s >=? k pc));
    (BPF_JMP .| BPF_JEQ .| BPF_K, jump (rA s =? k pc));
    (BPF_JMP .| BPF_JSET .| BPF_K, jump (negb (Z.land (rA s) (k pc) =? 0)));
    (BPF_JMP .| BPF_JGT .| BPF_X, jump (rA s >? rX s));
    (BPF_JMP .| BPF_JGE .| BPF_X, jump (rA s >=? rX s));
    (BPF_JMP .| BPF_JEQ .| BPF_X, jump (rA s =? rX s));
    (BPF_JMP .| BPF_JSET .| BPF_X, jump (negb (Z.land (rA s) (rX s) =? 0))) ].

Definition alu (v : Z) : res ctl := Ok (Next 0 (setA s v)).

Definition alu_x_cases : list (Z * res ctl) :=
  [ (BPF_ALU .| BPF_ADD .| BPF_X, alu (u32 (rA s + rX s)));
    (BPF_ALU .| BPF_SUB .| BPF_X, alu (u32 (rA s - rX s)));
    (BPF_ALU .| BPF_MUL .| BPF_X, alu (u32 (rA s * rX s)));
    (BPF_ALU .| BPF_DIV .| BPF_X,
      if rX s =? 0 then Ok (Return 0) else alu (rA s `div` rX s));
    (BPF_ALU .| BPF_AND .| BPF_X, alu (Z.land (rA s) (rX s)));
    (BPF_ALU .| BPF_OR .| BPF_X, alu (Z.lor (rA s) (rX s)));
    (BPF_ALU .| BPF_LSH .| BPF_X, alu (shl32 (rA s) (rX s)));
    (BPF_ALU .| BPF_RSH .| BPF_X, alu (shr32 (rA s) (rX s))) ].

(** Division by a zero constant traps: there is no run-time check. *)
Definition alu_k_cases : list (Z * res ctl) :=
  [ (BPF_ALU .| BPF_ADD .| BPF_K, alu (u32 (rA s + k pc)));
    (BPF_ALU .| BPF_SUB .| BPF_K, alu (u32 (rA s - k pc)));
    (BPF_ALU .| BPF_MUL .| BPF_K, alu (u32 (rA s * k pc)));
    (BPF_ALU .| BPF_DIV .| BPF_K,
      if k pc =? 0 then Fault else alu (rA s `div` k pc));
    (BPF_ALU .| BPF_AND .| BPF_K, alu (Z.land (rA s) (k pc)));
    (BPF_ALU .| BPF_OR .| BPF_K, alu (Z.lor (rA s) (k pc)));
    (BPF_ALU .| BPF_LSH .| BPF_K, alu (shl32 (rA s) (k pc)));
    (BPF_ALU .| BPF_RSH .| BPF_K, alu (shr32 (rA s) (k pc)));
    (BPF_ALU .| BPF_NEG, alu (u32 (- rA s))) ].

Definition misc_cases : list (Z * res ctl) :=
  [ (BPF_MISC .| BPF_TAX, Ok (Next 0 (setX s (rA s))));
    (BPF_MISC .| BPF_TXA, Ok (Next 0 (setA s (rX s)))) ].

(** One iteration; an unknown opcode returns 0 in the kernel. *)
Definition bpf_step : res ctl :=
  switch (code pc)
    (ret_cases ++ ld_abs_cases ++ ld_ind_cases ++ mem_cases ++ jmp_cases
     ++ alu_x_cases ++ alu_k_cases ++ misc_cases)
    (Ok (Return 0)).

End step.

(** The loop, at most [fuel] instructions of it; [None] is out of fuel. *)
Fixpoint bpf_run (fuel : nat) (prog : list bpf_insn) (p : packet)
    (wirelen buflen : Z) (pc : Z) (s : regs) : option (res Z) :=
  match fuel with
  | O => None
  | S fuel' =>
      match rd prog pc with
      | Fault => Some Fault
      | Ok i =>
          match bpf_step p wirelen buflen i s with
          | Fault => Some Fault
          | Ok (Return v) => Some (Ok v)
          | Ok (Next off s') =>
              bpf_run fuel' prog p wirelen buflen (pc + off + 1) s'
          end
      end
  end.

(** [None] for the null program pointer, which accepts the whole packet. *)
Definition bpf_filter (fuel : nat) (prog : option (list bpf_insn)) (p : packet)
    (wirelen buflen : Z) : option (res Z) :=
  match prog with
  | None => Some (Ok (u32 (-1)))
  | Some f => bpf_run fuel f p wirelen buflen 0 (Regs 0 0 (replicate 16 0))
  end.

End interpreter.

(** ** The validator *)

Section validator.
Context (bpf_maxbufsize : Z).

(** The body of the [for] loop at index [i]; [false] is [return 0]. *)
Definition validate_insn (len i : Z) (p : bpf_insn) : bool :=
  let c := BPF_CLASS (code p) in
  if (c =? BPF_LD) || (c =? BPF_LDX) then
    let m := BPF_MODE (code p) in
    if m =? BPF_IMM then true
    else if (m =? BPF_ABS) || (m =? BPF_IND) || (m =? BPF_MSH) then
      negb (k p >=? bpf_maxbufsize)
    else if m =? BPF_MEM then negb (k p >=? BPF_MEMWORDS)
    else m =? BPF_LEN
  else if (c =? BPF_ST) || (c =? BPF_STX) then negb (k p >=? BPF_MEMWORDS)
  else if c =? BPF_ALU then
    let o := BPF_OP (code p) in
    if (o =? BPF_ADD) || (o =? BPF_SUB) || (o =? BPF_MUL) || (o =? BPF_OR)
       || (o =? BPF_AND) || (o =? BPF_LSH) || (o =? BPF_RSH) || (o =? BPF_NEG)
    then true
    else if o =? BPF_DIV then
      negb ((BPF_SRC (code p) =? BPF_K) && (k p =? 0))
    else false
  else if c =? BPF_JMP then
    let from := u32 (i + 1) in
    let o := BPF_OP (code p) in
    if o =? BPF_JA then
      negb ((u32 (from + k p) <? from) || (u32 (from + k p) >=? len))
    else if (o =? BPF_JEQ) || (o =? BPF_JGT) || (o =? BPF_JGE) || (o =? BPF_JSET)
    then negb ((u32 (from + jt p) >=? len) || (u32 (from + jf p) >=? len))
    else false
  else (c =? BPF_RET) || (c =? BPF_MISC).

(** The loop over the last [n] instructions of the program of length [len]. *)
Fixpoint validate_loop (f : list bpf_insn) (len : Z) (n : nat) : res bool :=
  match n with
  | O => mret true
  | S n' =>
      let i := len - Z.of_nat n in
      p ← rd f i;
      if validate_insn len i p then validate_loop f len n' else mret false
  end.

Definition bpf_validate (f : list bpf_insn) (len : Z) : res Z :=
  if (len <? 1) || (len >? BPF_MAXINSNS) then mret 0
  else ok ← validate_loop f len (Z.to_nat len);
       if ok : bool then
         last ← rd f (len - 1);
         mret (if BPF_CLASS (code last) =? BPF_RET then 1 else 0)
       else mret 0.

End validator.
