(* ===== verification/BpfSafety.v ===== *)
(** * Safety of validated packet filters *)

From S2P Require Import Prelude Bpf.

(** ** Big-endian reads of a byte list *)

Definition be_byte (l : list Z) : option Z := head l.
Definition be_half (l : list Z) : option Z :=
  match l with a :: b :: _ => Some (a * 2 ^ 8 + b) | _ => None end.
Definition be_word (l : list Z) : option Z :=
  match l with
  | a :: b :: c :: d :: _ => Some (a * 2 ^ 24 + b * 2 ^ 16 + c * 2 ^ 8 + d)
  | _ => None
  end.
Definition of_opt {B} (o : option B) : res B :=
  match o with Some b => Ok b | None => Fault end.

Abbreviation bytes_ok := (Forall byte_ok).

Lemma lor4 a b c d :
  byte_ok b → byte_ok c → byte_ok d →
  Z.lor (Z.lor (Z.lor (Z.shiftl a 24) (Z.shiftl b 16)) (Z.shiftl c 8)) d
  = a * 2 ^ 24 + b * 2 ^ 16 + c * 2 ^ 8 + d.
Proof.
  intros Hb Hc Hd. unfold byte_ok, in_u in *.
  rewrite <- !Z.lor_assoc, (lor_shiftl c d 8), (lor_shiftl b _ 16),
    (lor_shiftl a _ 24) by lia. lia.
Qed.

Lemma bswap32_be b0 b1 b2 b3 :
  byte_ok b0 → byte_ok b1 → byte_ok b2 → byte_ok b3 →
  bswap32 (b0 + Z.shiftl b1 8 + Z.shiftl b2 16 + Z.shiftl b3 24)
  = b0 * 2 ^ 24 + b1 * 2 ^ 16 + b2 * 2 ^ 8 + b3.
Proof.
  intros H0 H1 H2 H3. unfold bswap32, byte_ok, in_u in *.
  rewrite (Z.shiftl_mul_pow2 b1), (Z.shiftl_mul_pow2 b2), (Z.shiftl_mul_pow2 b3) by lia.
  change 0xff with (Z.ones 8). rewrite !Z.land_ones, !Z.shiftr_div_pow2 by lia.
  set (x := b0 + _ + _ + _).
  replace (x mod 2 ^ 8) with b0 by (subst x; zlia).
  replace (x / 2 ^ 8 mod 2 ^ 8) with b1 by (subst x; zlia).
  replace (x / 2 ^ 16 mod 2 ^ 8) with b2 by (subst x; zlia).
  replace (x / 2 ^ 24 mod 2 ^ 8) with b3 by (subst x; zlia).
  rewrite lor4; unfold byte_ok, in_u; lia.
Qed.

Lemma bswap16_be b0 b1 :
  byte_ok b0 → byte_ok b1 → bswap16 (b0 + Z.shiftl b1 8) = b0 * 2 ^ 8 + b1.
Proof.
  intros H0 H1. unfold bswap16, byte_ok, in_u in *.
  rewrite (Z.shiftl_mul_pow2 b1) by lia.
  change 0xff with (Z.ones 8). rewrite !Z.land_ones, !Z.shiftr_div_pow2 by lia.
  rewrite lor_shiftl by zlia. zlia.
Qed.

Lemma EXTRACT_LONG_be l : bytes_ok l → EXTRACT_LONG l = of_opt (be_word l).
Proof.
  intros Hl. destruct l as [|a [|b [|c [|d l]]]]; try done.
  inv Hl; inv H2; inv H4; inv H5.
  change (Ok (bswap32 (a + Z.shiftl b 8 + Z.shiftl c 16 + Z.shiftl d 24)) = of_opt (be_word (a :: b :: c :: d :: l))). by rewrite bswap32_be.
Qed.

Lemma EXTRACT_SHORT_be l : bytes_ok l → EXTRACT_SHORT l = of_opt (be_half l).
Proof.
  intros Hl. destruct l as [|a [|b l]]; try done.
  inv Hl; inv H2. change (Ok (bswap16 (a + Z.shiftl b 8)) = of_opt (be_half (a :: b :: l))). by rewrite bswap16_be.
Qed.

(** ** Mbuf chains as one byte string *)

Definition chain_ok (m : list mbuf) : Prop :=
  Forall (λ b, bytes_ok b ∧ m_len b < 2 ^ 31) m.

(** The bytes a [struct bpf_packet] presents. *)
Definition packet_bytes (bp : bpf_packet) : list Z :=
  bpfp_header bp ++ concat (bpfp_mbuf bp).

Lemma m_len_nonneg m : 0 <= m_len m.
Proof. unfold m_len. lia. Qed.

Lemma m_skip_spec m rest k :
  in_u 32 k →
  match m_skip m rest k with
  | Some (m', rest', k') =>
      0 <= k' < m_len m' ∧
      drop (Z.to_nat k) (concat (m :: rest)) = drop (Z.to_nat k') m' ++ concat rest' ∧
      (chain_ok (m :: rest) → chain_ok (m' :: rest')) ∧
      (Forall (λ b, b ≠ []) rest → Forall (λ b, b ≠ []) rest') ∧
      (∃ n, rest' = drop n (m :: rest))
  | None => drop (Z.to_nat k) (concat (m :: rest)) = []
  end.
Proof.
  revert m k. induction rest as [|m2 rest IH]; intros m k Hk; simpl m_skip.
  all: destruct (Z.geb_spec k (m_len m)) as [Hge|Hlt]; unfold in_u, m_len in *.
  - apply drop_ge. simpl. rewrite app_nil_r. lia.
  - split; [lia |]. simpl. rewrite !app_nil_r. split; [done |].
    split; [done |]. split; [done |]. by exists 1%nat.
  - assert (Hk' : in_u 32 (u32 (k - Z.of_nat (length m)))) by (by apply wrap_in_u).
    specialize (IH m2 _ Hk').
    rewrite (wrap_small 32) in * by (unfold in_u; lia).
    assert (Hd : drop (Z.to_nat k) (concat (m :: m2 :: rest))
                 = drop (Z.to_nat (k - Z.of_nat (length m))) (concat (m2 :: rest))).
    { simpl. rewrite drop_app_ge by lia. f_equal. lia. }
    destruct (m_skip _ _ _) as [[[m' rest'] k']|]; [| by rewrite Hd].
    rewrite Hd. destruct IH as (H1 & H2 & H3 & H4 & n & H5).
    split; [done |]. split; [done |]. split.
    { intros Hc. apply H3. by inv Hc. }
    split; [| by exists (S n)].
    intros Hne. inv Hne. by apply H4.
  - split; [lia |]. split; [| split; [done |]; split; [done |]; by exists 1%nat].
    simpl. rewrite drop_app_le by lia. done.
Qed.

(** The bounds under which the [size_t] arithmetic of the accessors is exact:
    [m_len] is a 32-bit signed integer and the header length is far below
    [2 ^ 63]. *)
Record bpf_bufs_ok (m : list mbuf) (hdr : list Z) : Prop := {
  bo_chain : chain_ok m;
  bo_hdr : bytes_ok hdr;
  bo_hdrlen : Z.of_nat (length hdr) < 2 ^ 62;
  bo_ne : m ≠ [];
}.

Lemma chain_ok_bytes m : chain_ok m → bytes_ok (concat m).
Proof.
  intros Hc. induction Hc as [|b m [Hb _] _ IH]; simpl; [constructor |].
  by apply Forall_app_2.
Qed.

Lemma m_hdr_offset_spec m hdr k (P : mbuf → Prop) :
  bpf_bufs_ok m hdr → in_u 32 k → Forall P m →
  match m_hdr_offset m hdr k with
  | Fault => False
  | Ok None => drop (Z.to_nat k) (hdr ++ concat m) = []
  | Ok (Some (HdrOffset cp m' k' len)) =>
      0 <= k' < len ∧ len < 2 ^ 62 ∧ Z.of_nat (length cp) = len - k' ∧
      bytes_ok cp ∧ chain_ok m' ∧ Forall P m' ∧
      drop (Z.to_nat k) (hdr ++ concat m) = cp ++ concat m'
  end.
Proof.
  intros [Hc Hh Hlen Hne] Hk HP. unfold m_hdr_offset.
  destruct (Z.geb_spec k (Z.of_nat (length hdr))) as [Hge|Hlt].
  - destruct m as [|m0 rest]; [done |].
    pose proof (m_skip_spec m0 rest (u32 (k - Z.of_nat (length hdr)))
                  ltac:(by apply wrap_in_u)) as Hs.
    rewrite (wrap_small 32) in * by (unfold in_u in *; lia).
    assert (Hd : drop (Z.to_nat k) (hdr ++ concat (m0 :: rest))
                 = drop (Z.to_nat (k - Z.of_nat (length hdr))) (concat (m0 :: rest))).
    { rewrite drop_app_ge by lia. f_equal. lia. }
    rewrite Hd. destruct (m_skip _ _ _) as [[[m' rest'] k']|]; [| done].
    destruct Hs as (H1 & H2 & H3 & _ & n & H5). specialize (H3 Hc).
    inv H3. destruct H4 as [Hb Hl].
    split; [lia |]. split; [lia |]. split; [rewrite length_drop; unfold m_len in *; lia |].
    split; [by apply Forall_drop |]. split; [done |].
    split; [by apply Forall_drop | done].
  - unfold in_u in Hk. split; [lia |]. split; [lia |].
    split; [rewrite length_drop; lia |]. split; [by apply Forall_drop |].
    split; [done |]. split; [done |]. by rewrite drop_app_le by lia.
Qed.

Lemma m_xbyte_flat m hdr k :
  bpf_bufs_ok m hdr → in_u 32 k →
  m_xbyte m hdr k = Ok (be_byte (drop (Z.to_nat k) (hdr ++ concat m))).
Proof.
  intros Hok Hk. unfold m_xbyte.
  pose proof (m_hdr_offset_spec m hdr k (λ _, True) Hok Hk ltac:(by apply Forall_true)) as Hs.
  destruct (m_hdr_offset m hdr k) as [[[cp m' k' len]|]|]; simpl; [| by rewrite Hs | done].
  destruct Hs as (H1 & _ & H2 & _ & _ & _ & ->).
  destruct cp as [|c cp]; [simpl in H2; lia | done].
Qed.

Lemma m_xhalf_flat m hdr k :
  bpf_bufs_ok m hdr → in_u 32 k → Forall (λ b, b ≠ []) m →
  m_xhalf m hdr k = Ok (be_half (drop (Z.to_nat k) (hdr ++ concat m))).
Proof.
  intros Hok Hk Hne. unfold m_xhalf.
  pose proof (m_hdr_offset_spec m hdr k _ Hok Hk Hne) as Hs.
  destruct (m_hdr_offset m hdr k) as [[[cp m' k' len]|]|]; simpl; [| by rewrite Hs | done].
  destruct Hs as (H1 & H2 & H3 & Hcp & Hm & Hne' & ->).
  rewrite (wrap_small 64) by (unfold in_u; lia). rewrite <- H3.
  destruct (Z.geb_spec (Z.of_nat (length cp)) 2) as [Hge|Hlt].
  - rewrite EXTRACT_SHORT_be by done. destruct cp as [|a [|b cp]]; simpl in *; [lia | lia | done].
  - destruct cp as [|a [|b cp]]; simpl in H3, Hlt; [lia | | lia].
    destruct m' as [|[|n0 np] m'']; [done | by inv Hne' |].
    inv Hcp. inv Hm. destruct H6 as [Hnp _]. inv Hnp.
    change (Ok (Some (u16 (Z.lor (Z.shiftl a 8) n0))) =@{res (option Z)} Ok (Some (a * 2 ^ 8 + n0))).
    unfold byte_ok, in_u in *. rewrite lor_shiftl by lia.
    by rewrite wrap_small by (unfold in_u; lia).
Qed.

Lemma get_word_be cp np :
  bytes_ok cp → bytes_ok np → (1 <= length cp < 4)%nat →
  get_word_from_buffers cp np (Z.of_nat (length cp)) = of_opt (be_word (cp ++ np)).
Proof.
  intros Hc Hn Hl. destruct cp as [|a [|b [|c [|d cp]]]]; simpl in Hl; try lia;
    repeat match goal with H : bytes_ok (_ :: _) |- _ => inv H end.
  - destruct np as [|x [|y [|z np]]]; try done.
    repeat match goal with H : bytes_ok (_ :: _) |- _ => inv H end.
    change (Ok (Z.lor (Z.lor (Z.lor (Z.shiftl a 24) (Z.shiftl x 16)) (Z.shiftl y 8)) z)
            = of_opt (be_word ([a] ++ x :: y :: z :: np))). by rewrite lor4.
  - destruct np as [|x [|y np]]; try done.
    repeat match goal with H : bytes_ok (_ :: _) |- _ => inv H end.
    change (Ok (Z.lor (Z.lor (Z.lor (Z.shiftl a 24) (Z.shiftl b 16)) (Z.shiftl x 8)) y)
            = of_opt (be_word ([a; b] ++ x :: y :: np))). by rewrite lor4.
  - destruct np as [|x np]; try done.
    repeat match goal with H : bytes_ok (_ :: _) |- _ => inv H end.
    change (Ok (Z.lor (Z.lor (Z.lor (Z.shiftl a 24) (Z.shiftl b 16)) (Z.shiftl c 8)) x)
            = of_opt (be_word ([a; b; c] ++ x :: np))). by rewrite lor4.
Qed.

Lemma be_word_app l1 l2 : (4 <= length l1)%nat → be_word (l1 ++ l2) = be_word l1.
Proof. intros H. destruct l1 as [|a [|b [|c [|d l1]]]]; simpl in *; try lia; done. Qed.

Lemma be_word_short l : (length l < 4)%nat → be_word l = None.
Proof. intros H. destruct l as [|a [|b [|c [|d l]]]]; simpl in *; try lia; done. Qed.

Lemma be_word_Some l : (4 <= length l)%nat → ∃ v, be_word l = Some v.
Proof. intros H. destruct l as [|a [|b [|c [|d l]]]]; simpl in *; try lia; eauto. Qed.

(** The word accessor looks at two buffers at most: it is exact when every
    buffer of the chain has three bytes, and otherwise misses only. *)
Lemma m_xword_flat m hdr k :
  bpf_bufs_ok m hdr → in_u 32 k →
  ∃ r, m_xword m hdr k = Ok r ∧
    (r = None ∨ r = be_word (drop (Z.to_nat k) (hdr ++ concat m))) ∧
    (Forall (λ b, 3 <= length b)%nat m →
     r = be_word (drop (Z.to_nat k) (hdr ++ concat m))).
Proof.
  intros Hok Hk. unfold m_xword.
  pose proof (λ P, m_hdr_offset_spec m hdr k P Hok Hk) as Hs.
  destruct (m_hdr_offset m hdr k) as [[[cp m' k' len]|]|]; simpl.
  3: by destruct (Hs (λ _, True) ltac:(by apply Forall_true)).
  2: { eexists. split; [done |]. rewrite (Hs (λ _, True) ltac:(by apply Forall_true)).
       split; [by left | done]. }
  destruct (Hs (λ _, True) ltac:(by apply Forall_true)) as (H1 & H2 & H3 & Hcp & Hm & _ & ->).
  rewrite (wrap_small 64) by (unfold in_u; lia). rewrite <- H3.
  destruct (Z.geb_spec (Z.of_nat (length cp)) 4) as [Hge|Hlt].
  { rewrite EXTRACT_LONG_be, be_word_app by (done || lia).
    destruct (be_word_Some cp ltac:(lia)) as [v ->]. simpl. eauto. }
  destruct m' as [|np m'']; simpl concat.
  { eexists. split; [done |]. rewrite app_nil_r, be_word_short by lia. eauto. }
  inv Hm. destruct H4 as [Hnp Hl]. unfold m_len in *.
  rewrite (wrap_small 64) by (unfold in_u; lia).
  destruct (Z.ltb_spec (Z.of_nat (length np) + len - k') 4) as [Hs4|Hs4].
  { eexists. split; [done |]. split; [by left |]. intros H3b.
    destruct (Hs _ H3b) as (_ & _ & _ & _ & _ & HP & _). inv HP.
    lia. }
  rewrite get_word_be by (done || lia). rewrite app_assoc, (be_word_app (cp ++ np)) by (rewrite length_app; lia).
  destruct (be_word_Some (cp ++ np)) as [v ->]; [rewrite length_app; lia |].
  simpl. eauto.
Qed.

(** ** One step of a validated instruction *)

Definition regs_ok (s : regs) : Prop :=
  in_u 32 (rA s) ∧ in_u 32 (rX s) ∧ length (rmem s) = 16%nat.

(** The instructions that load a half word from the packet. *)
Definition loads_half (i : bpf_insn) : bool :=
  (code i =? Z.lor (Z.lor BPF_LD BPF_H) BPF_ABS) || (code i =? Z.lor (Z.lor BPF_LD BPF_H) BPF_IND).

(** Packets as the kernel has them; no mbuf may be empty if half words are
    loaded. *)
Definition packet_ok (half : bool) (p : packet) (buflen : Z) : Prop :=
  in_u 32 buflen ∧
  match p with
  | PBytes l => 0 < buflen <= Z.of_nat (length l) ∧ bytes_ok l
  | PPacket bp =>
      buflen = 0 ∧
      (bpfp_type bp = BPF_PACKET_TYPE_MBUF →
       bpf_bufs_ok (bpfp_mbuf bp) (bpfp_header bp) ∧
       (half = true → Forall (λ b, b ≠ []) (bpfp_mbuf bp)))
  end.

(** What a step from index [i] of a program of length [len] may do. *)
Definition step_ok (len i : Z) (r : res ctl) : Prop :=
  match r with
  | Fault => False
  | Ok (Return v) => in_u 32 v
  | Ok (Next off s') => 0 <= off ∧ (off = 0 ∨ i + 1 + off < len) ∧ regs_ok s'
  end.

Lemma switch_ind {B} (P : B → Prop) c cases d :
  Forall (λ cb, c = cb.1 → P cb.2) cases → P d → P (switch c cases d).
Proof.
  intros Hc Hd. induction Hc as [|[c' b] cases Hb _ IH]; simpl in *; [done |].
  destruct (Z.eqb_spec c c'); auto.
Qed.

(** One goal per [case] of a switch. *)
Ltac each_case :=
  repeat match goal with
  | |- Forall _ (_ :: _) => apply Forall_cons_2; [cbn [fst snd]; intros Hcode |]
  | |- Forall _ [] => by apply Forall_nil_2
  end.

Lemma be_byte_range l v : bytes_ok l → be_byte l = Some v → in_u 8 v.
Proof. intros Hl. destruct Hl; naive_solver. Qed.
Lemma be_half_range l v : bytes_ok l → be_half l = Some v → in_u 16 v.
Proof.
  intros Hl Hv. destruct l as [|a [|b l]]; try done. inv Hv. inv Hl. inv H2.
  unfold byte_ok, in_u in *. lia.
Qed.
Lemma be_word_range l v : bytes_ok l → be_word l = Some v → in_u 32 v.
Proof.
  intros Hl Hv. destruct l as [|a [|b [|c [|d l]]]]; try done. inv Hv.
  repeat match goal with H : bytes_ok (_ :: _) |- _ => inv H end.
  unfold byte_ok, in_u in *. lia.
Qed.
Lemma in_u_weaken w w' v : 0 <= w <= w' → in_u w v → in_u w' v.
Proof.
  intros Hw [H0 H1]. split; [done |].
  apply Z.lt_le_trans with (2 ^ w); [done |]. apply Z.pow_le_mono_r; lia.
Qed.
Lemma packet_bytes_ok m hdr :
  bpf_bufs_ok m hdr → bytes_ok (hdr ++ concat m).
Proof. intros [Hc Hh _ _]. apply Forall_app_2; [done | by apply chain_ok_bytes]. Qed.

Lemma flat_drop_range l buflen k n :
  bytes_ok l → 0 <= k → k + Z.of_nat n <= buflen → buflen <= Z.of_nat (length l) →
  bytes_ok (drop (Z.to_nat k) l) ∧ (n <= length (drop (Z.to_nat k) l))%nat.
Proof. intros. split; [by apply Forall_drop |]. rewrite length_drop. lia. Qed.

Section step_safe.
Context (shl_over shr_over : Z → Z → Z).
Context (bpf_maxbufsize : Z).
Context (p : packet) (wirelen buflen : Z) (s : regs).
Context (half : bool) (Hp : packet_ok half p buflen) (Hs : regs_ok s) (Hw : in_u 32 wirelen).

Lemma next0_ok len i s' : regs_ok s' → step_ok len i (Ok (Next 0 s')).
Proof. intros H. split; [lia |]. auto. Qed.

Lemma alu_ok len i v : in_u 32 v → step_ok len i (alu s v).
Proof. intros H. apply next0_ok. by destruct Hs as (_ & ? & ?). Qed.

Lemma setA_ok v : in_u 32 v → regs_ok (setA s v).
Proof. intros H. by destruct Hs as (_ & ? & ?). Qed.
Lemma setX_ok v : in_u 32 v → regs_ok (setX s v).
Proof. intros H. by destruct Hs as (? & _ & ?). Qed.

Lemma outside_ok len i x set :
  (∀ bp, buflen = 0 → p = PPacket bp → ∃ r, x bp = Ok r ∧ ∀ v, r = Some v → in_u 32 v) →
  (∀ v, in_u 32 v → regs_ok (set v)) →
  step_ok len i (outside p buflen x set).
Proof.
  intros Hx Hset. unfold outside. destruct (Z.eqb_spec buflen 0) as [Hb|Hb]; simpl.
  2: { unfold in_u; lia. }
  destruct Hp as [_ Hpk]. destruct p as [l|bp]; simpl; [lia |].
  destruct (Hx bp Hb eq_refl) as (r & -> & Hr). simpl.
  destruct r as [v|]; simpl; [| unfold in_u; lia]. split; [lia |]. split; [by left |]. auto.
Qed.

Lemma bp_xbyte_ok bp k :
  p = PPacket bp → in_u 32 k →
  ∃ r, bp_xbyte bp k = Ok r ∧ ∀ v, r = Some v → in_u 32 v.
Proof.
  intros -> Hk. destruct Hp as (_ & _ & Hbp). unfold bp_xbyte.
  destruct (Z.eqb_spec (bpfp_type bp) BPF_PACKET_TYPE_MBUF) as [Ht|]; [| by eexists].
  destruct (Hbp Ht) as [Hb _]. rewrite m_xbyte_flat by done. eexists. split; [done |].
  intros v Hv. eapply (in_u_weaken 8), be_byte_range, Hv; [lia |].
  by apply Forall_drop, packet_bytes_ok.
Qed.

Lemma bp_xhalf_ok bp k :
  half = true → p = PPacket bp → in_u 32 k →
  ∃ r, bp_xhalf bp k = Ok r ∧ ∀ v, r = Some v → in_u 32 v.
Proof.
  intros Hh -> Hk. destruct Hp as (_ & _ & Hbp). unfold bp_xhalf.
  destruct (Z.eqb_spec (bpfp_type bp) BPF_PACKET_TYPE_MBUF) as [Ht|]; [| by eexists].
  destruct (Hbp Ht) as [Hb Hne]. rewrite m_xhalf_flat by auto. eexists. split; [done |].
  intros v Hv. eapply (in_u_weaken 16), be_half_range, Hv; [lia |].
  by apply Forall_drop, packet_bytes_ok.
Qed.

Lemma bp_xword_ok bp k :
  p = PPacket bp → in_u 32 k →
  ∃ r, bp_xword bp k = Ok r ∧ ∀ v, r = Some v → in_u 32 v.
Proof.
  intros -> Hk. destruct Hp as (_ & _ & Hbp). unfold bp_xword.
  destruct (Z.eqb_spec (bpfp_type bp) BPF_PACKET_TYPE_MBUF) as [Ht|]; [| by eexists].
  destruct (Hbp Ht) as [Hb _].
  destruct (m_xword_flat (bpfp_mbuf bp) (bpfp_header bp) k Hb Hk) as (r & -> & Hr & _).
  exists r. split; [done |]. intros v ->.
  destruct Hr as [|Hv]; [done |].
  eapply be_word_range; [| by symmetry]. by apply Forall_drop, packet_bytes_ok.
Qed.

(** Loads from the flat buffer, once the bounds check of the code passed. *)
Lemma flat_word_ok len i k (set : Z → regs) :
  0 <= k → k + 4 <= buflen → (∀ v, in_u 32 v → regs_ok (set v)) →
  step_ok len i (l ← pbytes p; v ← EXTRACT_LONG (drop (Z.to_nat k) l); Ok (Next 0 (set v))).
Proof.
  intros Hk Hb Hset. destruct Hp as [_ Hpk]. destruct p as [l|bp]; simpl; [| lia].
  destruct Hpk as [Hlen Hl].
  destruct (flat_drop_range l buflen k 4 Hl) as [H1 H2]; [lia.. |].
  rewrite EXTRACT_LONG_be by done. destruct (be_word_Some _ H2) as [v Hv]. rewrite Hv. simpl.
  apply next0_ok, Hset. by eapply be_word_range.
Qed.

Lemma flat_half_ok len i k (set : Z → regs) :
  0 <= k → k + 2 <= buflen → (∀ v, in_u 32 v → regs_ok (set v)) →
  step_ok len i (l ← pbytes p; v ← EXTRACT_SHORT (drop (Z.to_nat k) l); Ok (Next 0 (set v))).
Proof.
  intros Hk Hb Hset. destruct Hp as [_ Hpk]. destruct p as [l|bp]; simpl; [| lia].
  destruct Hpk as [Hlen Hl].
  destruct (flat_drop_range l buflen k 2 Hl) as [H1 H2]; [lia.. |].
  rewrite EXTRACT_SHORT_be by done.
  destruct (drop (Z.to_nat k) l) as [|a [|b t]] eqn:Hd; simpl in H2; [lia.. |].
  simpl. apply next0_ok, Hset. apply (in_u_weaken 16); [lia |].
  by apply (be_half_range (a :: b :: t)).
Qed.

Lemma flat_byte_ok len i k (set : Z → regs) :
  0 <= k → k < buflen → (∀ v, in_u 8 v → regs_ok (set v)) →
  step_ok len i (l ← pbytes p; v ← rd l k; Ok (Next 0 (set v))).
Proof.
  intros Hk Hb Hset. destruct Hp as [_ Hpk]. destruct p as [l|bp]; simpl; [| lia].
  destruct Hpk as [Hlen Hl]. destruct (rd_in_range l k) as [v Hv]; [lia |].
  rewrite Hv. simpl. apply next0_ok, Hset.
  apply rd_lookup in Hv. destruct Hv as [_ Hv].
  by apply (Forall_lookup_1 _ _ _ _ Hl) in Hv.
Qed.

Section insn.
Context (len i : Z) (pc : bpf_insn).
Context (Hpc : insn_ok pc) (Hi : 0 <= i < len) (Hlen : len <= BPF_MAXINSNS).
Context (Hv : validate_insn bpf_maxbufsize len i pc = true) (Hh : loads_half pc = true → half = true).

Abbreviation cases_ok cs := (Forall (λ cb, code pc = cb.1 → step_ok len i cb.2) cs).

Lemma ret_cases_ok : cases_ok (ret_cases pc s).
Proof.
  destruct Hpc as (_ & _ & _ & Hk). destruct Hs as (HA & _).
  unfold ret_cases. each_case; done.
Qed.

Lemma ld_abs_cases_ok : cases_ok (ld_abs_cases p wirelen buflen pc s).
Proof.
  destruct Hpc as (_ & _ & _ & Hk). pose proof (proj1 Hp) as Hb.
  pose proof setA_ok as HsA. pose proof setX_ok as HsX.
  unfold ld_abs_cases. each_case.
  - destruct (_ || _) eqn:E.
    + apply outside_ok; [| done]. intros bp _ Hbp. by apply bp_xword_ok.
    + unfold in_u in *. rewrite (wrap_small 32) in E by (unfold in_u; lia).
      apply flat_word_ok; [lia.. | done].
  - destruct (_ || _) eqn:E.
    + apply outside_ok; [| done]. intros bp _ Hbp. apply bp_xhalf_ok; [| done | done]. apply Hh. unfold loads_half. by rewrite Hcode.
    + unfold in_u in *. rewrite (wrap_small 32) in E by (unfold in_u; lia).
      apply flat_half_ok; [lia.. | done].
  - destruct (_ >=? _) eqn:E.
    + apply outside_ok; [| done]. intros bp _ Hbp. by apply bp_xbyte_ok.
    + unfold in_u in *. apply flat_byte_ok; [lia.. |].
      intros v Hv8. apply HsA. by apply (in_u_weaken 8).
  - apply next0_ok; auto.
  - apply next0_ok; auto.
Qed.

Lemma msh_range v : in_u 32 v → in_u 32 (Z.shiftl (Z.land v 0xf) 2).
Proof.
  intros Hv32. change 0xf with (Z.ones 4). rewrite Z.land_ones, Z.shiftl_mul_pow2 by lia.
  unfold in_u. zlia.
Qed.

Lemma ld_ind_cases_ok : cases_ok (ld_ind_cases p buflen pc s).
Proof.
  destruct Hpc as (_ & _ & _ & Hk). pose proof (proj1 Hp) as Hb.
  destruct Hs as (_ & HX & _).
  pose proof setA_ok as HsA. pose proof setX_ok as HsX.
  assert (Hk' : in_u 32 (u32 (rX s + k pc))) by (by apply wrap_in_u).
  unfold ld_ind_cases. each_case.
  - destruct (_ || _) eqn:E.
    + apply outside_ok; [| done]. intros bp _ Hbp. by apply bp_xword_ok.
    + unfold in_u in *. rewrite (wrap_small 32 (buflen - k pc)) in E by (unfold in_u; lia).
      rewrite (wrap_small 32 (rX s + k pc)) in * by (unfold in_u; lia).
      rewrite (wrap_small 32) in E by (unfold in_u; lia).
      apply flat_word_ok; [lia.. | done].
  - destruct (_ || _) eqn:E.
    + apply outside_ok; [| done]. intros bp _ Hbp. apply bp_xhalf_ok; [| done | done]. apply Hh. unfold loads_half. by rewrite Hcode.
    + unfold in_u in *. rewrite (wrap_small 32 (buflen - rX s)) in E by (unfold in_u; lia).
      rewrite (wrap_small 32 (rX s + k pc)) in * by (unfold in_u; lia).
      rewrite (wrap_small 32) in E by (unfold in_u; lia).
      apply flat_half_ok; [lia.. | done].
  - destruct (_ || _) eqn:E.
    + apply outside_ok; [| done]. intros bp _ Hbp. by apply bp_xbyte_ok.
    + unfold in_u in *. rewrite (wrap_small 32 (buflen - k pc)) in E by (unfold in_u; lia).
      rewrite (wrap_small 32 (rX s + k pc)) in * by (unfold in_u; lia).
      apply flat_byte_ok; [lia.. |]. intros v Hv8. apply HsA. by apply (in_u_weaken 8).
  - destruct (_ >=? _) eqn:E.
    + apply outside_ok; [| intros v ?; by apply HsX, msh_range].
      intros bp _ Hbp. by apply bp_xbyte_ok.
    + unfold in_u in *. apply (flat_byte_ok _ _ _ (λ v, setX s (Z.shiftl (Z.land v 0xf) 2))); [lia.. |].
      intros v Hv8. apply HsX, msh_range. by apply (in_u_weaken 8).
Qed.

Lemma mem_cases_ok : cases_ok (mem_cases pc s).
Proof.
  destruct Hpc as (_ & _ & _ & Hk). destruct Hs as (HA & HX & HM).
  pose proof setA_ok as HsA. pose proof setX_ok as HsX.
  assert (Hu : ∀ v, in_u 32 (u32 v)) by (intros; by apply wrap_in_u).
  assert (H0 : in_u 32 0) by (unfold in_u; lia).
  assert (Hrd : k pc < 16 → ∃ v, rd (rmem s) (k pc) = Ok v).
  { intros. apply rd_in_range. unfold in_u in Hk. lia. }
  assert (Hwr : ∀ v, k pc < 16 → wr (rmem s) (k pc) v = Ok (<[Z.to_nat (k pc) := v]> (rmem s))).
  { intros v Hlt. unfold wr. unfold in_u in Hk.
    by destruct (Z.leb_spec 0 (k pc)), (Z.ltb_spec (k pc) (Z.of_nat (length (rmem s)))); try lia. }
  assert (Hset : ∀ v, regs_ok (setM s (<[Z.to_nat (k pc) := v]> (rmem s)))).
  { intros v. split; [done |]. split; [done |]. simpl. by rewrite length_insert. }
  unfold mem_cases. each_case;
    try (destruct (Z.geb_spec (k pc) BPF_MEMWORDS); [done |]; unfold BPF_MEMWORDS in *).
  1,2: by apply next0_ok; auto.
  1,2: destruct Hrd as [v ->]; [done |]; simpl; apply next0_ok; auto.
  all: rewrite Hwr by done; simpl; apply next0_ok; auto.
Qed.

(** The opcode decides which checks of the validator were made. *)
Ltac eval_validate Hcode :=
  let H := fresh "Hval" in
  pose proof Hv as H; unfold validate_insn in H; rewrite Hcode in H;
  cbv -[wrap Z.add Z.ltb Z.geb negb orb k jt jf] in H; cbn [orb] in H.

Lemma ja_ok : code pc = Z.lor BPF_JMP BPF_JA → i + 1 + k pc < len.
Proof.
  intros Hcode. destruct Hpc as (_ & _ & _ & Hk). eval_validate Hcode.
  rewrite negb_true_iff, orb_false_iff in Hval. destruct Hval as [H1 H2].
  unfold in_u, BPF_MAXINSNS in *. rewrite (wrap_small 32 (i + 1)) in * by (unfold in_u; lia).
  unfold wrap in *. zlia.
Qed.

Lemma jcond_ok :
  (BPF_CLASS (code pc) =? BPF_JMP) &&
  ((BPF_OP (code pc) =? BPF_JEQ) || (BPF_OP (code pc) =? BPF_JGT) ||
   (BPF_OP (code pc) =? BPF_JGE) || (BPF_OP (code pc) =? BPF_JSET)) = true →
  i + 1 + jt pc < len ∧ i + 1 + jf pc < len.
Proof.
  rewrite andb_true_iff. intros [Hc Ho]. destruct Hpc as (_ & Hjt & Hjf & _).
  apply Z.eqb_eq in Hc. pose proof Hv as Hval. unfold validate_insn in Hval.
  rewrite Hc, Ho in Hval. cbn -[wrap BPF_OP BPF_JA] in Hval.
  destruct (Z.eqb_spec (BPF_OP (code pc)) BPF_JA) as [E|_]; [by rewrite E in Ho |].
  rewrite negb_true_iff, orb_false_iff in Hval.
  unfold in_u, BPF_MAXINSNS in *.
  rewrite !(wrap_small 32) in Hval by (rewrite ?(wrap_small 32); unfold in_u; lia). lia.
Qed.

Lemma jump_ok c :
  (BPF_CLASS (code pc) =? BPF_JMP) &&
  ((BPF_OP (code pc) =? BPF_JEQ) || (BPF_OP (code pc) =? BPF_JGT) ||
   (BPF_OP (code pc) =? BPF_JGE) || (BPF_OP (code pc) =? BPF_JSET)) = true →
  step_ok len i (jump pc s c).
Proof.
  intros H. destruct (jcond_ok H). destruct Hpc as (_ & Hjt & Hjf & _). unfold in_u in *.
  unfold jump, step_ok. destruct c; split_and!; (lia || done).
Qed.

Lemma jmp_cases_ok : cases_ok (jmp_cases pc s).
Proof.
  unfold jmp_cases. each_case.
  1: { pose proof (ja_ok Hcode). destruct Hpc as (_ & _ & _ & Hk).
       unfold in_u in Hk. split_and!; (lia || done). }
  all: apply jump_ok; rewrite Hcode; reflexivity.
Qed.

Lemma div_in_u a b : in_u 32 a → 0 < b → in_u 32 (a `div` b).
Proof. unfold in_u. intros Ha Hb. split; [apply Z.div_pos; lia |].
  apply Z.le_lt_trans with a; [| lia]. apply Z.div_le_upper_bound; [done | nia].
Qed.

Lemma shl32_in_u a n : in_u 32 (shl32 shl_over a n).
Proof. unfold shl32. destruct (n <? 32); by apply wrap_in_u. Qed.

Lemma shr32_in_u a n : in_u 32 a → 0 <= n → in_u 32 (shr32 shr_over a n).
Proof.
  intros Ha Hn. unfold shr32. destruct (n <? 32); [by apply shiftr_in_u | by apply wrap_in_u].
Qed.

Lemma alu_x_cases_ok : cases_ok (alu_x_cases shl_over shr_over s).
Proof.
  destruct Hs as (HA & HX & _).
  unfold alu_x_cases. each_case.
  4: { destruct (Z.eqb_spec (rX s) 0); [unfold step_ok, in_u; lia |].
       apply alu_ok, div_in_u; [done |]. unfold in_u in HX. lia. }
  7: apply alu_ok, shr32_in_u; [done | unfold in_u in HX; lia].
  6: apply alu_ok, shl32_in_u.
  all: apply alu_ok; auto with kern lia.
Qed.

Lemma alu_k_cases_ok : cases_ok (alu_k_cases shl_over shr_over pc s).
Proof.
  destruct Hs as (HA & HX & _). destruct Hpc as (_ & _ & _ & Hk).
  unfold alu_k_cases. each_case.
  4: { eval_validate Hcode. destruct (Z.eqb_spec (k pc) 0) as [E|E].
       - by rewrite E in Hval.
       - apply alu_ok, div_in_u; [done |]. unfold in_u in Hk. lia. }
  7: apply alu_ok, shr32_in_u; [done | unfold in_u in Hk; lia].
  6: apply alu_ok, shl32_in_u.
  all: apply alu_ok; auto with kern lia.
Qed.

Lemma misc_cases_ok : cases_ok (misc_cases s).
Proof.
  destruct Hs as (HA & HX & _).
  unfold misc_cases. each_case; apply next0_ok; [by apply setX_ok | by apply setA_ok].
Qed.

Lemma bpf_step_ok : step_ok len i (bpf_step shl_over shr_over p wirelen buflen pc s).
Proof.
  unfold bpf_step. apply switch_ind; [| unfold step_ok, in_u; lia].
  auto 10 using Forall_app_2, ret_cases_ok, ld_abs_cases_ok, ld_ind_cases_ok, mem_cases_ok,
    jmp_cases_ok, alu_x_cases_ok, alu_k_cases_ok, misc_cases_ok.
Qed.

End insn.
End step_safe.

(** ** Whole programs *)

(** Opcodes of class [BPF_RET] always return. *)
Lemma ret_class_returns shl_over shr_over p wirelen buflen pc s :
  BPF_CLASS (code pc) = BPF_RET →
  ∃ v, bpf_step shl_over shr_over p wirelen buflen pc s = Ok (Return v).
Proof.
  intros Hc. unfold bpf_step.
  apply (switch_ind (λ r, ∃ v, r = Ok (Return v))); [| by eexists].
  repeat apply Forall_app_2;
    unfold ret_cases, ld_abs_cases, ld_ind_cases, mem_cases, jmp_cases,
      alu_x_cases, alu_k_cases, misc_cases; each_case;
    solve [by eexists | rewrite Hcode in Hc; discriminate].
Qed.

Definition prog_ok (f : list bpf_insn) : Prop := Forall insn_ok f.

Section validated.
Context (bpf_maxbufsize : Z) (f : list bpf_insn).
Context (Hf : prog_ok f).

Abbreviation len := (Z.of_nat (length f)).

Lemma validate_loop_true n :
  (n <= length f)%nat → validate_loop bpf_maxbufsize f len n = Ok true →
  ∀ i pc, len - Z.of_nat n <= i → rd f i = Ok pc →
  validate_insn bpf_maxbufsize len i pc = true.
Proof.
  induction n as [|n IH]; intros Hn Hl i pc Hi Hpc.
  - apply rd_lookup in Hpc. destruct Hpc as [_ Hpc]. apply lookup_lt_Some in Hpc. lia.
  - cbn [validate_loop] in Hl. apply res_bind_Ok in Hl. destruct Hl as (pc' & Hrd & Hl).
    destruct (validate_insn _ _ _ pc') eqn:E; [| done].
    destruct (Z.eq_dec i (len - Z.of_nat (S n))) as [->|]; [congruence |].
    apply (IH ltac:(lia) Hl i pc); [lia | done].
Qed.

(** What acceptance by [bpf_validate] means. *)
Lemma bpf_validate_true :
  bpf_validate bpf_maxbufsize f len = Ok 1 →
  1 <= len <= BPF_MAXINSNS ∧
  (∀ i pc, rd f i = Ok pc → validate_insn bpf_maxbufsize len i pc = true) ∧
  (∃ pc, rd f (len - 1) = Ok pc ∧ BPF_CLASS (code pc) = BPF_RET).
Proof.
  unfold bpf_validate. destruct (_ || _) eqn:E; [done |].
  rewrite Nat2Z.id. intros Hv. apply res_bind_Ok in Hv. destruct Hv as ([] & Hl & Hv); [| done].
  apply res_bind_Ok in Hv. destruct Hv as (pc & Hrd & Hv).
  destruct (Z.eqb_spec (BPF_CLASS (code pc)) BPF_RET); [| done].
  split; [lia |]. split; [| by eexists].
  intros i pc' Hpc'. eapply (validate_loop_true (length f)); try done.
  apply rd_lookup in Hpc'. lia.
Qed.

Lemma validated_run shl_over shr_over p wirelen buflen fuel i s :
  bpf_validate bpf_maxbufsize f len = Ok 1 →
  packet_ok (existsb loads_half f) p buflen → in_u 32 wirelen → regs_ok s →
  0 <= i < len → len - i <= Z.of_nat fuel →
  ∃ v, bpf_run shl_over shr_over fuel f p wirelen buflen i s = Some (Ok v) ∧ in_u 32 v.
Proof.
  intros Hval Hp Hw. destruct (bpf_validate_true Hval) as (Hlen & Hins & pcl & Hlast & Hret).
  revert i s. induction fuel as [|fuel IH]; intros i s Hs Hi Hfuel; [lia |].
  cbn [bpf_run]. destruct (rd_in_range f i) as [pc Hpc]; [lia |]. rewrite Hpc.
  assert (Hok : insn_ok pc ∧ (loads_half pc = true → existsb loads_half f = true)).
  { apply rd_lookup in Hpc as [_ Hpc]. split; [by eapply Forall_lookup_1 |]. intros Hh. apply existsb_exists.
    exists pc. split; [| done]. by eapply list_elem_of_In, list_elem_of_lookup_2. }
  destruct Hok as [Hok Hh].
  pose proof (bpf_step_ok shl_over shr_over bpf_maxbufsize p wirelen buflen s _ Hp Hs Hw
                len i pc Hok Hi ltac:(lia) (Hins i pc Hpc) Hh) as Hstep.
  destruct (Z.eq_dec i (len - 1)) as [->|Hne].
  { rewrite Hpc in Hlast. inv Hlast.
    destruct (ret_class_returns shl_over shr_over p wirelen buflen pcl s Hret) as [v Hv].
    rewrite Hv in *. by eexists. }
  destruct (bpf_step _ _ _ _ _ _ _) as [[off s'|v]|]; [| by eexists | done].
  destruct Hstep as (H1 & H2 & H3). apply IH; [done | lia | lia].
Qed.

End validated.

(** ** Properties *)

Lemma validated_filter (bpf_maxbufsize : Z) (f : list bpf_insn)
    (shl_over shr_over : Z → Z → Z) (p : packet) (wirelen buflen : Z) :
  prog_ok f →
  bpf_validate bpf_maxbufsize f (Z.of_nat (length f)) = Ok 1 →
  packet_ok (existsb loads_half f) p buflen → in_u 32 wirelen →
  ∃ v, bpf_filter shl_over shr_over (length f) (Some f) p wirelen buflen = Some (Ok v)
       ∧ in_u 32 v.
Proof.
  intros Hf Hval Hp Hw. unfold bpf_filter.
  destruct (bpf_validate_true bpf_maxbufsize f Hval) as [Hlen _].
  apply (validated_run bpf_maxbufsize f Hf); try done; [| lia.. ].
  unfold regs_ok, in_u. simpl. lia.
Qed.

(** C26: a program accepted by [bpf_validate] runs to completion on every
    well-formed packet: within as many steps as it has instructions
    [bpf_filter] returns a 32-bit value, with no access outside the program, the
    scratch memory, the packet or its mbufs and no division trap, whatever the
    compiler does with over-long shifts.  A well-formed packet is a buffer with
    at least [buflen] bytes, or a packet with a header and a chain of at least
    one mbuf whose lengths are 31-bit numbers; if the program loads half words,
    no mbuf of the chain may be empty ([m_xhalf_empty_mbuf_faults] shows what
    happens otherwise). *)
Theorem bpf_validated_safe (bpf_maxbufsize : Z) (f : list bpf_insn)
    (shl_over shr_over : Z → Z → Z) (p : packet) (wirelen buflen : Z) :
  prog_ok f →
  bpf_validate bpf_maxbufsize f (Z.of_nat (length f)) = Ok 1 →
  packet_ok (existsb loads_half f) p buflen → in_u 32 wirelen →
  ∃ v, bpf_filter shl_over shr_over (length f) (Some f) p wirelen buflen = Some (Ok v)
       ∧ in_u 32 v.
Proof. apply validated_filter. Qed.

(** Accept ARP: half word at 12 equal to 0x806. *)
Definition arp_prog : list bpf_insn :=
  [ Insn 0x28 0 0 12; Insn 0x15 0 1 0x806; Insn 0x06 0 0 96; Insn 0x06 0 0 0 ].

Definition arp_packet : bpf_packet :=
  BpfPacket BPF_PACKET_TYPE_MBUF
    [0; 1; 2; 3; 4; 5; 6; 7; 8; 9] [[0; 0; 8]; [6; 1; 2; 3]].

Lemma arp_prog_ok : prog_ok arp_prog.
Proof. unfold prog_ok, arp_prog, insn_ok, in_u. repeat constructor; simpl; lia. Qed.

Lemma arp_packet_ok : packet_ok true (PPacket arp_packet) 0.
Proof.
  unfold packet_ok, in_u. split; [lia |]. split; [done |]. intros _.
  split; [split | repeat constructor; done]; try done.
  - repeat constructor; unfold byte_ok, in_u, m_len; simpl; lia.
  - repeat constructor; unfold byte_ok, in_u; lia.
Qed.

Lemma bpf_validated_safe_witness :
  bpf_validate 0x80000 arp_prog 4 = Ok 1 ∧
  ∃ v, bpf_filter (λ _ _, 0) (λ _ _, 0) 4 (Some arp_prog) (PPacket arp_packet) 17 0
       = Some (Ok v) ∧ in_u 32 v.
Proof.
  split; [reflexivity |].
  apply (bpf_validated_safe 0x80000 arp_prog).
  - exact arp_prog_ok.
  - reflexivity.
  - exact arp_packet_ok.
  - unfold in_u. lia.
Defined.

(** The checks of [bpf_validate] in unbounded arithmetic. *)
Definition insn_valid (bpf_maxbufsize len i : Z) (p : bpf_insn) : Prop :=
  let c := BPF_CLASS (code p) in
  let m := BPF_MODE (code p) in
  let o := BPF_OP (code p) in
  ((c = BPF_LD ∨ c = BPF_LDX) ∧
     (m = BPF_IMM ∨ m = BPF_LEN ∨ (m = BPF_MEM ∧ k p < BPF_MEMWORDS) ∨
      ((m = BPF_ABS ∨ m = BPF_IND ∨ m = BPF_MSH) ∧ k p < bpf_maxbufsize))) ∨
  ((c = BPF_ST ∨ c = BPF_STX) ∧ k p < BPF_MEMWORDS) ∨
  (c = BPF_ALU ∧ o <= BPF_NEG ∧
     (o = BPF_DIV → BPF_SRC (code p) = BPF_K → k p ≠ 0)) ∨
  (c = BPF_JMP ∧ o = BPF_JA ∧ i + 1 + k p < len) ∨
  (c = BPF_JMP ∧ (o = BPF_JEQ ∨ o = BPF_JGT ∨ o = BPF_JGE ∨ o = BPF_JSET) ∧
     i + 1 + jt p < len ∧ i + 1 + jf p < len) ∨
  c = BPF_RET ∨ c = BPF_MISC.

Lemma BPF_OP_values c :
  in_u 16 c → ∃ j, BPF_OP c = 16 * j ∧ 0 <= j < 16.
Proof.
  intros Hc. exists (Z.land (Z.shiftr c 4) 15). unfold BPF_OP.
  replace 0xf0 with (Z.shiftl (Z.ones 4) 4) by done.
  split.
  - rewrite <- (Z.mul_comm _ 16). change 16 with (2 ^ 4). rewrite <- Z.shiftl_mul_pow2 by lia.
    apply Z.bits_inj'. intros n Hn. rewrite Z.land_spec, !Z.shiftl_spec by done.
    rewrite Z.land_spec. destruct (Z.ltb_spec n 4).
    + rewrite (Z.testbit_neg_r (Z.ones 4)), (Z.testbit_neg_r 15) by lia. by rewrite !andb_false_r.
    + rewrite Z.shiftr_spec by lia. by replace (n - 4 + 4) with n by lia.
  - change 15 with (Z.ones 4). rewrite Z.land_ones by lia. apply Z.mod_pos_bound. lia.
Qed.

Ltac bpf_consts :=
  unfold BPF_LD, BPF_LDX, BPF_ST, BPF_STX, BPF_ALU, BPF_JMP, BPF_RET, BPF_MISC,
    BPF_IMM, BPF_ABS, BPF_IND, BPF_MEM, BPF_LEN, BPF_MSH, BPF_ADD, BPF_SUB, BPF_MUL,
    BPF_DIV, BPF_OR, BPF_AND, BPF_LSH, BPF_RSH, BPF_NEG, BPF_JA, BPF_JEQ, BPF_JGT,
    BPF_JGE, BPF_JSET, BPF_K, BPF_MEMWORDS, BPF_MAXINSNS in *.

Lemma jmp_target_exact len i off :
  0 <= i < len → len <= 512 → in_u 32 off →
  negb ((u32 (u32 (i + 1) + off) <? u32 (i + 1)) || (u32 (u32 (i + 1) + off) >=? len)) = true
  ↔ i + 1 + off < len.
Proof.
  unfold in_u. intros Hi Hl Hoff.
  rewrite (wrap_small 32 (i + 1)) by (unfold in_u; lia). unfold wrap. zlia.
Qed.

Lemma validate_insn_iff bpf_maxbufsize len i p :
  insn_ok p → 0 <= i < len → len <= BPF_MAXINSNS →
  validate_insn bpf_maxbufsize len i p = true ↔ insn_valid bpf_maxbufsize len i p.
Proof.
  intros (Hc & Hjt & Hjf & Hk) Hi Hl. unfold validate_insn, insn_valid.
  pose proof (jmp_target_exact len i (k p) Hi Hl Hk) as Hja.
  destruct (BPF_OP_values _ Hc) as (j & Hop & Hj).
  unfold in_u in Hjt, Hjf. unfold BPF_MAXINSNS in Hl.
  rewrite (wrap_small 32 (i + 1)) in * by (unfold in_u; lia).
  rewrite (wrap_small 32 (i + 1 + jt p)), (wrap_small 32 (i + 1 + jf p)) by (unfold in_u; lia).
  revert Hja. generalize (negb ((u32 (i + 1 + k p) <? i + 1) || (u32 (i + 1 + k p) >=? len))).
  intros bja Hja. rewrite Hop. revert Hj.
  generalize (BPF_CLASS (code p)) (BPF_MODE (code p)) (BPF_SRC (code p)). clear Hop.
  intros c m src Hj. bpf_consts.
  destruct ((c =? 0) || (c =? 1)) eqn:Ec1.
  { split.
    - intros Hb. left. split; [lia |]. clear Hja.
      destruct (m =? 0) eqn:?; [lia |].
      destruct ((m =? 32) || (m =? 64) || (m =? 160)) eqn:?; [lia |].
      destruct (m =? 96) eqn:?; lia.
    - intros Hm. destruct_or! Hm; destruct_and?; try lia; clear Hja.
      all: destruct (m =? 0) eqn:?; [done |].
      all: destruct ((m =? 32) || (m =? 64) || (m =? 160)) eqn:?; [lia |].
      all: destruct (m =? 96) eqn:?; lia. }
  destruct ((c =? 2) || (c =? 3)) eqn:Ec2.
  { split; [intros Hb; right; left; clear Hja; lia |].
    intros Hm. destruct_or! Hm; destruct_and?; clear Hja; lia. }
  destruct (c =? 4) eqn:Ec3.
  { split.
    - intros Hb. right. right. left. split; [lia |]. clear Hja.
      match type of Hb with (if ?b then _ else _) = _ => destruct b eqn:? end; [lia |].
      destruct (16 * j =? 48) eqn:?; [lia | done].
    - intros Hm. clear Hja. destruct_or! Hm; destruct_and?; try lia.
      match goal with |- (if ?b then _ else _) = _ => destruct b eqn:? end; [done |].
      destruct (16 * j =? 48) eqn:?; lia. }
  destruct (c =? 5) eqn:Ec4.
  2: { clear Hja. split; [intros Hb; do 5 right; lia |].
       intros Hm. destruct_or! Hm; destruct_and?; lia. }
  destruct (16 * j =? 0) eqn:Ej.
  { rewrite Hja. clear Hja. split; [intros Hb; do 3 right; left; lia |].
    intros Hm. destruct_or! Hm; destruct_and?; lia. }
  clear Hja. match goal with |- (if ?b then _ else _) = _ ↔ _ => destruct b eqn:? end; split.
  - intros Hb. do 4 right. left. lia.
  - intros Hm. destruct_or! Hm; destruct_and?; lia.
  - done.
  - intros Hm. destruct_or! Hm; destruct_and?; lia.
Qed.

Lemma validate_loop_total bpf_maxbufsize f n :
  (n <= length f)%nat →
  ∃ b, validate_loop bpf_maxbufsize f (Z.of_nat (length f)) n = Ok b ∧
    (b = true ↔ ∀ i pc, (length f - n <= i)%nat → f !! i = Some pc →
       validate_insn bpf_maxbufsize (Z.of_nat (length f)) (Z.of_nat i) pc = true).
Proof.
  induction n as [|n IH]; intros Hn.
  { exists true. split; [done |]. split; [| done]. intros _ i pc Hi Hpc.
    apply lookup_lt_Some in Hpc. lia. }
  destruct (IH ltac:(lia)) as (b & Hb & Hiff). cbn [validate_loop].
  replace (Z.of_nat (length f) - Z.of_nat (S n)) with (Z.of_nat (length f - S n)) by lia.
  destruct (rd_in_range f (Z.of_nat (length f - S n))) as [p Hp]; [lia |]. rewrite Hp.
  apply rd_lookup in Hp. rewrite Nat2Z.id in Hp. destruct Hp as [_ Hp]. simpl.
  destruct (validate_insn _ _ _ p) eqn:E.
  - exists b. split; [done |]. rewrite Hiff. split; intros H i pc Hi Hpc; [| apply H; lia || done].
    destruct (decide (i = length f - S n)%nat) as [->|]; [congruence |]. apply H; [lia | done].
  - exists false. split; [done |]. split; [done |]. intros H.
    rewrite (H _ p) in E; done || lia.
Qed.

Lemma validate_decides bpf_maxbufsize f :
  ∃ r, bpf_validate bpf_maxbufsize f (Z.of_nat (length f)) = Ok r ∧ (r = 0 ∨ r = 1).
Proof.
  unfold bpf_validate. destruct (_ || _) eqn:Hlen; [exists 0; split; [done | by left] |]. rewrite Nat2Z.id.
  destruct (validate_loop_total bpf_maxbufsize f (length f)) as (b & -> & _); [lia |].
  destruct (rd_in_range f (Z.of_nat (length f) - 1)) as [pc Hpc]; [lia |]. simpl. rewrite Hpc.
  destruct b; simpl; [| exists 0; split; [done | by left]].
  eexists. split; [done |]. destruct (_ =? BPF_RET); auto.
Qed.

(** C29: [bpf_validate] never faults on a program of [len] instructions, and
    accepts exactly the programs of 1 to 512 instructions that end in a return
    and whose scratch indices, constant divisors and jump targets are in
    range; jump targets are meant in unbounded arithmetic, so the 32-bit
    overflow of an unconditional jump is caught. *)
Theorem bpf_validate_exact (bpf_maxbufsize : Z) (f : list bpf_insn) :
  prog_ok f →
  ∃ r, bpf_validate bpf_maxbufsize f (Z.of_nat (length f)) = Ok r ∧
    (r = 0 ∨ r = 1) ∧
    (r = 1 ↔
      1 <= Z.of_nat (length f) <= BPF_MAXINSNS ∧
      (∀ i pc, f !! i = Some pc →
         insn_valid bpf_maxbufsize (Z.of_nat (length f)) (Z.of_nat i) pc) ∧
      (∃ pc, f !! (length f - 1)%nat = Some pc ∧ BPF_CLASS (code pc) = BPF_RET)).
Proof.
  intros Hf. unfold bpf_validate.
  destruct (_ || _) eqn:Hlen.
  { exists 0. split; [done |]. split; [by left |]. split; [done |]. intros [? _]. lia. }
  rewrite Nat2Z.id.
  destruct (validate_loop_total bpf_maxbufsize f (length f)) as (b & -> & Hb); [lia |].
  rewrite Nat.sub_diag in Hb.
  assert (Hb' : b = true ↔ ∀ i pc, f !! i = Some pc →
    insn_valid bpf_maxbufsize (Z.of_nat (length f)) (Z.of_nat i) pc).
  { rewrite Hb. split; intros H i pc; [intros Hpc | intros _ Hpc];
      pose proof (lookup_lt_Some _ _ _ Hpc);
      pose proof (Forall_lookup_1 _ _ _ _ Hf Hpc);
      [apply validate_insn_iff; [done | lia.. |]; apply H; [lia | done] |].
    apply validate_insn_iff; [done | lia.. |]. by apply H. }
  destruct (rd_in_range f (Z.of_nat (length f) - 1)) as [pc Hpc]; [lia |]. simpl.
  rewrite Hpc. apply rd_lookup in Hpc. destruct Hpc as [_ Hpc].
  replace (Z.to_nat (Z.of_nat (length f) - 1)) with (length f - 1)%nat in Hpc by lia.
  destruct b; simpl.
  - eexists. split; [done |]. destruct (Z.eqb_spec (BPF_CLASS (code pc)) BPF_RET) as [E|E].
    + split; [by right |]. split; [intros _ | done]. split; [lia |].
      split; [by apply Hb' | eauto].
    + split; [by left |]. split; [done |]. intros (_ & _ & pc' & Hpc' & E'). congruence.
  - eexists. split; [done |]. split; [by left |]. split; [done |].
    intros (_ & H & _). by apply Hb' in H.
Qed.

Lemma bpf_validate_exact_witness :
  ∃ r, bpf_validate 0x80000 arp_prog 4 = Ok r ∧ (r = 0 ∨ r = 1) ∧
    (r = 1 ↔ 1 <= 4 <= BPF_MAXINSNS ∧
      (∀ i pc, arp_prog !! i = Some pc → insn_valid 0x80000 4 (Z.of_nat i) pc) ∧
      (∃ pc, arp_prog !! 3%nat = Some pc ∧ BPF_CLASS (code pc) = BPF_RET)).
Proof. apply (bpf_validate_exact 0x80000 arp_prog arp_prog_ok). Defined.
