(* ===== verification/BpfEquiv.v ===== *)
(** * Filters on mbuf chains and on contiguous buffers

    [bpf_filter] runs the same program on a contiguous copy of a packet
    ([buflen] not 0) or on the mbuf chain itself ([buflen] 0).  The two runs
    agree, instruction by instruction, on chains whose buffers hold three bytes
    or more as long as the offsets of indexed loads do not wrap around; outside
    these bounds they do not, and the last section shows how. *)

From S2P Require Import Prelude Bpf BpfSafety.

Lemma switch_eq {B} c (cs1 cs2 : list (Z * B)) d :
  Forall2 (λ a b, a.1 = b.1 ∧ (c = a.1 → a.2 = b.2)) cs1 cs2 →
  switch c cs1 d = switch c cs2 d.
Proof.
  intros H. induction H as [|[c1 b1] [c2 b2] cs1 cs2 [Hc Hb] _ IH]; simpl in *; [done |].
  subst c2. destruct (Z.eqb_spec c c1); auto.
Qed.

(** No [BPF_LD | size | BPF_IND] instruction. *)
Definition no_ind (i : bpf_insn) : bool :=
  negb ((code i =? Z.lor (Z.lor BPF_LD BPF_W) BPF_IND)
        || (code i =? Z.lor (Z.lor BPF_LD BPF_H) BPF_IND)
        || (code i =? Z.lor (Z.lor BPF_LD BPF_B) BPF_IND)).

(** In the run of a program every indexed load has an offset that needs no
    more than 32 bits. *)
Fixpoint offsets_ok (shl_over shr_over : Z → Z → Z) (fuel : nat) (prog : list bpf_insn) (p : packet)
    (wirelen buflen : Z) (pc : Z) (s : regs) : bool :=
  match fuel with
  | O => true
  | S fuel =>
      match rd prog pc with
      | Fault => true
      | Ok i =>
          (no_ind i || (0 <=? rX s) && (rX s + k i <? 2 ^ 32)) &&
          match bpf_step shl_over shr_over p wirelen buflen i s with
          | Ok (Next off s') => offsets_ok shl_over shr_over fuel prog p wirelen buflen (pc + off + 1) s'
          | _ => true
          end
      end
  end.

Section equiv.
Context (shl_over shr_over : Z → Z → Z).
Context (bp : bpf_packet) (wirelen : Z).
Context (Htype : bpfp_type bp = BPF_PACKET_TYPE_MBUF).
Context (Hbufs : bpf_bufs_ok (bpfp_mbuf bp) (bpfp_header bp)).
Context (Hlong : Forall (λ b, 3 <= length b)%nat (bpfp_mbuf bp)).

Abbreviation bytes := (packet_bytes bp).
Abbreviation total := (Z.of_nat (length (packet_bytes bp))).
Context (Htotal : 0 < total < 2 ^ 32).

Lemma bp_xbyte_bytes k : in_u 32 k → bp_xbyte bp k = Ok (be_byte (drop (Z.to_nat k) bytes)).
Proof. intros Hk. unfold bp_xbyte. rewrite Htype. by apply m_xbyte_flat. Qed.

Lemma bp_xhalf_bytes k : in_u 32 k → bp_xhalf bp k = Ok (be_half (drop (Z.to_nat k) bytes)).
Proof.
  intros Hk. unfold bp_xhalf. rewrite Htype. apply m_xhalf_flat; [done.. |].
  eapply Forall_impl; [exact Hlong |]. intros [|]; simpl; [lia | done].
Qed.

Lemma bp_xword_bytes k : in_u 32 k → bp_xword bp k = Ok (be_word (drop (Z.to_nat k) bytes)).
Proof.
  intros Hk. unfold bp_xword. rewrite Htype.
  destruct (m_xword_flat _ _ k Hbufs Hk) as (r & Hr & _ & Heq).
  rewrite Hr, (Heq Hlong). done.
Qed.

Lemma bytes_all_ok : bytes_ok bytes.
Proof. by apply packet_bytes_ok. Qed.

(** A bounds-checked load from the flat buffer of [n] bytes at [k] agrees with
    the search of the chain. *)
Lemma load_agree (out : bool) k n set
    (x : bpf_packet → res (option Z)) (be : list Z → option Z) (e : res Z) :
  (out = true ↔ total < k + n) →
  x bp = Ok (be (drop (Z.to_nat k) bytes)) →
  e = of_opt (be (drop (Z.to_nat k) bytes)) →
  (is_Some (be (drop (Z.to_nat k) bytes)) ↔ k + n <= total) →
  outside (PPacket bp) 0 x set =
  (if out then outside (PBytes bytes) total x set
   else l ← pbytes (PBytes bytes); v ← e; Ok (Next 0 (set v))).
Proof.
  intros Hout Hx He Hbe. unfold outside.
  replace (total =? 0) with false by lia. cbn [negb Z.eqb]. simpl. rewrite Hx. simpl.
  destruct (be _) as [v|] eqn:Eb; rewrite He; simpl.
  - destruct out; [| done]. pose proof (proj1 Hout eq_refl).
    assert (k + n <= total) by (apply Hbe; eauto). lia.
  - destruct out; [done |]. destruct (Z.ltb_spec total (k + n)) as [H|H].
    + by apply Hout in H.
    + destruct (proj2 Hbe H) as [? ?]. done.
Qed.

Lemma be_byte_iff k : 0 <= k → is_Some (be_byte (drop (Z.to_nat k) bytes)) ↔ k + 1 <= total.
Proof.
  intros Hk. pose proof (length_drop bytes (Z.to_nat k)) as Hl. unfold be_byte.
  destruct (drop _ bytes); simpl in *; split; try (intros [? ?]; done); intros; try lia; eauto.
Qed.
Lemma be_half_iff k : 0 <= k → is_Some (be_half (drop (Z.to_nat k) bytes)) ↔ k + 2 <= total.
Proof.
  intros Hk. pose proof (length_drop bytes (Z.to_nat k)) as Hl.
  destruct (drop _ bytes) as [|? [|? ?]]; simpl in *; split;
    try (intros [? ?]; done); intros; try lia; eauto.
Qed.
Lemma be_word_iff k : 0 <= k → is_Some (be_word (drop (Z.to_nat k) bytes)) ↔ k + 4 <= total.
Proof.
  intros Hk. pose proof (length_drop bytes (Z.to_nat k)) as Hl.
  destruct (drop _ bytes) as [|? [|? [|? [|? ?]]]]; simpl in *; split;
    try (intros [? ?]; done); intros; try lia; eauto.
Qed.

Lemma rd_be_byte k : 0 <= k → rd bytes k = of_opt (be_byte (drop (Z.to_nat k) bytes)).
Proof.
  intros Hk. unfold rd, be_byte. destruct (Z.ltb_spec k 0); [lia |].
  by rewrite <- (Nat.add_0_r (Z.to_nat k)), <- lookup_drop, Nat.add_0_r, head_lookup.
Qed.

Lemma oob_iff L k n :
  in_u 32 k → in_u 32 L → 0 < n →
  ((k >? L) || (n >? u32 (L - k))) = true ↔ L < k + n.
Proof.
  unfold in_u. intros Hk HL Hn. destruct (Z.gtb_spec k L) as [H|H]; simpl.
  - split; [lia | done].
  - rewrite (wrap_small 32) by (unfold in_u; lia). lia.
Qed.

(** The checks of an indexed load, with the offset split into [x] and [y]. *)
Lemma ind_oob_iff L x y n :
  0 <= x → 0 <= y → x + y < 2 ^ 32 → in_u 32 L → 0 < n →
  ((y >? L) || (x >? u32 (L - y)) || (n >? u32 (L - u32 (x + y)))) = true ↔ L < x + y + n.
Proof.
  unfold in_u. intros Hx Hy Hxy HL Hn. rewrite (wrap_small 32 (x + y)) by (unfold in_u; lia).
  destruct (Z.gtb_spec y L) as [H|H]; simpl; [split; [lia | done] |].
  rewrite (wrap_small 32 (L - y)) by (unfold in_u; lia).
  destruct (Z.gtb_spec x (L - y)) as [H'|H']; simpl; [split; [lia | done] |].
  rewrite (wrap_small 32) by (unfold in_u; lia). lia.
Qed.

Lemma ind_byte_oob_iff L x y : 0 <= x → 0 <= y → x + y < 2 ^ 32 → in_u 32 L →
  ((y >=? L) || (x >=? u32 (L - y))) = true ↔ L < x + y + 1.
Proof.
  unfold in_u. intros Hx Hy Hxy HL. destruct (Z.geb_spec y L) as [H|H]; simpl; [split; [lia | done] |].
  rewrite (wrap_small 32) by (unfold in_u; lia). lia.
Qed.

Section step.
Context (pc : bpf_insn) (s : regs).
Context (Hpc : insn_ok pc) (Hno : no_ind pc = true ∨ (0 <= rX s ∧ rX s + k pc < 2 ^ 32)).

Lemma ld_ind_equiv :
  Forall2 (λ a b, a.1 = b.1 ∧ (code pc = a.1 → a.2 = b.2))
    (ld_ind_cases (PPacket bp) 0 pc s) (ld_ind_cases (PBytes bytes) total pc s).
Proof.
  destruct Hpc as (_ & _ & _ & Hk). pose proof bytes_all_ok as Hb. assert (Hk0 : 0 <= k pc) by apply Hk.
  assert (Ht : in_u 32 total) by (unfold in_u; lia). assert (H0 : in_u 32 0) by (unfold in_u; lia).
  destruct Hno as [Hn|[Hx Hxk]].
  { unfold no_ind in Hn. rewrite negb_true_iff, !orb_false_iff, !Z.eqb_neq in Hn.
    repeat apply Forall2_cons_2; [.. | by apply Forall2_nil];
      (split; [done |]; intros Hcode; cbn [fst snd] in *); try (destruct Hn as [[? ?] ?]; done).
    replace (k pc >=? 0) with true by lia.
    apply (load_agree _ (k pc) 1 _ _ be_byte); auto using bp_xbyte_bytes, rd_be_byte, be_byte_iff with lia. }
  assert (Hw : u32 (rX s + k pc) = rX s + k pc) by (apply wrap_small; unfold in_u; lia).
  assert (Hu : in_u 32 (rX s + k pc)) by (unfold in_u; lia).
  assert (Hbd : bytes_ok (drop (Z.to_nat (rX s + k pc)) bytes)) by (by apply Forall_drop).
  repeat apply Forall2_cons_2; [.. | by apply Forall2_nil]; (split; [done |]; intros Hcode; cbn [snd]).
  - rewrite (proj2 (ind_oob_iff 0 (rX s) (k pc) 4 ltac:(lia) ltac:(lia) ltac:(lia) H0 ltac:(lia))) by lia.
    apply (load_agree _ (rX s + k pc) 4 _ _ be_word);
      [by apply ind_oob_iff | rewrite Hw; by apply bp_xword_bytes | rewrite Hw; by apply EXTRACT_LONG_be | apply be_word_iff; lia].
  - rewrite (Z.add_comm (rX s) (k pc)) in *.
    rewrite (proj2 (ind_oob_iff 0 (k pc) (rX s) 2 ltac:(lia) ltac:(lia) ltac:(lia) H0 ltac:(lia))) by lia.
    apply (load_agree _ (k pc + rX s) 2 _ _ be_half);
      [by apply ind_oob_iff | rewrite Hw; by apply bp_xhalf_bytes | rewrite Hw; by apply EXTRACT_SHORT_be | apply be_half_iff; lia].
  - rewrite (proj2 (ind_byte_oob_iff 0 (rX s) (k pc) ltac:(lia) ltac:(lia) ltac:(lia) H0)) by lia.
    apply (load_agree _ (rX s + k pc) 1 _ _ be_byte);
      [by apply ind_byte_oob_iff | rewrite Hw; by apply bp_xbyte_bytes | rewrite Hw; apply rd_be_byte; lia | apply be_byte_iff; lia].
  - replace (k pc >=? 0) with true by lia.
    apply (load_agree _ (k pc) 1 _ _ be_byte); auto using bp_xbyte_bytes, rd_be_byte, be_byte_iff with lia.
Qed.

Lemma bpf_step_equiv :
  bpf_step shl_over shr_over (PPacket bp) wirelen 0 pc s
  = bpf_step shl_over shr_over (PBytes bytes) wirelen total pc s.
Proof.
  destruct Hpc as (_ & _ & _ & Hk). pose proof bytes_all_ok as Hb.
  assert (Hbd : bytes_ok (drop (Z.to_nat (k pc)) bytes)) by (by apply Forall_drop).
  assert (Ht : in_u 32 total) by (unfold in_u; lia).
  assert (H0 : in_u 32 0) by (unfold in_u; lia).
  assert (Hk0 : 0 <= k pc) by apply Hk.
  assert (Hout0 : ∀ n, 0 < n → ((k pc >? 0) || (n >? u32 (0 - k pc))) = true).
  { intros n Hn. apply oob_iff; [done.. |]. lia. }
  unfold bpf_step. apply switch_eq.
  repeat apply Forall2_app; try (by apply Forall_Forall2_diag, Forall_true).
  - repeat apply Forall2_cons_2; [.. | by apply Forall2_nil];
      (split; [done |]; intros Hcode; cbn [snd]); try done.
    + rewrite Hout0 by lia.
      apply (load_agree _ (k pc) 4 _ _ be_word);
        auto using oob_iff, bp_xword_bytes, EXTRACT_LONG_be, be_word_iff with lia.
    + rewrite Hout0 by lia.
      apply (load_agree _ (k pc) 2 _ _ be_half);
        auto using oob_iff, bp_xhalf_bytes, EXTRACT_SHORT_be, be_half_iff with lia.
    + replace (k pc >=? 0) with true by lia.
      apply (load_agree _ (k pc) 1 _ _ be_byte);
        auto using bp_xbyte_bytes, rd_be_byte, be_byte_iff with lia.
  - apply ld_ind_equiv.
Qed.
End step.

Lemma bpf_run_equiv fuel f i s :
  prog_ok f → offsets_ok shl_over shr_over fuel f (PBytes bytes) wirelen total i s = true →
  bpf_run shl_over shr_over fuel f (PPacket bp) wirelen 0 i s
  = bpf_run shl_over shr_over fuel f (PBytes bytes) wirelen total i s.
Proof.
  intros Hf. revert i s. induction fuel as [|fuel IH]; intros i s; [done |].
  cbn [bpf_run offsets_ok]. destruct (rd f i) as [pc|] eqn:Hpc; [| done].
  apply rd_lookup in Hpc. destruct Hpc as [_ Hpc]. intros [Ho Hrest]%andb_true_iff.
  rewrite bpf_step_equiv; [| by eapply Forall_lookup_1 in Hpc; [| exact Hf] |].
  - destruct (bpf_step _ _ _ _ _ _ _) as [[|]|]; auto.
  - apply orb_true_iff in Ho as [Ho|[? ?]%andb_true_iff]; [by left | right; lia].
Qed.
End equiv.

(** The registers and the scratch memory when a filter starts. *)
Definition regs0 : regs := Regs 0 0 (replicate 16 0).

(** ** Properties *)

(** C28: running a filter on an mbuf chain gives the result of running it on
    the bytes of the chain laid out contiguously, for every step bound and every
    chain with 1 to [2 ^ 32 - 1] bytes whose mbufs hold at least three bytes
    each, provided that in the run on the contiguous bytes the offset of every
    indexed load is below [2 ^ 32].  ([m_xhalf_empty_mbuf_faults] and
    [bpf_ind_wrap_differs] show that the two runs differ otherwise.) *)
Theorem bpf_filter_chain_equiv (shl_over shr_over : Z → Z → Z) (fuel : nat)
    (f : list bpf_insn) (bp : bpf_packet) (wirelen : Z) :
  prog_ok f →
  bpfp_type bp = BPF_PACKET_TYPE_MBUF →
  bpf_bufs_ok (bpfp_mbuf bp) (bpfp_header bp) →
  Forall (λ b, 3 <= length b)%nat (bpfp_mbuf bp) →
  0 < Z.of_nat (length (packet_bytes bp)) < 2 ^ 32 →
  offsets_ok shl_over shr_over fuel f (PBytes (packet_bytes bp)) wirelen (Z.of_nat (length (packet_bytes bp)))
    0 regs0 = true →
  bpf_filter shl_over shr_over fuel (Some f) (PPacket bp) wirelen 0
  = bpf_filter shl_over shr_over fuel (Some f) (PBytes (packet_bytes bp)) wirelen
      (Z.of_nat (length (packet_bytes bp))).
Proof. intros. by apply bpf_run_equiv. Qed.

(** Return the half word at 12, with an index of 2 and an offset of 10. *)
Definition ind_prog : list bpf_insn := [ Insn 0x01 0 0 2; Insn 0x48 0 0 10; Insn 0x16 0 0 0 ].

Lemma bpf_filter_chain_equiv_witness :
  bpf_filter (λ _ _, 0) (λ _ _, 0) 3 (Some ind_prog) (PPacket arp_packet) 17 0
  = bpf_filter (λ _ _, 0) (λ _ _, 0) 3 (Some ind_prog)
      (PBytes (packet_bytes arp_packet)) 17 17 ∧
  bpf_filter (λ _ _, 0) (λ _ _, 0) 3 (Some ind_prog) (PPacket arp_packet) 17 0
  = Some (Ok 0x806).
Proof.
  split; [| reflexivity].
  apply (bpf_filter_chain_equiv _ _ 3 ind_prog arp_packet 17).
  - unfold prog_ok, ind_prog, insn_ok, in_u. repeat constructor; simpl; lia.
  - reflexivity.
  - by apply arp_packet_ok.
  - repeat constructor; simpl; lia.
  - simpl. lia.
  - reflexivity.
Defined.

(** ** Where the two ways of running a filter differ *)

(** [m_xhalf] does not look at [m_len] of the mbuf it takes the second
    byte from: a half word that ends its buffer reads outside the next one when
    that mbuf is empty, a chain [m_xbyte] and [m_xword] handle. *)
Lemma m_xhalf_empty_mbuf_faults :
  m_xhalf [[8]; []; [6; 0; 0]] [] 0 = Fault ∧
  m_xbyte [[8]; []; [6; 0; 0]] [] 1 = Ok (Some 6) ∧
  m_xword [[8]; []; [6; 0; 0]] [] 0 = Ok None.
Proof. split_and!; reflexivity. Qed.

(** An indexed load computes its offset modulo [2 ^ 32] and only the
    contiguous case checks for the wrap-around, so the validated program
    "X := 0xffffffff; A := byte at X + 1; return A" rejects a packet held in
    one buffer and returns byte 0 of the same packet held in an mbuf. *)
Lemma bpf_ind_wrap_differs (shl_over shr_over : Z → Z → Z) :
  let f := [Insn 0x01 0 0 0xffffffff; Insn 0x50 0 0 1; Insn 0x16 0 0 0] in
  bpf_validate 0x80000 f 3 = Ok 1 ∧
  bpf_filter shl_over shr_over 3 (Some f) (PBytes [7; 8; 9]) 3 3 = Some (Ok 0) ∧
  bpf_filter shl_over shr_over 3 (Some f)
    (PPacket (BpfPacket BPF_PACKET_TYPE_MBUF [] [[7; 8; 9]])) 3 0 = Some (Ok 7).
Proof. split_and!; reflexivity. Qed.
