(* ===== verification/BpfDev.v ===== *)
(** * Packet capture devices

    [bsd/net/bpf.c] and [struct bpf_d] of [bsd/net/bpfdesc.h]: an open device
    with its store, hold and free buffers, the path of a packet into the store
    buffer ([catchpacket]), the reads that take the hold buffer ([bpfread]),
    and the operations on the descriptor that do not involve the list of
    interfaces.  Each definition is a section of code that runs with the lock
    [bpf_mlock] held; where the code drops the lock or sleeps, one definition
    ends and another one goes on. *)

From S2P Require Import Prelude Bpf.

Definition BPF_IDLE : Z := 0.
Definition BPF_WAITING : Z := 1.
Definition BPF_TIMED_OUT : Z := 2.
Definition BPF_DRAINING : Z := 3.

Definition BPF_EXTENDED_HDR : Z := 0x0001.
Definition BPF_WANT_PKTAP : Z := 0x0002.
Definition BPF_FINALIZE_PKTAP : Z := 0x0004.
Definition BPF_DETACHING : Z := 0x0010.
Definition BPF_DETACHED : Z := 0x0020.
Definition BPF_CLOSING : Z := 0x0040.
Definition BPF_TRUNCATE : Z := 0x0080.
Definition BPF_PKTHDRV2 : Z := 0x0100.

Definition BPF_MINBUFSIZE : Z := 32.
Definition IO_NDELAY : Z := 0x10.

Definition EINTR : Z := 4.
Definition ENXIO : Z := 6.
Definition EINVAL : Z := 22.
Definition EWOULDBLOCK : Z := 35.
Definition ENOBUFS : Z := 55.
Definition ERESTART : Z := -1.

(** Lengths of the two kinds of header that precede a captured packet. *)
Definition SIZEOF_BPF_HDR : Z := 18.
Definition SIZEOF_BPF_HDR_EXT : Z := 60.

Definition BPF_WORDALIGN (x : Z) : Z := Z.land (x + 3) (Z.lnot 3).

(** An interface as the devices see it: its address, its link type and the
    lengths that [bpf_attach] computes. *)
Record bpf_if := BpfIf { bif_addr : positive; bif_dlt : Z; bif_hdrlen : Z; bif_exthdrlen : Z }.
Definition DLT_PKTAP : Z := 149.
Definition new_bpf_if (addr : positive) (dlt hdrlen : Z) : bpf_if :=
  BpfIf addr dlt (BPF_WORDALIGN (hdrlen + SIZEOF_BPF_HDR) - hdrlen)
        (BPF_WORDALIGN (hdrlen + SIZEOF_BPF_HDR_EXT) - hdrlen).

Record bpf_d := BpfD {
  bd_sbuf : option positive; (* store slot *)
  bd_hbuf : option positive; (* hold slot *)
  bd_fbuf : option positive; (* free slot *)
  bd_slen : Z; (* current length of store buffer *)
  bd_hlen : Z; (* current length of hold buffer *)
  bd_scnt : Z; (* number of packets in store buffer *)
  bd_hcnt : Z; (* number of packets in hold buffer *)
  bd_bufsize : Z; (* absolute length of buffers *)
  bd_hbuf_read : Z; (* reading from hbuf *)
  bd_headdrop : Z; (* keep newer packets *)
  bd_bif : option bpf_if; (* interface descriptor *)
  bd_rtout : Z; (* read timeout in ticks *)
  bd_filter : option (list bpf_insn); (* filter code *)
  bd_rcount : Z; (* number of packets received *)
  bd_dcount : Z; (* number of packets dropped *)
  bd_state : Z; (* idle, waiting, or timed out *)
  bd_immediate : Z; (* true to return on packet arrival *)
  bd_seesent : Z; (* true if bpf should see sent packets *)
  bd_flags : Z; (* flags *)
  bd_refcnt : Z (* references *)
}.

Definition set_sbuf (x : option positive) (d : bpf_d) : bpf_d :=
  BpfD x (bd_hbuf d) (bd_fbuf d) (bd_slen d) (bd_hlen d) (bd_scnt d) (bd_hcnt d) (bd_bufsize d)
    (bd_hbuf_read d) (bd_headdrop d) (bd_bif d) (bd_rtout d) (bd_filter d) (bd_rcount d) (bd_dcount
    d) (bd_state d) (bd_immediate d) (bd_seesent d) (bd_flags d) (bd_refcnt d).
Definition set_hbuf (x : option positive) (d : bpf_d) : bpf_d :=
  BpfD (bd_sbuf d) x (bd_fbuf d) (bd_slen d) (bd_hlen d) (bd_scnt d) (bd_hcnt d) (bd_bufsize d)
    (bd_hbuf_read d) (bd_headdrop d) (bd_bif d) (bd_rtout d) (bd_filter d) (bd_rcount d) (bd_dcount
    d) (bd_state d) (bd_immediate d) (bd_seesent d) (bd_flags d) (bd_refcnt d).
Definition set_fbuf (x : option positive) (d : bpf_d) : bpf_d :=
  BpfD (bd_sbuf d) (bd_hbuf d) x (bd_slen d) (bd_hlen d) (bd_scnt d) (bd_hcnt d) (bd_bufsize d)
    (bd_hbuf_read d) (bd_headdrop d) (bd_bif d) (bd_rtout d) (bd_filter d) (bd_rcount d) (bd_dcount
    d) (bd_state d) (bd_immediate d) (bd_seesent d) (bd_flags d) (bd_refcnt d).
Definition set_slen (x : Z) (d : bpf_d) : bpf_d :=
  BpfD (bd_sbuf d) (bd_hbuf d) (bd_fbuf d) x (bd_hlen d) (bd_scnt d) (bd_hcnt d) (bd_bufsize d)
    (bd_hbuf_read d) (bd_headdrop d) (bd_bif d) (bd_rtout d) (bd_filter d) (bd_rcount d) (bd_dcount
    d) (bd_state d) (bd_immediate d) (bd_seesent d) (bd_flags d) (bd_refcnt d).
Definition set_hlen (x : Z) (d : bpf_d) : bpf_d :=
  BpfD (bd_sbuf d) (bd_hbuf d) (bd_fbuf d) (bd_slen d) x (bd_scnt d) (bd_hcnt d) (bd_bufsize d)
    (bd_hbuf_read d) (bd_headdrop d) (bd_bif d) (bd_rtout d) (bd_filter d) (bd_rcount d) (bd_dcount
    d) (bd_state d) (bd_immediate d) (bd_seesent d) (bd_flags d) (bd_refcnt d).
Definition set_scnt (x : Z) (d : bpf_d) : bpf_d :=
  BpfD (bd_sbuf d) (bd_hbuf d) (bd_fbuf d) (bd_slen d) (bd_hlen d) x (bd_hcnt d) (bd_bufsize d)
    (bd_hbuf_read d) (bd_headdrop d) (bd_bif d) (bd_rtout d) (bd_filter d) (bd_rcount d) (bd_dcount
    d) (bd_state d) (bd_immediate d) (bd_seesent d) (bd_flags d) (bd_refcnt d).
Definition set_hcnt (x : Z) (d : bpf_d) : bpf_d :=
  BpfD (bd_sbuf d) (bd_hbuf d) (bd_fbuf d) (bd_slen d) (bd_hlen d) (bd_scnt d) x (bd_bufsize d)
    (bd_hbuf_read d) (bd_headdrop d) (bd_bif d) (bd_rtout d) (bd_filter d) (bd_rcount d) (bd_dcount
    d) (bd_state d) (bd_immediate d) (bd_seesent d) (bd_flags d) (bd_refcnt d).
Definition set_bufsize (x : Z) (d : bpf_d) : bpf_d :=
  BpfD (bd_sbuf d) (bd_hbuf d) (bd_fbuf d) (bd_slen d) (bd_hlen d) (bd_scnt d) (bd_hcnt d) x
    (bd_hbuf_read d) (bd_headdrop d) (bd_bif d) (bd_rtout d) (bd_filter d) (bd_rcount d) (bd_dcount
    d) (bd_state d) (bd_immediate d) (bd_seesent d) (bd_flags d) (bd_refcnt d).
Definition set_hbuf_read (x : Z) (d : bpf_d) : bpf_d :=
  BpfD (bd_sbuf d) (bd_hbuf d) (bd_fbuf d) (bd_slen d) (bd_hlen d) (bd_scnt d) (bd_hcnt d)
    (bd_bufsize d) x (bd_headdrop d) (bd_bif d) (bd_rtout d) (bd_filter d) (bd_rcount d) (bd_dcount
    d) (bd_state d) (bd_immediate d) (bd_seesent d) (bd_flags d) (bd_refcnt d).
Definition set_headdrop (x : Z) (d : bpf_d) : bpf_d :=
  BpfD (bd_sbuf d) (bd_hbuf d) (bd_fbuf d) (bd_slen d) (bd_hlen d) (bd_scnt d) (bd_hcnt d)
    (bd_bufsize d) (bd_hbuf_read d) x (bd_bif d) (bd_rtout d) (bd_filter d) (bd_rcount d) (bd_dcount
    d) (bd_state d) (bd_immediate d) (bd_seesent d) (bd_flags d) (bd_refcnt d).
Definition set_filter (x : option (list bpf_insn)) (d : bpf_d) : bpf_d :=
  BpfD (bd_sbuf d) (bd_hbuf d) (bd_fbuf d) (bd_slen d) (bd_hlen d) (bd_scnt d) (bd_hcnt d)
    (bd_bufsize d) (bd_hbuf_read d) (bd_headdrop d) (bd_bif d) (bd_rtout d) x (bd_rcount d)
    (bd_dcount d) (bd_state d) (bd_immediate d) (bd_seesent d) (bd_flags d) (bd_refcnt d).
Definition set_rcount (x : Z) (d : bpf_d) : bpf_d :=
  BpfD (bd_sbuf d) (bd_hbuf d) (bd_fbuf d) (bd_slen d) (bd_hlen d) (bd_scnt d) (bd_hcnt d)
    (bd_bufsize d) (bd_hbuf_read d) (bd_headdrop d) (bd_bif d) (bd_rtout d) (bd_filter d) x
    (bd_dcount d) (bd_state d) (bd_immediate d) (bd_seesent d) (bd_flags d) (bd_refcnt d).
Definition set_dcount (x : Z) (d : bpf_d) : bpf_d :=
  BpfD (bd_sbuf d) (bd_hbuf d) (bd_fbuf d) (bd_slen d) (bd_hlen d) (bd_scnt d) (bd_hcnt d)
    (bd_bufsize d) (bd_hbuf_read d) (bd_headdrop d) (bd_bif d) (bd_rtout d) (bd_filter d) (bd_rcount
    d) x (bd_state d) (bd_immediate d) (bd_seesent d) (bd_flags d) (bd_refcnt d).
Definition set_state (x : Z) (d : bpf_d) : bpf_d :=
  BpfD (bd_sbuf d) (bd_hbuf d) (bd_fbuf d) (bd_slen d) (bd_hlen d) (bd_scnt d) (bd_hcnt d)
    (bd_bufsize d) (bd_hbuf_read d) (bd_headdrop d) (bd_bif d) (bd_rtout d) (bd_filter d) (bd_rcount
    d) (bd_dcount d) x (bd_immediate d) (bd_seesent d) (bd_flags d) (bd_refcnt d).
Definition set_immediate (x : Z) (d : bpf_d) : bpf_d :=
  BpfD (bd_sbuf d) (bd_hbuf d) (bd_fbuf d) (bd_slen d) (bd_hlen d) (bd_scnt d) (bd_hcnt d)
    (bd_bufsize d) (bd_hbuf_read d) (bd_headdrop d) (bd_bif d) (bd_rtout d) (bd_filter d) (bd_rcount
    d) (bd_dcount d) (bd_state d) x (bd_seesent d) (bd_flags d) (bd_refcnt d).
Definition set_seesent (x : Z) (d : bpf_d) : bpf_d :=
  BpfD (bd_sbuf d) (bd_hbuf d) (bd_fbuf d) (bd_slen d) (bd_hlen d) (bd_scnt d) (bd_hcnt d)
    (bd_bufsize d) (bd_hbuf_read d) (bd_headdrop d) (bd_bif d) (bd_rtout d) (bd_filter d) (bd_rcount
    d) (bd_dcount d) (bd_state d) (bd_immediate d) x (bd_flags d) (bd_refcnt d).
Definition set_flags (x : Z) (d : bpf_d) : bpf_d :=
  BpfD (bd_sbuf d) (bd_hbuf d) (bd_fbuf d) (bd_slen d) (bd_hlen d) (bd_scnt d) (bd_hcnt d)
    (bd_bufsize d) (bd_hbuf_read d) (bd_headdrop d) (bd_bif d) (bd_rtout d) (bd_filter d) (bd_rcount
    d) (bd_dcount d) (bd_state d) (bd_immediate d) (bd_seesent d) x (bd_refcnt d).
Definition set_refcnt (x : Z) (d : bpf_d) : bpf_d :=
  BpfD (bd_sbuf d) (bd_hbuf d) (bd_fbuf d) (bd_slen d) (bd_hlen d) (bd_scnt d) (bd_hcnt d)
    (bd_bufsize d) (bd_hbuf_read d) (bd_headdrop d) (bd_bif d) (bd_rtout d) (bd_filter d) (bd_rcount
    d) (bd_dcount d) (bd_state d) (bd_immediate d) (bd_seesent d) (bd_flags d) x.
Definition set_bif (x : option bpf_if) (d : bpf_d) : bpf_d :=
  BpfD (bd_sbuf d) (bd_hbuf d) (bd_fbuf d) (bd_slen d) (bd_hlen d) (bd_scnt d) (bd_hcnt d)
    (bd_bufsize d) (bd_hbuf_read d) (bd_headdrop d) x (bd_rtout d) (bd_filter d) (bd_rcount d)
    (bd_dcount d) (bd_state d) (bd_immediate d) (bd_seesent d) (bd_flags d) (bd_refcnt d).

(** The device: the buffers that exist, by address; the outcomes of the
    allocations to come ([true]: there is no memory); the descriptor; and
    how often the sleepers on it have been woken. *)
Record dev := Dev {
  bufs : gmap positive (list Z);
  m_null : list bool;
  desc : bpf_d;
  wakeups : Z
}.

Definition getd : st dev bpf_d := λ v, Ok (desc v, v).
Definition upd (f : bpf_d → bpf_d) : st dev () := λ v,
  Ok ((), Dev (bufs v) (m_null v) (f (desc v)) (wakeups v)).
Definition panic {A} : st dev A := fault.
Definition lift {A} (m : res A) : st dev A := λ v, a ← m; Ok (a, v).

Definition get_buf (p : option positive) : st dev (list Z) := λ v,
  match p ≫= (λ p, bufs v !! p) with Some b => Ok (b, v) | None => Fault end.
Definition put_buf (p : option positive) (b : list Z) : st dev () := λ v,
  match p with
  | Some p => Ok ((), Dev (<[p := b]> (bufs v)) (m_null v) (desc v) (wakeups v))
  | None => Fault
  end.
Definition free_buf (p : option positive) : st dev () := λ v,
  match p with
  | Some p =>
      match bufs v !! p with
      | Some _ => Ok ((), Dev (delete p (bufs v)) (m_null v) (desc v) (wakeups v))
      | None => Fault
      end
  | None => Ok ((), v)
  end.
Definition wakeup : st dev () := λ v,
  Ok ((), Dev (bufs v) (m_null v) (desc v) (wakeups v + 1)).

(** ** Headers *)

Definition le16 (x : Z) : list Z := [u8 x; u8 (Z.shiftr x 8)].
Definition le32 (x : Z) : list Z :=
  [u8 x; u8 (Z.shiftr x 8); u8 (Z.shiftr x 16); u8 (Z.shiftr x 24)].

(** The members of [m_pkthdr] that go into the extended header. *)
Record pkthdr := PktHdr {
  pkt_flags : Z; pkt_flowsrc : Z; pkt_flowid : Z; pkt_proto : Z; pkt_svc : Z;
  bufstatus_if : Z; bufstatus_sndbuf : Z
}.

Definition PKTF_FLOW_ID : Z := 0x1.
Definition PKTF_FLOW_LOCALSRC : Z := 0x4.
Definition PKTF_FLOW_RAWSOCK : Z := 0x8.
Definition PKTF_VALID_UNSENT_DATA : Z := 0x100000.
Definition PKTF_TCP_REXMT : Z := 0x200000.
Definition PKTF_START_SEQ : Z := 0x8000000.
Definition PKTF_LAST_PKT : Z := 0x10000000.
Definition FLOWSRC_INPCB : Z := 1.

Definition so_svc2tc (svc : Z) : Z :=
  if svc =? 0x00080090 then 100
  else if svc =? 0x00100080 then 200
  else if svc =? 0x00000000 then 0
  else if svc =? 0x00180010 then 300
  else if svc =? 0x00200020 then 400
  else if svc =? 0x00280120 then 500
  else if svc =? 0x00300110 then 600
  else if svc =? 0x00380100 then 700
  else if svc =? 0x00380130 then 10002
  else if svc =? 0x00400180 then 800
  else if svc =? 0x00480190 then 900
  else 0.

(** [struct bpf_hdr] as it is stored, without its trailing padding. *)
Definition bpf_hdr (tv : Z * Z) (caplen datalen hdrlen : Z) : list Z :=
  le32 tv.1 ++ le32 tv.2 ++ le32 caplen ++ le32 datalen ++ le16 hdrlen.

(** The members of [struct bpf_hdr_ext] from [bh_flags] on; [bh_pid],
    [bh_comm] and the padding are zero. *)
Definition bpf_ext (flags pktflags proto svc flowid unsent_bytes unsent_snd : Z) : list Z :=
  le16 flags ++ le32 0 ++ replicate 17 0 ++ [0; pktflags; proto]
  ++ le32 svc ++ le32 flowid ++ le32 unsent_bytes ++ le32 unsent_snd.

Definition BPF_HDR_EXT_FLAGS_DIR_IN : Z := 0.
Definition BPF_HDR_EXT_FLAGS_DIR_OUT : Z := 1.

(** [struct bpf_hdr_ext]; [m] is [None] for a packet that is not an mbuf. *)
Definition bpf_hdr_ext (tv : Z * Z) (caplen datalen hdrlen : Z) (outbound : bool) (m : option pkthdr) : list Z :=
  let dir := if outbound then BPF_HDR_EXT_FLAGS_DIR_OUT else BPF_HDR_EXT_FLAGS_DIR_IN in
  bpf_hdr tv caplen datalen hdrlen
  ++ match m with
     | None => bpf_ext dir 0 0 0 0 0 0
     | Some m =>
         if outbound then
           let flag f := tst (pkt_flags m) f in
           let flow :=
             (Z.land (pkt_flags m) (Z.lor (Z.lor PKTF_FLOW_ID PKTF_FLOW_LOCALSRC) PKTF_FLOW_RAWSOCK)
              =? Z.lor PKTF_FLOW_ID PKTF_FLOW_LOCALSRC) && (pkt_flowsrc m =? FLOWSRC_INPCB) in
           bpf_ext dir
             (Z.lor (Z.lor (if flag PKTF_TCP_REXMT then 1 else 0) (if flag PKTF_START_SEQ then 2 else 0))
                    (if flag PKTF_LAST_PKT then 4 else 0))
             (if flow then pkt_proto m else 0) (so_svc2tc (pkt_svc m)) (if flow then pkt_flowid m else 0)
             (if flag PKTF_VALID_UNSENT_DATA then bufstatus_if m else 0)
             (if flag PKTF_VALID_UNSENT_DATA then bufstatus_sndbuf m else 0)
         else bpf_ext dir 0 0 0 0 0 0
     end.

(** ** Wakeups and the read timer *)

Definition bpf_wakeup : st dev () :=
  d ← getd;
  (if bd_state d =? BPF_WAITING then upd (set_state BPF_IDLE) else mret ()) ;;
  wakeup.

Definition bpf_timed_out : st dev () :=
  d ← getd;
  if bd_state d =? BPF_WAITING then
    upd (set_state BPF_TIMED_OUT) ;;
    if negb (bd_slen d =? 0) then bpf_wakeup else mret ()
  else if bd_state d =? BPF_DRAINING then
    upd (set_state BPF_IDLE) ;; bpf_wakeup
  else mret ().

Definition bpf_start_timer : st dev () :=
  d ← getd;
  if (bd_rtout d >? 0) && (bd_state d =? BPF_IDLE) then upd (set_state BPF_WAITING) else mret ().

(** ** References *)

Definition bpf_acquire_d : st dev () :=
  d ← getd; upd (set_refcnt (s32 (bd_refcnt d + 1))).

(** The descriptor itself is freed with its last reference. *)
Definition bpf_release_d : st dev () :=
  d ← getd;
  if bd_refcnt d <=? 0 then panic
  else
    upd (set_refcnt (bd_refcnt d - 1)) ;;
    if (bd_refcnt d - 1 =? 0) && (Z.land (bd_flags d) BPF_DETACHED =? 0) then panic else mret ().

(** ** Buffers *)

Definition ROTATE_BUFFERS : st dev () :=
  d ← getd;
  if negb (bd_hbuf_read d =? 0) then panic
  else
    upd (set_hbuf (bd_sbuf d)) ;; upd (set_hlen (bd_slen d)) ;; upd (set_hcnt (bd_scnt d)) ;;
    upd (set_sbuf (bd_fbuf d)) ;; upd (set_slen 0) ;; upd (set_scnt 0) ;;
    upd (set_fbuf None).

Definition reset_d : st dev () :=
  d ← getd;
  if negb (bd_hbuf_read d =? 0) then panic
  else
    (match bd_hbuf d with
     | Some _ => upd (set_fbuf (bd_hbuf d)) ;; upd (set_hbuf None)
     | None => mret ()
     end) ;;
    upd (set_slen 0) ;; upd (set_hlen 0) ;; upd (set_scnt 0) ;; upd (set_hcnt 0) ;;
    upd (set_rcount 0) ;; upd (set_dcount 0).

Section device.

(** The bytes that [_MALLOC] leaves in a new buffer. *)
Context (junk : Z).

(** [_MALLOC] with the flag [M_WAIT]: it panics when there is no memory. *)
Definition malloc (size : Z) : st dev (option positive) :=
  if size =? 0 then mret None
  else λ v,
    match m_null v with
    | true :: _ => Fault
    | _ =>
        let p := fresh (dom (bufs v)) in
        Ok (Some p, Dev (<[p := replicate (Z.to_nat size) junk]> (bufs v)) (tail (m_null v))
                      (desc v) (wakeups v))
    end.

Definition bpf_allocbufs : st dev Z :=
  d ← getd;
  free_buf (bd_sbuf d) ;; upd (set_sbuf None) ;;
  free_buf (bd_hbuf d) ;; upd (set_hbuf None) ;;
  free_buf (bd_fbuf d) ;; upd (set_fbuf None) ;;
  fbuf ← malloc (bd_bufsize d);
  upd (set_fbuf fbuf) ;;
  match fbuf with
  | None => mret ENOBUFS
  | Some _ =>
      sbuf ← malloc (bd_bufsize d);
      upd (set_sbuf sbuf) ;;
      match sbuf with
      | None => free_buf fbuf ;; upd (set_fbuf None) ;; mret ENOBUFS
      | Some _ =>
          upd (set_slen 0) ;; upd (set_hlen 0) ;; upd (set_scnt 0) ;; upd (set_hcnt 0) ;; mret 0
      end
  end.

Definition bpf_freed : st dev () :=
  d ← getd;
  if negb (bd_hbuf_read d =? 0) then panic
  else
    match bd_sbuf d with
    | Some _ => free_buf (bd_sbuf d) ;; free_buf (bd_hbuf d) ;; free_buf (bd_fbuf d)
    | None => mret ()
    end.

(** ** Capturing a packet *)

(** [bpf_mcopy]: the first [len] bytes of a chain; it panics at the end of
    the chain. *)
Fixpoint bpf_mcopy (m : list mbuf) (len : Z) : res (list Z) :=
  if len >? 0 then
    match m with
    | [] => Fault
    | m0 :: m =>
        let count := Z.min (u32 (m_len m0)) (u32 len) in
        data ← slice m0 0 count;
        rest ← bpf_mcopy m (len - count);
        Ok (data ++ rest)
    end
  else Ok [].

Definition copy_bpf_packet (pkt : bpf_packet) (len : Z) : res (list Z) :=
  let hlen := Z.of_nat (length (bpfp_header pkt)) in
  '(hdr, len) ←
    (if negb (hlen =? 0) then
       let count := Z.min (u32 len) (u32 hlen) in
       hdr ← slice (bpfp_header pkt) 0 count; Ok (hdr, len - count)
     else Ok ([], len));
  if len =? 0 then Ok hdr
  else if bpfp_type pkt =? BPF_PACKET_TYPE_MBUF then data ← bpf_mcopy (bpfp_mbuf pkt) len; Ok (hdr ++ data)
  else Ok hdr.

(** [bpfp_total_length] as [bpf_tap_mbuf] computes it. *)
Definition total_length (pkt : bpf_packet) : Z :=
  foldr (λ m n, m_len m + n) 0 (bpfp_mbuf pkt) + Z.of_nat (length (bpfp_header pkt)).

Definition put_packet (curlen hdrlen totlen : Z) (tv : Z * Z) (outbound : bool) (m : pkthdr)
    (pkt : bpf_packet) : st dev () :=
  d ← getd;
  buf ← get_buf (bd_sbuf d);
  let caplen := totlen - hdrlen in
  let hdr := if tst (bd_flags d) BPF_EXTENDED_HDR
             then bpf_hdr_ext tv caplen (total_length pkt) hdrlen outbound
                    (if bpfp_type pkt =? BPF_PACKET_TYPE_MBUF then Some m else None)
             else bpf_hdr tv caplen (total_length pkt) hdrlen in
  buf ← lift (blit buf curlen hdr);
  data ← lift (copy_bpf_packet pkt caplen);
  buf ← lift (blit buf (curlen + hdrlen) data);
  put_buf (bd_sbuf d) buf.

(** Makes room in the store buffer: the position to store at and whether to
    wake the readers up, or [None] when the packet is dropped. *)
Definition make_room (totlen : Z) : st dev (option (Z * bool)) :=
  d ← getd;
  let curlen := BPF_WORDALIGN (bd_slen d) in
  if curlen + totlen >? bd_bufsize d then
    if negb (bd_hbuf_read d =? 0) then
      upd (set_dcount (u32 (bd_dcount d + 1))) ;; mret None
    else
      match bd_fbuf d with
      | None =>
          if bd_headdrop d =? 0 then
            upd (set_dcount (u32 (bd_dcount d + 1))) ;; mret None
          else
            upd (set_dcount (u32 (bd_dcount d + bd_hcnt d))) ;;
            upd (set_fbuf (bd_hbuf d)) ;;
            ROTATE_BUFFERS ;; mret (Some (0, true))
      | Some _ => ROTATE_BUFFERS ;; mret (Some (0, true))
      end
  else mret (Some (curlen, negb (bd_immediate d =? 0) || (bd_state d =? BPF_TIMED_OUT))).

Definition catchpacket (pkt : bpf_packet) (snaplen : Z) (outbound : bool) (tv : Z * Z) (m : pkthdr) :
    st dev () :=
  d ← getd;
  match bd_bif d with
  | None => fault
  | Some bif =>
      let hdrlen := if tst (bd_flags d) BPF_EXTENDED_HDR then bif_exthdrlen bif else bif_hdrlen bif in
      let totlen := s32 (hdrlen + Z.min snaplen (u32 (total_length pkt))) in
      let totlen := if totlen >? bd_bufsize d then bd_bufsize d else totlen in
      if hdrlen >? totlen then mret ()
      else
        room ← make_room totlen;
        match room with
        | None => mret ()
        | Some (curlen, do_wakeup) =>
            put_packet curlen hdrlen totlen tv outbound m pkt ;;
            upd (set_slen (curlen + totlen)) ;;
            d ← getd;
            upd (set_scnt (u32 (bd_scnt d + 1))) ;;
            if (do_wakeup : bool) then bpf_wakeup else mret ()
        end
  end.

(** The body of the loop of [bpf_tap_imp] over the listeners, on interfaces
    that are not pktap interfaces. *)
Definition tap (shl_over shr_over : Z → Z → Z) (pkt : bpf_packet) (outbound : bool) (tv : Z * Z)
    (m : pkthdr) : st dev () :=
  d ← getd;
  if outbound && (bd_seesent d =? 0) then mret ()
  else
    upd (set_rcount (u32 (bd_rcount d + 1))) ;;
    slen ← (match bpf_filter shl_over shr_over (length (default [] (bd_filter d))) (bd_filter d)
                    (PPacket pkt) (u32 (total_length pkt)) 0 with
            | Some r => lift r
            | None => fault
            end);
    if negb (slen =? 0) then catchpacket pkt slen outbound tv m else mret ().

(** ** Reading *)

(** Where a reading thread is after a section: it has returned, it sleeps
    (waiting for another reader, for packets, or for another reader after it
    had been woken), or it copies the hold buffer to user space. *)
Inductive rstate :=
  | RReturn (error : Z)
  | RWait (timed_out : bool)
  | RSleep (timed_out : bool)
  | RWait2 (timed_out : bool) (error : Z)
  | RCopy (hbuf : option positive) (hbuf_len flags : Z).

Definition closing (d : bpf_d) : bool := negb (Z.land (bd_flags d) BPF_CLOSING =? 0).
Definition leave (error : Z) : st dev rstate := bpf_release_d ;; mret (RReturn error).

Definition read_copy : st dev rstate :=
  upd (set_hbuf_read 1) ;;
  d ← getd;
  mret (RCopy (bd_hbuf d) (bd_hlen d) (bd_flags d)).

(** The head of the loop that waits for the hold buffer. *)
Definition read_loop (ioflag : Z) (timed_out : bool) : st dev rstate :=
  d ← getd;
  match bd_hbuf d with
  | Some _ => read_copy
  | None =>
      if (negb (bd_immediate d =? 0) || timed_out || tst ioflag IO_NDELAY) && negb (bd_slen d =? 0)
      then ROTATE_BUFFERS ;; read_copy
      else if bool_decide (bd_bif d = None) then leave ENXIO
      else if tst ioflag IO_NDELAY then leave EWOULDBLOCK
      else mret (RSleep timed_out)
  end.

Definition read_wait (ioflag : Z) (timed_out : bool) : st dev rstate :=
  d ← getd;
  if negb (bd_hbuf_read d =? 0) then mret (RWait timed_out)
  else if closing d then leave ENXIO
  else read_loop ioflag timed_out.

(** The device is open; [resid] is the size of the user's buffer. *)
Definition bpfread (ioflag resid : Z) : st dev rstate :=
  d ← getd;
  if closing d then mret (RReturn ENXIO)
  else
    bpf_acquire_d ;;
    if negb (resid =? bd_bufsize d) then leave EINVAL
    else
      let timed_out := bd_state d =? BPF_TIMED_OUT in
      upd (set_state BPF_IDLE) ;;
      read_wait ioflag timed_out.

(** After the sleep, which ended with [error], and after waiting for another
    reader to finish. *)
Definition read_wait2 (ioflag : Z) (timed_out : bool) (error : Z) : st dev rstate :=
  d ← getd;
  if negb (bd_hbuf_read d =? 0) then mret (RWait2 timed_out error)
  else if closing d then leave ENXIO
  else if (error =? EINTR) || (error =? ERESTART) then
    match bd_hbuf d with
    | Some _ => read_copy
    | None =>
        if negb (bd_slen d =? 0) then ROTATE_BUFFERS ;; read_copy
        else leave EINTR
    end
  else if error =? EWOULDBLOCK then
    match bd_hbuf d with
    | Some _ => read_copy
    | None =>
        if bd_slen d =? 0 then leave 0
        else ROTATE_BUFFERS ;; read_copy
    end
  else read_loop ioflag timed_out.

Definition read_woken (ioflag : Z) (timed_out : bool) (error : Z) : st dev rstate :=
  d ← getd;
  if closing d then leave ENXIO else read_wait2 ioflag timed_out error.

(** The next section of a sleeping reader; [error] is what its sleep returned. *)
Definition read_next (ioflag error : Z) (r : rstate) : st dev rstate :=
  match r with
  | RWait timed_out => read_wait ioflag timed_out
  | RSleep timed_out => read_woken ioflag timed_out error
  | RWait2 timed_out error => read_wait2 ioflag timed_out error
  | RReturn _ | RCopy _ _ _ => mret r
  end.

(** The loops over the headers of the hold buffer, which run without the
    lock: [body buf p] treats the packet at [p] and gives the buffer
    afterwards.  The fuel is the size of the buffer; a header of length 0 makes
    the code loop for ever. *)
Fixpoint walk (body : list Z → Z → res (list Z)) (fuel : nat) (hbuf : list Z) (len p : Z) : res (list Z) :=
  if p <? len then
    match fuel with
    | O => Fault
    | S fuel =>
        hbuf ← body hbuf p;
        caplen ← load_le32 (drop (Z.to_nat (p + 8)) hbuf);
        hdrlen ← load_le16 (drop (Z.to_nat (p + 16)) hbuf);
        walk body fuel hbuf len (p + BPF_WORDALIGN (u32 (hdrlen + caplen)))
    end
  else Ok hbuf.

(** Fills in the process of a flow that [inp_findinpcb_procinfo] finds. *)
Definition fill_proc (procinfo : Z → Z → option (Z * list Z)) (hbuf : list Z) (p : Z) : res (list Z) :=
  flowid ← load_le32 (drop (Z.to_nat (p + 48)) hbuf);
  if negb (flowid =? 0) then
    proto ← rd hbuf (p + 43);
    hbuf ← (match (if (proto =? 6) || (proto =? 17) then procinfo proto flowid else None) with
            | Some (pid, comm) =>
                hbuf ← blit hbuf (p + 20) (le32 pid);
                blit hbuf (p + 24) (take 16 comm ++ [0])
            | None => Ok hbuf
            end);
    blit hbuf (p + 48) (le32 0)
  else Ok hbuf.

(** What is moved to user space, and the device afterwards.  [finalize] is
    [bpf_finalize_pktap] on the packet at a position. *)
Definition read_data (procinfo : Z → Z → option (Z * list Z)) (finalize : list Z → Z → res (list Z))
    (hbuf : option positive) (hbuf_len flags : Z) : st dev (list Z) :=
  buf ← get_buf hbuf;
  let final buf p := if tst flags BPF_FINALIZE_PKTAP then finalize buf p else Ok buf in
  buf ← lift (if tst flags BPF_EXTENDED_HDR then
                walk (λ buf p, buf ← fill_proc procinfo buf p; final buf p) (length buf) buf hbuf_len 0
              else if tst flags BPF_FINALIZE_PKTAP then walk finalize (length buf) buf hbuf_len 0
              else Ok buf);
  put_buf hbuf buf ;;
  lift (slice buf 0 hbuf_len).

(** The last section of [bpfread]; [error] is the result of the move. *)
Definition read_done (error : Z) : st dev rstate :=
  d ← getd;
  if closing d then leave ENXIO
  else
    upd (set_hbuf_read 0) ;;
    upd (set_fbuf (bd_hbuf d)) ;; upd (set_hbuf None) ;; upd (set_hlen 0) ;; upd (set_hcnt 0) ;;
    wakeup ;; leave error.

(** ** Opening and attaching *)

(** The descriptor that [bpfopen] sets up. *)
Definition open_d (bpf_bufsize : Z) (bpf_wantpktap : bool) : bpf_d :=
  BpfD None None None 0 0 0 0 bpf_bufsize 0 0 None 0 None 0 0 BPF_IDLE 0 1
    (Z.lor BPF_DETACHED (if bpf_wantpktap then BPF_WANT_PKTAP else 0)) 1.

(** [bpf_attachd] and [bpf_detachd], without the lists of the interfaces;
    [tap_error] is what the driver answers when it is told of the listener (0
    when it is not called); [bpf_detachd] tells whether the device is being
    closed. *)
Definition bpf_attachd (bp : bpf_if) (tap_error : Z) : st dev Z :=
  upd (set_bif (Some bp)) ;;
  bpf_acquire_d ;;
  d ← getd;
  upd (set_flags (Z.land (bd_flags d) (Z.lnot (Z.lor BPF_DETACHING BPF_DETACHED)))) ;;
  d ← getd;
  upd (set_flags (if bif_dlt bp =? DLT_PKTAP then Z.lor (bd_flags d) BPF_FINALIZE_PKTAP
                  else Z.land (bd_flags d) (Z.lnot BPF_FINALIZE_PKTAP))) ;;
  mret tap_error.

Definition bpf_detachd : st dev bool :=
  d ← getd;
  if tst (bd_flags d) (Z.lor BPF_DETACHED BPF_DETACHING) then mret (closing d)
  else
    upd (set_flags (Z.lor (bd_flags d) BPF_DETACHING)) ;;
    upd (set_bif None) ;;
    d ← getd;
    upd (set_flags (Z.lor (Z.land (bd_flags d) (Z.lnot BPF_DETACHING)) BPF_DETACHED)) ;;
    bpf_release_d ;;
    d ← getd;
    mret (closing d).

(** [bpf_setif] with the interface that is found.  [None]: the thread sleeps
    until the read that is going on has finished, and starts over. *)
Definition bpf_setif (found : option bpf_if) (tap_error : Z) (do_reset has_hbuf_read : bool) : st dev (option Z) :=
  d ← getd;
  if negb (bd_hbuf_read d =? 0) && negb has_hbuf_read then mret None
  else if closing d then mret (Some ENXIO)
  else
    match found with
    | None => mret (Some ENXIO)
    | Some bp =>
        error ← bpf_allocbufs;
        if negb (error =? 0) then mret (Some error)
        else
          d ← getd;
          failed ←
            (if bool_decide (bif_addr <$> bd_bif d = Some (bif_addr bp)) then mret false
             else
               closed ← (match bd_bif d with Some _ => bpf_detachd | None => mret false end);
               if (closed : bool) then mret true
               else error ← bpf_attachd bp tap_error; mret (negb (error =? 0)));
          if (failed : bool) then mret (Some ENXIO)
          else (if do_reset then reset_d else mret ()) ;; mret (Some 0)
    end.

(** ** Closing *)

(** The sections of [bpfclose]: up to where it waits for the timer ([stopped]
    is the answer of [bpf_stop_timer]; [false]: it sleeps), the end of that
    wait, the detaching, and the end, once no read is going on ([false]: it
    sleeps because one is). *)
Definition close_begin (stopped : bool) : st dev bool :=
  d ← getd;
  upd (set_flags (Z.lor (bd_flags d) BPF_CLOSING)) ;;
  if bd_state d =? BPF_WAITING then
    if stopped then upd (set_state BPF_IDLE) ;; mret true
    else upd (set_state BPF_DRAINING) ;; mret false
  else if bd_state d =? BPF_TIMED_OUT then upd (set_state BPF_IDLE) ;; mret true
  else if bd_state d =? BPF_DRAINING then panic
  else mret true.

Definition close_drained : st dev bool :=
  d ← getd;
  if bd_state d =? BPF_DRAINING then mret false
  else upd (set_state BPF_IDLE) ;; mret true.

Definition close_detach : st dev () :=
  d ← getd;
  match bd_bif d with Some _ => bpf_detachd ;; mret () | None => mret () end.

Definition close_finish : st dev bool :=
  d ← getd;
  if negb (bd_hbuf_read d =? 0) then mret false
  else bpf_freed ;; bpf_release_d ;; mret true.

(** ** Control operations *)

(** [bpf_setf] with the program copied in, if that succeeds.  [None]: the
    thread sleeps until the read that is going on has finished, and starts
    over.  The allocation for no instructions gives the null pointer. *)
Definition bpf_setf (bpf_maxbufsize : Z) (bf_len : Z) (bf_insns : bool) (reset : bool)
    (copyin : option (list bpf_insn)) : st dev (option Z) :=
  d ← getd;
  if negb (bd_hbuf_read d =? 0) then mret None
  else if closing d then mret (Some ENXIO)
  else if negb bf_insns then
    if negb (bf_len =? 0) then mret (Some EINVAL)
    else upd (set_filter None) ;; reset_d ;; mret (Some 0)
  else if bf_len >? BPF_MAXINSNS then mret (Some EINVAL)
  else if bf_len =? 0 then mret (Some ENOBUFS)
  else
    match copyin with
    | None => mret (Some EINVAL)
    | Some fcode =>
        ok ← lift (bpf_validate bpf_maxbufsize fcode bf_len);
        if negb (ok =? 0) then
          upd (set_filter (Some fcode)) ;;
          (if (reset : bool) then reset_d else mret ()) ;;
          mret (Some 0)
        else mret (Some EINVAL)
    end.

(** The commands of [bpfioctl] that concern the descriptor only.  [BIOCSETF]
    stands for the four commands that set the filter: those whose name has
    [NR] do not [reset] the device. *)
Inductive ioctl :=
  | FIONREAD
  | BIOCGBLEN
  | BIOCSBLEN (size : Z)
  | BIOCSETF (bf_len : Z) (bf_insns reset : bool) (copyin : option (list bpf_insn))
  | BIOCFLUSH
  | BIOCGSTATS
  | BIOCIMMEDIATE (arg : Z)
  | BIOCGSEESENT
  | BIOCSSEESENT (arg : Z)
  | BIOCSEXTHDR (arg : Z)
  | BIOCSHEADDROP (arg : Z)
  | BIOCGHEADDROP.

(** What each command gives: the error and the values stored at the caller's
    address. *)
Definition fionread : st dev (option (Z * list Z)) :=
  d ← getd;
  let n := bd_slen d in
  mret (Some (0, [if bool_decide (is_Some (bd_hbuf d)) && (bd_hbuf_read d =? 0) then n + bd_hlen d else n])).

Definition biocgblen : st dev (option (Z * list Z)) :=
  d ← getd; mret (Some (0, [bd_bufsize d])).

Definition biocsblen (bpf_maxbufsize size : Z) : st dev (option (Z * list Z)) :=
  d ← getd;
  let maxbufsize := if negb (bd_headdrop d =? 0) then u32 (2 * bpf_maxbufsize) else bpf_maxbufsize in
  if bool_decide (is_Some (bd_bif d)) || tst (bd_flags d) BPF_DETACHING then mret (Some (EINVAL, []))
  else
    let bufsize := if size >? maxbufsize then maxbufsize
                   else if size <? BPF_MINBUFSIZE then BPF_MINBUFSIZE else size in
    upd (set_bufsize bufsize) ;; mret (Some (0, [bufsize])).

Definition biocsetf (bpf_maxbufsize bf_len : Z) (bf_insns reset : bool) (copyin : option (list bpf_insn)) :
    st dev (option (Z * list Z)) :=
  error ← bpf_setf bpf_maxbufsize bf_len bf_insns reset copyin;
  mret ((λ error, (error, [])) <$> error).

(** [None]: the thread sleeps. *)
Definition biocflush : st dev (option (Z * list Z)) :=
  d ← getd;
  if negb (bd_hbuf_read d =? 0) then mret None
  else if closing d then mret (Some (ENXIO, []))
  else reset_d ;; mret (Some (0, [])).

Definition biocgstats : st dev (option (Z * list Z)) :=
  d ← getd; mret (Some (0, [bd_rcount d; bd_dcount d])).

Definition biocimmediate (arg : Z) : st dev (option (Z * list Z)) :=
  upd (set_immediate (u8 arg)) ;; mret (Some (0, [])).

Definition biocgseesent : st dev (option (Z * list Z)) :=
  d ← getd; mret (Some (0, [bd_seesent d])).

Definition biocsseesent (arg : Z) : st dev (option (Z * list Z)) :=
  upd (set_seesent arg) ;; mret (Some (0, [])).

Definition biocsexthdr (arg : Z) : st dev (option (Z * list Z)) :=
  d ← getd;
  upd (set_flags (if negb (arg =? 0) then Z.lor (bd_flags d) BPF_EXTENDED_HDR
                  else Z.land (bd_flags d) (Z.lnot BPF_EXTENDED_HDR))) ;; mret (Some (0, [])).

Definition biocsheaddrop (arg : Z) : st dev (option (Z * list Z)) :=
  upd (set_headdrop (if negb (arg =? 0) then 1 else 0)) ;; mret (Some (0, [])).

Definition biocgheaddrop : st dev (option (Z * list Z)) :=
  d ← getd; mret (Some (0, [bd_headdrop d])).

Definition ioctl_cmd (bpf_maxbufsize : Z) (cmd : ioctl) : st dev (option (Z * list Z)) :=
  match cmd with
  | FIONREAD => fionread
  | BIOCGBLEN => biocgblen
  | BIOCSBLEN size => biocsblen bpf_maxbufsize size
  | BIOCSETF bf_len bf_insns reset copyin => biocsetf bpf_maxbufsize bf_len bf_insns reset copyin
  | BIOCFLUSH => biocflush
  | BIOCGSTATS => biocgstats
  | BIOCIMMEDIATE arg => biocimmediate arg
  | BIOCGSEESENT => biocgseesent
  | BIOCSSEESENT arg => biocsseesent arg
  | BIOCSEXTHDR arg => biocsexthdr arg
  | BIOCSHEADDROP arg => biocsheaddrop arg
  | BIOCGHEADDROP => biocgheaddrop
  end.

(** The command and the end of [bpfioctl]; [None]: the thread sleeps, with its
    reference, until the read that is going on has finished, and then goes on
    here. *)
Definition ioctl_run (bpf_maxbufsize : Z) (cmd : ioctl) : st dev (option (Z * list Z)) :=
  r ← ioctl_cmd bpf_maxbufsize cmd;
  match r with
  | Some r => bpf_release_d ;; mret (Some r)
  | None => mret None
  end.

Definition bpfioctl (bpf_maxbufsize : Z) (cmd : ioctl) : st dev (option (Z * list Z)) :=
  d ← getd;
  if closing d then mret (Some (ENXIO, []))
  else bpf_acquire_d ;; upd (set_state BPF_IDLE) ;; ioctl_run bpf_maxbufsize cmd.

(** [bpfselect] for reading, from where it waits for a read that is going on:
    [None] while it sleeps. *)
Definition select_wait : st dev (option Z) :=
  d ← getd;
  if negb (bd_hbuf_read d =? 0) then mret None
  else if closing d then bpf_release_d ;; mret (Some ENXIO)
  else
    r ← (if negb (bd_hlen d =? 0)
            || ((negb (bd_immediate d =? 0) || (bd_state d =? BPF_TIMED_OUT)) && negb (bd_slen d =? 0))
         then mret 1
         else bpf_start_timer ;; mret 0);
    bpf_release_d ;; mret (Some r).

Definition bpfselect : st dev (option Z) :=
  d ← getd;
  if closing d then mret (Some ENXIO)
  else
    bpf_acquire_d ;;
    if bool_decide (bd_bif d = None) then bpf_release_d ;; mret (Some ENXIO)
    else select_wait.

End device.
