(* ===== verification/BpfDevSpec.v ===== *)
(** * Packet capture devices: what the buffers hold

    The packets stored in a buffer, each with its header, at positions
    rounded up to a word; and the invariant of a device: the store buffer is
    always there, the other buffer is in exactly one of the hold and the free
    slot, and both contain the packets that the lengths and counts say. *)

From S2P Require Import Prelude Bpf BpfSafety BpfDev.

(** ** Positions *)

Lemma wordalign_eq x : BPF_WORDALIGN x = 4 * ((x + 3) / 4).
Proof.
  unfold BPF_WORDALIGN. change 3 with (Z.ones 2) at 2. rewrite <- Z.ldiff_land, Z.ldiff_ones_r by lia.
  rewrite Z.shiftr_div_pow2, Z.shiftl_mul_pow2 by lia. change (2 ^ 2) with 4. lia.
Qed.

Lemma wordalign_bounds x : x <= BPF_WORDALIGN x < x + 4.
Proof. rewrite wordalign_eq. zlia. Qed.

Lemma wordalign_add_aligned x y : BPF_WORDALIGN x = x → BPF_WORDALIGN (x + y) = x + BPF_WORDALIGN y.
Proof. rewrite !wordalign_eq. intros. zlia. Qed.

Lemma wordalign_idemp x : BPF_WORDALIGN (BPF_WORDALIGN x) = BPF_WORDALIGN x.
Proof. rewrite !wordalign_eq. zlia. Qed.

Lemma wordalign_0 : BPF_WORDALIGN 0 = 0.
Proof. done. Qed.

(** ** Copies in and out of a buffer *)

Lemma slice_inv {A} (b : list A) off len x : slice b off len = Ok x →
  0 <= off ∧ 0 <= len ∧ off + len <= Z.of_nat (length b) ∧ x = take (Z.to_nat len) (drop (Z.to_nat off) b).
Proof. unfold slice. intros H. case_match eqn:E; simplify_eq. repeat (rewrite andb_true_iff in E || rewrite Z.leb_le in E). naive_solver lia. Qed.

Lemma slice_eq {A} (b : list A) off len : 0 <= off → 0 <= len → off + len <= Z.of_nat (length b) →
  slice b off len = Ok (take (Z.to_nat len) (drop (Z.to_nat off) b)).
Proof. intros. unfold slice. by rewrite !(proj2 (Z.leb_le _ _)) by lia. Qed.

Lemma blit_eq {A} (b : list A) off data : 0 <= off → off + Z.of_nat (length data) <= Z.of_nat (length b) →
  ∃ b', blit b off data = Ok b' ∧ length b' = length b ∧
    slice b' off (Z.of_nat (length data)) = Ok data ∧
    (∀ o l x, slice b o l = Ok x → o + l <= off ∨ off + Z.of_nat (length data) <= o → slice b' o l = Ok x).
Proof.
  intros Hoff Hfit. unfold blit. rewrite !(proj2 (Z.leb_le _ _)) by lia. cbn [andb].
  assert (Ht : length (take (Z.to_nat off) b) = Z.to_nat off) by (rewrite length_take; lia).
  assert (Hl : length (take (Z.to_nat off) b ++ data ++ drop (Z.to_nat off + length data) b) = length b)
    by (rewrite !length_app, length_take, length_drop; lia).
  eexists. split; [done |]. split; [done |]. split.
  - rewrite slice_eq by (rewrite ?Hl; lia). f_equal.
    rewrite drop_app_ge by lia. rewrite Ht, Nat.sub_diag, drop_0, Nat2Z.id.
    by rewrite take_app_length.
  - intros o l x Hx Hd. apply slice_inv in Hx as (Ho & Hl0 & Hbl & ->).
    rewrite slice_eq by (rewrite ?Hl; lia). f_equal. destruct Hd as [Hd|Hd].
    + rewrite drop_app_le by lia. rewrite take_app_le by (rewrite length_drop; lia).
      rewrite <- (take_drop (Z.to_nat off) b) at 2. rewrite drop_app_le by lia.
      by rewrite take_app_le by (rewrite length_drop; lia).
    + rewrite drop_app_ge by lia. rewrite Ht. rewrite drop_app_ge by lia. rewrite drop_drop.
      do 2 f_equal. lia.
Qed.

(** ** Captured packets *)

(** A packet in a buffer: the bytes of its header, the room the header takes
    and the bytes captured. *)
Record rec := Rec { r_hdr : list Z; r_hdrlen : Z; r_data : list Z }.

Definition r_caplen (r : rec) : Z := Z.of_nat (length (r_data r)).
Definition r_size (r : rec) : Z := r_hdrlen r + r_caplen r.

(** The header starts with the fields of [struct bpf_hdr]. *)
Definition rec_ok (r : rec) : Prop :=
  (∃ tv datalen ext, r_hdr r = bpf_hdr tv (r_caplen r) datalen (r_hdrlen r) ++ ext) ∧
  SIZEOF_BPF_HDR <= Z.of_nat (length (r_hdr r)) <= r_hdrlen r ∧
  in_u 16 (r_hdrlen r) ∧ in_u 32 (r_caplen r).

(** Where the packets end that follow the position [p]. *)
Fixpoint ends (p : Z) (rs : list rec) : Z :=
  match rs with
  | [] => p
  | r :: rs => ends (BPF_WORDALIGN p + r_size r) rs
  end.

Fixpoint laid (buf : list Z) (p : Z) (rs : list rec) : Prop :=
  match rs with
  | [] => True
  | r :: rs =>
      let q := BPF_WORDALIGN p in
      slice buf q (Z.of_nat (length (r_hdr r))) = Ok (r_hdr r) ∧
      slice buf (q + r_hdrlen r) (r_caplen r) = Ok (r_data r) ∧
      laid buf (q + r_size r) rs
  end.

(** [buf] holds [rs] in its first [len] bytes. *)
Definition packed (buf : list Z) (rs : list rec) (len : Z) : Prop :=
  len = ends 0 rs ∧ len <= Z.of_nat (length buf) ∧ laid buf 0 rs ∧ Forall rec_ok rs.

Lemma r_size_pos r : rec_ok r → 18 <= r_size r.
Proof. intros (_ & H & _). unfold r_size, r_caplen, SIZEOF_BPF_HDR in *. lia. Qed.

Lemma ends_app p rs rs' : ends p (rs ++ rs') = ends (ends p rs) rs'.
Proof. revert p. induction rs as [|r rs IH]; intros p; simpl; [done | apply IH]. Qed.

Lemma ends_ge p rs : Forall rec_ok rs → p <= ends p rs.
Proof.
  revert p. induction rs as [|r rs IH]; intros p Hok; simpl; [done |].
  apply Forall_cons in Hok as [Hr Hok]. pose proof (r_size_pos r Hr). pose proof (wordalign_bounds p).
  etrans; [| by apply IH]. lia.
Qed.

Lemma laid_app buf p rs rs' : laid buf p (rs ++ rs') ↔ laid buf p rs ∧ laid buf (ends p rs) rs'.
Proof.
  revert p. induction rs as [|r rs IH]; intros p; simpl; [naive_solver |]. rewrite IH. naive_solver.
Qed.

Lemma laid_mono buf buf' p rs q : Forall rec_ok rs → laid buf p rs → ends p rs <= q →
  (∀ o l x, slice buf o l = Ok x → o + l <= q → slice buf' o l = Ok x) → laid buf' p rs.
Proof.
  revert p. induction rs as [|r rs IH]; intros p Hok Hl Hq Hs; simpl in *; [done |].
  apply Forall_cons in Hok as [Hr Hok]. destruct Hl as (H1 & H2 & H3).
  pose proof (ends_ge (BPF_WORDALIGN p + r_size r) rs Hok). pose proof Hr as (_ & Hh & _).
  unfold r_size, r_caplen in *. split_and!; [apply Hs; [done | lia] | apply Hs; [done | lia] | by apply IH].
Qed.

Lemma packed_nil buf : packed buf [] 0.
Proof. split_and!; simpl; done || lia. Qed.

(** Storing one more packet behind the others. *)
Lemma packed_snoc buf rs len r : packed buf rs len → rec_ok r →
  BPF_WORDALIGN len + r_size r <= Z.of_nat (length buf) →
  ∃ buf1 buf2, blit buf (BPF_WORDALIGN len) (r_hdr r) = Ok buf1 ∧
    blit buf1 (BPF_WORDALIGN len + r_hdrlen r) (r_data r) = Ok buf2 ∧
    length buf2 = length buf ∧ packed buf2 (rs ++ [r]) (BPF_WORDALIGN len + r_size r).
Proof.
  intros (Hlen & Hle & Hlaid & Hok) Hr Hfit. pose proof Hr as (_ & Hh & _).
  unfold r_size, r_caplen in *. pose proof (wordalign_bounds len) as Hwa.
  assert (0 <= len) by (rewrite Hlen; by apply ends_ge).
  destruct (blit_eq buf (BPF_WORDALIGN len) (r_hdr r)) as (buf1 & H1 & L1 & S1 & M1); [lia | lia |].
  destruct (blit_eq buf1 (BPF_WORDALIGN len + r_hdrlen r) (r_data r)) as (buf2 & H2 & L2 & S2 & M2); [lia | lia |].
  exists buf1, buf2. split; [done |]. split; [done |]. split; [lia |]. split_and!.
  - rewrite ends_app, <- Hlen. done.
  - lia.
  - rewrite laid_app, <- Hlen. split.
    + eapply (laid_mono buf); [done | done | rewrite <- Hlen; apply Hwa |].
      intros o l x Hx Ho. apply M2; [apply M1; [done | lia] | lia].
    + simpl. split_and!; [apply M2; [done | lia] | done | done].
  - by apply Forall_app_2; [| apply Forall_singleton].
Qed.

(** ** The bytes of a packet *)

Lemma total_length_eq pkt : total_length pkt = Z.of_nat (length (packet_bytes pkt)).
Proof.
  unfold total_length, packet_bytes. rewrite length_app.
  assert (∀ ms, foldr (λ m n, m_len m + n) 0 ms = Z.of_nat (length (concat ms))) as ->; [| lia].
  induction ms as [|m ms IH]; simpl; [done |]. rewrite IH, length_app. unfold m_len. lia.
Qed.

Lemma mcopy_spec ms : ∀ len, 0 <= len <= Z.of_nat (length (concat ms)) →
  Z.of_nat (length (concat ms)) < 2 ^ 32 →
  bpf_mcopy ms len = Ok (take (Z.to_nat len) (concat ms)).
Proof.
  induction ms as [|m ms IH]; intros len Hlen Hmax; simpl in *.
  - assert (len = 0) as -> by lia. done.
  - rewrite length_app in *. destruct (Z.gtb_spec len 0); [| by replace len with 0 by lia].
    unfold m_len. rewrite !wrap_small by (unfold in_u; lia).
    rewrite slice_eq by lia. cbn [mbind res_bind]. rewrite IH by lia. cbn [mbind res_bind]. f_equal.
    rewrite drop_0. destruct (Z.leb_spec (Z.of_nat (length m)) len).
    + rewrite Z.min_l, Nat2Z.id, firstn_all by lia. rewrite take_app_ge by lia. do 2 f_equal. lia.
    + rewrite Z.min_r by lia. rewrite Z.sub_diag. simpl. rewrite app_nil_r. by rewrite take_app_le by lia.
Qed.

Lemma copy_spec pkt len : bpfp_type pkt = BPF_PACKET_TYPE_MBUF →
  0 <= len <= total_length pkt → total_length pkt < 2 ^ 32 →
  copy_bpf_packet pkt len = Ok (take (Z.to_nat len) (packet_bytes pkt)).
Proof.
  rewrite total_length_eq. unfold packet_bytes. rewrite length_app. intros Ht Hlen Hmax.
  unfold copy_bpf_packet. destruct (Z.eqb_spec (Z.of_nat (length (bpfp_header pkt))) 0) as [E|E]; cbn [negb].
  - destruct (bpfp_header pkt); [| simpl in E; lia]. cbn [mbind res_bind].
    destruct (Z.eqb_spec len 0) as [->|]; [done |]. rewrite Ht. cbn. by rewrite mcopy_spec by (simpl in *; lia).
  - rewrite !wrap_small by (unfold in_u; lia). rewrite slice_eq by lia. cbn [mbind res_bind]. rewrite drop_0.
    destruct (Z.leb_spec len (Z.of_nat (length (bpfp_header pkt)))).
    + rewrite Z.min_l, Z.sub_diag by lia. simpl. by rewrite take_app_le by lia.
    + rewrite Z.min_r, Nat2Z.id, firstn_all by lia. rewrite (proj2 (Z.eqb_neq _ 0)), Ht by lia. cbn.
      rewrite mcopy_spec by lia. cbn [mbind res_bind]. f_equal. rewrite take_app_ge by lia. do 2 f_equal. lia.
Qed.

(** ** Devices *)

(** What [bpf_attach] and the control operations guarantee of the sizes. *)
Definition sizes_ok (d : bpf_d) : Prop :=
  BPF_MINBUFSIZE <= bd_bufsize d < 2 ^ 29 ∧
  ∀ bif, bd_bif d = Some bif →
    SIZEOF_BPF_HDR <= bif_hdrlen bif < 2 ^ 15 ∧ SIZEOF_BPF_HDR_EXT <= bif_exthdrlen bif < 2 ^ 15.

(** A device whose hold buffer contains the packets [held] ([None]: the hold
    slot is empty) and whose store buffer contains [stored].  No other buffer
    exists. *)
Definition inv (v : dev) (held : option (list rec)) (stored : list rec) : Prop :=
  let d := desc v in
  sizes_ok d ∧
  ∃ s o sbuf obuf, s ≠ o ∧ bufs v = <[s := sbuf]> {[o := obuf]} ∧
    bd_sbuf d = Some s ∧ Z.of_nat (length sbuf) = bd_bufsize d ∧ Z.of_nat (length obuf) = bd_bufsize d ∧
    packed sbuf stored (bd_slen d) ∧ bd_scnt d = u32 (Z.of_nat (length stored)) ∧
    match held with
    | None => bd_hbuf d = None ∧ bd_fbuf d = Some o ∧ bd_hbuf_read d = 0 ∧ bd_hlen d = 0 ∧ bd_hcnt d = 0
    | Some rs => bd_hbuf d = Some o ∧ bd_fbuf d = None ∧ packed obuf rs (bd_hlen d) ∧
        bd_hcnt d = u32 (Z.of_nat (length rs))
    end.

(** Changing other members keeps the invariant. *)
Lemma inv_ext v v' held stored : inv v held stored →
  bufs v' = bufs v → bd_sbuf (desc v') = bd_sbuf (desc v) → bd_hbuf (desc v') = bd_hbuf (desc v) →
  bd_fbuf (desc v') = bd_fbuf (desc v) → bd_slen (desc v') = bd_slen (desc v) →
  bd_hlen (desc v') = bd_hlen (desc v) → bd_scnt (desc v') = bd_scnt (desc v) →
  bd_hcnt (desc v') = bd_hcnt (desc v) → bd_bufsize (desc v') = bd_bufsize (desc v) →
  bd_bif (desc v') = bd_bif (desc v) →
  (bd_hbuf_read (desc v') = bd_hbuf_read (desc v) ∨ is_Some held) → inv v' held stored.
Proof.
  unfold inv, sizes_ok. intros ((Hb & Hi) & s & o & sbuf & obuf & H) -> -> -> -> -> -> -> -> -> -> Hr.
  split; [done |]. exists s, o, sbuf, obuf.
  destruct held as [rs|]; [done |]. destruct Hr as [->|[? ?]]; done.
Qed.

(** The record that [catchpacket] makes of a packet. *)
Definition hdrlen_of (d : bpf_d) : Z :=
  match bd_bif d with
  | Some bif => if tst (bd_flags d) BPF_EXTENDED_HDR then bif_exthdrlen bif else bif_hdrlen bif
  | None => 0
  end.
Definition record_of (d : bpf_d) (pkt : bpf_packet) (snaplen : Z) (outbound : bool) (tv : Z * Z)
    (m : pkthdr) : option rec :=
  let hdrlen := hdrlen_of d in
  let caplen := Z.min (Z.min snaplen (total_length pkt)) (bd_bufsize d - hdrlen) in
  if caplen <? 0 then None
  else Some (Rec (if tst (bd_flags d) BPF_EXTENDED_HDR
                  then bpf_hdr_ext tv caplen (total_length pkt) hdrlen outbound
                         (if bpfp_type pkt =? BPF_PACKET_TYPE_MBUF then Some m else None)
                  else bpf_hdr tv caplen (total_length pkt) hdrlen)
                 hdrlen (take (Z.to_nat caplen) (packet_bytes pkt))).
