(* ===== verification/BpfDevOps.v ===== *)
(** * Packet capture devices: the operations

    What each section of [BpfDev] does to the packets held and stored. *)

From S2P Require Import Prelude Bpf BpfSafety BpfDev BpfDevSpec.

Lemma lift_Ok {A} (a : A) v : lift (Ok a) v = Ok (a, v).
Proof. done. Qed.

(** Runs the next steps of a section. *)
Ltac red_st := cbn [getd upd mret st_ret wakeup desc bufs m_null wakeups].
Ltac run := repeat (first [rewrite lift_Ok | rewrite st_bind_unfold]; red_st).

(** Members that the packet path leaves alone. *)
Definition frame (d d' : bpf_d) : Prop :=
  bd_bufsize d' = bd_bufsize d ∧ bd_hbuf_read d' = bd_hbuf_read d ∧ bd_headdrop d' = bd_headdrop d ∧
  bd_bif d' = bd_bif d ∧ bd_filter d' = bd_filter d ∧ bd_seesent d' = bd_seesent d ∧
  bd_flags d' = bd_flags d ∧ bd_refcnt d' = bd_refcnt d ∧ bd_immediate d' = bd_immediate d ∧ bd_rcount d' = bd_rcount d.

Definition same_hold (d d' : bpf_d) : Prop := bd_hbuf d' = bd_hbuf d ∧ bd_hlen d' = bd_hlen d.

(** ** Rotation *)

Definition rotated (d : bpf_d) : bpf_d :=
  set_fbuf None (set_scnt 0 (set_slen 0 (set_sbuf (bd_fbuf d)
    (set_hcnt (bd_scnt d) (set_hlen (bd_slen d) (set_hbuf (bd_sbuf d) d)))))).

Lemma rotate_eq v : bd_hbuf_read (desc v) = 0 →
  ROTATE_BUFFERS v = Ok ((), Dev (bufs v) (m_null v) (rotated (desc v)) (wakeups v)).
Proof. intros H. unfold ROTATE_BUFFERS. run. rewrite H. done. Qed.

Lemma rotated_inv v v' stored :
  inv v None stored → bufs v' = bufs v → desc v' = rotated (desc v) → inv v' (Some stored) [].
Proof.
  intros (Hsz & s & o & sbuf & obuf & Hne & Hb & Hs & Hls & Hlo & Hp & Hc & Hh & Hf & Hr & Hhl & Hhc) Hb' Hd.
  unfold inv. rewrite Hd, Hb'. split; [done |]. exists o, s, obuf, sbuf. cbn. rewrite Hb, Hs, Hf.
  split_and!; try done.
  - by apply insert_insert_ne.
  - apply packed_nil.
Qed.

(** The hold buffer, given up for newer packets, becomes the store buffer. *)
Lemma headdrop_inv v v' held stored :
  inv v (Some held) stored → bufs v' = bufs v →
  desc v' = rotated (set_fbuf (bd_hbuf (desc v)) (set_dcount (u32 (bd_dcount (desc v) + bd_hcnt (desc v))) (desc v))) →
  inv v' (Some stored) [].
Proof.
  intros (Hsz & s & o & sbuf & obuf & Hne & Hb & Hs & Hls & Hlo & Hp & Hc & Hh & Hf & Hph & Hhc) Hb' Hd.
  unfold inv. rewrite Hd, Hb'. split; [done |]. exists o, s, obuf, sbuf. cbn. rewrite Hb, Hs, Hh.
  split_and!; try done.
  - by apply insert_insert_ne.
  - apply packed_nil.
Qed.

(** ** Making room *)

(** Whether a packet of [size] bytes fits behind those in the store buffer,
    and whether the buffers can be rotated if it does not. *)
Definition fits (d : bpf_d) (size : Z) : Prop := BPF_WORDALIGN (bd_slen d) + size <= bd_bufsize d.
Definition can_rotate (d : bpf_d) (held : option (list rec)) : Prop :=
  bd_hbuf_read d = 0 ∧ (held = None ∨ bd_headdrop d ≠ 0).

#[export] Instance fits_dec d size : Decision (fits d size).
Proof. unfold fits. apply _. Defined.
#[export] Instance can_rotate_dec d held : Decision (can_rotate d held).
Proof. unfold can_rotate. destruct held; solve_decision. Defined.

(** Whether storing a packet that fits wakes the readers. *)
Definition wakes (d : bpf_d) : bool := negb (bd_immediate d =? 0) || (bd_state d =? BPF_TIMED_OUT).

Lemma make_room_fits v held stored size : inv v held stored → fits (desc v) size →
  make_room size v = Ok (Some (BPF_WORDALIGN (bd_slen (desc v)), wakes (desc v)), v).
Proof.
  intros _ Hfit. unfold make_room. run. unfold fits in Hfit.
  by rewrite Z.gtb_ltb, (proj2 (Z.ltb_ge _ _)) by lia.
Qed.

Lemma make_room_rotates v held stored size :
  inv v held stored → ¬ fits (desc v) size → can_rotate (desc v) held →
  ∃ v', make_room size v = Ok (Some (0, true), v') ∧ inv v' (Some stored) [] ∧ frame (desc v) (desc v') ∧
    wakeups v' = wakeups v ∧ (held = None → bd_dcount (desc v') = bd_dcount (desc v)) ∧
    (∀ rs, held = Some rs → bd_dcount (desc v') = u32 (bd_dcount (desc v) + Z.of_nat (length rs))).
Proof.
  intros Hinv Hfit [Hread Hcan]. unfold make_room, fits in *. run.
  rewrite Z.gtb_ltb, (proj2 (Z.ltb_lt _ _)) by lia. rewrite Hread. cbn [negb Z.eqb].
  pose proof Hinv as (_ & s & o & sbuf & obuf & _ & _ & _ & _ & _ & _ & _ & Hheld).
  destruct held as [rs|].
  - destruct Hheld as (Hh & Hf & _ & Hc). destruct Hcan as [|Hdrop]; [done |].
    rewrite Hf, (proj2 (Z.eqb_neq _ _) Hdrop). run. rewrite rotate_eq by done. run.
    eexists. split; [done |]. split; [by eapply headdrop_inv |]. split; [by repeat split |].
    split; [done |]. split; [done |]. intros ? [= <-]. cbn. rewrite Hc. unfold wrap.
    by rewrite Zplus_mod_idemp_r.
  - destruct Hheld as (Hh & Hf & _). rewrite Hf. run. rewrite rotate_eq by done. run.
    eexists. split; [done |]. split; [by eapply rotated_inv |]. by split; [repeat split |].
Qed.

Lemma make_room_drops v held stored size :
  inv v held stored → ¬ fits (desc v) size → ¬ can_rotate (desc v) held →
  ∃ v', make_room size v = Ok (None, v') ∧ inv v' held stored ∧ frame (desc v) (desc v') ∧
    same_hold (desc v) (desc v') ∧ wakeups v' = wakeups v ∧ bd_dcount (desc v') = u32 (bd_dcount (desc v) + 1).
Proof.
  intros Hinv Hfit Hcan. unfold make_room, fits, can_rotate in *. run.
  rewrite Z.gtb_ltb, (proj2 (Z.ltb_lt _ _)) by lia.
  pose proof Hinv as (_ & s & o & sbuf & obuf & _ & _ & _ & _ & _ & _ & _ & Hheld).
  destruct (Z.eqb_spec (bd_hbuf_read (desc v)) 0) as [Hread|Hread]; cbn [negb].
  - destruct held as [rs|]; [| tauto]. destruct Hheld as (Hh & Hf & _). rewrite Hf.
    destruct (Z.eqb_spec (bd_headdrop (desc v)) 0) as [Hd|Hd]; [| tauto]. run.
    eexists. split; [done |]. split; [eapply inv_ext; [exact Hinv |..]; cbn; try done; by left |].
    by split; [repeat split |].
  - run. eexists. split; [done |]. split; [eapply inv_ext; [exact Hinv |..]; cbn; try done; by left |].
    by split; [repeat split |].
Qed.

(** ** Storing *)

Lemma length_bpf_hdr tv c n h : length (bpf_hdr tv c n h) = 18%nat.
Proof. done. Qed.

Lemma length_bpf_hdr_ext tv c n h o m : length (bpf_hdr_ext tv c n h o m) = 60%nat.
Proof. destruct m; [by destruct o | done]. Qed.

Lemma record_ok d pkt snaplen outbound tv m r bif :
  sizes_ok d → bd_bif d = Some bif → in_u 32 snaplen → total_length pkt < 2 ^ 30 →
  record_of d pkt snaplen outbound tv m = Some r →
  rec_ok r ∧ r_hdrlen r = hdrlen_of d ∧ r_size r <= bd_bufsize d ∧ 18 <= hdrlen_of d < 2 ^ 15 ∧
  r_caplen r = Z.min (Z.min snaplen (total_length pkt)) (bd_bufsize d - hdrlen_of d).
Proof.
  intros [Hb Hbif] Hd Hs Ht Hr. destruct (Hbif bif Hd) as [Hh He].
  assert (Hhl : 18 <= hdrlen_of d < 2 ^ 15).
  { unfold hdrlen_of, SIZEOF_BPF_HDR, SIZEOF_BPF_HDR_EXT in *. rewrite Hd. case_match; lia. }
  unfold record_of in Hr. set (caplen := Z.min (Z.min snaplen (total_length pkt)) (bd_bufsize d - hdrlen_of d)) in *.
  destruct (Z.ltb_spec caplen 0); [done |]. simplify_eq.
  assert (caplen <= total_length pkt ∧ caplen <= bd_bufsize d - hdrlen_of d) by lia.
  assert (Hcl : Z.of_nat (length (take (Z.to_nat caplen) (packet_bytes pkt))) = caplen)
    by (rewrite length_take; pose proof (total_length_eq pkt); lia).
  assert (Hsmall : caplen < 2 ^ 32) by lia.
  unfold r_size, r_caplen. cbn [r_hdrlen r_data]. rewrite Hcl. split; [| repeat split; lia].
  unfold rec_ok, r_caplen, in_u. cbn [r_hdr r_hdrlen r_data]. rewrite Hcl. split_and!; try lia.
  - case_match; [| exists tv, (total_length pkt), []; by rewrite app_nil_r].
    do 3 eexists. unfold bpf_hdr_ext. reflexivity.
  - unfold SIZEOF_BPF_HDR. case_match; rewrite ?length_bpf_hdr_ext; cbn; lia.
  - unfold hdrlen_of, SIZEOF_BPF_HDR, SIZEOF_BPF_HDR_EXT in *. rewrite Hd in *.
    case_match; rewrite ?length_bpf_hdr_ext; cbn; lia.
Qed.

Lemma put_packet_spec v held stored pkt snaplen outbound tv m r bif :
  inv v held stored → bd_bif (desc v) = Some bif → in_u 32 snaplen → total_length pkt < 2 ^ 30 →
  bpfp_type pkt = BPF_PACKET_TYPE_MBUF →
  record_of (desc v) pkt snaplen outbound tv m = Some r → fits (desc v) (r_size r) →
  let p := BPF_WORDALIGN (bd_slen (desc v)) in
  ∃ bufs', put_packet p (hdrlen_of (desc v)) (r_size r) tv outbound m pkt v =
      Ok ((), Dev bufs' (m_null v) (desc v) (wakeups v)) ∧
    ∀ v', bufs v' = bufs' → desc v' = set_scnt (u32 (bd_scnt (desc v) + 1)) (set_slen (p + r_size r) (desc v)) →
      inv v' held (stored ++ [r]).
Proof.
  intros Hinv Hbif Hsnap Htot Htype Hrec Hfit p. pose proof Hinv as (Hsz & s & o & sbuf & obuf & Hne & Hb & Hs & Hls & Hlo & Hp & Hc & Hheld).
  destruct (record_ok _ _ _ _ _ _ _ _ Hsz Hbif Hsnap Htot Hrec) as (Hok & Hhl & Hle & Hh & Hcap).
  destruct (packed_snoc sbuf stored (bd_slen (desc v)) r Hp Hok) as (b1 & b2 & H1 & H2 & Hl2 & Hp2);
    [unfold fits in Hfit; lia |].
  assert (Hcaplen : r_size r - hdrlen_of (desc v) = r_caplen r) by (unfold r_size; lia).
  unfold put_packet. run. unfold get_buf. rewrite Hs, Hb. cbn [option_bind mbind].
  rewrite lookup_insert_eq. run. rewrite Hcaplen.
  unfold record_of in Hrec. cbv zeta in Hrec. rewrite <- Hcap in Hrec.
  rewrite (proj2 (Z.ltb_ge _ _)) in Hrec by (unfold r_caplen; lia). injection Hrec as Hrec. fold p in H1, H2 |- *.
  rewrite <- Hrec in H1, H2. cbn [r_hdr r_data r_hdrlen] in H1, H2.
  rewrite H1. run.
  assert (0 <= r_caplen r <= total_length pkt) as Hrange.
  { split; [unfold r_caplen; lia |]. rewrite Hcap. lia. }
  rewrite copy_spec by (done || lia). run.
  rewrite H2. run. cbn [put_buf]. eexists. split; [done |].
  intros v' Hb' Hd'. unfold inv. rewrite Hd', Hb'. cbn. split; [done |].
  exists s, o, b2, obuf. split_and!; try done; [by rewrite Hb, insert_insert_eq | by rewrite Hl2 |].
  - rewrite length_app, Hc. cbn [length]. unfold wrap. rewrite Zplus_mod_idemp_l. f_equal. lia.
Qed.

Lemma wakeup_spec v held stored : inv v held stored →
  ∃ v', bpf_wakeup v = Ok ((), v') ∧ inv v' held stored ∧ frame (desc v) (desc v') ∧
    same_hold (desc v) (desc v') ∧ wakeups v' = wakeups v + 1 ∧ bd_dcount (desc v') = bd_dcount (desc v).
Proof.
  intros Hinv. unfold bpf_wakeup. run. destruct (bd_state (desc v) =? BPF_WAITING); red_st; (eexists; split; [done |]);
    (split; [eapply inv_ext; [exact Hinv |..]; cbn; try done; by left | by split; [repeat split |]]).
Qed.

Lemma frame_refl d : frame d d.
Proof. by repeat split. Qed.

Lemma frame_trans d1 d2 d3 : frame d1 d2 → frame d2 d3 → frame d1 d3.
Proof. unfold frame. intuition congruence. Qed.

Lemma frame_record d d' pkt snaplen outbound tv m :
  frame d d' → record_of d' pkt snaplen outbound tv m = record_of d pkt snaplen outbound tv m ∧ hdrlen_of d' = hdrlen_of d.
Proof.
  intros (Hb & _ & _ & Hi & _ & _ & Hf & _). unfold record_of, hdrlen_of. by rewrite Hb, Hi, Hf.
Qed.

(** ** Capturing *)

(** What becomes of the packets when [r] arrives. *)
Inductive caught (v v' : dev) (r : rec) :
    option (list rec) → list rec → option (list rec) → list rec → Prop :=
  | caught_fits held stored :
      fits (desc v) (r_size r) → bd_dcount (desc v') = bd_dcount (desc v) → wakeups v' = wakeups v + Z.b2z (wakes (desc v)) →
      same_hold (desc v) (desc v') →
      caught v v' r held stored held (stored ++ [r])
  | caught_rotates held stored :
      ¬ fits (desc v) (r_size r) → can_rotate (desc v) held →
      bd_dcount (desc v') = match held with
                     | None => bd_dcount (desc v)
                     | Some rs => u32 (bd_dcount (desc v) + Z.of_nat (length rs))
                     end →
      wakeups v' = wakeups v + 1 →
      caught v v' r held stored (Some stored) [r]
  | caught_drops held stored :
      ¬ fits (desc v) (r_size r) → ¬ can_rotate (desc v) held →
      bd_dcount (desc v') = u32 (bd_dcount (desc v) + 1) → wakeups v' = wakeups v →
      same_hold (desc v) (desc v') →
      caught v v' r held stored held stored.

(** The part of [catchpacket] after room has been made. *)
Definition store_packet (curlen hdrlen totlen : Z) (w : bool) (tv : Z * Z) (outbound : bool) (m : pkthdr)
    (pkt : bpf_packet) : st dev () :=
  put_packet curlen hdrlen totlen tv outbound m pkt ;;
  upd (set_slen (curlen + totlen)) ;;
  d ← getd;
  upd (set_scnt (u32 (bd_scnt d + 1))) ;;
  if w then bpf_wakeup else mret ().

Lemma store_packet_spec v held stored pkt snaplen outbound tv m r bif w :
  inv v held stored → bd_bif (desc v) = Some bif → in_u 32 snaplen → total_length pkt < 2 ^ 30 →
  bpfp_type pkt = BPF_PACKET_TYPE_MBUF →
  record_of (desc v) pkt snaplen outbound tv m = Some r → fits (desc v) (r_size r) →
  ∃ v', store_packet (BPF_WORDALIGN (bd_slen (desc v))) (hdrlen_of (desc v)) (r_size r) w tv outbound m pkt v =
      Ok ((), v') ∧ inv v' held (stored ++ [r]) ∧ frame (desc v) (desc v') ∧
    same_hold (desc v) (desc v') ∧ wakeups v' = wakeups v + Z.b2z w ∧ bd_dcount (desc v') = bd_dcount (desc v).
Proof.
  intros Hinv Hbif Hsnap Htot Htype Hrec Hfit.
  destruct (put_packet_spec _ _ _ _ _ _ _ _ _ _ Hinv Hbif Hsnap Htot Htype Hrec Hfit) as (bufs' & Hput & Hinv').
  unfold store_packet. rewrite st_bind_unfold, Hput. run.
  set (v1 := Dev bufs' _ _ _). specialize (Hinv' v1 eq_refl eq_refl). destruct w.
  - destruct (wakeup_spec v1 _ _ Hinv') as (v2 & -> & ? & Hf & Hh & Hw & Hd). exists v2.
    split_and!; [done | done | | by destruct Hh | by rewrite Hw | by rewrite Hd]. eapply frame_trans; [| exact Hf]. by repeat split.
  - exists v1. split_and!; [done | done | by repeat split | by split | cbn; lia | done].
Qed.

Lemma catchpacket_eq pkt snaplen outbound tv m v bif :
  sizes_ok (desc v) → bd_bif (desc v) = Some bif → in_u 32 snaplen → total_length pkt < 2 ^ 30 →
  catchpacket pkt snaplen outbound tv m v =
  match record_of (desc v) pkt snaplen outbound tv m with
  | None => Ok ((), v)
  | Some r =>
      (room ← make_room (r_size r);
       match room with
       | None => mret ()
       | Some (curlen, w) => store_packet curlen (hdrlen_of (desc v)) (r_size r) w tv outbound m pkt
       end) v
  end.
Proof.
  intros Hsz Hbif Hsnap Htot. unfold catchpacket. rewrite st_bind_unfold. cbn [getd]. rewrite Hbif.
  assert (hdrlen_of (desc v) = if tst (bd_flags (desc v)) BPF_EXTENDED_HDR then bif_exthdrlen bif else bif_hdrlen bif)
    as Hh by (unfold hdrlen_of; by rewrite Hbif).
  cbv zeta. rewrite <- Hh.
  assert (Hr : 18 <= hdrlen_of (desc v) < 2 ^ 15).
  { destruct Hsz as [_ Hi]. destruct (Hi bif Hbif). rewrite Hh. unfold SIZEOF_BPF_HDR, SIZEOF_BPF_HDR_EXT in *. case_match; lia. }
  assert (0 <= total_length pkt) by (rewrite total_length_eq; lia). unfold in_u in Hsnap.
  rewrite (wrap_small 32 (total_length pkt)) by (unfold in_u; lia). rewrite (swrap_small 32) by lia.
  set (tot := if _ >? bd_bufsize (desc v) then _ else _).
  assert (Htot' : tot = hdrlen_of (desc v) + Z.min (Z.min snaplen (total_length pkt)) (bd_bufsize (desc v) - hdrlen_of (desc v))).
  { unfold tot. rewrite Z.gtb_ltb. match goal with |- context [?a <? ?b] => destruct (Z.ltb_spec a b) end; lia. }
  rewrite Z.gtb_ltb. destruct (record_of (desc v) pkt snaplen outbound tv m) as [r|] eqn:Hrec.
  - destruct (record_ok _ _ _ _ _ _ _ _ Hsz Hbif Hsnap Htot Hrec) as (Hok & Hhl & _ & _ & Hcap).
    assert (tot = r_size r) as -> by (unfold r_size; lia).
    rewrite (proj2 (Z.ltb_ge _ _)) by (unfold r_size, r_caplen; lia). done.
  - rewrite (proj2 (Z.ltb_lt _ _)); [done |]. unfold record_of in Hrec. case_match eqn:E; [| done].
    apply Z.ltb_lt in E. lia.
Qed.

Lemma catchpacket_spec v held stored pkt snaplen outbound tv m bif :
  inv v held stored → bd_bif (desc v) = Some bif → in_u 32 snaplen → total_length pkt < 2 ^ 30 →
  bpfp_type pkt = BPF_PACKET_TYPE_MBUF →
  match record_of (desc v) pkt snaplen outbound tv m with
  | None => catchpacket pkt snaplen outbound tv m v = Ok ((), v)
  | Some r => ∃ v' held' stored', catchpacket pkt snaplen outbound tv m v = Ok ((), v') ∧
      inv v' held' stored' ∧ frame (desc v) (desc v') ∧ caught v v' r held stored held' stored'
  end.
Proof.
  intros Hinv Hbif Hsnap Htot Htype. pose proof Hinv as [Hsz _]. rewrite (catchpacket_eq _ _ _ _ _ _ bif) by done.
  destruct (record_of (desc v) pkt snaplen outbound tv m) as [r|] eqn:Hrec; [| done].
  rewrite st_bind_unfold. destruct (decide (fits (desc v) (r_size r))) as [Hfit|Hfit].
  - rewrite (make_room_fits v held stored (r_size r) Hinv Hfit).
    destruct (store_packet_spec v held stored pkt snaplen outbound tv m r bif (wakes (desc v))) as (v' & -> & Hi & Hf & Hh & Hw & Hd); [done..|].
    exists v', held, (stored ++ [r]). split_and!; try done. by constructor.
  - destruct (decide (can_rotate (desc v) held)) as [Hcan|Hcan].
    + destruct (make_room_rotates v held stored (r_size r) Hinv Hfit Hcan) as (v1 & -> & Hi1 & Hf1 & Hw1 & Hd1 & Hd2).
      destruct (frame_record _ _ pkt snaplen outbound tv m Hf1) as [Hr1 Hh1]. pose proof Hf1 as (Hb1 & _ & _ & Hbif1 & _).
      destruct (record_ok _ _ _ _ _ _ _ _ Hsz Hbif Hsnap Htot Hrec) as (_ & _ & Hle & _).
      assert (Hs1 : bd_slen (desc v1) = 0) by (by destruct Hi1 as (_ & ? & ? & ? & ? & _ & _ & _ & _ & _ & (-> & _) & _)).
      destruct (store_packet_spec v1 (Some stored) [] pkt snaplen outbound tv m r bif true)
        as (v2 & Hst & Hi2 & Hf2 & Hh2 & Hw2 & Hd3); rewrite ?Hr1, ?Hbif1; try done.
      { unfold fits. rewrite Hs1, Hb1, wordalign_0. lia. }
      rewrite Hs1, wordalign_0, Hh1 in Hst. rewrite Hst.
      exists v2, (Some stored), [r]. split_and!; [done | done | by eapply frame_trans |].
      apply caught_rotates; [done | done | rewrite Hd3; destruct held; auto | by rewrite Hw2, Hw1].
    + destruct (make_room_drops v held stored (r_size r) Hinv Hfit Hcan) as (v1 & -> & Hi1 & Hf1 & Hhd & Hw1 & Hd1).
      exists v1, held, stored. split_and!; try done. by apply caught_drops.
Qed.
