(* ===== verification/BpfDevRead.v ===== *)
(** * Packet capture devices: reading

    What the sections of [bpfread] do to the packets held and stored, and what
    the loop over the headers of the hold buffer makes of them. *)

From S2P Require Import Prelude Bpf BpfSafety BpfDev BpfDevSpec BpfDevOps.

(** ** The sections of a read *)

(** The device is open and attached, and the thread holds a reference that is
    not the last one. *)
Definition usable (d : bpf_d) : Prop :=
  closing d = false ∧ is_Some (bd_bif d) ∧ 2 <= bd_refcnt d.

(** Members that the sections of a read leave alone. *)
Definition rframe (v v' : dev) : Prop :=
  let d := desc v in let d' := desc v' in
  bd_bufsize d' = bd_bufsize d ∧ bd_headdrop d' = bd_headdrop d ∧ bd_bif d' = bd_bif d ∧
  bd_filter d' = bd_filter d ∧ bd_seesent d' = bd_seesent d ∧ bd_flags d' = bd_flags d ∧
  bd_immediate d' = bd_immediate d ∧ bd_rcount d' = bd_rcount d ∧ bd_dcount d' = bd_dcount d ∧
  bufs v' = bufs v ∧ wakeups v' = wakeups v.

(** Where a read gets from the packets [held] and [stored]: it returns without
    data; it sleeps, because another read is going on or because there is
    nothing to read; or it takes the hold buffer, for which the store buffer is
    rotated when the hold slot is empty. *)
Inductive reads (d d' : bpf_d) : rstate →
    option (list rec) → list rec → option (list rec) → list rec → Prop :=
  | reads_return error held stored :
      bd_refcnt d' = bd_refcnt d - 1 → bd_hbuf_read d' = bd_hbuf_read d → same_hold d d' →
      reads d d' (RReturn error) held stored held stored
  | reads_wait t held stored :
      bd_refcnt d' = bd_refcnt d → bd_hbuf_read d' = bd_hbuf_read d → bd_hbuf_read d ≠ 0 → same_hold d d' →
      reads d d' (RWait t) held stored held stored
  | reads_wait2 t error held stored :
      bd_refcnt d' = bd_refcnt d → bd_hbuf_read d' = bd_hbuf_read d → bd_hbuf_read d ≠ 0 → same_hold d d' →
      reads d d' (RWait2 t error) held stored held stored
  | reads_sleep t stored :
      bd_refcnt d' = bd_refcnt d → bd_hbuf_read d' = bd_hbuf_read d → bd_hbuf_read d = 0 →
      reads d d' (RSleep t) None stored None stored
  | reads_held rs stored :
      bd_refcnt d' = bd_refcnt d → bd_hbuf_read d' = 1 → bd_hbuf_read d = 0 →
      reads d d' (RCopy (bd_hbuf d') (bd_hlen d') (bd_flags d')) (Some rs) stored (Some rs) stored
  | reads_stored stored :
      stored ≠ [] → bd_refcnt d' = bd_refcnt d → bd_hbuf_read d' = 1 → bd_hbuf_read d = 0 →
      reads d d' (RCopy (bd_hbuf d') (bd_hlen d') (bd_flags d')) None stored (Some stored) [].

(** A section that, run on [v], is such a part of a read. *)
Definition rpost (v : dev) (held : option (list rec)) (stored : list rec) (x : res (rstate * dev)) : Prop :=
  ∃ r v' held' stored', x = Ok (r, v') ∧ inv v' held' stored' ∧ rframe v v' ∧
    reads (desc v) (desc v') r held stored held' stored'.

Lemma release_eq v : 2 <= bd_refcnt (desc v) →
  bpf_release_d v = Ok ((), Dev (bufs v) (m_null v) (set_refcnt (bd_refcnt (desc v) - 1) (desc v)) (wakeups v)).
Proof.
  intros Hr. unfold bpf_release_d. run. rewrite (proj2 (Z.leb_gt _ _)) by lia. run.
  by rewrite (proj2 (Z.eqb_neq _ 0)) by lia.
Qed.

Lemma acquire_eq v : 0 <= bd_refcnt (desc v) < 2 ^ 31 - 1 →
  bpf_acquire_d v = Ok ((), Dev (bufs v) (m_null v) (set_refcnt (bd_refcnt (desc v) + 1) (desc v)) (wakeups v)).
Proof. intros Hr. unfold bpf_acquire_d. run. by rewrite swrap_small by lia. Qed.

Lemma leave_spec v held stored error : inv v held stored → usable (desc v) →
  rpost v held stored (leave error v).
Proof.
  intros Hinv (_ & _ & Hr). unfold leave. rewrite st_bind_unfold, release_eq by done.
  do 4 eexists. split; [done |]. split_and!.
  - eapply inv_ext; [exact Hinv |..]; cbn; try done. by left.
  - by repeat split.
  - by constructor.
Qed.

Lemma slen_zero v held stored : inv v held stored → bd_slen (desc v) = 0 ↔ stored = [].
Proof.
  intros (_ & ? & ? & ? & ? & _ & _ & _ & _ & _ & (Hl & _ & _ & Hok) & _). rewrite Hl. split; [| by intros ->].
  destruct stored as [|r rs]; [done |]. simpl. apply Forall_cons in Hok as [Hr Hok].
  pose proof (r_size_pos r Hr). pose proof (ends_ge (BPF_WORDALIGN 0 + r_size r) rs Hok).
  rewrite wordalign_0 in *. lia.
Qed.

Lemma hbuf_held v held stored : inv v held stored → is_Some (bd_hbuf (desc v)) ↔ is_Some held.
Proof.
  intros (_ & ? & ? & ? & ? & _ & _ & _ & _ & _ & _ & _ & Hh). destruct held as [rs|].
  - destruct Hh as (-> & _). naive_solver.
  - destruct Hh as (-> & _). split; by intros [? ?].
Qed.

Lemma read_copy_held v rs stored : inv v (Some rs) stored → bd_hbuf_read (desc v) = 0 →
  rpost v (Some rs) stored (read_copy v).
Proof.
  intros Hinv Hz. unfold read_copy. run. do 4 eexists. split; [done |]. split_and!.
  - eapply inv_ext; [exact Hinv |..]; cbn; try done. right. by eexists.
  - by repeat split.
  - by apply reads_held.
Qed.

Lemma read_copy_stored v stored : inv v None stored → stored ≠ [] → bd_hbuf_read (desc v) = 0 →
  rpost v None stored ((ROTATE_BUFFERS ;; read_copy) v).
Proof.
  intros Hinv Hne Hz. rewrite st_bind_unfold, rotate_eq by done. unfold read_copy. run.
  set (v1 := Dev (bufs v) (m_null v) (rotated (desc v)) (wakeups v)).
  assert (Hinv1 : inv v1 (Some stored) []) by (by eapply rotated_inv).
  do 4 eexists. split; [done |]. split_and!.
  - eapply (inv_ext v1); [exact Hinv1 |..]; cbn; try done. right. by eexists.
  - by repeat split.
  - by apply reads_stored.
Qed.

(** Closes a branch of a section that ends the read or takes the buffer. *)
Ltac read_branch :=
  first [ by apply leave_spec | by apply read_copy_held | by apply read_copy_stored ].

Lemma read_loop_spec v held stored ioflag t :
  inv v held stored → usable (desc v) → bd_hbuf_read (desc v) = 0 → rpost v held stored (read_loop ioflag t v).
Proof.
  intros Hinv Hu Hz. pose proof (hbuf_held _ _ _ Hinv) as Hh. pose proof (slen_zero _ _ _ Hinv) as Hs.
  unfold read_loop. rewrite st_bind_unfold. cbn [getd].
  destruct held as [rs|].
  { destruct (proj2 Hh) as [p ->]; [by eexists |]. read_branch. }
  destruct (bd_hbuf (desc v)) as [p|] eqn:Ep; [destruct (proj1 Hh); [by eexists | done] |].
  case_match eqn:E1.
  { apply andb_true_iff in E1 as [_ E1%negb_true_iff%Z.eqb_neq]. assert (stored ≠ []) by tauto. read_branch. }
  rewrite bool_decide_eq_false_2 by (destruct Hu as (_ & [? ->] & _); done).
  case_match; [read_branch |].
  do 4 eexists. split; [done |]. split_and!; [done | by repeat split | by constructor].
Qed.

Lemma read_wait_spec v held stored ioflag t :
  inv v held stored → usable (desc v) → rpost v held stored (read_wait ioflag t v).
Proof.
  intros Hinv Hu. unfold read_wait. rewrite st_bind_unfold. cbn [getd].
  destruct (Z.eqb_spec (bd_hbuf_read (desc v)) 0) as [Hz|Hz]; cbn [negb].
  - rewrite (proj1 Hu). by apply read_loop_spec.
  - do 4 eexists. split; [done |]. split_and!; [done | by repeat split | by constructor].
Qed.

Lemma read_wait2_spec v held stored ioflag t error :
  inv v held stored → usable (desc v) → rpost v held stored (read_wait2 ioflag t error v).
Proof.
  intros Hinv Hu. pose proof (hbuf_held _ _ _ Hinv) as Hh. pose proof (slen_zero _ _ _ Hinv) as Hs.
  unfold read_wait2. rewrite st_bind_unfold. cbn [getd].
  destruct (Z.eqb_spec (bd_hbuf_read (desc v)) 0) as [Hz|Hz]; cbn [negb].
  2:{ do 4 eexists. split; [done |]. split_and!; [done | by repeat split | by constructor]. }
  rewrite (proj1 Hu). destruct held as [rs|].
  { destruct (proj2 Hh) as [p Hp]; [by eexists |]. rewrite Hp.
    case_match; [read_branch |]. case_match; [read_branch |]. by apply read_loop_spec. }
  destruct (bd_hbuf (desc v)) as [p|] eqn:Ep; [destruct (proj1 Hh); [by eexists | done] |].
  destruct (Z.eqb_spec (bd_slen (desc v)) 0) as [Hl|Hl]; cbn [negb].
  - do 2 (case_match; [read_branch |]). by apply read_loop_spec.
  - assert (stored ≠ []) by tauto. do 2 (case_match; [read_branch |]). by apply read_loop_spec.
Qed.

Lemma read_next_spec v held stored ioflag error r :
  inv v held stored → usable (desc v) →
  match r with RReturn _ | RCopy _ _ _ => True | _ => rpost v held stored (read_next ioflag error r v) end.
Proof.
  intros Hinv Hu. destruct r; [done | | | | done]; cbn [read_next].
  - by apply read_wait_spec.
  - unfold read_woken. rewrite st_bind_unfold. cbn [getd]. rewrite (proj1 Hu). by apply read_wait2_spec.
  - by apply read_wait2_spec.
Qed.

(** Entering [bpfread]: a section of a read by a thread that has taken a
    reference. *)
Lemma bpfread_spec v held stored ioflag resid :
  inv v held stored → closing (desc v) = false → is_Some (bd_bif (desc v)) → 1 <= bd_refcnt (desc v) < 2 ^ 31 - 1 →
  ∃ v1, rframe v v1 ∧ bd_hbuf_read (desc v1) = bd_hbuf_read (desc v) ∧ same_hold (desc v) (desc v1) ∧ inv v1 held stored ∧
    bd_refcnt (desc v1) = bd_refcnt (desc v) + 1 ∧ rpost v1 held stored (bpfread ioflag resid v).
Proof.
  intros Hinv Hc Hb Hr. unfold bpfread. rewrite st_bind_unfold. cbn [getd]. rewrite Hc.
  rewrite st_bind_unfold, acquire_eq by lia. red_st. case_match.
  - set (v1 := Dev _ _ _ _). exists v1.
    assert (inv v1 held stored) by (eapply inv_ext; [exact Hinv |..]; cbn; try done; by left).
    split; [by repeat split |]. split; [done |]. split; [done |]. split; [done |]. split; [done |]. apply leave_spec; [done |]. split_and!; [done | done | cbn; lia].
  - run. set (v1 := Dev _ _ _ _). exists v1.
    assert (inv v1 held stored) by (eapply inv_ext; [exact Hinv |..]; cbn; try done; by left).
    split; [by repeat split |]. split; [done |]. split; [done |]. split; [done |]. split; [done |]. apply read_wait_spec; [done |]. split_and!; [done | done | cbn; lia].
Qed.

(** The end of a read gives the hold buffer back. *)
Lemma read_done_spec v rs stored error :
  inv v (Some rs) stored → usable (desc v) →
  ∃ v', read_done error v = Ok (RReturn error, v') ∧ inv v' None stored ∧
    bd_hbuf_read (desc v') = 0 ∧ bd_refcnt (desc v') = bd_refcnt (desc v) - 1 ∧
    wakeups v' = wakeups v + 1 ∧ bd_dcount (desc v') = bd_dcount (desc v) ∧ bd_rcount (desc v') = bd_rcount (desc v) ∧
    bd_flags (desc v') = bd_flags (desc v) ∧ bd_filter (desc v') = bd_filter (desc v) ∧
    bd_bif (desc v') = bd_bif (desc v) ∧ bd_bufsize (desc v') = bd_bufsize (desc v).
Proof.
  intros Hinv (Hc & Hb & Hr). unfold read_done. rewrite st_bind_unfold. cbn [getd]. rewrite Hc. run.
  unfold leave. rewrite st_bind_unfold, release_eq by done. run. eexists. split; [done |]. split; [| done].
  destruct Hinv as (Hsz & s & o & sbuf & obuf & Hne & Hbufs & Hs & Hls & Hlo & Hp & Hcn & Hh & Hf & Hph & Hhc).
  split; [done |]. exists s, o, sbuf, obuf. cbn. by rewrite Hh.
Qed.

(** ** The loop over the headers *)

Lemma slice_lookup {A} (b : list A) off len x i : slice b off len = Ok x → 0 <= i < len →
  x !! Z.to_nat i = b !! Z.to_nat (off + i).
Proof.
  intros (Ho & Hl & Hb & ->)%slice_inv Hi. rewrite lookup_take_lt by lia. rewrite lookup_drop. f_equal. lia.
Qed.

Lemma slice_length {A} (b : list A) off len x : slice b off len = Ok x → Z.of_nat (length x) = len.
Proof. intros (Ho & Hl & Hb & ->)%slice_inv. rewrite length_take, length_drop. lia. Qed.

Lemma slice_slice {A} (b : list A) off len x o l y :
  slice b off len = Ok x → slice x o l = Ok y → slice b (off + o) l = Ok y.
Proof.
  intros Hx Hy. pose proof (slice_length _ _ _ _ Hx). apply slice_inv in Hx as (Ho & Hl & Hb & ->).
  apply slice_inv in Hy as (Ho' & Hl' & Hb' & ->). rewrite slice_eq by lia. f_equal.
  rewrite skipn_firstn_comm, drop_drop, take_take. f_equal; [lia | f_equal; lia].
Qed.

(** [b'] is [b] but for the positions in [P]. *)
Definition changed (b b' : list Z) (P : Z → Prop) : Prop :=
  length b' = length b ∧ ∀ i, 0 <= i → ¬ P i → b' !! Z.to_nat i = b !! Z.to_nat i.

Lemma changed_refl b P : changed b b P.
Proof. done. Qed.

Lemma changed_trans b1 b2 b3 P : changed b1 b2 P → changed b2 b3 P → changed b1 b3 P.
Proof. intros [L1 H1] [L2 H2]. split; [congruence |]. intros i Hi Hr. by rewrite H2, H1. Qed.

Lemma changed_weaken b b' (P Q : Z → Prop) : (∀ i, P i → Q i) → changed b b' P → changed b b' Q.
Proof. intros HPQ [L H]. split; [done |]. intros i Hi Hr. apply H; auto. Qed.

Lemma changed_slice b b' (P : Z → Prop) off len x : changed b b' P → slice b off len = Ok x →
  (∀ i, off <= i < off + len → ¬ P i) → slice b' off len = Ok x.
Proof.
  intros [L H] Hx Hd. pose proof Hx as (Ho & Hl & Hb & Ex)%slice_inv. rewrite slice_eq by (rewrite ?L; lia). f_equal.
  rewrite Ex. apply list_eq. intros i. destruct (decide (i < Z.to_nat len)%nat).
  - rewrite !lookup_take_lt, !lookup_drop by done.
    replace (Z.to_nat off + i)%nat with (Z.to_nat (off + Z.of_nat i)) by lia. apply H; [lia |]. apply Hd. lia.
  - by rewrite !lookup_take_ge by lia.
Qed.

Lemma changed_within b b' (P : Z → Prop) off len x : changed b b' P → slice b off len = Ok x →
  ∃ x', slice b' off len = Ok x' ∧ changed x x' (λ i, P (off + i)).
Proof.
  intros [L H] Hx. pose proof Hx as (Ho & Hl & Hb & _)%slice_inv.
  assert (Hx' : slice b' off len = Ok (take (Z.to_nat len) (drop (Z.to_nat off) b'))) by (apply slice_eq; rewrite ?L; lia).
  eexists. split; [exact Hx' |]. split; [pose proof (slice_length _ _ _ _ Hx); pose proof (slice_length _ _ _ _ Hx'); lia |].
  intros i Hi HP. destruct (decide (i < len)).
  - rewrite (slice_lookup _ _ _ _ _ Hx), (slice_lookup _ _ _ _ _ Hx') by lia. apply H; [lia | done].
  - pose proof (slice_length _ _ _ _ Hx). pose proof (slice_length _ _ _ _ Hx').
    by rewrite !lookup_ge_None_2 by lia.
Qed.

Lemma blit_changed b off data : 0 <= off → off + Z.of_nat (length data) <= Z.of_nat (length b) →
  ∃ b', blit b off data = Ok b' ∧ changed b b' (λ i, off <= i < off + Z.of_nat (length data)).
Proof.
  intros Ho Hl. unfold blit. rewrite !(proj2 (Z.leb_le _ _)) by lia. cbn [andb]. eexists. split; [done |].
  split; [rewrite !length_app, length_take, length_drop; lia |]. intros i Hi Hr.
  destruct (decide (i < off)).
  - rewrite lookup_app_l by (rewrite length_take; lia). by rewrite lookup_take_lt by lia.
  - rewrite lookup_app_r by (rewrite length_take; lia). rewrite length_take.
    rewrite lookup_app_r by lia. rewrite lookup_drop. f_equal. lia.
Qed.

Lemma slice_cons4 (b : list Z) off x : slice b off 4 = Ok x →
  ∃ b0 b1 b2 b3 rest, drop (Z.to_nat off) b = b0 :: b1 :: b2 :: b3 :: rest ∧ x = [b0; b1; b2; b3].
Proof.
  intros (Ho & _ & Hb & ->)%slice_inv. assert (Hl : (4 <= length (drop (Z.to_nat off) b))%nat) by (rewrite length_drop; lia).
  destruct (drop (Z.to_nat off) b) as [|b0 [|b1 [|b2 [|b3 rest]]]]; simpl in Hl; try lia. by do 5 eexists.
Qed.

Lemma load_cons4 b0 b1 b2 b3 rest : load_le32 (b0 :: b1 :: b2 :: b3 :: rest) =
  Ok (b0 + Z.shiftl b1 8 + Z.shiftl b2 16 + Z.shiftl b3 24).
Proof. done. Qed.

Lemma load_cons2 b0 b1 rest : load_le16 (b0 :: b1 :: rest) = Ok (b0 + Z.shiftl b1 8).
Proof. done. Qed.

Lemma load_any b off (x : list Z) : slice b off 4 = Ok x → ∃ c, load_le32 (drop (Z.to_nat off) b) = Ok c.
Proof. intros (b0 & b1 & b2 & b3 & rest & -> & _)%slice_cons4. by eexists. Qed.

Lemma load_le32_eq b off c : slice b off 4 = Ok (le32 c) → in_u 32 c → load_le32 (drop (Z.to_nat off) b) = Ok c.
Proof.
  intros (b0 & b1 & b2 & b3 & rest & -> & Hx)%slice_cons4 Hc. unfold le32 in Hx. simplify_eq.
  rewrite load_cons4. f_equal. unfold wrap, in_u in *. rewrite !Z.shiftl_mul_pow2, !Z.shiftr_div_pow2 by lia. zlia.
Qed.

Lemma load_le16_eq b off c : slice b off 2 = Ok (le16 c) → in_u 16 c → load_le16 (drop (Z.to_nat off) b) = Ok c.
Proof.
  intros (Ho & _ & Hb & Hx)%slice_inv Hc. unfold le16 in Hx.
  assert (Hl : (2 <= length (drop (Z.to_nat off) b))%nat) by (rewrite length_drop; lia).
  destruct (drop (Z.to_nat off) b) as [|b0 [|b1 rest]]; simpl in Hl; try lia. simpl in Hx. simplify_eq.
  rewrite load_cons2. f_equal. unfold wrap, in_u in *. rewrite !Z.shiftl_mul_pow2, !Z.shiftr_div_pow2 by lia. zlia.
Qed.

(** The members of the extended header that a read fills in: [bh_pid] and
    [bh_comm], and [bh_flowid], which it clears. *)
Definition proc_field (i : Z) : Prop := 20 <= i < 41 ∨ 48 <= i < 52.

Definition filled (r r' : rec) : Prop :=
  r_hdrlen r' = r_hdrlen r ∧ r_data r' = r_data r ∧ changed (r_hdr r) (r_hdr r') proc_field.

Definition ext_rec (r : rec) : Prop := SIZEOF_BPF_HDR_EXT <= Z.of_nat (length (r_hdr r)).

Lemma filled_refl r : filled r r.
Proof. done. Qed.

Lemma filled_trans r1 r2 r3 : filled r1 r2 → filled r2 r3 → filled r1 r3.
Proof.
  intros (? & ? & H1) (? & ? & H2). split_and!; [congruence | congruence |]. by eapply changed_trans.
Qed.

Lemma fill_proc_spec procinfo buf p n hdr : slice buf p n = Ok hdr → SIZEOF_BPF_HDR_EXT <= n →
  ∃ buf', fill_proc procinfo buf p = Ok buf' ∧ changed buf buf' (λ i, proc_field (i - p)).
Proof.
  unfold SIZEOF_BPF_HDR_EXT. intros Hs Hn. pose proof Hs as (Hp & _ & Hl & _)%slice_inv. unfold fill_proc.
  destruct (load_any buf (p + 48) (take 4 (drop (Z.to_nat (p + 48)) buf))) as [flowid ->]; [by apply slice_eq; lia |].
  cbn [mbind res_bind]. case_match; [| by exists buf].
  destruct (rd buf (p + 43)) as [proto|] eqn:Er.
  2:{ unfold rd in Er. rewrite (proj2 (Z.ltb_ge _ _)) in Er by lia. case_match eqn:El; [done |].
      apply lookup_ge_None in El. lia. }
  cbn [mbind res_bind].
  assert (Hfill : ∃ b1, (match (if (proto =? 6) || (proto =? 17) then procinfo proto flowid else None) with
            | Some (pid, comm) =>
                hbuf ← blit buf (p + 20) (le32 pid);
                blit hbuf (p + 24) (take 16 comm ++ [0])
            | None => Ok buf
            end) = Ok b1 ∧ changed buf b1 (λ i, proc_field (i - p))).
  { destruct (if (proto =? 6) || (proto =? 17) then procinfo proto flowid else None) as [[pid comm]|]; [| by exists buf].
    destruct (blit_changed buf (p + 20) (le32 pid)) as (b1 & -> & H1); [lia | cbn; lia |]. cbn [mbind res_bind].
    assert (Hc : (length (take 16 comm ++ [0%Z]) <= 17)%nat) by (rewrite length_app, length_take; cbn [length]; lia).
    destruct (blit_changed b1 (p + 24) (take 16 comm ++ [0])) as (b2 & -> & H2); [lia | destruct H1 as [-> _]; lia |].
    exists b2. split; [done |]. eapply changed_trans; (eapply changed_weaken; [| eassumption]).
    - intros i Hi. unfold proc_field. cbn in Hi. lia.
    - intros i Hi. unfold proc_field. cbv beta in Hi. lia. }
  destruct Hfill as (b1 & -> & H1). cbn [mbind res_bind].
  destruct (blit_changed b1 (p + 48) (le32 0)) as (b2 & -> & H2); [lia | destruct H1 as [-> _]; cbn; lia |].
  exists b2. split; [done |]. eapply changed_trans; [exact H1 |]. eapply changed_weaken; [| exact H2].
  intros i Hi. unfold proc_field. cbn in Hi. lia.
Qed.

Lemma filled_ok r r' : filled r r' → rec_ok r → rec_ok r'.
Proof.
  intros (Hh & Hd & [Hl Hc]) ((tv & datalen & ext & Hr) & Hs & Hb & Hcap). unfold rec_ok, r_caplen in *.
  rewrite Hh, Hd, Hl. split; [| done]. exists tv, datalen, (drop 18 (r_hdr r')).
  set (h := bpf_hdr _ _ _ _) in *. assert (Hh18 : length h = 18%nat) by done.
  rewrite <- (take_drop 18 (r_hdr r')) at 1. f_equal.
  replace h with (take 18 (r_hdr r)) by (rewrite Hr, <- Hh18; apply take_app_length).
  apply list_eq. intros i. destruct (decide (i < 18)%nat); [| by rewrite !lookup_take_ge by lia].
  rewrite !lookup_take_lt by done. rewrite <- (Nat2Z.id i). apply Hc; unfold proc_field; lia.
Qed.

Lemma laid_changed buf buf' (P : Z → Prop) p rs : Forall rec_ok rs → laid buf p rs → changed buf buf' P →
  (∀ i, P i → i < p) → laid buf' p rs.
Proof.
  revert p. induction rs as [|r rs IH]; intros p Hok Hl Hc HP; simpl in *; [done |].
  apply Forall_cons in Hok as [Hr Hok]. destruct Hl as (H1 & H2 & H3). pose proof (wordalign_bounds p).
  pose proof (r_size_pos r Hr). destruct Hr as (_ & Hh & _). unfold SIZEOF_BPF_HDR in Hh. split_and!.
  - eapply changed_slice; [exact Hc | done |]. intros i Hi Hp%HP. lia.
  - eapply changed_slice; [exact Hc | done |]. intros i Hi Hp%HP. lia.
  - apply IH; [done | done | done |]. intros i Hp%HP. lia.
Qed.

(** The header of a packet read back from the buffer. *)
Lemma load_hdr buf q r : rec_ok r → slice buf q (Z.of_nat (length (r_hdr r))) = Ok (r_hdr r) →
  load_le32 (drop (Z.to_nat (q + 8)) buf) = Ok (r_caplen r) ∧
  load_le16 (drop (Z.to_nat (q + 16)) buf) = Ok (r_hdrlen r).
Proof.
  intros ((tv & datalen & ext & Hr) & Hs & Hb & Hcap) Hsl. unfold SIZEOF_BPF_HDR in Hs. split.
  - apply load_le32_eq; [| done]. eapply slice_slice; [exact Hsl |]. rewrite slice_eq by lia. by rewrite Hr.
  - apply load_le16_eq; [| done]. eapply slice_slice; [exact Hsl |]. rewrite slice_eq by lia. by rewrite Hr.
Qed.

Lemma walk_fill procinfo rs : ∀ fuel buf p, (length rs <= fuel)%nat →
  Forall rec_ok rs → Forall ext_rec rs → laid buf p rs → ends p rs < 2 ^ 32 → 0 <= p →
  ∃ buf' rs', walk (fill_proc procinfo) fuel buf (ends p rs) (BPF_WORDALIGN p) = Ok buf' ∧
    Forall2 filled rs rs' ∧ laid buf' p rs' ∧ changed buf buf' (λ i, BPF_WORDALIGN p <= i).
Proof.
  induction rs as [|r rs IH]; intros fuel buf p Hf Hok Hext Hl He Hp.
  { exists buf, []. simpl. pose proof (wordalign_bounds p).
    destruct fuel; simpl; rewrite (proj2 (Z.ltb_ge _ _)) by lia; done. }
  apply Forall_cons in Hok as [Hr Hok]. apply Forall_cons in Hext as [Hx Hext].
  destruct fuel as [|fuel]; [simpl in Hf; lia |]. simpl in Hl, He |- *. destruct Hl as (H1 & H2 & H3).
  set (q := BPF_WORDALIGN p) in *. pose proof (r_size_pos r Hr) as Hsz. pose proof (wordalign_bounds p) as Hq. fold q in Hq.
  pose proof (ends_ge (q + r_size r) rs Hok) as Hge. rewrite (proj2 (Z.ltb_lt _ _)) by lia.
  destruct (fill_proc_spec procinfo buf q _ _ H1 Hx) as (b1 & -> & Hc1). cbn [mbind res_bind].
  assert (Hlaid1 : laid b1 (q + r_size r) rs).
  { eapply laid_changed; [done | exact H3 | exact Hc1 |]. intros i Hi.
    destruct Hr as (_ & Hh & _). unfold proc_field, ext_rec, SIZEOF_BPF_HDR_EXT, r_size, r_caplen in *. lia. }
  destruct (changed_within _ _ _ _ _ _ Hc1 H1) as (hdr1 & Hs1 & Hch).
  set (r1 := Rec hdr1 (r_hdrlen r) (r_data r)).
  assert (Hfill : filled r r1).
  { split_and!; [done | done |]. eapply changed_weaken; [| exact Hch]. intros i. cbv beta. by replace (q + i - q) with i by lia. }
  assert (Hd1 : slice b1 (q + r_hdrlen r) (r_caplen r) = Ok (r_data r)).
  { eapply changed_slice; [exact Hc1 | done |]. intros i Hi HP. destruct Hr as (_ & Hh & _).
    unfold proc_field, ext_rec, SIZEOF_BPF_HDR_EXT in *. lia. }
  assert (Hl1 : length hdr1 = length (r_hdr r)) by apply Hch.
  destruct (load_hdr b1 q r1) as [-> ->]; [by eapply filled_ok | cbn [r_hdr r1]; by rewrite Hl1 |]. cbn [mbind res_bind].
  change (r_hdrlen r1 + r_caplen r1) with (r_size r). rewrite wrap_small by (unfold in_u; lia).
  rewrite <- wordalign_add_aligned by (apply wordalign_idemp).
  destruct (IH fuel b1 (q + r_size r)) as (b2 & rs2 & Hw & Hf2 & Hl2 & Hc2); [simpl in Hf; lia | done | done | done | done | lia |].
  exists b2, (r1 :: rs2). rewrite Hw. pose proof (wordalign_bounds (q + r_size r)) as Hq2.
  destruct Hr as (_ & Hh & _). split; [done |]. split; [by constructor |]. split; [simpl; split_and! |].
  - rewrite Hl1. eapply changed_slice; [exact Hc2 | done |]. unfold r_size, r_caplen in *. intros i; cbv beta; lia.
  - change (slice b2 (q + r_hdrlen r) (r_caplen r) = Ok (r_data r)). eapply changed_slice; [exact Hc2 | exact Hd1 |]. unfold r_size, r_caplen in *. intros i; cbv beta; lia.
  - exact Hl2.
  - eapply changed_trans; (eapply changed_weaken; [| eassumption]); intros i Hi; cbv beta in *; unfold proc_field in *; lia.
Qed.

(** ** The data that a read delivers *)

Lemma length_recs p rs : Forall rec_ok rs → p + 18 * Z.of_nat (length rs) <= ends p rs.
Proof.
  revert p. induction rs as [|r rs IH]; intros p Hok; simpl; [lia |]. apply Forall_cons in Hok as [Hr Hok].
  pose proof (r_size_pos r Hr). pose proof (wordalign_bounds p). specialize (IH (BPF_WORDALIGN p + r_size r) Hok). lia.
Qed.

Lemma filled_ends p rs rs' : Forall2 filled rs rs' → ends p rs' = ends p rs.
Proof.
  intros H. revert p. induction H as [|r r' rs rs' (Hh & Hd & _) _ IH]; intros p; simpl; [done |].
  rewrite IH. unfold r_size, r_caplen. by rewrite Hh, Hd.
Qed.

Lemma filled_all_ok rs rs' : Forall2 filled rs rs' → Forall rec_ok rs → Forall rec_ok rs'.
Proof. intros H. induction H; intros Hok; inversion Hok; subst; constructor; eauto using filled_ok. Qed.

Lemma packed_slice buf rs len data : packed buf rs len → slice buf 0 len = Ok data → packed data rs len.
Proof.
  intros (Hl & Hle & Hlaid & Hok) Hs. pose proof (slice_length _ _ _ _ Hs) as Hlen.
  split_and!; [done | lia | | done]. apply (laid_mono buf data 0 rs len); [done | done | lia |].
  intros o l x Hx Hb. pose proof Hx as (Ho & Hl0 & Hbl & ->)%slice_inv.
  apply slice_inv in Hs as (_ & _ & _ & ->). rewrite slice_eq by lia. f_equal.
  change (Z.to_nat 0) with O. rewrite drop_0, skipn_firstn_comm, take_take. f_equal. lia.
Qed.

Lemma walk_ext f g : (∀ b p, f b p = g b p) → ∀ fuel b len p, walk f fuel b len p = walk g fuel b len p.
Proof.
  intros H fuel. induction fuel as [|fuel IH]; intros b len p; simpl; [done |]. case_match; [| done].
  rewrite H. destruct (g b p) as [b'|]; [| done]. cbn [mbind res_bind].
  destruct (load_le32 _); [| done]. cbn [mbind res_bind]. destruct (load_le16 _); [| done]. apply IH.
Qed.

(** The loops of [bpfread] over the packets of the hold buffer. *)
Lemma read_walk procinfo finalize buf rs len flags :
  packed buf rs len → Z.of_nat (length buf) < 2 ^ 32 → tst flags BPF_FINALIZE_PKTAP = false →
  (tst flags BPF_EXTENDED_HDR = true → Forall ext_rec rs) →
  ∃ buf' rs',
    (if tst flags BPF_EXTENDED_HDR then
       walk (λ buf p, buf ← fill_proc procinfo buf p;
                      if tst flags BPF_FINALIZE_PKTAP then finalize buf p else Ok buf) (length buf) buf len 0
     else if tst flags BPF_FINALIZE_PKTAP then walk finalize (length buf) buf len 0
     else Ok buf) = Ok buf' ∧
    Forall2 filled rs rs' ∧ packed buf' rs' len ∧ length buf' = length buf ∧
    (tst flags BPF_EXTENDED_HDR = false → rs' = rs).
Proof.
  intros Hp Hb Hfin Hext. rewrite Hfin. pose proof Hp as (Hlen & Hle & Hlaid & Hok).
  destruct (tst flags BPF_EXTENDED_HDR).
  2:{ exists buf, rs. split_and!; try done. by apply Forall_Forall2_diag, Forall_true. }
  rewrite (walk_ext _ (fill_proc procinfo)) by (intros b p; by destruct (fill_proc procinfo b p)).
  destruct (walk_fill procinfo rs (length buf) buf 0) as (b & rs' & Hw & H1 & H2 & H3 & _);
    [pose proof (length_recs 0 rs Hok); lia | done | auto | done | lia | done |].
  exists b, rs'. rewrite wordalign_0, <- Hlen in Hw. split_and!; try done.
  split_and!; [by rewrite (filled_ends _ _ _ H1) | by rewrite H3 | done | by eapply filled_all_ok].
Qed.

(** What is moved to user space is the hold buffer, whose packets have the
    process fields filled in when their headers are extended ones. *)
Lemma read_data_spec procinfo finalize v rs stored flags :
  inv v (Some rs) stored → tst flags BPF_FINALIZE_PKTAP = false →
  (tst flags BPF_EXTENDED_HDR = true → Forall ext_rec rs) →
  ∃ rs' v' data, read_data procinfo finalize (bd_hbuf (desc v)) (bd_hlen (desc v)) flags v = Ok (data, v') ∧
    Forall2 filled rs rs' ∧ inv v' (Some rs') stored ∧ desc v' = desc v ∧ wakeups v' = wakeups v ∧
    packed data rs' (Z.of_nat (length data)) ∧ (tst flags BPF_EXTENDED_HDR = false → rs' = rs).
Proof.
  intros Hinv Hfin Hext. destruct Hinv as (Hsz & s & o & sbuf & obuf & Hne & Hbufs & Hs & Hls & Hlo & Hp & Hcn & Hh & Hf & Hph & Hhc).
  destruct (read_walk procinfo finalize obuf rs (bd_hlen (desc v)) flags) as (b & rs' & Hw & Hfl & Hp' & Hl & Hsame);
    [done | destruct Hsz; lia | done | done |].
  unfold read_data. rewrite st_bind_unfold. unfold get_buf at 1. rewrite Hh, Hbufs. cbn [option_bind mbind].
  rewrite lookup_insert_ne, lookup_singleton_eq by done. cbv zeta. rewrite Hw. run. cbn [put_buf]. cbv beta iota.
  pose proof Hp' as (Hlen & Hle & _ & Hok'). pose proof (ends_ge 0 rs' Hok') as Hge.
  destruct (slice b 0 (bd_hlen (desc v))) as [data|] eqn:Hd; [| unfold slice in Hd; by rewrite !(proj2 (Z.leb_le _ _)) in Hd by lia].
  run. do 3 eexists. split; [done |]. split_and!; try done.
  - split; [done |]. exists s, o, sbuf, b. cbn. rewrite Hbufs, Hl. split_and!; try done.
    + by rewrite insert_insert_ne, insert_singleton_eq by done.
    + by rewrite Hhc, (Forall2_length _ _ _ Hfl).
  - rewrite (slice_length _ _ _ _ Hd). by eapply packed_slice.
Qed.
