(* ===== verification/BpfDevCtl.v ===== *)
(** * Packet capture devices: packets through the filter, and control

    The path of a packet through the filter of the device into its buffers,
    and the operations that control the device. *)

From S2P Require Import Prelude Bpf BpfSafety BpfDev BpfDevSpec BpfDevOps BpfDevRead.

(** ** Control operations *)

(** Members that an operation which is not about the packets leaves alone. *)
Definition quiet (v v' : dev) : Prop :=
  let d := desc v in let d' := desc v' in
  bd_hbuf_read d' = bd_hbuf_read d ∧ bd_bif d' = bd_bif d ∧ bd_bufsize d' = bd_bufsize d ∧
  bd_rcount d' = bd_rcount d ∧ bd_dcount d' = bd_dcount d ∧ same_hold d d' ∧ closing d' = closing d ∧
  tst (bd_flags d') BPF_FINALIZE_PKTAP = tst (bd_flags d) BPF_FINALIZE_PKTAP ∧ wakeups v <= wakeups v'.

(** Everything is thrown away and the counters start again. *)
Definition emptied (v v' : dev) : Prop :=
  let d := desc v in let d' := desc v' in
  inv v' None [] ∧ bd_rcount d' = 0 ∧ bd_dcount d' = 0 ∧ bd_hbuf_read d' = 0 ∧ bd_bif d' = bd_bif d ∧
  bd_bufsize d' = bd_bufsize d ∧ bd_flags d' = bd_flags d ∧ wakeups v' = wakeups v.

Lemma reset_spec v held stored : inv v held stored → bd_hbuf_read (desc v) = 0 →
  ∃ v', reset_d v = Ok ((), v') ∧ emptied v v' ∧ bd_filter (desc v') = bd_filter (desc v) ∧
    bd_refcnt (desc v') = bd_refcnt (desc v).
Proof.
  intros (Hsz & s & o & sbuf & obuf & Hne & Hb & Hs & Hls & Hlo & Hp & Hc & Hheld) Hz.
  unfold reset_d. rewrite st_bind_unfold. cbn [getd]. rewrite Hz. cbn [Z.eqb negb].
  destruct held as [rs|].
  - destruct Hheld as (Hh & Hf & _). rewrite Hh. run. eexists. split; [done |]. split; [| done].
    split_and!; try done. split; [done |]. exists s, o, sbuf, obuf. cbn. split_and!; try done. apply packed_nil.
  - destruct Hheld as (Hh & Hf & _). rewrite Hh. run. eexists. split; [done |]. split; [| done].
    split_and!; try done. split; [done |]. exists s, o, sbuf, obuf. cbn. split_and!; try done. apply packed_nil.
Qed.

(** Closes the goals about an operation that changes none of the members that
    the invariant speaks of. *)
Ltac quiet_done Hinv :=
  eexists; split; [done |]; unfold quiet, same_hold; split_and!;
  try (done || (cbn; lia) || tauto || (eapply inv_ext; [exact Hinv |..]; cbn; try done; by left)).

Lemma wakeup_idle v : bd_state (desc v) ≠ BPF_WAITING →
  bpf_wakeup v = Ok ((), Dev (bufs v) (m_null v) (desc v) (wakeups v + 1)).
Proof. intros H. unfold bpf_wakeup. run. by rewrite (proj2 (Z.eqb_neq _ _) H). Qed.

Lemma timed_out_spec v held stored : inv v held stored →
  ∃ v', bpf_timed_out v = Ok ((), v') ∧ inv v' held stored ∧ quiet v v' ∧
    bd_filter (desc v') = bd_filter (desc v) ∧ bd_flags (desc v') = bd_flags (desc v) ∧
    bd_refcnt (desc v') = bd_refcnt (desc v).
Proof.
  intros Hinv. unfold bpf_timed_out. run.
  destruct (bd_state (desc v) =? BPF_WAITING); [| destruct (bd_state (desc v) =? BPF_DRAINING)]; run.
  - destruct (negb (bd_slen (desc v) =? 0)); [rewrite wakeup_idle by done |]; quiet_done Hinv.
  - rewrite wakeup_idle by done. quiet_done Hinv.
  - quiet_done Hinv.
Qed.

(** ** Selecting *)

Lemma select_wait_spec v held stored :
  inv v held stored → closing (desc v) = false → 2 <= bd_refcnt (desc v) →
  if bd_hbuf_read (desc v) =? 0 then
    ∃ v', select_wait v = Ok (Some (Z.b2z (negb (bd_hlen (desc v) =? 0) || (wakes (desc v) && negb (bd_slen (desc v) =? 0)))), v') ∧
      inv v' held stored ∧ quiet v v' ∧
      bd_filter (desc v') = bd_filter (desc v) ∧ bd_flags (desc v') = bd_flags (desc v) ∧
      bd_refcnt (desc v') = bd_refcnt (desc v) - 1
  else select_wait v = Ok (None, v).
Proof.
  intros Hinv Hc Hr. unfold select_wait. run. destruct (bd_hbuf_read (desc v) =? 0); cbn [negb]; [| done].
  rewrite Hc. unfold wakes. destruct (negb (bd_hlen (desc v) =? 0) || _); run.
  - rewrite release_eq by done. quiet_done Hinv.
  - unfold bpf_start_timer. run. destruct (_ && _); red_st; run; rewrite release_eq by done; cbn [desc bd_refcnt set_state]; quiet_done Hinv.
Qed.

(** ** Filters *)

(** The program of the device is one that has been accepted. *)
Definition filter_ok (d : bpf_d) : Prop :=
  ∀ f, bd_filter d = Some f → prog_ok f ∧ ∃ maxbuf, bpf_validate maxbuf f (Z.of_nat (length f)) = Ok 1.

Definition setf_resets (bf_insns reset : bool) (error : Z) : bool := (error =? 0) && (negb bf_insns || reset).

Lemma setf_spec maxbuf bf_len bf_insns reset copyin v held stored :
  inv v held stored → closing (desc v) = false → bd_hbuf_read (desc v) = 0 → filter_ok (desc v) →
  (∀ f, copyin = Some f → prog_ok f ∧ Z.of_nat (length f) = bf_len) →
  ∃ error v', bpf_setf maxbuf bf_len bf_insns reset copyin v = Ok (Some error, v') ∧ filter_ok (desc v') ∧
    bd_refcnt (desc v') = bd_refcnt (desc v) ∧
    if setf_resets bf_insns reset error then emptied v v'
    else inv v' held stored ∧ quiet v v' ∧ bd_flags (desc v') = bd_flags (desc v).
Proof.
  intros Hinv Hc Hz Hf Hin. unfold bpf_setf. rewrite st_bind_unfold. cbn [getd]. rewrite Hz, Hc. cbn [Z.eqb negb].
  assert (Hsame : ∀ error, error ≠ 0 → ∃ error' v', Ok (Some error, v) = Ok (Some error', v') ∧ filter_ok (desc v') ∧
    bd_refcnt (desc v') = bd_refcnt (desc v) ∧
    if setf_resets bf_insns reset error' then emptied v v'
    else inv v' held stored ∧ quiet v v' ∧ bd_flags (desc v') = bd_flags (desc v)).
  { intros error He. exists error, v. unfold setf_resets. rewrite (proj2 (Z.eqb_neq _ _) He). cbn [andb].
    unfold quiet, same_hold. by split_and!. }
  assert (Hset : ∀ flt, let v1 := Dev (bufs v) (m_null v) (set_filter flt (desc v)) (wakeups v) in
    inv v1 held stored ∧ quiet v v1 ∧ bd_flags (desc v1) = bd_flags (desc v)).
  { intros flt v1. unfold quiet, same_hold. by split_and!. }
  assert (Hres : ∀ flt, filter_ok (set_filter flt (desc v)) →
    let v1 := Dev (bufs v) (m_null v) (set_filter flt (desc v)) (wakeups v) in
    ∃ v', reset_d v1 = Ok ((), v') ∧ filter_ok (desc v') ∧ bd_refcnt (desc v') = bd_refcnt (desc v) ∧ emptied v v').
  { intros flt Hflt v1. destruct (reset_spec v1 held stored) as (v' & Hr & He & Hff & Hrc); [apply Hset | done |].
    exists v'. split; [done |]. split; [| by split]. intros f. rewrite Hff. apply Hflt. }
  destruct bf_insns; cbn [negb].
  - destruct (bf_len >? BPF_MAXINSNS); [by apply Hsame |]. destruct (bf_len =? 0); [by apply Hsame |].
    destruct copyin as [f|]; [| by apply Hsame]. destruct (Hin f eq_refl) as [Hpf <-].
    destruct (validate_decides maxbuf f) as (r & Hval & [-> | ->]); rewrite Hval; run; [by apply Hsame |].
    assert (Hflt : filter_ok (set_filter (Some f) (desc v))) by (intros f' [= <-]; eauto).
    cbn [Z.eqb negb]. run. destruct reset; run; [| exists 0; eexists; split; [done |]; split; [done |]; split; [done |]; apply Hset].
    destruct (Hres _ Hflt) as (v' & Hr & Hf' & Hrc & He). rewrite Hr. run. by exists 0, v'.
  - case_match; [by apply Hsame |]. run.
    destruct (Hres None) as (v' & Hr & Hf' & Hrc & He); [done |]. rewrite Hr. run. by exists 0, v'.
Qed.

(** ** Commands *)

(** What is assumed of a command.  [BIOCSEXTHDR] on a device with plain packets
    in its buffers makes the reads take them for packets with extended headers;
    see [bpf_exthdr_overrun].  The kernel copies in as many instructions as it
    was told. *)
Definition cmd_ok (d : bpf_d) (cmd : ioctl) : Prop :=
  match cmd with
  | BIOCSEXTHDR arg =>
      arg = 0 ∨ tst (bd_flags d) BPF_EXTENDED_HDR = true ∨ (bd_slen d = 0 ∧ bd_hbuf d = None)
  | BIOCSETF bf_len _ _ copyin => ∀ f, copyin = Some f → prog_ok f ∧ Z.of_nat (length f) = bf_len
  | _ => True
  end.

(** The commands that wait for a read to finish, and whether a command that
    returned [error] has emptied the device. *)
Definition waits (cmd : ioctl) : bool := match cmd with BIOCFLUSH | BIOCSETF _ _ _ _ => true | _ => false end.
Definition resets (cmd : ioctl) (error : Z) : bool :=
  match cmd with
  | BIOCFLUSH => error =? 0
  | BIOCSETF _ bf_insns reset _ => setf_resets bf_insns reset error
  | _ => false
  end.

(** What a command that returned [error] did. *)
Definition commanded (v v' : dev) (held : option (list rec)) (stored : list rec) (cmd : ioctl) (error : Z) : Prop :=
  if resets cmd error then emptied v v' ∧ bd_hbuf_read (desc v) = 0
  else inv v' held stored ∧ quiet v v' ∧
    (tst (bd_flags (desc v')) BPF_EXTENDED_HDR = true →
     tst (bd_flags (desc v)) BPF_EXTENDED_HDR = true ∨ (held = None ∧ stored = [])).

Lemma simple_cmd_spec maxbuf cmd v held stored : waits cmd = false →
  inv v held stored → is_Some (bd_bif (desc v)) → cmd_ok (desc v) cmd →
  ∃ r v', ioctl_cmd maxbuf cmd v = Ok (Some r, v') ∧ bd_filter (desc v') = bd_filter (desc v) ∧
    bd_refcnt (desc v') = bd_refcnt (desc v) ∧ commanded v v' held stored cmd r.1.
Proof.
  intros Hw Hinv Hb Hok. unfold ioctl_cmd, commanded.
  destruct cmd as [| |size|len insns reset copyin| | |arg| |arg|arg|arg|]; try done; cbn [resets cmd_ok] in *;
    unfold fionread, biocgblen, biocsblen, biocgstats, biocimmediate, biocgseesent, biocsseesent,
      biocsexthdr, biocsheaddrop, biocgheaddrop; rewrite st_bind_unfold; cbn [getd].
  1-2, 4-7, 9-10: eexists; run; quiet_done Hinv.
  - rewrite bool_decide_eq_true_2 by done. eexists. run. quiet_done Hinv.
  - eexists. run. eexists. split; [done |]. split; [done |]. split; [done |].
    assert (Hfl : ∀ c, Z.land c BPF_EXTENDED_HDR = 0 → tst BPF_EXTENDED_HDR c = false →
      tst (if negb (arg =? 0) then Z.lor (bd_flags (desc v)) BPF_EXTENDED_HDR
           else Z.land (bd_flags (desc v)) (Z.lnot BPF_EXTENDED_HDR)) c = tst (bd_flags (desc v)) c).
    { intros c H1 H2. case_match; [by rewrite tst_lor, H2, orb_false_r | by apply tst_clear_other]. }
    split; [eapply inv_ext; [exact Hinv |..]; cbn; try done; by left |]. split.
    + unfold quiet, same_hold. split_and!; try done; [by apply (Hfl BPF_CLOSING) | by apply Hfl].
    + cbn. destruct (Z.eqb_spec arg 0) as [->|Ha]; cbn [negb]; [by rewrite tst_clear_same |]. intros _.
      destruct Hok as [|[?|[Hs Hh]]]; [done | by left |]. right.
      apply (slen_zero _ _ _ Hinv) in Hs as ->. pose proof (hbuf_held _ _ _ Hinv) as [_ Hx].
      destruct held; [| done]. destruct Hx as [? Hx]; [by eexists | congruence].
Qed.

(** A command gives its answer or, if it has to wait, changes nothing. *)
Lemma ioctl_cmd_spec maxbuf cmd v held stored :
  inv v held stored → closing (desc v) = false → is_Some (bd_bif (desc v)) → filter_ok (desc v) → cmd_ok (desc v) cmd →
  (∃ r v', ioctl_cmd maxbuf cmd v = Ok (Some r, v') ∧ filter_ok (desc v') ∧
    bd_refcnt (desc v') = bd_refcnt (desc v) ∧ commanded v v' held stored cmd r.1) ∨
  (ioctl_cmd maxbuf cmd v = Ok (None, v) ∧ waits cmd = true).
Proof.
  intros Hinv Hc Hb Hf Hok. destruct (waits cmd) eqn:Hw.
  2:{ left. destruct (simple_cmd_spec maxbuf cmd v held stored Hw Hinv Hb Hok) as (r & v' & H1 & H2 & H3 & H4).
      exists r, v'. unfold filter_ok in *. by rewrite H2. }
  destruct (Z.eqb_spec (bd_hbuf_read (desc v)) 0) as [Hz|Hz].
  - left. destruct cmd as [| | |len insns reset copyin| | | | | | | |]; try done; cbn [ioctl_cmd].
    + unfold biocsetf. destruct (setf_spec maxbuf len insns reset copyin v held stored) as (error & v' & Hs & Hf' & Hrc & Hpost); try done.
      rewrite st_bind_unfold, Hs. exists (error, []), v'. split; [done |]. split; [done |]. split; [done |].
      unfold commanded. cbn [resets fst]. destruct (setf_resets insns reset error); [done |].
      destruct Hpost as (? & ? & ->). split_and!; auto.
    + destruct (reset_spec v held stored Hinv Hz) as (v' & Hr & He & Hff & Hrc). unfold biocflush.
      rewrite st_bind_unfold. cbn [getd]. rewrite Hz, Hc. cbn [Z.eqb negb]. rewrite st_bind_unfold, Hr.
      exists (0, []), v'. unfold filter_ok in *. by rewrite Hff.
  - right. split; [| done]. destruct cmd as [| | |len insns reset copyin| | | | | | | |]; try done; cbn [ioctl_cmd].
    + unfold biocsetf, bpf_setf. run. by rewrite (proj2 (Z.eqb_neq _ _) Hz).
    + unfold biocflush. run. by rewrite (proj2 (Z.eqb_neq _ _) Hz).
Qed.

(** The same with the end of [bpfioctl], which gives the reference up. *)
Lemma ioctl_run_spec maxbuf cmd v held stored :
  inv v held stored → usable (desc v) → filter_ok (desc v) → cmd_ok (desc v) cmd →
  (∃ r v', ioctl_run maxbuf cmd v = Ok (Some r, v') ∧ filter_ok (desc v') ∧
    bd_refcnt (desc v') = bd_refcnt (desc v) - 1 ∧ commanded v v' held stored cmd r.1) ∨
  (ioctl_run maxbuf cmd v = Ok (None, v) ∧ waits cmd = true).
Proof.
  intros Hinv (Hc & Hb & Hr) Hf Hok. unfold ioctl_run. rewrite st_bind_unfold.
  destruct (ioctl_cmd_spec maxbuf cmd v held stored) as [(r & v1 & -> & Hf1 & Hrc & Hpost)|[-> Hw]]; [done.. | | by right].
  left. rewrite st_bind_unfold, release_eq by lia. do 2 eexists. split; [done |]. split; [done |]. split; [cbn; lia |].
  unfold commanded in *. destruct (resets cmd r.1); [done |]. destruct Hpost as (Hi & Hq & He). split_and!; [| done..].
  eapply inv_ext; [exact Hi |..]; cbn; try done. by left.
Qed.

(** ** Packets *)

(** A packet as [bpf_tap_mbuf] hands it on. *)
Definition tapped_ok (pkt : bpf_packet) : Prop :=
  bpfp_type pkt = BPF_PACKET_TYPE_MBUF ∧ total_length pkt < 2 ^ 30 ∧
  bpf_bufs_ok (bpfp_mbuf pkt) (bpfp_header pkt) ∧ Forall (λ b, b ≠ []) (bpfp_mbuf pkt).

(** Whether the device looks at a packet; and, if its filter accepts it, the
    record it would capture of it if there is room, or [None] if not even the
    header fits the buffer. *)
Definition sees (d : bpf_d) (outbound : bool) : bool := negb (outbound && (bd_seesent d =? 0)).
Definition offer (shl_over shr_over : Z → Z → Z) (d : bpf_d) (pkt : bpf_packet) (outbound : bool) (tv : Z * Z)
    (m : pkthdr) : list (option rec) :=
  if sees d outbound then
    match bpf_filter shl_over shr_over (length (default [] (bd_filter d))) (bd_filter d)
            (PPacket pkt) (u32 (total_length pkt)) 0 with
    | Some (Ok slen) => if slen =? 0 then [] else [record_of d pkt slen outbound tv m]
    | _ => []
    end
  else [].

Definition count_packet (v : dev) : dev :=
  Dev (bufs v) (m_null v) (set_rcount (u32 (bd_rcount (desc v) + 1)) (desc v)) (wakeups v).

Lemma count_packet_inv v held stored : inv v held stored → inv (count_packet v) held stored.
Proof. intros Hinv. eapply inv_ext; [exact Hinv |..]; cbn; try done. by left. Qed.

Lemma tap_filter shl shr d pkt : filter_ok d → tapped_ok pkt →
  ∃ slen, bpf_filter shl shr (length (default [] (bd_filter d))) (bd_filter d)
            (PPacket pkt) (u32 (total_length pkt)) 0 = Some (Ok slen) ∧ in_u 32 slen.
Proof.
  intros Hf (Ht & Hl & Hb & Hne). destruct (bd_filter d) as [f|] eqn:Ef; [| by exists (u32 (-1))].
  destruct (Hf f Ef) as (Hp & maxbuf & Hval). eapply validated_filter; [done | done | | apply wrap_in_u; lia].
  split; [unfold in_u; lia |]. split; [done |]. intros _. by split.
Qed.

Lemma tap_spec shl shr pkt outbound tv m v held stored :
  inv v held stored → is_Some (bd_bif (desc v)) → filter_ok (desc v) → tapped_ok pkt →
  let v1 := if sees (desc v) outbound then count_packet v else v in
  ∃ v' held' stored', tap shl shr pkt outbound tv m v = Ok ((), v') ∧ inv v' held' stored' ∧
    frame (desc v1) (desc v') ∧
    match offer shl shr (desc v) pkt outbound tv m with
    | Some r :: _ => caught v1 v' r held stored held' stored'
    | _ => v' = v1 ∧ held' = held ∧ stored' = stored
    end.
Proof.
  intros Hinv [bif Hbif] Hf Hp v1. unfold tap, offer, sees in *. rewrite st_bind_unfold. cbn [getd].
  destruct (outbound && _); cbn [negb] in *.
  { exists v, held, stored. split_and!; try done. }
  assert (Hinv1 : inv v1 held stored) by by apply count_packet_inv.
  destruct (tap_filter shl shr (desc v) pkt Hf Hp) as (slen & Hs & Hr). rewrite Hs. run.
  change (Dev _ _ _ _) with v1. destruct (slen =? 0); cbn [negb].
  { exists v1, held, stored. split_and!; try done. }
  destruct Hp as (Ht & Hl & _).
  pose proof (catchpacket_spec v1 held stored pkt slen outbound tv m bif Hinv1 Hbif Hr Hl Ht) as Hc.
  change (record_of (desc v1) pkt slen outbound tv m) with (record_of (desc v) pkt slen outbound tv m) in Hc.
  destruct (record_of (desc v) pkt slen outbound tv m) as [r|].
  - destruct Hc as (v' & held' & stored' & Hc & Hi & Hfr & Hca). by exists v', held', stored'.
  - exists v1, held, stored. split_and!; try done.
Qed.

(** ** Entering *)

(** A thread that enters [bpfioctl] or [bpfselect] takes a reference and goes
    on like one that has been waiting. *)
Definition entered (v v1 : dev) (held : option (list rec)) (stored : list rec) : Prop :=
  inv v1 held stored ∧ quiet v v1 ∧ bd_filter (desc v1) = bd_filter (desc v) ∧
  bd_flags (desc v1) = bd_flags (desc v) ∧ bd_slen (desc v1) = bd_slen (desc v) ∧ bd_refcnt (desc v1) = bd_refcnt (desc v) + 1.

Lemma bpfioctl_enter maxbuf cmd v held stored :
  inv v held stored → closing (desc v) = false → 1 <= bd_refcnt (desc v) < 2 ^ 31 - 1 →
  ∃ v1, entered v v1 held stored ∧ bpfioctl maxbuf cmd v = ioctl_run maxbuf cmd v1.
Proof.
  intros Hinv Hc Hr. unfold bpfioctl. rewrite st_bind_unfold. cbn [getd]. rewrite Hc.
  rewrite st_bind_unfold, acquire_eq by lia. run. eexists. split; [| done].
  split; [eapply inv_ext; [exact Hinv |..]; cbn; try done; by left |]. unfold quiet, same_hold. by split_and!.
Qed.

Lemma bpfselect_enter v held stored :
  inv v held stored → closing (desc v) = false → is_Some (bd_bif (desc v)) → 1 <= bd_refcnt (desc v) < 2 ^ 31 - 1 →
  ∃ v1, entered v v1 held stored ∧ bpfselect v = select_wait v1.
Proof.
  intros Hinv Hc Hb Hr. unfold bpfselect. rewrite st_bind_unfold. cbn [getd]. rewrite Hc.
  rewrite st_bind_unfold, acquire_eq by lia. rewrite bool_decide_eq_false_2 by (destruct Hb as [? ->]; done).
  eexists. split; [| done].
  split; [eapply inv_ext; [exact Hinv |..]; cbn; try done; by left |]. unfold quiet, same_hold. by split_and!.
Qed.
