(* ===== verification/BpfDevRun.v ===== *)
(** * Packet capture devices: whole runs

    An attached device with the threads that read from it, as a state machine
    whose steps are the sections of [bpf.c] between two points where the lock
    is taken.  Packets arrive, threads enter [bpfread], sleep, wake up for any
    reason, copy the hold buffer without the lock and finish; the read timer
    fires; other threads select on the device and control it. *)

From S2P Require Import Prelude Bpf BpfSafety BpfDev BpfDevSpec BpfDevOps BpfDevRead BpfDevCtl.

(** A thread in [bpfread]: what it has moved to user space, if it has got so
    far, and how many wakeups there had been when it went to sleep. *)
Record thread := Thread {
  t_ioflag : Z;
  t_state : rstate;
  t_copied : option (list Z);
  t_seen : Z
}.

(** A thread that sleeps in [bpfioctl] or [bpfselect] until a read is over. *)
Inductive pending :=
  | PIoctl (cmd : ioctl)
  | PSelect.

(** The device, its readers and the threads that wait for a read to finish;
    and, since the last reset, the packets that the filter accepted ([None]:
    one whose header does not fit the buffer), the number of packets it was run
    on, and the reads that got as far as moving data to user space, each with
    the error of the move and the data. *)
Record sys := Sys {
  s_dev : dev;
  s_threads : list thread;
  s_waiting : list pending;
  s_offered : list (option rec);
  s_taps : Z;
  s_read : list (Z * list Z)
}.

Inductive event :=
  | ETap (pkt : bpf_packet) (outbound : bool) (tv : Z * Z) (m : pkthdr)
  | ERead (ioflag resid : Z)
  | EResume (i : nat) (error : Z)
  | ECopy (i : nat)
  | EDone (i : nat) (error : Z)
  | ETimeout
  | ESelect
  | EIoctl (cmd : ioctl)
  | EGo (i : nat).

Section system.

Context (shl_over shr_over : Z → Z → Z).
Context (procinfo : Z → Z → option (Z * list Z)) (finalize : list Z → Z → res (list Z)).
Context (bpf_maxbufsize : Z).

Definition with_dev (s : sys) (v : dev) (w : list pending) : sys :=
  Sys v (s_threads s) w (s_offered s) (s_taps s) (s_read s).
Definition with_threads (s : sys) (v : dev) (ts : list thread) : sys :=
  Sys v ts (s_waiting s) (s_offered s) (s_taps s) (s_read s).
Definition fresh_log (s : sys) (v : dev) (w : list pending) : sys := Sys v (s_threads s) w [] 0 [].

(** After a section of [bpfioctl] or [bpfselect] with the result [r]; [w] are
    the other threads that wait. *)
Definition controlled (s : sys) (w : list pending) (cmd : ioctl) (r : option (Z * list Z)) (v : dev) : sys :=
  match r with
  | None => with_dev s v (w ++ [PIoctl cmd])
  | Some (error, _) => if resets cmd error then fresh_log s v w else with_dev s v w
  end.
Definition selected (s : sys) (w : list pending) (r : option Z) (v : dev) : sys :=
  with_dev s v (match r with None => w ++ [PSelect] | Some _ => w end).

(** A step that does not apply to the state, such as the end of a copy by a
    thread that does not copy, changes nothing. *)
Definition step (e : event) (s : sys) : res sys :=
  let v := s_dev s in
  match e with
  | ETap pkt outbound tv m =>
      '(_, v') ← tap shl_over shr_over pkt outbound tv m v;
      Ok (Sys v' (s_threads s) (s_waiting s) (s_offered s ++ offer shl_over shr_over (desc v) pkt outbound tv m)
              (s_taps s + Z.b2z (sees (desc v) outbound)) (s_read s))
  | ERead ioflag resid =>
      '(r, v') ← bpfread ioflag resid v;
      Ok (with_threads s v' (s_threads s ++ [Thread ioflag r None (wakeups v')]))
  | EResume i error =>
      match s_threads s !! i with
      | Some (Thread ioflag ((RWait _ | RSleep _ | RWait2 _ _) as r) _ _) =>
          '(r', v') ← read_next ioflag error r v;
          Ok (with_threads s v' (<[i := Thread ioflag r' None (wakeups v')]> (s_threads s)))
      | _ => Ok s
      end
  | ECopy i =>
      match s_threads s !! i with
      | Some (Thread ioflag (RCopy hbuf len flags) None w) =>
          '(data, v') ← read_data procinfo finalize hbuf len flags v;
          Ok (with_threads s v' (<[i := Thread ioflag (RCopy hbuf len flags) (Some data) w]> (s_threads s)))
      | _ => Ok s
      end
  | EDone i error =>
      match s_threads s !! i with
      | Some (Thread ioflag (RCopy _ _ _) (Some data) w) =>
          '(r, v') ← read_done error v;
          Ok (Sys v' (<[i := Thread ioflag r (Some data) w]> (s_threads s)) (s_waiting s) (s_offered s) (s_taps s)
                  (s_read s ++ [(error, data)]))
      | _ => Ok s
      end
  | ETimeout => '(_, v') ← bpf_timed_out v; Ok (with_dev s v' (s_waiting s))
  | ESelect => '(r, v') ← bpfselect v; Ok (selected s (s_waiting s) r v')
  | EIoctl cmd => '(r, v') ← bpfioctl bpf_maxbufsize cmd v; Ok (controlled s (s_waiting s) cmd r v')
  | EGo i =>
      match s_waiting s !! i with
      | Some (PIoctl cmd) =>
          '(r, v') ← ioctl_run bpf_maxbufsize cmd v; Ok (controlled s (delete i (s_waiting s)) cmd r v')
      | Some PSelect => '(r, v') ← select_wait v; Ok (selected s (delete i (s_waiting s)) r v')
      | None => Ok s
      end
  end.

Fixpoint steps (es : list event) (s : sys) : res sys :=
  match es with
  | [] => Ok s
  | e :: es => s' ← step e s; steps es s'
  end.

(** ** Threads *)

Definition inside (t : thread) : Z := match t_state t with RReturn _ => 0 | _ => 1 end.
Definition copying (t : thread) : Z := match t_state t with RCopy _ _ _ => 1 | _ => 0 end.
Definition tally (f : thread → Z) (ts : list thread) : Z := foldr (λ t n, f t + n) 0 ts.

(** A thread that sleeps for the hold buffer has been woken if there is one to
    take; one that sleeps until a read is over has been woken if none is going
    on; and one that copies owns the hold buffer. *)
Definition thread_ok (v : dev) (held : option (list rec)) (t : thread) : Prop :=
  let d := desc v in
  t_seen t <= wakeups v ∧
  match t_state t with
  | RReturn _ => True
  | RWait _ | RWait2 _ _ => bd_hbuf_read d = 0 → t_seen t < wakeups v
  | RSleep _ => bd_hbuf_read d = 0 → is_Some held → t_seen t < wakeups v
  | RCopy hbuf len flags =>
      bd_hbuf_read d ≠ 0 ∧ hbuf = bd_hbuf d ∧ len = bd_hlen d ∧ tst flags BPF_FINALIZE_PKTAP = false ∧
      ∃ rs, held = Some rs ∧ (tst flags BPF_EXTENDED_HDR = true → Forall ext_rec rs) ∧
        ∀ data, t_copied t = Some data → packed data rs (Z.of_nat (length data))
  end.

(** The threads that have a reference to the device. *)
Definition users (s : sys) : Z := tally inside (s_threads s) + Z.of_nat (length (s_waiting s)).

(** What is assumed of an event: packets are well-formed mbuf chains without
    empty mbufs; the kernel copies in as many instructions as it was told, and
    extended headers are not switched on while plain packets are in the
    buffers; and there are not so many threads that the 32-bit counter of
    references overflows. *)
Definition event_ok (s : sys) (e : event) : Prop :=
  match e with
  | ETap pkt _ _ _ => tapped_ok pkt
  | EIoctl cmd => cmd_ok (desc (s_dev s)) cmd ∧ users s < 2 ^ 31 - 3
  | ERead _ _ | ESelect => users s < 2 ^ 31 - 3
  | _ => True
  end.

(** A run all of whose events are such. *)
Fixpoint events_ok (es : list event) (s : sys) : Prop :=
  match es with
  | [] => True
  | e :: es => event_ok s e ∧ match step e s with Ok s' => events_ok es s' | Fault => True end
  end.

(** A thread that waits has a command that may have to, and that is as assumed. *)
Definition pending_ok (p : pending) : Prop :=
  match p with PIoctl cmd => waits cmd = true ∧ ∀ d, cmd_ok d cmd | PSelect => True end.

(** ** Accounting *)

(** The header of a packet fits the buffer, whether it is extended or not. *)
Definition headers_fit (d : bpf_d) : Prop :=
  ∀ bif, bd_bif d = Some bif → bif_hdrlen bif <= bd_bufsize d ∧ bif_exthdrlen bif <= bd_bufsize d.

(** [l] are packets among [off], in their order, with the process fields of
    the headers filled in or not. *)
Definition kept (l off : list rec) : Prop := ∃ l0, l0 `sublist_of` off ∧ Forall2 filled l0 l.

Definition present (dl : list (list rec)) (held : option (list rec)) (stored : list rec) : list rec :=
  concat dl ++ default [] held ++ stored.

Record sys_ok (s : sys) (held : option (list rec)) (stored : list rec) (dl : list (list rec)) : Prop := {
  so_inv : inv (s_dev s) held stored;
  so_open : closing (desc (s_dev s)) = false;
  so_bif : is_Some (bd_bif (desc (s_dev s)));
  so_filter : filter_ok (desc (s_dev s));
  so_pktap : tst (bd_flags (desc (s_dev s))) BPF_FINALIZE_PKTAP = false;
  so_ext : tst (bd_flags (desc (s_dev s))) BPF_EXTENDED_HDR = true → Forall ext_rec (default [] held ++ stored);
  so_refs : bd_refcnt (desc (s_dev s)) = 2 + users s;
  so_waiting : Forall pending_ok (s_waiting s);
  so_copying : tally copying (s_threads s) = (if bd_hbuf_read (desc (s_dev s)) =? 0 then 0 else 1);
  so_threads : Forall (thread_ok (s_dev s) held) (s_threads s);
  so_read : Forall2 (λ m rs, packed m.2 rs (Z.of_nat (length m.2))) (s_read s) dl;
  so_kept : kept (present dl held stored) (omap id (s_offered s));
  so_drops : bd_dcount (desc (s_dev s)) =
    u32 (Z.of_nat (length (omap id (s_offered s))) - Z.of_nat (length (present dl held stored)));
  so_fit : headers_fit (desc (s_dev s)) → Forall is_Some (s_offered s);
  so_taps : bd_rcount (desc (s_dev s)) = u32 (s_taps s)
}.

End system.

(** ** Lemmas on threads *)

Lemma tally_snoc f ts t : tally f (ts ++ [t]) = tally f ts + f t.
Proof. unfold tally. induction ts; simpl; lia. Qed.

Lemma tally_insert f ts i t t' : ts !! i = Some t → tally f (<[i := t']> ts) = tally f ts - f t + f t'.
Proof.
  revert i. induction ts as [|u ts IH]; intros [|i] H; simplify_eq/=; [lia |]. rewrite (IH _ H). lia.
Qed.

Lemma inside_range t : 0 <= inside t <= 1.
Proof. unfold inside. destruct (t_state t); lia. Qed.

Lemma copying_range t : 0 <= copying t <= inside t.
Proof. unfold copying, inside. destruct (t_state t); lia. Qed.

Lemma tally_nonneg ts : 0 <= tally inside ts ∧ 0 <= tally copying ts.
Proof.
  unfold tally. induction ts as [|t ts IH]; simpl; [done |]. pose proof (inside_range t). pose proof (copying_range t). lia.
Qed.

Lemma tally_lookup ts i t : ts !! i = Some t → inside t <= tally inside ts ∧ copying t <= tally copying ts.
Proof.
  revert i. induction ts as [|u ts IH]; intros [|i] H; simplify_eq/=; pose proof (tally_nonneg ts).
  - unfold tally in *. lia.
  - pose proof (inside_range u). pose proof (copying_range u). specialize (IH _ H). unfold tally in *. lia.
Qed.

Lemma users_nonneg s : 0 <= users s.
Proof. unfold users. pose proof (tally_nonneg (s_threads s)). lia. Qed.

Lemma none_copying ts i t : tally copying ts = 0 → ts !! i = Some t → copying t = 0.
Proof. intros H Ht. pose proof (tally_lookup _ _ _ Ht). pose proof (copying_range t). lia. Qed.

(** The other threads than the one that copies. *)
Lemma others_not_copying ts i t : ts !! i = Some t → copying t = 1 → tally copying ts = 1 →
  ∀ j u, j ≠ i → ts !! j = Some u → copying u = 0.
Proof.
  intros Hi Hc Ht j u Hj Hu. pose proof (tally_insert copying ts i t (Thread 0 (RReturn 0) None 0) Hi) as Hx.
  assert (Hz : tally copying (<[i := Thread 0 (RReturn 0) None 0]> ts) = 0) by (rewrite Hx; cbn; lia).
  eapply none_copying; [exact Hz |]. by rewrite list_lookup_insert_ne.
Qed.

Lemma thread_ok_mono v v' held held' t : thread_ok v held t → wakeups v <= wakeups v' →
  bd_hbuf_read (desc v') = bd_hbuf_read (desc v) →
  (bd_hbuf_read (desc v) ≠ 0 → same_hold (desc v) (desc v') ∧ held' = held) →
  held' = held ∨ held' = None ∨ wakeups v < wakeups v' → thread_ok v' held' t.
Proof.
  intros [Hs Ht] Hw Hr Hh Hd. split; [lia |]. rewrite Hr. destruct (t_state t); try done.
  - intros H. specialize (Ht H). lia.
  - intros H Hx. destruct Hd as [->|[->|?]]; [specialize (Ht H Hx); lia | by destruct Hx | lia].
  - intros H. specialize (Ht H). lia.
  - destruct Ht as (H1 & H2 & H3 & H4 & H5). destruct (Hh H1) as [[-> ->] ->]. done.
Qed.

Lemma thread_ok_busy v v' held held' t : thread_ok v held t → copying t = 0 → wakeups v <= wakeups v' →
  bd_hbuf_read (desc v') ≠ 0 → thread_ok v' held' t.
Proof. intros [Hs Ht] Hc Hw Hr. split; [lia |]. unfold copying in Hc. by destruct (t_state t). Qed.

Lemma thread_ok_woken v v' held held' t : thread_ok v held t → copying t = 0 → wakeups v < wakeups v' →
  thread_ok v' held' t.
Proof.
  intros [Hs Ht] Hc Hw. split; [lia |]. unfold copying in Hc. destruct (t_state t); try done; intros; lia.
Qed.

(** ** Lemmas on the accounting *)

Lemma kept_snoc l off r : kept l off → kept (l ++ [r]) (off ++ [r]).
Proof.
  intros (l0 & Hs & Hf). exists (l0 ++ [r]). split; [by apply sublist_app |].
  apply Forall2_app; [done |]. by repeat constructor.
Qed.

Lemma kept_skip l off r : kept l off → kept l (off ++ [r]).
Proof. intros (l0 & Hs & Hf). exists l0. split; [| done]. by apply sublist_inserts_r. Qed.

Lemma kept_drop a b c off : kept (a ++ b ++ c) off → kept (a ++ c) off.
Proof.
  intros (l0 & Hs & Hf). apply Forall2_app_inv_r in Hf as (la & lbc & Ha & Hbc & ->).
  apply Forall2_app_inv_r in Hbc as (lb & lc & Hb & Hc & ->). exists (la ++ lc). split; [| by apply Forall2_app].
  etrans; [| exact Hs]. apply sublist_app; [done |]. by apply sublist_inserts_l.
Qed.

Lemma kept_filled a b b' c off : Forall2 filled b b' → kept (a ++ b ++ c) off → kept (a ++ b' ++ c) off.
Proof.
  intros Hbb (l0 & Hs & Hf). exists l0. split; [done |].
  apply Forall2_app_inv_r in Hf as (la & lbc & Ha & Hbc & ->).
  apply Forall2_app_inv_r in Hbc as (lb & lc & Hb & Hc & ->).
  repeat apply Forall2_app; try done. eapply Forall2_trans; [| exact Hb | exact Hbb].
  intros x y z. apply filled_trans.
Qed.

Lemma kept_nil off : kept [] off.
Proof. exists []. split; [apply sublist_nil_l | done]. Qed.

Lemma kept_length l off : kept l off → (length l <= length off)%nat.
Proof. intros (l0 & Hs & Hf). rewrite <- (Forall2_length _ _ _ Hf). by apply sublist_length. Qed.

(** ** Steps *)

Arguments tally : simpl never.

Lemma headers_fit_ext d d' : bd_bif d' = bd_bif d → bd_bufsize d' = bd_bufsize d → headers_fit d' → headers_fit d.
Proof. unfold headers_fit. by intros -> ->. Qed.

Lemma quiet_ok s v' w held stored dl :
  sys_ok s held stored dl → inv v' held stored → quiet (s_dev s) v' → filter_ok (desc v') →
  (tst (bd_flags (desc v')) BPF_EXTENDED_HDR = true →
   tst (bd_flags (desc (s_dev s))) BPF_EXTENDED_HDR = true ∨ (held = None ∧ stored = [])) →
  Forall pending_ok w → bd_refcnt (desc v') = 2 + users (with_dev s v' w) →
  sys_ok (with_dev s v' w) held stored dl.
Proof.
  intros [] Hinv (Hr & Hb & Hbs & Hrcv & Hd & Hh & Hc & Hf & Hw) Hfil Hext Hwt Hrc.
  constructor; cbn; rewrite ?Hr, ?Hb, ?Hrcv, ?Hd, ?Hc, ?Hf; try done.
  - intros [He|[-> ->]]%Hext; [auto | by constructor].
  - eapply Forall_impl; [exact so_threads0 |]. intros t Ht. by eapply thread_ok_mono; eauto.
  - intros H. apply so_fit0. by eapply headers_fit_ext.
Qed.

Lemma emptied_ok s v' w held stored dl :
  sys_ok s held stored dl → emptied (s_dev s) v' → filter_ok (desc v') → bd_hbuf_read (desc (s_dev s)) = 0 →
  Forall pending_ok w → bd_refcnt (desc v') = 2 + users (fresh_log s v' w) →
  sys_ok (fresh_log s v' w) None [] [].
Proof.
  intros [] (Hinv & Hrcv & Hd & Hr & Hb & Hbs & Hf & Hw) Hfil Hz Hwt Hrc.
  constructor; cbn; unfold closing in *; rewrite ?Hr, ?Hb, ?Hrcv, ?Hd, ?Hf; try done.
  - by rewrite so_copying0, Hz.
  - eapply Forall_impl; [exact so_threads0 |]. intros t Ht. eapply thread_ok_mono; eauto; [lia | congruence |].
    intros; congruence.
  - apply kept_nil.
Qed.

Lemma insert_threads (P Q : thread → Prop) ts i t' :
  Forall P ts → Q t' → (∀ j u, j ≠ i → ts !! j = Some u → P u → Q u) → Forall Q (<[i := t']> ts).
Proof.
  intros HP HQ H. apply Forall_lookup. intros j u Hu. rewrite Forall_lookup in HP. destruct (decide (j = i)) as [->|Hj].
  - apply list_lookup_insert_Some in Hu as [(_ & <- & _)|[? _]]; done.
  - rewrite list_lookup_insert_ne in Hu by done. eauto.
Qed.

Lemma reads_self v v' r held stored held' stored' ioflag :
  reads (desc v) (desc v') r held stored held' stored' → tst (bd_flags (desc v')) BPF_FINALIZE_PKTAP = false →
  (tst (bd_flags (desc v')) BPF_EXTENDED_HDR = true → Forall ext_rec (default [] held' ++ stored')) →
  thread_ok v' held' (Thread ioflag r None (wakeups v')).
Proof.
  intros Hreads Hp He. split; [cbn; lia |].
  destruct Hreads as [| | | |rs stored ? Hr ?|stored ? ? Hr ?]; cbn in *;
    try (done || (intros; congruence) || (intros _ [? ?]; done)); rewrite Hr; split_and!; try done; eexists;
    split_and!; try done; intros Hx; apply He in Hx; by apply Forall_app in Hx as [? _].
Qed.

Lemma reads_others v v' r held stored held' stored' t :
  reads (desc v) (desc v') r held stored held' stored' → wakeups v' = wakeups v →
  (bd_hbuf_read (desc v) = 0 → copying t = 0) → thread_ok v held t → thread_ok v' held' t.
Proof.
  intros Hreads Hw Hc Ht. destruct Hreads as [? ? ? ? Hr Hs|? ? ? ? Hr ? Hs|? ? ? ? ? Hr ? Hs|? ? ? Hr Hz|? ? ? Hr Hz|? ? ? Hr Hz].
  1-3: eapply thread_ok_mono; eauto; lia.
  - eapply thread_ok_mono; eauto; [lia | congruence].
  - eapply thread_ok_busy; eauto; lia.
  - eapply thread_ok_busy; eauto; lia.
Qed.

(** The section of a read by the thread [i], which has been asleep. *)
Lemma resume_ok s held stored dl i ioflag r c w x :
  sys_ok s held stored dl → s_threads s !! i = Some (Thread ioflag r c w) →
  inside (Thread ioflag r c w) = 1 → copying (Thread ioflag r c w) = 0 →
  rpost (s_dev s) held stored x →
  ∃ r' v' held' stored', x = Ok (r', v') ∧
    sys_ok (with_threads s v' (<[i := Thread ioflag r' None (wakeups v')]> (s_threads s))) held' stored' dl.
Proof.
  intros [] Hi Hin Hco (r' & v' & held' & stored' & -> & Hinv & Hfr & Hreads).
  destruct Hfr as (Hbs & Hhd & Hb & Hfil & Hss & Hfl & Him & Hrcv & Hd & Hbu & Hw).
  exists r', v', held', stored'. split; [done |].
  assert (Hpres : present dl held' stored' = present dl held stored).
  { unfold present. destruct Hreads; cbn; by rewrite ?app_nil_r. }
  assert (Hext : tst (bd_flags (desc (s_dev s))) BPF_EXTENDED_HDR = true → Forall ext_rec (default [] held' ++ stored')).
  { intros He. specialize (so_ext0 He). destruct Hreads; cbn in *; rewrite ?app_nil_r; done. }
  constructor; cbn; unfold closing, filter_ok in *; rewrite ?Hb, ?Hfil, ?Hfl, ?Hrcv, ?Hd, ?Hpres; try done.
  - unfold users in *. cbn. rewrite (tally_insert _ _ _ _ _ Hi), Hin. destruct Hreads; cbn; lia.
  - rewrite (tally_insert _ _ _ _ _ Hi), Hco, so_copying0.
    destruct Hreads as [? ? ? ? Hr|? ? ? ? Hr|? ? ? ? ? Hr|? ? ? Hr|? ? ? Hr Hz|? ? ? Hr Hz]; cbn; rewrite Hr, ?Hz; cbn; lia.
  - apply (insert_threads (thread_ok (s_dev s) held)); [done | |].
    + eapply reads_self; [exact Hreads |..]; by rewrite Hfl.
    + intros j u _ Hu. eapply reads_others; [exact Hreads | done |]. intros Hz. rewrite Hz in so_copying0.
      by eapply none_copying.
  - intros H. apply so_fit0. by eapply headers_fit_ext.
Qed.

(** A thread that enters [bpfread] is one that has been waiting and now goes on. *)
Lemma read_ok s held stored dl ioflag resid :
  sys_ok s held stored dl → users s < 2 ^ 31 - 3 →
  ∃ r v' held' stored', bpfread ioflag resid (s_dev s) = Ok (r, v') ∧
    sys_ok (with_threads s v' (s_threads s ++ [Thread ioflag r None (wakeups v')])) held' stored' dl.
Proof.
  intros Hok Hus. pose proof (so_refs _ _ _ _ Hok) as Hrefs. pose proof (users_nonneg s) as Hnn.
  destruct (bpfread_spec (s_dev s) held stored ioflag resid) as (v1 & Hfr & Hr & Hsh & Hinv & Hrc & Hpost);
    [apply Hok | apply Hok | apply Hok | lia |].
  destruct Hfr as (Hbs & Hhd & Hb & Hfil & Hss & Hfl & Him & Hrcv & Hd & Hbu & Hw).
  set (t := Thread ioflag (RWait false) None (wakeups v1 - 1)).
  set (s1 := with_threads s v1 (s_threads s ++ [t])).
  assert (Hok1 : sys_ok s1 held stored dl).
  { pose proof Hok as []. constructor; cbn; unfold closing, filter_ok in *;
      rewrite ?Hb, ?Hfil, ?Hfl, ?Hrcv, ?Hd, ?Hr, ?tally_snoc; try done.
    - unfold users in *. cbn. rewrite tally_snoc. cbn. lia.
    - cbn. lia.
    - apply Forall_app_2; [| repeat constructor; cbn; lia]. eapply Forall_impl; [exact so_threads0 |].
      intros u Hu. eapply thread_ok_mono; eauto; lia.
    - intros H. apply so_fit0. by eapply headers_fit_ext. }
  destruct (resume_ok s1 held stored dl (length (s_threads s)) ioflag (RWait false) None (wakeups v1 - 1)
    (bpfread ioflag resid (s_dev s)) Hok1) as (r & v' & held' & stored' & Hx & Hok'); [| done | done | exact Hpost |].
  - cbn. by apply list_lookup_middle.
  - exists r, v', held', stored'. split; [done |]. cbn in Hok'. rewrite insert_app_r_alt, Nat.sub_diag in Hok' by lia. exact Hok'.
Qed.

(** The copy of the hold buffer. *)
Lemma copy_ok procinfo finalize s held stored dl i ioflag hbuf len flags w :
  sys_ok s held stored dl → s_threads s !! i = Some (Thread ioflag (RCopy hbuf len flags) None w) →
  ∃ data v' held', read_data procinfo finalize hbuf len flags (s_dev s) = Ok (data, v') ∧
    sys_ok (with_threads s v' (<[i := Thread ioflag (RCopy hbuf len flags) (Some data) w]> (s_threads s))) held' stored dl.
Proof.
  intros Hok Hi. pose proof Hok as []. pose proof (Forall_lookup_1 _ _ _ _ so_threads0 Hi) as [Hw (Hr & -> & -> & Hfin & rs & -> & Hext & _)].
  destruct (read_data_spec procinfo finalize (s_dev s) rs stored flags so_inv0 Hfin Hext)
    as (rs' & v' & data & Hread & Hfill & Hinv & Hd & Hwk & Hpk & Hsame).
  exists data, v', (Some rs'). split; [done |].
  assert (Hext' : ∀ l, Forall2 filled rs l → Forall ext_rec rs → Forall ext_rec l).
  { intros l Hl He. clear -Hl He. induction Hl as [|x y xs ys (_ & _ & Hx & _)]; [done |]. inversion He; subst.
    constructor; [unfold ext_rec in *; by rewrite Hx | auto]. }
  constructor; cbn; rewrite ?Hd; try done.
  - intros He. specialize (so_ext0 He). cbn in so_ext0. apply Forall_app in so_ext0 as [? ?]. by apply Forall_app_2; [apply Hext' |].
  - unfold users in *. cbn. rewrite (tally_insert _ _ _ _ _ Hi). cbn. lia.
  - rewrite (tally_insert _ _ _ _ _ Hi). cbn. lia.
  - apply (insert_threads (thread_ok (s_dev s) (Some rs))); [done | |].
    + cbn in Hw. split; [cbn; lia |]. cbn. rewrite Hd. split_and!; try done. exists rs'. split_and!; auto. by intros ? [= <-].
    + intros j u Hj Hu Hok'. eapply thread_ok_busy; [exact Hok' | | lia | by rewrite Hd].
      eapply others_not_copying; [exact Hi | done | | done | done]. rewrite so_copying0. by rewrite (proj2 (Z.eqb_neq _ _) Hr).
  - by eapply kept_filled.
  - rewrite so_drops0. unfold present. cbn. by rewrite !length_app, (Forall2_length _ _ _ Hfill).
Qed.

(** The end of a read. *)
Lemma done_ok s held stored dl i ioflag hbuf len flags data w error :
  sys_ok s held stored dl → s_threads s !! i = Some (Thread ioflag (RCopy hbuf len flags) (Some data) w) →
  ∃ r v' rs, read_done error (s_dev s) = Ok (r, v') ∧
    sys_ok (Sys v' (<[i := Thread ioflag r (Some data) w]> (s_threads s)) (s_waiting s) (s_offered s) (s_taps s) (s_read s ++ [(error, data)]))
      None stored (dl ++ [rs]).
Proof.
  intros Hok Hi. pose proof Hok as []. pose proof (Forall_lookup_1 _ _ _ _ so_threads0 Hi) as [Hw (Hr & -> & -> & Hfin & rs & -> & Hext & Hdata)].
  pose proof (tally_lookup _ _ _ Hi) as [Hin _]. cbn in Hin.
  destruct (read_done_spec (s_dev s) rs stored error so_inv0) as (v' & Hx & Hinv & Hz & Hrc & Hwk & Hdc & Hrcv & Hfl & Hfil & Hb & Hbs);
    [pose proof (users_nonneg s); unfold users in *; by split_and!; try done; lia |].
  exists (RReturn error), v', rs. split; [done |].
  rewrite (proj2 (Z.eqb_neq _ _) Hr) in so_copying0.
  assert (Hpres : present (dl ++ [rs]) None stored = present dl (Some rs) stored).
  { unfold present. rewrite concat_app. cbn. by rewrite app_nil_r, <- app_assoc. }
  constructor; cbn; unfold closing, filter_ok in *; rewrite ?Hb, ?Hfil, ?Hfl, ?Hrcv, ?Hdc, ?Hz, ?Hpres; try done.
  - intros He. specialize (so_ext0 He). by apply Forall_app in so_ext0 as [_ ?].
  - unfold users in *. cbn. rewrite (tally_insert _ _ _ _ _ Hi). cbn. lia.
  - rewrite (tally_insert _ _ _ _ _ Hi). cbn. lia.
  - apply (insert_threads (thread_ok (s_dev s) (Some rs))); [done | split; [cbn in *; lia | done] |].
    intros j u Hj Hu Hok'. eapply thread_ok_woken; [exact Hok' | | lia].
    by eapply others_not_copying; [exact Hi | done | done | done |].
  - apply Forall2_app; [done |]. constructor; [by apply Hdata | constructor].
  - intros H. apply so_fit0. by eapply headers_fit_ext.
Qed.

(** ** Packets *)

Lemma offer_one shl shr d pkt outbound tv m : filter_ok d → tapped_ok pkt →
  offer shl shr d pkt outbound tv m = [] ∨
  ∃ slen, sees d outbound = true ∧ in_u 32 slen ∧ offer shl shr d pkt outbound tv m = [record_of d pkt slen outbound tv m].
Proof.
  intros Hf Hp. unfold offer. destruct (sees d outbound); [| by left].
  destruct (tap_filter shl shr d pkt Hf Hp) as (slen & -> & Hs). destruct (slen =? 0); [by left | right; by exists slen].
Qed.

Lemma record_fits d pkt slen outbound tv m : is_Some (bd_bif d) → headers_fit d → in_u 32 slen →
  is_Some (record_of d pkt slen outbound tv m).
Proof.
  intros [bif Hb] Hf Hs. destruct (Hf bif Hb) as [H1 H2]. unfold record_of, hdrlen_of, in_u in *. rewrite Hb.
  pose proof (total_length_eq pkt). destruct (tst _ _); (rewrite (proj2 (Z.ltb_ge _ _)) by lia); by eexists.
Qed.

Lemma record_ext d pkt slen outbound tv m r : record_of d pkt slen outbound tv m = Some r →
  tst (bd_flags d) BPF_EXTENDED_HDR = true → ext_rec r.
Proof. unfold record_of. intros H Hf. rewrite Hf in H. case_match; [done |]. simplify_eq. unfold ext_rec. cbn [r_hdr]. by rewrite length_bpf_hdr_ext. Qed.

(** What a packet that arrives does to the accounts. *)
Lemma caught_accounts v v' r held stored held' stored' dl off :
  caught v v' r held stored held' stored' →
  kept (present dl held stored) off →
  bd_dcount (desc v) = u32 (Z.of_nat (length off) - Z.of_nat (length (present dl held stored))) →
  kept (present dl held' stored') (off ++ [r]) ∧
  bd_dcount (desc v') = u32 (Z.of_nat (length (off ++ [r])) - Z.of_nat (length (present dl held' stored'))).
Proof.
  unfold present. intros Hc Hk Hd. assert (Hl := kept_length _ _ Hk). rewrite !length_app in *.
  destruct Hc as [held stored _ Hd' _ _|held stored _ _ Hd' _|held stored _ _ Hd' _ _]; rewrite Hd'; clear Hd'.
  - split; [| rewrite Hd; f_equal; rewrite ?length_app; cbn [length]; lia].
    rewrite !(assoc_L (++)). apply kept_snoc. by rewrite <- !(assoc_L (++)).
  - cbn [default]. destruct held as [rs|]; cbn [default from_option id app] in *.
    + split; [| rewrite Hd; unfold wrap; rewrite Zplus_mod_idemp_l; f_equal; cbn [length]; lia].
      rewrite (assoc_L (++)). apply kept_snoc. by eapply kept_drop.
    + split; [| rewrite Hd; f_equal; cbn [length]; lia]. rewrite (assoc_L (++)). by apply kept_snoc.
  - split; [by apply kept_skip |]. rewrite Hd. unfold wrap. rewrite Zplus_mod_idemp_l. f_equal. cbn [length]. lia.
Qed.

Lemma caught_holds v v' r held stored held' stored' :
  caught v v' r held stored held' stored' →
  wakeups v <= wakeups v' ∧ (bd_hbuf_read (desc v) ≠ 0 → same_hold (desc v) (desc v') ∧ held' = held) ∧
  (held' = held ∨ held' = None ∨ wakeups v < wakeups v') ∧
  ∀ x, x ∈ default [] held' ++ stored' → x ∈ default [] held ++ stored ∨ x = r.
Proof.
  intros Hc. destruct Hc as [held stored _ _ Hw Hs|held stored _ [Hz Hcan] _ Hw|held stored _ _ _ Hw Hs].
  - split_and!; [destruct (wakes (desc v)); cbn in Hw; lia | done | by left |]. set_solver.
  - split_and!; [lia | done | right; right; lia |]. destruct held; set_solver.
  - split_and!; [lia | done | by left |]. set_solver.
Qed.

(** The device after it has counted a packet. *)
Lemma counted_ok s outbound held stored dl :
  sys_ok s held stored dl →
  let v1 := if sees (desc (s_dev s)) outbound then count_packet (s_dev s) else s_dev s in
  sys_ok (Sys v1 (s_threads s) (s_waiting s) (s_offered s) (s_taps s + Z.b2z (sees (desc (s_dev s)) outbound)) (s_read s)) held stored dl.
Proof.
  intros [] v1. subst v1. destruct (sees _ outbound); cbn [Z.b2z]; [| constructor; cbn; rewrite ?Z.add_0_r; done].
  constructor; cbn; try done.
  by rewrite so_taps0; unfold wrap; rewrite Zplus_mod_idemp_l.
Qed.

Lemma tap_ok shl shr s held stored dl pkt outbound tv m :
  sys_ok s held stored dl → tapped_ok pkt →
  ∃ v' held' stored', tap shl shr pkt outbound tv m (s_dev s) = Ok ((), v') ∧
    sys_ok (Sys v' (s_threads s) (s_waiting s) (s_offered s ++ offer shl shr (desc (s_dev s)) pkt outbound tv m)
             (s_taps s + Z.b2z (sees (desc (s_dev s)) outbound)) (s_read s)) held' stored' dl.
Proof.
  intros Hok Hp. pose proof (counted_ok s outbound held stored dl Hok) as Hok1. cbv zeta in Hok1.
  destruct (tap_spec shl shr pkt outbound tv m (s_dev s) held stored) as (v' & held' & stored' & Ht & Hinv & Hfr & Hpost);
    [apply Hok | apply Hok | apply Hok | done |].
  exists v', held', stored'. split; [done |]. set (v1 := if sees _ outbound then _ else _) in *.
  assert (Hd1 : ∀ slen, record_of (desc v1) pkt slen outbound tv m = record_of (desc (s_dev s)) pkt slen outbound tv m)
    by (intros slen; unfold v1; by destruct (sees _ _)).
  destruct (offer_one shl shr (desc (s_dev s)) pkt outbound tv m) as [Ho|(slen & Hsee & Hsl & Ho)]; [apply Hok | done | |]; rewrite Ho in *.
  { destruct Hpost as (-> & -> & ->). by rewrite app_nil_r. }
  destruct Hok1 as []. cbn in *. destruct Hfr as (Hbs & Hrd & Hhd & Hb & Hfil & Hss & Hfl' & Hrc & Him & Hrcv).
  assert (Hfit : headers_fit (desc v') → Forall is_Some (s_offered s ++ [record_of (desc (s_dev s)) pkt slen outbound tv m])).
  { intros H. apply (headers_fit_ext (desc v1)) in H; [| done | done]. apply Forall_app_2; [by apply so_fit0 |].
    constructor; [| done]. rewrite <- Hd1. by apply record_fits. }
  destruct (record_of _ pkt slen outbound tv m) as [r|] eqn:Hrec.
  2:{ destruct Hpost as (-> & -> & ->). constructor; cbn; rewrite ?omap_app; cbn; rewrite ?app_nil_r; done. }
  destruct (caught_accounts _ _ _ _ _ _ _ dl _ Hpost so_kept0 so_drops0) as [Hk Hdr].
  destruct (caught_holds _ _ _ _ _ _ _ Hpost) as (Hw & Hhold & Hwake & Hin).
  constructor; cbn; unfold closing, filter_ok in *; rewrite ?omap_app, ?Hb, ?Hfil, ?Hfl', ?Hrcv, ?Hrc, ?Hrd; try done.
  - intros He. specialize (so_ext0 He). pose proof (record_ext _ _ _ _ _ _ _ (eq_trans (Hd1 slen) Hrec) He) as Hr.
    apply Forall_forall. intros x [Hx| ->]%Hin; [| done]. rewrite Forall_forall in so_ext0. auto.
  - eapply Forall_impl; [exact so_threads0 |]. intros t Hth. by eapply thread_ok_mono.
Qed.

Section runs.

Context (shl_over shr_over : Z → Z → Z).
Context (procinfo : Z → Z → option (Z * list Z)) (finalize : list Z → Z → res (list Z)).
Context (bpf_maxbufsize : Z).

Notation step := (step shl_over shr_over procinfo finalize bpf_maxbufsize).
Notation steps := (steps shl_over shr_over procinfo finalize bpf_maxbufsize).
Notation events_ok := (events_ok shl_over shr_over procinfo finalize bpf_maxbufsize).

Lemma thread_usable s held stored dl i t : sys_ok s held stored dl → s_threads s !! i = Some t → inside t = 1 →
  usable (desc (s_dev s)).
Proof.
  intros [] Hi H. pose proof (tally_lookup _ _ _ Hi) as [Hx _]. unfold users in *. split_and!; try done. lia.
Qed.

Lemma resume_event_ok s held stored dl i error : sys_ok s held stored dl →
  ∃ s' held' stored', step (EResume i error) s = Ok s' ∧ sys_ok s' held' stored' dl.
Proof.
  intros Hok. cbn [step]. destruct (s_threads s !! i) as [[ioflag r c w]|] eqn:Hi; [| by do 3 eexists].
  pose proof (thread_usable s held stored dl i _ Hok Hi) as Hu.
  pose proof (read_next_spec (s_dev s) held stored ioflag error r (so_inv _ _ _ _ Hok)) as Hn.
  destruct r; [by do 3 eexists | | | | by do 3 eexists];
    (destruct (resume_ok s held stored dl i _ _ _ _ _ Hok Hi eq_refl eq_refl (Hn (Hu eq_refl)))
       as (r' & v' & held' & stored' & -> & Hok'); by do 3 eexists).
Qed.

(** ** Control *)

(** One thread fewer waits. *)
Lemma users_go s v i p : s_waiting s !! i = Some p → users (with_dev s v (delete i (s_waiting s))) = users s - 1.
Proof.
  intros Hi. unfold users. cbn. rewrite length_delete by by eexists. pose proof (lookup_lt_Some _ _ _ Hi). lia.
Qed.

Lemma waiting_usable s held stored dl i p : sys_ok s held stored dl → s_waiting s !! i = Some p → usable (desc (s_dev s)).
Proof.
  intros [] Hi. pose proof (lookup_lt_Some _ _ _ Hi). pose proof (tally_nonneg (s_threads s)). unfold users in *.
  split_and!; try done. lia.
Qed.

(** A thread that waits goes back to sleep. *)
Lemma asleep_ok s held stored dl i p p' : sys_ok s held stored dl → s_waiting s !! i = Some p → pending_ok p' →
  sys_ok (with_dev s (s_dev s) (delete i (s_waiting s) ++ [p'])) held stored dl.
Proof.
  intros Hok Hi Hp. pose proof Hok as []. eapply quiet_ok; try done.
  - auto.
  - apply Forall_app_2; [by apply Forall_delete |]. by constructor.
  - rewrite so_refs0. unfold users. cbn. rewrite length_app, length_delete by by eexists. cbn. pose proof (lookup_lt_Some _ _ _ Hi). lia.
Qed.

Lemma go_ok s held stored dl i p cmd :
  sys_ok s held stored dl → s_waiting s !! i = Some p → cmd_ok (desc (s_dev s)) cmd →
  (waits cmd = true → pending_ok (PIoctl cmd)) →
  ∃ r v' held' stored' dl', ioctl_run bpf_maxbufsize cmd (s_dev s) = Ok (r, v') ∧
    sys_ok (controlled s (delete i (s_waiting s)) cmd r v') held' stored' dl'.
Proof.
  intros Hok Hi Hcmd Hwt. pose proof Hok as []. pose proof (waiting_usable _ _ _ _ _ _ Hok Hi) as Hu.
  destruct (ioctl_run_spec bpf_maxbufsize cmd (s_dev s) held stored) as [([error out] & v' & Hr & Hf & Hrc & Hpost)|[Hr Hw]]; try done.
  2:{ exists None, (s_dev s), held, stored, dl. split; [done |]. by eapply asleep_ok; eauto. }
  assert (Hrefs : ∀ v', bd_refcnt (desc v') = bd_refcnt (desc (s_dev s)) - 1 →
    bd_refcnt (desc v') = 2 + users (with_dev s v' (delete i (s_waiting s)))).
  { intros v0 ->. rewrite (users_go _ _ _ _ Hi). lia. }
  exists (Some (error, out)), v'. unfold controlled, commanded in *. cbn [fst] in Hpost.
  destruct (resets cmd error); do 3 eexists; (split; [done |]).
  - destruct Hpost as [He Hz]. eapply emptied_ok; eauto using Forall_delete.
  - destruct Hpost as (Hi' & Hq & Hx). eapply quiet_ok; eauto using Forall_delete.
Qed.

Lemma go_select_ok s held stored dl i :
  sys_ok s held stored dl → s_waiting s !! i = Some PSelect →
  ∃ r v', select_wait (s_dev s) = Ok (r, v') ∧ sys_ok (selected s (delete i (s_waiting s)) r v') held stored dl.
Proof.
  intros Hok Hi. pose proof Hok as []. destruct (waiting_usable _ _ _ _ _ _ Hok Hi) as (Hc & _ & Hr).
  pose proof (select_wait_spec (s_dev s) held stored so_inv0 Hc Hr) as Hs. destruct (_ =? 0).
  - destruct Hs as (v' & Hs & Hinv & Hq & Hf & Hfl & Hrc). do 2 eexists. split; [exact Hs |].
    eapply quiet_ok; eauto using Forall_delete; [unfold filter_ok; by rewrite Hf | rewrite Hfl; auto |].
    rewrite (users_go _ _ _ _ Hi). lia.
  - do 2 eexists. split; [exact Hs |]. by eapply asleep_ok.
Qed.

(** A thread that enters is one that has been waiting and now goes on. *)
Lemma enter_ok s held stored dl v1 : sys_ok s held stored dl → entered (s_dev s) v1 held stored →
  let s1 := with_dev s v1 (s_waiting s ++ [PSelect]) in
  sys_ok s1 held stored dl ∧ s_waiting s1 !! length (s_waiting s) = Some PSelect ∧
  delete (length (s_waiting s)) (s_waiting s1) = s_waiting s.
Proof.
  intros Hok (Hinv & Hq & Hf & Hfl & _ & Hrc) s1. split_and!.
  - pose proof Hok as []. eapply quiet_ok; eauto; [unfold filter_ok; by rewrite Hf | rewrite Hfl; auto | |].
    + apply Forall_app_2; [done |]. by constructor.
    + rewrite Hrc, so_refs0. unfold users. cbn. rewrite length_app. cbn. lia.
  - cbn. by apply list_lookup_middle.
  - cbn. by rewrite delete_middle, app_nil_r.
Qed.

Lemma cmd_pending d cmd : cmd_ok d cmd → waits cmd = true → pending_ok (PIoctl cmd).
Proof. by destruct cmd. Qed.

Lemma control_event_ok s held stored dl e : sys_ok s held stored dl → event_ok s e →
  match e with
  | ETimeout | ESelect | EIoctl _ | EGo _ =>
      ∃ s' held' stored' dl', step e s = Ok s' ∧ sys_ok s' held' stored' dl'
  | _ => True
  end.
Proof.
  intros Hok He. pose proof Hok as []. pose proof (users_nonneg s) as Hnn.
  destruct e as [| | | | | | |cmd|i]; try done; cbn [step].
  - destruct (timed_out_spec _ _ _ so_inv0) as (v' & -> & Hi & Hq & Hf & Hfl & Hrc). do 4 eexists. split; [done |].
    eapply quiet_ok; eauto; [unfold filter_ok; by rewrite Hf | rewrite Hfl; auto | by rewrite Hrc].
  - cbn in He. destruct (bpfselect_enter (s_dev s) held stored) as (v1 & Hent & ->); try done; [lia |].
    destruct (enter_ok s held stored dl v1 Hok Hent) as (Hok1 & Hi1 & Hdel).
    destruct (go_select_ok _ _ _ _ _ Hok1 Hi1) as (r & v' & Hr & Hok'). rewrite Hdel in Hok'.
    cbn [with_dev s_dev] in Hr. rewrite Hr. do 4 eexists. split; [done |]. exact Hok'.
  - destruct He as [Hcmd Hus]. destruct (bpfioctl_enter bpf_maxbufsize cmd (s_dev s) held stored) as (v1 & Hent & ->); try done; [lia |].
    destruct (enter_ok s held stored dl v1 Hok Hent) as (Hok1 & Hi1 & Hdel).
    destruct (go_ok _ _ _ _ _ _ cmd Hok1 Hi1) as (r & v' & held' & stored' & dl' & Hr & Hok'); [| by eapply cmd_pending |].
    { destruct Hent as (_ & (_ & _ & _ & _ & _ & [Hh _] & _) & _ & Hfl & Hsl & _).
      destruct cmd; try done; cbn in *. by rewrite Hh, Hfl, Hsl. }
    rewrite Hdel in Hok'. cbn [with_dev s_dev] in Hr. rewrite Hr. do 4 eexists. split; [done |]. exact Hok'.
  - destruct (s_waiting s !! i) as [[cmd|]|] eqn:Hi; [| | by do 4 eexists].
    + destruct (Forall_lookup_1 _ _ _ _ so_waiting0 Hi) as [Hw Hc].
      destruct (go_ok _ _ _ _ _ _ cmd Hok Hi) as (r & v' & held' & stored' & dl' & -> & Hok'); [done | done |]. by do 4 eexists.
    + destruct (go_select_ok _ _ _ _ _ Hok Hi) as (r & v' & -> & Hok'). by do 4 eexists.
Qed.

Lemma step_ok s held stored dl e : sys_ok s held stored dl → event_ok s e →
  ∃ s' held' stored' dl', step e s = Ok s' ∧ sys_ok s' held' stored' dl'.
Proof.
  intros Hok He. pose proof (control_event_ok s held stored dl e Hok He) as Hctl.
  destruct e as [pkt outbound tv m|ioflag resid|i error|i|i error| | | |]; try exact Hctl; clear Hctl.
  - destruct (tap_ok shl_over shr_over s held stored dl pkt outbound tv m Hok He) as (v' & held' & stored' & Ht & Hok').
    cbn [step]. rewrite Ht. by do 4 eexists.
  - destruct (read_ok s held stored dl ioflag resid Hok He) as (r & v' & held' & stored' & Hr & Hok').
    cbn [step]. rewrite Hr. by do 4 eexists.
  - destruct (resume_event_ok s held stored dl i error Hok) as (s' & held' & stored' & ? & ?). by do 4 eexists.
  - cbn [step]. destruct (s_threads s !! i) as [[ioflag [] [data|] w]|] eqn:Hi; try by do 4 eexists.
    destruct (copy_ok procinfo finalize s held stored dl _ _ _ _ _ _ Hok Hi) as (data & v' & held' & Hr & Hok').
    rewrite Hr. by do 4 eexists.
  - cbn [step]. destruct (s_threads s !! i) as [[ioflag [] [data|] w]|] eqn:Hi; try by do 4 eexists.
    destruct (done_ok s held stored dl _ _ _ _ _ _ _ error Hok Hi) as (r & v' & rs & Hr & Hok').
    rewrite Hr. by do 4 eexists.
Qed.

End runs.
