(* ===== verification/BpfDevThms.v ===== *)
(** * Packet capture devices: properties

    Every state that a device and its readers can reach after it has been
    opened and attached to an interface, and what closing a device does to a
    read that is going on. *)

From S2P Require Import Prelude Bpf BpfSafety BpfDev BpfDevSpec BpfDevOps BpfDevRead BpfDevCtl BpfDevRun.

(** ** Attaching a new device *)

Lemma malloc_eq junk size v : 0 < size → m_null v = [] →
  malloc junk size v = Ok (Some (fresh (dom (bufs v))),
    Dev (<[fresh (dom (bufs v)) := replicate (Z.to_nat size) junk]> (bufs v)) [] (desc v) (wakeups v)).
Proof. intros Hs Hn. unfold malloc. rewrite (proj2 (Z.eqb_neq _ _)) by lia. by rewrite Hn. Qed.

Definition if_ok (bif : bpf_if) : Prop :=
  SIZEOF_BPF_HDR <= bif_hdrlen bif < 2 ^ 15 ∧ SIZEOF_BPF_HDR_EXT <= bif_exthdrlen bif < 2 ^ 15.

Lemma new_if_ok addr dlt hdrlen : 0 <= hdrlen → if_ok (new_bpf_if addr dlt hdrlen).
Proof.
  intros Hh. unfold if_ok, new_bpf_if, SIZEOF_BPF_HDR, SIZEOF_BPF_HDR_EXT. cbn.
  pose proof (wordalign_bounds (hdrlen + 18)). pose proof (wordalign_bounds (hdrlen + 60)). lia.
Qed.

Definition new_dev (bpf_bufsize : Z) (bpf_wantpktap : bool) : dev :=
  Dev ∅ [] (open_d bpf_bufsize bpf_wantpktap) 0.

Lemma allocbufs_new junk bufsize wantpktap : BPF_MINBUFSIZE <= bufsize < 2 ^ 29 →
  ∃ p q, bpf_allocbufs junk (new_dev bufsize wantpktap) =
      Ok (0, Dev (<[q := replicate (Z.to_nat bufsize) junk]> {[p := replicate (Z.to_nat bufsize) junk]}) []
               (set_sbuf (Some q) (set_fbuf (Some p) (open_d bufsize wantpktap))) 0) ∧ q ≠ p.
Proof.
  unfold BPF_MINBUFSIZE. intros Hb. unfold bpf_allocbufs, new_dev, open_d. run. cbn [free_buf set_sbuf set_hbuf set_fbuf bd_sbuf bd_hbuf bd_fbuf bd_bufsize].
  run. cbn [free_buf]. run. cbn [free_buf]. run. rewrite malloc_eq by (done || lia). run. cbn [bufs].
  rewrite malloc_eq by (done || lia). run. cbn [bufs set_fbuf set_sbuf].
  set (p := fresh (dom ∅)). set (q := fresh (dom (<[p := _]> ∅))). exists p, q.
  split; [by rewrite insert_empty |].
  intros Hqp. pose proof (is_fresh (dom (<[p := replicate (Z.to_nat bufsize) junk]> (∅ : gmap positive (list Z))))) as Hf.
  fold q in Hf. set_solver.
Qed.

Definition start (v : dev) : sys := Sys v [] [] [] 0 [].

(** A new device that has been attached is ready, with nothing in it, unless
    the driver has reported an error. *)
Lemma setif_new junk bufsize wantpktap bif tap_error do_reset :
  BPF_MINBUFSIZE <= bufsize < 2 ^ 29 → if_ok bif → bif_dlt bif ≠ DLT_PKTAP →
  ∃ v, bpf_setif junk (Some bif) tap_error do_reset false (new_dev bufsize wantpktap) =
      Ok (Some (if tap_error =? 0 then 0 else ENXIO), v) ∧
    (tap_error = 0 → sys_ok (start v) None [] []).
Proof.
  intros Hb Hif Hdlt. destruct (allocbufs_new junk bufsize wantpktap Hb) as (p & q & Ha & Hne).
  unfold bpf_setif. rewrite st_bind_unfold. cbn [getd desc new_dev open_d bd_hbuf_read Z.eqb negb andb].
  assert (closing (open_d bufsize wantpktap) = false) as -> by (by destruct wantpktap).
  rewrite st_bind_unfold. fold (new_dev bufsize wantpktap). rewrite Ha. cbn [Z.eqb negb]. run.
  rewrite bool_decide_eq_false_2 by done. run.
  change (bd_bif (set_sbuf _ _)) with (@None bpf_if). red_st. unfold bpf_attachd, bpf_acquire_d. run.
  rewrite (proj2 (Z.eqb_neq _ _) Hdlt). set (b := replicate (Z.to_nat bufsize) junk).
  assert (Hl : Z.of_nat (length b) = bufsize) by (unfold b, BPF_MINBUFSIZE in *; rewrite length_replicate; lia).
  assert (Hok : ∀ v, bufs v = <[q := b]> {[p := b]} → desc v = set_flags (Z.land (Z.land (bd_flags (open_d bufsize wantpktap))
    (Z.lnot (Z.lor BPF_DETACHING BPF_DETACHED))) (Z.lnot BPF_FINALIZE_PKTAP)) (set_refcnt 2 (set_bif (Some bif)
    (set_sbuf (Some q) (set_fbuf (Some p) (open_d bufsize wantpktap))))) → sys_ok (start v) None [] []).
  { intros v Hbufs Hdesc. constructor; cbn; rewrite ?Hdesc; try done; try (by destruct wantpktap).
    - unfold inv. rewrite Hdesc, Hbufs. cbn. split; [split; [done |]; cbn; by intros ? [= <-] |].
      exists q, p, b, b. split_and!; try done. apply packed_nil.
    - apply kept_nil. }
  set (v2 := Dev (<[q := b]> {[p := b]}) _ _ _). specialize (Hok v2 eq_refl eq_refl).
  destruct (tap_error =? 0) eqn:Et; cbn [negb]; [| exists v2; split; [done |]; intros ->; done].
  destruct do_reset; run.
  - destruct (reset_spec v2 None [] (so_inv _ _ _ _ Hok) eq_refl) as (v' & Hr & He & Hf & Hrc).
    rewrite Hr. exists v'. split; [done |]. intros _. eapply (emptied_ok (start v2)); [exact Hok | done | | done | done |].
    + unfold filter_ok. by rewrite Hf.
    + by rewrite Hrc.
  - exists v2. by split.
Qed.

(** ** Reachable states *)

Section reach.

Context (shl_over shr_over : Z → Z → Z).
Context (procinfo : Z → Z → option (Z * list Z)) (finalize : list Z → Z → res (list Z)).
Context (bpf_maxbufsize junk : Z).

Notation step := (step shl_over shr_over procinfo finalize bpf_maxbufsize).
Notation steps := (steps shl_over shr_over procinfo finalize bpf_maxbufsize).
Notation events_ok := (events_ok shl_over shr_over procinfo finalize bpf_maxbufsize).

(** The states of a device and its readers from when the device, newly opened,
    is attached to an interface. *)
Inductive reach : sys → Prop :=
  | reach_start bufsize wantpktap bif tap_error do_reset v :
      BPF_MINBUFSIZE <= bufsize < 2 ^ 29 → if_ok bif → bif_dlt bif ≠ DLT_PKTAP →
      bpf_setif junk (Some bif) tap_error do_reset false (new_dev bufsize wantpktap) = Ok (Some 0, v) →
      reach (start v)
  | reach_step s e s' : reach s → event_ok s e → step e s = Ok s' → reach s'.

Lemma reach_ok s : reach s → ∃ held stored dl, sys_ok s held stored dl.
Proof.
  induction 1 as [bufsize wantpktap bif tap_error do_reset v Hb Hif Hdlt Hset|s e s' _ (held & stored & dl & Hok) He Hs].
  - destruct (setif_new junk bufsize wantpktap bif tap_error do_reset Hb Hif Hdlt) as (v' & Hset' & Hok).
    rewrite Hset in Hset'. destruct (Z.eqb_spec tap_error 0); simplify_eq. do 3 eexists. by apply Hok.
  - destruct (step_ok shl_over shr_over procinfo finalize bpf_maxbufsize s held stored dl e Hok He)
      as (s2 & held' & stored' & dl' & Hs2 & Hok'). rewrite Hs in Hs2. simplify_eq. by do 3 eexists.
Qed.

Lemma reach_steps es s s' : reach s → events_ok es s → steps es s = Ok s' → reach s'.
Proof.
  revert s. induction es as [|e es IH]; intros s Hr He Hs; cbn in *; [by simplify_eq |].
  destruct He as [He Hes]. destruct (step e s) as [s1|] eqn:E; [| done]. cbn in *.
  eapply IH; [| exact Hes | exact Hs]. by eapply reach_step.
Qed.

End reach.

Lemma sublist_full {A} (l k : list A) : l `sublist_of` k → (length k <= length l)%nat → l = k.
Proof.
  intros H. induction H as [|x l k H IH|x l k H IH]; simpl; intros Hl; [done | f_equal; apply IH; lia |].
  apply sublist_length in H. lia.
Qed.


Lemma omap_all {A} (l : list (option A)) : Forall is_Some l → l = Some <$> omap id l.
Proof. induction 1 as [|x l [a ->] _ IH]; cbn; [done |]. by f_equal. Qed.

(** The reads that have got as far as moving data, the hold and the store
    buffer have the packets that were accepted. *)
Definition delivers (s : sys) : Prop :=
  ∃ held stored dl,
    inv (s_dev s) held stored ∧
    Forall2 (λ m rs, packed m.2 rs (Z.of_nat (length m.2))) (s_read s) dl ∧
    kept (present dl held stored) (omap id (s_offered s)) ∧
    bd_rcount (desc (s_dev s)) = u32 (s_taps s) ∧
    bd_dcount (desc (s_dev s)) =
      u32 (Z.of_nat (length (omap id (s_offered s))) - Z.of_nat (length (present dl held stored))) ∧
    (headers_fit (desc (s_dev s)) → bd_dcount (desc (s_dev s)) = 0 → Z.of_nat (length (s_offered s)) < 2 ^ 32 →
     ∃ recs, s_offered s = Some <$> recs ∧ Forall2 filled recs (present dl held stored)).

(** C2: under the assumptions of the reachable states, the data that finished
    reads have handed to the move to user space since the last reset are buffers
    packed with captured packets; these, followed by those in the hold and in
    the store buffer, are records of packets that the filter accepted, in the
    order of their arrival.  The counters that [BIOCGSTATS] reports are, modulo
    [2 ^ 32], the number of packets looked at and the number of accepted packets
    whose header fits the buffer and that are missing.  When the headers fit
    the buffer, the second counter is zero and fewer than [2 ^ 32] packets were
    accepted, then no accepted packet is missing.  (A packet whose header does
    not fit is left out without being counted; and a read whose move failed
    returns the error and its packets are gone, without being counted.) *)
Theorem bpf_delivers shl shr procinfo finalize maxbuf junk s :
  reach shl shr procinfo finalize maxbuf junk s → delivers s.
Proof.
  intros Hr. destruct (reach_ok _ _ _ _ _ _ s Hr) as (held & stored & dl & []). exists held, stored, dl.
  split_and!; try done. intros Hfit Hz Hlt. pose proof (omap_all _ (so_fit Hfit)) as Hall. exists (omap id (s_offered s)).
  split; [done |]. rewrite so_drops in Hz. pose proof (kept_length _ _ so_kept) as Hle.
  rewrite Hall, length_fmap in Hlt. rewrite wrap_small in Hz by (unfold in_u; lia). destruct so_kept as (l0 & Hs & Hf).
  pose proof (Forall2_length _ _ _ Hf) as Hlen. by rewrite <- (sublist_full _ _ Hs) by lia.
Qed.

(** What a sleeping thread waits for. *)
Definition can_go (d : bpf_d) (t : thread) : Prop :=
  match t_state t with
  | RWait _ | RWait2 _ _ => bd_hbuf_read d = 0
  | RSleep _ => bd_hbuf_read d = 0 ∧ is_Some (bd_hbuf d)
  | RReturn _ | RCopy _ _ _ => False
  end.

Definition asleep (t : thread) : Prop := inside t = 1 ∧ copying t = 0.

Lemma some_copying ts : tally copying ts = 1 → ∃ j u, ts !! j = Some u ∧ copying u = 1.
Proof.
  induction ts as [|t ts IH]; [done |]. change (tally copying (t :: ts)) with (copying t + tally copying ts). intros H.
  destruct (decide (copying t = 1)); [by exists 0%nat, t |]. pose proof (copying_range t). pose proof (inside_range t).
  destruct IH as (j & u & Hj & Hu); [lia |]. by exists (S j), u.
Qed.

(** With the hold buffer full, a sleeping thread that goes on takes it. *)
Lemma resume_takes v p ioflag error r :
  bd_hbuf (desc v) = Some p → bd_hbuf_read (desc v) = 0 → closing (desc v) = false →
  match r with RReturn _ | RCopy _ _ _ => True | _ => read_next ioflag error r v = read_copy v end.
Proof.
  intros Hp Hz Hc. assert (Hloop : ∀ t, read_loop ioflag t v = read_copy v).
  { intros t. unfold read_loop. rewrite st_bind_unfold. cbn [getd]. by rewrite Hp. }
  assert (Hw2 : ∀ t e, read_wait2 ioflag t e v = read_copy v).
  { intros t e. unfold read_wait2. rewrite st_bind_unfold. cbn [getd]. rewrite Hz, Hc, Hp. cbn [Z.eqb negb].
    repeat case_match; auto. }
  destruct r as [|t|t|t e|]; try done; cbn [read_next].
  - unfold read_wait. rewrite st_bind_unfold. cbn [getd]. rewrite Hz, Hc. apply Hloop.
  - unfold read_woken. rewrite st_bind_unfold. cbn [getd]. rewrite Hc. apply Hw2.
  - apply Hw2.
Qed.

(** The thread waits for another read to finish. *)
Definition waits_for_read (t : thread) : Prop :=
  match t_state t with RWait _ | RWait2 _ _ => True | _ => False end.

Lemma read_copy_state v r v' : read_copy v = Ok (r, v') → ∃ hbuf len flags, r = RCopy hbuf len flags.
Proof. unfold read_copy. run. intros [= <- <-]. by do 3 eexists. Qed.

Lemma resume_leaves v held stored ioflag error r r' v' :
  inv v held stored → usable (desc v) → bd_hbuf_read (desc v) = 0 →
  match r with RReturn _ | RCopy _ _ _ => False | _ => True end →
  read_next ioflag error r v = Ok (r', v') → match r' with RWait _ | RWait2 _ _ => False | _ => True end.
Proof.
  intros Hinv Hu Hz Hr Hs. pose proof (read_next_spec v held stored ioflag error r Hinv Hu) as Hp.
  destruct r; try done; destruct Hp as (r0 & v0 & h0 & s0 & Hx & _ & _ & Hreads); rewrite Hs in Hx; simplify_eq; by destruct Hreads.
Qed.

(** C18: no reader sleeps for nothing.  The wait of a sleeping thread is over
    when no read is going on and, if it sleeps for packets, the hold buffer is
    full; then there has been a wakeup since it went to sleep, and when it goes
    on, for whatever reason it was woken, it waits for no other read, and if
    the hold buffer is full it takes it.  While a read is going on some thread
    is copying.  (The device is one of the reachable states: open, attached, and
    used as assumed there.) *)
Theorem bpf_no_lost_wakeup shl shr procinfo finalize maxbuf junk s i t :
  reach shl shr procinfo finalize maxbuf junk s → s_threads s !! i = Some t → asleep t →
  (bd_hbuf_read (desc (s_dev s)) ≠ 0 → ∃ j u, s_threads s !! j = Some u ∧ copying u = 1) ∧
  (can_go (desc (s_dev s)) t →
   t_seen t < wakeups (s_dev s) ∧
   ∀ error, ∃ s' t', step shl shr procinfo finalize maxbuf (EResume i error) s = Ok s' ∧
     s_threads s' !! i = Some t' ∧ ¬ waits_for_read t' ∧
     (is_Some (bd_hbuf (desc (s_dev s))) → copying t' = 1)).
Proof.
  intros Hr Hi [Hin Hco]. destruct (reach_ok _ _ _ _ _ _ s Hr) as (held & stored & dl & Hok). pose proof Hok as [].
  pose proof (Forall_lookup_1 _ _ _ _ so_threads Hi) as [_ Ht]. pose proof (thread_usable _ _ _ _ _ _ Hok Hi Hin) as Hu.
  pose proof (hbuf_held _ _ _ so_inv) as Hh. split.
  { intros Hz. apply some_copying. rewrite so_copying. by rewrite (proj2 (Z.eqb_neq _ _) Hz). }
  intros Hgo. assert (Hz : bd_hbuf_read (desc (s_dev s)) = 0) by (unfold can_go in Hgo; destruct (t_state t); tauto).
  split; [unfold can_go in Hgo; destruct (t_state t); naive_solver |].
  intros error. destruct t as [ioflag r c w]. cbn [step]. rewrite Hi. unfold inside, copying in Hin, Hco. cbn in Hin, Hco.
  pose proof (read_next_spec (s_dev s) held stored ioflag error r so_inv Hu) as Hn.
  pose proof (λ p, resume_takes (s_dev s) p ioflag error r) as Htk.
  pose proof (λ r' v', resume_leaves (s_dev s) held stored ioflag error r r' v' so_inv Hu Hz) as Hlv.
  assert (Hlt : (i < length (s_threads s))%nat) by by eapply lookup_lt_Some.
  destruct r; try done; destruct Hn as (r' & v' & ? & ? & Hn & _); rewrite Hn; do 2 eexists; (split; [done |]);
    (split; [by apply list_lookup_insert_eq |]); (split; [specialize (Hlv _ _ I Hn); unfold waits_for_read; destruct r'; by cbn; auto |]);
    intros [p Hp]; rewrite (Htk p Hp Hz so_open) in Hn; by destruct (read_copy_state _ _ _ Hn) as (? & ? & ? & ->).
Qed.

(** ** Closing during a read *)

(** What threads other than the closing one can still do to a device that is
    being closed. *)
Inductive close_step (maxbuf : Z) : dev → dev → Prop :=
  | cs_read ioflag resid v r v' : bpfread ioflag resid v = Ok (r, v') → close_step maxbuf v v'
  | cs_next ioflag error r v r' v' : read_next ioflag error r v = Ok (r', v') → close_step maxbuf v v'
  | cs_timeout v v' : bpf_timed_out v = Ok ((), v') → close_step maxbuf v v'
  | cs_select v r v' : bpfselect v = Ok (r, v') → close_step maxbuf v v'
  | cs_ioctl cmd v r v' : bpfioctl maxbuf cmd v = Ok (r, v') → close_step maxbuf v v'
  | cs_setf bf_len bf_insns reset copyin v r v' :
      bpf_setf maxbuf bf_len bf_insns reset copyin v = Ok (r, v') → close_step maxbuf v v'
  | cs_flush v r v' : biocflush v = Ok (r, v') → close_step maxbuf v v'
  | cs_select_wait v r v' : select_wait v = Ok (r, v') → close_step maxbuf v v'
  | cs_close v b v' : close_finish v = Ok (b, v') → close_step maxbuf v v'.

Definition stuck (d : bpf_d) : Prop := closing d = true ∧ bd_hbuf_read d = 1.

Lemma release_stuck v u v' : bpf_release_d v = Ok (u, v') → stuck (desc v) → stuck (desc v').
Proof.
  unfold bpf_release_d. rewrite st_bind_unfold. cbn [getd]. destruct (bd_refcnt (desc v) <=? 0); [done |]. run.
  case_match; [done |]. intros [= <- <-]. done.
Qed.

Lemma leave_stuck error v r v' : leave error v = Ok (r, v') → stuck (desc v) → stuck (desc v').
Proof.
  unfold leave. rewrite st_bind_unfold. destruct (bpf_release_d v) as [[[] v1]|] eqn:E; [| done].
  intros [= <- <-]. by eapply release_stuck.
Qed.

Lemma close_step_stuck maxbuf v v' : close_step maxbuf v v' → stuck (desc v) → stuck (desc v').
Proof.
  intros Hs Hst. pose proof Hst as [Hc Hr]. destruct Hs as [ioflag resid v r v' H|ioflag error r v r' v' H|v v' H|v r v' H|cmd v r v' H|bf_len bf_insns reset copyin v r v' H|v r v' H|v r v' H|v b v' H].
  - unfold bpfread in H. rewrite st_bind_unfold in H. cbn [getd] in H. rewrite Hc in H. by injection H as <- <-.
  - assert (Hw2 : ∀ t e r v', read_wait2 ioflag t e v = Ok (r, v') → stuck (desc v')).
    { intros t e r0 v0. unfold read_wait2. rewrite st_bind_unfold. cbn [getd]. rewrite Hr. cbn. by intros [= <- <-]. }
    destruct r; cbn in H; [by injection H as <- <- | | | eauto | by injection H as <- <-].
    + unfold read_wait in H. rewrite st_bind_unfold in H. cbn [getd] in H. rewrite Hr in H. by injection H as <- <-.
    + unfold read_woken in H. rewrite st_bind_unfold in H. cbn [getd] in H. rewrite Hc in H. by eapply leave_stuck.
  - unfold bpf_timed_out in H. rewrite st_bind_unfold in H. cbn [getd] in H.
    repeat (case_match; try done; try (injection H as <-; done); try (rewrite st_bind_unfold in H; cbn [upd] in H; red_st)).
  - unfold bpfselect in H. rewrite st_bind_unfold in H. cbn [getd] in H. rewrite Hc in H. by injection H as <- <-.
  - unfold bpfioctl in H. rewrite st_bind_unfold in H. cbn [getd] in H. rewrite Hc in H. by injection H as <- <-.
  - unfold bpf_setf in H. rewrite st_bind_unfold in H. cbn [getd] in H. rewrite Hr in H. by injection H as <- <-.
  - unfold biocflush in H. rewrite st_bind_unfold in H. cbn [getd] in H. rewrite Hr in H. by injection H as <- <-.
  - unfold select_wait in H. rewrite st_bind_unfold in H. cbn [getd] in H. rewrite Hr in H. by injection H as <- <-.
  - unfold close_finish in H. rewrite st_bind_unfold in H. cbn [getd] in H. rewrite Hr in H. by injection H as <- <-.
Qed.

(** C39: a read that is going on when the device is closed leaves the hold buffer
    marked as being read and wakes nobody up; from then on [bpfclose] waits for
    ever for that mark to go away, whatever the other threads do. *)
Theorem bpf_close_never_ends maxbuf v error :
  closing (desc v) = true → bd_hbuf_read (desc v) = 1 → 2 <= bd_refcnt (desc v) →
  ∃ v1, read_done error v = Ok (RReturn ENXIO, v1) ∧ wakeups v1 = wakeups v ∧
    ∀ v2, rtc (close_step maxbuf) v1 v2 → close_finish v2 = Ok (false, v2).
Proof.
  intros Hc Hr Hn. unfold read_done, leave. rewrite st_bind_unfold. cbn [getd]. rewrite Hc.
  rewrite st_bind_unfold, release_eq by done. eexists. split; [done |]. split; [done |]. intros v2 H.
  assert (stuck (desc v2)) as [_ Hz].
  { remember (Dev _ _ _ _) as v1 eqn:Hv. assert (Hst : stuck (desc v1)) by by subst. clear Hv Hc Hr Hn.
    induction H as [|v1 v' v2 Hs _ IH]; [done |]. apply IH. by eapply close_step_stuck. }
  unfold close_finish. rewrite st_bind_unfold. cbn [getd]. by rewrite Hz.
Qed.

(** C25: what [catchpacket] does with a packet of a valid filter result: it
    leaves it out when not even its header fits the buffer; otherwise the
    record made of it, cut at the snapshot length and at the buffer size, is
    stored behind the others if it fits; if not, the store buffer becomes the
    hold buffer and the record the first one of the next store buffer, unless
    the hold slot is in use, in which case the packet is counted as dropped or,
    with [bd_headdrop] and no read going on, the packets of the hold buffer
    are. *)
Theorem bpf_catchpacket_cases v held stored pkt snaplen outbound tv m bif :
  inv v held stored → bd_bif (desc v) = Some bif → in_u 32 snaplen → total_length pkt < 2 ^ 30 →
  bpfp_type pkt = BPF_PACKET_TYPE_MBUF →
  match record_of (desc v) pkt snaplen outbound tv m with
  | None => catchpacket pkt snaplen outbound tv m v = Ok ((), v)
  | Some r => ∃ v' held' stored', catchpacket pkt snaplen outbound tv m v = Ok ((), v') ∧
      inv v' held' stored' ∧ frame (desc v) (desc v') ∧ caught v v' r held stored held' stored'
  end.
Proof. apply catchpacket_spec. Qed.

(** ** An example *)

Definition no_shift (_ _ : Z) : Z := 0.
Definition no_proc (_ _ : Z) : option (Z * list Z) := None.
Definition no_pktap (buf : list Z) (_ : Z) : res (list Z) := Ok buf.
Definition no_pkthdr : pkthdr := PktHdr 0 0 0 0 0 0 0.

Definition demo_if : bpf_if := new_bpf_if 1 1 14.

(** An Ethernet header of 14 bytes and two mbufs. *)
Definition demo_packet (n : nat) : bpf_packet :=
  BpfPacket BPF_PACKET_TYPE_MBUF (replicate 14 7) [replicate n 8; [1; 2; 3]].

Definition dev_of {A} (v : dev) (x : res (A * dev)) : dev := match x with Ok (_, v') => v' | Fault => v end.

Definition demo_dev : dev :=
  dev_of (new_dev 64 false) (bpf_setif 0xaa (Some demo_if) 0 true false (new_dev 64 false)).

Definition demo_events : list event :=
  [ ETap (demo_packet 5) false (1, 2) no_pkthdr;
    ERead 0 64; ERead 0 64;
    ETap (demo_packet 20) false (3, 4) no_pkthdr;
    EResume 0 0; EResume 1 0;
    ETap (demo_packet 6) true (5, 6) no_pkthdr;
    ECopy 0;
    ETap (demo_packet 7) true (7, 8) no_pkthdr;
    EDone 0 0 ].

Definition sys_of (s : sys) (x : res sys) : sys := match x with Ok s' => s' | Fault => s end.
Definition demo_steps := steps no_shift no_shift no_proc no_pktap 0x80000.

(** Events whose side conditions do not depend on the state but for the number
    of threads. *)
Definition static_ok (e : event) : Prop :=
  match e with
  | ETap pkt _ _ _ => tapped_ok pkt
  | EIoctl (BIOCSEXTHDR arg) => arg = 0
  | EIoctl (BIOCSETF _ _ _ (Some _)) => False
  | _ => True
  end.

Fixpoint few (es : list event) (s : sys) : bool :=
  match es with
  | [] => true
  | e :: es =>
      (users s <? 2 ^ 31 - 3) &&
      match step no_shift no_shift no_proc no_pktap 0x80000 e s with Ok s' => few es s' | Fault => true end
  end.

Lemma static_events es s :
  Forall static_ok es → few es s = true → events_ok no_shift no_shift no_proc no_pktap 0x80000 es s.
Proof.
  intros H. revert s. induction H as [|e es He _ IH]; intros s; [done |]. cbn [few events_ok]. intros [Hu Hf]%andb_true_iff. apply Z.ltb_lt in Hu. split.
  - destruct e as [| | | | | | |[| | |? ? ? []| | | | | | | |]|]; try done; cbn; split; try done. by left.
  - destruct (step _ _ _ _ _ _ _); [by apply IH | done].
Qed.

Lemma demo_packet_ok n : (0 < n < 1000)%nat → tapped_ok (demo_packet n).
Proof.
  intros Hn. assert (Hb : ∀ k b, 0 <= b < 256 → bytes_ok (replicate k b)).
  { intros k b Hb. apply Forall_replicate. unfold byte_ok, in_u. lia. }
  split_and!; [done | | split | ].
  - rewrite total_length_eq. unfold packet_bytes, demo_packet. cbn [bpfp_header bpfp_mbuf concat].
    rewrite !length_app, !length_replicate. cbn [length]. lia.
  - repeat constructor; unfold byte_ok, in_u, m_len; cbn; rewrite ?length_replicate; try lia. apply Hb. lia.
  - apply Hb. lia.
  - cbn. lia.
  - done.
  - repeat constructor; [| done]. destruct n; [lia | done].
Qed.

Definition demo_after (es : list event) : sys := sys_of (start demo_dev) (demo_steps es (start demo_dev)).
Definition demo_end : sys := demo_after demo_events.

(** Both readers sleep and the hold buffer has been filled. *)
Definition demo_full : sys := demo_after (take 4 demo_events).

(** A read has been finished and no packet has been dropped. *)
Definition demo_read : sys := demo_after (take 5 demo_events ++ [ECopy 0; EDone 0 0]).

Lemma demo_start : reach no_shift no_shift no_proc no_pktap 0x80000 0xaa (start demo_dev).
Proof.
  eapply (reach_start _ _ _ _ _ _ 64 false demo_if 0 true); [unfold BPF_MINBUFSIZE; lia | by apply new_if_ok | done |].
  vm_compute. reflexivity.
Qed.

Lemma demo_reach es : Forall static_ok es → few es (start demo_dev) = true →
  (if demo_steps es (start demo_dev) then True else False) →
  reach no_shift no_shift no_proc no_pktap 0x80000 0xaa (demo_after es).
Proof.
  intros Hs Hf Hok. eapply (reach_steps _ _ _ _ _ _ es (start demo_dev)); [exact demo_start | by apply static_events |].
  unfold demo_after, demo_steps in *. by destruct (steps _ _ _ _ _ es _).
Qed.

Ltac demo_reach := apply demo_reach;
  [repeat (apply Forall_cons_2; [first [exact I | apply demo_packet_ok; lia] |]); constructor
  | vm_compute; reflexivity | vm_compute; exact I].


Lemma bpf_delivers_witness :
  (length (s_read demo_end) = 1%nat ∧ bd_dcount (desc (s_dev demo_end)) = 2 ∧ delivers demo_end) ∧
  (length (s_read demo_read) = 1%nat ∧ bd_dcount (desc (s_dev demo_read)) = 0 ∧
   length (s_offered demo_read) = 2%nat ∧ delivers demo_read).
Proof.
  split; (split; [vm_compute; reflexivity |]; split; [vm_compute; reflexivity |]).
  - apply (bpf_delivers no_shift no_shift no_proc no_pktap 0x80000 0xaa demo_end). demo_reach.
  - split; [vm_compute; reflexivity |].
    apply (bpf_delivers no_shift no_shift no_proc no_pktap 0x80000 0xaa demo_read). demo_reach.
Defined.

Lemma bpf_no_lost_wakeup_witness :
  (∀ error, ∃ s' t', step no_shift no_shift no_proc no_pktap 0x80000 (EResume 1 error) demo_full = Ok s' ∧
     s_threads s' !! 1%nat = Some t' ∧ copying t' = 1) ∧
  1 < wakeups (s_dev demo_end).
Proof.
  split.
  - intros error. destruct (bpf_no_lost_wakeup no_shift no_shift no_proc no_pktap 0x80000 0xaa demo_full 1%nat
      (Thread 0 (RSleep false) None 0)) as [_ H]; [demo_reach | vm_compute; reflexivity | by split |].
    destruct H as [_ H]; [vm_compute; by split; [| eexists] |]. destruct (H error) as (s' & t' & H1 & H2 & _ & H3).
    exists s', t'. split; [exact H1 |]. split; [exact H2 |]. apply H3. vm_compute. by eexists.
  - apply (bpf_no_lost_wakeup no_shift no_shift no_proc no_pktap 0x80000 0xaa demo_end 1%nat (Thread 0 (RWait2 false 0) None 1));
      [demo_reach | vm_compute; reflexivity | by split | vm_compute; reflexivity].
Defined.

(** A thread copies the hold buffer when the device is closed. *)
Definition demo_closing : dev :=
  let s := demo_after (take 5 demo_events) in
  let v := dev_of (s_dev s) (close_begin true (s_dev s)) in
  dev_of v (close_detach v).

Lemma bpf_close_never_ends_witness :
  ∃ v1, read_done 0 demo_closing = Ok (RReturn ENXIO, v1) ∧ wakeups v1 = wakeups demo_closing ∧
    ∀ v2, rtc (close_step 0x80000) v1 v2 → close_finish v2 = Ok (false, v2).
Proof. apply (bpf_close_never_ends 0x80000 demo_closing 0); vm_compute; done. Defined.

Lemma demo_inv : inv demo_dev None [].
Proof.
  destruct (setif_new 0xaa 64 false demo_if 0 true) as (v & Hv & Hok);
    [unfold BPF_MINBUFSIZE; lia | by apply new_if_ok | done |].
  unfold demo_dev. rewrite Hv. by apply Hok.
Qed.

Lemma bpf_catchpacket_cases_witness :
  match record_of (desc demo_dev) (demo_packet 5) 96 false (1, 2) no_pkthdr with
  | None => catchpacket (demo_packet 5) 96 false (1, 2) no_pkthdr demo_dev = Ok ((), demo_dev)
  | Some r => ∃ v' held' stored', catchpacket (demo_packet 5) 96 false (1, 2) no_pkthdr demo_dev = Ok ((), v') ∧
      inv v' held' stored' ∧ frame (desc demo_dev) (desc v') ∧ caught demo_dev v' r None [] held' stored'
  end.
Proof.
  apply (bpf_catchpacket_cases demo_dev None [] (demo_packet 5) 96 false (1, 2) no_pkthdr demo_if);
    [exact demo_inv | vm_compute; reflexivity | unfold in_u; lia | vm_compute; reflexivity | reflexivity].
Defined.

(** Switching extended headers on while a plain packet is in the buffers
    makes the next read take its header for an extended one and access memory
    behind the hold buffer, here of 48 bytes. *)
Lemma bpf_exthdr_overrun junk procinfo finalize :
  let v := dev_of (new_dev 48 false) (bpf_setif junk (Some demo_if) 0 true false (new_dev 48 false)) in
  let s := steps no_shift no_shift procinfo finalize 0x80000
    [ EIoctl (BIOCIMMEDIATE 1); ETap (demo_packet 5) false (1, 2) no_pkthdr;
      EIoctl (BIOCSEXTHDR 1); ERead 0 48 ] (start v) in
  match s with
  | Ok s => step no_shift no_shift procinfo finalize 0x80000 (ECopy 0) s = Fault
  | Fault => False
  end.
Proof. vm_compute. reflexivity. Qed.
