(* ===== verification/Lockf.v ===== *)
(** * Advisory record locks: bsd/kern/kern_lockf.c

    The lock structures live in a store indexed by address; [lf_next] and the
    blocked queues [lf_blkhd] hold addresses, [kheap_free] removes the
    structure, and any later access to it faults.  Functions are transcribed
    field write by field write.  [lf_setlock] is split where it sleeps: the
    part up to [msleep] and the part after it are separate definitions run in
    the state of their own time.  Vnode and process locks are not represented:
    each definition is one critical section. *)

From S2P Require Import Prelude.

Abbreviation ptr := positive.
Abbreviation vnode := positive.
Abbreviation proc := positive.

(** ** Constants *)

Definition F_RDLCK := 1.
Definition F_UNLCK := 2.
Definition F_WRLCK := 3.
Definition F_GETLK := 7.
Definition F_SETLK := 8.
Definition F_GETLKPID := 66.
Definition F_WAIT := 0x010.
Definition F_FLOCK := 0x020.
Definition F_POSIX := 0x040.
Definition F_WAKE1_SAFE := 0x100.
Definition F_ABORT := 0x200.
Definition F_OFD_LOCK := 0x400.
Definition SEEK_SET := 0.
Definition SEEK_CUR := 1.
Definition SEEK_END := 2.
Definition SELF := 0x1.
Definition OTHERS := 0x2.
Definition OFF_MAX := 0x7fffffffffffffff.
Definition EINTR := 4.
Definition EBADF := 9.
Definition EDEADLK := 11.
Definition EINVAL := 22.
Definition EAGAIN := 35.
Definition EWOULDBLOCK := EAGAIN.
Definition ETIMEDOUT := 60.
Definition ENOLCK := 77.
Definition EOVERFLOW := 84.

Inductive overlap_t :=
  | OVERLAP_NONE
  | OVERLAP_EQUALS_LOCK
  | OVERLAP_CONTAINS_LOCK
  | OVERLAP_CONTAINED_BY_LOCK
  | OVERLAP_STARTS_BEFORE_LOCK
  | OVERLAP_ENDS_AFTER_LOCK.

#[export] Instance overlap_t_eq_dec : EqDecision overlap_t.
Proof. solve_decision. Defined.

(** ** State *)

(** [struct lockf]; [lf_head] is the vnode whose [v_lockf] it points to, and
    the [lf_block] linkage is the position in the queue that holds it. *)
Record lockf := Lockf {
  lf_flags : Z;
  lf_type : Z;
  lf_boosted : bool;
  lf_start : Z;
  lf_end : Z;
  lf_id : positive;
  lf_head : vnode;
  lf_vnode : vnode;
  lf_next : option ptr;
  lf_blkhd : list ptr;
  lf_owner : option proc;
}.

Definition set_flags v r := Lockf v (lf_type r) (lf_boosted r) (lf_start r) (lf_end r)
  (lf_id r) (lf_head r) (lf_vnode r) (lf_next r) (lf_blkhd r) (lf_owner r).
Definition set_type v r := Lockf (lf_flags r) v (lf_boosted r) (lf_start r) (lf_end r)
  (lf_id r) (lf_head r) (lf_vnode r) (lf_next r) (lf_blkhd r) (lf_owner r).
Definition set_boosted v r := Lockf (lf_flags r) (lf_type r) v (lf_start r) (lf_end r)
  (lf_id r) (lf_head r) (lf_vnode r) (lf_next r) (lf_blkhd r) (lf_owner r).
Definition set_start v r := Lockf (lf_flags r) (lf_type r) (lf_boosted r) v (lf_end r)
  (lf_id r) (lf_head r) (lf_vnode r) (lf_next r) (lf_blkhd r) (lf_owner r).
Definition set_end v r := Lockf (lf_flags r) (lf_type r) (lf_boosted r) (lf_start r) v
  (lf_id r) (lf_head r) (lf_vnode r) (lf_next r) (lf_blkhd r) (lf_owner r).
Definition set_next v r := Lockf (lf_flags r) (lf_type r) (lf_boosted r) (lf_start r) (lf_end r)
  (lf_id r) (lf_head r) (lf_vnode r) v (lf_blkhd r) (lf_owner r).
Definition set_blkhd v r := Lockf (lf_flags r) (lf_type r) (lf_boosted r) (lf_start r) (lf_end r)
  (lf_id r) (lf_head r) (lf_vnode r) (lf_next r) v (lf_owner r).
Definition set_owner v r := Lockf (lf_flags r) (lf_type r) (lf_boosted r) (lf_start r) (lf_end r)
  (lf_id r) (lf_head r) (lf_vnode r) (lf_next r) (lf_blkhd r) v.

(** Effects on the rest of the system: a wakeup of the thread sleeping on a
    lock structure, and importance assertions taken and dropped on a task. *)
Inductive event :=
  | EvWakeup (p : ptr)
  | EvHold (owner : option proc)
  | EvDrop (owner : option proc).

(** A thread of a process: its wait channel and whether it sleeps in
    [lf_setlock] on a POSIX lock ([uu_wmesg == lockstr]). *)
Record uthread := Uthread { uu_wchan : option ptr; uu_wmesg_lockstr : bool }.

Record kst := Kst {
  heap : gmap ptr lockf;
  v_lockf : gmap vnode ptr;
  events : list event;
  p_uthlist : gmap proc (list uthread);
  nomem : bool;
}.

Definition set_heap h s := Kst h (v_lockf s) (events s) (p_uthlist s) (nomem s).
Definition set_v_lockf v s := Kst (heap s) v (events s) (p_uthlist s) (nomem s).
Definition add_event e s := Kst (heap s) (v_lockf s) (events s ++ [e]) (p_uthlist s) (nomem s).

Abbreviation M := (st kst).

Definition deref (p : ptr) : M lockf := λ s,
  match heap s !! p with Some r => Ok (r, s) | None => Fault end.
Definition modify (p : ptr) (f : lockf → lockf) : M () := λ s,
  match heap s !! p with
  | Some r => Ok ((), set_heap (<[p := f r]> (heap s)) s)
  | None => Fault
  end.
Definition kheap_free (p : ptr) : M () := λ s,
  match heap s !! p with
  | Some _ => Ok ((), set_heap (delete p (heap s)) s)
  | None => Fault
  end.
(** [kheap_alloc] of a structure that is then filled in with [r]. *)
Definition kheap_alloc (r : lockf) : M (option ptr) := λ s,
  if nomem s then Ok (None, s)
  else let p := fresh (dom (heap s)) in
       Ok (Some p, set_heap (<[p := r]> (heap s)) s).
Definition emit (e : event) : M () := λ s, Ok ((), add_event e s).

(** A [struct lockf **]: the list head of a vnode or the [lf_next] of a lock. *)
Inductive lref := RHead (v : vnode) | RNext (p : ptr).

Definition read_ref (r : lref) : M (option ptr) :=
  match r with
  | RHead v => λ s, Ok (v_lockf s !! v, s)
  | RNext p => l ← deref p; mret (lf_next l)
  end.
Definition write_ref (r : lref) (v : option ptr) : M () :=
  match r with
  | RHead vn => λ s, Ok ((), set_v_lockf (partial_alter (λ _, v) vn (v_lockf s)) s)
  | RNext p => modify p (set_next v)
  end.

Fixpoint for_each (l : list ptr) (f : ptr → M ()) : M () :=
  match l with
  | [] => mret ()
  | x :: l' => f x ;; for_each l' f
  end.

(** The bound on list walks: no list of locks is longer than the store. *)
Definition list_fuel : M nat := s ← get; mret (S (size (heap s))).

(** ** Overlap search *)

(** The classification of one lock [lf] against the range [start, end] once
    they are known to intersect; [None] is the panic at the end of the loop. *)
Definition overlap_case (lf : lockf) (start end_ : Z) : option overlap_t :=
  if (lf_start lf =? start) && (lf_end lf =? end_) then Some OVERLAP_EQUALS_LOCK
  else if (lf_start lf <=? start) && negb (end_ =? -1)
          && ((lf_end lf >=? end_) || (lf_end lf =? -1))
  then Some OVERLAP_CONTAINS_LOCK
  else if (start <=? lf_start lf)
          && ((end_ =? -1) || (negb (lf_end lf =? -1) && (end_ >=? lf_end lf)))
  then Some OVERLAP_CONTAINED_BY_LOCK
  else if (lf_start lf <? start) && ((lf_end lf >=? start) || (lf_end lf =? -1))
  then Some OVERLAP_STARTS_BEFORE_LOCK
  else if (lf_start lf >? start) && negb (end_ =? -1)
          && ((lf_end lf >? end_) || (lf_end lf =? -1))
  then Some OVERLAP_ENDS_AFTER_LOCK
  else None.

(** The [while] loop of [lf_findoverlap]; [*overlap] is the lock it stops at. *)
Fixpoint findoverlap_loop (fuel : nat) (lf : option ptr) (lock : lockf) (type : Z)
    (prev : lref) (found_self : bool) : M (overlap_t * lref * option ptr) :=
  match fuel with
  | O => fault
  | S fuel' =>
      match lf with
      | None => mret (OVERLAP_NONE, prev, None)
      | Some p =>
          l ← deref p;
          let start := lf_start lock in
          let end_ := lf_end lock in
          if (tst type SELF && negb (bool_decide (lf_id l = lf_id lock)))
             || (tst type OTHERS && bool_decide (lf_id l = lf_id lock)) then
            if tst type SELF && found_self then mret (OVERLAP_NONE, prev, lf)
            else findoverlap_loop fuel' (lf_next l) lock type (RNext p) found_self
          else
            let found_self := found_self || tst type SELF in
            if (negb (lf_end l =? -1) && (start >? lf_end l))
               || (negb (end_ =? -1) && (lf_start l >? end_)) then
              if tst type SELF && negb (end_ =? -1) && (lf_start l >? end_)
              then mret (OVERLAP_NONE, prev, lf)
              else findoverlap_loop fuel' (lf_next l) lock type (RNext p) found_self
            else match overlap_case l start end_ with
                 | Some c => mret (c, prev, lf)
                 | None => fault
                 end
      end
  end.

Definition lf_findoverlap (lf : option ptr) (lock : ptr) (type : Z) (prev : lref)
  : M (overlap_t * lref * option ptr) :=
  match lf with
  | None => mret (OVERLAP_NONE, prev, None)
  | Some _ =>
      l ← deref lock; fuel ← list_fuel;
      findoverlap_loop fuel lf l type prev false
  end.

(** ** Blocked queues *)

Definition lf_move_blocked (to from : ptr) : M () :=
  f ← deref from;
  for_each (lf_blkhd f) (λ tlock, modify tlock (set_next (Some to))) ;;
  f ← deref from;
  modify to (λ t, set_blkhd (lf_blkhd t ++ lf_blkhd f) t) ;;
  modify from (set_blkhd []).

(** The back pointers of the queue moved to [wakelock], with the check for an
    element that follows itself. *)
Fixpoint retarget (l : list ptr) (wakelock : ptr) : M () :=
  match l with
  | [] => mret ()
  | tlock :: l' =>
      if bool_decide (head l' = Some tlock) then fault
      else modify tlock (set_next (Some wakelock)) ;; retarget l' wakelock
  end.

Fixpoint wakelock_loop (fuel : nat) (listhead : ptr) (wake_all : bool) : M () :=
  match fuel with
  | O => fault
  | S fuel' =>
      lh ← deref listhead;
      match lf_blkhd lh with
      | [] => mret ()
      | wakelock :: rest =>
          modify listhead (set_blkhd rest) ;;
          modify wakelock (set_next None) ;;
          (if wake_all then mret ()
           else match rest with
                | [] => mret ()
                | _ =>
                    modify wakelock (λ w, set_blkhd (lf_blkhd w ++ rest) w) ;;
                    modify listhead (set_blkhd []) ;;
                    w ← deref wakelock;
                    retarget (lf_blkhd w) wakelock
                end) ;;
          emit (EvWakeup wakelock) ;;
          if wake_all then wakelock_loop fuel' listhead wake_all else mret ()
      end
  end.

Definition lf_wakelock (listhead : ptr) (force_all : bool) : M () :=
  lh ← deref listhead;
  let wake_all := negb (negb force_all && tst (lf_flags lh) F_WAKE1_SAFE) in
  wakelock_loop (S (length (lf_blkhd lh))) listhead wake_all.

(** ** Splitting and coalescing *)

Definition lf_split (lock1 lock2 : ptr) : M Z :=
  l1 ← deref lock1; l2 ← deref lock2;
  if lf_start l1 =? lf_start l2 then
    modify lock1 (set_start (s64 (lf_end l2 + 1))) ;;
    modify lock2 (set_next (Some lock1)) ;; mret 0
  else if lf_end l1 =? lf_end l2 then
    modify lock1 (set_end (s64 (lf_start l2 - 1))) ;;
    l1 ← deref lock1;
    modify lock2 (set_next (lf_next l1)) ;;
    modify lock1 (set_next (Some lock2)) ;; mret 0
  else
    splitlock ← kheap_alloc l1;
    match splitlock with
    | None => mret ENOLCK
    | Some splitlock =>
        modify splitlock (set_start (s64 (lf_end l2 + 1))) ;;
        modify splitlock (set_blkhd []) ;;
        modify lock1 (set_end (s64 (lf_start l2 - 1))) ;;
        l1 ← deref lock1;
        modify splitlock (set_next (lf_next l1)) ;;
        modify lock2 (set_next (Some splitlock)) ;;
        modify lock1 (set_next (Some lock2)) ;; mret 0
    end.

Fixpoint coalesce_loop (fuel : nat) (lf : lref) (lock : ptr) : M () :=
  match fuel with
  | O => fault
  | S fuel' =>
      cur ← read_ref lf;
      match cur with
      | None => mret ()
      | Some a =>
          l ← deref a; k ← deref lock;
          if bool_decide (a = lock) || negb (bool_decide (lf_id l = lf_id k))
             || negb (lf_type l =? lf_type k)
          then coalesce_loop fuel' (RNext a) lock
          else if negb (lf_end l =? -1) && (s64 (lf_end l + 1) =? lf_start k) then
            modify lock (set_start (lf_start l)) ;;
            write_ref lf (Some lock) ;;
            lf_move_blocked lock a ;;
            kheap_free a ;;
            coalesce_loop fuel' (RNext lock) lock
          else if negb (lf_end k =? -1) && (s64 (lf_end k + 1) =? lf_start l) then
            modify lock (set_end (lf_end l)) ;;
            modify lock (set_next (lf_next l)) ;;
            lf_move_blocked lock a ;;
            kheap_free a ;;
            coalesce_loop fuel' (RNext lock) lock
          else coalesce_loop fuel' (RNext a) lock
      end
  end.

Definition lf_coalesce_adjacent (lock : ptr) : M () :=
  k ← deref lock; fuel ← list_fuel;
  coalesce_loop fuel (RHead (lf_head k)) lock.

(** ** The rest of the system

    Importance inheritance, pids, file sizes and the other vnodes' locks, as
    far as the lock code asks about them. *)

Record environ := Environ {
  task_is_importance_donor : option proc → bool;
  task_is_importance_receiver_type : option proc → bool;
  task_importance_hold_file_lock_assertion : option proc → Z;
  p_pid : proc → Z;
  fg_confined : positive → bool;
  try_lock : vnode → bool;
}.

Section lockf.
Context (env : environ).

Definition proc_pid (p : option proc) : Z :=
  match p with Some p => p_pid env p | None => -1 end.

Definition lf_hold_assertion (block_task : option proc) (block : ptr) : M () :=
  if task_importance_hold_file_lock_assertion env block_task =? 0
  then emit (EvHold block_task) ;; modify block (set_boosted true)
  else mret ().

Definition lf_jump_to_queue_head (block lock : ptr) : M () :=
  b ← deref block;
  if bool_decide (lock ∈ lf_blkhd b) then
    modify block (λ b, set_blkhd (filter (λ x, x ≠ lock) (lf_blkhd b)) b) ;;
    modify block (λ b, set_blkhd (lock :: lf_blkhd b) b)
  else fault.

Definition lf_drop_assertion (block : ptr) : M () :=
  b ← deref block;
  emit (EvDrop (lf_owner b)) ;;
  modify block (set_boosted false).

(** Whether a blocked lock [next] would be boosting [block]. *)
Definition boosts (block next : lockf) : bool :=
  (tst (Z.land (lf_flags block) (lf_flags next)) F_POSIX
   || (tst (Z.land (lf_flags block) (lf_flags next)) F_OFD_LOCK
       && negb (bool_decide (lf_owner block = lf_owner next))
       && (bool_decide (is_Some (lf_owner block)) && bool_decide (is_Some (lf_owner next)))))
  && (task_is_importance_donor env (lf_owner next)
      && task_is_importance_receiver_type env (lf_owner block)).

Fixpoint any_boosts (block : lockf) (l : list ptr) : M bool :=
  match l with
  | [] => mret false
  | x :: l' => n ← deref x; if boosts block n then mret true else any_boosts block l'
  end.

Definition lf_adjust_assertion (block : ptr) : M () :=
  b ← deref block;
  if negb (lf_boosted b) then mret ()
  else found ← any_boosts b (lf_blkhd b);
       if found : bool then mret () else lf_drop_assertion block.

Definition lf_boost_blocking_proc (lock block : ptr) : M () :=
  l ← deref lock; b ← deref block;
  if task_is_importance_donor env (lf_owner l) then
    (if negb (lf_boosted b) && task_is_importance_receiver_type env (lf_owner b)
     then lf_hold_assertion (lf_owner b) block else mret ()) ;;
    lf_jump_to_queue_head block lock
  else mret ().

(** ** Unlocking *)

Fixpoint clearlock_loop (fuel : nat) (lf : option ptr) (unlock : ptr) (prev : lref) : M Z :=
  match fuel with
  | O => fault
  | S fuel' =>
      r ← lf_findoverlap lf unlock SELF prev;
      let '(ovcase, prev, ov) := r in
      match ovcase, ov with
      | OVERLAP_NONE, _ => mret 0
      | _, None => fault
      | _, Some overlap =>
          lf_wakelock overlap false ;;
          o ← deref overlap;
          (if lf_boosted o then lf_drop_assertion overlap else mret ()) ;;
          o ← deref overlap; u ← deref unlock;
          match ovcase with
          | OVERLAP_NONE => fault
          | OVERLAP_EQUALS_LOCK =>
              write_ref prev (lf_next o) ;; kheap_free overlap ;; mret 0
          | OVERLAP_CONTAINS_LOCK =>
              if lf_start o =? lf_start u then
                modify overlap (set_start (s64 (lf_end u + 1))) ;; mret 0
              else
                e ← lf_split overlap unlock;
                if negb (e =? 0) then mret ENOLCK
                else u ← deref unlock;
                     modify overlap (set_next (lf_next u)) ;; mret 0
          | OVERLAP_CONTAINED_BY_LOCK =>
              write_ref prev (lf_next o) ;;
              kheap_free overlap ;;
              clearlock_loop fuel' (lf_next o) unlock prev
          | OVERLAP_STARTS_BEFORE_LOCK =>
              modify overlap (set_end (s64 (lf_start u - 1))) ;;
              clearlock_loop fuel' (lf_next o) unlock (RNext overlap)
          | OVERLAP_ENDS_AFTER_LOCK =>
              modify overlap (set_start (s64 (lf_end u + 1))) ;; mret 0
          end
      end
  end.

Definition lf_clearlock (unlock : ptr) : M Z :=
  u ← deref unlock;
  lf ← read_ref (RHead (lf_head u));
  match lf with
  | None => mret 0
  | Some _ => fuel ← list_fuel; clearlock_loop fuel lf unlock (RHead (lf_head u))
  end.

(** ** Blocking locks *)

Fixpoint getblock_loop (fuel : nat) (lf : option ptr) (lock : ptr) (matchpid : Z)
    (prev : lref) : M (option ptr) :=
  match fuel with
  | O => fault
  | S fuel' =>
      r ← lf_findoverlap lf lock OTHERS prev;
      let '(ovcase, prev, ov) := r in
      match ovcase, ov with
      | OVERLAP_NONE, _ => mret None
      | _, None => fault
      | _, Some overlap =>
          o ← deref overlap; l ← deref lock;
          if negb (matchpid =? -1)
             && tst (lf_flags o) (Z.lor F_POSIX F_OFD_LOCK)
             && negb (proc_pid (lf_owner o) =? matchpid)
          then getblock_loop fuel' (lf_next o) lock matchpid prev
          else if (lf_type l =? F_WRLCK) || (lf_type o =? F_WRLCK)
          then mret (Some overlap)
          else getblock_loop fuel' (lf_next o) lock matchpid prev
      end
  end.

Definition lf_getblock (lock : ptr) (matchpid : Z) : M (option ptr) :=
  l ← deref lock;
  lf ← read_ref (RHead (lf_head l));
  fuel ← list_fuel;
  getblock_loop fuel lf lock matchpid (RHead (lf_head l)).

(** [struct flock]. *)
Record flock := Flock { l_start : Z; l_len : Z; l_pid : Z; l_type : Z; l_whence : Z }.

Definition lf_getlock (lock : ptr) (fl : flock) (matchpid : Z) : M (Z * flock) :=
  block ← lf_getblock lock matchpid;
  match block with
  | Some b =>
      b ← deref b;
      mret (0, Flock (lf_start b)
                     (if lf_end b =? -1 then 0 else s64 (lf_end b - lf_start b + 1))
                     (match lf_owner b with Some _ => proc_pid (lf_owner b) | None => -1 end)
                     (lf_type b) SEEK_SET)
  | None => mret (0, Flock (l_start fl) (l_len fl) (l_pid fl) F_UNLCK (l_whence fl))
  end.

(** ** Locking *)

(** Case split on the overlap found, the [for (;;)] loop of [lf_setlock] once
    nothing blocks the request.  The result is the error and, on success, the
    lock to coalesce around. *)
Fixpoint grant_loop (fuel : nat) (block : option ptr) (lock : ptr) (prev : lref)
    (needtolink : bool) : M (Z * ptr) :=
  match fuel with
  | O => fault
  | S fuel' =>
      r ← lf_findoverlap block lock SELF prev;
      let '(ovcase, prev, ov) := r in
      match ovcase, ov with
      | OVERLAP_NONE, _ =>
          (if needtolink then
             write_ref prev (Some lock) ;; modify lock (set_next ov)
           else mret ()) ;;
          mret (0, lock)
      | _, None => fault
      | _, Some overlap =>
          o ← deref overlap; l ← deref lock;
          let block := lf_next o in
          match ovcase with
          | OVERLAP_NONE => fault
          | OVERLAP_EQUALS_LOCK =>
              (if (lf_type l =? F_RDLCK) && (lf_type o =? F_WRLCK)
               then lf_wakelock overlap true else mret ()) ;;
              modify overlap (set_type (lf_type l)) ;;
              lf_move_blocked overlap lock ;;
              kheap_free lock ;;
              mret (0, overlap)
          | OVERLAP_CONTAINS_LOCK =>
              if lf_type o =? lf_type l then
                lf_move_blocked overlap lock ;;
                kheap_free lock ;;
                mret (0, overlap)
              else
                e ← (if lf_start o =? lf_start l then
                       write_ref prev (Some lock) ;;
                       modify lock (set_next (Some overlap)) ;;
                       modify overlap (set_start (s64 (lf_end l + 1))) ;;
                       mret 0
                     else lf_split overlap lock);
                if negb (e =? 0) then kheap_free lock ;; mret (ENOLCK, lock)
                else lf_wakelock overlap true ;; mret (0, lock)
          | OVERLAP_CONTAINED_BY_LOCK =>
              (if (lf_type l =? F_RDLCK) && (lf_type o =? F_WRLCK)
               then lf_wakelock overlap true
               else lf_move_blocked lock overlap) ;;
              o ← deref overlap;
              if needtolink then
                write_ref prev (Some lock) ;;
                modify lock (set_next (lf_next o)) ;;
                kheap_free overlap ;;
                grant_loop fuel' block lock (RNext lock) false
              else
                write_ref prev (lf_next o) ;;
                kheap_free overlap ;;
                grant_loop fuel' block lock prev false
          | OVERLAP_STARTS_BEFORE_LOCK =>
              modify lock (set_next (lf_next o)) ;;
              modify overlap (set_next (Some lock)) ;;
              modify overlap (set_end (s64 (lf_start l - 1))) ;;
              lf_wakelock overlap true ;;
              grant_loop fuel' block lock (RNext lock) false
          | OVERLAP_ENDS_AFTER_LOCK =>
              (if needtolink then
                 write_ref prev (Some lock) ;; modify lock (set_next (Some overlap))
               else mret ()) ;;
              modify overlap (set_start (s64 (lf_end l + 1))) ;;
              lf_wakelock overlap true ;;
              mret (0, lock)
          end
      end
  end.

(** From "No blocks!!  Add the lock" to the end of [lf_setlock]. *)
Definition lf_setlock_grant (lock : ptr) : M Z :=
  l ← deref lock;
  block ← read_ref (RHead (lf_head l));
  fuel ← list_fuel;
  r ← grant_loop fuel block lock (RHead (lf_head l)) true;
  let '(error, lock) := r in
  if negb (error =? 0) then mret error
  else lf_coalesce_adjacent lock ;; mret 0.

(** How [lf_setlock] leaves the processor. *)
Inductive setlock_out :=
  | SLReturn (error : Z)
  | SLSleep      (** in [msleep] on the lock, queued behind [lf_next] *)
  | SLPause.     (** in the 2 ms [msleep] before [goto scan] *)

Inductive deadlock_out := DLNone | DLDeadlock | DLPause.

(** The walk over the threads of the process that owns the blocking lock. *)
Fixpoint deadlock_scan (uts : list uthread) (lock : lockf) (vp : vnode) : M deadlock_out :=
  match uts with
  | [] => mret DLNone
  | ut :: uts' =>
      match uu_wchan ut with
      | None => deadlock_scan uts' lock vp
      | Some waitblock =>
          if negb (uu_wmesg_lockstr ut) then deadlock_scan uts' lock vp
          else
            w ← deref waitblock;
            if negb (bool_decide (lf_vnode w = vp)) && negb (try_lock env (lf_vnode w))
            then mret DLPause
            else match lf_next w with
                 | None => deadlock_scan uts' lock vp
                 | Some nextblock =>
                     n ← deref nextblock;
                     if negb (tst (lf_flags n) F_POSIX) then deadlock_scan uts' lock vp
                     else if bool_decide (lf_owner n = lf_owner lock) then mret DLDeadlock
                     else deadlock_scan uts' lock vp
                 end
      end
  end.

Definition deadlock_check (lock block : ptr) : M deadlock_out :=
  l ← deref lock; b ← deref block;
  if tst (lf_flags l) F_POSIX && tst (lf_flags b) F_POSIX then
    match lf_owner b with
    | None => fault
    | Some wproc =>
        s ← get;
        deadlock_scan (default [] (p_uthlist s !! wproc)) l (lf_vnode l)
    end
  else mret DLNone.

(** Remove shared [flock] locks, join the queue of [block], boost its owner. *)
Definition lf_setlock_block (lock block : ptr) : M setlock_out :=
  l ← deref lock;
  e ← (if tst (lf_flags l) F_FLOCK && (lf_type l =? F_WRLCK) then
         modify lock (set_type F_UNLCK) ;;
         e ← lf_clearlock lock;
         if negb (e =? 0) then kheap_free lock ;; mret e
         else modify lock (set_type F_WRLCK) ;; mret 0
       else mret 0);
  if negb (e =? 0) then mret (SLReturn e)
  else
    modify lock (set_next (Some block)) ;;
    modify block (λ b, set_blkhd (lf_blkhd b ++ [lock]) b) ;;
    l ← deref lock;
    (if negb (tst (lf_flags l) F_FLOCK)
     then modify block (λ b, set_flags (Z.land (lf_flags b) (Z.lnot F_WAKE1_SAFE)) b)
     else mret ()) ;;
    b ← deref block;
    (if tst (Z.land (lf_flags l) (lf_flags b)) F_POSIX
     then lf_boost_blocking_proc lock block
     else if tst (Z.land (lf_flags l) (lf_flags b)) F_OFD_LOCK
             && negb (bool_decide (lf_owner l = lf_owner b))
             && (bool_decide (is_Some (lf_owner l)) && bool_decide (is_Some (lf_owner b)))
     then lf_boost_blocking_proc lock block
     else mret ()) ;;
    mret SLSleep.

(** From [scan:] to the grant or to a sleep. *)
Definition lf_setlock (lock : ptr) : M setlock_out :=
  block ← lf_getblock lock (-1);
  match block with
  | None => e ← lf_setlock_grant lock; mret (SLReturn e)
  | Some block =>
      l ← deref lock;
      if negb (tst (lf_flags l) F_WAIT) then
        kheap_free lock ;; mret (SLReturn EAGAIN)
      else
        d ← deadlock_check lock block;
        match d with
        | DLPause => mret SLPause
        | DLDeadlock => kheap_free lock ;; mret (SLReturn EDEADLK)
        | DLNone => lf_setlock_block lock block
        end
  end.

(** After [msleep] returned [error]: leave the queue when woken early, hand
    over waiters gathered meanwhile, then give up or scan again. *)
Definition lf_setlock_resume (lock : ptr) (error : Z) : M setlock_out :=
  l ← deref lock;
  let error := if (error =? 0) && tst (lf_flags l) F_ABORT then EBADF else error in
  early ← match lf_next l with
          | Some b =>
              bl ← deref b;
              (if bool_decide (lock ∈ lf_blkhd bl)
               then modify b (λ b, set_blkhd (filter (λ x, x ≠ lock) (lf_blkhd b)) b)
               else fault) ;;
              lf_adjust_assertion b ;;
              modify lock (set_next None) ;;
              mret (error =? 0)
          | None => mret false
          end;
  if early : bool then lf_setlock lock
  else
    l ← deref lock;
    (match lf_blkhd l with
     | [] => mret ()
     | _ => block ← lf_getblock lock (-1);
            match block with Some b => lf_move_blocked b lock | None => mret () end
     end) ;;
    if negb (error =? 0) then
      l ← deref lock;
      (match lf_blkhd l with [] => mret () | _ => lf_wakelock lock true end) ;;
      kheap_free lock ;;
      mret (SLReturn (if error =? EWOULDBLOCK then ETIMEDOUT else error))
    else lf_setlock lock.

(** ** Entry points *)

(** Mark every request blocked on the first lock of the vnode as aborted and
    wake them all. *)
Definition lf_abort_advlocks (vp : vnode) : M () :=
  lock ← read_ref (RHead vp);
  match lock with
  | None => mret ()
  | Some lock =>
      l ← deref lock;
      match lf_blkhd l with
      | [] => mret ()
      | blk =>
          for_each blk (λ t, modify t (λ r, set_flags (Z.lor (lf_flags r) F_ABORT) r)) ;;
          lf_wakelock lock true
      end
  end.

(** The range of a [struct flock]: the error, or the start and end computed
    with 64-bit signed arithmetic.  [size] is what [vnode_size] answers. *)
Definition flock_range (fl : flock) (size : Z + Z) : Z + (Z * Z) :=
  let with_start (start : Z) :=
    if start <? 0 then inl EINVAL
    else if l_len fl <? 0 then
      if start =? 0 then inl EINVAL
      else let end_ := s64 (start - 1) in
           let start := s64 (start + l_len fl) in
           if start <? 0 then inl EINVAL else inr (start, end_)
    else if l_len fl =? 0 then inr (start, -1)
    else let oadd := s64 (l_len fl - 1) in
         if oadd >? s64 (OFF_MAX - start) then inl EOVERFLOW
         else inr (start, s64 (start + oadd)) in
  if (l_whence fl =? SEEK_SET) || (l_whence fl =? SEEK_CUR) then with_start (l_start fl)
  else if l_whence fl =? SEEK_END then
    match size with
    | inl error => inl error
    | inr size =>
        if (size >? OFF_MAX)
           || ((l_start fl >? 0) && (size >? u64 (OFF_MAX - l_start fl)))
        then inl EOVERFLOW
        else with_start (s64 (size + l_start fl))
    end
  else inl EINVAL.

Definition advlock_lock (fl : flock) (range : Z * Z) (vp : vnode) (id : positive) (flags : Z)
  : lockf :=
  Lockf (if tst flags F_FLOCK then Z.lor flags F_WAKE1_SAFE else flags)
    (l_type fl) false range.1 range.2 id vp vp None []
    (if tst flags F_POSIX then Some id else None).

Definition lf_advlock (vp : vnode) (id : positive) (op : Z) (fl : flock) (flags : Z)
    (size : Z + Z) (current_proc : proc) : M (setlock_out * flock) :=
  head ← read_ref (RHead vp);
  if bool_decide (head = None) && negb (op =? F_SETLK) then
    mret (SLReturn 0, Flock (l_start fl) (l_len fl) (l_pid fl) F_UNLCK (l_whence fl))
  else match flock_range fl size with
  | inl error => mret (SLReturn error, fl)
  | inr range =>
      lock ← kheap_alloc (advlock_lock fl range vp id flags);
      match lock with
      | None => mret (SLReturn ENOLCK, fl)
      | Some lock =>
          if op =? F_SETLK then
            (if tst flags F_OFD_LOCK && fg_confined env id
             then modify lock (set_owner (Some current_proc)) else mret ()) ;;
            r ← lf_setlock lock; mret (r, fl)
          else if op =? F_UNLCK then
            e ← lf_clearlock lock; kheap_free lock ;; mret (SLReturn e, fl)
          else if op =? F_GETLK then
            r ← lf_getlock lock fl (-1); kheap_free lock ;; mret (SLReturn r.1, r.2)
          else if op =? F_GETLKPID then
            r ← lf_getlock lock fl (l_pid fl); kheap_free lock ;; mret (SLReturn r.1, r.2)
          else kheap_free lock ;; mret (SLReturn EINVAL, fl)
      end
  end.

End lockf.
