(* ===== verification/LockfHeap.v ===== *)
(** * Reasoning about the lock store

    List segments through [lf_next], the invariant of the blocked queues, and
    a specification of every primitive access and queue operation of
    [Lockf]. *)

From S2P Require Import Prelude Lockf.

(** ** Primitives *)

Lemma wp_deref p (Q : lockf → kst → Prop) s r :
  heap s !! p = Some r → Q r s → wp (deref p) Q s.
Proof. intros Hp HQ. unfold wp, deref. by rewrite Hp. Qed.

Lemma wp_modify p f (Q : () → kst → Prop) s r :
  heap s !! p = Some r → Q () (set_heap (<[p := f r]> (heap s)) s) → wp (modify p f) Q s.
Proof. intros Hp HQ. unfold wp, modify. by rewrite Hp. Qed.

Lemma wp_free p (Q : () → kst → Prop) s r :
  heap s !! p = Some r → Q () (set_heap (delete p (heap s)) s) → wp (kheap_free p) Q s.
Proof. intros Hp HQ. unfold wp, kheap_free. by rewrite Hp. Qed.

Lemma wp_emit e (Q : () → kst → Prop) s : Q () (add_event e s) → wp (emit e) Q s.
Proof. done. Qed.

Lemma wp_list_fuel (Q : nat → kst → Prop) s :
  Q (S (size (heap s))) s → wp list_fuel Q s.
Proof. done. Qed.

(** ** List segments *)

(** What a lock is, apart from its links. *)
Definition core (r : lockf) : lockf := set_next None (set_blkhd [] r).

Abbreviation lks := (list (ptr * lockf)).

(** From [p], [lf_next] leads through the locks of [L] to [q]. *)
Fixpoint seg (h : gmap ptr lockf) (p : option ptr) (L : lks) (q : option ptr) : Prop :=
  match L with
  | [] => p = q
  | (x, c) :: L' =>
      p = Some x ∧ ∃ r, h !! x = Some r ∧ core r = c ∧ seg h (lf_next r) L' q
  end.

Definition path (s : kst) (v : vnode) (L : lks) (q : option ptr) : Prop :=
  seg (heap s) (v_lockf s !! v) L q.

(** The [struct lockf **] that ends a list segment. *)
Definition ref_of (v : vnode) (L : lks) : lref :=
  match last L with Some (x, _) => RNext x | None => RHead v end.

Definition first (L : lks) (q : option ptr) : option ptr :=
  match L with [] => q | (x, _) :: _ => Some x end.

Lemma seg_first h p L q : seg h p L q → p = first L q.
Proof. destruct L as [|[x c] L]; simpl; [done |]. by intros [-> _]. Qed.

Lemma seg_app h p L1 L2 q :
  seg h p (L1 ++ L2) q ↔ seg h p L1 (first L2 q) ∧ seg h (first L2 q) L2 q.
Proof.
  revert p. induction L1 as [|[x c] L1 IH]; intros p; simpl.
  - split; [| by intros [-> ?]]. intros H. pose proof (seg_first _ _ _ _ H). by subst.
  - split.
    + intros (-> & r & Hr & Hc & H). apply IH in H. destruct H. eauto 10.
    + intros [(-> & r & Hr & Hc & H) H']. split; [done |]. exists r. split_and!; try done.
      by apply IH.
Qed.

(** A segment depends on the links and contents of its own locks only. *)
Definition same_lk (h h' : gmap ptr lockf) (x : ptr) : Prop :=
  set_blkhd [] <$> h' !! x = set_blkhd [] <$> h !! x.

Lemma same_lk_refl h x : same_lk h h x.
Proof. done. Qed.

Lemma same_lk_lookup h h' x r :
  same_lk h h' x → h !! x = Some r →
  ∃ r', h' !! x = Some r' ∧ core r' = core r ∧ lf_next r' = lf_next r.
Proof.
  unfold same_lk. intros Hs Hr. rewrite Hr in Hs. simpl in Hs.
  destruct (h' !! x) as [r'|]; [| done]. simpl in Hs.
  assert (E : set_blkhd [] r' = set_blkhd [] r) by congruence.
  exists r'. split; [done |]. unfold core. rewrite E. split; [done |].
  change (lf_next (set_blkhd [] r') = lf_next (set_blkhd [] r)). by rewrite E.
Qed.

Lemma seg_frame h h' p L q :
  (∀ x, x ∈ L.*1 → same_lk h h' x) → seg h p L q → seg h' p L q.
Proof.
  revert p. induction L as [|[x c] L IH]; intros p Hs; simpl; [done |].
  intros (-> & r & Hr & Hc & H).
  destruct (same_lk_lookup h h' x r) as (r' & Hr' & Hc' & Hn'); [apply Hs; set_solver | done |].
  split; [done |]. exists r'. split; [done |]. split; [congruence |].
  rewrite Hn'. apply IH; [| done]. intros y Hy. apply Hs. set_solver.
Qed.

Lemma seg_lookup h p L q x c :
  seg h p L q → (x, c) ∈ L → ∃ r, h !! x = Some r ∧ core r = c.
Proof.
  revert p. induction L as [|[y d] L IH]; intros p; simpl; [set_solver |].
  intros (-> & r & Hr & Hc & H). rewrite elem_of_cons. intros [[= -> ->]|Hin]; eauto.
Qed.

Lemma core_proj r c :
  core r = c →
  lf_flags r = lf_flags c ∧ lf_type r = lf_type c ∧ lf_boosted r = lf_boosted c ∧
  lf_start r = lf_start c ∧ lf_end r = lf_end c ∧ lf_id r = lf_id c ∧
  lf_head r = lf_head c ∧ lf_vnode r = lf_vnode c ∧ lf_owner r = lf_owner c.
Proof. by intros <-. Qed.

Lemma same_lk_insert_ne h x y r : x ≠ y → same_lk h (<[x := r]> h) y.
Proof. intros Hne. unfold same_lk. by rewrite lookup_insert_ne. Qed.

Lemma same_lk_delete_ne h x y : x ≠ y → same_lk h (delete x h) y.
Proof. intros Hne. unfold same_lk. by rewrite lookup_delete_ne. Qed.

(** The last link of a segment redirected. *)
Lemma seg_set_last h p L x c r m v :
  seg h p (L ++ [(x, c)]) m → NoDup ((L ++ [(x, c)]).*1) → h !! x = Some r →
  seg (<[x := set_next v r]> h) p (L ++ [(x, c)]) v.
Proof.
  intros H Hnd Hr. rewrite fmap_app in Hnd. apply NoDup_app in Hnd as (_ & Hnd & _).
  apply seg_app in H as [H1 H2]. apply seg_app. split.
  - simpl in *. eapply seg_frame; [| exact H1]. intros y Hy.
    apply same_lk_insert_ne. intros ->. specialize (Hnd y Hy). set_solver.
  - simpl in *. destruct H2 as (_ & r' & Hr' & Hc & _). split; [done |].
    exists (set_next v r). rewrite lookup_insert_eq. split; [done |].
    split; [| done]. change (core r = c). congruence.
Qed.

(** ** Blocked queues *)

Definition blocked (h : gmap ptr lockf) (q : ptr) : Prop :=
  ∃ p r, h !! p = Some r ∧ q ∈ lf_blkhd r.

(** Every queued request points back to the lock whose queue it is in. *)
Definition BI (h : gmap ptr lockf) : Prop :=
  ∀ p r, h !! p = Some r →
    NoDup (lf_blkhd r) ∧
    ∀ q, q ∈ lf_blkhd r → ∃ rq, h !! q = Some rq ∧ lf_next rq = Some p.

Lemma BI_unique h q p1 r1 p2 r2 :
  BI h → h !! p1 = Some r1 → h !! p2 = Some r2 →
  q ∈ lf_blkhd r1 → q ∈ lf_blkhd r2 → p1 = p2.
Proof.
  intros HB H1 H2 Hq1 Hq2.
  destruct (proj2 (HB _ _ H1) _ Hq1) as (rq & Hq & Hn).
  destruct (proj2 (HB _ _ H2) _ Hq2) as (rq' & Hq' & Hn'). congruence.
Qed.

(** How a critical section changes the state: the rest of the store keeps its
    locks, queues stay consistent, and a request that was queued is still
    queued or has been woken. *)
Record evolves (F : list ptr) (v : vnode) (s s' : kst) : Prop := {
  ev_events : ∃ evs, events s' = events s ++ evs ∧
    ∀ q, blocked (heap s) q → blocked (heap s') q ∨ EvWakeup q ∈ evs;
  ev_heads : ∀ v', v' ≠ v → v_lockf s' !! v' = v_lockf s !! v';
  ev_frame : ∀ x, x ∉ F → x ∈ dom (heap s) → ¬ blocked (heap s) x →
    same_lk (heap s) (heap s') x;
  ev_dom : ∀ x, x ∉ F → x ∈ dom (heap s) → x ∈ dom (heap s');
  ev_BI : BI (heap s) → BI (heap s');
  ev_unb : ∀ x, blocked (heap s') x → blocked (heap s) x;
  ev_nomem : nomem s' = nomem s;
  ev_uth : p_uthlist s' = p_uthlist s;
}.

Lemma same_lk_dom h h' x : same_lk h h' x → x ∈ dom h → x ∈ dom h'.
Proof.
  rewrite !elem_of_dom. intros Hs [r Hr].
  destruct (same_lk_lookup _ _ _ _ Hs Hr) as (r' & ? & _). eauto.
Qed.

Lemma same_lk_trans h1 h2 h3 x : same_lk h1 h2 x → same_lk h2 h3 x → same_lk h1 h3 x.
Proof. unfold same_lk. congruence. Qed.

Lemma evolves_refl F v s : evolves F v s s.
Proof. split; try done. exists []. rewrite app_nil_r. auto. Qed.

Lemma evolves_trans F F' v s1 s2 s3 :
  evolves F v s1 s2 → evolves F' v s2 s3 →
  (∀ x, x ∈ F' → x ∈ F ∨ x ∉ dom (heap s1)) → evolves F v s1 s3.
Proof.
  intros E1 E2 HF. destruct E1 as [(ev1 & He1 & Hw1) H2 H3 Hd1 H4 H5 H6 H7].
  destruct E2 as [(ev2 & He2 & Hw2) K2 K3 Hd2 K4 K5 K6 K7].
  split; [| | | | by auto.. | congruence | congruence].
  - exists (ev1 ++ ev2). rewrite He2, He1, app_assoc. split; [done |].
    intros q Hq. destruct (Hw1 q Hq) as [Hq'|Hq']; [| set_solver].
    destruct (Hw2 q Hq') as [?|?]; set_solver.
  - intros v' Hv. rewrite K2, H2; done.
  - intros x Hx Hd Hb. pose proof (H3 x Hx Hd Hb) as Hs.
    eapply same_lk_trans; [done |].
    apply K3; [| by eapply same_lk_dom | auto]. intros Hx'. destruct (HF x Hx'); done.
  - intros x Hx Hd. apply Hd2; [| by apply Hd1]. intros Hx'. destruct (HF x Hx'); done.
Qed.

Lemma evolves_weaken F F' v s s' :
  evolves F v s s' → (∀ x, x ∈ F → x ∈ F' ∨ x ∉ dom (heap s)) → evolves F' v s s'.
Proof.
  intros E HF. apply (evolves_trans F' F v s s s'); [apply evolves_refl | done..].
Qed.

(** A change that touches no queue and no link of a queued request. *)
Lemma evolves_struct F v s s' :
  events s' = events s → (∀ v', v' ≠ v → v_lockf s' !! v' = v_lockf s !! v') →
  nomem s' = nomem s → p_uthlist s' = p_uthlist s →
  (∀ x, x ∉ F → same_lk (heap s) (heap s') x) →
  (∀ p r', heap s' !! p = Some r' → lf_blkhd r' ≠ [] →
     ∃ r, heap s !! p = Some r ∧ lf_blkhd r = lf_blkhd r') →
  (∀ p r, heap s !! p = Some r → lf_blkhd r ≠ [] →
     ∃ r', heap s' !! p = Some r' ∧ lf_blkhd r' = lf_blkhd r) →
  (∀ x, blocked (heap s) x → same_lk (heap s) (heap s') x ∨
     lf_next <$> heap s' !! x = lf_next <$> heap s !! x) →
  evolves F v s s'.
Proof.
  intros He Hv Hm Hu Hf Hq1 Hq2 Hn.
  assert (Hb1 : ∀ q, blocked (heap s') q → blocked (heap s) q).
  { intros q (p & r' & Hp & Hq). destruct (Hq1 p r' Hp) as (r & Hr & Hb); [by intros E; rewrite E in Hq; set_solver |].
    exists p, r. split; [done |]. congruence. }
  split; try done; [| auto | |].
  - exists []. rewrite app_nil_r. split; [done |]. intros q (p & r & Hp & Hq). left.
    destruct (Hq2 p r Hp) as (r' & Hr' & Hb); [by intros E; rewrite E in Hq; set_solver |].
    exists p, r'. split; [done |]. congruence.
  - intros x Hx. by apply same_lk_dom, Hf.
  - intros HB p r' Hp. destruct (decide (lf_blkhd r' = [])) as [E|E].
    { rewrite E. split; [constructor | set_solver]. }
    destruct (Hq1 p r' Hp E) as (r & Hr & Hb). rewrite <- Hb.
    destruct (HB p r Hr) as [Hnd Hback]. split; [done |].
    intros q Hq. destruct (Hback q Hq) as (rq & Hrq & Hnx).
    destruct (Hn q) as [Hs|Hs]; [by exists p, r | |].
    + destruct (same_lk_lookup _ _ _ _ Hs Hrq) as (rq' & ? & _ & ?). exists rq'. split; [done | congruence].
    + rewrite Hrq in Hs. destruct (heap s' !! q) as [rq'|]; simpl in Hs; [| done].
      exists rq'. split; [done | congruence].
Qed.

(** Changing a lock that is not queued, its queue kept. *)
Lemma evolves_modify v s x r r' :
  heap s !! x = Some r → lf_blkhd r' = lf_blkhd r →
  (¬ blocked (heap s) x ∨ lf_next r' = lf_next r) →
  evolves [x] v s (set_heap (<[x := r']> (heap s)) s).
Proof.
  intros Hx Hb Hn. apply evolves_struct; try done; simpl.
  - intros y Hy. apply same_lk_insert_ne. set_solver.
  - intros p q Hp Hne. destruct (decide (x = p)) as [->|].
    + rewrite lookup_insert_eq in Hp. simplify_eq. eauto.
    + rewrite lookup_insert_ne in Hp by done. eauto.
  - intros p q Hp Hne. destruct (decide (x = p)) as [->|].
    + rewrite lookup_insert_eq. simplify_eq. eauto.
    + rewrite lookup_insert_ne by done. eauto.
  - intros y Hy. destruct (decide (x = y)) as [->|]; [| left; by apply same_lk_insert_ne].
    right. rewrite lookup_insert_eq, Hx. simpl. destruct Hn; [done | congruence].
Qed.

Lemma evolves_free v s x r :
  heap s !! x = Some r → lf_blkhd r = [] → ¬ blocked (heap s) x →
  evolves [x] v s (set_heap (delete x (heap s)) s).
Proof.
  intros Hx Hb Hn. apply evolves_struct; try done; simpl.
  - intros y Hy. apply same_lk_delete_ne. set_solver.
  - intros p q Hp Hne. apply lookup_delete_Some in Hp as [? ?]. eauto.
  - intros p q Hp Hne. exists q. split; [| done]. apply lookup_delete_Some.
    split; [congruence | done].
  - intros y Hy. left. apply same_lk_delete_ne. congruence.
Qed.

Lemma evolves_alloc v s x r :
  heap s !! x = None → lf_blkhd r = [] → BI (heap s) →
  evolves [x] v s (set_heap (<[x := r]> (heap s)) s).
Proof.
  intros Hx Hb HB. apply evolves_struct; try done; simpl.
  - intros y Hy. apply same_lk_insert_ne. set_solver.
  - intros p q Hp Hne. destruct (decide (x = p)) as [->|].
    + rewrite lookup_insert_eq in Hp. congruence.
    + rewrite lookup_insert_ne in Hp by done. eauto.
  - intros p q Hp Hne. rewrite lookup_insert_ne by congruence. eauto.
  - intros y (p & rp & Hp & Hq). left. apply same_lk_insert_ne.
    destruct (proj2 (HB _ _ Hp) _ Hq) as (? & ? & _). congruence.
Qed.

(** ** Moving and waking requests *)

Definition set_nexts (l : list ptr) (v : option ptr) (h : gmap ptr lockf) : gmap ptr lockf :=
  map_imap (λ x r, Some (if decide (x ∈ l) then set_next v r else r)) h.

Lemma lookup_set_nexts l v h x :
  set_nexts l v h !! x = (λ r, if decide (x ∈ l) then set_next v r else r) <$> h !! x.
Proof. unfold set_nexts. rewrite map_lookup_imap. by destruct (h !! x). Qed.

Lemma set_nexts_nil v h : set_nexts [] v h = h.
Proof.
  apply map_eq. intros x. rewrite lookup_set_nexts.
  by destruct (h !! x).
Qed.

Lemma set_nexts_cons x l v h r :
  h !! x = Some r → set_nexts (x :: l) v h = set_nexts l v (<[x := set_next v r]> h).
Proof.
  intros Hx. apply map_eq. intros y. rewrite !lookup_set_nexts.
  destruct (decide (x = y)) as [<-|Hne].
  - rewrite lookup_insert_eq, Hx. simpl. rewrite decide_True by set_solver.
    by case_decide.
  - rewrite lookup_insert_ne by done. destruct (h !! y); simpl; [| done].
    destruct (decide (y ∈ l)); [rewrite decide_True by set_solver | rewrite decide_False by set_solver]; done.
Qed.

Lemma set_blkhd_id B r : lf_blkhd r = B → set_blkhd B r = r.
Proof. destruct r; simpl. by intros ->. Qed.

Lemma set_heap_set_heap h h' s : set_heap h (set_heap h' s) = set_heap h s.
Proof. done. Qed.

Lemma set_heap_id s : set_heap (heap s) s = s.
Proof. by destruct s. Qed.

Lemma wp_for_each_next l v (Q : () → kst → Prop) s :
  (∀ x, x ∈ l → x ∈ dom (heap s)) →
  Q () (set_heap (set_nexts l v (heap s)) s) →
  wp (for_each l (λ x, modify x (set_next v))) Q s.
Proof.
  revert s. induction l as [|x l IH]; intros s Hd HQ; simpl for_each.
  - apply wp_ret. by rewrite set_nexts_nil, set_heap_id in HQ.
  - assert (Hx : x ∈ dom (heap s)) by (apply Hd; set_solver).
    apply elem_of_dom in Hx as [r Hr].
    apply wp_bind. eapply wp_modify; [done |]. apply IH.
    + intros y Hy. simpl. apply dom_insert, elem_of_union_r, Hd. set_solver.
    + by rewrite (set_nexts_cons x l v _ r Hr) in HQ.
Qed.

Lemma wp_retarget l w (Q : () → kst → Prop) s :
  (∀ x, x ∈ l → x ∈ dom (heap s)) → NoDup l →
  Q () (set_heap (set_nexts l (Some w) (heap s)) s) →
  wp (retarget l w) Q s.
Proof.
  revert s. induction l as [|x l IH]; intros s Hd Hnd HQ; simpl retarget.
  - apply wp_ret. by rewrite set_nexts_nil, set_heap_id in HQ.
  - assert (Hx : x ∈ dom (heap s)) by (apply Hd; set_solver).
    apply elem_of_dom in Hx as [r Hr]. inv Hnd.
    rewrite bool_decide_eq_false_2.
    2: { destruct l as [|y l]; [done |]. simpl. intros [= ->]. set_solver. }
    apply wp_bind. eapply wp_modify; [done |]. apply IH; [| done |].
    + intros y Hy. simpl. apply dom_insert, elem_of_union_r, Hd. set_solver.
    + by rewrite (set_nexts_cons x l _ _ r Hr) in HQ.
Qed.

(** The store after the queue [B] of [p] was emptied and its requests given
    the link [v]. *)
Definition drained (p : ptr) (r : lockf) (B : list ptr) (v : option ptr)
    (h : gmap ptr lockf) : gmap ptr lockf :=
  <[p := set_blkhd [] r]> (set_nexts B v h).

Lemma lookup_drained p r B v h x :
  drained p r B v h !! x =
  if decide (x = p) then Some (set_blkhd [] r)
  else (λ r, if decide (x ∈ B) then set_next v r else r) <$> h !! x.
Proof.
  unfold drained. case_decide.
  - subst. by rewrite lookup_insert_eq.
  - by rewrite lookup_insert_ne, lookup_set_nexts by done.
Qed.

Lemma wakelock_loop_all n p s r B (Q : () → kst → Prop) :
  heap s !! p = Some r → lf_blkhd r = B → (length B < n)%nat → p ∉ B → NoDup B →
  (∀ x, x ∈ B → x ∈ dom (heap s)) →
  Q () (Kst (drained p r B None (heap s)) (v_lockf s) (events s ++ (EvWakeup <$> B))
          (p_uthlist s) (nomem s)) →
  wp (wakelock_loop n p true) Q s.
Proof.
  revert s r B. induction n as [|n IH]; intros s r B Hp HB Hn HpB Hnd Hd HQ; [lia |].
  cbn [wakelock_loop]. apply wp_bind. eapply wp_deref; [done |]. rewrite HB.
  destruct B as [|w B].
  { apply wp_ret. unfold drained in HQ. rewrite set_nexts_nil, app_nil_r in HQ.
    rewrite set_blkhd_id in HQ by done.
    rewrite insert_id in HQ by done. by destruct s. }
  assert (Hw : w ∈ dom (heap s)) by (apply Hd; set_solver).
  apply elem_of_dom in Hw as [rw Hrw]. inv Hnd.
  assert (p ≠ w) by set_solver.
  apply wp_bind. eapply wp_modify; [done |].
  apply wp_bind. eapply wp_modify; [simpl; by rewrite lookup_insert_ne |].
  apply wp_bind, wp_ret. apply wp_bind, wp_emit. simpl.
  eapply (IH _ (set_blkhd B r) B); simpl.
  - rewrite lookup_insert_ne by done. by rewrite lookup_insert_eq.
  - done.
  - simpl in Hn. lia.
  - set_solver.
  - done.
  - intros x Hx. rewrite !dom_insert. apply elem_of_union_r, elem_of_union_r, Hd. set_solver.
  - clear IH. rewrite <- app_assoc. simpl.
    match goal with |- Q () (Kst ?h _ _ _ _) =>
      replace h with (drained p r (w :: B) None (heap s)); [done |] end.
    apply map_eq. intros x. rewrite !lookup_drained. case_decide; [done |].
    destruct (decide (w = x)) as [<-|].
    + rewrite lookup_insert_eq, Hrw. simpl. rewrite decide_True by set_solver.
      by case_decide.
    + rewrite !lookup_insert_ne by done. destruct (heap s !! x); simpl; [| done].
      destruct (decide (x ∈ B)); [rewrite decide_True by set_solver | rewrite decide_False by set_solver]; done.
Qed.

Lemma BI_in_dom h p r q : BI h → h !! p = Some r → q ∈ lf_blkhd r → q ∈ dom h.
Proof.
  intros HB Hp Hq. destruct (proj2 (HB p r Hp) q Hq) as (rq & Hrq & _).
  apply elem_of_dom. eauto.
Qed.

Section wake.
Context (v : vnode) (s : kst) (p : ptr) (r : lockf).
Context (HB : BI (heap s)) (Hp : heap s !! p = Some r) (Hup : ¬ blocked (heap s) p).

Lemma queue_not_self : p ∉ lf_blkhd r.
Proof. intros Hin. apply Hup. by exists p, r. Qed.

Lemma same_lk_drained B nx x :
  x ∉ B → same_lk (heap s) (drained p r B nx (heap s)) x.
Proof.
  intros Hx. unfold same_lk. rewrite lookup_drained. case_decide as E.
  - subst x. by rewrite Hp.
  - destruct (heap s !! x); simpl; [| done]. by rewrite decide_False.
Qed.

Lemma evolves_wake_all :
  evolves [] v s
    (Kst (drained p r (lf_blkhd r) None (heap s)) (v_lockf s)
       (events s ++ (EvWakeup <$> lf_blkhd r)) (p_uthlist s) (nomem s)).
Proof.
  pose proof queue_not_self as Hself.
  assert (Hunb : ∀ q x rx, drained p r (lf_blkhd r) None (heap s) !! x = Some rx →
     q ∈ lf_blkhd rx → x ≠ p ∧ ∃ rx', heap s !! x = Some rx' ∧ lf_blkhd rx' = lf_blkhd rx).
  { intros q x rx Hx Hq. rewrite lookup_drained in Hx. case_decide as E.
    - simplify_eq. simpl in Hq. set_solver.
    - split; [done |]. apply fmap_Some in Hx as (rx' & Hx & ->). exists rx'.
      split; [done |]. by case_decide. }
  split; try done; simpl.
  - eexists. split; [done |]. intros q (x & rx & Hx & Hq).
    destruct (decide (x = p)) as [->|Hne].
    + right. simplify_eq. apply list_elem_of_fmap. eauto.
    + left. eexists x, _. rewrite lookup_drained, decide_False, Hx by done. simpl.
      split; [done |]. by case_decide.
  - intros x _ Hd Hb. apply same_lk_drained. intros Hin. apply Hb. by exists p, r.
  - intros x _ [rx Hx]%elem_of_dom. apply elem_of_dom. rewrite lookup_drained, Hx.
    case_decide; by eexists.
  - intros _ x rx Hx. rewrite lookup_drained in Hx. case_decide as E.
    { simplify_eq. simpl. split; [constructor | set_solver]. }
    apply fmap_Some in Hx as (rx' & Hx & ->).
    destruct (HB x rx' Hx) as [Hnd Hback].
    replace (lf_blkhd (if decide (x ∈ lf_blkhd r) then set_next None rx' else rx'))
      with (lf_blkhd rx') by (by case_decide).
    split; [done |]. intros q Hq. destruct (Hback q Hq) as (rq & Hrq & Hn).
    assert (q ∉ lf_blkhd r).
    { intros Hin. apply E. by eapply (BI_unique _ q x rx' p r). }
    destruct (decide (q = p)) as [->|].
    + eexists. rewrite lookup_drained, decide_True by done. split; [done |]. simpl. congruence.
    + exists rq. rewrite lookup_drained, decide_False, Hrq by done. simpl.
      by rewrite decide_False.
  - intros q (x & rx & Hx & Hq). destruct (Hunb q x rx Hx Hq) as (_ & rx' & ? & Heq).
    exists x, rx'. split; [done |]. by rewrite Heq.
Qed.

Context (w : ptr) (rest : list ptr) (rw : lockf).
Context (Hq : lf_blkhd r = w :: rest) (Hw : heap s !! w = Some rw).

(** The store after one request was woken and took over the queue. *)
Definition woken1 : gmap ptr lockf :=
  set_nexts (lf_blkhd rw ++ rest) (Some w)
    (<[p := set_blkhd [] r]>
       (<[w := set_blkhd (lf_blkhd rw ++ rest) (set_next None rw)]> (heap s))).

Lemma wake1_facts :
  p ≠ w ∧ w ∉ lf_blkhd rw ++ rest ∧ p ∉ lf_blkhd rw ++ rest ∧ NoDup (lf_blkhd rw ++ rest)
  ∧ lf_next rw = Some p.
Proof.
  pose proof queue_not_self as Hself. rewrite Hq in Hself.
  destruct (HB p r Hp) as [Hnd Hback]. rewrite Hq in Hnd, Hback. inv Hnd.
  destruct (HB w rw Hw) as [Hndw Hbackw].
  assert (Hwn : lf_next rw = Some p).
  { destruct (Hback w) as (? & ? & ?); [set_solver |]. congruence. }
  assert (Hpw : p ≠ w) by set_solver.
  assert (Hd : ∀ q, q ∈ lf_blkhd rw → q ∉ rest).
  { intros q Hq1 Hq2. apply Hpw. symmetry. eapply (BI_unique _ q w rw p r); [done.. |].
    rewrite Hq. set_solver. }
  split; [done |]. split.
  { rewrite elem_of_app. intros [Hin|Hin]; [| done].
    destruct (Hbackw w Hin) as (? & ? & ?). congruence. }
  split.
  { rewrite elem_of_app. intros [Hin|Hin]; [| set_solver].
    apply Hup. by exists w, rw. }
  split; [| done]. apply NoDup_app. split_and!; try done.
Qed.

Lemma lookup_woken1 x :
  woken1 !! x =
  if decide (x = p) then Some (set_blkhd [] r)
  else if decide (x = w) then Some (set_blkhd (lf_blkhd rw ++ rest) (set_next None rw))
  else (λ r, if decide (x ∈ lf_blkhd rw ++ rest) then set_next (Some w) r else r) <$> heap s !! x.
Proof.
  destruct wake1_facts as (Hpw & Hwn & Hpn & _). unfold woken1. rewrite lookup_set_nexts.
  repeat case_decide; subst; simplify_map_eq; rewrite ?decide_False by done; done.
Qed.

Lemma evolves_wake1 :
  evolves [] v s
    (Kst woken1 (v_lockf s) (events s ++ [EvWakeup w]) (p_uthlist s) (nomem s)).
Proof.
  destruct wake1_facts as (Hpw & Hwn & Hpn & Hnd & Hnw).
  split; try done; simpl.
  - eexists. split; [done |]. intros q (x & rx & Hx & Hqx).
    destruct (decide (q = w)) as [->|Hqw]; [right; set_solver | left].
    destruct (decide (x = p)) as [->|Hxp].
    { simplify_eq. rewrite Hq in Hqx. eexists w, _. rewrite lookup_woken1.
      rewrite decide_False, decide_True by done. split; [done |]. simpl. set_solver. }
    destruct (decide (x = w)) as [->|Hxw].
    { simplify_eq. eexists w, _. rewrite lookup_woken1.
      rewrite decide_False, decide_True by done. split; [done |]. simpl. set_solver. }
    eexists x, _. rewrite lookup_woken1, !decide_False, Hx by done. simpl.
    split; [done |]. by case_decide.
  - intros x _ Hd Hb. unfold same_lk. rewrite lookup_woken1.
    case_decide; [subst; by rewrite Hp |].
    case_decide as E; [subst; destruct Hb; exists p, r; rewrite Hq; set_solver |].
    destruct (heap s !! x) as [rx|] eqn:Hx; simpl; [| done].
    case_decide as E2; [| done]. destruct Hb.
    apply elem_of_app in E2 as [?|?]; [by exists w, rw |]. exists p, r. rewrite Hq. set_solver.
  - intros x _ [rx Hx]%elem_of_dom. apply elem_of_dom. rewrite lookup_woken1, Hx.
    repeat case_decide; by eexists.
  - intros _ x rx Hx. rewrite lookup_woken1 in Hx.
    assert (Hother : ∀ q rq, q ≠ w → q ≠ p → heap s !! q = Some rq →
       q ∈ lf_blkhd rw ++ rest → ∃ rq', woken1 !! q = Some rq' ∧ lf_next rq' = Some w).
    { intros q rq ? ? Hrq Hin. eexists. rewrite lookup_woken1, !decide_False, Hrq by done.
      simpl. rewrite decide_True by done. split; done. }
    case_decide as E1; [| case_decide as E2].
    + simplify_eq. simpl. split; [constructor | set_solver].
    + simplify_eq. simpl. split; [done |]. intros q Hin.
      assert (Hqd : q ∈ dom (heap s)).
      { apply elem_of_app in Hin as [?|?]; [by eapply (BI_in_dom _ w rw) |].
        eapply (BI_in_dom _ p r); [done.. |]. rewrite Hq. set_solver. }
      apply elem_of_dom in Hqd as [rq Hrq]. eapply Hother; try done; congruence.
    + apply fmap_Some in Hx as (rx' & Hx & ->).
      replace (lf_blkhd (if decide (x ∈ lf_blkhd rw ++ rest) then set_next (Some w) rx' else rx'))
        with (lf_blkhd rx') by (by case_decide).
      destruct (HB x rx' Hx) as [Hndx Hback]. split; [done |].
      intros q Hqx. destruct (Hback q Hqx) as (rq & Hrq & Hnx).
      assert (q ≠ w) by congruence.
      assert (q ∉ lf_blkhd rw ++ rest).
      { rewrite elem_of_app. intros [Hin|Hin].
        - apply E2. by eapply (BI_unique _ q x rx' w rw).
        - apply E1. eapply (BI_unique _ q x rx' p r); [done.. |]. rewrite Hq. set_solver. }
      destruct (decide (q = p)) as [->|].
      * eexists. rewrite lookup_woken1, decide_True by done. split; [done |]. simpl. congruence.
      * exists rq. rewrite lookup_woken1, !decide_False, Hrq by done. simpl. by rewrite decide_False.
  - intros q (x & rx & Hx & Hqx). rewrite lookup_woken1 in Hx.
    case_decide as E1; [simplify_eq; simpl in Hqx; set_solver |]. case_decide as E2.
    + simplify_eq. simpl in Hqx. apply elem_of_app in Hqx as [?|?]; [by exists w, rw |].
      exists p, r. rewrite Hq. set_solver.
    + apply fmap_Some in Hx as (rx' & Hx & ->). exists x, rx'. split; [done |]. by case_decide.
Qed.

End wake.

(** Both ways of waking leave the queue of the lock empty. *)
Lemma wp_wakelock v p force r s (Q : () → kst → Prop) :
  BI (heap s) → heap s !! p = Some r → ¬ blocked (heap s) p →
  (∀ s', evolves [] v s s' → v_lockf s' = v_lockf s →
     (∃ r', heap s' !! p = Some r' ∧ lf_blkhd r' = [] ∧ core r' = core r ∧ lf_next r' = lf_next r) →
     Q () s') →
  wp (lf_wakelock p force) Q s.
Proof.
  intros HB Hp Hup HQ. unfold lf_wakelock.
  apply wp_bind. eapply wp_deref; [done |].
  destruct (HB p r Hp) as [Hnd Hback].
  assert (Hin : ∀ x, x ∈ lf_blkhd r → x ∈ dom (heap s)) by (intros; by eapply BI_in_dom).
  pose proof (queue_not_self s p r Hp Hup) as Hself.
  destruct (negb _).
  { eapply wakelock_loop_all; try done; [lia |]. apply HQ; [by apply evolves_wake_all | done |].
    eexists. simpl. rewrite lookup_drained, decide_True by done. done. }
  cbn [wakelock_loop]. apply wp_bind. eapply wp_deref; [done |].
  destruct (lf_blkhd r) as [|w rest] eqn:Hq.
  { apply wp_ret. apply HQ; [apply evolves_refl | done |]. eauto. }
  assert (Hw : w ∈ dom (heap s)) by (apply Hin; set_solver). apply elem_of_dom in Hw as [rw Hw].
  destruct (wake1_facts s p r HB Hp Hup w rest rw Hq Hw) as (Hpw & Hwn & Hpn & Hndq & Hnw).
  apply wp_bind. eapply wp_modify; [done |].
  apply wp_bind. eapply wp_modify; [simpl; by rewrite lookup_insert_ne |].
  destruct rest as [|y rest].
  - apply wp_bind, wp_ret. apply wp_bind, wp_emit, wp_ret. simpl. apply HQ.
    + pose proof (evolves_wake_all v s p r HB Hp Hup) as E. rewrite Hq in E. simpl in E.
      replace (<[w:=set_next None rw]> (<[p:=set_blkhd [] r]> (heap s)))
        with (drained p r [w] None (heap s)); [done |].
      apply map_eq. intros x. rewrite lookup_drained. case_decide as E1.
      * subst x. rewrite lookup_insert_ne by done. by rewrite lookup_insert_eq.
      * destruct (decide (x = w)) as [->|].
        -- rewrite lookup_insert_eq, Hw. simpl. by rewrite decide_True by set_solver.
        -- rewrite !lookup_insert_ne by done. destruct (heap s !! x); simpl; [| done].
           by rewrite decide_False by set_solver.
    + done.
    + eexists. simpl. rewrite lookup_insert_ne by done. rewrite lookup_insert_eq. done.
  - apply wp_bind. apply wp_bind. eapply wp_modify; [simpl; by rewrite lookup_insert_eq |].
    apply wp_bind. eapply wp_modify; [simpl; by rewrite !lookup_insert_ne, lookup_insert_eq by done |].
    apply wp_bind. eapply wp_deref; [simpl; by rewrite lookup_insert_ne, lookup_insert_eq by done |].
    simpl. apply wp_retarget; [| done |].
    { intros x Hx. simpl. rewrite !dom_insert. do 4 apply elem_of_union_r.
      apply elem_of_app in Hx as [Hx|Hx]; [by eapply (BI_in_dom _ w rw) |]. apply Hin. set_solver. }
    apply wp_bind, wp_emit, wp_ret. apply HQ.
    + pose proof (evolves_wake1 v s p r HB Hp Hup w (y :: rest) rw Hq Hw) as E.
      unfold woken1 in E. simpl in *.
      match goal with |- evolves [] v s ?t => match type of E with evolves [] v s ?t' =>
        replace t with t'; [done |] end end.
      unfold add_event. simpl. f_equal. f_equal. apply map_eq. intros x.
      destruct (decide (x = p)) as [->|]; [simplify_map_eq; done |].
      destruct (decide (x = w)) as [->|]; simplify_map_eq; done.
    + done.
    + eexists. simpl. rewrite lookup_set_nexts.
      rewrite lookup_insert_eq. simpl. rewrite decide_False by done. done.
Qed.

Section move.
Context (v : vnode) (s : kst) (to from : ptr) (rt rf : lockf).
Context (HB : BI (heap s)) (Hne : to ≠ from).
Context (Hto : heap s !! to = Some rt) (Hfrom : heap s !! from = Some rf).
Context (Hut : ¬ blocked (heap s) to) (Huf : ¬ blocked (heap s) from).

Definition moved : gmap ptr lockf :=
  <[from := set_blkhd [] rf]>
    (<[to := set_blkhd (lf_blkhd rt ++ lf_blkhd rf) rt]>
       (set_nexts (lf_blkhd rf) (Some to) (heap s))).

Lemma lookup_moved x :
  moved !! x =
  if decide (x = from) then Some (set_blkhd [] rf)
  else if decide (x = to) then Some (set_blkhd (lf_blkhd rt ++ lf_blkhd rf) rt)
  else (λ r, if decide (x ∈ lf_blkhd rf) then set_next (Some to) r else r) <$> heap s !! x.
Proof.
  unfold moved. case_decide as E1; [subst; by rewrite lookup_insert_eq |].
  rewrite lookup_insert_ne by done. case_decide as E2; [subst; by rewrite lookup_insert_eq |].
  by rewrite lookup_insert_ne, lookup_set_nexts by done.
Qed.

Lemma evolves_moved :
  evolves [] v s (set_heap moved s).
Proof.
  destruct (HB to rt Hto) as [Hndt Hbt]. destruct (HB from rf Hfrom) as [Hndf Hbf].
  assert (Hsf : from ∉ lf_blkhd rf) by (by apply (queue_not_self s from rf)).
  assert (Htf : to ∉ lf_blkhd rf) by (intros ?; apply Hut; by exists from, rf).
  split; try done; simpl.
  - exists []. rewrite app_nil_r. split; [done |]. intros q (x & rx & Hx & Hqx). left.
    destruct (decide (x = from)) as [->|Hxf].
    { simplify_eq. eexists to, _. rewrite lookup_moved, decide_False, decide_True by done.
      split; [done |]. simpl. set_solver. }
    destruct (decide (x = to)) as [->|Hxt].
    { simplify_eq. eexists to, _. rewrite lookup_moved, decide_False, decide_True by done.
      split; [done |]. simpl. set_solver. }
    eexists x, _. rewrite lookup_moved, !decide_False, Hx by done. simpl.
    split; [done |]. by case_decide.
  - intros x _ Hd Hb. unfold same_lk. rewrite lookup_moved.
    case_decide; [subst; by rewrite Hfrom |]. case_decide; [subst; by rewrite Hto |].
    destruct (heap s !! x) as [rx|]; simpl; [| done].
    case_decide as E; [| done]. destruct Hb. by exists from, rf.
  - intros x _ [rx Hx]%elem_of_dom. apply elem_of_dom. rewrite lookup_moved, Hx.
    repeat case_decide; by eexists.
  - intros _ x rx Hx.
    assert (Hkeep : ∀ q rq, heap s !! q = Some rq → q ∉ lf_blkhd rf →
       ∃ rq', moved !! q = Some rq' ∧ lf_next rq' = lf_next rq).
    { intros q rq Hrq Hin. rewrite lookup_moved.
      case_decide; [eexists; split; [done |]; simpl; congruence |].
      case_decide; [eexists; split; [done |]; simpl; congruence |].
      rewrite Hrq. simpl. rewrite decide_False by done. eauto. }
    rewrite lookup_moved in Hx. case_decide as E1; [| case_decide as E2].
    + simplify_eq. simpl. split; [constructor | set_solver].
    + simplify_eq. simpl. split.
      * apply NoDup_app. split_and!; try done. intros q Hq1 Hq2. apply Hne.
        by eapply (BI_unique _ q to rt from rf).
      * intros q Hin. apply elem_of_app in Hin as [Hin|Hin].
        -- destruct (Hbt q Hin) as (rq & Hrq & Hn).
           destruct (Hkeep q rq Hrq) as (rq' & ? & ?); [| exists rq'; split; [done | congruence]].
           intros ?. apply Hne. by eapply (BI_unique _ q to rt from rf).
        -- destruct (Hbf q Hin) as (rq & Hrq & Hn). eexists.
           rewrite lookup_moved, !decide_False, Hrq by (intros ->; done). simpl.
           by rewrite decide_True.
    + apply fmap_Some in Hx as (rx' & Hx & ->).
      replace (lf_blkhd (if decide (x ∈ lf_blkhd rf) then set_next (Some to) rx' else rx'))
        with (lf_blkhd rx') by (by case_decide).
      destruct (HB x rx' Hx) as [Hndx Hback]. split; [done |].
      intros q Hqx. destruct (Hback q Hqx) as (rq & Hrq & Hnx).
      destruct (Hkeep q rq Hrq) as (rq' & ? & ?); [| exists rq'; split; [done | congruence]].
      intros ?. apply E1. by eapply (BI_unique _ q x rx' from rf).
  - intros q (x & rx & Hx & Hqx). rewrite lookup_moved in Hx.
    case_decide as E1; [simplify_eq; simpl in Hqx; set_solver |]. case_decide as E2.
    + simplify_eq. simpl in Hqx. apply elem_of_app in Hqx as [?|?]; [by exists to, rt | by exists from, rf].
    + apply fmap_Some in Hx as (rx' & Hx & ->). exists x, rx'. split; [done |]. by case_decide.
Qed.

Lemma wp_move_blocked (Q : () → kst → Prop) :
  (∀ s', evolves [] v s s' → v_lockf s' = v_lockf s →
     (∃ r', heap s' !! from = Some r' ∧ lf_blkhd r' = [] ∧ core r' = core rf ∧ lf_next r' = lf_next rf) →
     Q () s') →
  wp (lf_move_blocked to from) Q s.
Proof.
  intros HQ. unfold lf_move_blocked.
  assert (Hsf : from ∉ lf_blkhd rf) by (by apply (queue_not_self s from rf)).
  assert (Htf : to ∉ lf_blkhd rf) by (intros ?; apply Hut; by exists from, rf).
  apply wp_bind. eapply wp_deref; [done |].
  apply wp_bind, wp_for_each_next; [intros; by eapply BI_in_dom |].
  apply wp_bind. eapply wp_deref.
  { simpl. rewrite lookup_set_nexts, Hfrom. simpl. by rewrite decide_False. }
  apply wp_bind. eapply wp_modify.
  { simpl. rewrite lookup_set_nexts, Hto. simpl. by rewrite decide_False. }
  eapply wp_modify.
  { simpl. rewrite lookup_insert_ne, lookup_set_nexts, Hfrom by done. simpl. by rewrite decide_False. }
  apply HQ; [apply evolves_moved | done |].
  eexists. simpl. rewrite lookup_insert_eq. done.
Qed.
End move.
