(* ===== verification/LockfList.v ===== *)
(** * Lists of record locks

    What a list of locks means, byte by byte ([holds]), the shape the lock
    code keeps it in (the locks of one owner are adjacent, disjoint and in
    order, [linv]), and the effect on both of replacing a byte range of one
    owner. *)

From S2P Require Import Prelude Lockf LockfHeap.
From Stdlib Require Import Sorted.

(** The last byte of a lock; [-1] is the end of any file. *)
Definition hi (c : lockf) : Z := if lf_end c =? -1 then 2 ^ 63 else lf_end c.

(** The ranges the code can represent: [lf_end] is below [OFF_MAX] so that
    [lf_end + 1] does not wrap. *)
Definition wf_lk (c : lockf) : Prop :=
  0 <= lf_start c <= OFF_MAX ∧ (lf_end c = -1 ∨ lf_start c <= lf_end c < OFF_MAX).

Definition covers (c : lockf) (b : Z) : Prop := lf_start c <= b <= hi c.

(** Owner [i] holds byte [b] with a lock of type [t]. *)
Definition holds (A : list lockf) (i : positive) (b t : Z) : Prop :=
  ∃ c, c ∈ A ∧ lf_id c = i ∧ covers c b ∧ lf_type c = t.

Lemma wf_hi c : wf_lk c → lf_start c <= hi c ∧ (hi c < OFF_MAX ∨ hi c = 2 ^ 63).
Proof. unfold wf_lk, hi, OFF_MAX. destruct (Z.eqb_spec (lf_end c) (-1)); lia. Qed.

Lemma hi_eof c : wf_lk c → (hi c = 2 ^ 63 ↔ lf_end c = -1).
Proof. unfold wf_lk, hi, OFF_MAX. destruct (Z.eqb_spec (lf_end c) (-1)); lia. Qed.

Lemma hi_end c : lf_end c ≠ -1 → hi c = lf_end c.
Proof. unfold hi. destruct (Z.eqb_spec (lf_end c) (-1)); lia. Qed.

Lemma holds_app A B i b t : holds (A ++ B) i b t ↔ holds A i b t ∨ holds B i b t.
Proof. unfold holds. setoid_rewrite elem_of_app. naive_solver. Qed.

Lemma holds_cons c A i b t :
  holds (c :: A) i b t ↔ (lf_id c = i ∧ covers c b ∧ lf_type c = t) ∨ holds A i b t.
Proof. unfold holds. setoid_rewrite elem_of_cons. naive_solver. Qed.

Lemma holds_nil i b t : holds [] i b t ↔ False.
Proof. unfold holds. set_solver. Qed.

Lemma holds_foreign A j i b t : Forall (λ c, lf_id c ≠ i) A → holds A j b t → j ≠ i.
Proof. rewrite Forall_forall. intros HA (c & Hc & <- & _). by apply HA. Qed.

Lemma holds_own A j i b t : Forall (λ c, lf_id c = i) A → holds A j b t → j = i.
Proof. rewrite Forall_forall. intros HA (c & Hc & <- & _). by apply HA. Qed.

(** ** Order and adjacency *)

Definition before (c d : lockf) : Prop := hi c < lf_start d.
Abbreviation ordered := (StronglySorted before).

(** The locks of owner [j] first, in order, and none later. *)
Inductive run (j : positive) : list lockf → Prop :=
  | run_end X : Forall (λ c, lf_id c ≠ j) X → run j X
  | run_cons c X :
      lf_id c = j → Forall (λ d, lf_id d = j → before c d) X → run j X → run j (c :: X).

(** The locks of owner [j] are adjacent and in order. *)
Inductive grp (j : positive) : list lockf → Prop :=
  | grp_run X : run j X → grp j X
  | grp_skip c X : lf_id c ≠ j → grp j X → grp j (c :: X).

(** The shape of the list of vnode [v]. *)
Record linv (v : vnode) (A : list lockf) : Prop := {
  li_wf : Forall wf_lk A;
  li_head : Forall (λ c, lf_head c = v) A;
  li_grp : ∀ j, grp j A;
}.

Lemma run_split j X :
  run j X → ∃ S A2, X = S ++ A2 ∧ Forall (λ c, lf_id c = j) S ∧
    Forall (λ c, lf_id c ≠ j) A2 ∧ ordered S.
Proof.
  induction 1 as [X HX|c X Hc Hb _ (S & A2 & -> & HS & HA2 & Ho)].
  - exists [], X. split_and!; (done || constructor).
  - exists (c :: S), A2. split_and!; [done | by constructor | done |].
    constructor; [done |]. apply Forall_app in Hb as [Hb _].
    rewrite Forall_forall in *. intros d Hd. apply Hb; auto.
Qed.

Lemma grp_split j A :
  grp j A → ∃ A1 S A2, A = A1 ++ S ++ A2 ∧ Forall (λ c, lf_id c ≠ j) A1 ∧
    Forall (λ c, lf_id c = j) S ∧ Forall (λ c, lf_id c ≠ j) A2 ∧ ordered S ∧
    (S = [] → A2 = []).
Proof.
  induction 1 as [X HX|c X Hc _ (A1 & S & A2 & -> & H1 & H2 & H3 & H4 & H5)].
  - destruct (run_split _ _ HX) as (S & A2 & -> & HS & HA2 & Ho).
    destruct S as [|c S].
    + exists A2, [], []. simpl. rewrite app_nil_r. split_and!; (done || constructor).
    + exists [], (c :: S), A2. split_and!; (done || constructor).
  - exists (c :: A1), S, A2. split_and!; try done. by constructor.
Qed.

Lemma run_intro j S A2 :
  Forall (λ c, lf_id c = j) S → Forall (λ c, lf_id c ≠ j) A2 → ordered S → run j (S ++ A2).
Proof.
  intros HS HA Ho. induction Ho as [|c S Ho IH Hb]; simpl; [by constructor |].
  inv HS. constructor; [done | | by apply IH].
  apply Forall_app_2; [eapply Forall_impl; [exact Hb |]; naive_solver |].
  eapply Forall_impl; [exact HA |]. naive_solver.
Qed.

Lemma grp_intro j A1 S A2 :
  Forall (λ c, lf_id c ≠ j) A1 → Forall (λ c, lf_id c = j) S →
  Forall (λ c, lf_id c ≠ j) A2 → ordered S → grp j (A1 ++ S ++ A2).
Proof.
  intros H1 HS HA Ho. induction H1 as [|c A1 Hc _ IH]; simpl.
  - apply grp_run. by apply run_intro.
  - by apply grp_skip.
Qed.

(** Another owner's run in the middle can be replaced. *)
Lemma run_replace j A1 S S' A2 :
  Forall (λ c, lf_id c ≠ j) S → Forall (λ c, lf_id c ≠ j) S' → (S = [] → A2 = []) →
  run j (A1 ++ S ++ A2) → run j (A1 ++ S' ++ A2).
Proof.
  intros HS HS' Hne. induction A1 as [|a A1 IH]; simpl; intros Hr.
  - inv Hr.
    + apply Forall_app in H as [_ ?]. apply run_end. by apply Forall_app_2.
    + destruct S as [|d S]; simpl in *; [by rewrite Hne in * by done |].
      inv HS.
  - inv Hr.
    + inv H. apply Forall_app in H3 as [? H3]. apply Forall_app in H3 as [_ ?].
      apply run_end. constructor; [done |]. by repeat apply Forall_app_2.
    + apply run_cons; [done | | auto].
      rewrite !Forall_app in *. destruct H2 as (? & _ & ?). split_and!; try done.
      eapply Forall_impl; [exact HS' |]. naive_solver.
Qed.

Lemma grp_replace j A1 S S' A2 :
  Forall (λ c, lf_id c ≠ j) S → Forall (λ c, lf_id c ≠ j) S' → (S = [] → A2 = []) →
  grp j (A1 ++ S ++ A2) → grp j (A1 ++ S' ++ A2).
Proof.
  intros HS HS' Hne. induction A1 as [|a A1 IH]; simpl; intros Hg.
  - assert (Hg2 : grp j A2).
    { clear -HS Hg. induction S as [|d S IH]; simpl in *; [done |]. inv HS.
      apply IH; [done |]. inv Hg as [? Hr|]; [| done].
      inv Hr as [? Hf|]. inv Hf. by apply grp_run, run_end. }
    clear -HS' Hg2. induction HS'; simpl; [done | by apply grp_skip].
  - inv Hg; [apply grp_run; by apply (run_replace _ (a :: A1) S) | apply grp_skip; auto].
Qed.

(** Replacing the locks of one owner keeps the list in shape and changes what
    that owner holds only. *)
Lemma linv_replace v id A1 S S' A2 :
  linv v (A1 ++ S ++ A2) → Forall (λ c, lf_id c ≠ id) A1 → Forall (λ c, lf_id c = id) S →
  Forall (λ c, lf_id c ≠ id) A2 → (S = [] → A2 = []) →
  Forall (λ c, lf_id c = id) S' → Forall wf_lk S' → ordered S' →
  Forall (λ c, lf_head c = v) S' → linv v (A1 ++ S' ++ A2).
Proof.
  intros [Hwf Hh Hg] H1 HS H2 Hne HS' Hwf' Ho Hh'. split.
  - rewrite !Forall_app in *. naive_solver.
  - rewrite !Forall_app in *. naive_solver.
  - intros j. destruct (decide (j = id)) as [->|Hj]; [by apply grp_intro |].
    apply (grp_replace j A1 S); [| | done | done].
    + eapply Forall_impl; [exact HS |]. naive_solver.
    + eapply Forall_impl; [exact HS' |]. naive_solver.
Qed.

Lemma holds_replace id A1 S S' A2 (P : Z → Z → Prop) :
  Forall (λ c, lf_id c ≠ id) A1 → Forall (λ c, lf_id c = id) S →
  Forall (λ c, lf_id c ≠ id) A2 → Forall (λ c, lf_id c = id) S' →
  (∀ b t, holds S' id b t ↔ P b t) →
  ∀ i b t, holds (A1 ++ S' ++ A2) i b t ↔
    (i = id ∧ P b t) ∨ (i ≠ id ∧ holds (A1 ++ S ++ A2) i b t).
Proof.
  intros H1 HS H2 HS' HP i b t. rewrite !holds_app.
  pose proof (holds_foreign A1 i id b t H1). pose proof (holds_foreign A2 i id b t H2).
  pose proof (holds_own S i id b t HS). pose proof (holds_own S' i id b t HS').
  destruct (decide (i = id)) as [->|]; [| naive_solver].
  specialize (HP b t). naive_solver.
Qed.

(** ** Pairs of one owner's locks *)

Lemma run_pair j X d A2 :
  run j (X ++ d :: A2) → lf_id d = j → Forall (λ e, lf_id e = j ∧ before e d) X.
Proof.
  intros Hr Hd. induction X as [|c X IH]; simpl in *; [constructor |].
  inv Hr as [? Hf|? ? ? Hb Hr'].
  - inv Hf as [|? ? ? Hf']. apply Forall_app in Hf' as [_ Hf']. by inv Hf'.
  - constructor; [| by apply IH]. split; [done |].
    rewrite Forall_forall in Hb. apply Hb; [set_solver | done].
Qed.

(** Between two locks of an owner there are only that owner's, in order. *)
Lemma grp_pair j A1 c X d A2 :
  grp j (A1 ++ c :: X ++ d :: A2) → lf_id c = j → lf_id d = j →
  before c d ∧ Forall (λ e, lf_id e = j ∧ before c e ∧ before e d) X.
Proof.
  assert (Hrun : ∀ B, run j (B ++ c :: X ++ d :: A2) → lf_id c = j → lf_id d = j →
    before c d ∧ Forall (λ e, lf_id e = j ∧ before c e ∧ before e d) X).
  { induction B as [|a B IH]; simpl; intros Hr Hc Hd.
    - pose proof (run_pair j (c :: X) d A2 Hr Hd) as HX. inv HX as [|? ? Hcd HX'].
      split; [naive_solver |]. inv Hr as [? Hf|? ? ? Hb _].
      { by inv Hf. }
      rewrite Forall_forall in *. intros e He. specialize (HX' e He).
      split_and!; [naive_solver | apply Hb; [set_solver | naive_solver] | naive_solver].
    - inv Hr as [? Hf|]; [| by apply IH]. inv Hf as [|? ? ? Hf'].
      apply Forall_app in Hf' as [_ Hf']. by inv Hf'. }
  induction A1 as [|a A1 IH]; simpl; intros Hg Hc Hd.
  - inv Hg; by apply (Hrun []).
  - inv Hg; [by apply (Hrun (a :: A1)) | by apply IH].
Qed.

(** ** Replacing a byte range of one owner *)

(** What is left of the locks [S] above byte [e]. *)
Fixpoint trim (e : Z) (S : list lockf) : list lockf :=
  match S with
  | [] => []
  | c :: S' =>
      if e <? lf_start c then S
      else if hi c <=? e then trim e S'
      else set_start (e + 1) c :: S'
  end.

(** What is left of the first lock of [S] below byte [b]. *)
Definition left_of (b : Z) (S : list lockf) : list lockf :=
  match S with
  | [] => []
  | o :: _ => if lf_start o <? b then [set_end (b - 1) o] else []
  end.

Lemma hi_set_end e c : e ≠ -1 → hi (set_end e c) = e.
Proof. intros H. unfold hi. simpl. destruct (Z.eqb_spec e (-1)); lia. Qed.

Lemma hi_set_start b c : hi (set_start b c) = hi c.
Proof. done. Qed.

Lemma trim_own j e S : Forall (λ c, lf_id c = j) S → Forall (λ c, lf_id c = j) (trim e S).
Proof.
  induction 1 as [|c S Hc HS IH]; simpl; [constructor |].
  destruct (e <? _); [by constructor |]. destruct (hi c <=? e); [done | by constructor].
Qed.

Lemma trim_above e S : Forall wf_lk S → ordered S → Forall (λ c, e < lf_start c) (trim e S).
Proof.
  intros Hwf Ho. induction Ho as [|c S Ho IH Hb]; simpl; [constructor |]. inv Hwf.
  assert (Hlater : e < hi c → Forall (λ c, e < lf_start c) S).
  { intros He. eapply Forall_impl; [exact Hb |]. unfold before. intros d. simpl. lia. }
  destruct (Z.ltb_spec e (lf_start c)).
  - constructor; [done |]. apply Hlater. pose proof (wf_hi c). naive_solver lia.
  - destruct (Z.leb_spec (hi c) e); [auto |]. constructor; [simpl; lia | auto].
Qed.

Lemma trim_id e c S : Forall (before c) S → e <= hi c → trim e S = S.
Proof.
  intros Hb He. destruct Hb as [|d S Hd _]; [done |]. simpl. unfold before in Hd.
  by rewrite (proj2 (Z.ltb_lt _ _)) by lia.
Qed.

Lemma trim_ordered e S : ordered S → ordered (trim e S).
Proof.
  induction 1 as [|c S Ho IH Hb]; simpl; [constructor |].
  destruct (e <? _); [by constructor |]. destruct (hi c <=? e); [done |]. by constructor.
Qed.

Lemma trim_wf e S : Forall wf_lk S → 0 <= e → e ≠ OFF_MAX → Forall wf_lk (trim e S).
Proof.
  intros HS He Hmax. induction HS as [|c S Hc HS IH]; simpl; [constructor |].
  destruct (Z.ltb_spec e (lf_start c)); [by constructor |].
  destruct (Z.leb_spec (hi c) e); [done |]. constructor; [| done].
  pose proof (wf_hi c Hc). revert Hc. unfold wf_lk, hi, OFF_MAX in *. simpl.
  destruct (Z.eqb_spec (lf_end c) (-1)); lia.
Qed.

Lemma trim_holds e S i b t :
  Forall wf_lk S → ordered S → (holds (trim e S) i b t ↔ holds S i b t ∧ e < b).
Proof.
  intros Hwf Ho. induction Ho as [|c S Ho IH Hb]; simpl.
  { rewrite holds_nil. naive_solver. }
  inv Hwf. pose proof (wf_hi c).
  assert (Hlater : holds S i b t → hi c < b).
  { intros (d & Hd & _ & Hcov & _). rewrite Forall_forall in Hb. specialize (Hb d Hd).
    unfold before, covers in *. lia. }
  destruct (Z.ltb_spec e (lf_start c)).
  - rewrite holds_cons. unfold covers. split; [| naive_solver].
    intros [(? & ? & ?)|?]; [split; [tauto | lia] |]. split; [tauto |].
    naive_solver lia.
  - destruct (Z.leb_spec (hi c) e).
    + rewrite IH, holds_cons by done. unfold covers. naive_solver lia.
    + rewrite !holds_cons. unfold covers. rewrite hi_set_start. simpl. naive_solver lia.
Qed.

Lemma ordered_app A B :
  ordered (A ++ B) ↔ ordered A ∧ ordered B ∧ ∀ c d, c ∈ A → d ∈ B → before c d.
Proof.
  induction A as [|a A IH]; simpl.
  - split; [| naive_solver]. intros ?. split_and!; [constructor | done | set_solver].
  - split.
    + intros H. inv H as [|? ? Hab Hf]. apply IH in Hab as (? & ? & ?).
      apply Forall_app in Hf as [Hf1 Hf2]. rewrite Forall_forall in Hf2.
      split_and!; [by constructor | done |]. set_solver.
    + intros (H & ? & Hc). inv H. constructor; [apply IH; set_solver |].
      apply Forall_app. split; [done |]. apply Forall_forall. set_solver.
Qed.

(** The owner's locks split where the range of [m] begins. *)
Record split_at (m : lockf) (S1 S2 : list lockf) : Prop := {
  sp_wf : Forall wf_lk (S1 ++ S2);
  sp_ord : ordered (S1 ++ S2);
  sp_own : Forall (λ c, lf_id c = lf_id m) (S1 ++ S2);
  sp_before : Forall (λ c, hi c < lf_start m) S1;
  sp_head : ∀ o, head S2 = Some o → lf_start m <= hi o;
}.

Lemma split_later m S1 o S3 c :
  split_at m S1 (o :: S3) → c ∈ S3 → lf_start m < lf_start c.
Proof.
  intros [_ Ho _ _ Hh] Hc. specialize (Hh o eq_refl).
  apply ordered_app in Ho as (_ & Ho2 & _). inv Ho2 as [|? ? _ Hb].
  rewrite Forall_forall in Hb. specialize (Hb c Hc). unfold before in Hb. lia.
Qed.

Lemma left_of_shape m S1 S2 :
  wf_lk m → split_at m S1 S2 →
  Forall (λ c, lf_id c = lf_id m) (left_of (lf_start m) S2) ∧
  Forall wf_lk (left_of (lf_start m) S2) ∧ ordered (left_of (lf_start m) S2) ∧
  (∀ c, c ∈ left_of (lf_start m) S2 → hi c < lf_start m ∧ ∀ d, d ∈ S1 → before d c).
Proof.
  intros Hm [Hwf Ho Hown _ _].
  apply ordered_app in Ho as (_ & _ & Hx). apply Forall_app in Hown as [_ Hown2].
  apply Forall_app in Hwf as [_ Hwf2].
  unfold left_of. destruct S2 as [|o S3]; [split_and!; [constructor.. | set_solver] |].
  destruct (Z.ltb_spec (lf_start o) (lf_start m)); [| split_and!; [constructor.. | set_solver]].
  inv Hown2. inv Hwf2 as [|? ? Hwo _].
  assert (Hh : hi (set_end (lf_start m - 1) o) = lf_start m - 1).
  { apply hi_set_end. unfold wf_lk in Hwo. lia. }
  split_and!; [by repeat constructor | | by repeat constructor |].
  - constructor; [| constructor]. revert Hwo Hm. unfold wf_lk, OFF_MAX. simpl. lia.
  - intros c ->%list_elem_of_singleton. rewrite Hh. split; [lia |].
    intros d Hd. apply (Hx d o); set_solver.
Qed.

Lemma left_holds m S1 S2 i b t :
  split_at m S1 S2 →
  holds (left_of (lf_start m) S2) i b t ↔ holds S2 i b t ∧ b < lf_start m.
Proof.
  intros Hs. destruct S2 as [|o S3]; simpl; [rewrite holds_nil; naive_solver |].
  assert (Hlater : holds S3 i b t → lf_start m < b).
  { intros (d & Hd & _ & Hcov & _). pose proof (split_later m S1 o S3 d Hs Hd).
    unfold covers in Hcov. lia. }
  pose proof (sp_head _ _ _ Hs o eq_refl) as Hh.
  pose proof (sp_wf _ _ _ Hs) as Hwf. apply Forall_app in Hwf as [_ Hwf2].
  inv Hwf2 as [|? ? Hwo _].
  destruct (Z.ltb_spec (lf_start o) (lf_start m)).
  - rewrite !holds_cons, holds_nil. unfold covers.
    rewrite hi_set_end by (unfold wf_lk in Hwo; lia). simpl. naive_solver lia.
  - rewrite holds_cons, holds_nil. unfold covers. naive_solver lia.
Qed.

(** The owner's locks with the range of [m] removed, or replaced by [m]. *)
Definition removed (m : lockf) (S1 S2 : list lockf) : list lockf :=
  S1 ++ left_of (lf_start m) S2 ++ trim (hi m) S2.
Definition replaced (m : lockf) (S1 S2 : list lockf) : list lockf :=
  S1 ++ left_of (lf_start m) S2 ++ [m] ++ trim (hi m) S2.

Lemma removed_holds m S1 S2 i b t :
  wf_lk m → split_at m S1 S2 →
  holds (removed m S1 S2) i b t ↔ holds (S1 ++ S2) i b t ∧ ¬ covers m b.
Proof.
  intros Hm Hs. unfold removed. rewrite !holds_app, (left_holds m S1) by done.
  destruct Hs as [Hwf Ho _ Hb _]. apply Forall_app in Hwf as [_ Hwf].
  apply ordered_app in Ho as (_ & Ho & _). rewrite trim_holds by done.
  pose proof (wf_hi m Hm).
  assert (H1 : holds S1 i b t → b < lf_start m).
  { intros (d & Hd & _ & Hcov & _). rewrite Forall_forall in Hb. specialize (Hb d Hd).
    unfold covers in Hcov. simpl in Hb. lia. }
  unfold covers. destruct (Z.lt_ge_cases b (lf_start m)), (Z.le_gt_cases b (hi m));
    naive_solver lia.
Qed.

Lemma replaced_holds m S1 S2 i b t :
  wf_lk m → split_at m S1 S2 →
  holds (replaced m S1 S2) i b t ↔
    (i = lf_id m ∧ covers m b ∧ t = lf_type m) ∨ (holds (S1 ++ S2) i b t ∧ ¬ covers m b).
Proof.
  intros Hm Hs. rewrite <- removed_holds by done. unfold removed, replaced.
  rewrite !holds_app, holds_cons, holds_nil. naive_solver.
Qed.

Lemma removed_shape m S1 S2 :
  wf_lk m → split_at m S1 S2 →
  Forall (λ c, lf_id c = lf_id m) (removed m S1 S2) ∧ Forall wf_lk (removed m S1 S2) ∧
  ordered (removed m S1 S2).
Proof.
  intros Hm Hs. destruct (left_of_shape m S1 S2 Hm Hs) as (L1 & L2 & L3 & L4).
  destruct Hs as [Hwf Ho Hown Hb _]. pose proof (wf_hi m Hm) as [? ?].
  rewrite Forall_app in Hwf, Hown. apply ordered_app in Ho as (? & ? & Hx).
  destruct Hwf as [? ?], Hown as [? ?].
  pose proof (trim_above (hi m) S2 ltac:(done) ltac:(done)) as Ha.
  rewrite Forall_forall in Ha, Hb. unfold removed. rewrite !Forall_app, !ordered_app.
  assert (0 <= hi m ∧ hi m ≠ OFF_MAX) by (unfold wf_lk, OFF_MAX in *; lia).
  split_and!; try done; try (by apply trim_own); try (by apply trim_ordered);
    try (apply trim_wf; naive_solver).
  - intros c d Hc Hd. destruct (L4 c Hc). specialize (Ha d Hd).
    unfold before. simpl in Ha. lia.
  - intros c d Hc Hd. apply elem_of_app in Hd as [Hd|Hd]; [by apply L4 |].
    specialize (Ha d Hd). specialize (Hb c Hc).
    unfold before. simpl in *. lia.
Qed.

Lemma replaced_shape m S1 S2 :
  wf_lk m → split_at m S1 S2 →
  Forall (λ c, lf_id c = lf_id m) (replaced m S1 S2) ∧ Forall wf_lk (replaced m S1 S2) ∧
  ordered (replaced m S1 S2).
Proof.
  intros Hm Hs. destruct (removed_shape m S1 S2 Hm Hs) as (H1 & H2 & H3).
  destruct (left_of_shape m S1 S2 Hm Hs) as (_ & _ & _ & L4).
  destruct Hs as [Hwf Ho Hown Hb _]. pose proof (wf_hi m Hm) as [? ?].
  rewrite Forall_app in Hwf. apply ordered_app in Ho as (? & ? & Hx).
  pose proof (trim_above (hi m) S2 ltac:(naive_solver) ltac:(done)) as Ha.
  rewrite Forall_forall in Ha, Hb.
  unfold removed, replaced in *. rewrite !Forall_app, ?Forall_singleton in *.
  rewrite !ordered_app in *. destruct H3 as (? & (? & ? & Ht) & Hs).
  destruct H1 as (? & ? & ?), H2 as (? & ? & ?), Hwf as [? ?].
  split_and!; try done; try (by repeat constructor).
  - intros c d ->%list_elem_of_singleton Hd. specialize (Ha d Hd). done.
  - intros c d Hc Hd. apply elem_of_app in Hd as [->%list_elem_of_singleton|Hd]; [by destruct (L4 c Hc) | auto].
  - intros c d Hc Hd. rewrite !elem_of_app, list_elem_of_singleton in Hd.
    destruct Hd as [Hd|[->|Hd]]; [set_solver | by apply Hb | set_solver].
Qed.

Lemma trim_heads v e S :
  Forall (λ c, lf_head c = v) S → Forall (λ c, lf_head c = v) (trim e S).
Proof.
  induction 1 as [|c S Hc HS IH]; simpl; [constructor |].
  destruct (e <? _); [by constructor |]. destruct (hi c <=? e); [done | by constructor].
Qed.

Lemma left_heads v b S :
  Forall (λ c, lf_head c = v) S → Forall (λ c, lf_head c = v) (left_of b S).
Proof.
  destruct 1 as [|c S Hc HS]; simpl; [constructor |].
  destruct (_ <? _); [by repeat constructor | constructor].
Qed.

Lemma removed_heads v m S1 S2 :
  Forall (λ c, lf_head c = v) S1 → Forall (λ c, lf_head c = v) S2 →
  Forall (λ c, lf_head c = v) (removed m S1 S2).
Proof.
  intros H1 H2. unfold removed. rewrite !Forall_app. split_and!; [done | |].
  - by apply left_heads.
  - by apply trim_heads.
Qed.

Lemma replaced_heads m S1 S2 :
  Forall (λ c, lf_head c = lf_head m) S1 → Forall (λ c, lf_head c = lf_head m) S2 →
  Forall (λ c, lf_head c = lf_head m) (replaced m S1 S2).
Proof.
  intros H1 H2. unfold replaced. rewrite !Forall_app, Forall_singleton. split_and!; try done.
  - by apply left_heads.
  - by apply trim_heads.
Qed.

(** A list that means the same: owner, type and range of each lock. *)
Definition view (c : lockf) : lockf :=
  Lockf 0 (lf_type c) false (lf_start c) (lf_end c) (lf_id c) (lf_head c) 1 None [] None.

Definition alike (c d : lockf) : Prop := view c = view d.
Definition same (A B : list lockf) : Prop := Forall2 alike A B.

#[export] Instance same_equiv : Equivalence same.
Proof.
  split.
  - intros A. induction A; by constructor.
  - intros A B. induction 1; by constructor.
  - intros A B C HAB. revert C. induction HAB as [|? ? ? ? ? ? IH]; intros C HBC; [done |].
    inv HBC. constructor; [unfold alike in *; congruence | by apply IH].
Qed.

Lemma view_proj c d :
  alike c d →
  lf_type c = lf_type d ∧ lf_start c = lf_start d ∧ lf_end c = lf_end d ∧
  lf_id c = lf_id d ∧ hi c = hi d.
Proof. unfold alike, view, hi. intros [= -> -> -> -> _]. done. Qed.

Lemma view_head c d : alike c d → lf_head c = lf_head d.
Proof. by intros [=]. Qed.

Lemma alike_core r : alike (core r) r.
Proof. done. Qed.

#[export] Instance app_same : Proper (same ==> same ==> same) (++).
Proof. intros A A' HA B B' HB. by apply Forall2_app. Qed.

Lemma alike_set_start b c d : alike c d → alike (set_start b c) (set_start b d).
Proof. unfold alike, view. simpl. intros [=]. congruence. Qed.

Lemma alike_set_end b c d : alike c d → alike (set_end b c) (set_end b d).
Proof. unfold alike, view. simpl. intros [=]. congruence. Qed.

Lemma same_middle X c d Y Y' : alike c d → same Y Y' → same (X ++ c :: Y) (X ++ d :: Y').
Proof. intros Hcd HY. apply app_same; [done |]. by constructor. Qed.

Lemma same_Forall (P : lockf → Prop) A B :
  (∀ c d, alike c d → P c → P d) → same A B → Forall P A → Forall P B.
Proof.
  intros HP Hs HA. induction Hs as [|c d A B Hcd Hs IH]; [constructor |].
  inv HA. constructor; eauto.
Qed.

Lemma before_view c d c' d' : alike c c' → alike d d' → before c d → before c' d'.
Proof.
  intros (_ & _ & _ & _ & ?)%view_proj (_ & ? & _)%view_proj. unfold before. lia.
Qed.

#[export] Instance holds_same : Proper (same ==> (=) ==> (=) ==> (=) ==> iff) holds.
Proof.
  assert (H : ∀ A B i b t, same A B → holds A i b t → holds B i b t).
  { intros A B i b t Hs (c & Hc & Hi & Hcov & Ht).
    apply list_elem_of_lookup in Hc as [k Hk].
    destruct (Forall2_lookup_l _ _ _ _ _ Hs Hk) as (d & Hd & Hv).
    apply view_proj in Hv as (? & ? & ? & ? & ?).
    exists d. split; [by eapply list_elem_of_lookup_2 |].
    unfold covers in *. split_and!; (congruence || lia). }
  intros A B Hs i ? <- b ? <- t ? <-. split; apply H; [done | by symmetry].
Qed.

Lemma run_same j A B : same A B → run j A → run j B.
Proof.
  intros Hs Hr. revert B Hs. induction Hr as [X HX|c X Hc Hb _ IH]; intros B Hs.
  - apply run_end. eapply same_Forall; [| done | exact HX].
    intros c d (_ & _ & _ & ? & _)%view_proj. simpl. congruence.
  - inv Hs as [|? d ? B' Hv Hs']. pose proof (view_proj _ _ Hv) as (_ & _ & _ & Hi & _).
    apply run_cons; [congruence | | by apply IH].
    eapply (same_Forall (λ e, lf_id e = lf_id c → before d e)); [| exact Hs' |].
    + intros e f He Hbe Hf. apply (before_view d e); [done.. |]. apply Hbe.
      apply view_proj in He as (_ & _ & _ & ? & _). congruence.
    + eapply Forall_impl; [exact Hb |]. intros e He Hie.
      apply (before_view c e); [done | done | by apply He].
Qed.

#[export] Instance linv_same v : Proper (same ==> iff) (linv v).
Proof.
  assert (H : ∀ A B, same A B → linv v A → linv v B).
  { intros A B Hs [Hwf Hh Hg]. split.
    - eapply same_Forall; [| exact Hs | exact Hwf].
      intros c d (_ & ? & ? & _)%view_proj. unfold wf_lk. naive_solver congruence.
    - eapply same_Forall; [| exact Hs | exact Hh].
      intros c d ?%view_head. simpl. congruence.
    - intros j. specialize (Hg j). clear Hwf Hh. revert B Hs.
      induction Hg as [X HX|c X Hc _ IH]; intros B Hs.
      + apply grp_run. by eapply run_same.
      + inv Hs as [|? d ? B' Hv Hs']. apply grp_skip; [| by apply IH].
        apply view_proj in Hv as (_ & _ & _ & ? & _). congruence. }
  intros A B Hs. split; apply H; [done | by symmetry].
Qed.

(** ** What the operations promise *)

(** [B] is [A] with the range of [m] given to its owner with its type, or
    taken from its owner. *)
Definition granted (m : lockf) (A B : list lockf) : Prop :=
  linv (lf_head m) B ∧ ∀ i b t, holds B i b t ↔
    (i = lf_id m ∧ covers m b ∧ t = lf_type m) ∨
    (holds A i b t ∧ ¬ (i = lf_id m ∧ covers m b)).
Definition cleared (m : lockf) (A B : list lockf) : Prop :=
  linv (lf_head m) B ∧ ∀ i b t, holds B i b t ↔ holds A i b t ∧ ¬ (i = lf_id m ∧ covers m b).

(** The list of a vnode seen from the owner of [m]: the others' locks, the
    owner's locks before the range of [m] and from it on, the others' locks. *)
Record around (m : lockf) (A1 S1 S2 A2 : list lockf) : Prop := {
  ar_linv : linv (lf_head m) (A1 ++ S1 ++ S2 ++ A2);
  ar_A1 : Forall (λ c, lf_id c ≠ lf_id m) A1;
  ar_A2 : Forall (λ c, lf_id c ≠ lf_id m) A2;
  ar_nil : S1 ++ S2 = [] → A2 = [];
  ar_split : split_at m S1 S2;
}.

Lemma granted_replaced m A1 S1 S2 A2 :
  wf_lk m → around m A1 S1 S2 A2 →
  granted m (A1 ++ S1 ++ S2 ++ A2) (A1 ++ replaced m S1 S2 ++ A2).
Proof.
  intros Hm [Hl H1 H2 Hn Hs]. destruct (replaced_shape m S1 S2 Hm Hs) as (Ho & Hw & Hord).
  pose proof (sp_own _ _ _ Hs) as Hown. rewrite (app_assoc S1) in *. split.
  - apply (linv_replace _ (lf_id m) A1 (S1 ++ S2)); try done. destruct Hl as [_ Hh _].
    rewrite !Forall_app in Hh. destruct Hh as (_ & [? ?] & _). by apply replaced_heads.
  - intros i b t. rewrite (holds_replace (lf_id m) A1 (S1 ++ S2) (replaced m S1 S2) A2
      (λ b t, (covers m b ∧ t = lf_type m) ∨ (holds (S1 ++ S2) (lf_id m) b t ∧ ¬ covers m b)));
      [| done.. |].
    + rewrite !(holds_app A1), !(holds_app _ A2).
      pose proof (holds_foreign A1 i (lf_id m) b t H1).
      pose proof (holds_foreign A2 i (lf_id m) b t H2).
      destruct (decide (i = lf_id m)) as [->|]; naive_solver.
    + intros b' t'. rewrite replaced_holds by done. naive_solver.
Qed.

Lemma cleared_removed m A1 S1 S2 A2 :
  wf_lk m → around m A1 S1 S2 A2 →
  cleared m (A1 ++ S1 ++ S2 ++ A2) (A1 ++ removed m S1 S2 ++ A2).
Proof.
  intros Hm [Hl H1 H2 Hn Hs]. destruct (removed_shape m S1 S2 Hm Hs) as (Ho & Hw & Hord).
  pose proof (sp_own _ _ _ Hs) as Hown. rewrite (app_assoc S1) in *. split.
  - apply (linv_replace _ (lf_id m) A1 (S1 ++ S2)); try done. destruct Hl as [_ Hh _].
    rewrite !Forall_app in Hh. destruct Hh as (_ & [? ?] & _). by apply removed_heads.
  - intros i b t. rewrite (holds_replace (lf_id m) A1 (S1 ++ S2) (removed m S1 S2) A2
      (λ b t, holds (S1 ++ S2) (lf_id m) b t ∧ ¬ covers m b)); [| done.. |].
    + rewrite !(holds_app A1), !(holds_app _ A2).
      pose proof (holds_foreign A1 i (lf_id m) b t H1).
      pose proof (holds_foreign A2 i (lf_id m) b t H2).
      destruct (decide (i = lf_id m)) as [->|]; naive_solver.
    + intros b' t'. by rewrite removed_holds.
Qed.

Lemma split_two {A} (l : list A) i j c d :
  l !! i = Some c → l !! j = Some d → (i < j)%nat → ∃ l1 l2 l3, l = l1 ++ c :: l2 ++ d :: l3.
Proof.
  intros Hi Hj Hlt. pose proof (take_drop_middle l i c Hi) as E. rewrite <- E in Hj.
  rewrite lookup_app_r in Hj by (rewrite length_take; lia).
  rewrite length_take_le in Hj by (apply lookup_lt_Some in Hi; lia).
  replace (j - i)%nat with (S (j - i - 1)) in Hj by lia. simpl in Hj.
  exists (take i l), (take (j - i - 1) (drop (S i) l)), (drop (S (j - i - 1)) (drop (S i) l)).
  by rewrite (take_drop_middle (drop (S i) l) _ d Hj), E.
Qed.

(** An owner holds a byte with one lock only. *)
Lemma linv_unique v A c d b :
  linv v A → c ∈ A → d ∈ A → lf_id c = lf_id d → covers c b → covers d b → c = d.
Proof.
  intros [_ _ Hg] Hc Hd Hid Hbc Hbd.
  assert (Hlt : ∀ i j c d, A !! i = Some c → A !! j = Some d → (i < j)%nat →
     lf_id c = lf_id d → covers c b → covers d b → False).
  { intros i j c' d' Hi Hj Hij Hid' H1 H2. destruct (split_two A i j c' d' Hi Hj Hij) as (?&?&?&E).
    specialize (Hg (lf_id d')). rewrite E in Hg. apply grp_pair in Hg as [Hb _]; [| done..].
    unfold before, covers in *. lia. }
  apply list_elem_of_lookup in Hc as [i Hi]. apply list_elem_of_lookup in Hd as [j Hj].
  destruct (lt_eq_lt_dec i j) as [[Hij| ->]|Hij]; [| congruence |]; exfalso; eauto.
Qed.

Lemma granted_contained m A o :
  linv (lf_head m) A → o ∈ A → lf_id o = lf_id m → lf_type o = lf_type m →
  lf_start o <= lf_start m → hi m <= hi o → granted m A A.
Proof.
  intros HA Ho Hid Hty Hst Hhi. split; [done |]. intros i b t.
  assert (Hcov : covers m b → covers o b) by (unfold covers; lia). split.
  - intros Hh. destruct (decide (i = lf_id m)) as [->|]; [| naive_solver].
    assert (Hdec : covers m b ∨ ¬ covers m b) by (unfold covers; lia).
    destruct Hdec as [Hm|]; [left | naive_solver]. destruct Hh as (c & Hc & Hci & Hcb & <-).
    rewrite (linv_unique _ A c o b HA Hc Ho); [by auto | congruence | done | by apply Hcov].
  - intros [(-> & Hb & ->)|[? _]]; [| done]. exists o. auto.
Qed.

Lemma cleared_apart m A1 S1 S2 A2 :
  wf_lk m → around m A1 S1 S2 A2 → (∀ o, head S2 = Some o → hi m < lf_start o) →
  cleared m (A1 ++ S1 ++ S2 ++ A2) (A1 ++ S1 ++ S2 ++ A2).
Proof.
  intros Hm Har Ha. pose proof (cleared_removed m A1 S1 S2 A2 Hm Har) as Hc.
  replace (removed m S1 S2) with (S1 ++ S2) in Hc; [by rewrite <- app_assoc in Hc |].
  unfold removed. f_equal. destruct S2 as [|o S3]; [done |]. simpl. specialize (Ha o eq_refl).
  pose proof (wf_hi _ Hm). rewrite (proj2 (Z.ltb_ge _ _)) by lia. by rewrite (proj2 (Z.ltb_lt _ _)).
Qed.

Lemma trim_alike e c d : alike c d → same (trim e [c]) (trim e [d]).
Proof.
  intros Hv. pose proof (view_proj _ _ Hv) as (_ & Hs & _ & _ & Hh). simpl. rewrite Hs, Hh.
  destruct (e <? _); [by constructor |]. destruct (_ <=? e); [done |].
  constructor; [by apply alike_set_start | done].
Qed.

Lemma trim_split e c S : e <= hi c → lf_start c <= e → Forall (before c) S →
  trim e (c :: S) = trim e [c] ++ trim e S.
Proof.
  intros He Hs Hb. simpl. rewrite (proj2 (Z.ltb_ge _ _)) by lia.
  destruct (Z.leb_spec (hi c) e); [done |]. simpl. by rewrite (trim_id e c).
Qed.

(** ** Merging adjacent locks *)

(** [m] is the one lock that stands for [c] and [d]. *)
Record merges (c d m : lockf) : Prop := {
  mg_id : lf_id c = lf_id d ∧ lf_id m = lf_id c;
  mg_head : lf_head m = lf_head c ∨ lf_head m = lf_head d;
  mg_type : lf_type c = lf_type d ∧ lf_type m = lf_type c;
  mg_range : hi c + 1 = lf_start d ∧ lf_start m = lf_start c ∧ lf_end m = lf_end d;
}.

Lemma run_merge j A1 c d m A2 :
  merges c d m → run j (A1 ++ c :: d :: A2) → run j (A1 ++ m :: A2).
Proof.
  intros [[Hcd Hmc] _ _ (Hadj & Hst & Hen)].
  assert (Hhi : hi m = hi d) by (unfold hi; by rewrite Hen).
  induction A1 as [|a A1 IH]; simpl; intros Hr.
  - inv Hr as [? Hf|? ? ? Hb Hr'].
    + inv Hf as [|? ? ? Hf']. inv Hf'. apply run_end. constructor; [congruence | done].
    + inv Hr' as [? Hf|? ? ? Hb' Hr'']; [by inv Hf |]. apply run_cons; [congruence | | done].
      eapply Forall_impl; [exact Hb' |]. unfold before. intros e He Hj. rewrite Hhi. auto.
  - inv Hr as [? Hf|? ? ? Hb Hr'].
    + inv Hf as [|? ? ? Hf']. rewrite Forall_app, !Forall_cons in Hf'. apply run_end.
      constructor; [done |]. rewrite Forall_app, Forall_cons. naive_solver congruence.
    + apply run_cons; [done | | by apply IH].
      rewrite Forall_app, !Forall_cons in Hb. rewrite Forall_app, Forall_cons.
      destruct Hb as (? & Hc & _ & ?). split_and!; [done | | done].
      unfold before in *. rewrite Hst. intros ?. apply Hc. congruence.
Qed.

Lemma grp_merge j A1 c d m A2 :
  merges c d m → grp j (A1 ++ c :: d :: A2) → grp j (A1 ++ m :: A2).
Proof.
  intros Hm. pose proof (mg_id _ _ _ Hm) as [Hcd Hmc].
  induction A1 as [|a A1 IH]; simpl; intros Hg.
  - inv Hg as [? Hr|? ? Hc Hg']; [by apply grp_run, (run_merge j [] c d) |].
    apply grp_skip; [congruence |]. inv Hg' as [? Hr|]; [| done].
    inv Hr as [? Hf|]; inv Hf; by apply grp_run, run_end.
  - inv Hg as [? Hr|]; [by apply grp_run, (run_merge j (a :: A1) c d) |].
    apply grp_skip; auto.
Qed.

Lemma linv_merge v A1 c d m A2 :
  merges c d m → linv v (A1 ++ c :: d :: A2) →
  linv v (A1 ++ m :: A2) ∧ ∀ i b t, holds (A1 ++ m :: A2) i b t ↔ holds (A1 ++ c :: d :: A2) i b t.
Proof.
  intros Hm [Hwf Hhd Hg]. pose proof Hm as [[Hcd Hmc] Hmh [Htc Htm] (Hadj & Hst & Hen)].
  rewrite Forall_app, !Forall_cons in Hwf. destruct Hwf as (Hw1 & Hc & Hd & Hw2).
  assert (Hhi : hi m = hi d) by (unfold hi; by rewrite Hen).
  pose proof (wf_hi _ Hc). pose proof (wf_hi _ Hd). split; [split |].
  - rewrite Forall_app, Forall_cons. split_and!; try done. unfold wf_lk in *. lia.
  - rewrite Forall_app, !Forall_cons in Hhd. rewrite Forall_app, Forall_cons.
    destruct Hhd as (? & ? & ? & ?). split_and!; try done. destruct Hmh; congruence.
  - intros j. by eapply grp_merge.
  - intros i b t. rewrite !holds_app, !holds_cons. unfold covers. rewrite Hhi, Hst.
    destruct (Z.le_gt_cases b (hi c)); naive_solver (congruence || lia).
Qed.

(** Locks of one owner whose ranges touch are neighbours in the list. *)
Lemma touching v A1 c X d A2 :
  linv v (A1 ++ c :: X ++ d :: A2) → lf_id c = lf_id d → hi c + 1 = lf_start d → X = [].
Proof.
  intros [Hwf _ Hg] Hid Ht. destruct (grp_pair _ _ _ _ _ _ (Hg (lf_id d)) Hid eq_refl) as [_ HX].
  destruct X as [|e X]; [done |]. exfalso. inv HX as [|? ? (_ & H1 & H2) _].
  apply Forall_app in Hwf as [_ Hwf]. inv Hwf as [|? ? _ Hwf']. inv Hwf' as [|? ? He _].
  pose proof (wf_hi e He). unfold before in *. lia.
Qed.

Lemma in_order v A1 c X d A2 :
  linv v (A1 ++ c :: X ++ d :: A2) → lf_id c = lf_id d → hi c < lf_start d.
Proof. intros [_ _ Hg] Hid. by apply (grp_pair _ _ _ _ _ _ (Hg (lf_id d)) Hid eq_refl). Qed.

(** ** The classification of overlaps *)

(** What each case says about the found lock [c] and the request [l]. *)
Definition case_facts (k : overlap_t) (c l : lockf) : Prop :=
  match k with
  | OVERLAP_NONE => False
  | OVERLAP_EQUALS_LOCK => lf_start c = lf_start l ∧ lf_end c = lf_end l
  | OVERLAP_CONTAINS_LOCK =>
      lf_start c <= lf_start l ∧ hi l <= hi c ∧ lf_end l ≠ -1 ∧
      (lf_start c < lf_start l ∨ hi l < hi c)
  | OVERLAP_CONTAINED_BY_LOCK => lf_start l <= lf_start c ∧ hi c <= hi l
  | OVERLAP_STARTS_BEFORE_LOCK => lf_start c < lf_start l ∧ hi c <= hi l
  | OVERLAP_ENDS_AFTER_LOCK => lf_start l < lf_start c ∧ hi l < hi c ∧ lf_end l ≠ -1
  end.

Lemma overlap_case_match c l :
  wf_lk c → wf_lk l → lf_start c <= hi l → lf_start l <= hi c →
  match overlap_case c (lf_start l) (lf_end l) with
  | Some k => case_facts k c l | None => False
  end.
Proof.
  unfold wf_lk, hi, overlap_case, OFF_MAX. intros.
  destruct (Z.eqb_spec (lf_start c) (lf_start l)), (Z.eqb_spec (lf_end c) (lf_end l));
  destruct (Z.eqb_spec (lf_end c) (-1)), (Z.eqb_spec (lf_end l) (-1));
  destruct (Z.leb_spec (lf_start c) (lf_start l)), (Z.leb_spec (lf_start l) (lf_start c));
  destruct (Z.ltb_spec (lf_start c) (lf_start l)); rewrite ?Z.geb_leb, ?Z.gtb_ltb; simpl;
  try lia; rewrite ?orb_true_r, ?orb_false_r, ?andb_true_r; simpl; try lia;
  repeat match goal with
         | |- context [?x <=? ?y] => destruct (Z.leb_spec x y); simpl; try lia
         | |- context [?x <? ?y] => destruct (Z.ltb_spec x y); simpl; try lia
         end; unfold hi; repeat case_match; lia.
Qed.

Lemma overlap_case_spec c l :
  wf_lk c → wf_lk l → lf_start c <= hi l → lf_start l <= hi c →
  ∃ k, overlap_case c (lf_start l) (lf_end l) = Some k ∧ case_facts k c l.
Proof.
  intros Hc Hl H1 H2. pose proof (overlap_case_match c l Hc Hl H1 H2) as H.
  destruct (overlap_case c _ _) as [k|]; [eauto | done].
Qed.
