(* ===== verification/LockfEdit.v ===== *)
(** * Editing a lock list in place

    The state of a walk over the locks of one vnode ([lst]), a specification
    of every edit the lock code makes to the list, and of [lf_findoverlap]. *)

From S2P Require Import Prelude Lockf LockfHeap LockfList.

(** In state [s], reached from [s0], the locks of [v] are [L]; only locks in
    [F] or allocated since were changed. *)
Record lst (v : vnode) (s0 : kst) (F : list ptr) (s : kst) (L : lks) : Prop := {
  ls_path : path s v L None;
  ls_nd : NoDup L.*1;
  ls_unb : ∀ x, x ∈ L.*1 → ¬ blocked (heap s) x;
  ls_BI : BI (heap s);
  ls_ev : evolves F v s0 s;
  ls_F : ∀ x, x ∈ L.*1 → x ∈ F ∨ x ∉ dom (heap s0);
}.

(** A lock outside the list. *)
Record solo (s : kst) (x : ptr) (r : lockf) : Prop := {
  so_at : heap s !! x = Some r;
  so_unb : ¬ blocked (heap s) x;
}.

Section edit.
Context (v : vnode) (s0 : kst) (F : list ptr).
Abbreviation lst := (lst v s0 F).
Definition mine (x : ptr) : Prop := x ∈ F ∨ x ∉ dom (heap s0).

Lemma lst_evolves T s s' L :
  lst s L → evolves T v s s' → (∀ x, x ∈ T → mine x ∧ x ∉ L.*1) →
  v_lockf s' !! v = v_lockf s !! v → lst s' L.
Proof.
  intros [Hp Hnd Hu HB He HF] E HT Hv. split; [| done | | | | done].
  - unfold path in *. rewrite Hv. eapply seg_frame; [| exact Hp]. intros x Hx.
    apply (ev_frame _ _ _ _ E); [intros Hin; by destruct (HT x Hin) | | by apply Hu].
    apply list_elem_of_fmap in Hx as ([y c] & -> & Hin).
    destruct (seg_lookup _ _ _ _ _ _ Hp Hin) as (r & Hr & _). apply elem_of_dom. eauto.
  - intros x Hx Hb. apply (Hu x Hx). by apply (ev_unb _ _ _ _ E).
  - by apply (ev_BI _ _ _ _ E).
  - eapply evolves_trans; [exact He | exact E |]. intros x Hx. by destruct (HT x Hx).
Qed.

Lemma solo_evolves T s s' x r :
  solo s x r → evolves T v s s' → x ∉ T →
  ∃ r', solo s' x r' ∧ core r' = core r ∧ lf_next r' = lf_next r.
Proof.
  intros [Hx Hu] E HT.
  assert (Hs : same_lk (heap s) (heap s') x).
  { apply (ev_frame _ _ _ _ E); [done | apply elem_of_dom; eauto | done]. }
  destruct (same_lk_lookup _ _ _ _ Hs Hx) as (r' & Hr' & ? & ?).
  exists r'. split; [| done]. split; [done |]. intros Hb. apply Hu.
  by apply (ev_unb _ _ _ _ E).
Qed.

(** The lock at a position of the list. *)
Lemma lst_lookup s L1 x c L2 :
  lst s (L1 ++ (x, c) :: L2) →
  ∃ r, solo s x r ∧ core r = c ∧ lf_next r = first L2 None.
Proof.
  intros [Hp _ Hu _ _ _]. unfold path in Hp. apply seg_app in Hp as [_ Hp].
  simpl in Hp. destruct Hp as (_ & r & Hr & Hc & Hs). exists r. split.
  - split; [done |]. apply Hu. rewrite fmap_app. simpl. set_solver.
  - split; [done |]. by eapply seg_first.
Qed.

Lemma lst_distinct s P0 x c M y d L :
  lst s ((P0 ++ [(x, c)]) ++ M ++ (y, d) :: L) → x ≠ y.
Proof.
  intros [_ Hnd _ _ _ _] ->. rewrite !fmap_app in Hnd. simpl in Hnd.
  apply NoDup_app in Hnd as (_ & Hd & _). apply (Hd y); set_solver.
Qed.

Lemma lst_head s L : lst s L → v_lockf s !! v = first L None.
Proof. intros H. eapply seg_first, (ls_path _ _ _ _ _ H). Qed.

Lemma lst_size s L : lst s L → (length L <= size (heap s))%nat.
Proof.
  intros [Hp Hnd _ _ _ _]. rewrite <- (length_fmap fst L), <- size_dom.
  rewrite <- (size_list_to_set (C := gset ptr)) by done. apply subseteq_size.
  intros x Hx. apply elem_of_list_to_set in Hx.
  apply list_elem_of_fmap in Hx as ([y c] & -> & Hin).
  destruct (seg_lookup _ _ _ _ _ _ Hp Hin) as (r & Hr & _). apply elem_of_dom. eauto.
Qed.

(** ** Edits *)

Lemma wp_modify_solo s L x r f (Q : () → kst → Prop) :
  lst s L → solo s x r → x ∉ L.*1 → mine x → lf_blkhd (f r) = lf_blkhd r →
  (∀ s', lst s' L → solo s' x (f r) → evolves [x] v s s' → v_lockf s' = v_lockf s → Q () s') →
  wp (modify x f) Q s.
Proof.
  intros HL [Hx Hu] Hnot Hm Hb HQ. eapply wp_modify; [done |].
  assert (E : evolves [x] v s (set_heap (<[x := f r]> (heap s)) s)).
  { eapply evolves_modify; eauto. }
  apply HQ; [| | done | done].
  - eapply lst_evolves; [done | exact E | | done]. intros y ->%list_elem_of_singleton. done.
  - split; [apply lookup_insert_eq |]. intros Hb'. by apply Hu, (ev_unb _ _ _ _ E).
Qed.

Lemma wp_free_solo s L x r (Q : () → kst → Prop) :
  lst s L → solo s x r → x ∉ L.*1 → mine x → lf_blkhd r = [] →
  (∀ s', lst s' L → evolves [x] v s s' → v_lockf s' = v_lockf s → Q () s') →
  wp (kheap_free x) Q s.
Proof.
  intros HL [Hx Hu] Hnot Hm Hb HQ. eapply wp_free; [done |].
  assert (E : evolves [x] v s (set_heap (delete x (heap s)) s)) by (by eapply evolves_free).
  apply HQ; [| done | done].
  eapply lst_evolves; [done | exact E | | done]. intros y ->%list_elem_of_singleton. done.
Qed.

Lemma lst_mine s L x : lst s L → x ∈ L.*1 → mine x.
Proof. intros HL. apply (ls_F _ _ _ _ _ HL). Qed.

(** Contents of a lock of the list changed in place. *)
Lemma wp_edit_at s L1 x c c' L2 f (Q : () → kst → Prop) :
  lst s (L1 ++ (x, c) :: L2) →
  (∀ r, core r = c → core (f r) = c' ∧ lf_next (f r) = lf_next r ∧ lf_blkhd (f r) = lf_blkhd r) →
  (∀ s', lst s' (L1 ++ (x, c') :: L2) → evolves [x] v s s' → v_lockf s' = v_lockf s →
     heap s' !! x = f <$> heap s !! x → Q () s') →
  wp (modify x f) Q s.
Proof.
  intros HL Hf HQ. destruct (lst_lookup _ _ _ _ _ HL) as (r & [Hx Hu] & Hc & Hn).
  destruct (Hf r Hc) as (Hc' & Hn' & Hb'). eapply wp_modify; [done |].
  assert (E : evolves [x] v s (set_heap (<[x := f r]> (heap s)) s)).
  { eapply evolves_modify; eauto. }
  apply HQ; [| done | done | by simpl; rewrite lookup_insert_eq, Hx].
  pose proof (lst_mine s _ x HL) as Hm. destruct HL as [Hp Hnd Hun HB He HF].
  rewrite fmap_app in *. simpl in *.
  assert (Hx1 : x ∉ L1.*1 ∧ x ∉ L2.*1).
  { apply NoDup_app in Hnd as (_ & Hd & Hnd). inv Hnd. split; [| done].
    intros Hin. apply (Hd x Hin). set_solver. }
  split; rewrite ?fmap_app; simpl; try done.
  - unfold path in *. simpl. apply seg_app in Hp as [Hp1 Hp2]. apply seg_app.
    simpl in *. destruct Hp2 as (_ & r' & Hr' & _ & Hp2). split; [| split; [done |]].
    + eapply seg_frame; [| exact Hp1]. intros y Hy. apply same_lk_insert_ne. set_solver.
    + exists (f r). rewrite lookup_insert_eq. split_and!; try done.
      rewrite Hn'. simplify_eq. eapply seg_frame; [| exact Hp2].
      intros y Hy. apply same_lk_insert_ne. set_solver.
  - intros y Hy Hb. by apply (Hun y Hy), (ev_unb _ _ _ _ E).
  - by apply (ev_BI _ _ _ _ E).
  - eapply evolves_trans; [exact He | exact E |]. intros y ->%list_elem_of_singleton.
    apply Hm. set_solver.
Qed.

Lemma wp_edit s L1 x c c' L2 f (Q : () → kst → Prop) :
  lst s (L1 ++ (x, c) :: L2) →
  (∀ r, core r = c → core (f r) = c' ∧ lf_next (f r) = lf_next r ∧ lf_blkhd (f r) = lf_blkhd r) →
  (∀ s', lst s' (L1 ++ (x, c') :: L2) → evolves [x] v s s' → v_lockf s' = v_lockf s → Q () s') →
  wp (modify x f) Q s.
Proof. intros HL Hf HQ. eapply wp_edit_at; [exact HL | exact Hf |]. auto. Qed.

Lemma ref_of_snoc L x c : ref_of v (L ++ [(x, c)]) = RNext x.
Proof. unfold ref_of. by rewrite last_snoc. Qed.

(** The link after [L1] redirected to a list [R] that is already in place. *)
Lemma wp_relink s L1 X R q (Q : () → kst → Prop) :
  lst s (L1 ++ X) → seg (heap s) q R None → NoDup (L1 ++ R).*1 →
  (∀ x, x ∈ R.*1 → ¬ blocked (heap s) x ∧ mine x) →
  (∀ s', lst s' (L1 ++ R) → evolves L1.*1 v s s' →
     (∀ y, y ∉ L1.*1 → heap s' !! y = heap s !! y) → Q () s') →
  wp (write_ref (ref_of v L1) q) Q s.
Proof.
  intros HL HR Hnd HRu HQ.
  assert (Hm : ∀ x, x ∈ L1.*1 → ¬ blocked (heap s) x ∧ mine x).
  { intros x Hx. assert (x ∈ (L1 ++ X).*1) by (rewrite fmap_app; set_solver).
    split; [by apply (ls_unb _ _ _ _ _ HL) | by eapply lst_mine]. }
  assert (Hfin : ∀ s', path s' v L1 q → evolves L1.*1 v s s' →
     (∀ y, y ∉ L1.*1 → heap s' !! y = heap s !! y) → Q () s').
  { intros s' Hp E Hy. apply HQ; [| done | done]. destruct HL as [_ _ _ HB He _].
    pose proof (seg_first _ _ _ _ HR). rewrite fmap_app in *. split; rewrite ?fmap_app; try done.
    - apply seg_app. subst q. split; [done |].
      eapply seg_frame; [| exact HR]. intros y Hin. unfold same_lk. rewrite Hy; [done |].
      apply NoDup_app in Hnd as (_ & Hd & _). set_solver.
    - intros x Hx Hb. apply (ev_unb _ _ _ _ E) in Hb. set_solver.
    - by apply (ev_BI _ _ _ _ E).
    - eapply evolves_trans; [exact He | exact E |]. intros x Hx. by apply Hm.
    - set_solver. }
  destruct L1 as [|[x c] L1' _] using rev_ind; simpl.
  - unfold ref_of; simpl. apply Hfin; [by apply lookup_partial_alter_eq | | done].
    apply evolves_struct; try done; eauto.
    intros v' Hv. simpl. by rewrite lookup_partial_alter_ne.
  - rewrite ref_of_snoc. simpl. rewrite <- app_assoc in HL. simpl in HL.
    destruct (lst_lookup _ _ _ _ _ HL) as (r & [Hx Hu] & Hc & Hn).
    eapply wp_modify; [done |]. apply Hfin.
    + unfold path. simpl. destruct HL as [Hp HndL _ _ _ _]. unfold path in Hp.
      change ((x, c) :: X) with ([(x, c)] ++ X) in Hp. rewrite app_assoc in Hp. apply seg_app in Hp as [Hp _].
      eapply seg_set_last; [done | | done]. rewrite fmap_app in Hnd.
      by apply NoDup_app in Hnd as [? _].
    + eapply evolves_weaken; [by eapply evolves_modify; eauto |].
      intros y ->%list_elem_of_singleton. left. rewrite fmap_app. set_solver.
    + intros y Hy. simpl. rewrite lookup_insert_ne; [done |]. rewrite fmap_app in Hy. set_solver.
Qed.

(** Waking the queue of a lock of the list, and moving a queue. *)
Lemma wp_wake_in s L1 x c L2 force (Q : () → kst → Prop) :
  lst s (L1 ++ (x, c) :: L2) →
  (∀ s', lst s' (L1 ++ (x, c) :: L2) → evolves [] v s s' → v_lockf s' = v_lockf s →
     (∃ r, solo s' x r ∧ lf_blkhd r = [] ∧ core r = c ∧ lf_next r = first L2 None) → Q () s') →
  wp (lf_wakelock x force) Q s.
Proof.
  intros HL HQ. destruct (lst_lookup _ _ _ _ _ HL) as (r & [Hx Hu] & Hc & Hn).
  eapply wp_wakelock; [by eapply ls_BI | done | done |].
  intros s' E Hv (r' & Hr' & Hb & Hc' & Hn'). apply HQ; [| done | done |].
  - eapply lst_evolves; [done | exact E | set_solver | by rewrite Hv].
  - exists r'. split_and!; try congruence. split; [done |]. intros Hb'.
    by apply Hu, (ev_unb _ _ _ _ E).
Qed.

Lemma wp_move s L to from rt rf (Q : () → kst → Prop) :
  lst s L → solo s to rt → solo s from rf → to ≠ from →
  (∀ s', lst s' L → evolves [] v s s' → v_lockf s' = v_lockf s →
     (∃ r, solo s' from r ∧ lf_blkhd r = [] ∧ core r = core rf ∧ lf_next r = lf_next rf) →
     Q () s') →
  wp (lf_move_blocked to from) Q s.
Proof.
  intros HL [Hto Hut] [Hfrom Huf] Hne HQ.
  eapply (wp_move_blocked v s to from rt rf); try done; [by eapply ls_BI |].
  intros s' E Hv (r' & Hr' & Hb & Hc' & Hn'). apply HQ; [| done | done |].
  - eapply lst_evolves; [done | exact E | set_solver | by rewrite Hv].
  - exists r'. split_and!; try done. split; [done |]. intros Hb'.
    by apply Huf, (ev_unb _ _ _ _ E).
Qed.

(** A lock outside the list put between [L1] and [L2], in place of [X]. *)
Lemma wp_link s L1 X L2 x r (Q : () → kst → Prop) :
  lst s (L1 ++ X ++ L2) → solo s x r → x ∉ (L1 ++ X ++ L2).*1 → mine x →
  (∀ s', lst s' (L1 ++ (x, core r) :: L2) → evolves (x :: L1.*1) v s s' →
     (∀ y, y ∉ x :: L1.*1 → heap s' !! y = heap s !! y) → Q () s') →
  wp (modify x (set_next (first L2 None)) ;; write_ref (ref_of v L1) (Some x)) Q s.
Proof.
  intros HL Hx Hnot Hm HQ. apply wp_bind. pose proof (so_at _ _ _ Hx) as Hat.
  eapply wp_modify; [done |]. set (s1 := set_heap _ s).
  assert (E1 : evolves [x] v s s1) by (eapply evolves_modify; eauto; left; apply Hx).
  assert (HL1 : lst s1 (L1 ++ X ++ L2)).
  { eapply lst_evolves; [done | exact E1 | | done]. by intros y ->%list_elem_of_singleton. }
  assert (Hu1 : ¬ blocked (heap s1) x) by (intros Hb; by apply Hx, (ev_unb _ _ _ _ E1)).
  pose proof HL1 as [Hp Hnd Hu _ _ HF].
  unfold path in Hp. rewrite app_assoc in Hp. apply seg_app in Hp as [_ Hp2].
  rewrite !fmap_app in *.
  eapply (wp_relink s1 L1 (X ++ L2) ((x, core r) :: L2)); [done | | | |].
  - simpl. split; [done |]. exists (set_next (first L2 None) r).
    by rewrite lookup_insert_eq.
  - rewrite fmap_app. simpl. apply NoDup_app in Hnd as (? & Hd & Hnd2).
    apply NoDup_app in Hnd2 as (_ & _ & ?). apply NoDup_app.
    split_and!; [done | set_solver | constructor; set_solver].
  - intros y Hy. simpl in Hy. apply elem_of_cons in Hy as [->|Hy]; [done |].
    split; [apply Hu | apply HF]; set_solver.
  - intros s2 HL2 E2 Hy. apply HQ; [done | |].
    + eapply (evolves_trans _ L1.*1); [eapply evolves_weaken; [exact E1 | set_solver] | exact E2 | set_solver].
    + intros y Hny. rewrite Hy by set_solver. simpl. by rewrite lookup_insert_ne by set_solver.
Qed.

Lemma write_modify_comm r p x f (Q : () → kst → Prop) s :
  r ≠ RNext x → wp (modify x f ;; write_ref r p) Q s → wp (write_ref r p ;; modify x f) Q s.
Proof.
  intros Hne. unfold wp. rewrite !st_bind_unfold. unfold modify.
  destruct r as [w|y]; simpl; [by destruct (heap s !! x) |].
  unfold modify. assert (x ≠ y) by congruence.
  destruct (heap s !! x) as [rx|] eqn:Hx; [| done]. simpl.
  rewrite lookup_insert_ne by done. destruct (heap s !! y) as [ry|]; [| done]. simpl.
  rewrite lookup_insert_ne, Hx by done. by rewrite insert_insert_ne.
Qed.

Lemma ref_of_ne L x : x ∉ L.*1 → ref_of v L ≠ RNext x.
Proof.
  destruct L as [|[y c] L _] using rev_ind; [done |]. rewrite ref_of_snoc, fmap_app.
  set_solver.
Qed.

Lemma wp_link_swap s L1 X L2 x r (Q : () → kst → Prop) :
  lst s (L1 ++ X ++ L2) → solo s x r → x ∉ (L1 ++ X ++ L2).*1 → mine x →
  (∀ s', lst s' (L1 ++ (x, core r) :: L2) → evolves (x :: L1.*1) v s s' →
     (∀ y, y ∉ x :: L1.*1 → heap s' !! y = heap s !! y) → Q () s') →
  wp (write_ref (ref_of v L1) (Some x) ;; modify x (set_next (first L2 None))) Q s.
Proof.
  intros HL Hx Hnot Hm HQ. apply write_modify_comm; [| by eapply wp_link].
  apply ref_of_ne. rewrite fmap_app in Hnot. set_solver.
Qed.

(** A lock of the list replaced by one outside it, and freed. *)
Lemma wp_replace_elem s L1 x c L2 lock rl r (Q : () → kst → Prop) :
  lst s (L1 ++ (x, c) :: L2) → solo s lock rl → lock ∉ (L1 ++ (x, c) :: L2).*1 → mine lock →
  heap s !! x = Some r → lf_blkhd r = [] →
  (∀ s', lst s' (L1 ++ (lock, core rl) :: L2) → Q () s') →
  wp (write_ref (ref_of v L1) (Some lock) ;; modify lock (set_next (first L2 None)) ;;
      kheap_free x) Q s.
Proof.
  intros HL Hl Hnot Hm Hx Hb HQ. apply wp_seq2.
  eapply (wp_link_swap s L1 [(x, c)] L2); [done.. |]. intros s1 HL1 E1 Hy.
  pose proof (ls_nd _ _ _ _ _ HL) as Hnd. pose proof (ls_unb _ _ _ _ _ HL x) as Hux.
  pose proof (lst_mine _ _ x HL) as Hmx.
  rewrite !fmap_app in *. simpl in *. apply NoDup_app in Hnd as (_ & Hd & Hnd). inv Hnd.
  assert (x ∉ L1.*1) by (intros Hin; apply (Hd x Hin); set_solver).
  eapply (wp_free_solo s1 _ x r); [exact HL1 | | | | done |].
  - split; [rewrite Hy by set_solver; done |].
    intros Hbx. apply (ev_unb _ _ _ _ E1) in Hbx. apply Hux; [set_solver | done].
  - rewrite fmap_app. simpl. set_solver.
  - apply Hmx. set_solver.
  - intros s2 HL2 _ _. by apply HQ.
Qed.

Lemma wp_unlink s L1 x c L2 (Q : () → kst → Prop) :
  lst s (L1 ++ (x, c) :: L2) →
  (∀ s', lst s' (L1 ++ L2) → evolves L1.*1 v s s' →
     x ∉ (L1 ++ L2).*1 → heap s' !! x = heap s !! x → ¬ blocked (heap s') x → Q () s') →
  wp (write_ref (ref_of v L1) (first L2 None)) Q s.
Proof.
  intros HL HQ. destruct (lst_lookup _ _ _ _ _ HL) as (r & [Hx Hu] & Hc & Hn).
  pose proof HL as [Hp Hnd Hun _ _ HF]. unfold path in Hp. apply seg_app in Hp as [_ Hp2].
  destruct Hp2 as (_ & r' & Hr' & _ & Hp2). simplify_eq. rewrite Hn in Hp2.
  rewrite fmap_app in *. simpl in *. apply NoDup_app in Hnd as (Hnd1 & Hd & Hnd2). inv Hnd2.
  eapply (wp_relink s L1 _ L2); [exact HL | done | | |].
  - rewrite fmap_app. apply NoDup_app. set_solver.
  - intros y Hy. split; [apply Hun | apply HF]; set_solver.
  - intros s' HL' E Hy. apply HQ; [done | done | | | ].
    + set_solver.
    + apply Hy. set_solver.
    + intros Hb. by apply Hu, (ev_unb _ _ _ _ E).
Qed.

(** ** [lf_findoverlap] *)

(** What the search reports when it gets to the list [R]. *)
Definition found (lk : lockf) (R : lks) : option overlap_t :=
  match R with
  | [] => Some OVERLAP_NONE
  | (_, c) :: _ =>
      if negb (bool_decide (lf_id c = lf_id lk)) || (hi lk <? lf_start c)
      then Some OVERLAP_NONE else overlap_case c (lf_start lk) (lf_end lk)
  end.

Lemma fo_skip_foreign n s x r lk prev :
  heap s !! x = Some r → lf_id r ≠ lf_id lk →
  findoverlap_loop (S n) (Some x) lk SELF prev false s =
  findoverlap_loop n (lf_next r) lk SELF (RNext x) false s.
Proof.
  intros Hx Hid. cbn [findoverlap_loop]. rewrite st_bind_unfold. unfold deref. rewrite Hx.
  by rewrite bool_decide_eq_false_2.
Qed.

Lemma fo_skip_before n s x r lk prev fs :
  heap s !! x = Some r → lf_id r = lf_id lk → wf_lk r → wf_lk lk → hi r < lf_start lk →
  findoverlap_loop (S n) (Some x) lk SELF prev fs s =
  findoverlap_loop n (lf_next r) lk SELF (RNext x) true s.
Proof.
  intros Hx Hid Hr Hl Hlt. cbn [findoverlap_loop]. rewrite st_bind_unfold. unfold deref.
  rewrite Hx, bool_decide_eq_true_2 by done. simpl.
  unfold wf_lk, hi, OFF_MAX in *. rewrite !Z.gtb_ltb.
  destruct (Z.eqb_spec (lf_end r) (-1)), (Z.eqb_spec (lf_end lk) (-1)),
    (Z.ltb_spec (lf_end r) (lf_start lk)), (Z.ltb_spec (lf_end lk) (lf_start r));
    try lia; by rewrite orb_true_r.
Qed.

Lemma fo_stop n s x r lk prev fs k R :
  heap s !! x = Some r → wf_lk r → wf_lk lk →
  (lf_id r ≠ lf_id lk → fs = true) → (lf_id r = lf_id lk → lf_start lk <= hi r) →
  found lk ((x, core r) :: R) = Some k →
  findoverlap_loop (S n) (Some x) lk SELF prev fs s = Ok ((k, prev, Some x), s).
Proof.
  intros Hx Hr Hl Hfs Hge Hf. cbn [findoverlap_loop]. rewrite st_bind_unfold. unfold deref.
  rewrite Hx. unfold found in Hf. simpl in Hf.
  case_bool_decide as Hid; simpl in *.
  - specialize (Hge Hid). rewrite orb_true_r. unfold wf_lk, hi, OFF_MAX in *.
    rewrite !Z.gtb_ltb. change (overlap_case (core r)) with (overlap_case r) in Hf.
    destruct (Z.eqb_spec (lf_end r) (-1)), (Z.eqb_spec (lf_end lk) (-1));
      simpl in *; destruct (Z.ltb_spec (lf_end r) (lf_start lk)); simpl;
      repeat match goal with
             | H : context [?a <? ?b] |- _ => destruct (Z.ltb_spec a b); simpl; try lia
             | |- context [?a <? ?b] => destruct (Z.ltb_spec a b); simpl; try lia
             end; simplify_eq; try done; by rewrite Hf.
  - rewrite Hfs by done. by simplify_eq.
Qed.

Lemma fo_foreign A : ∀ n s P R lk,
  lst s (P ++ A ++ R) → Forall (λ e, lf_id e.2 ≠ lf_id lk) A →
  findoverlap_loop (length A + n) (first (A ++ R) None) lk SELF (ref_of v P) false s =
  findoverlap_loop n (first R None) lk SELF (ref_of v (P ++ A)) false s.
Proof.
  induction A as [|[x c] A IH]; intros n s P R lk HL HA; [by rewrite app_nil_r |].
  inv HA as [|? ? Hid HA']. destruct (lst_lookup _ _ _ _ _ HL) as (r & [Hx _] & Hc & Hn).
  simpl length. simpl first. cbn [Nat.add].
  rewrite (fo_skip_foreign _ s x r) by (done || by apply core_proj in Hc as (_&_&_&_&_&->&_)).
  rewrite Hn, <- (ref_of_snoc P x c), IH.
  - by rewrite <- app_assoc.
  - by rewrite <- app_assoc.
  - done.
Qed.

Lemma fo_before S1 : ∀ n s P R lk fs,
  lst s (P ++ S1 ++ R) → wf_lk lk →
  Forall (λ e, lf_id e.2 = lf_id lk ∧ wf_lk e.2 ∧ hi e.2 < lf_start lk) S1 →
  findoverlap_loop (length S1 + n) (first (S1 ++ R) None) lk SELF (ref_of v P) fs s =
  findoverlap_loop n (first R None) lk SELF (ref_of v (P ++ S1))
    (fs || negb (bool_decide (S1 = []))) s.
Proof.
  induction S1 as [|[x c] A IH]; intros n s P R lk fs HL Hl HA.
  { simpl. by rewrite app_nil_r, orb_false_r. }
  inv HA as [|? ? (Hid & Hwf & Hhi) HA']. simpl in Hid, Hwf, Hhi.
  destruct (lst_lookup _ _ _ _ _ HL) as (r & [Hx _] & Hc & Hn).
  simpl length. simpl first. cbn [Nat.add]. subst c.
  rewrite (fo_skip_before _ s x r) by done.
  rewrite Hn, <- (ref_of_snoc P x (core r)), IH; [| by rewrite <- app_assoc | done | done].
  rewrite <- app_assoc. simpl. by rewrite orb_true_r.
Qed.

Lemma wp_findoverlap s P A S1 R lock rl k (Q : overlap_t * lref * option ptr → kst → Prop) :
  lst s (P ++ A ++ S1 ++ R) → heap s !! lock = Some rl → wf_lk rl →
  Forall (λ e, lf_id e.2 ≠ lf_id rl) A →
  Forall (λ e, lf_id e.2 = lf_id rl ∧ wf_lk e.2 ∧ hi e.2 < lf_start rl) S1 →
  (∀ x c, head R = Some (x, c) → wf_lk c ∧ (lf_id c ≠ lf_id rl → S1 ≠ []) ∧
     (lf_id c = lf_id rl → lf_start rl <= hi c)) →
  found rl R = Some k →
  Q (k, ref_of v (P ++ A ++ S1), first R None) s →
  wp (lf_findoverlap (first (A ++ S1 ++ R) None) lock SELF (ref_of v P)) Q s.
Proof.
  intros HL Hlock Hwl HA HS1 HR Hk HQ. unfold lf_findoverlap.
  destruct (first (A ++ S1 ++ R) None) as [y|] eqn:Hfirst.
  2: { destruct A as [|[] ?]; [| done]. destruct S1 as [|[] ?]; [| done].
       destruct R as [|[] ?]; [| done]. simpl in *. simplify_eq.
       rewrite !app_nil_r in HQ. by apply wp_ret. }
  apply wp_bind. eapply wp_deref; [done |]. apply wp_bind, wp_list_fuel.
  eapply wp_of_Ok; [| exact HQ]. rewrite <- Hfirst.
  pose proof (lst_size _ _ HL) as Hsz. rewrite !length_app in Hsz.
  replace (S (size (heap s))) with
    (length A + (length S1 + S (size (heap s) - length A - length S1)))%nat by lia.
  rewrite fo_foreign by done. rewrite fo_before; [| by rewrite <- app_assoc | done | done].
  rewrite <- app_assoc. destruct R as [|[x c] R]; [simpl in *; by simplify_eq |].
  rewrite (app_assoc A), (app_assoc P) in HL.
  destruct (lst_lookup _ _ _ _ _ HL) as (r & [Hx _] & Hc & Hn).
  destruct (HR x c eq_refl) as (Hwc & Hfor & Hown). subst c. simpl first.
  eapply fo_stop; [done | done | done | | done | exact Hk].
  intros Hne. rewrite bool_decide_eq_false_2; [done |]. by apply Hfor.
Qed.

End edit.
