(* ===== verification/LockfGrant.v ===== *)
(** * Granting a lock

    [lf_setlock] once nothing blocks the request: the overlap cases, the
    removal of what the new lock replaces, and coalescing. *)

From S2P Require Import Prelude Lockf LockfHeap LockfList LockfEdit.

Lemma s64_succ c : wf_lk c → lf_end c ≠ -1 → s64 (lf_end c + 1) = hi c + 1.
Proof.
  intros Hc He. rewrite hi_end by done. apply swrap_small; [lia |].
  unfold wf_lk, OFF_MAX in Hc. lia.
Qed.

Lemma s64_pred c : wf_lk c → s64 (lf_start c - 1) = lf_start c - 1.
Proof. intros Hc. apply swrap_small; [lia |]. unfold wf_lk, OFF_MAX in Hc. lia. Qed.

Lemma core_wf r c : core r = c → wf_lk c → wf_lk r.
Proof. by intros <-. Qed.

Lemma Forall_snd (P : lockf → Prop) (L : lks) : Forall P L.*2 ↔ Forall (λ e, P e.2) L.
Proof. apply Forall_fmap. Qed.

Section grant.
Context (v : vnode) (s0 : kst) (F : list ptr).
Abbreviation lst := (lst v s0 F).
Abbreviation mine := (mine s0 F).

Lemma wp_empty_queue s L1 x c L2 lock rt (b : bool) (Q : () → kst → Prop) :
  lst s (L1 ++ (x, c) :: L2) → solo s lock rt → lock ≠ x →
  (∀ s', lst s' (L1 ++ (x, c) :: L2) → evolves [] v s s' →
     (∃ r, solo s' x r ∧ lf_blkhd r = [] ∧ core r = c ∧ lf_next r = first L2 None) → Q () s') →
  wp (if b then lf_wakelock x true else lf_move_blocked lock x) Q s.
Proof.
  intros HL Hlock Hne HQ. destruct b.
  - eapply wp_wake_in; [exact HL |]. intros s' HL' E _ Hr. by apply HQ.
  - destruct (lst_lookup _ _ _ _ _ _ _ _ HL) as (r & Hx & Hc & Hn).
    eapply wp_move; [exact HL | exact Hlock | exact Hx | done |].
    intros s' HL' E _ (r' & ? & ? & ? & ?). apply HQ; [done | done |].
    exists r'. split_and!; congruence.
Qed.

(** Which cases an own lock that starts later can be. *)
Lemma found_rest rl x c R :
  wf_lk rl → lf_id c = lf_id rl → wf_lk c → lf_start rl < lf_start c →
  ∃ k, found rl ((x, c) :: R) = Some k ∧
    ((k = OVERLAP_NONE ∧ hi rl < lf_start c) ∨
     (k = OVERLAP_CONTAINED_BY_LOCK ∧ lf_start c <= hi rl ∧ hi c <= hi rl) ∨
     (k = OVERLAP_ENDS_AFTER_LOCK ∧ lf_start c <= hi rl ∧ hi rl < hi c ∧ lf_end rl ≠ -1)).
Proof.
  intros Hwf Hid Hwc Hst. simpl. rewrite bool_decide_eq_true_2 by done. simpl.
  destruct (Z.ltb_spec (hi rl) (lf_start c)); [by eauto |].
  pose proof (wf_hi c Hwc) as [? _].
  destruct (overlap_case_spec c rl Hwc Hwf ltac:(done) ltac:(lia)) as (k & -> & Hk).
  destruct k; simpl in Hk; try lia; destruct Hk; eauto 12.
Qed.

(** The rest of the loop once the new lock is in the list: [trim]. *)
Lemma wp_grant_rest lock cl A2 S2 : ∀ n s P0 (Q : Z * ptr → kst → Prop),
  lst s ((P0 ++ [(lock, cl)]) ++ S2 ++ A2) → (length S2 < n)%nat → wf_lk cl →
  Forall (λ e, lf_id e.2 = lf_id cl ∧ wf_lk e.2 ∧ lf_start cl < lf_start e.2) S2 →
  ordered S2.*2 → Forall (λ e, lf_id e.2 ≠ lf_id cl) A2 →
  (∀ s' S2', lst s' ((P0 ++ [(lock, cl)]) ++ S2' ++ A2) →
     same S2'.*2 (trim (hi cl) S2.*2) → Q (0, lock) s') →
  wp (grant_loop n (first (S2 ++ A2) None) lock (ref_of v (P0 ++ [(lock, cl)])) false) Q s.
Proof.
  induction S2 as [|[x c] S3 IH]; intros n s P0 Q HL Hn Hwf HS Ho HA HQ;
    (destruct n as [|n]; [simpl in Hn; lia |]); cbn [grant_loop].
  all: assert (Hl := HL); rewrite <- app_assoc in Hl; simpl in Hl;
    destruct (lst_lookup _ _ _ _ _ _ _ _ Hl) as (rl & [Hlock Hul] & Hcl & _); clear Hl.
  - apply wp_bind. simpl app.
    replace (first A2 None) with (first (A2 ++ [] ++ []) None) by (by rewrite !app_nil_r).
    eapply (wp_findoverlap v s0 F s _ A2 [] []); [by rewrite !app_nil_r | done | | | done | done | done |].
    { by eapply core_wf. }
    { by subst cl. }
    apply wp_bind, wp_ret, wp_ret. by apply (HQ s []).
  - inv HS as [|? ? (Hid & Hwc & Hst) HS']. simpl in Hid, Hwc, Hst, Ho.
    inv Ho as [|? ? Ho' Hb]. simpl in Hn.
    destruct (found_rest rl x c (S3 ++ A2)) as (k & Hf & Hk); [done.. |].
    apply wp_bind.
    eapply (wp_findoverlap v s0 F s _ [] [] ((x, c) :: S3 ++ A2)); [exact HL | done.. | | exact Hf |].
    { intros y d [= <- <-]. split_and!; [done | done |]. intros _.
      pose proof (wf_hi c Hwc). simpl in Hst. lia. }
    simpl app. rewrite app_nil_r.
    destruct Hk as [(-> & Hlt)|[(-> & Hle & Hhi)|(-> & Hle & Hhi & Hend)]].
    + apply wp_bind, wp_ret, wp_ret. apply (HQ s ((x, c) :: S3)); [done |].
      simpl. by rewrite (proj2 (Z.ltb_lt _ _)).
    + destruct (lst_lookup _ _ _ _ _ _ _ _ HL) as (ro & [Hx Hux] & Hco & Hno). simpl first.
      pose proof (lst_distinct _ _ _ _ P0 lock _ [] x c (S3 ++ A2) HL) as Hne.
      pose proof (lst_mine v s0 F s _ x HL ltac:(rewrite !fmap_app; set_solver)) as Hm.
      apply wp_bind. eapply wp_deref; [done |]. apply wp_bind. eapply wp_deref; [done |].
      apply wp_bind. eapply wp_empty_queue; [exact HL | by split | done |].
      intros s1 HL1 E1 (r1 & [Hx1 _] & Hb1 & Hc1 & Hn1).
      apply wp_bind. eapply wp_deref; [done |]. rewrite Hn1.
      apply wp_bind. eapply wp_unlink; [exact HL1 |]. intros s2 HL2 E2 Hnot Hsm Hu2.
      apply wp_bind. eapply (wp_free_solo v s0 F s2 _ x r1); [exact HL2 | | done.. |].
      { split; [by rewrite Hsm | done]. }
      intros s3 HL3 _ _. rewrite Hno. apply (IH n s3 P0); try done; [lia |].
      intros s' S2' HL' Hs. apply (HQ s' S2'); [done |]. simpl.
      rewrite (proj2 (Z.ltb_ge _ _)) by done. by rewrite (proj2 (Z.leb_le _ _)).
    + destruct (lst_lookup _ _ _ _ _ _ _ _ HL) as (ro & [Hx Hux] & Hco & Hno). simpl first.
      apply wp_bind. eapply wp_deref; [done |]. apply wp_bind. eapply wp_deref; [done |].
      apply wp_bind, wp_ret. apply wp_bind.
      eapply (wp_edit v s0 F s _ x c (set_start (hi rl + 1) c)); [exact HL | |].
      { intros r <-. rewrite s64_succ by done. done. }
      intros s1 HL1 _ _. apply wp_bind. eapply wp_wake_in; [exact HL1 |].
      intros s2 HL2 _ _ _. apply wp_ret. apply (HQ s2 ((x, set_start (hi rl + 1) c) :: S3)); [done |].
      simpl. rewrite (proj2 (Z.ltb_ge _ _)) by done. by rewrite (proj2 (Z.leb_gt _ _)).
Qed.

(** ** Splitting *)

Lemma modify_next_ref s L x c q (Q : () → kst → Prop) :
  wp (write_ref (ref_of v (L ++ [(x, c)])) q) Q s → wp (modify x (set_next q)) Q s.
Proof. by rewrite ref_of_snoc. Qed.

(** A lock put after [x], the end of [x] cut back before it. *)
Lemma wp_insert_after s L1 x c L2 lock rl (Q : () → kst → Prop) :
  lst s (L1 ++ (x, c) :: L2) → solo s lock rl → lock ∉ (L1 ++ (x, c) :: L2).*1 → mine lock →
  (∀ s', lst s' (L1 ++ (x, c) :: (lock, core rl) :: L2) → Q () s') →
  wp (modify lock (set_next (first L2 None)) ;; modify x (set_next (Some lock))) Q s.
Proof.
  intros HL Hl Hnot Hm HQ.
  change ((x, c) :: L2) with ([(x, c)] ++ [] ++ L2) in HL, Hnot. rewrite app_assoc in HL, Hnot.
  pose proof (wp_link v s0 F s (L1 ++ [(x, c)]) [] L2 lock rl Q HL Hl Hnot Hm) as H.
  rewrite ref_of_snoc in H. apply H. intros s' HL' _ _. apply HQ. by rewrite <- app_assoc in HL'.
Qed.

(** The lock [lock] and the new lock [p] chained and put after [x]. *)
Lemma wp_chain s L1 x c L2 lock rl p rp (Q : () → kst → Prop) :
  lst s (L1 ++ (x, c) :: L2) → solo s lock rl → solo s p rp → mine lock → mine p →
  NoDup (lock :: p :: (L1 ++ (x, c) :: L2).*1) →
  (∀ s', lst s' (L1 ++ (x, c) :: (lock, core rl) :: (p, core rp) :: L2) → Q () s') →
  wp (modify p (set_next (first L2 None)) ;; modify lock (set_next (Some p)) ;;
      modify x (set_next (Some lock))) Q s.
Proof.
  intros HL Hl Hp Hml Hmp Hnd HQ. pose proof Hnd as Hnd0. inv Hnd as [|? ? Hnl Hnd']. inv Hnd' as [|? ? Hnp Hnd].
  apply not_elem_of_cons in Hnl as [Hlp Hnl].
  apply wp_bind. eapply wp_modify_solo; [exact HL | exact Hp | done.. |].
  intros s1 HL1 [Hp1 Hup] E1 _.
  destruct (solo_evolves v [p] s s1 lock rl Hl E1) as (rl1 & Hl1 & Hcl1 & _); [set_solver |].
  apply wp_bind. eapply wp_modify_solo; [exact HL1 | exact Hl1 | done.. |].
  intros s2 HL2 [Hl2 Hul] E2 _.
  destruct (solo_evolves v [lock] s1 s2 p _ ltac:(by split) E2) as (rp2 & [Hp2 Hup2] & Hcp2 & Hn2).
  { set_solver. }
  apply (modify_next_ref s2 L1 x c). pose proof HL2 as [Hpath Hnd2 Hu2 _ _ HF].
  unfold path in Hpath. change ((x, c) :: L2) with ([(x, c)] ++ L2) in *.
  rewrite app_assoc in *. apply seg_app in Hpath as [_ Hseg].
  eapply (wp_relink v s0 F s2 (L1 ++ [(x, c)]) L2 ((lock, core rl) :: (p, core rp) :: L2)); [exact HL2 | | | |].
  - simpl. split; [done |]. eexists. split; [exact Hl2 |]. split; [by rewrite <- Hcl1 |].
    simpl. split; [done |]. exists rp2. split; [done |]. split; [by rewrite Hcp2 |].
    by rewrite Hn2.
  - rewrite fmap_app, !fmap_cons. cbn [fst]. rewrite fmap_app in Hnd0.
    by rewrite <- (Permutation_middle _ (p :: _)), <- (Permutation_middle _ _ p).
  - intros y Hy. simpl in Hy. rewrite fmap_app in Hu2, HF.
    apply elem_of_cons in Hy as [->|Hy]; [done |].
    apply elem_of_cons in Hy as [->|Hy]; [done |].
    assert (Hy' : y ∈ (L1 ++ [(x, c)]).*1 ++ L2.*1) by (apply elem_of_app; by right).
    split; [by apply Hu2 | by apply HF].
  - intros s3 HL3 _ _. apply HQ. by rewrite <- app_assoc in HL3.
Qed.

Section split.
Context (s : kst) (L1 : lks) (x : ptr) (c : lockf) (L2 : lks) (lock : ptr) (rl : lockf).
Context (HL : lst s (L1 ++ (x, c) :: L2)) (Hl : solo s lock rl).
Context (Hnot : lock ∉ (L1 ++ (x, c) :: L2).*1) (Hm : mine lock).
Context (Hc : wf_lk c) (Hwl : wf_lk rl) (Hst : lf_start c < lf_start rl).
Context (Hhi : hi rl <= hi c) (Hend : lf_end rl ≠ -1).

Definition cut : lockf := set_end (lf_start rl - 1) c.

Lemma lock_ne : lock ≠ x.
Proof. intros E. apply Hnot. rewrite fmap_app. subst. set_solver. Qed.

Lemma wp_split2 (Q : Z → kst → Prop) :
  lf_end c = lf_end rl →
  (∀ s', lst s' (L1 ++ (x, cut) :: (lock, core rl) :: L2) → Q 0 s') →
  wp (lf_split x lock) Q s.
Proof.
  intros He HQ. unfold lf_split.
  destruct (lst_lookup _ _ _ _ _ _ _ _ HL) as (ro & [Hx Hux] & Hco & Hno).
  apply wp_bind. eapply wp_deref; [done |]. apply wp_bind. eapply wp_deref; [apply Hl |].
  apply core_proj in Hco as (_ & _ & _ & Hs & He' & _).
  rewrite (proj2 (Z.eqb_neq _ _)) by lia. rewrite (proj2 (Z.eqb_eq _ _)) by lia.
  apply wp_bind. eapply (wp_edit v s0 F s L1 x c cut); [exact HL | |].
  { intros r Hr. rewrite s64_pred by done. unfold cut. by rewrite <- Hr. }
  intros s1 HL1 E1 _. destruct (lst_lookup _ _ _ _ _ _ _ _ HL1) as (r1 & [Hx1 _] & _ & Hn1).
  destruct (solo_evolves v [x] s s1 lock rl Hl E1) as (rl1 & Hl1 & Hcl1 & _).
  { pose proof lock_ne. set_solver. }
  apply wp_bind. eapply wp_deref; [done |]. rewrite Hn1. apply wp_seq2.
  eapply wp_insert_after; [exact HL1 | exact Hl1 | | done |].
  { pose proof Hnot as Hnot'. rewrite fmap_app in Hnot' |- *. done. }
  intros s2 HL2. apply wp_ret, HQ. by rewrite <- Hcl1.
Qed.

(** The structure allocated for the upper part. *)
Lemma wp_split_alloc p ro (Q : () → kst → Prop) :
  heap s !! x = Some ro → heap s !! p = None →
  (∀ s', lst s' (L1 ++ (x, c) :: L2) → solo s' lock rl → mine p →
     p ∉ lock :: (L1 ++ (x, c) :: L2).*1 →
     solo s' p (set_blkhd [] (set_start (s64 (lf_end rl + 1)) ro)) → Q () s') →
  wp (modify p (set_start (s64 (lf_end rl + 1))) ;; modify p (set_blkhd [])) Q
    (set_heap (<[p := ro]> (heap s)) s).
Proof.
  intros Hx Hp HQ. apply wp_bind. eapply wp_modify; [simpl; apply lookup_insert_eq |].
  eapply wp_modify; [simpl; apply lookup_insert_eq |]. rewrite !set_heap_set_heap. simpl.
  rewrite !insert_insert_eq. set (rp := set_blkhd [] _). set (s' := set_heap _ s).
  assert (E : evolves [p] v s s').
  { apply evolves_alloc; [done | done | by eapply ls_BI]. }
  assert (Hub : ∀ y, ¬ blocked (heap s) y → ¬ blocked (heap s') y).
  { intros y Hy Hb. by apply Hy, (ev_unb _ _ _ _ E). }
  assert (Hmp : mine p).
  { destruct (decide (p ∈ F)); [by left | right]. intros Hd.
    apply (ev_dom _ _ _ _ (ls_ev _ _ _ _ _ HL)) in Hd; [| done].
    apply elem_of_dom in Hd as [? ?]. congruence. }
  assert (Hpn : p ∉ (L1 ++ (x, c) :: L2).*1).
  { intros Hin. apply list_elem_of_fmap in Hin as ([y d] & Hy & Hin). simpl in Hy. subst y.
    destruct (seg_lookup _ _ _ _ _ _ (ls_path _ _ _ _ _ HL) Hin) as (? & ? & _). congruence. }
  destruct Hl as [Hlk Hul]. assert (p ≠ lock) by congruence.
  apply HQ; [| | done | set_solver |].
  - eapply lst_evolves; [exact HL | exact E | | done]. by intros y ->%list_elem_of_singleton.
  - split; [| by apply Hub]. simpl. by rewrite lookup_insert_ne.
  - split; [apply lookup_insert_eq |]. apply Hub. intros (y & ry & Hy & Hin).
    destruct (proj2 (ls_BI _ _ _ _ _ HL y ry Hy) p Hin) as (? & ? & _). congruence.
Qed.

Lemma wp_split3 (Q : Z → kst → Prop) :
  lf_end c ≠ lf_end rl →
  (∀ s' p, lst s' (L1 ++ (x, cut) :: (lock, core rl) :: (p, set_start (hi rl + 1) c) :: L2) → Q 0 s') →
  (nomem s = true → Q ENOLCK s) →
  wp (lf_split x lock) Q s.
Proof.
  intros He HQ Hno. unfold lf_split.
  destruct (lst_lookup _ _ _ _ _ _ _ _ HL) as (ro & [Hx Hux] & Hco & Hnx).
  apply wp_bind. eapply wp_deref; [done |]. apply wp_bind. eapply wp_deref; [apply Hl |].
  pose proof (core_proj _ _ Hco) as (_ & _ & _ & Hs & He' & _).
  rewrite (proj2 (Z.eqb_neq _ _)) by lia. rewrite (proj2 (Z.eqb_neq _ _)) by lia.
  apply wp_bind. unfold kheap_alloc. unfold wp at 1. destruct (nomem s); [by apply wp_ret, Hno |].
  set (p := fresh (dom (heap s))).
  assert (Hp : heap s !! p = None) by (apply not_elem_of_dom, is_fresh).
  apply wp_seq2, (wp_split_alloc p ro); [done | done |].
  intros s1 HL1 Hl1 Hmp Hpn Hp1. apply wp_bind.
  eapply (wp_edit v s0 F s1 L1 x c cut); [exact HL1 | |].
  { intros r Hr. rewrite s64_pred by done. unfold cut. by rewrite <- Hr. }
  intros s2 HL2 E2 _. destruct (lst_lookup _ _ _ _ _ _ _ _ HL2) as (r2 & [Hx2 _] & _ & Hn2).
  destruct (solo_evolves v [x] s1 s2 lock rl Hl1 E2) as (rl2 & Hl2 & Hcl2 & _).
  { pose proof lock_ne. set_solver. }
  destruct (solo_evolves v [x] s1 s2 p _ Hp1 E2) as (rp2 & Hp2 & Hcp2 & _).
  { rewrite fmap_app in Hpn. set_solver. }
  apply wp_bind. eapply wp_deref; [done |]. rewrite Hn2. apply wp_seq3.
  eapply (wp_chain s2 L1 x cut L2 lock rl2 p rp2); [exact HL2 | done.. | |].
  { pose proof (ls_nd _ _ _ _ _ HL) as Hnd. pose proof Hnot as Hnot'.
    rewrite fmap_app in *. simpl in *. constructor; [set_solver |]. constructor; [set_solver | done]. }
  intros s3 HL3. apply wp_ret, (HQ s3 p). rewrite Hcl2, Hcp2 in HL3.
  rewrite s64_succ in HL3 by done. by rewrite <- Hco.
Qed.

Lemma wp_split (Q : Z → kst → Prop) :
  (∀ s' Rt, lst s' (L1 ++ (x, cut) :: (lock, core rl) :: Rt ++ L2) →
     Rt.*2 = trim (hi rl) [c] → Q 0 s') →
  (nomem s = true → Q ENOLCK s) →
  wp (lf_split x lock) Q s.
Proof.
  intros HQ Hno. pose proof (wf_hi _ Hwl). simpl in HQ.
  rewrite (proj2 (Z.ltb_ge _ _)) in HQ by lia.
  destruct (decide (lf_end c = lf_end rl)) as [He|He].
  - apply wp_split2; [done |]. intros s' HL'. apply (HQ s' []); [done |].
    rewrite (proj2 (Z.leb_le _ _)); [done |]. unfold hi. rewrite He. lia.
  - apply wp_split3; [done | | done]. intros s' p HL'.
    apply (HQ s' [(p, set_start (hi rl + 1) c)]); [done |].
    rewrite (proj2 (Z.leb_gt _ _)); [done |]. rewrite (hi_end rl) in * by done.
    unfold hi in *. destruct (Z.eqb_spec (lf_end c) (-1)); [| lia].
    unfold wf_lk, OFF_MAX in Hwl. lia.
Qed.

End split.

(** ** The first pass of the loop *)

Section first.
Context (s : kst) (A1 S1 S2 A2 : lks) (lock : ptr) (rl : lockf).
Context (HL : lst s (A1 ++ S1 ++ S2 ++ A2)) (Hl : solo s lock rl).
Context (Hnot : lock ∉ (A1 ++ S1 ++ S2 ++ A2).*1) (Hm : mine lock) (Hw : wf_lk rl).
Context (Har : around rl A1.*2 S1.*2 S2.*2 A2.*2).
Context (Hwait : lf_end rl ≠ -1 → lf_blkhd rl = []).

Abbreviation old := (A1 ++ S1 ++ S2 ++ A2).

Context (Q : Z * ptr → kst → Prop).
Context (HQ : ∀ s' L' p, lst s' L' → p ∈ L'.*1 → granted rl old.*2 L'.*2 → Q (0, p) s').
Context (Hno : ∀ s', lst s' old → nomem s = true → Q (ENOLCK, lock) s').

Lemma finish s' S' p :
  lst s' (A1 ++ S' ++ A2) → p ∈ S'.*1 → same S'.*2 (replaced rl S1.*2 S2.*2) → Q (0, p) s'.
Proof.
  intros HL' Hp Hs. apply (HQ s' (A1 ++ S' ++ A2)); [done | rewrite !fmap_app; set_solver |].
  pose proof (granted_replaced rl _ _ _ _ Hw Har) as [Hi Hh]. rewrite !fmap_app. split.
  - by rewrite Hs.
  - intros i b t. by rewrite Hs, Hh.
Qed.

Lemma replaced_apart :
  (∀ o, head S2.*2 = Some o → hi rl < lf_start o) →
  replaced rl S1.*2 S2.*2 = S1.*2 ++ rl :: S2.*2.
Proof.
  intros Ha. unfold replaced. destruct S2 as [|[x c] S3]; [done |]. simpl.
  specialize (Ha c eq_refl). pose proof (wf_hi _ Hw).
  rewrite (proj2 (Z.ltb_ge _ _)) by lia. by rewrite (proj2 (Z.ltb_lt _ _)).
Qed.

Lemma wp_grant_none :
  (∀ o, head S2.*2 = Some o → hi rl < lf_start o) →
  wp ((write_ref (ref_of v (A1 ++ S1)) (Some lock) ;;
       modify lock (set_next (first (S2 ++ A2) None))) ;; mret (0, lock)) Q s.
Proof.
  intros Ha. apply wp_bind.
  eapply (wp_link_swap v s0 F s (A1 ++ S1) [] (S2 ++ A2) lock rl);
    [by rewrite <- app_assoc | done | by rewrite <- app_assoc | done |].
  intros s' HL' _ _. apply wp_ret. apply (finish s' (S1 ++ (lock, core rl) :: S2)).
  - by rewrite <- !app_assoc in *.
  - rewrite fmap_app. set_solver.
  - rewrite replaced_apart by done. rewrite fmap_app. by apply same_middle.
Qed.

End first.

Section hit.
Context (s : kst) (A1 S1 : lks) (x : ptr) (c : lockf) (S3 A2 : lks) (lock : ptr) (rl : lockf).
Abbreviation old := (A1 ++ S1 ++ ((x, c) :: S3) ++ A2).
Context (HL : lst s old) (Hl : solo s lock rl).
Context (Hnot : lock ∉ old.*1) (Hm : mine lock) (Hw : wf_lk rl).
Context (Har : around rl A1.*2 S1.*2 ((x, c) :: S3).*2 A2.*2).
Context (Hwait : lf_end rl ≠ -1 → lf_blkhd rl = []).
Context (Q : Z * ptr → kst → Prop).
Context (HQ : ∀ s' L' p, lst s' L' → p ∈ L'.*1 → granted rl old.*2 L'.*2 → Q (0, p) s').
Context (Hno : ∀ s', lst s' old → nomem s = true → Q (ENOLCK, lock) s').

Lemma hit_list : lst s ((A1 ++ S1) ++ (x, c) :: S3 ++ A2).
Proof. by rewrite <- app_assoc. Qed.

Lemma hit_notin : lock ∉ ((A1 ++ S1) ++ (x, c) :: S3 ++ A2).*1.
Proof. by rewrite <- app_assoc. Qed.

Lemma hit_ne : lock ≠ x.
Proof. intros E. apply hit_notin. rewrite fmap_app. subst. set_solver. Qed.

Lemma hit_head : lf_head c = lf_head rl.
Proof.
  destruct Har as [[_ Hh _] _ _ _ _]. rewrite !Forall_app in Hh. destruct Hh as (_ & _ & Hh & _).
  by inv Hh.
Qed.

Lemma hit_own : lf_id c = lf_id rl ∧ wf_lk c ∧ lf_start rl <= hi c.
Proof.
  destruct Har as [_ _ _ _ [Hwf _ Hown _ Hh]].
  apply Forall_app in Hwf as [_ Hwf]. apply Forall_app in Hown as [_ Hown].
  inv Hwf. inv Hown. split_and!; [done | done | by apply Hh].
Qed.

Lemma hit_rest :
  Forall (λ e, lf_id e.2 = lf_id rl ∧ wf_lk e.2 ∧ lf_start rl < lf_start e.2) S3 ∧
  ordered S3.*2 ∧ Forall (before c) S3.*2 ∧ Forall (λ e, lf_id e.2 ≠ lf_id rl) A2.
Proof.
  destruct Har as [_ _ HA2 _ Hsp]. pose proof Hsp as [Hwf Ho Hown _ _].
  apply Forall_app in Hwf as [_ Hwf]. apply Forall_app in Hown as [_ Hown].
  apply ordered_app in Ho as (_ & Ho & _). inv Ho. inv Hwf as [|? ? _ Hwf']. inv Hown as [|? ? _ Hown'].
  split_and!; [| done | done | by apply (Forall_snd (λ d, lf_id d ≠ lf_id rl))].
  apply Forall_forall. intros e He. rewrite Forall_forall in Hwf', Hown'.
  assert (He2 : e.2 ∈ S3.*2) by (apply list_elem_of_fmap; eauto).
  split_and!; [by apply Hown' | by apply Hwf' |]. by eapply split_later.
Qed.

(** What replaces the owner's locks in terms of the lock that was hit. *)
Lemma replaced_hit :
  replaced rl S1.*2 ((x, c) :: S3).*2 =
  S1.*2 ++ (if lf_start c <? lf_start rl then [cut c rl] else []) ++ rl :: trim (hi rl) (c :: S3.*2).
Proof. done. Qed.

Lemma trim_covered : lf_start c <= hi rl → hi c <= hi rl → trim (hi rl) (c :: S3.*2) = trim (hi rl) S3.*2.
Proof.
  intros H1 H2. simpl. rewrite (proj2 (Z.ltb_ge _ _)) by done. by rewrite (proj2 (Z.leb_le _ _)).
Qed.

Lemma trim_beyond :
  lf_start c <= hi rl → hi rl < hi c →
  trim (hi rl) (c :: S3.*2) = set_start (hi rl + 1) c :: S3.*2.
Proof.
  intros H1 H2. simpl. rewrite (proj2 (Z.ltb_ge _ _)) by done. by rewrite (proj2 (Z.leb_gt _ _)).
Qed.

Lemma trim_rest : hi rl <= hi c → trim (hi rl) S3.*2 = S3.*2.
Proof. intros Hh. destruct hit_rest as (_ & _ & Hb & _). by apply (trim_id (hi rl) c). Qed.

Lemma hit_finish s' S' p :
  lst s' (A1 ++ S' ++ A2) → p ∈ S'.*1 →
  same S'.*2 (replaced rl S1.*2 ((x, c) :: S3).*2) → Q (0, p) s'.
Proof. intros. by eapply finish. Qed.

Lemma wp_grant_equals o (b : bool) :
  lf_start c = lf_start rl → lf_end c = lf_end rl → heap s !! x = Some o →
  wp ((if b then lf_wakelock x true else mret ()) ;; modify x (set_type (lf_type rl)) ;;
      lf_move_blocked x lock ;; kheap_free lock ;; mret (0, x)) Q s.
Proof.
  intros Hs He Ho. destruct hit_own as (Hid & Hwc & _). pose proof hit_ne as Hne.
  assert (Hhi : hi c = hi rl) by (unfold hi; by rewrite He).
  apply wp_bind. apply (wp_mono _ (λ _ s', lst s' ((A1 ++ S1) ++ (x, c) :: S3 ++ A2) ∧ evolves [] v s s')).
  { destruct b; [| by apply wp_ret; split; [apply hit_list | apply evolves_refl]].
    eapply wp_wake_in; [apply hit_list |]. auto. }
  intros _ s1 [HL1 E1]. destruct (solo_evolves v [] s s1 lock rl Hl E1) as (rl1 & Hl1 & _); [set_solver |].
  apply wp_bind. eapply (wp_edit v s0 F s1 _ x c (set_type (lf_type rl) c)); [exact HL1 | |].
  { by intros r <-. }
  intros s2 HL2 E2 _. destruct (solo_evolves v [x] s1 s2 lock rl1 Hl1 E2) as (rl2 & Hl2 & _); [set_solver |].
  destruct (lst_lookup _ _ _ _ _ _ _ _ HL2) as (r2 & Hx2 & _).
  apply wp_bind. eapply wp_move; [exact HL2 | exact Hx2 | exact Hl2 | done |].
  intros s3 HL3 _ _ (rl3 & Hl3 & Hb3 & _).
  apply wp_bind. eapply wp_free_solo; [exact HL3 | exact Hl3 | | done | done |].
  { pose proof hit_notin as Hn. rewrite fmap_app in *. done. }
  intros s4 HL4 _ _. apply wp_ret. apply (hit_finish s4 (S1 ++ (x, set_type (lf_type rl) c) :: S3)).
  - by rewrite <- !app_assoc in *.
  - rewrite fmap_app. set_solver.
  - rewrite replaced_hit, (proj2 (Z.ltb_ge _ _)) by lia. pose proof (wf_hi _ Hw).
    rewrite trim_covered, trim_rest by lia. rewrite fmap_app. apply same_middle; [| done].
    pose proof hit_head. unfold alike, view. simpl. congruence.
Qed.

Lemma wp_grant_contains_same :
  lf_start c <= lf_start rl → hi rl <= hi c → lf_type c = lf_type rl →
  wp (lf_move_blocked x lock ;; kheap_free lock ;; mret (0, x)) Q s.
Proof.
  intros Hst Hhi Hty. destruct (lst_lookup _ _ _ _ _ _ _ _ hit_list) as (r & Hx & _).
  pose proof hit_ne as Hne.
  apply wp_bind. eapply wp_move; [exact HL | exact Hx | exact Hl | done |].
  intros s1 HL1 _ _ (rl1 & Hl1 & Hb1 & _).
  apply wp_bind. eapply wp_free_solo; [exact HL1 | exact Hl1 | done.. |].
  intros s2 HL2 _ _. apply wp_ret. apply (HQ s2 old); [done | rewrite !fmap_app; set_solver |].
  destruct Har as [Hi _ _ _ _]. rewrite !fmap_app. apply (granted_contained rl _ c); try done.
  - rewrite !elem_of_app. right. right. left. set_solver.
  - by apply hit_own.
Qed.

Lemma hit_wake s1 L1 L2 d p S' :
  lst s1 (L1 ++ (x, d) :: L2) → L1 ++ (x, d) :: L2 = A1 ++ S' ++ A2 → p ∈ S'.*1 →
  same S'.*2 (replaced rl S1.*2 ((x, c) :: S3).*2) →
  wp (lf_wakelock x true ;; mret (0, p)) Q s1.
Proof.
  intros HL1 E Hp Hs. apply wp_bind. eapply wp_wake_in; [exact HL1 |].
  intros s2 HL2 _ _ _. apply wp_ret. rewrite E in HL2. by eapply hit_finish.
Qed.

(** The new lock put in front, what it overlaps cut off the front of [x]. *)
Lemma wp_grant_front (Q' : () → kst → Prop) :
  lf_start rl <= lf_start c → hi rl < hi c → lf_start c <= hi rl → lf_end rl ≠ -1 →
  (∀ s', lst s' ((A1 ++ S1 ++ [(lock, core rl)]) ++ (x, set_start (hi rl + 1) c) :: S3 ++ A2) →
     same (S1 ++ (lock, core rl) :: (x, set_start (hi rl + 1) c) :: S3).*2
       (replaced rl S1.*2 ((x, c) :: S3).*2) → Q' () s') →
  wp (write_ref (ref_of v (A1 ++ S1)) (Some lock) ;; modify lock (set_next (Some x)) ;;
      modify x (set_start (s64 (lf_end rl + 1)))) Q' s.
Proof.
  intros Hst Hhi Hle He HQ'. apply wp_seq2.
  eapply (wp_link_swap v s0 F s (A1 ++ S1) [] ((x, c) :: S3 ++ A2) lock rl);
    [apply hit_list | done | apply hit_notin | done |].
  intros s1 HL1 _ _.
  change ((lock, core rl) :: (x, c) :: S3 ++ A2) with ([(lock, core rl)] ++ (x, c) :: S3 ++ A2) in HL1.
  rewrite app_assoc in HL1.
  eapply (wp_edit v s0 F s1 _ x c (set_start (hi rl + 1) c)); [exact HL1 | |].
  { intros r Hr. rewrite s64_succ by done. by rewrite <- Hr. }
  intros s2 HL2 _ _. apply HQ'; [by rewrite <- !app_assoc in * |].
  rewrite replaced_hit, (proj2 (Z.ltb_ge _ _)), trim_beyond by lia.
  rewrite fmap_app. by apply same_middle.
Qed.

Lemma wp_grant_contains :
  lf_start c <= lf_start rl → hi rl <= hi c → lf_end rl ≠ -1 →
  (lf_start c < lf_start rl ∨ hi rl < hi c) →
  wp (e ← (if lf_start c =? lf_start rl then
             write_ref (ref_of v (A1 ++ S1)) (Some lock) ;;
             modify lock (set_next (Some x)) ;;
             modify x (set_start (s64 (lf_end rl + 1))) ;; mret 0
           else lf_split x lock);
      if negb (e =? 0) then kheap_free lock ;; mret (ENOLCK, lock)
      else lf_wakelock x true ;; mret (0, lock)) Q s.
Proof.
  intros Hst Hhi He Hor. pose proof (wf_hi _ Hw). apply wp_bind.
  destruct (Z.eqb_spec (lf_start c) (lf_start rl)) as [Heq|Hneq].
  - apply wp_seq3, wp_grant_front; try lia. intros s1 HL1 Hs. apply wp_ret. simpl.
    eapply (hit_wake s1 _ _ _ lock (S1 ++ (lock, core rl) :: (x, set_start (hi rl + 1) c) :: S3));
      [exact HL1 | by rewrite <- !app_assoc | | exact Hs].
    rewrite fmap_app. set_solver.
  - destruct hit_own as (_ & Hwc & _).
    apply (wp_split s (A1 ++ S1) x c (S3 ++ A2) lock rl);
      [apply hit_list | done | apply hit_notin | done | done | done | lia | done | done | |].
    + intros s1 Rt HL1 HRt. simpl.
      eapply (hit_wake s1 _ _ _ lock (S1 ++ (x, cut c rl) :: (lock, core rl) :: Rt ++ S3));
        [exact HL1 | by rewrite <- !app_assoc; simpl; rewrite <- !app_assoc | |].
      * rewrite fmap_app. set_solver.
      * rewrite replaced_hit, (proj2 (Z.ltb_lt _ _)) by lia. rewrite fmap_app.
        apply same_middle; [done |]. apply (same_middle []); [done |].
        change (same (Rt ++ S3).*2 (trim (hi rl) (c :: S3.*2))). rewrite fmap_app, HRt.
        replace (trim (hi rl) (c :: S3.*2)) with (trim (hi rl) [c] ++ S3.*2); [done |].
        destruct (Z.le_gt_cases (hi c) (hi rl)).
        -- rewrite trim_covered, trim_rest by lia. simpl.
           rewrite (proj2 (Z.ltb_ge _ _)) by lia. by rewrite (proj2 (Z.leb_le _ _)).
        -- rewrite trim_beyond by lia. simpl.
           rewrite (proj2 (Z.ltb_ge _ _)) by lia. by rewrite (proj2 (Z.leb_gt _ _)) by lia.
    + intros Hmem. simpl. apply wp_bind.
      eapply wp_free_solo; [exact HL | exact Hl | done | done | by apply Hwait |].
      intros s1 HL1 _ _. by apply wp_ret, Hno.
Qed.

(** The rest of the loop behind the new lock. *)
Lemma hit_continue n s1 X :
  lst s1 ((A1 ++ X ++ [(lock, core rl)]) ++ S3 ++ A2) → (length S3 < n)%nat →
  (∀ S2', same S2'.*2 (trim (hi rl) S3.*2) →
     same (X ++ (lock, core rl) :: S2').*2 (replaced rl S1.*2 ((x, c) :: S3).*2)) →
  wp (grant_loop n (first (S3 ++ A2) None) lock (RNext lock) false) Q s1.
Proof.
  intros HL1 Hn HX. destruct hit_rest as (H1 & H2 & _ & H4).
  rewrite (app_assoc A1) in HL1. rewrite <- (ref_of_snoc v (A1 ++ X) lock (core rl)).
  apply (wp_grant_rest lock (core rl) A2 S3);
    [exact HL1 | exact Hn | exact Hw | exact H1 | exact H2 | exact H4 |].
  intros s' S2' HL' Hs. apply (hit_finish s' (X ++ (lock, core rl) :: S2')); [| | by apply HX].
  - by rewrite <- !app_assoc in *.
  - rewrite fmap_app. set_solver.
Qed.

Lemma wp_grant_contained n o (b : bool) :
  lf_start rl <= lf_start c → lf_start c <= hi rl → hi c <= hi rl → (length S3 < n)%nat →
  heap s !! x = Some o →
  wp ((if b then lf_wakelock x true else lf_move_blocked lock x) ;;
      o' ← deref x;
      write_ref (ref_of v (A1 ++ S1)) (Some lock) ;;
      modify lock (set_next (lf_next o')) ;;
      kheap_free x ;;
      grant_loop n (lf_next o) lock (RNext lock) false) Q s.
Proof.
  intros Hst Hle Hhi Hn Ho. pose proof hit_ne as Hne.
  destruct (lst_lookup _ _ _ _ _ _ _ _ hit_list) as (o' & [Ho' _] & _ & Hno').
  assert (o' = o) as -> by congruence.
  apply wp_bind. eapply wp_empty_queue; [apply hit_list | exact Hl | done |].
  intros s1 HL1 E1 (r1 & [Hx1 _] & Hb1 & _ & Hn1).
  destruct (solo_evolves v [] s s1 lock rl Hl E1) as (rl1 & Hl1 & Hcl1 & _); [set_solver |].
  apply wp_bind. eapply wp_deref; [done |]. rewrite Hn1. apply wp_seq3.
  eapply wp_replace_elem; [exact HL1 | exact Hl1 | apply hit_notin | done | done | done |].
  intros s2 HL2. rewrite Hno', Hcl1 in *. apply (hit_continue n s2 S1); [| done |].
  - by rewrite <- !app_assoc in *.
  - intros S2' Hs. rewrite replaced_hit, (proj2 (Z.ltb_ge _ _)), trim_covered by lia.
    rewrite fmap_app. by apply same_middle.
Qed.

Lemma wp_grant_starts n o :
  lf_start c < lf_start rl → hi c <= hi rl → (length S3 < n)%nat → heap s !! x = Some o →
  wp (modify lock (set_next (lf_next o)) ;;
      modify x (set_next (Some lock)) ;;
      modify x (set_end (s64 (lf_start rl - 1))) ;;
      lf_wakelock x true ;;
      grant_loop n (lf_next o) lock (RNext lock) false) Q s.
Proof.
  intros Hst Hhi Hn Ho. pose proof (wf_hi _ Hw).
  destruct (lst_lookup _ _ _ _ _ _ _ _ hit_list) as (o' & [Ho' _] & _ & Hno').
  assert (o' = o) as -> by congruence. rewrite Hno'. apply wp_seq2.
  eapply wp_insert_after; [apply hit_list | exact Hl | apply hit_notin | done |].
  intros s1 HL1. apply wp_bind.
  eapply (wp_edit v s0 F s1 _ x c (cut c rl)); [exact HL1 | |].
  { intros r Hr. rewrite s64_pred by done. unfold cut. by rewrite <- Hr. }
  intros s2 HL2 _ _. apply wp_bind. eapply wp_wake_in; [exact HL2 |].
  intros s3 HL3 _ _ _. apply (hit_continue n s3 (S1 ++ [(x, cut c rl)])); [| done |].
  - rewrite <- !app_assoc in *. exact HL3.
  - intros S2' Hs. rewrite replaced_hit, (proj2 (Z.ltb_lt _ _)), trim_covered by lia.
    rewrite <- app_assoc, fmap_app. apply same_middle; [done |]. by apply (same_middle []).
Qed.

Lemma wp_grant_ends :
  lf_start rl < lf_start c → hi rl < hi c → lf_start c <= hi rl → lf_end rl ≠ -1 →
  wp ((write_ref (ref_of v (A1 ++ S1)) (Some lock) ;; modify lock (set_next (Some x))) ;;
      modify x (set_start (s64 (lf_end rl + 1))) ;;
      lf_wakelock x true ;; mret (0, lock)) Q s.
Proof.
  intros Hst Hhi Hle He. apply wp_assoc, wp_seq3, wp_grant_front; try lia.
  intros s1 HL1 Hs.
  eapply (hit_wake s1 _ _ _ lock (S1 ++ (lock, core rl) :: (x, set_start (hi rl + 1) c) :: S3));
    [exact HL1 | by rewrite <- !app_assoc | | exact Hs].
  rewrite fmap_app. set_solver.
Qed.

End hit.

(** ** The whole loop *)

Lemma wp_find_around s A1 S1 S2 A2 lock rl k (Q : overlap_t * lref * option ptr → kst → Prop) :
  lst s (A1 ++ S1 ++ S2 ++ A2) → heap s !! lock = Some rl → wf_lk rl →
  around rl A1.*2 S1.*2 S2.*2 A2.*2 → found rl (S2 ++ A2) = Some k →
  Q (k, ref_of v (A1 ++ S1), first (S2 ++ A2) None) s →
  wp (lf_findoverlap (first (A1 ++ S1 ++ S2 ++ A2) None) lock SELF (RHead v)) Q s.
Proof.
  intros HL Hl Hw [[Hwf _ _] H1 H2 Hnil [_ _ Hown Hbef Hh]] Hk HQ.
  change (RHead v) with (ref_of v []).
  rewrite !Forall_app in Hwf. destruct Hwf as (_ & Hw1 & Hw2 & Hw3).
  apply Forall_app in Hown as [Ho1 Ho2].
  eapply (wp_findoverlap v s0 F s [] A1 S1 (S2 ++ A2)); [done | done | done | | | | done | done].
  - by apply (Forall_snd (λ d, lf_id d ≠ lf_id rl)).
  - apply (Forall_snd (λ d, lf_id d = lf_id rl ∧ wf_lk d ∧ hi d < lf_start rl)).
    rewrite !Forall_and. auto.
  - intros y d Hd. destruct S2 as [|[z e] S3].
    + destruct A2 as [|[z e] A3]; [done |]. simpl in *. simplify_eq. inv Hw3. inv H2.
      split_and!; [done | | done]. intros _ ->. by specialize (Hnil eq_refl).
    + simpl in *. simplify_eq. inv Hw2. inv Ho2. split_and!; [done | done |].
      intros _. by apply Hh.
Qed.

Lemma found_cases rl A1 S1 S2 A2 :
  wf_lk rl → around rl A1 S1 S2.*2 A2.*2 →
  (found rl (S2 ++ A2) = Some OVERLAP_NONE ∧
     ∀ o, head S2.*2 = Some o → hi rl < lf_start o) ∨
  ∃ x c S3 k, S2 = (x, c) :: S3 ∧ found rl (S2 ++ A2) = Some k ∧ lf_start c <= hi rl ∧
    case_facts k c rl.
Proof.
  intros Hw [_ _ H2 _ [Hwf _ Hown _ Hh]]. rewrite Forall_app in *.
  destruct S2 as [|[x c] S3]; simpl.
  - left. split; [| done]. destruct A2 as [|[z e] A3]; [done |]. simpl in *. inv H2.
    by rewrite bool_decide_eq_false_2.
  - destruct Hwf as [_ Hwf], Hown as [_ Hown]. inv Hwf. inv Hown.
    rewrite bool_decide_eq_true_2 by done. simpl.
    destruct (Z.ltb_spec (hi rl) (lf_start c)); [left; naive_solver |]. right.
    destruct (overlap_case_spec c rl) as (k & Hk & Hf); [done | done | lia | by apply Hh |].
    exists x, c, S3, k. auto.
Qed.

Lemma wp_grant_loop s A1 S1 S2 A2 lock rl n (Q : Z * ptr → kst → Prop) :
  lst s (A1 ++ S1 ++ S2 ++ A2) → solo s lock rl → lock ∉ (A1 ++ S1 ++ S2 ++ A2).*1 →
  mine lock → wf_lk rl → around rl A1.*2 S1.*2 S2.*2 A2.*2 →
  (lf_end rl ≠ -1 → lf_blkhd rl = []) → (length S2 < n)%nat →
  (∀ s' L' p, lst s' L' → p ∈ L'.*1 → granted rl (A1 ++ S1 ++ S2 ++ A2).*2 L'.*2 → Q (0, p) s') →
  (∀ s', lst s' (A1 ++ S1 ++ S2 ++ A2) → nomem s = true → Q (ENOLCK, lock) s') →
  wp (grant_loop n (first (A1 ++ S1 ++ S2 ++ A2) None) lock (RHead v) true) Q s.
Proof.
  intros HL Hl Hnot Hm Hw Har Hwait Hn HQ Hno. destruct n as [|n]; [lia |]. cbn [grant_loop].
  apply wp_bind.
  destruct (found_cases rl A1.*2 S1.*2 S2 A2 Hw Har) as [[Hf Ha]|(x & c & S3 & k & -> & Hf & Hle & Hk)];
    (eapply wp_find_around; [exact HL | apply Hl | done | done | exact Hf |]).
  { by eapply (wp_grant_none s A1 S1 S2 A2 lock rl). }
  pose proof (lst_lookup v s0 F s (A1 ++ S1) x c (S3 ++ A2)) as Hlook.
  rewrite <- app_assoc in Hlook. destruct (Hlook HL) as (o & [Hx _] & Hc & Hnx). clear Hlook.
  pose proof (core_proj _ _ Hc) as (_ & Hty & _ & Hst & _). simpl first. simpl in Hn.
  assert (Hn' : (length S3 < n)%nat) by lia.
  destruct k; simpl in Hk; [done | ..];
    (apply wp_bind; eapply wp_deref; [done |]; apply wp_bind; eapply wp_deref; [apply Hl |]).
  - eapply wp_grant_equals; naive_solver.
  - rewrite Hty, Hst. destruct Hk as (? & ? & ? & ?).
    destruct (Z.eqb_spec (lf_type c) (lf_type rl)).
    + by eapply wp_grant_contains_same.
    + by eapply wp_grant_contains.
  - destruct Hk. by eapply wp_grant_contained.
  - destruct Hk. by eapply wp_grant_starts.
  - destruct Hk as (? & ? & ?). by eapply wp_grant_ends.
Qed.

End grant.
