(* ===== verification/LockfCoalesce.v ===== *)
(** * Coalescing neighbours and the whole grant

    [lf_coalesce_adjacent] keeps what every owner holds, and
    [lf_setlock_grant] gives the request its range. *)

From S2P Require Import Prelude Lockf LockfHeap LockfList LockfEdit LockfGrant.

Definition same_holds (A B : list lockf) : Prop := ∀ i b t, holds A i b t ↔ holds B i b t.

#[export] Instance same_holds_equiv : Equivalence same_holds.
Proof.
  split.
  - intros A i b t. done.
  - intros A B H i b t. symmetry. apply H.
  - intros A B C H1 H2 i b t. etrans; [apply H1 | apply H2].
Qed.

Section coalesce.
Context (v : vnode) (s0 : kst) (F : list ptr).
Abbreviation lst := (lst v s0 F).
Abbreviation mine := (mine s0 F).

Lemma wp_read_ref s L1 R (Q : option ptr → kst → Prop) :
  lst s (L1 ++ R) → Q (first R None) s → wp (read_ref (ref_of v L1)) Q s.
Proof.
  intros HL HQ. destruct L1 as [|[x c] L1 _] using rev_ind.
  - unfold ref_of. simpl. unfold wp. by rewrite (lst_head _ _ _ _ _ HL).
  - rewrite ref_of_snoc. rewrite <- app_assoc in HL.
    destruct (lst_lookup _ _ _ _ _ _ _ _ HL) as (r & [Hx _] & _ & Hn).
    simpl. apply wp_bind. eapply wp_deref; [done |]. apply wp_ret. by rewrite Hn.
Qed.

(** The queue of a lock that left the list moved to [lock], the lock freed. *)
Lemma wp_absorb s L lock a ra (Q : () → kst → Prop) :
  lst s L → lock ∈ L.*1 → solo s a ra → a ∉ L.*1 → mine a →
  (∀ s', lst s' L → Q () s') →
  wp (lf_move_blocked lock a ;; kheap_free a) Q s.
Proof.
  intros HL Hin Ha Hnot Hm HQ. assert (lock ≠ a) by congruence.
  apply list_elem_of_fmap in Hin as ([y c] & -> & Hin).
  apply list_elem_of_split in Hin as (L1 & L2 & ->).
  destruct (lst_lookup _ _ _ _ _ _ _ _ HL) as (r & Hl & _).
  apply wp_bind. eapply wp_move; [exact HL | exact Hl | exact Ha | done |].
  intros s1 HL1 _ _ (ra1 & Ha1 & Hb1 & _).
  eapply wp_free_solo; [exact HL1 | exact Ha1 | done.. |]. auto.
Qed.

(** [a], just before [lock], absorbed into it. *)
Lemma wp_merge_before s L1 a c lock k R (Q : () → kst → Prop) :
  lst s (L1 ++ (a, c) :: (lock, k) :: R) →
  (∀ s', lst s' (L1 ++ (lock, set_start (lf_start c) k) :: R) → Q () s') →
  wp (modify lock (set_start (lf_start c)) ;; write_ref (ref_of v L1) (Some lock) ;;
      lf_move_blocked lock a ;; kheap_free a) Q s.
Proof.
  intros HL HQ. change ((a, c) :: (lock, k) :: R) with ([(a, c)] ++ (lock, k) :: R) in HL.
  rewrite app_assoc in HL. apply wp_bind.
  eapply (wp_edit v s0 F s _ lock k (set_start (lf_start c) k)); [exact HL | by intros r <- |].
  intros s1 HL1 _ _. rewrite <- app_assoc in HL1. simpl in HL1.
  pose proof (lst_mine _ _ _ _ _ a HL1) as Hm.
  destruct (lst_lookup _ _ _ _ _ _ _ _ HL1) as (ra & [Ha _] & _).
  apply wp_bind. eapply (wp_unlink v s0 F s1 L1 a c ((lock, _) :: R)); [exact HL1 |].
  intros s2 HL2 _ Hnot Hsm Hu. eapply (wp_absorb s2 _ lock a ra); [exact HL2 | | | done | |].
  - rewrite fmap_app. set_solver.
  - split; [by rewrite Hsm | done].
  - apply Hm. rewrite fmap_app. set_solver.
  - done.
Qed.

(** [a], just after [lock], absorbed into it. *)
Lemma wp_merge_after s L1 a c lock k R (Q : () → kst → Prop) :
  lst s (L1 ++ (lock, k) :: (a, c) :: R) →
  (∀ s', lst s' (L1 ++ (lock, set_end (lf_end c) k) :: R) → Q () s') →
  wp (modify lock (set_end (lf_end c)) ;; modify lock (set_next (first R None)) ;;
      lf_move_blocked lock a ;; kheap_free a) Q s.
Proof.
  intros HL HQ. apply wp_bind.
  eapply (wp_edit v s0 F s _ lock k (set_end (lf_end c) k)); [exact HL | by intros r <- |].
  intros s1 HL1 _ _. pose proof (lst_mine _ _ _ _ _ a HL1) as Hm.
  change ((lock, set_end (lf_end c) k) :: (a, c) :: R)
    with ([(lock, set_end (lf_end c) k)] ++ (a, c) :: R) in HL1.
  rewrite app_assoc in HL1. destruct (lst_lookup _ _ _ _ _ _ _ _ HL1) as (ra & [Ha _] & _).
  apply wp_bind. apply (modify_next_ref v s1 L1 lock (set_end (lf_end c) k)).
  eapply (wp_unlink v s0 F s1 _ a c R); [exact HL1 |].
  intros s2 HL2 _ Hnot Hsm Hu. eapply (wp_absorb s2 _ lock a ra); [exact HL2 | | | done | |].
  - rewrite !fmap_app. set_solver.
  - split; [by rewrite Hsm | done].
  - apply Hm. rewrite fmap_app. set_solver.
  - intros s3 HL3. apply HQ. by rewrite <- app_assoc in HL3.
Qed.

Lemma fmap_two (A1 : lks) x c X y d A2 :
  (A1 ++ (x, c) :: X ++ (y, d) :: A2).*2 = A1.*2 ++ c :: X.*2 ++ d :: A2.*2.
Proof. by rewrite fmap_app, fmap_cons, fmap_app. Qed.

Lemma neighbours (L1 : lks) a c R lock k :
  linv v (L1 ++ (a, c) :: R).*2 → (lock, k) ∈ L1 ++ R → lf_id c = lf_id k →
  (hi c + 1 = lf_start k → ∃ R', R = (lock, k) :: R') ∧
  (hi k + 1 = lf_start c → ∃ L1', L1 = L1' ++ [(lock, k)]).
Proof.
  intros Hi Hin Hid. pose proof (li_wf _ _ Hi) as Hwf. rewrite fmap_app, Forall_app in Hwf.
  destruct Hwf as [Hw1 Hw2]. inv Hw2 as [|? ? Hc Hw2']. pose proof (wf_hi _ Hc).
  apply elem_of_app in Hin as [Hin|Hin].
  - apply list_elem_of_split in Hin as (B1 & B2 & ->).
    rewrite <- app_assoc, <- app_comm_cons, fmap_two in Hi.
    rewrite fmap_app, Forall_app, fmap_cons, Forall_cons in Hw1. pose proof (wf_hi k ltac:(naive_solver)).
    pose proof (in_order _ _ k _ c _ Hi ltac:(done)). split; [lia |]. intros Ht.
    apply touching in Hi; [| done | done]. apply fmap_nil_inv in Hi as ->. eauto.
  - apply list_elem_of_split in Hin as (B1 & B2 & ->).
    rewrite fmap_two in Hi.
    rewrite fmap_app, Forall_app, fmap_cons, Forall_cons in Hw2'. pose proof (wf_hi k ltac:(naive_solver)).
    pose proof (in_order _ _ c _ k _ Hi Hid). split; [| lia]. intros Ht.
    apply touching in Hi; [| done | done]. apply fmap_nil_inv in Hi as ->. eauto.
Qed.

Lemma lst_in s L lock :
  lst s L → lock ∈ L.*1 → ∃ r, heap s !! lock = Some r ∧ (lock, core r) ∈ L.
Proof.
  intros HL Hin. apply list_elem_of_fmap in Hin as ([y c] & -> & Hin). simpl.
  destruct (seg_lookup _ _ _ _ _ _ (ls_path _ _ _ _ _ HL) Hin) as (r & Hr & <-). eauto.
Qed.

Definition coalesce_spec (lock : ptr) (n : nat) : Prop := ∀ s L1 R (Q : () → kst → Prop),
  lst s (L1 ++ R) → linv v (L1 ++ R).*2 → lock ∈ (L1 ++ R).*1 → (length R < n)%nat →
  (∀ s' L', lst s' L' → linv v L'.*2 → same_holds L'.*2 (L1 ++ R).*2 → Q () s') →
  wp (coalesce_loop n (ref_of v L1) lock) Q s.

(** The walk goes on behind a lock that absorbed its neighbour. *)
Lemma coalesce_merged lock n s' B e f m R' (Q : () → kst → Prop) :
  coalesce_spec lock n → linv v (B ++ e :: f :: R').*2 → merges e.2 f.2 m →
  lst s' (B ++ (lock, m) :: R') → (length R' < n)%nat →
  (∀ s' L', lst s' L' → linv v L'.*2 → same_holds L'.*2 (B ++ e :: f :: R').*2 → Q () s') →
  wp (coalesce_loop n (RNext lock) lock) Q s'.
Proof.
  intros IH Hi Hmg HL Hn HQ. destruct e as [x c], f as [y d].
  rewrite (fmap_two B x c [] y d R' : (B ++ (x, c) :: (y, d) :: R').*2 = _) in Hi, HQ.
  destruct (linv_merge _ _ _ _ _ _ Hmg Hi) as [Hi' Hh].
  rewrite <- (ref_of_snoc v B lock m). apply (IH s' (B ++ [(lock, m)]) R').
  - by rewrite <- app_assoc.
  - by rewrite <- app_assoc, fmap_app.
  - rewrite !fmap_app. set_solver.
  - done.
  - intros s'' L' HL'' Hi'' Hh''. apply (HQ s'' L'); [done | done |]. etrans; [exact Hh'' |].
    rewrite <- app_assoc, fmap_app. exact Hh.
Qed.

Lemma wp_coalesce_loop lock n : coalesce_spec lock n.
Proof.
  induction n as [|n IH]; intros s L1 R Q HL Hi Hin Hn HQ; [lia |]. cbn [coalesce_loop].
  apply wp_bind. eapply wp_read_ref; [exact HL |].
  destruct R as [|[a c] R]; simpl first; [by apply wp_ret, (HQ s (L1 ++ [])) |].
  destruct (lst_lookup _ _ _ _ _ _ _ _ HL) as (ra & [Ha _] & Hca & Hna).
  destruct (lst_in s _ lock HL Hin) as (k & Hk & Hkin). simpl in Hn.
  apply wp_bind. eapply wp_deref; [done |]. apply wp_bind. eapply wp_deref; [done |].
  assert (Hnext : wp (coalesce_loop n (RNext a) lock) Q s).
  { rewrite <- (ref_of_snoc v L1 a c). apply (IH s (L1 ++ [(a, c)]) R);
      [by rewrite <- app_assoc.. | lia | by rewrite <- app_assoc]. }
  destruct (_ || _) eqn:Hskip; [done |]. rewrite !orb_false_iff, !negb_false_iff in Hskip.
  destruct Hskip as [[Hne%bool_decide_eq_false Hid%bool_decide_eq_true] Hty%Z.eqb_eq].
  subst c. pose proof (li_wf _ _ Hi) as Hwf. rewrite Forall_forall in Hwf.
  assert (Hwa : wf_lk ra).
  { apply (Hwf (core ra)). rewrite fmap_app. set_solver. }
  assert (Hwk : wf_lk k).
  { apply (Hwf (core k)). apply list_elem_of_fmap. by exists (lock, core k). }
  destruct (neighbours L1 a (core ra) R lock (core k)) as [Hb Hf]; [done | | done |].
  { rewrite elem_of_app, elem_of_cons in Hkin. rewrite elem_of_app.
    destruct Hkin as [?|[?|?]]; [by left | congruence | by right]. }
  destruct (negb (lf_end ra =? -1) && _) eqn:Hm1;
    [| destruct (negb (lf_end k =? -1) && _) eqn:Hm2; [| done]].
  - apply andb_true_iff in Hm1 as [He%negb_true_iff%Z.eqb_neq Hadj%Z.eqb_eq].
    rewrite s64_succ in Hadj by done. destruct Hb as [R' ->]; [done |].
    apply wp_seq4. eapply (wp_merge_before s L1 a (core ra) lock (core k) R'); [exact HL |].
    intros s' HL'. eapply (coalesce_merged lock n s' L1 (a, core ra) (lock, core k) _ R');
      [done | done | | exact HL' | simpl in Hn; lia | done]. split; auto.
  - apply andb_true_iff in Hm2 as [He%negb_true_iff%Z.eqb_neq Hadj%Z.eqb_eq].
    rewrite s64_succ in Hadj by done. destruct Hf as [L1' ->]; [done |].
    rewrite <- app_assoc in *. rewrite Hna.
    apply wp_seq4. eapply (wp_merge_after s L1' a (core ra) lock (core k) R); [exact HL |].
    intros s' HL'. eapply (coalesce_merged lock n s' L1' (lock, core k) (a, core ra) _ R);
      [done | done | | exact HL' | lia | done]. split; auto.
Qed.

End coalesce.

(** ** The locks of a vnode *)

(** The locks of [v] in state [s] are [L], in shape. *)
Record vlocks (v : vnode) (s : kst) (L : lks) : Prop := {
  vl_path : path s v L None;
  vl_nd : NoDup L.*1;
  vl_unb : ∀ x, x ∈ L.*1 → ¬ blocked (heap s) x;
  vl_BI : BI (heap s);
  vl_inv : linv v L.*2;
}.

Lemma lst_start v s F L : vlocks v s L → (∀ x, x ∈ L.*1 → x ∈ F) → lst v s F s L.
Proof. intros [] HF. split; try done; [apply evolves_refl |]. auto. Qed.

Lemma lst_vlocks v s0 F s L : lst v s0 F s L → linv v L.*2 → vlocks v s L.
Proof. by intros [] ?. Qed.

Lemma split_start st (S : list lockf) :
  ordered S → Forall wf_lk S → ∃ S1 S2, S = S1 ++ S2 ∧ Forall (λ c, hi c < st) S1 ∧
    ∀ o, head S2 = Some o → st <= hi o.
Proof.
  intros Ho Hw. induction Ho as [|c S Ho IH Hb]; [by exists [], [] |]. inv Hw.
  destruct (Z.lt_ge_cases (hi c) st).
  - destruct IH as (S1 & S2 & -> & H1' & H2'); [done |]. exists (c :: S1), S2.
    split_and!; [done | by constructor | done].
  - exists [], (c :: S). split_and!; [done | constructor |]. by intros o [= <-].
Qed.

Lemma around_exists v (L : lks) m :
  linv v L.*2 → lf_head m = v →
  ∃ A1 S1 S2 A2, L = A1 ++ S1 ++ S2 ++ A2 ∧ around m A1.*2 S1.*2 S2.*2 A2.*2.
Proof.
  intros Hi <-. destruct (grp_split _ _ (li_grp _ _ Hi (lf_id m)))
    as (B1 & T & B2 & E & H1 & HT & H2 & Ho & Hn).
  pose proof (li_wf _ _ Hi) as Hw. rewrite E, !Forall_app in Hw. destruct Hw as (_ & Hw & _).
  destruct (split_start (lf_start m) T Ho Hw) as (T1 & T2 & -> & HT1 & HT2).
  rewrite <- app_assoc in E.
  apply fmap_app_inv in E as (A1 & L1 & -> & E & ->). symmetry in E.
  apply fmap_app_inv in E as (S1 & L2 & -> & E & ->). symmetry in E.
  apply fmap_app_inv in E as (S2 & A2 & -> & -> & ->).
  exists A1, S1, S2, A2. split; [done |].
  split; [by rewrite !fmap_app in Hi | done | done | done |]. by split.
Qed.

(** The first of the two parts of a request, the lock being set. *)
Record request (v : vnode) (s : kst) (L : lks) (lock : ptr) (rl : lockf) : Prop := {
  rq_solo : solo s lock rl;
  rq_notin : lock ∉ L.*1;
  rq_head : lf_head rl = v;
  rq_wf : wf_lk rl;
  rq_wait : lf_end rl ≠ -1 → lf_blkhd rl = [];
}.

Lemma wp_setlock_grant v s L lock rl :
  vlocks v s L → request v s L lock rl →
  wp (lf_setlock_grant lock) (λ e s',
    evolves (lock :: L.*1) v s s' ∧
    ((e = 0 ∧ ∃ L', vlocks v s' L' ∧ granted rl L.*2 L'.*2) ∨
     (e = ENOLCK ∧ nomem s = true ∧ vlocks v s' L))) s.
Proof.
  intros HV [Hl Hnot Hh Hw Hwait].
  destruct (around_exists v L rl (vl_inv _ _ _ HV) Hh) as (A1 & S1 & S2 & A2 & -> & Har).
  assert (HL : lst v s (lock :: (A1 ++ S1 ++ S2 ++ A2).*1) s (A1 ++ S1 ++ S2 ++ A2)).
  { apply lst_start; [done | set_solver]. }
  unfold lf_setlock_grant. apply wp_bind. eapply wp_deref; [apply Hl |]. rewrite Hh.
  apply wp_bind. change (RHead v) with (ref_of v []).
  eapply (wp_read_ref v _ _ s []); [exact HL |]. apply wp_bind, wp_list_fuel, wp_bind.
  eapply wp_grant_loop; [exact HL | done | done | left; set_solver | done | done | done | | |].
  { pose proof (lst_size _ _ _ _ _ HL) as Hsz. rewrite !length_app in Hsz. lia. }
  - intros s1 L1 p HL1 Hp [Hi1 Hh1]. simpl. rewrite Hh in Hi1.
    destruct (lst_in v _ _ s1 L1 p HL1 Hp) as (k & Hk & Hkin).
    apply wp_bind. apply wp_bind. eapply wp_deref; [done |]. apply wp_bind, wp_list_fuel.
    assert (lf_head k = v) as ->.
    { destruct Hi1 as [_ Hhd _]. rewrite Forall_forall in Hhd.
      apply (Hhd (core k)), list_elem_of_fmap. by exists (p, core k). }
    change (RHead v) with (ref_of v []).
    pose proof (lst_size _ _ _ _ _ HL1).
    eapply (wp_coalesce_loop v _ _ p _ s1 [] L1); [done | done | done | simpl; lia |].
    intros s2 L2 HL2 Hi2 Hh2. apply wp_ret. split; [by eapply ls_ev |]. left. split; [done |].
    exists L2. split; [by eapply lst_vlocks |]. split; [by rewrite Hh |].
    intros i b t. rewrite (Hh2 i b t). apply Hh1.
  - intros s1 HL1 Hmem. simpl. apply wp_ret. split; [by eapply ls_ev |]. right.
    split_and!; [done | done |]. eapply lst_vlocks; [exact HL1 | apply HV].
Qed.
