(* ===== verification/LockfClear.v ===== *)
(** * Releasing a range

    [lf_clearlock] takes exactly its range from its owner. *)

From S2P Require Import Prelude Lockf LockfHeap LockfList LockfEdit LockfGrant LockfCoalesce.

Section clear.
Context (v : vnode) (s0 : kst) (F : list ptr).
Abbreviation lst := (lst v s0 F).
Abbreviation mine := (mine s0 F).

Lemma evolves_emit s e : evolves [] v s (add_event e s).
Proof. split; try done. exists [e]. split; [done |]. auto. Qed.

(** Before each case: the queue is woken and the importance boost dropped. *)
Lemma wp_clear_enter {A} s L1 x c L2 u ru (k : M A) (Q : A → kst → Prop) :
  lst s (L1 ++ (x, c) :: L2) → solo s u ru → u ≠ x →
  (∀ s' c' r' ru', lst s' (L1 ++ (x, c') :: L2) → alike c' c → solo s' x r' →
     lf_blkhd r' = [] → core r' = c' → lf_next r' = first L2 None →
     solo s' u ru' → core ru' = core ru → nomem s' = nomem s → wp k Q s') →
  wp (lf_wakelock x false ;; o ← deref x;
      (if lf_boosted o then lf_drop_assertion x else mret ()) ;; k) Q s.
Proof.
  intros HL Hu Hne HQ. apply wp_bind. eapply wp_wake_in; [exact HL |].
  intros s1 HL1 E1 _ (r1 & [Hx1 Hux1] & Hb1 & Hc1 & Hn1).
  destruct (solo_evolves v [] s s1 u ru Hu E1) as (ru1 & Hu1 & Hcu1 & _); [set_solver |].
  pose proof (ev_nomem _ _ _ _ E1) as Hm1.
  apply wp_bind. eapply wp_deref; [done |]. apply wp_bind.
  destruct (lf_boosted r1); [| by eapply wp_ret, (HQ s1 c r1 ru1)].
  unfold lf_drop_assertion. apply wp_bind. eapply wp_deref; [done |]. apply wp_bind, wp_emit.
  pose proof (evolves_emit s1 (EvDrop (lf_owner r1))) as E2.
  assert (HL2 : lst (add_event (EvDrop (lf_owner r1)) s1) (L1 ++ (x, c) :: L2)).
  { eapply lst_evolves; [exact HL1 | exact E2 | set_solver | done]. }
  destruct (solo_evolves v [] _ _ u ru1 Hu1 E2) as (ru2 & Hu2 & Hcu2 & _); [set_solver |].
  eapply (wp_edit_at v s0 F _ L1 x c (set_boosted false c)); [exact HL2 | by intros r <- |].
  intros s3 HL3 E3 _ Hx3. simpl in Hx3. rewrite Hx1 in Hx3. simpl in Hx3.
  destruct (solo_evolves v [x] _ _ u ru2 Hu2 E3) as (ru3 & Hu3 & Hcu3 & _); [set_solver |].
  apply (HQ s3 (set_boosted false c) (set_boosted false r1) ru3); try done.
  - split; [done |]. apply (ls_unb _ _ _ _ _ HL3). rewrite fmap_app. set_solver.
  - by rewrite <- Hc1.
  - congruence.
  - by rewrite (ev_nomem _ _ _ _ E3).
Qed.

(** The rest of the loop: everything up to [hi cu] goes. *)
Lemma wp_clear_rest u cu A2 S2 : ∀ n s P ru (Q : Z → kst → Prop),
  lst s (P ++ S2 ++ A2) → (length S2 < n)%nat → solo s u ru → core ru = cu →
  u ∉ (P ++ S2 ++ A2).*1 → wf_lk cu →
  Forall (λ e, lf_id e.2 = lf_id cu ∧ wf_lk e.2 ∧ lf_start cu < lf_start e.2) S2 →
  ordered S2.*2 → Forall (λ e, lf_id e.2 ≠ lf_id cu) A2 →
  (∀ s' S2', lst s' (P ++ S2' ++ A2) → same S2'.*2 (trim (hi cu) S2.*2) → Q 0 s') →
  wp (clearlock_loop n (first (S2 ++ A2) None) u (ref_of v P)) Q s.
Proof.
  induction S2 as [|[x c] S3 IH]; intros n s P ru Q HL Hn Hu Hcu Hnot Hwf HS Ho HA HQ;
    (destruct n as [|n]; [simpl in Hn; lia |]); cbn [clearlock_loop]; apply wp_bind.
  - simpl app.
    replace (first A2 None) with (first (A2 ++ [] ++ []) None) by (by rewrite !app_nil_r).
    eapply (wp_findoverlap v s0 F s _ A2 [] []); [by rewrite !app_nil_r | apply Hu | | | done | done | done |].
    { by eapply core_wf. }
    { by subst cu. }
    apply wp_ret. by apply (HQ s []).
  - inv HS as [|? ? (Hid & Hwc & Hst) HS']. simpl in Hid, Hwc, Hst, Ho.
    inv Ho as [|? ? Ho' Hb]. simpl in Hn.
    destruct (found_rest ru x c (S3 ++ A2)) as (k & Hf & Hk); [done..|].
    eapply (wp_findoverlap v s0 F s _ [] [] ((x, c) :: S3 ++ A2));
      [exact HL | apply Hu | done | done | done | | exact Hf |].
    { intros y d [= <- <-]. split_and!; [done | done |]. intros _.
      pose proof (wf_hi c Hwc). simpl in Hst. lia. }
    simpl app. rewrite app_nil_r.
    assert (Hne : u ≠ x) by (intros ->; apply Hnot; rewrite fmap_app; set_solver).
    destruct Hk as [(-> & Hlt)|Hk].
    { apply wp_ret. apply (HQ s ((x, c) :: S3)); [done |]. simpl. by rewrite (proj2 (Z.ltb_lt _ _)). }
    pose proof (lst_mine v s0 F s _ x HL ltac:(rewrite !fmap_app; set_solver)) as Hm.
    destruct Hk as [(-> & Hle & Hhi)|(-> & Hle & Hhi & Hend)]; simpl first;
      (eapply (wp_clear_enter s P x c (S3 ++ A2) u ru); [exact HL | done | done |]);
      intros s1 c' r' ru' HL1 Hal [Hx1 Hux1] Hb1 Hc1 Hn1 Hu1 Hcu1 _;
      (apply wp_bind; eapply wp_deref; [done |]; apply wp_bind; eapply wp_deref; [apply Hu1 |]).
    + rewrite Hn1. apply wp_bind. eapply wp_unlink; [exact HL1 |].
      intros s2 HL2 E2 Hx2 Hsm Hub. apply wp_bind.
      destruct (solo_evolves v P.*1 s1 s2 u ru' Hu1 E2) as (ru2 & Hu2 & Hcu2 & _).
      { intros Hin. apply Hnot. rewrite fmap_app. set_solver. }
      eapply (wp_free_solo v s0 F s2 _ x r'); [exact HL2 | by split; [rewrite Hsm |] | done.. |].
      intros s3 HL3 E3 _.
      destruct (solo_evolves v [x] s2 s3 u ru2 Hu2 E3) as (ru3 & Hu3 & Hcu3 & _); [set_solver |].
      apply (IH n s3 P ru3); try done; [lia | congruence | |].
      { intros Hin. apply Hnot. rewrite fmap_app in *. set_solver. }
      intros s' S2' HL' Hs. apply (HQ s' S2'); [done |]. simpl.
      rewrite (proj2 (Z.ltb_ge _ _)) by done. by rewrite (proj2 (Z.leb_le _ _)).
    + apply wp_bind. pose proof (core_proj _ _ Hcu1) as (_ & _ & _ & _ & He1 & _).
      eapply (wp_edit v s0 F s1 P x c' (set_start (hi ru + 1) c')); [exact HL1 | |].
      { intros r <-. rewrite He1. change (lf_end (core ru)) with (lf_end ru).
        rewrite s64_succ by done. done. }
      intros s2 HL2 _ _. apply wp_ret. apply (HQ s2 ((x, set_start (hi ru + 1) c') :: S3)); [done |].
      simpl. rewrite (proj2 (Z.ltb_ge _ _)) by done. rewrite (proj2 (Z.leb_gt _ _)) by done.
      apply (same_middle []); [| done]. by apply alike_set_start.
Qed.

(** ** The first pass *)

Section hit.
Context (s1 : kst) (A1 S1 : lks) (x : ptr) (c c' : lockf) (S3 A2 : lks) (u : ptr) (ru : lockf) (r' : lockf).
Context (HL1 : lst s1 ((A1 ++ S1) ++ (x, c') :: S3 ++ A2)) (Hal : alike c' c).
Context (Hx : solo s1 x r') (Hb : lf_blkhd r' = []) (Hn : lf_next r' = first (S3 ++ A2) None).
Context (Hu : solo s1 u ru) (Hnot : u ∉ ((A1 ++ S1) ++ (x, c') :: S3 ++ A2).*1).
Context (Hm : mine u) (Hw : wf_lk ru).
Context (Har : around ru A1.*2 S1.*2 ((x, c) :: S3).*2 A2.*2).
Abbreviation old := (A1 ++ S1 ++ ((x, c) :: S3) ++ A2).
Context (Q : Z → kst → Prop).
Context (HQ : ∀ s' L', lst s' L' → cleared ru old.*2 L'.*2 → Q 0 s').

Lemma clear_finish s' S' :
  lst s' (A1 ++ S' ++ A2) → same S'.*2 (removed ru S1.*2 ((x, c) :: S3).*2) → Q 0 s'.
Proof.
  intros HL' Hs. apply (HQ s' (A1 ++ S' ++ A2)); [done |].
  pose proof (cleared_removed ru _ _ _ _ Hw Har) as [Hi Hh]. rewrite !fmap_app. split.
  - by rewrite Hs.
  - intros i b t. by rewrite Hs, Hh.
Qed.

Lemma removed_hit :
  removed ru S1.*2 ((x, c) :: S3).*2 =
  S1.*2 ++ (if lf_start c <? lf_start ru then [cut c ru] else []) ++ trim (hi ru) (c :: S3.*2).
Proof. done. Qed.

Lemma clear_mine : mine x.
Proof. eapply lst_mine; [exact HL1 |]. rewrite fmap_app. set_solver. Qed.

(** [x] taken off the list and freed. *)
Lemma wp_clear_drop (k : M Z) :
  (∀ s', lst s' ((A1 ++ S1) ++ S3 ++ A2) → (∃ r, solo s' u r ∧ core r = core ru) → wp k Q s') →
  wp (write_ref (ref_of v (A1 ++ S1)) (lf_next r') ;; kheap_free x ;; k) Q s1.
Proof.
  intros HQ'. rewrite Hn. apply wp_bind. eapply wp_unlink; [exact HL1 |].
  intros s2 HL2 E2 Hx2 Hsm Hub. apply wp_bind.
  assert (Hux : u ≠ x) by (intros E; apply Hnot; rewrite fmap_app; subst; set_solver).
  destruct (solo_evolves v _ s1 s2 u ru Hu E2) as (ru2 & Hu2 & Hcu2 & _).
  { intros Hin. apply Hnot. rewrite fmap_app. set_solver. }
  eapply (wp_free_solo v s0 F s2 _ x r'); [exact HL2 | | done | apply clear_mine | done |].
  { split; [rewrite Hsm; apply Hx | done]. }
  intros s3 HL3 E3 _.
  destruct (solo_evolves v [x] s2 s3 u ru2 Hu2 E3) as (ru3 & Hu3 & Hcu3 & _); [set_solver |].
  apply HQ'; [done |]. exists ru3. split; [done | congruence].
Qed.

Lemma wp_clear_equals :
  lf_start c = lf_start ru → lf_end c = lf_end ru →
  wp (write_ref (ref_of v (A1 ++ S1)) (lf_next r') ;; kheap_free x ;; mret 0) Q s1.
Proof.
  intros Hst He. pose proof (wf_hi _ Hw). assert (hi c = hi ru) by (unfold hi; by rewrite He).
  apply wp_clear_drop. intros s2 HL2 _. apply wp_ret, (clear_finish s2 (S1 ++ S3)).
  - by rewrite <- !app_assoc in *.
  - rewrite removed_hit, (proj2 (Z.ltb_ge _ _)) by lia. rewrite trim_covered by lia.
    rewrite (trim_rest _ _ _ _ _ _ _ Har) by lia. by rewrite fmap_app.
Qed.

(** The front of [x] cut off. *)
Lemma wp_clear_front :
  lf_start ru <= lf_start c → lf_start c <= hi ru → hi ru < hi c → lf_end ru ≠ -1 →
  wp (modify x (set_start (s64 (lf_end ru + 1))) ;; mret 0) Q s1.
Proof.
  intros Hst Hle Hhi He. apply wp_bind.
  eapply (wp_edit v s0 F s1 _ x c' (set_start (hi ru + 1) c')); [exact HL1 | |].
  { intros r Hr. rewrite s64_succ by done. by rewrite <- Hr. }
  intros s2 HL2 _ _. apply wp_ret, (clear_finish s2 (S1 ++ (x, set_start (hi ru + 1) c') :: S3)).
  - by rewrite <- !app_assoc in *.
  - rewrite removed_hit, (proj2 (Z.ltb_ge _ _)), trim_beyond by lia. rewrite fmap_app.
    apply same_middle; [by apply alike_set_start | done].
Qed.

Lemma clear_continue n s2 X r2 :
  lst s2 ((A1 ++ X) ++ S3 ++ A2) → (length S3 < n)%nat → solo s2 u r2 → core r2 = core ru →
  u ∉ ((A1 ++ X) ++ S3 ++ A2).*1 →
  (∀ S2', same S2'.*2 (trim (hi ru) S3.*2) →
     same (X ++ S2').*2 (removed ru S1.*2 ((x, c) :: S3).*2)) →
  wp (clearlock_loop n (first (S3 ++ A2) None) u (ref_of v (A1 ++ X))) Q s2.
Proof.
  intros HL2 Hn' Hu2 Hcu2 Hnot2 HX. destruct (hit_rest _ _ _ _ _ _ _ Har) as (H1 & H2 & _ & H4).
  apply (wp_clear_rest u (core ru) A2 S3 n s2 (A1 ++ X) r2);
    [exact HL2 | exact Hn' | exact Hu2 | exact Hcu2 | exact Hnot2 | exact Hw | exact H1 | exact H2 | exact H4 |].
  intros s' S2' HL' Hs. apply (clear_finish s' (X ++ S2')); [| by apply HX].
  by rewrite <- !app_assoc in *.
Qed.

Lemma clear_notin X : X ⊆ (S1 ++ [(x, c')]).*1 → u ∉ (A1.*1 ++ X) ++ S3.*1 ++ A2.*1.
Proof. intros HX. pose proof Hnot as Hn'. rewrite !fmap_app in Hn'. rewrite fmap_app in HX. set_solver. Qed.

Lemma wp_clear_contained n :
  lf_start ru <= lf_start c → lf_start c <= hi ru → hi c <= hi ru → (length S3 < n)%nat →
  wp (write_ref (ref_of v (A1 ++ S1)) (lf_next r') ;; kheap_free x ;;
      clearlock_loop n (lf_next r') u (ref_of v (A1 ++ S1))) Q s1.
Proof.
  intros Hst Hle Hhi Hlen. apply wp_clear_drop. intros s2 HL2 (r2 & Hu2 & Hcu2). rewrite Hn.
  apply (clear_continue n s2 S1 r2); try done.
  - rewrite !fmap_app. apply clear_notin. rewrite fmap_app. set_solver.
  - intros S2' Hs. rewrite removed_hit, (proj2 (Z.ltb_ge _ _)), trim_covered by lia.
    rewrite fmap_app. by apply app_same.
Qed.

Lemma wp_clear_starts n :
  lf_start c < lf_start ru → hi c <= hi ru → (length S3 < n)%nat →
  wp (modify x (set_end (s64 (lf_start ru - 1))) ;;
      clearlock_loop n (lf_next r') u (RNext x)) Q s1.
Proof.
  intros Hst Hhi Hlen. pose proof (wf_hi _ Hw). apply wp_bind.
  eapply (wp_edit v s0 F s1 _ x c' (cut c' ru)); [exact HL1 | |].
  { intros r Hr. rewrite s64_pred by done. unfold cut. by rewrite <- Hr. }
  intros s2 HL2 E2 _. rewrite Hn.
  assert (Hux : u ≠ x) by (intros E; apply Hnot; rewrite fmap_app; subst; set_solver).
  destruct (solo_evolves v [x] s1 s2 u ru Hu E2) as (r2 & Hu2 & Hcu2 & _); [set_solver |].
  rewrite <- (ref_of_snoc v (A1 ++ S1) x (cut c' ru)), <- app_assoc.
  apply (clear_continue n s2 (S1 ++ [(x, cut c' ru)]) r2); try done.
  - rewrite <- !app_assoc in *. exact HL2.
  - rewrite (fmap_app fst (A1 ++ _)), (fmap_app fst A1), (fmap_app fst S3). apply clear_notin.
    by rewrite !fmap_app.
  - intros S2' Hs. rewrite removed_hit, (proj2 (Z.ltb_lt _ _)), trim_covered by lia.
    rewrite <- app_assoc, fmap_app. apply same_middle; [by apply alike_set_end | done].
Qed.

Context (Hno : ∀ L', lst s1 L' → same L'.*2 old.*2 → nomem s1 = true → Q ENOLCK s1).

Lemma wp_clear_split :
  lf_start c < lf_start ru → hi ru <= hi c → lf_end ru ≠ -1 → wf_lk c →
  wp (e ← lf_split x u;
      if negb (e =? 0) then mret ENOLCK
      else u' ← deref u; modify x (set_next (lf_next u')) ;; mret 0) Q s1.
Proof.
  intros Hst Hhi He Hwc. pose proof (view_proj _ _ Hal) as (_ & Hs' & He' & _ & Hh').
  pose proof (wf_hi _ Hw). apply wp_bind.
  eapply (wp_split v s0 F s1 (A1 ++ S1) x c' (S3 ++ A2) u ru);
    [exact HL1 | done | done | done | | done | lia | lia | done | |].
  { unfold wf_lk in *. lia. }
  - intros s2 Rt HL2 HRt. simpl.
    change ((x, cut c' ru) :: (u, core ru) :: Rt ++ S3 ++ A2)
      with ([(x, cut c' ru)] ++ (u, core ru) :: Rt ++ S3 ++ A2) in HL2. rewrite app_assoc in HL2.
    destruct (lst_lookup _ _ _ _ _ _ _ _ HL2) as (ru2 & [Hu2 _] & _ & Hn2).
    apply wp_bind. eapply wp_deref; [done |]. rewrite Hn2. apply wp_bind.
    apply (modify_next_ref v s2 (A1 ++ S1) x (cut c' ru)).
    eapply wp_unlink; [exact HL2 |]. intros s3 HL3 _ _ _ _. apply wp_ret.
    apply (clear_finish s3 (S1 ++ (x, cut c' ru) :: Rt ++ S3)).
    + rewrite <- !app_assoc in *. simpl. by rewrite <- app_assoc.
    + rewrite removed_hit, (proj2 (Z.ltb_lt _ _)) by lia. rewrite fmap_app.
      apply same_middle; [by apply alike_set_end |].
      change (same (Rt ++ S3).*2 (trim (hi ru) (c :: S3.*2))).
      destruct (hit_rest _ _ _ _ _ _ _ Har) as (_ & _ & Hbf & _).
      rewrite fmap_app, HRt, (trim_split _ c S3.*2), (trim_rest _ _ _ _ _ _ _ Har) by (done || lia).
      apply app_same; [| done]. by apply trim_alike.
  - intros Hmem. apply wp_ret. eapply Hno; [exact HL1 | | done].
    rewrite <- app_assoc. rewrite !fmap_app. simpl. rewrite app_assoc.
    rewrite (app_assoc A1.*2 S1.*2). apply same_middle; [done |]. by rewrite fmap_app.
Qed.

End hit.

Lemma around_core m m' B1 T1 T2 B2 :
  around m B1 T1 T2 B2 → core m = core m' → around m' B1 T1 T2 B2.
Proof.
  intros H E. assert (H' : around (core m) B1 T1 T2 B2).
  { destruct H as [? ? ? ? []]. split; done. }
  rewrite E in H'. destruct H' as [? ? ? ? []]. split; done.
Qed.

Lemma wp_clear_loop s A1 S1 S2 A2 u ru n (Q : Z → kst → Prop) :
  lst s (A1 ++ S1 ++ S2 ++ A2) → solo s u ru → u ∉ (A1 ++ S1 ++ S2 ++ A2).*1 →
  mine u → wf_lk ru → around ru A1.*2 S1.*2 S2.*2 A2.*2 → (length S2 < n)%nat →
  (∀ s' L', lst s' L' → cleared ru (A1 ++ S1 ++ S2 ++ A2).*2 L'.*2 → Q 0 s') →
  (∀ s' L', lst s' L' → same L'.*2 (A1 ++ S1 ++ S2 ++ A2).*2 → nomem s = true → Q ENOLCK s') →
  wp (clearlock_loop n (first (A1 ++ S1 ++ S2 ++ A2) None) u (RHead v)) Q s.
Proof.
  intros HL Hu Hnot Hm Hw Har Hn HQ Hno. destruct n as [|n]; [lia |]. cbn [clearlock_loop].
  apply wp_bind.
  destruct (found_cases ru A1.*2 S1.*2 S2 A2 Hw Har) as [[Hf Ha]|(x & c & S3 & k & -> & Hf & Hle & Hk)];
    (eapply wp_find_around; [exact HL | apply Hu | done | done | exact Hf |]).
  { apply wp_ret. apply (HQ s _ HL). rewrite !fmap_app. by apply cleared_apart. }
  assert (HL' : lst s ((A1 ++ S1) ++ (x, c) :: S3 ++ A2)) by (by rewrite <- app_assoc).
  assert (Hnot' : u ∉ ((A1 ++ S1) ++ (x, c) :: S3 ++ A2).*1) by (by rewrite <- app_assoc).
  assert (Hne : u ≠ x) by (intros ->; apply Hnot'; rewrite fmap_app; set_solver).
  assert (Hn' : (length S3 < n)%nat) by (simpl in Hn; lia).
  destruct (hit_own _ _ _ _ _ _ _ Har) as (_ & Hwc & _). simpl first.
  destruct k; simpl in Hk; [done | ..];
    (eapply wp_clear_enter; [exact HL' | exact Hu | done |];
     intros s1 c' r' ru' HL1 Hal Hx1 Hb1 Hc1 Hn1 Hu1 Hcu1 Hmem;
     apply wp_bind; eapply wp_deref; [apply Hx1 |]; apply wp_bind; eapply wp_deref; [apply Hu1 |]).
  all: pose proof (core_proj _ _ Hcu1) as (_ & _ & _ & Hsu & Heu & _).
  all: pose proof (around_core _ _ _ _ _ _ Har (eq_sym Hcu1)) as Har'.
  all: assert (Hw' : wf_lk ru') by (by apply (core_wf ru' (core ru))).
  all: assert (Hhu : hi ru' = hi ru) by (unfold hi; by rewrite Heu).
  all: assert (Hnot1 : u ∉ ((A1 ++ S1) ++ (x, c') :: S3 ++ A2).*1)
         by (rewrite fmap_app in *; exact Hnot').
  all: assert (HQ1 : ∀ s' L', lst s' L' →
         cleared ru' (A1 ++ S1 ++ ((x, c) :: S3) ++ A2).*2 L'.*2 → Q 0 s')
         by (intros s' L' HL0 Hc0; apply (HQ s' L' HL0);
             change (cleared (core ru) (A1 ++ S1 ++ ((x, c) :: S3) ++ A2).*2 L'.*2);
             rewrite <- Hcu1; exact Hc0).
  all: simpl in Hsu, Heu.
  - destruct Hk. eapply wp_clear_equals; try done; congruence.
  - pose proof (view_proj _ _ Hal) as (_ & Hst' & _). pose proof (core_proj _ _ Hc1) as (_ & _ & _ & Hst & _).
    destruct Hk as (? & ? & ? & ?). rewrite Hst, Hst'.
    destruct (Z.eqb_spec (lf_start c) (lf_start ru')).
    + eapply wp_clear_front; try done; (lia || congruence).
    + eapply wp_clear_split; try done; try (lia || congruence).
      intros L' HL0 Hs0 ?. apply (Hno s1 L'); [done | done | congruence].
  - destruct Hk. eapply wp_clear_contained; try done; lia.
  - destruct Hk. eapply wp_clear_starts; try done; lia.
  - destruct Hk as (? & ? & ?). eapply wp_clear_front; try done; (lia || congruence).
Qed.

End clear.

Lemma wp_clearlock v s L u ru :
  vlocks v s L → solo s u ru → u ∉ L.*1 → lf_head ru = v → wf_lk ru →
  wp (lf_clearlock u) (λ e s', evolves (u :: L.*1) v s s' ∧ ∃ L', vlocks v s' L' ∧
    ((e = 0 ∧ cleared ru L.*2 L'.*2) ∨ (e = ENOLCK ∧ nomem s = true ∧ same L'.*2 L.*2))) s.
Proof.
  intros HV Hu Hnot Hh Hw.
  destruct (around_exists v L ru (vl_inv _ _ _ HV) Hh) as (A1 & S1 & S2 & A2 & -> & Har).
  assert (HL : lst v s (u :: (A1 ++ S1 ++ S2 ++ A2).*1) s (A1 ++ S1 ++ S2 ++ A2)).
  { apply lst_start; [done | set_solver]. }
  unfold lf_clearlock. apply wp_bind. eapply wp_deref; [apply Hu |]. rewrite Hh.
  apply wp_bind. change (RHead v) with (ref_of v []).
  eapply (wp_read_ref v _ _ s []); [exact HL |].
  destruct (first (A1 ++ S1 ++ S2 ++ A2) None) as [y|] eqn:Hfirst.
  - apply wp_bind, wp_list_fuel. rewrite <- Hfirst.
    eapply wp_clear_loop; [exact HL | done | done | left; set_solver | done | done | | |].
    + pose proof (lst_size _ _ _ _ _ HL) as Hsz. rewrite !length_app in Hsz. lia.
    + intros s' L' HL' Hc. split; [by eapply ls_ev |]. exists L'. split; [| by left].
      eapply lst_vlocks; [exact HL' |]. rewrite <- Hh. apply Hc.
    + intros s' L' HL' Hs Hmem. split; [by eapply ls_ev |]. exists L'. split; [| by right].
      eapply lst_vlocks; [exact HL' |]. rewrite Hs. apply HV.
  - apply wp_ret. split; [apply evolves_refl |]. exists (A1 ++ S1 ++ S2 ++ A2). split; [done |].
    left. split; [done |].
    destruct A1 as [|[] ?]; [| done]. destruct S1 as [|[] ?]; [| done].
    destruct S2 as [|[] ?]; [| done]. destruct A2 as [|[] ?]; [| done].
    by apply (cleared_apart ru [] [] [] []).
Qed.
