(* ===== verification/LockfBlock.v ===== *)
(** * Conflicts and exclusion

    [lf_getblock] finds the first lock of another owner that conflicts with a
    request, and [lf_setlock] never lets two owners hold a byte unless both
    hold it shared. *)

From S2P Require Import Prelude Lockf LockfHeap LockfList LockfEdit LockfGrant LockfCoalesce LockfClear.

(** Another owner's lock that shares a byte with the request. *)
Definition meets (l c : lockf) : bool :=
  negb (bool_decide (lf_id c = lf_id l)) && (lf_start c <=? hi l) && (lf_start l <=? hi c).

Section block.
Context (env : environ).

(** Locks [lf_getblock] reports: those [matchpid] selects, when one of the two
    is exclusive. *)
Definition blocks (l : lockf) (matchpid : Z) (c : lockf) : bool :=
  meets l c
  && ((matchpid =? -1) || negb (tst (lf_flags c) (Z.lor F_POSIX F_OFD_LOCK))
      || (proc_pid env (lf_owner c) =? matchpid))
  && ((lf_type l =? F_WRLCK) || (lf_type c =? F_WRLCK)).

Definition first_block (l : lockf) (matchpid : Z) (L : lks) : option ptr :=
  fst <$> head (filter (λ e, blocks l matchpid e.2 = true) L).

Section search.
Context (v : vnode) (s0 : kst) (F : list ptr).
Abbreviation lst := (lst v s0 F).

Lemma fo_others_skip n s x r lk prev fs :
  heap s !! x = Some r → wf_lk r → wf_lk lk → meets lk r = false →
  findoverlap_loop (S n) (Some x) lk OTHERS prev fs s =
  findoverlap_loop n (lf_next r) lk OTHERS (RNext x) fs s.
Proof.
  intros Hx Hr Hl Hm. cbn [findoverlap_loop]. rewrite st_bind_unfold. unfold deref. rewrite Hx.
  unfold meets in Hm. case_bool_decide as Hid; simpl in *; [done |].
  rewrite orb_false_r. unfold wf_lk, hi, OFF_MAX in *. rewrite !Z.gtb_ltb.
  destruct (Z.eqb_spec (lf_end r) (-1)), (Z.eqb_spec (lf_end lk) (-1)); simpl;
    destruct (Z.ltb_spec (lf_end r) (lf_start lk)), (Z.ltb_spec (lf_end lk) (lf_start r)); simpl;
    rewrite ?andb_false_iff, ?Z.leb_gt in Hm; try done; lia.
Qed.

Lemma fo_others_hit n s x r lk prev fs :
  heap s !! x = Some r → wf_lk r → wf_lk lk → meets lk r = true →
  ∃ k, findoverlap_loop (S n) (Some x) lk OTHERS prev fs s = Ok ((k, prev, Some x), s) ∧
    k ≠ OVERLAP_NONE.
Proof.
  intros Hx Hr Hl Hm. unfold meets in Hm. rewrite !andb_true_iff, !Z.leb_le in Hm.
  destruct Hm as [[Hid%negb_true_iff H1] H2].
  destruct (overlap_case_spec r lk Hr Hl H1 H2) as (k & Hk & Hf). exists k.
  split; [| by intros ->]. cbn [findoverlap_loop]. rewrite st_bind_unfold. unfold deref.
  rewrite Hx, Hid. simpl. rewrite orb_false_r. unfold hi in *. rewrite !Z.gtb_ltb, Hk.
  destruct (Z.eqb_spec (lf_end r) (-1)), (Z.eqb_spec (lf_end lk) (-1)); simpl;
    destruct (Z.ltb_spec (lf_end r) (lf_start lk)), (Z.ltb_spec (lf_end lk) (lf_start r)); simpl;
    try done; lia.
Qed.

Lemma fo_others R : ∀ n s P lk prev fs,
  lst s (P ++ R) → Forall wf_lk R.*2 → wf_lk lk → (length R < n)%nat →
  (Forall (λ e, meets lk e.2 = false) R ∧ ∃ prev',
     findoverlap_loop n (first R None) lk OTHERS prev fs s = Ok ((OVERLAP_NONE, prev', None), s)) ∨
  (∃ R1 x c R2 k prev', R = R1 ++ (x, c) :: R2 ∧ Forall (λ e, meets lk e.2 = false) R1 ∧
     meets lk c = true ∧ k ≠ OVERLAP_NONE ∧
     findoverlap_loop n (first R None) lk OTHERS prev fs s = Ok ((k, prev', Some x), s)).
Proof.
  induction R as [|[x c] R IH]; intros n s P lk prev fs HL Hw Hl Hn;
    (destruct n as [|n]; [simpl in Hn; lia |]).
  { left. split; [constructor |]. by exists prev. }
  inv Hw as [|? ? Hwc Hw']. destruct (lst_lookup _ _ _ _ _ _ _ _ HL) as (r & [Hx _] & Hc & Hnx).
  subst c. simpl first. change (wf_lk r) in Hwc.
  destruct (meets lk (core r)) eqn:Hm.
  - right. destruct (fo_others_hit n s x r lk prev fs Hx Hwc Hl Hm) as (k & Hk & Hne).
    exists [], x, (core r), R, k, prev. split_and!; (done || constructor).
  - rewrite (fo_others_skip n s x r) by done. rewrite Hnx.
    change ((x, core r) :: R) with ([(x, core r)] ++ R) in HL. rewrite app_assoc in HL.
    simpl in Hn. destruct (IH n s _ lk (RNext x) fs HL Hw' Hl ltac:(lia))
      as [[Hf Hr]|(R1 & y & d & R2 & k & prev' & -> & Hf & Hrest)].
    + left. split; [by constructor | done].
    + right. exists ((x, core r) :: R1), y, d, R2, k, prev'. split; [done |].
      split; [by constructor | done].
Qed.

Lemma first_block_none l mp R :
  Forall (λ e, meets l e.2 = false) R → first_block l mp R = None.
Proof.
  intros HR. unfold first_block. induction HR as [|e R He HR IH]; [done |].
  rewrite filter_cons_False; [done |]. unfold blocks. by rewrite He.
Qed.

Lemma first_block_skip l mp R1 e R2 :
  Forall (λ e, meets l e.2 = false) R1 →
  first_block l mp (R1 ++ e :: R2) =
  if blocks l mp e.2 then Some e.1 else first_block l mp R2.
Proof.
  intros HR. unfold first_block. induction HR as [|e' R He HR IH]; simpl app.
  - destruct (blocks l mp e.2) eqn:Hb.
    + by rewrite filter_cons_True.
    + rewrite filter_cons_False; [done |]. by rewrite Hb.
  - rewrite filter_cons_False; [done |]. unfold blocks. by rewrite He.
Qed.

Lemma wp_getblock_loop lock rl mp n : ∀ s P R prev (Q : option ptr → kst → Prop),
  lst s (P ++ R) → Forall wf_lk R.*2 → heap s !! lock = Some rl → wf_lk rl → (length R < n)%nat →
  Q (first_block rl mp R) s →
  wp (getblock_loop env n (first R None) lock mp prev) Q s.
Proof.
  induction n as [|n IH]; intros s P R prev Q HL Hw Hl Hwl Hn HQ; [lia |]. cbn [getblock_loop].
  apply wp_bind. unfold lf_findoverlap.
  destruct (first R None) as [y|] eqn:Hfirst; [| destruct R as [|[]]; [by do 2 apply wp_ret | done]].
  apply wp_bind. eapply wp_deref; [done |]. apply wp_bind, wp_list_fuel. rewrite <- Hfirst.
  pose proof (lst_size _ _ _ _ _ HL) as Hsz. rewrite length_app in Hsz.
  destruct (fo_others R (S (size (heap s))) s P rl prev false HL Hw Hwl ltac:(lia))
    as [[Hf [prev' E]]|(R1 & x & c & R2 & k & prev' & -> & Hf & Hm & Hk & E)];
    (eapply wp_of_Ok; [exact E |]).
  { apply wp_ret. by rewrite first_block_none in HQ. }
  rewrite first_block_skip in HQ by done. rewrite app_assoc in HL.
  destruct (lst_lookup _ _ _ _ _ _ _ _ HL) as (o & [Hx _] & Hc & Hnx).
  rewrite fmap_app, Forall_app, fmap_cons, Forall_cons in Hw. destruct Hw as (_ & _ & Hw2).
  assert (Hcont : Q (first_block rl mp R2) s →
    wp (getblock_loop env n (lf_next o) lock mp prev') Q s).
  { intros HQ2. rewrite Hnx. change ((x, c) :: R2) with ([(x, c)] ++ R2) in HL.
    rewrite app_assoc in HL. eapply IH; [exact HL | done.. | | done].
    rewrite length_app in Hn. simpl in Hn. lia. }
  simpl in HQ. unfold blocks in HQ. rewrite Hm in HQ. simpl in HQ.
  apply core_proj in Hc as (Hfl & Hty & _ & _ & _ & _ & _ & _ & Hown).
  rewrite <- Hfl, <- Hty, <- Hown in HQ.
  destruct k; [done | ..];
    (apply wp_bind; eapply wp_deref; [done |]; apply wp_bind; eapply wp_deref; [done |]).
  all: destruct (mp =? -1), (tst (lf_flags o) _), (proc_pid env (lf_owner o) =? mp); simpl in *;
    try (by apply Hcont); destruct ((lf_type rl =? F_WRLCK) || (lf_type o =? F_WRLCK));
    (by apply wp_ret) || (by apply Hcont).
Qed.

End search.

Lemma wp_getblock v s L lock rl mp (Q : option ptr → kst → Prop) :
  vlocks v s L → heap s !! lock = Some rl → lf_head rl = v → wf_lk rl →
  Q (first_block rl mp L) s → wp (lf_getblock env lock mp) Q s.
Proof.
  intros HV Hl Hh Hw HQ. pose proof (lst_start v s L.*1 L HV ltac:(done)) as HL.
  unfold lf_getblock. apply wp_bind. eapply wp_deref; [done |]. rewrite Hh. apply wp_bind.
  change (RHead v) with (ref_of v []). eapply (wp_read_ref v _ _ s []); [exact HL |].
  apply wp_bind, wp_list_fuel. pose proof (lst_size _ _ _ _ _ HL).
  eapply (wp_getblock_loop v s L.*1 lock rl mp _ s [] L); try done; [| lia].
  apply HV.
Qed.

(** ** Exclusion *)

(** Two owners hold the same byte only when both hold it shared. *)
Definition exclusive (A : list lockf) : Prop := ∀ i j b t t',
  i ≠ j → holds A i b t → holds A j b t' → t ≠ F_WRLCK ∧ t' ≠ F_WRLCK.

Lemma unblocked_compatible l L c b :
  first_block l (-1) L = None → c ∈ L.*2 → lf_id c ≠ lf_id l → covers c b → covers l b →
  lf_type l ≠ F_WRLCK ∧ lf_type c ≠ F_WRLCK.
Proof.
  intros Hb Hc Hid Hcb Hlb. apply list_elem_of_fmap in Hc as ([x d] & -> & Hin). simpl in *.
  assert (Hno : blocks l (-1) d = false).
  { apply not_true_iff_false. intros Hbl. unfold first_block in Hb. apply fmap_None in Hb.
    assert (Hf : (x, d) ∈ filter (λ e, blocks l (-1) e.2 = true) L) by (by apply list_elem_of_filter).
    destruct (filter _ L); [set_solver | done]. }
  unfold blocks, meets in Hno. unfold covers in *. rewrite bool_decide_eq_false_2 in Hno by done.
  rewrite (proj2 (Z.leb_le _ _)), (proj2 (Z.leb_le _ _)) in Hno by lia. simpl in Hno.
  apply orb_false_iff in Hno as [?%Z.eqb_neq ?%Z.eqb_neq]. done.
Qed.

Lemma granted_exclusive l L B :
  first_block l (-1) L = None → granted l L.*2 B → exclusive L.*2 → exclusive B.
Proof.
  intros Hb [_ Hg] He i j b t t' Hij Hi Hj. apply Hg in Hi, Hj.
  assert (Hnew : ∀ i t, i ≠ lf_id l → holds L.*2 i b t → covers l b →
    lf_type l ≠ F_WRLCK ∧ t ≠ F_WRLCK).
  { intros k u Hk (c & Hc & <- & Hcb & <-) Hlb. by eapply unblocked_compatible. }
  destruct Hi as [(-> & Hcov & ->)|[Hi Hni]], Hj as [(-> & Hcov' & ->)|[Hj Hnj]].
  - done.
  - eapply Hnew; [| exact Hj | done]. done.
  - destruct (Hnew i t Hij Hi Hcov') as [? ?]. done.
  - by eapply He.
Qed.

Lemma cleared_exclusive l A B : cleared l A B → exclusive A → exclusive B.
Proof.
  intros [_ Hc] He i j b t t' Hij Hi Hj. apply Hc in Hi as [Hi _]. apply Hc in Hj as [Hj _].
  by eapply He.
Qed.

Lemma wp_setlock_nowait v s L lock rl :
  vlocks v s L → request v s L lock rl → lf_blkhd rl = [] → tst (lf_flags rl) F_WAIT = false →
  exclusive L.*2 →
  wp (lf_setlock env lock) (λ out s', evolves (lock :: L.*1) v s s' ∧ ∃ L', vlocks v s' L' ∧
    exclusive L'.*2 ∧
    ((out = SLReturn 0 ∧ first_block rl (-1) L = None ∧ granted rl L.*2 L'.*2) ∨
     (out = SLReturn EAGAIN ∧ is_Some (first_block rl (-1) L) ∧ L' = L) ∨
     (out = SLReturn ENOLCK ∧ nomem s = true ∧ L' = L))) s.
Proof.
  intros HV Hrq Hq Hnw He. pose proof Hrq as [Hl Hnot Hh Hw _]. unfold lf_setlock.
  apply wp_bind. eapply wp_getblock; [done | apply Hl | done | done |].
  destruct (first_block rl (-1) L) as [b|] eqn:Hb.
  - apply wp_bind. eapply wp_deref; [apply Hl |]. rewrite Hnw. simpl. apply wp_bind.
    eapply wp_free_solo; [apply (lst_start v s (lock :: L.*1)); [done | set_solver] | done | done | | done |].
    { left. set_solver. }
    intros s' HL' _ _. apply wp_ret. split; [by eapply ls_ev |]. exists L.
    split; [eapply lst_vlocks; [exact HL' | apply HV] |]. split; [done |]. right. left. eauto.
  - apply wp_bind. eapply wp_mono; [by apply wp_setlock_grant |].
    intros e s' [Hev [(-> & L' & HV' & Hg)|(-> & Hmem & HV')]]; apply wp_ret; split; try done.
    + exists L'. split; [done |]. split; [by eapply granted_exclusive |]. auto.
    + exists L. split; [done |]. split; [done |]. auto.
Qed.

End block.
