(* ===== verification/LockfWait.v ===== *)
(** * Waiting for a lock

    A request that has to wait ends up in the queue of a lock that conflicts
    with it, linked back to that lock, with the lists and queues in order. *)

From S2P Require Import Prelude Lockf LockfHeap LockfList LockfEdit LockfGrant LockfCoalesce LockfClear LockfBlock.

(** [lock] is queued on [b]. *)
Definition waiting (s : kst) (lock b : ptr) : Prop :=
  ∃ rl rb, heap s !! lock = Some rl ∧ lf_next rl = Some b ∧
    heap s !! b = Some rb ∧ lock ∈ lf_blkhd rb.

(** The vnode's locks in order, [lock] waiting for [b], nobody forgotten. *)
Record queued (v : vnode) (s0 s : kst) (A : list lockf) (lock b : ptr) : Prop := {
  qu_locks : ∃ L1 c L2, vlocks v s (L1 ++ (b, c) :: L2) ∧ same (L1 ++ (b, c) :: L2).*2 A;
  qu_wait : waiting s lock b;
  qu_keep : ∀ q, blocked (heap s0) q → blocked (heap s) q;
}.

Lemma vlocks_update v s L1 b c L2 r r' :
  vlocks v s (L1 ++ (b, c) :: L2) → heap s !! b = Some r → lf_next r' = lf_next r →
  alike (core r') c → BI (<[b := r']> (heap s)) →
  (∀ x, x ∈ (L1 ++ (b, c) :: L2).*1 → ¬ blocked (<[b := r']> (heap s)) x) →
  vlocks v (set_heap (<[b := r']> (heap s)) s) (L1 ++ (b, core r') :: L2).
Proof.
  intros [Hp Hnd Hu HB Hi] Hb Hn Hal HB' Hu'.
  assert (Hfst : (L1 ++ (b, core r') :: L2).*1 = (L1 ++ (b, c) :: L2).*1) by (by rewrite !fmap_app).
  split; rewrite ?Hfst; try done.
  - rewrite fmap_app in Hnd. apply NoDup_app in Hnd as (_ & Hd & Hnd). inv Hnd.
    unfold path in *. simpl. apply seg_app in Hp as [Hp1 Hp2]. apply seg_app. simpl in *.
    destruct Hp2 as (_ & r0 & Hr0 & _ & Hp2). simplify_eq. split; [| split; [done |]].
    + eapply seg_frame; [| exact Hp1]. intros y Hy. apply same_lk_insert_ne.
      intros ->. apply (Hd y Hy). set_solver.
    + exists r'. rewrite lookup_insert_eq. split_and!; try done. rewrite Hn.
      eapply seg_frame; [| exact Hp2]. intros y Hy. apply same_lk_insert_ne. set_solver.
  - rewrite fmap_app in *. eapply linv_same; [| exact Hi]. by apply same_middle.
Qed.

Lemma BI_perm h b r r' :
  BI h → h !! b = Some r → lf_next r' = lf_next r → lf_blkhd r' ≡ₚ lf_blkhd r →
  BI (<[b := r']> h) ∧ (∀ x, blocked (<[b := r']> h) x ↔ blocked h x).
Proof.
  intros HB Hb Hn Hq.
  assert (Hlk : ∀ p rp, <[b := r']> h !! p = Some rp → ∃ rp0, h !! p = Some rp0 ∧
    lf_next rp = lf_next rp0 ∧ lf_blkhd rp ≡ₚ lf_blkhd rp0).
  { intros p rp Hp. destruct (decide (b = p)) as [->|].
    - rewrite lookup_insert_eq in Hp. simplify_eq. eauto.
    - rewrite lookup_insert_ne in Hp by done. eauto. }
  assert (Hlk' : ∀ p rp, h !! p = Some rp → ∃ rp', <[b := r']> h !! p = Some rp' ∧
    lf_next rp' = lf_next rp ∧ lf_blkhd rp' ≡ₚ lf_blkhd rp).
  { intros p rp Hp. destruct (decide (b = p)) as [->|].
    - rewrite lookup_insert_eq. simplify_eq. eauto.
    - rewrite lookup_insert_ne by done. eauto. }
  split.
  - intros p rp Hp. destruct (Hlk p rp Hp) as (rp0 & Hp0 & _ & Hperm).
    destruct (HB p rp0 Hp0) as [Hnd Hback]. split; [by rewrite Hperm |].
    intros q Hq'. rewrite Hperm in Hq'. destruct (Hback q Hq') as (rq & Hrq & Hnq).
    destruct (Hlk' q rq Hrq) as (rq' & ? & ? & _). exists rq'. split; [done | congruence].
  - intros x. split; intros (p & rp & Hp & Hx).
    + destruct (Hlk p rp Hp) as (rp0 & ? & _ & Hperm). exists p, rp0. by rewrite <- Hperm.
    + destruct (Hlk' p rp Hp) as (rp0 & ? & _ & Hperm). exists p, rp0. by rewrite Hperm.
Qed.

(** Fields of [b] other than its range changed, its queue at most reordered. *)
Lemma wp_queued_modify v s0 s A lock b f (Q : () → kst → Prop) :
  queued v s0 s A lock b → lock ≠ b →
  (∀ r, lf_next (f r) = lf_next r ∧ alike (f r) r ∧ (lock ∈ lf_blkhd r → NoDup (lf_blkhd r) →
     lf_blkhd (f r) ≡ₚ lf_blkhd r)) →
  (∀ s', queued v s0 s' A lock b → Q () s') →
  wp (modify b f) Q s.
Proof.
  intros [(L1 & c & L2 & HV & Hs) (rl & rb & Hl & Hln & Hb & Hin) Hk] Hne Hf HQ.
  destruct (Hf rb) as (Hn & Hal & Hq). eapply wp_modify; [done |].
  destruct (vl_BI _ _ _ HV b rb Hb) as [Hndq _]. specialize (Hq Hin Hndq).
  destruct (BI_perm (heap s) b rb (f rb) (vl_BI _ _ _ HV) Hb Hn Hq) as [HB' Hbl].
  destruct (seg_lookup _ _ _ _ b c (vl_path _ _ _ HV)) as (r0 & Hr0 & Hc); [set_solver |].
  simplify_eq. assert (Hal' : alike (core (f rb)) (core rb)) by exact Hal.
  apply HQ. split.
  - exists L1, (core (f rb)), L2. split.
    + eapply vlocks_update; try done. intros x Hx Hbx. apply Hbl in Hbx.
      by apply (vl_unb _ _ _ HV x Hx).
    + etrans; [| exact Hs]. rewrite !fmap_app. by apply same_middle.
  - exists rl, (f rb). simpl. rewrite lookup_insert_ne, lookup_insert_eq by done.
    split_and!; try done. by rewrite Hq.
  - intros q Hb'. apply Hbl. by apply Hk.
Qed.

Lemma BI_enqueue h lock rl b rb :
  BI h → h !! lock = Some rl → ¬ blocked h lock → h !! b = Some rb → lock ≠ b →
  let h' := <[b := set_blkhd (lf_blkhd rb ++ [lock]) rb]> (<[lock := set_next (Some b) rl]> h) in
  BI h' ∧ (∀ x, blocked h' x ↔ blocked h x ∨ x = lock).
Proof.
  intros HB Hl Hu Hb Hne h'.
  assert (Hlk : ∀ p, h' !! p = if decide (p = b) then Some (set_blkhd (lf_blkhd rb ++ [lock]) rb)
    else if decide (p = lock) then Some (set_next (Some b) rl) else h !! p).
  { intros p. unfold h'. repeat case_decide; subst; by simplify_map_eq. }
  assert (Hnl : ∀ p rp, h !! p = Some rp → lock ∉ lf_blkhd rp) by (intros p rp Hp Hin; apply Hu; by exists p, rp).
  assert (Hnext : ∀ q rq, h !! q = Some rq → q ≠ lock → ∃ rq', h' !! q = Some rq' ∧ lf_next rq' = lf_next rq).
  { intros q rq Hq Hql. rewrite Hlk. repeat case_decide; subst; simplify_eq; eauto. }
  split.
  - intros p rp Hp. rewrite Hlk in Hp. repeat case_decide; subst; simplify_eq; simpl.
    + destruct (HB b rb Hb) as [Hnd Hback]. split.
      { apply NoDup_app. split_and!; [done | | apply NoDup_singleton].
        intros x Hx ->%list_elem_of_singleton. by apply (Hnl b rb). }
      intros q [Hq| ->%list_elem_of_singleton]%elem_of_app.
      * destruct (Hback q Hq) as (rq & Hrq & Hnq).
        destruct (Hnext q rq Hrq) as (rq' & ? & ?); [intros ->; by apply (Hnl b rb) |].
        exists rq'. split; [done | congruence].
      * eexists. rewrite Hlk, decide_False, decide_True by done. done.
    + destruct (HB lock rl Hl) as [Hnd Hback]. split; [done |]. intros q Hq.
      destruct (Hback q Hq) as (rq & Hrq & Hnq).
      destruct (Hnext q rq Hrq) as (rq' & ? & ?); [intros ->; by apply (Hnl lock rl) |].
      exists rq'. split; [done | congruence].
    + destruct (HB p rp Hp) as [Hnd Hback]. split; [done |]. intros q Hq.
      destruct (Hback q Hq) as (rq & Hrq & Hnq).
      destruct (Hnext q rq Hrq) as (rq' & ? & ?); [intros ->; by apply (Hnl p rp) |].
      exists rq'. split; [done | congruence].
  - intros x. split.
    + intros (p & rp & Hp & Hx). rewrite Hlk in Hp. repeat case_decide; subst; simplify_eq; simpl in *.
      * apply elem_of_app in Hx as [Hx| ->%list_elem_of_singleton]; [left; by exists b, rb | by right].
      * left. by exists lock, rl.
      * left. by exists p, rp.
    + intros [(p & rp & Hp & Hx)| ->].
      * destruct (decide (p = b)) as [->|]; [| destruct (decide (p = lock)) as [->|]].
        -- eexists b, _. rewrite Hlk, decide_True by done. split; [done |]. simplify_eq. simpl. set_solver.
        -- eexists lock, _. rewrite Hlk, decide_False, decide_True by done. split; [done |]. by simplify_eq.
        -- exists p, rp. by rewrite Hlk, !decide_False.
      * eexists b, _. rewrite Hlk, decide_True by done. split; [done |]. simpl. set_solver.
Qed.

Lemma wp_enqueue v s L1 b c L2 lock rl (Q : () → kst → Prop) :
  vlocks v s (L1 ++ (b, c) :: L2) → solo s lock rl → lock ∉ (L1 ++ (b, c) :: L2).*1 →
  (∀ s', queued v s s' (L1 ++ (b, c) :: L2).*2 lock b → nomem s' = nomem s →
     heap s' !! lock = Some (set_next (Some b) rl) → Q () s') →
  wp (modify lock (set_next (Some b)) ;; modify b (λ r, set_blkhd (lf_blkhd r ++ [lock]) r)) Q s.
Proof.
  intros HV [Hl Hu] Hnot HQ.
  destruct (seg_lookup _ _ _ _ b c (vl_path _ _ _ HV)) as (rb & Hb & Hc); [set_solver |].
  assert (Hne : lock ≠ b) by (intros ->; apply Hnot; rewrite fmap_app; set_solver).
  apply wp_bind. eapply wp_modify; [done |].
  eapply wp_modify; [simpl; by rewrite lookup_insert_ne |]. rewrite set_heap_set_heap. simpl.
  destruct (BI_enqueue (heap s) lock rl b rb (vl_BI _ _ _ HV) Hl Hu Hb Hne) as [HB Hbl].
  apply HQ; [| done | simpl; by rewrite lookup_insert_ne, lookup_insert_eq].
  set (s1 := set_heap (<[lock := set_next (Some b) rl]> (heap s)) s).
  assert (HV1 : vlocks v s1 (L1 ++ (b, c) :: L2)).
  { eapply lst_vlocks; [| apply HV].
    eapply (lst_evolves v s (lock :: (L1 ++ (b, c) :: L2).*1) [lock] s s1);
      [by apply lst_start; [| set_solver] | by eapply evolves_modify; eauto | | done].
    intros x ->%list_elem_of_singleton. split; [left; set_solver | done]. }
  split.
  - exists L1, (core (set_blkhd (lf_blkhd rb ++ [lock]) rb)), L2. split.
    + eapply (vlocks_update v s1 L1 b c L2 rb); try done.
      * simpl. by rewrite lookup_insert_ne.
      * by subst c.
      * intros x Hx Hbx. apply Hbl in Hbx as [Hbx| ->]; [| done]. by apply (vl_unb _ _ _ HV x Hx).
    + rewrite !fmap_app. apply same_middle; [by subst c | done].
  - exists (set_next (Some b) rl), (set_blkhd (lf_blkhd rb ++ [lock]) rb). simpl.
    rewrite lookup_insert_ne, !lookup_insert_eq by done. split_and!; try done. simpl. set_solver.
  - intros q Hq. apply Hbl. by left.
Qed.

Lemma wp_modify2 x f g (Q : () → kst → Prop) s :
  wp (modify x (λ r, g (f r))) Q s → wp (modify x f ;; modify x g) Q s.
Proof.
  intros H. apply wp_bind. unfold wp, modify in *. destruct (heap s !! x) as [r|]; [| done].
  simpl. by rewrite lookup_insert_eq, insert_insert_eq.
Qed.

Lemma to_head_perm (x : ptr) l : NoDup l → x ∈ l → x :: filter (λ y, y ≠ x) l ≡ₚ l.
Proof.
  intros Hnd Hx. apply NoDup_Permutation; [| done |].
  - constructor; [rewrite list_elem_of_filter; naive_solver | by apply NoDup_filter].
  - intros y. rewrite elem_of_cons, list_elem_of_filter. destruct (decide (y = x)); naive_solver.
Qed.

Lemma queued_emit v s0 s A lock b e :
  queued v s0 s A lock b → queued v s0 (add_event e s) A lock b.
Proof.
  intros [(L1 & c & L2 & [] & Hs) Hw Hk]. split; [| exact Hw | exact Hk].
  exists L1, c, L2. split; [by split | done].
Qed.

Section wait.
Context (env : environ).

Lemma wp_boost v s0 s A lock b (Q : () → kst → Prop) :
  queued v s0 s A lock b → lock ≠ b →
  (∀ s', queued v s0 s' A lock b → Q () s') →
  wp (lf_boost_blocking_proc env lock b) Q s.
Proof.
  intros Hq Hne HQ. pose proof (qu_wait _ _ _ _ _ _ Hq) as (rl & rb & Hl & _ & Hb & _).
  unfold lf_boost_blocking_proc. apply wp_bind. eapply wp_deref; [done |].
  apply wp_bind. eapply wp_deref; [done |]. destruct (task_is_importance_donor _ _); [| by apply wp_ret, HQ].
  apply wp_bind. apply (wp_mono _ (λ _ s', queued v s0 s' A lock b)).
  - destruct (_ && _); [| by apply wp_ret]. unfold lf_hold_assertion.
    destruct (_ =? 0); [| by apply wp_ret]. apply wp_bind, wp_emit.
    eapply (wp_queued_modify v s0 _ A lock b); [by apply queued_emit | done | | done].
    intros r. done.
  - intros _ s1 Hq1. pose proof (qu_wait _ _ _ _ _ _ Hq1) as (rl1 & rb1 & _ & _ & Hb1 & Hin1).
    unfold lf_jump_to_queue_head. apply wp_bind. eapply wp_deref; [done |].
    rewrite bool_decide_eq_true_2 by done. apply wp_modify2.
    eapply wp_queued_modify; [exact Hq1 | done | | done].
    intros r. split_and!; try done. intros Hin Hnd. simpl. by apply to_head_perm.
Qed.

(** What becomes of a request that is blocked by [b], when the deadlock check
    has answered [d]. *)
Definition waits_or_fails (v : vnode) (s : kst) (A : list lockf) (lock b : ptr) (d : deadlock_out) (out : setlock_out) (s' : kst) : Prop :=
  match d with
  | DLNone => out = SLSleep ∧ queued v s s' A lock b
  | DLDeadlock => out = SLReturn EDEADLK ∧ s' = set_heap (delete lock (heap s)) s
  | DLPause => out = SLPause ∧ s' = s
  end.

(** A request that waits, but for an exclusive one of [flock]. *)
Lemma wp_setlock_wait v s L lock rl b d :
  vlocks v s L → request v s L lock rl →
  tst (lf_flags rl) F_WAIT = true → tst (lf_flags rl) F_FLOCK && (lf_type rl =? F_WRLCK) = false →
  first_block env rl (-1) L = Some b → deadlock_check env lock b s = Ok (d, s) →
  wp (lf_setlock env lock) (waits_or_fails v s L.*2 lock b d) s.
Proof.
  intros HV [Hl Hnot Hh Hw _] Hwait Hflock Hb Hd. unfold lf_setlock.
  apply wp_bind. eapply wp_getblock; [done | apply Hl | done | done |]. rewrite Hb.
  apply wp_bind. eapply wp_deref; [apply Hl |]. rewrite Hwait. simpl.
  apply wp_bind. eapply wp_of_Ok; [exact Hd |]. destruct d; [| apply wp_bind; by eapply wp_free; [apply Hl |] | by apply wp_ret].
  unfold lf_setlock_block. apply wp_bind. eapply wp_deref; [apply Hl |]. rewrite Hflock.
  apply wp_bind, wp_ret. simpl.
  assert (HbL : ∃ L1 c L2, L = L1 ++ (b, c) :: L2).
  { unfold first_block in Hb. apply fmap_Some in Hb as ([x c] & Hh' & ->).
    apply head_Some_elem_of, list_elem_of_filter in Hh' as [_ Hin].
    apply list_elem_of_split in Hin as (L1 & L2 & ->). eauto. }
  destruct HbL as (L1 & c & L2 & ->).
  assert (Hne : lock ≠ b) by (intros ->; apply Hnot; rewrite fmap_app; set_solver).
  apply wp_seq2. eapply wp_enqueue; [done | done | done |]. intros s1 Hq1 _ Hl1.
  apply wp_bind. eapply wp_deref; [done |]. simpl. apply wp_bind.
  apply (wp_mono _ (λ _ s', queued v s s' (L1 ++ (b, c) :: L2).*2 lock b)).
  { destruct (negb _); [| by apply wp_ret]. eapply wp_queued_modify; [exact Hq1 | done | by intros r | done]. }
  intros _ s2 Hq2. pose proof (qu_wait _ _ _ _ _ _ Hq2) as (rl2 & rb2 & Hl2 & _ & Hb2 & _).
  apply wp_bind. eapply wp_deref; [done |]. apply wp_bind.
  apply (wp_mono _ (λ _ s', queued v s s' (L1 ++ (b, c) :: L2).*2 lock b));
    [| by intros _ s3 Hq3; apply wp_ret].
  destruct (tst _ F_POSIX); [by eapply wp_boost |].
  destruct (tst _ F_OFD_LOCK && _ && _); [by eapply wp_boost | by apply wp_ret].
Qed.

End wait.
