(* ===== verification/LockfSpec.v ===== *)
(** * What the record locks promise

    The results of [lf_setlock], [lf_clearlock], [lf_getblock] and of the
    conversion of a [struct flock] to a byte range, and the two places where
    the code falls short of them. *)

From S2P Require Import Prelude Lockf LockfHeap LockfList LockfEdit LockfGrant LockfCoalesce LockfClear LockfBlock LockfWait.

Section spec.
Context (env : environ).

(** C7: Granting a request that nothing blocks always terminates without
    touching freed memory.  On success the requesting owner holds exactly the
    requested bytes with the requested type in addition to, or instead of,
    what it held, every other owner holds what it held, and each owner's locks
    are again disjoint, in order and adjacent in the list.  The only error is
    ENOLCK when no memory is left, and then the list is as before.  Requests
    queued anywhere stay queued or are woken. *)
Theorem lf_setlock_grant_correct v s L lock rl :
  vlocks v s L → request v s L lock rl →
  ∃ e s', lf_setlock_grant lock s = Ok (e, s') ∧ evolves (lock :: L.*1) v s s' ∧
    ((e = 0 ∧ ∃ L', vlocks v s' L' ∧ granted rl L.*2 L'.*2) ∨
     (e = ENOLCK ∧ nomem s = true ∧ vlocks v s' L)).
Proof. intros HV Hr. apply wp_Ok. by apply wp_setlock_grant. Qed.

(** C8: Releasing a range always terminates without touching freed memory.
    Afterwards the owner holds what it held outside the range and nothing
    inside, other owners hold what they held, and the list is in order.  When
    a split finds no memory the error is ENOLCK and nothing was released.
    Requests queued anywhere stay queued or are woken. *)
Theorem lf_clearlock_correct v s L u ru :
  vlocks v s L → solo s u ru → u ∉ L.*1 → lf_head ru = v → wf_lk ru →
  ∃ e s', lf_clearlock u s = Ok (e, s') ∧ evolves (u :: L.*1) v s s' ∧
    ∃ L', vlocks v s' L' ∧
      ((e = 0 ∧ cleared ru L.*2 L'.*2) ∨ (e = ENOLCK ∧ nomem s = true ∧ same L'.*2 L.*2)).
Proof. intros. apply wp_Ok. by apply wp_clearlock. Qed.

(** [lf_getblock] returns the first lock in list order that belongs to
    another owner, shares a byte with the request, is selected by the pid
    filter and excludes or is excluded by the request; it returns none exactly
    when there is no such lock, and it changes nothing. *)
Lemma lf_getblock_exact v s L lock rl mp :
  vlocks v s L → heap s !! lock = Some rl → lf_head rl = v → wf_lk rl →
  lf_getblock env lock mp s = Ok (first_block env rl mp L, s).
Proof.
  intros HV Hl Hh Hw.
  assert (H : wp (lf_getblock env lock mp) (λ r s', r = first_block env rl mp L ∧ s' = s) s).
  { by eapply wp_getblock. }
  apply wp_Ok in H as (r & s' & -> & -> & ->). done.
Qed.

(** C3: A request that may not wait is granted exactly when no other owner's
    lock conflicts with it, and is refused with EAGAIN and no change
    otherwise, or, when memory has run out, with ENOLCK and no change; either
    way two owners never hold the same byte unless both hold it shared.  Locks
    end before the greatest offset. *)
Theorem lf_setlock_exclusion v s L lock rl :
  vlocks v s L → request v s L lock rl → lf_blkhd rl = [] →
  tst (lf_flags rl) F_WAIT = false → exclusive L.*2 →
  ∃ out s', lf_setlock env lock s = Ok (out, s') ∧ evolves (lock :: L.*1) v s s' ∧
    ∃ L', vlocks v s' L' ∧ exclusive L'.*2 ∧
      ((out = SLReturn 0 ∧ first_block env rl (-1) L = None ∧ granted rl L.*2 L'.*2) ∨
       (out = SLReturn EAGAIN ∧ is_Some (first_block env rl (-1) L) ∧ L' = L) ∨
       (out = SLReturn ENOLCK ∧ nomem s = true ∧ L' = L)).
Proof. intros. apply wp_Ok. by apply wp_setlock_nowait. Qed.

(** C32: a request that has to wait, other than an exclusive one of [flock]
    (which gives its owner's locks up first), goes by the answer of the deadlock
    check: when that finds nothing the request goes to sleep in the queue of the
    first lock that blocks it, linked to that lock, with the granted locks
    unchanged and no other waiter dropped; when it finds a deadlock the request
    is freed and refused with EDEADLK; when a vnode is locked by another thread
    the request pauses and nothing changes. *)
Theorem lf_setlock_queues v s L lock rl b d :
  vlocks v s L → request v s L lock rl →
  tst (lf_flags rl) F_WAIT = true → tst (lf_flags rl) F_FLOCK && (lf_type rl =? F_WRLCK) = false →
  first_block env rl (-1) L = Some b → deadlock_check env lock b s = Ok (d, s) →
  ∃ out s', lf_setlock env lock s = Ok (out, s') ∧ waits_or_fails v s L.*2 lock b d out s'.
Proof. intros. apply wp_Ok. by eapply wp_setlock_wait. Qed.

End spec.

(** ** Byte ranges *)

(** The position a [struct flock] is relative to, and the bytes it names, in
    unbounded arithmetic; a last byte of [-1] stands for the end of any file. *)
Definition flock_base (fl : flock) (size : Z) : Z :=
  if l_whence fl =? SEEK_END then size + l_start fl else l_start fl.
Definition flock_lo (fl : flock) (size : Z) : Z :=
  flock_base fl size + Z.min 0 (l_len fl).
Definition flock_hi (fl : flock) (size : Z) : Z :=
  if l_len fl =? 0 then -1
  else if l_len fl <? 0 then flock_base fl size - 1 else flock_base fl size + l_len fl - 1.

Definition in_s64 (z : Z) : Prop := - 2 ^ 63 <= z < 2 ^ 63.

Lemma flock_range_end fl sz :
  l_whence fl = SEEK_END → in_s64 (l_start fl) → 0 <= sz <= OFF_MAX →
  (sz >? OFF_MAX) || ((l_start fl >? 0) && (sz >? u64 (OFF_MAX - l_start fl))) =
    (OFF_MAX <? flock_base fl sz) ∧
  (flock_base fl sz <= OFF_MAX → s64 (sz + l_start fl) = flock_base fl sz).
Proof.
  intros Hw Hs Hsz. unfold flock_base, in_s64, OFF_MAX in *. rewrite Hw. simpl.
  rewrite !Z.gtb_ltb. split.
  - rewrite (proj2 (Z.ltb_ge _ _)) by lia. simpl.
    destruct (Z.ltb_spec 0 (l_start fl)); simpl.
    + rewrite wrap_small by (unfold in_u; lia).
      destruct (Z.ltb_spec (0x7fffffffffffffff - l_start fl) sz), (Z.ltb_spec 0x7fffffffffffffff (sz + l_start fl)); (done || lia).
    + by rewrite (proj2 (Z.ltb_ge _ _)) by lia.
  - intros Hle. apply swrap_small; lia.
Qed.

Lemma flock_range_from fl sz base :
  base = flock_base fl sz → base <= OFF_MAX → in_s64 (l_len fl) →
  (if base <? 0 then inl EINVAL
   else if l_len fl <? 0 then
     if base =? 0 then inl EINVAL
     else let end_ := s64 (base - 1) in
          let start := s64 (base + l_len fl) in
          if start <? 0 then inl EINVAL else inr (start, end_)
   else if l_len fl =? 0 then inr (base, -1)
   else let oadd := s64 (l_len fl - 1) in
        if oadd >? s64 (OFF_MAX - base) then inl EOVERFLOW else inr (base, s64 (base + oadd))) =
  (if flock_lo fl sz <? 0 then inl EINVAL
   else if OFF_MAX <? flock_hi fl sz then inl EOVERFLOW
   else inr (flock_lo fl sz, flock_hi fl sz)).
Proof.
  intros Hb Hle Hl. unfold flock_lo, flock_hi. rewrite <- Hb. unfold in_s64, OFF_MAX in *. cbv zeta.
  destruct (Z.ltb_spec base 0).
  { by rewrite (proj2 (Z.ltb_lt _ _)) by lia. }
  destruct (Z.ltb_spec (l_len fl) 0) as [Hneg|Hpos].
  - rewrite (proj2 (Z.eqb_neq (l_len fl) 0)) by lia. rewrite Z.min_r by lia.
    destruct (Z.eqb_spec base 0) as [->|]; [by rewrite (proj2 (Z.ltb_lt _ _)) by lia |].
    rewrite !swrap_small by lia. destruct (Z.ltb_spec (base + l_len fl) 0); [done |].
    by rewrite (proj2 (Z.ltb_ge _ _)) by lia.
  - rewrite Z.min_l by lia. rewrite Z.add_0_r, (proj2 (Z.ltb_ge base 0)) by lia.
    destruct (Z.eqb_spec (l_len fl) 0); [done |].
    rewrite (swrap_small 64 (l_len fl - 1)), (swrap_small 64 (_ - base)) by lia. rewrite Z.gtb_ltb.
    replace (base + l_len fl - 1) with (base + (l_len fl - 1)) by lia.
    destruct (Z.ltb_spec (0x7fffffffffffffff - base) (l_len fl - 1)).
    + by rewrite (proj2 (Z.ltb_lt _ _)) by lia.
    + rewrite (proj2 (Z.ltb_ge _ _)) by lia. by rewrite swrap_small by lia.
Qed.

(** For every whence, offset, length and file size that fit their types,
    [lf_advlock] computes the range the request names, without any arithmetic
    wrapping: it succeeds exactly when the named bytes lie between 0 and
    OFF_MAX, answers EOVERFLOW when they reach beyond OFF_MAX and EINVAL when
    they start before 0. *)
Lemma flock_range_exact fl sz :
  (l_whence fl = SEEK_SET ∨ l_whence fl = SEEK_CUR ∨ l_whence fl = SEEK_END) →
  in_s64 (l_start fl) → in_s64 (l_len fl) → 0 <= sz <= OFF_MAX →
  flock_range fl (inr sz) =
    if OFF_MAX <? flock_base fl sz then inl EOVERFLOW
    else if flock_lo fl sz <? 0 then inl EINVAL
    else if OFF_MAX <? flock_hi fl sz then inl EOVERFLOW
    else inr (flock_lo fl sz, flock_hi fl sz).
Proof.
  intros Hw Hs Hl Hsz. unfold flock_range. cbv zeta.
  destruct Hw as [Hw|[Hw|Hw]]; rewrite Hw; simpl.
  1,2: assert (Hb : l_start fl = flock_base fl sz) by (unfold flock_base; by rewrite Hw);
    rewrite (proj2 (Z.ltb_ge OFF_MAX _)) by (rewrite <- Hb; unfold in_s64, OFF_MAX in *; lia);
    apply flock_range_from; [done | unfold in_s64, OFF_MAX in *; lia | done].
  destruct (flock_range_end fl sz Hw Hs Hsz) as [-> Hb].
  destruct (Z.ltb_spec OFF_MAX (flock_base fl sz)); [done |].
  apply flock_range_from; [by apply Hb | by rewrite Hb by lia | done].
Qed.

(** ** Deadlock detection *)

(** A thread asleep on a request that is queued on a POSIX lock of [own]. *)
Definition sleeps_behind (s : kst) (own : option proc) (ut : uthread) : Prop :=
  ∃ w n rw rn, uu_wchan ut = Some w ∧ uu_wmesg_lockstr ut = true ∧
    heap s !! w = Some rw ∧ lf_next rw = Some n ∧ heap s !! n = Some rn ∧
    tst (lf_flags rn) F_POSIX = true ∧ lf_owner rn = own.

(** The structures a sleeping thread points to exist. *)
Definition thread_ok (s : kst) (ut : uthread) : Prop :=
  ∀ w, uu_wchan ut = Some w → uu_wmesg_lockstr ut = true →
    ∃ rw, heap s !! w = Some rw ∧ ∀ n, lf_next rw = Some n → n ∈ dom (heap s).

(** What the answers mean; [b] is whether both locks are of POSIX. *)
Definition deadlock_means (env : environ) (s : kst) (own : option proc) (b : bool) (uts : list uthread) (d : deadlock_out) : Prop :=
  match d with
  | DLDeadlock => b = true ∧ Exists (sleeps_behind s own) uts
  | DLNone => b = false ∨ ¬ Exists (sleeps_behind s own) uts
  | DLPause => b = true ∧ ∃ x, try_lock env x = false
  end.

Lemma deadlock_scan_exact env s l vp uts :
  Forall (thread_ok s) uts →
  ∃ d, deadlock_scan env uts l vp s = Ok (d, s) ∧ deadlock_means env s (lf_owner l) true uts d.
Proof.
  intros Hok. induction Hok as [|ut uts Hut Hok (d & Hd & Hm)]; simpl.
  { exists DLNone. split; [done |]. right. by intros ?%Exists_nil. }
  assert (Hskip : ¬ sleeps_behind s (lf_owner l) ut →
    ∃ d, deadlock_scan env uts l vp s = Ok (d, s) ∧ deadlock_means env s (lf_owner l) true (ut :: uts) d).
  { intros Hno. exists d. split; [done |]. destruct d; cbn in *; rewrite ?Exists_cons; naive_solver. }
  destruct (uu_wchan ut) as [w|] eqn:Hw; [| apply Hskip; intros (? & ? & ? & ? & ? & _); congruence].
  destruct (uu_wmesg_lockstr ut) eqn:Hms; simpl;
    [| apply Hskip; intros (? & ? & ? & ? & ? & ? & _); congruence].
  destruct (Hut w Hw Hms) as (rw & Hrw & Hn). rewrite st_bind_unfold. unfold deref. rewrite Hrw.
  destruct (negb _ && negb (try_lock env (lf_vnode rw))) eqn:Ht.
  { exists DLPause. split; [done |]. split; [done |]. exists (lf_vnode rw). apply andb_true_iff in Ht as [_ Ht]. by apply negb_true_iff in Ht. }
  destruct (lf_next rw) as [n|] eqn:Hnx;
    [| apply Hskip; intros (? & ? & ? & ? & ? & ? & ? & ? & _); congruence].
  pose proof (Hn n eq_refl) as Hdom. apply elem_of_dom in Hdom as [rn Hrn]. rewrite st_bind_unfold, Hrn.
  destruct (tst (lf_flags rn) F_POSIX) eqn:Hp; simpl;
    [| apply Hskip; intros (? & ? & ? & ? & ? & ? & ? & ? & ? & ? & _); congruence].
  destruct (decide (lf_owner rn = lf_owner l)) as [Ho|Ho]; [rewrite bool_decide_true by done | rewrite bool_decide_false by done; apply Hskip; intros (? & ? & ? & ? & ? & ? & ? & ? & ? & ? & ?); congruence].
  exists DLDeadlock. split; [done |]. split; [done |]. rewrite Exists_cons. left. exists w, n, rw, rn. done.
Qed.

(** C33: what the deadlock check does before a request sleeps.  Unless both
    the request and the lock that blocks it are of POSIX it finds nothing.  When
    it reports a deadlock some thread of the owner of that lock sleeps on a
    request that is queued on a POSIX lock of the requester, so that there are no
    false alarms; when it finds nothing there is no such thread.  It only gives
    up for a pause when the lock of another vnode is taken.  The search goes no
    further than this one step: [deadlock_of_three_undetected] is a cycle of
    three processes, which the comment of the code says is looked for. *)
Theorem deadlock_check_exact env s lock l block b :
  heap s !! lock = Some l → heap s !! block = Some b →
  let posix := tst (lf_flags l) F_POSIX && tst (lf_flags b) F_POSIX in
  (posix = true → is_Some (lf_owner b)) →
  let uts := default [] (lf_owner b ≫= λ wproc, p_uthlist s !! wproc) in
  Forall (thread_ok s) uts →
  ∃ d, deadlock_check env lock block s = Ok (d, s) ∧ deadlock_means env s (lf_owner l) posix uts d.
Proof.
  intros Hl Hb posix Ho uts Hok. unfold deadlock_check.
  rewrite !st_bind_unfold. unfold deref. rewrite Hl, st_bind_unfold, Hb. fold posix. destruct posix.
  - destruct (Ho eq_refl) as [wproc Hw]. subst uts. rewrite Hw in *. cbn [mbind option_bind] in *. rewrite st_bind_unfold. unfold get. by apply deadlock_scan_exact.
  - exists DLNone. split; [done | by left].
Qed.

(** ** Concrete runs *)

Definition env0 : environ :=
  Environ (λ _, false) (λ _, false) (λ _, 0) (λ p, Zpos p) (λ _, false) (λ _, true).

Definition empty_kst : kst := Kst ∅ ∅ [] ∅ false.

(** One POSIX [fcntl] by process [id] on vnode 1. *)
Definition posix (id : positive) (op type start len wait : Z) : M setlock_out :=
  r ← lf_advlock env0 1%positive id op (Flock start len 0 type SEEK_SET) (Z.lor F_POSIX wait)
        (inr 0) id;
  mret r.1.

(** The bound [lf_end < OFF_MAX] the other results assume is needed.
    Process 7 locks the whole file exclusively and then makes bytes 1 to
    OFF_MAX shared; [lf_end + 1] overflows, the remainder of the old lock
    begins at the most negative offset, and process 8 is refused a shared lock
    on byte 4, which process 7 holds shared. *)
Lemma offmax_end_overflows :
  ∃ s1 s2 s3, posix 7 F_SETLK F_WRLCK 0 0 0 empty_kst = Ok (SLReturn 0, s1) ∧
    posix 7 F_SETLK F_RDLCK 1 OFF_MAX 0 s1 = Ok (SLReturn 0, s2) ∧
    (∃ p r, heap s2 !! p = Some r ∧ lf_type r = F_WRLCK ∧ lf_start r = - 2 ^ 63 ∧ lf_end r = -1) ∧
    posix 8 F_SETLK F_RDLCK 4 1 0 s2 = Ok (SLReturn EAGAIN, s3).
Proof.
  eexists _, _, _. split; [vm_compute; reflexivity |]. split; [vm_compute; reflexivity |].
  split; [| vm_compute; reflexivity].
  exists 3%positive. eexists. split; [vm_compute; reflexivity |]. vm_compute. done.
Qed.

(** What [msleep] records of the thread of [id] that sleeps on [w]. *)
Definition asleep (id : proc) (w : ptr) : M () := λ s,
  Ok ((), Kst (heap s) (v_lockf s) (events s) (<[id := [Uthread (Some w) true]]> (p_uthlist s)) (nomem s)).

(** Processes 7, 8 and 9 lock one byte each; 7 waits for 8, 8 for 9, 9 for 7. *)
Definition ring3 : M (list setlock_out) :=
  posix 7 F_SETLK F_WRLCK 0 1 0 ;; posix 8 F_SETLK F_WRLCK 1 1 0 ;;
  posix 9 F_SETLK F_WRLCK 2 1 0 ;;
  a ← posix 7 F_SETLK F_WRLCK 1 1 F_WAIT; asleep 7 4%positive ;;
  b ← posix 8 F_SETLK F_WRLCK 2 1 F_WAIT; asleep 8 5%positive ;;
  c ← posix 9 F_SETLK F_WRLCK 0 1 F_WAIT; mret [a; b; c].

Definition owner_of (s : kst) (p : ptr) : option proc := heap s !! p ≫= lf_owner.

(** Longer cycles are not found: with three processes each waiting for the
    next, the last request is put to sleep and all three sleep behind one
    another, although the comment says that any cycle involving the requester
    is looked for. *)
Lemma deadlock_of_three_undetected :
  ∃ s, ring3 empty_kst = Ok ([SLSleep; SLSleep; SLSleep], s) ∧
    waiting s 4 2 ∧ waiting s 5 3 ∧ waiting s 6 1 ∧
    owner_of s <$> [4; 2; 5; 3; 6; 1]%positive =
      [Some 7; Some 8; Some 8; Some 9; Some 9; Some 7]%positive.
Proof.
  eexists. split; [vm_compute; reflexivity |].
  split_and!; [.. | vm_compute; reflexivity];
    (eexists _, _; split_and!; [vm_compute; reflexivity.. | by apply (bool_decide_unpack _); vm_compute]).
Qed.

(** ** The results apply: a vnode with one lock *)

(** Process 7 holds bytes 0 to 9 of vnode 1 exclusively; [req] is a second
    structure, the request. *)
Definition held : lockf := Lockf F_POSIX F_WRLCK false 0 9 7 1 1 None [] (Some 7%positive).
Definition one_lock (req : lockf) : kst :=
  Kst {[ 1%positive := held; 2%positive := req ]} {[ 1%positive := 1%positive ]} [] ∅ false.

Section one_lock.
Context (req : lockf) (Hq : lf_blkhd req = []).

Lemma one_lock_no_queue p r : heap (one_lock req) !! p = Some r → lf_blkhd r = [].
Proof.
  simpl. intros [[_ <-]|[_ [_ <-]%lookup_singleton_Some]]%lookup_insert_Some; done.
Qed.

Lemma one_lock_unblocked x : ¬ blocked (heap (one_lock req)) x.
Proof. intros (p & r & Hp & Hx). rewrite (one_lock_no_queue p r Hp) in Hx. set_solver. Qed.

Lemma one_lock_vlocks : vlocks 1 (one_lock req) [(1%positive, held)].
Proof.
  split.
  - split; [done |]. exists held. done.
  - apply NoDup_singleton.
  - intros x _. apply one_lock_unblocked.
  - intros p r Hp. rewrite (one_lock_no_queue p r Hp). split; [constructor | set_solver].
  - split; [by repeat constructor | by repeat constructor |].
    intros j. destruct (decide (j = 7%positive)) as [->|].
    + apply grp_run, run_cons; [done | constructor | by apply run_end].
    + apply grp_run, run_end. repeat constructor. simpl. congruence.
Qed.

Lemma one_lock_solo : solo (one_lock req) 2 req.
Proof. split; [done | apply one_lock_unblocked]. Qed.

Lemma one_lock_request :
  lf_head req = 1%positive → wf_lk req → request 1 (one_lock req) [(1%positive, held)] 2 req.
Proof. intros Hh Hw. split; [apply one_lock_solo | set_solver | done | done | done]. Qed.

End one_lock.

Definition ask (id : positive) (flags type start end_ : Z) : lockf :=
  Lockf flags type false start end_ id 1 1 None [] (Some id).

Ltac wf := unfold wf_lk, OFF_MAX; simpl; lia.

Lemma lf_setlock_grant_witness :
  ∃ e s', lf_setlock_grant 2 (one_lock (ask 7 F_POSIX F_RDLCK 3 5)) = Ok (e, s') ∧ e = 0.
Proof.
  destruct (lf_setlock_grant_correct 1 (one_lock (ask 7 F_POSIX F_RDLCK 3 5)) [(1%positive, held)] 2
    (ask 7 F_POSIX F_RDLCK 3 5)) as (e & s' & E & _ & H).
  - by apply one_lock_vlocks.
  - apply one_lock_request; [done | done | wf].
  - exists e, s'. split; [exact E |]. destruct H as [[-> _]|(_ & [=] & _)]. done.
Defined.

Lemma lf_clearlock_witness :
  ∃ e s', lf_clearlock 2 (one_lock (ask 7 F_POSIX F_UNLCK 3 (-1))) = Ok (e, s') ∧ e = 0.
Proof.
  destruct (lf_clearlock_correct 1 (one_lock (ask 7 F_POSIX F_UNLCK 3 (-1))) [(1%positive, held)] 2
    (ask 7 F_POSIX F_UNLCK 3 (-1))) as (e & s' & E & _ & L' & _ & H).
  - by apply one_lock_vlocks.
  - by apply one_lock_solo.
  - set_solver.
  - done.
  - wf.
  - exists e, s'. split; [exact E |]. destruct H as [[-> _]|(_ & [=] & _)]. done.
Defined.

Lemma lf_getblock_witness :
  lf_getblock env0 2 (-1) (one_lock (ask 8 F_POSIX F_RDLCK 9 (-1))) =
  Ok (Some 1%positive, one_lock (ask 8 F_POSIX F_RDLCK 9 (-1))).
Proof.
  apply (lf_getblock_exact env0 1 (one_lock (ask 8 F_POSIX F_RDLCK 9 (-1))) [(1%positive, held)] 2
    (ask 8 F_POSIX F_RDLCK 9 (-1)) (-1)).
  - by apply one_lock_vlocks.
  - done.
  - done.
  - wf.
Defined.

Lemma lf_setlock_exclusion_witness :
  ∃ out s', lf_setlock env0 2 (one_lock (ask 8 F_POSIX F_WRLCK 9 20)) = Ok (out, s') ∧
    out = SLReturn EAGAIN.
Proof.
  destruct (lf_setlock_exclusion env0 1 (one_lock (ask 8 F_POSIX F_WRLCK 9 20)) [(1%positive, held)] 2
    (ask 8 F_POSIX F_WRLCK 9 20)) as (out & s' & E & _ & L' & _ & _ & H).
  - by apply one_lock_vlocks.
  - apply one_lock_request; [done | done | wf].
  - done.
  - done.
  - intros i j b t t' Hij (c & Hc & <- & _) (d & Hd & <- & _). simpl in Hc, Hd. set_solver.
  - exists out, s'. split; [exact E |].
    destruct H as [(_ & [=] & _)|[(-> & _)|(_ & [=] & _)]]. done.
Defined.

Lemma lf_setlock_queues_witness :
  ∃ out s', lf_setlock env0 2 (one_lock (ask 8 (Z.lor F_POSIX F_WAIT) F_WRLCK 9 20)) = Ok (out, s') ∧ out = SLSleep.
Proof.
  destruct (lf_setlock_queues env0 1 (one_lock (ask 8 (Z.lor F_POSIX F_WAIT) F_WRLCK 9 20))
    [(1%positive, held)] 2 (ask 8 (Z.lor F_POSIX F_WAIT) F_WRLCK 9 20) 1 DLNone) as (out & s' & E & Ho & _).
  - by apply one_lock_vlocks.
  - apply one_lock_request; [done | done | wf].
  - done.
  - done.
  - done.
  - done.
  - exists out, s'. split; [exact E | exact Ho].
Defined.

Lemma flock_range_witness :
  flock_range (Flock (-3) (-4) 0 F_RDLCK SEEK_END) (inr 100) = inr (93, 96).
Proof.
  rewrite (flock_range_exact (Flock (-3) (-4) 0 F_RDLCK SEEK_END) 100).
  - reflexivity.
  - by right; right.
  - unfold in_s64. simpl. lia.
  - unfold in_s64. simpl. lia.
  - unfold OFF_MAX. lia.
Defined.

(** Process 8 asks for a byte of 7 while a thread of 7 waits for 8. *)
Definition cycle2 : kst :=
  Kst {[ 1%positive := held; 2%positive := ask 8 F_POSIX F_WRLCK 9 20;
         3%positive := ask 8 F_POSIX F_WRLCK 30 40;
         4%positive := set_next (Some 3%positive) (ask 7 F_POSIX F_WRLCK 30 30) ]}
    {[ 1%positive := 1%positive ]} [] {[ 7%positive := [Uthread (Some 4%positive) true] ]} false.

Lemma deadlock_check_witness : deadlock_check env0 2 1 cycle2 = Ok (DLDeadlock, cycle2).
Proof.
  destruct (deadlock_check_exact env0 cycle2 2 (ask 8 F_POSIX F_WRLCK 9 20) 1 held) as (d & E & Hm).
  - reflexivity.
  - reflexivity.
  - intros _. by exists 7%positive.
  - constructor; [| constructor]. intros w [= <-] _.
    eexists. split; [vm_compute; reflexivity |]. intros n [= <-]. apply elem_of_dom. by eexists.
  - rewrite E. destruct d; [| done |].
    + destruct Hm as [[=]|Hn]. destruct Hn. apply Exists_cons. left. exists 4%positive, 3%positive. eexists _, _. split_and!; [reflexivity.. |]. vm_compute. reflexivity.
    + by destruct Hm as (_ & x & [=]).
Defined.
