(* ===== verification/CStr.v ===== *)
(** * C strings: the kernel's string routines

    [osfmk/device/subrs.c] and [strlen] of [osfmk/x86_64/loose_ends.c].  A
    [const char *] is the list of the characters from the pointer to the end
    of the object it points into, so that reading past the object faults.  A
    [char] is signed, as on all of Darwin's targets: its value is in
    [-128, 127].  A destination buffer is the list of its characters; a store
    outside it faults. *)

From S2P Require Import Prelude.

(** A string literal is its characters and the terminating NUL. *)
Definition chars (s : string) : list Z :=
  (λ a, swrap 8 (Z.of_N (Ascii.N_of_ascii a))) <$> String.list_ascii_of_string s.
Definition lit (s : string) : list Z := chars s ++ [0].

(** [p] points to the C string [s]: its characters, a NUL, and whatever else
    the object holds. *)
Definition cstring (p s : list Z) : Prop := ∃ t, p = s ++ 0 :: t ∧ 0 ∉ s.

Definition is_char (c : Z) : Prop := -128 <= c < 128.
#[export] Instance is_char_dec c : Decision (is_char c) :=
  and_dec (Z.le_dec (-128) c) (Z.lt_dec c 128).

(** ** The routines *)

Fixpoint strlen (string : list Z) : res Z :=
  match string with
  | [] => Fault
  | c :: rest => if c =? 0 then Ok 0 else n ← strlen rest; Ok (1 + n)
  end.

(** [*s1] and [*s2] are sign extended and then read as [unsigned int]. *)
Fixpoint strcmp (s1 s2 : list Z) : res Z :=
  match s1, s2 with
  | c1 :: s1, c2 :: s2 =>
      let a := u32 c1 in
      let b := u32 c2 in
      if negb (a =? b) then Ok (s32 (a - b))
      else if negb (a =? 0) then strcmp s1 s2
      else Ok 0
  | _, _ => Fault
  end.

Fixpoint strncmp (s1 s2 : list Z) (n : Z) : res Z :=
  if n =? 0 then Ok 0 else
  match s1, s2 with
  | c1 :: s1, c2 :: s2 =>
      let a := u32 c1 in
      let b := u32 c2 in
      if negb (a =? b) then Ok (s32 (a - b))
      else if a =? 0 then Ok 0
      else strncmp s1 s2 (n - 1)
  | _, _ => Fault
  end.

(** The argument is an [unsigned char]: 65 is ['A'], 90 ['Z'], 97 ['a']. *)
Definition tolower (ch : Z) : Z :=
  let ch := u8 ch in
  if (65 <=? ch) && (ch <=? 90) then u8 (97 + (ch - 65)) else ch.

Fixpoint strcasecmp (us1 us2 : list Z) : res Z :=
  match us1, us2 with
  | c1 :: us1, c2 :: us2 =>
      if tolower c1 =? tolower c2
      then if c1 =? 0 then Ok 0 else strcasecmp us1 us2
      else Ok (tolower c1 - tolower c2)
  | _, _ => Fault
  end.

Fixpoint strncasecmp_loop (us1 us2 : list Z) (n : Z) : res Z :=
  match us1, us2 with
  | c1 :: us1, c2 :: us2 =>
      if negb (tolower c1 =? tolower c2) then Ok (tolower c1 - tolower c2)
      else if c1 =? 0 then Ok 0
      else if negb (n - 1 =? 0) then strncasecmp_loop us1 us2 (n - 1)
      else Ok 0
  | _, _ => Fault
  end.

Definition strncasecmp (s1 s2 : list Z) (n : Z) : res Z :=
  if negb (n =? 0) then strncasecmp_loop s1 s2 n else Ok 0.

(** The pointers that [strchr] and [strrchr] return are given as offsets
    from [s]; [None] is [NULL]. *)
Fixpoint strchr_loop (s : list Z) (c off : Z) : res (option Z) :=
  match s with
  | [] => Fault
  | x :: s =>
      if x =? c then Ok (Some off)
      else if negb (x =? 0) then strchr_loop s c (off + 1)
      else Ok None
  end.

Definition strchr (s : option (list Z)) (c : Z) : res (option Z) :=
  match s with None => Ok None | Some s => strchr_loop s c 0 end.

Fixpoint strrchr_loop (s : list Z) (c off : Z) (found : option Z) : res (option Z) :=
  match s with
  | [] => Fault
  | x :: s =>
      let found := if x =? c then Some off else found in
      if negb (x =? 0) then strrchr_loop s c (off + 1) found else Ok found
  end.

Definition strrchr (s : option (list Z)) (c : Z) : res (option Z) :=
  match s with None => Ok None | Some s => strrchr_loop s c 0 None end.

(** [strncpy]: [d] is the offset of [s1] in the destination. *)
Fixpoint strncpy_fill (count : nat) (dst : list Z) (d : Z) : res (list Z) :=
  match count with
  | O => Ok dst
  | S count => dst ← wr dst d 0; strncpy_fill count dst (d + 1)
  end.

Fixpoint strncpy_loop (dst : list Z) (d : Z) (s2 : list Z) (i n : Z) : res (list Z) :=
  if i <? n then
    match s2 with
    | [] => Fault
    | c :: s2 =>
        dst ← wr dst d c;
        if c =? 0 then strncpy_fill (Z.to_nat (n - (i + 1))) dst (d + 1)
        else strncpy_loop dst (d + 1) s2 (i + 1) n
    end
  else Ok dst.

Definition strncpy (s1 s2 : list Z) (n : Z) : res (list Z) :=
  strncpy_loop s1 0 s2 0 n.

Fixpoint atoi_loop (cp : list Z) (number : Z) : res Z :=
  match cp with
  | [] => Fault
  | c :: cp =>
      if (48 <=? c) && (c <=? 57)
      then atoi_loop cp (s32 (s32 (number * 10) + (c - 48)))
      else Ok number
  end.

Definition atoi (cp : list Z) : res Z := atoi_loop cp 0.

(** [max] bounds the scan: [p != es] is tested after [*p] is read. *)
Fixpoint strnlen (s : list Z) (max : Z) : res Z :=
  match s with
  | [] => Fault
  | c :: s =>
      if negb (c =? 0) && negb (max =? 0)
      then n ← strnlen s (max - 1); Ok (1 + n)
      else Ok 0
  end.

(** The digits of [num], least significant first, in a buffer of 11; [/] and
    [%] of C round towards zero. *)
Fixpoint itoa_digits (room : nat) (num : Z) : res (list Z) :=
  if num =? 0 then Ok [] else
  match room with
  | O => Fault
  | S room =>
      ds ← itoa_digits room (Z.quot num 10);
      Ok (swrap 8 (48 + Z.rem num 10) :: ds)
  end.

(** Stores at [d] and after it. *)
Fixpoint store (dst : list Z) (d : Z) (cs : list Z) : res (list Z) :=
  match cs with
  | [] => Ok dst
  | c :: cs => dst ← wr dst d c; store dst (d + 1) cs
  end.

Definition itoa (num : Z) (str : list Z) : res (list Z) :=
  ds ← (if num =? 0 then Ok [48] else ds ← itoa_digits 11 num; Ok (rev ds));
  str ← store str 0 ds;
  wr str (Z.of_nat (length ds)) 0.

(** [strlcat]: the end of the string in [dst], found within [n] characters. *)
Fixpoint strlcat_end (d : list Z) (n : Z) : res Z :=
  if n =? 0 then Ok 0 else
  match d with
  | [] => Fault
  | c :: d => if negb (c =? 0) then k ← strlcat_end d (n - 1); Ok (1 + k) else Ok 0
  end.

(** The copy loop returns the buffer, the offset of [d] and the number of
    characters of [s] before its NUL. *)
Fixpoint strlcat_copy (dst : list Z) (d : Z) (s : list Z) (n : Z) : res (list Z * Z * Z) :=
  match s with
  | [] => Fault
  | c :: s =>
      if negb (c =? 0) then
        '(dst, d, n) ← (if negb (n =? 1)
                        then dst ← wr dst d c; Ok (dst, d + 1, n - 1)
                        else Ok (dst, d, n));
        '(dst, d, k) ← strlcat_copy dst d s n;
        Ok (dst, d, 1 + k)
      else Ok (dst, d, 0)
  end.

Definition strlcat (dst src : list Z) (siz : Z) : res (list Z * Z) :=
  dlen ← strlcat_end dst siz;
  let n := siz - dlen in
  if n =? 0 then k ← strlen src; Ok (dst, dlen + k)
  else
    '(dst, d, k) ← strlcat_copy dst dlen src n;
    dst ← wr dst d 0;
    Ok (dst, dlen + k).

(** [strlcpy]: the [do] loop, entered with [n <> 0]; it returns the buffer,
    the offset of [d], the rest of [s] and [n]. *)
Fixpoint strlcpy_copy (dst : list Z) (d : Z) (s : list Z) (n : Z) :
    res (list Z * Z * list Z * Z) :=
  match s with
  | [] => Fault
  | c :: s =>
      dst ← wr dst d c;
      if c =? 0 then Ok (dst, d + 1, s, n)
      else if negb (n - 1 =? 0) then strlcpy_copy dst (d + 1) s (n - 1)
      else Ok (dst, d + 1, s, 0)
  end.

(** [while ( *s++ ) ;] *)
Fixpoint skip_string (s : list Z) : res (list Z) :=
  match s with
  | [] => Fault
  | c :: s => if negb (c =? 0) then skip_string s else Ok s
  end.

Definition strlcpy (dst src : list Z) (siz : Z) : res (list Z * Z) :=
  '(dst, d, s, n) ←
    (if negb (siz =? 0)
     then if negb (siz - 1 =? 0) then strlcpy_copy dst 0 src (siz - 1)
          else Ok (dst, 0, src, 0)
     else Ok (dst, 0, src, 0));
  '(dst, s) ←
    (if n =? 0 then
       dst ← (if negb (siz =? 0) then wr dst d 0 else Ok dst);
       s ← skip_string s;
       Ok (dst, s)
     else Ok (dst, s));
  Ok (dst, Z.of_nat (length src) - Z.of_nat (length s) - 1).

Fixpoint strprefix (s1 s2 : list Z) : res bool :=
  match s2 with
  | [] => Fault
  | c :: s2 =>
      if negb (c =? 0) then
        match s1 with
        | [] => Fault
        | x :: s1 => if negb (c =? x) then Ok false else strprefix s1 s2
        end
      else Ok true
  end.

(** [strnstr] after its first character [c] has been taken off [find]; [off]
    is the offset of [s] from the start of the string searched. *)
Fixpoint strnstr_loop (s find : list Z) (c len slen off : Z) : res (option Z) :=
  match s with
  | [] => Fault
  | sc :: s =>
      if (sc =? 0) || (slen <? 1) then Ok None
      else
        let slen := slen - 1 in
        if negb (sc =? c) then strnstr_loop s find c len slen (off + 1)
        else if len >? slen then Ok None
        else
          r ← strncmp s find len;
          if negb (r =? 0) then strnstr_loop s find c len slen (off + 1)
          else Ok (Some off)
  end.

Definition strnstr (s find : list Z) (slen : Z) : res (option Z) :=
  match find with
  | [] => Fault
  | c :: find =>
      if negb (c =? 0) then
        len ← strlen find;
        strnstr_loop s find c len slen 0
      else Ok (Some 0)
  end.
