(* ===== verification/CStrSpec.v ===== *)
(** * What the string routines compute

    [strlcpy] and [strlcat] are truncating copy and concatenation that always
    leave a terminated string; [strcmp] is a lexicographic order; [strnstr]
    finds the first occurrence; [atoi] undoes [itoa] on the non-negative
    integers.  The cases in which the code departs from its comments are
    theorems too. *)

From S2P Require Import Prelude CStr.

(** ** Buffers *)

(** The buffer [dst] after the C string [s] has been stored at its start. *)
Definition stored (dst s : list Z) : list Z := s ++ 0 :: drop (S (length s)) dst.

Lemma wr_mid {A} (pre post : list A) x v :
  wr (pre ++ x :: post) (Z.of_nat (length pre)) v = Ok (pre ++ v :: post).
Proof.
  unfold wr. rewrite length_app, Nat2Z.id. simpl.
  rewrite (proj2 (Z.leb_le 0 _)), (proj2 (Z.ltb_lt _ _)) by lia. simpl.
  by rewrite insert_app_r_alt, Nat.sub_diag by lia.
Qed.

(** [wr_mid] with the offset given by an equation. *)
Lemma wr_at {A} (pre post : list A) x v d :
  d = Z.of_nat (length pre) → wr (pre ++ x :: post) d v = Ok (pre ++ v :: post).
Proof. intros ->. apply wr_mid. Qed.

Lemma wr_inside {A} (l : list A) d v :
  0 <= d < Z.of_nat (length l) →
  wr l d v = Ok (take (Z.to_nat d) l ++ v :: drop (S (Z.to_nat d)) l).
Proof.
  intros Hd. unfold wr. rewrite (proj2 (Z.leb_le 0 d)), (proj2 (Z.ltb_lt _ _)) by lia. simpl.
  by rewrite insert_take_drop by lia.
Qed.

Lemma store_spec cs : ∀ (pre post : list Z) d,
  d = Z.of_nat (length pre) → (length cs ≤ length post)%nat →
  store (pre ++ post) d cs = Ok (pre ++ cs ++ drop (length cs) post).
Proof.
  induction cs as [|c cs IH]; intros pre post d -> Hlen; simpl in *; [done |].
  destruct post as [|x post]; simpl in *; [lia |].
  rewrite wr_mid. simpl. rewrite cons_middle, app_assoc.
  rewrite (IH (pre ++ [c])) by (rewrite ?length_app; simpl; lia).
  by rewrite <- app_assoc.
Qed.

(** ** [strlen], [strlcpy], [strlcat] *)

Lemma cstring_nil t : cstring (0 :: t) [].
Proof. exists t. split; [done | set_solver]. Qed.

Lemma cstring_cons p c s : cstring (c :: p) (c :: s) ↔ c ≠ 0 ∧ cstring p s.
Proof.
  unfold cstring. split.
  - intros (t & Ht & Hn). simplify_eq/=. set_solver.
  - intros (Hc & t & -> & Hn). exists t. set_solver.
Qed.

(** The two ways to open a C string. *)
Lemma cstring_inv p s :
  cstring p s →
  match s with
  | [] => ∃ t, p = 0 :: t
  | c :: s' => ∃ p', p = c :: p' ∧ c ≠ 0 ∧ cstring p' s'
  end.
Proof.
  intros (t & -> & Hn). destruct s as [|c s]; [eauto |].
  exists (s ++ 0 :: t). split; [done |]. split; [set_solver |].
  exists t. set_solver.
Qed.

Lemma strlen_spec p s : cstring p s → strlen p = Ok (Z.of_nat (length s)).
Proof.
  revert p. induction s as [|c s IH]; intros p Hp%cstring_inv.
  - by destruct Hp as [t ->].
  - destruct Hp as (p' & -> & Hc & Hp). simpl.
    rewrite (proj2 (Z.eqb_neq c 0)), (IH p') by done. simpl. f_equal. lia.
Qed.

Lemma skip_string_spec p s :
  cstring p s → ∃ t, p = s ++ 0 :: t ∧ skip_string p = Ok t.
Proof.
  revert p. induction s as [|c s IH]; intros p Hp%cstring_inv.
  - destruct Hp as [t ->]. eauto.
  - destruct Hp as (p' & -> & Hc & Hp). destruct (IH p' Hp) as (t & -> & Ht).
    exists t. simpl. by rewrite (proj2 (Z.eqb_neq c 0)).
Qed.

(** The copy loop stops at the NUL of [s] when it is within [n] characters,
    and after [n] characters otherwise. *)
Lemma strlcpy_copy_spec s : ∀ p pre post d n,
  cstring p s → d = Z.of_nat (length pre) → 0 < n <= Z.of_nat (length post) →
  strlcpy_copy (pre ++ post) d p n =
  Ok (if Z.of_nat (length s) <? n
      then (pre ++ stored post s, d + Z.of_nat (length s) + 1,
            drop (S (length s)) p, n - Z.of_nat (length s))
      else (pre ++ take (Z.to_nat n) s ++ drop (Z.to_nat n) post, d + n,
            drop (Z.to_nat n) p, 0)).
Proof.
  induction s as [|c s IH]; intros p pre post d n Hp%cstring_inv -> Hn;
    (destruct post as [|x post]; [simpl in Hn; lia |]).
  - destruct Hp as [t ->]. cbn [strlcpy_copy]. rewrite wr_mid.
    cbn [mbind res_bind length].
    rewrite (proj2 (Z.ltb_lt _ n)) by lia. unfold stored. simpl.
    by rewrite Z.add_0_r, Z.sub_0_r, !drop_0.
  - destruct Hp as (p' & -> & Hc & Hp). cbn [strlcpy_copy]. rewrite wr_mid. cbn [mbind res_bind].
    rewrite (proj2 (Z.eqb_neq c 0)) by done.
    destruct (Z.eqb_spec (n - 1) 0) as [Hn1|Hn1]; simpl.
    + replace n with 1 by lia. simpl.
      by rewrite (proj2 (Z.ltb_ge _ 1)), ?drop_0, ?take_0 by lia.
    + rewrite cons_middle, app_assoc.
      rewrite (IH p' (pre ++ [c]) post); [| done | rewrite length_app; simpl; lia | simpl in Hn; lia].
      replace (Z.to_nat n) with (S (Z.to_nat (n - 1))) by lia. simpl.
      rewrite <- !app_assoc. simpl.
      destruct (Z.ltb_spec (Z.of_nat (length s)) (n - 1)), (Z.ltb_spec (Z.of_nat (S (length s))) n);
        try lia; repeat first [done | lia | f_equal].
Qed.

Lemma cstring_drop p s n : cstring p s → (n ≤ length s)%nat → cstring (drop n p) (drop n s).
Proof.
  intros (t & -> & Hn) Hlen. exists t. split; [by rewrite drop_app_le |].
  intros H. apply Hn. rewrite <- (take_drop n s). set_solver.
Qed.

Lemma cstring_length p s : cstring p s → (length s < length p)%nat.
Proof. intros (t & -> & _). rewrite length_app. simpl. lia. Qed.

(** Splitting a buffer at a position inside it. *)
Lemma drop_cons_S {A} (l : list A) n :
  (n < length l)%nat → ∃ x, drop n l = x :: drop (S n) l.
Proof.
  intros H. destruct (lookup_lt_is_Some_2 l n H) as [x Hx]. exists x.
  by apply drop_S.
Qed.

Lemma strlcpy_spec dst src s siz :
  cstring src s → 0 <= siz <= Z.of_nat (length dst) →
  strlcpy dst src siz =
  Ok (if siz =? 0 then dst else stored dst (take (Z.to_nat (siz - 1)) s),
      Z.of_nat (length s)).
Proof.
  intros Hs Hsiz. unfold strlcpy.
  destruct (Z.eqb_spec siz 0) as [->|H0]; simpl.
  { destruct (skip_string_spec src s Hs) as (t & -> & ->). simpl.
    rewrite length_app. simpl. repeat f_equal; lia. }
  destruct (Z.eqb_spec (siz - 1) 0) as [H1|H1]; simpl.
  { destruct dst as [|x dst]; simpl in Hsiz; [lia |].
    destruct (skip_string_spec src s Hs) as (t & -> & ->). simpl.
    rewrite H1, length_app. simpl. unfold stored. simpl.
    rewrite drop_0. repeat f_equal; lia. }
  rewrite (strlcpy_copy_spec s src [] dst) by (done || lia). simpl.
  destruct (Z.ltb_spec (Z.of_nat (length s)) (siz - 1)) as [Hlt|Hge]; simpl.
  - rewrite (proj2 (Z.eqb_neq _ 0)) by lia. simpl.
    rewrite take_ge, length_drop by lia.
    apply cstring_length in Hs. repeat first [done | lia | f_equal].
  - destruct (drop_cons_S dst (Z.to_nat (siz - 1))) as [x Hx]; [lia |].
    rewrite Hx, (wr_at (take _ s)) by (rewrite length_take; lia). simpl.
    destruct (skip_string_spec _ _ (cstring_drop src s (Z.to_nat (siz - 1)) Hs ltac:(lia)))
      as (t & Ht & ->). simpl.
    assert (Hl := f_equal length Ht). rewrite length_app, !length_drop in Hl. simpl in Hl.
    unfold stored. rewrite length_take, Nat.min_l by lia.
    repeat first [done | lia | f_equal].
Qed.

(** C31: [strlcpy] stores the first [siz - 1] characters of the source and a
    NUL at the start of a destination of at least [siz] bytes, leaves every
    byte after the NUL alone, stores nothing when [siz] is 0, and returns the
    length of the source. *)
Theorem strlcpy_correct dst src s siz :
  cstring src s → 0 <= siz <= Z.of_nat (length dst) →
  strlcpy dst src siz =
  Ok (if siz =? 0 then dst else stored dst (take (Z.to_nat (siz - 1)) s),
      Z.of_nat (length s)).
Proof. apply strlcpy_spec. Qed.

(** ** [strlcat] *)

Lemma strlcat_end_spec p s n :
  cstring p s → 0 <= n <= Z.of_nat (length p) →
  strlcat_end p n = Ok (Z.min n (Z.of_nat (length s))).
Proof.
  revert p n. induction s as [|c s IH]; intros p n Hp%cstring_inv Hn.
  - destruct Hp as [t ->]. simpl. destruct (Z.eqb_spec n 0); f_equal; lia.
  - destruct Hp as (p' & -> & Hc & Hp). simpl.
    destruct (Z.eqb_spec n 0); [f_equal; lia |].
    rewrite (proj2 (Z.eqb_neq c 0)), (IH p') by (done || simpl in Hn; lia).
    simpl. f_equal. lia.
Qed.

Lemma strlcat_copy_spec s : ∀ p pre post d n,
  cstring p s → d = Z.of_nat (length pre) → 1 <= n <= Z.of_nat (length post) →
  let k := Z.to_nat (n - 1) in
  strlcat_copy (pre ++ post) d p n =
  Ok (pre ++ take k s ++ drop (length (take k s)) post,
      d + Z.of_nat (length (take k s)), Z.of_nat (length s)).
Proof.
  induction s as [|c s IH]; intros p pre post d n Hp%cstring_inv -> Hn k.
  - destruct Hp as [t ->]. subst k. simpl. rewrite take_nil. simpl.
    rewrite drop_0. repeat first [done | lia | f_equal].
  - destruct Hp as (p' & -> & Hc & Hp). cbn [strlcat_copy].
    rewrite (proj2 (Z.eqb_neq c 0)) by done. simpl negb. cbv iota.
    destruct (Z.eqb_spec n 1) as [->|Hn1]; simpl negb; cbv iota; cbn [mbind res_bind].
    + rewrite (IH p' pre post) by (done || lia). subst k. simpl.
      repeat first [done | lia | f_equal].
    + destruct post as [|x post]; [simpl in Hn; lia |].
      rewrite wr_mid. cbn [mbind res_bind]. rewrite cons_middle, app_assoc.
      rewrite (IH p' (pre ++ [c]) post); [| done | rewrite length_app; simpl; lia | simpl in Hn; lia].
      subst k. replace (Z.to_nat (n - 1)) with (S (Z.to_nat (n - 1 - 1))) by lia. simpl.
      rewrite <- app_assoc. simpl. repeat first [done | lia | f_equal].
Qed.

Lemma strlcat_spec dst d src s siz :
  cstring dst d → cstring src s → 0 <= siz <= Z.of_nat (length dst) →
  strlcat dst src siz =
  Ok (if siz <=? Z.of_nat (length d) then dst
      else stored dst (d ++ take (Z.to_nat (siz - 1) - length d) s),
      Z.min siz (Z.of_nat (length d)) + Z.of_nat (length s)).
Proof.
  intros Hd Hs Hsiz. unfold strlcat. rewrite (strlcat_end_spec dst d) by done. simpl.
  destruct (Z.leb_spec siz (Z.of_nat (length d))) as [Hle|Hgt].
  - rewrite Z.min_l, Z.sub_diag by done. simpl. by rewrite (strlen_spec src s).
  - rewrite Z.min_r by lia. rewrite (proj2 (Z.eqb_neq _ 0)) by lia.
    pose proof Hd as (t & -> & _). rewrite length_app in Hsiz. simpl in Hsiz.
    rewrite (strlcat_copy_spec s src d (0 :: t)) by (done || simpl; lia). simpl mbind.
    set (k := Z.to_nat (siz - Z.of_nat (length d) - 1)).
    replace (Z.to_nat (siz - 1) - length d)%nat with k by lia.
    assert (Hk : (length (take k s) < S (length t))%nat) by (rewrite length_take; lia).
    destruct (drop_cons_S (0 :: t) _ Hk) as [x Hx]. rewrite Hx, app_assoc.
    rewrite wr_at by (rewrite length_app; lia). simpl. unfold stored.
    rewrite length_app, <- app_assoc. rewrite drop_app_ge by lia.
    replace (S (length d + length (take k s)) - length d)%nat
      with (S (length (take k s))) by lia.
    by rewrite <- app_assoc.
Qed.

(** [strlcat] appends to the string in a destination of at least [siz]
    bytes as much of the source as leaves room for the NUL within [siz], does
    nothing when the string already fills [siz] bytes, and returns the sum of
    the source's length and of the old length, the latter cut at [siz]. *)
Lemma strlcat_correct dst d src s siz :
  cstring dst d → cstring src s → 0 <= siz <= Z.of_nat (length dst) →
  strlcat dst src siz =
  Ok (if siz <=? Z.of_nat (length d) then dst
      else stored dst (d ++ take (Z.to_nat (siz - 1) - length d) s),
      Z.min siz (Z.of_nat (length d)) + Z.of_nat (length s)).
Proof. apply strlcat_spec. Qed.

(** ** [strcmp] *)

(** Two characters differ as [unsigned int]s when they differ, and the
    difference is the one of the signed characters. *)
Lemma char_eqb c1 c2 : is_char c1 → is_char c2 → (u32 c1 =? u32 c2) = (c1 =? c2).
Proof.
  unfold is_char, wrap. intros H1 H2. change (2 ^ 32) with 4294967296.
  destruct (Z.eqb_spec c1 c2) as [->|Hne]; [apply Z.eqb_refl |].
  apply Z.eqb_neq. zlia.
Qed.

Lemma char_diff c1 c2 : is_char c1 → is_char c2 → s32 (u32 c1 - u32 c2) = c1 - c2.
Proof.
  unfold is_char, swrap, wrap. intros H1 H2. rewrite <- Zminus_mod.
  fold (wrap 32 (c1 - c2)). fold (swrap 32 (c1 - c2)).
  apply swrap_small; [done |]. change (2 ^ (32 - 1)) with 2147483648. lia.
Qed.

Lemma strcmp_cons c1 c2 p1 p2 :
  is_char c1 → is_char c2 →
  strcmp (c1 :: p1) (c2 :: p2) =
  if c1 =? c2 then if c1 =? 0 then Ok 0 else strcmp p1 p2 else Ok (c1 - c2).
Proof.
  intros H1 H2. cbn [strcmp]. change 0 with (u32 0) at 1.
  rewrite !char_eqb, char_diff by (done || unfold is_char; lia).
  by destruct (c1 =? c2), (c1 =? 0).
Qed.

(** Lexicographic comparison of strings by signed character; the end of a
    string counts as the character 0. *)
Fixpoint lex (s1 s2 : list Z) : comparison :=
  match s1, s2 with
  | [], [] => Eq
  | [], c2 :: _ => 0 ?= c2
  | c1 :: _, [] => c1 ?= 0
  | c1 :: s1, c2 :: s2 => if c1 =? c2 then lex s1 s2 else c1 ?= c2
  end.

Lemma compare_sub_0 a b : (a - b ?= 0) = (a ?= b).
Proof. destruct (Z.compare_spec (a - b) 0), (Z.compare_spec a b); done || lia. Qed.

(** [strcmp] orders strings of signed characters lexicographically: the
    sign of its result is the comparison, and it is 0 exactly on equal
    strings. *)
Lemma strcmp_exact p1 p2 s1 s2 :
  cstring p1 s1 → cstring p2 s2 → Forall is_char s1 → Forall is_char s2 →
  ∃ r, strcmp p1 p2 = Ok r ∧ (r ?= 0) = lex s1 s2 ∧ (r = 0 ↔ s1 = s2).
Proof.
  assert (H0 : is_char 0) by (unfold is_char; lia).
  revert p1 p2 s2. induction s1 as [|c1 s1 IH]; intros p1 p2 s2 Hp1%cstring_inv Hp2 Hs1 Hs2;
    destruct s2 as [|c2 s2]; apply cstring_inv in Hp2.
  - destruct Hp1 as [t1 ->], Hp2 as [t2 ->]. by exists 0.
  - destruct Hp1 as [t1 ->], Hp2 as (p2' & -> & Hc & _). inv Hs2.
    rewrite strcmp_cons, (proj2 (Z.eqb_neq 0 c2)) by done.
    eexists. split; [done |]. rewrite compare_sub_0. split; [done | split; [lia | done]].
  - destruct Hp1 as (p1' & -> & Hc & _), Hp2 as [t2 ->]. inv Hs1.
    rewrite strcmp_cons, (proj2 (Z.eqb_neq c1 0)) by done.
    eexists. split; [done |]. rewrite compare_sub_0. split; [done | split; [lia | done]].
  - destruct Hp1 as (p1' & -> & Hc1 & Hp1), Hp2 as (p2' & -> & Hc2 & Hp2). inv Hs1. inv Hs2.
    rewrite strcmp_cons, (proj2 (Z.eqb_neq c1 0)) by done. simpl.
    destruct (Z.eqb_spec c1 c2) as [->|Hne].
    + destruct (IH p1' p2' s2) as (r & -> & Hr & Heq); try done.
      exists r. split; [done |]. split; [done |]. rewrite Heq. naive_solver.
    + eexists. split; [done |]. rewrite compare_sub_0. split; [done |].
      split; [lia | intros; simplify_eq].
Qed.

(** A string that continues with a character above 127 sorts before its
    own prefix. *)
Lemma strcmp_longer_sorts_first :
  strcmp (lit "a" ) (97 :: -61 :: 0 :: []) = Ok 61.
Proof. done. Qed.

(** ** [atoi] and [itoa] *)

(** The value of a list of decimal digits, most significant first. *)
Definition decimal (ds : list Z) : Z := foldl (λ n c, n * 10 + (c - 48)) 0 ds.
Definition is_digit (c : Z) : Prop := 48 <= c <= 57.

Lemma itoa_digits_spec room : ∀ num,
  0 <= num < 10 ^ Z.of_nat room →
  ∃ ds, itoa_digits room num = Ok ds ∧ Forall is_digit ds ∧
    decimal (rev ds) = num ∧ (length ds ≤ room)%nat.
Proof.
  induction room as [|room IH]; intros num Hnum.
  { exists []. replace num with 0 by (simpl in Hnum; lia). by repeat split. }
  cbn [itoa_digits]. destruct (Z.eqb_spec num 0) as [->|Hne].
  { exists []. repeat split; simpl; auto with lia. }
  rewrite Z.quot_div_nonneg, Z.rem_mod_nonneg by lia.
  destruct (IH (num / 10)) as (ds & -> & Hds & Hval & Hlen).
  { rewrite Nat2Z.inj_succ, Z.pow_succ_r in Hnum by lia. zlia. }
  assert (Hd : swrap 8 (48 + num mod 10) = 48 + num mod 10).
  { apply swrap_small; [done |]. change (2 ^ (8 - 1)) with 128. zlia. }
  simpl. rewrite Hd. eexists. split; [done |]. split; [constructor; [unfold is_digit; zlia | done] |].
  split; [| simpl; lia]. simpl. unfold decimal in *. rewrite foldl_app, Hval. simpl. zlia.
Qed.

Lemma atoi_loop_spec ds : ∀ n t,
  Forall is_digit ds → 0 <= n → foldl (λ n c, n * 10 + (c - 48)) n ds < 2 ^ 31 →
  atoi_loop (ds ++ 0 :: t) n = Ok (foldl (λ n c, n * 10 + (c - 48)) n ds).
Proof.
  induction ds as [|c ds IH]; intros n t Hds Hn Hlt; [done |]. inv Hds.
  assert (Hmono : ∀ l m, Forall is_digit l → 0 <= m →
            m <= foldl (λ n c, n * 10 + (c - 48)) m l).
  { clear. induction l as [|x l IHl]; intros m Hl Hm; simpl; [lia |]. inv Hl.
    unfold is_digit in *. etransitivity; [| apply IHl; [done | lia]]. lia. }
  unfold is_digit in *. simpl in *.
  pose proof (Hmono ds (n * 10 + (c - 48)) ltac:(done) ltac:(lia)).
  rewrite (proj2 (Z.leb_le 48 c)), (proj2 (Z.leb_le c 57)) by lia. simpl.
  rewrite (swrap_small 32 (n * 10)), swrap_small by (change (2 ^ (32 - 1)) with 2147483648; lia).
  apply IH; [done | lia | done].
Qed.

(** [atoi] reads back what [itoa] stores for every non-negative [int], in
    any buffer of at least twelve characters. *)
Lemma atoi_itoa num str :
  0 <= num < 2 ^ 31 → (12 ≤ length str)%nat →
  ∃ str', itoa num str = Ok str' ∧ atoi str' = Ok num ∧ length str' = length str.
Proof.
  intros Hnum Hlen.
  assert (∃ ds, (if num =? 0 then Ok [48] else ds ← itoa_digits 11 num; Ok (rev ds)) = Ok ds ∧
            Forall is_digit ds ∧ decimal ds = num ∧ (length ds ≤ 11)%nat)
    as (ds & Hds & Hdig & Hval & Hl).
  { destruct (Z.eqb_spec num 0) as [->|]; [by exists [48]; repeat constructor |].
    destruct (itoa_digits_spec 11 num) as (ds & -> & Hdig & Hval & Hl); [lia |].
    exists (rev ds). rewrite length_rev. repeat split; auto using Forall_rev. }
  unfold itoa. rewrite Hds. simpl. rewrite (store_spec ds [] str) by (done || lia). simpl.
  destruct (drop_cons_S str (length ds)) as [x ->]; [lia |]. rewrite wr_mid.
  eexists. split; [done |]. split.
  - unfold atoi. rewrite atoi_loop_spec; [by f_equal | done | lia |].
    fold (decimal ds). lia.
  - rewrite length_app. simpl. rewrite length_drop. lia.
Qed.

(** On a negative number [itoa] stores characters that are no digits:
    [-5] becomes ["+"], and [atoi] reads 0. *)
Lemma itoa_negative_garbage :
  itoa (-5) (lit "????") = Ok (lit "+" ++ chars "??" ++ [0]) ∧ atoi (lit "+") = Ok 0.
Proof. done. Qed.

(** ** [strnlen] *)

(** [strnlen] is the length of a terminated string cut at [max]; on a
    buffer of exactly [max] characters without a NUL it reads the character
    after the buffer. *)
Lemma strnlen_reads_past_max :
  (∀ p s max, cstring p s → 0 <= max → strnlen p max = Ok (Z.min max (Z.of_nat (length s)))) ∧
  (∀ s, 0 ∉ s → strnlen s (Z.of_nat (length s)) = Fault).
Proof.
  split.
  - intros p s. revert p. induction s as [|c s IH]; intros p max Hp%cstring_inv Hmax.
    + destruct Hp as [t ->]. simpl. f_equal. lia.
    + destruct Hp as (p' & -> & Hc & Hp). simpl. rewrite (proj2 (Z.eqb_neq c 0)) by done.
      destruct (Z.eqb_spec max 0); simpl; [f_equal; lia |].
      rewrite IH by (done || lia). simpl. f_equal. lia.
  - induction s as [|c s IH]; intros Hn; [done |]. cbn [strnlen length].
    rewrite (proj2 (Z.eqb_neq c 0)), (proj2 (Z.eqb_neq _ 0)) by (set_solver || lia).
    cbn [negb andb].
    replace (Z.of_nat (S (length s)) - 1) with (Z.of_nat (length s)) by lia.
    rewrite IH by set_solver. done.
Qed.

(** ** [strnstr] *)

Lemma strncmp_cons c1 c2 p1 p2 n :
  is_char c1 → is_char c2 → 0 < n →
  strncmp (c1 :: p1) (c2 :: p2) n =
  if c1 =? c2 then if c1 =? 0 then Ok 0 else strncmp p1 p2 (n - 1) else Ok (c1 - c2).
Proof.
  intros H1 H2 Hn. cbn [strncmp]. rewrite (proj2 (Z.eqb_neq n 0)) by lia.
  change 0 with (u32 0) at 1.
  rewrite !char_eqb, char_diff by (done || unfold is_char; lia).
  by destruct (c1 =? c2), (c1 =? 0).
Qed.

(** Comparing as many characters as [f] has decides whether [f] is a prefix. *)
Lemma strncmp_prefix f : ∀ p s q,
  cstring p s → cstring q f → Forall is_char s → Forall is_char f →
  ∃ r, strncmp p q (Z.of_nat (length f)) = Ok r ∧ (r = 0 ↔ f `prefix_of` s).
Proof.
  assert (H0 : is_char 0) by (unfold is_char; lia).
  induction f as [|c f IH]; intros p s q Hp Hq%cstring_inv Hs Hf.
  - exists 0. split; [by destruct p | split; [intros _; apply prefix_nil | done]].
  - destruct Hq as (q' & -> & Hc & Hq). inv Hf.
    destruct s as [|x s]; apply cstring_inv in Hp.
    + destruct Hp as [t ->]. rewrite strncmp_cons, (proj2 (Z.eqb_neq 0 c)) by (done || simpl; lia).
      eexists. split; [done |]. split; [lia | intros H%prefix_nil_inv; done].
    + destruct Hp as (p' & -> & Hx & Hp). inv Hs.
      rewrite strncmp_cons, (proj2 (Z.eqb_neq x 0)) by (done || simpl; lia).
      destruct (Z.eqb_spec x c) as [->|Hne].
      * replace (Z.of_nat (length (c :: f)) - 1) with (Z.of_nat (length f)) by (simpl; lia).
        destruct (IH p' s q') as (r & -> & Hr); try done. exists r. split; [done |].
        rewrite Hr. split; [apply prefix_cons | apply prefix_cons_inv_2].
      * eexists. split; [done |]. split; [lia |].
        intros H. apply prefix_cons_inv_1 in H. congruence.
Qed.

(** [f] occurs in [s] at [i], within the first [slen] characters. *)
Definition occurs (s f : list Z) (slen i : Z) : Prop :=
  0 <= i ∧ i + Z.of_nat (length f) <= slen ∧ f `prefix_of` drop (Z.to_nat i) s.

Definition first_occurrence (s f : list Z) (slen : Z) (r : option Z) : Prop :=
  match r with
  | Some i => occurs s f slen i ∧ ∀ j, j < i → ¬ occurs s f slen j
  | None => ∀ j, ¬ occurs s f slen j
  end.

Lemma occurs_cons x s f slen i :
  0 < i → occurs (x :: s) f slen i ↔ occurs s f (slen - 1) (i - 1).
Proof.
  intros Hi. unfold occurs. replace (Z.to_nat i) with (S (Z.to_nat (i - 1))) by lia.
  simpl. split; intros (? & ? & ?); repeat split; done || lia.
Qed.

(** A first character that does not start an occurrence is skipped. *)
Lemma first_occurrence_cons x s f slen r :
  ¬ occurs (x :: s) f slen 0 → first_occurrence s f (slen - 1) r →
  first_occurrence (x :: s) f slen (Z.succ <$> r).
Proof.
  intros H0 Hr. assert (Hno : ∀ j, occurs (x :: s) f slen j → occurs s f (slen - 1) (j - 1)).
  { intros j Hj. destruct (decide (j = 0)) as [->|]; [done |].
    apply occurs_cons in Hj; [done |]. destruct Hj. lia. }
  destruct r as [i|]; simpl in *.
  - destruct Hr as [Hi Hmin]. split.
    + apply occurs_cons; [destruct Hi; lia |]. by replace (Z.succ i - 1) with i by lia.
    + intros j Hj Ho. apply (Hmin (j - 1)); [lia | by apply Hno].
  - intros j Ho. eapply Hr, Hno, Ho.
Qed.

Lemma strnstr_loop_spec s : ∀ p c f q slen off,
  cstring p s → cstring q f → Forall is_char s → Forall is_char (c :: f) → 0 <= slen → c ≠ 0 →
  ∃ r, strnstr_loop p q c (Z.of_nat (length f)) slen off = Ok (Z.add off <$> r) ∧
       first_occurrence s (c :: f) slen r.
Proof.
  induction s as [|x s IH]; intros p c f q slen off Hp%cstring_inv Hq Hs Hf Hslen Hc.
  { destruct Hp as [t ->]. exists None. split; [done |]. intros j (_ & _ & Hpre).
    rewrite drop_nil in Hpre. by apply prefix_nil_inv in Hpre. }
  destruct Hp as (p' & -> & Hx & Hp). cbn [strnstr_loop].
  rewrite (proj2 (Z.eqb_neq x 0)) by done. simpl orb.
  destruct (Z.ltb_spec slen 1).
  { exists None. split; [done |]. intros j (? & ? & _). simpl in *. lia. }
  inv Hs. destruct (IH p' c f q (slen - 1) (off + 1)) as (r & Hr & Hfst); try done; [lia |].
  assert (Hskip : ¬ occurs (x :: s) (c :: f) slen 0 →
    ∃ r, strnstr_loop p' q c (Z.of_nat (length f)) (slen - 1) (off + 1) = Ok (Z.add off <$> r) ∧
       first_occurrence (x :: s) (c :: f) slen r).
  { intros H0. exists (Z.succ <$> r). rewrite Hr. split; [| by apply first_occurrence_cons].
    destruct r; simpl; [| done]. do 2 f_equal. lia. }
  destruct (Z.eqb_spec x c) as [->|Hne]; simpl negb; cbv iota.
  2: { apply Hskip. intros (_ & _ & Hpre). apply prefix_cons_inv_1 in Hpre. congruence. }
  rewrite Z.gtb_ltb. destruct (Z.ltb_spec (slen - 1) (Z.of_nat (length f))).
  { exists None. split; [done |]. intros j (? & ? & _). simpl in *. lia. }
  inv Hf. destruct (strncmp_prefix f p' s q) as (v & -> & Hv); try done. simpl.
  destruct (Z.eqb_spec v 0) as [->|Hne]; simpl negb; cbv iota.
  - exists (Some 0). split; [simpl; by rewrite Z.add_0_r |]. split.
    + repeat split; [lia | simpl; lia |]. apply prefix_cons. by apply Hv.
    + intros j Hj [? _]. lia.
  - apply Hskip. intros (_ & _ & Hpre). apply prefix_cons_inv_2 in Hpre. by apply Hne, Hv.
Qed.

(** [strnstr] finds the first occurrence of [find] within the first [slen]
    characters of the string, and returns [NULL] exactly when there is none. *)
Lemma strnstr_first p s q f slen :
  cstring p s → cstring q f → Forall is_char s → Forall is_char f → 0 <= slen →
  ∃ r, strnstr p q slen = Ok r ∧ first_occurrence s f slen r.
Proof.
  intros Hp Hq Hs Hf Hslen. unfold strnstr. destruct f as [|c f]; apply cstring_inv in Hq.
  - destruct Hq as [t ->]. exists (Some 0). split; [done |]. split.
    + repeat split; [lia | simpl; lia | apply prefix_nil].
    + intros j Hj [? _]. lia.
  - destruct Hq as (q' & -> & Hc & Hq). rewrite (proj2 (Z.eqb_neq c 0)) by done. simpl negb.
    cbv iota. rewrite (strlen_spec q' f) by done. simpl.
    destruct (strnstr_loop_spec s p c f q' slen 0) as (r & -> & Hr); try done.
    exists (Z.add 0 <$> r). split; [done |]. by destruct r.
Qed.

(** ** Witnesses *)

Lemma cstring_lit s : 0 ∉ chars s → cstring (lit s) (chars s).
Proof. intros H. by exists []. Qed.

Lemma strlcpy_correct_witness :
  strlcpy (lit "????") (lit "kernel") 4 = Ok (stored (lit "????") (chars "ker"), 6).
Proof.
  apply (strlcpy_correct (lit "????") (lit "kernel") (chars "kernel") 4);
    [apply cstring_lit; compute_done | compute_done].
Defined.

Lemma strlcat_correct_witness :
  strlcat (stored (lit "???????") (chars "ab")) (lit "kernel") 6
  = Ok (stored (lit "???????") (chars "abker"), 8).
Proof.
  apply (strlcat_correct (stored (lit "???????") (chars "ab")) (chars "ab")
           (lit "kernel") (chars "kernel") 6);
    [by exists (chars "????" ++ [0]); split; [| compute_done]
    | apply cstring_lit; compute_done | compute_done].
Defined.

Lemma strcmp_exact_witness :
  ∃ r, strcmp (lit "com.apple.a") (lit "com.apple.b") = Ok r ∧
    (r ?= 0) = lex (chars "com.apple.a") (chars "com.apple.b") ∧
    (r = 0 ↔ chars "com.apple.a" = chars "com.apple.b").
Proof.
  apply (strcmp_exact (lit "com.apple.a") (lit "com.apple.b")
           (chars "com.apple.a") (chars "com.apple.b"));
    [apply cstring_lit; compute_done | apply cstring_lit; compute_done
    | compute_done | compute_done].
Defined.

Lemma atoi_itoa_witness :
  ∃ str', itoa 20260 (replicate 16 63) = Ok str' ∧ atoi str' = Ok 20260 ∧ length str' = 16%nat.
Proof. apply (atoi_itoa 20260 (replicate 16 63)); [lia | simpl; lia]. Defined.

Lemma strnstr_first_witness :
  ∃ r, strnstr (lit "debug=0x144 -v") (lit "-v") 14 = Ok r ∧
    first_occurrence (chars "debug=0x144 -v") (chars "-v") 14 r.
Proof.
  apply (strnstr_first (lit "debug=0x144 -v") (chars "debug=0x144 -v") (lit "-v") (chars "-v") 14);
    [apply cstring_lit; compute_done | apply cstring_lit; compute_done
    | compute_done | compute_done | lia].
Defined.
