(* ===== verification/Printf.v ===== *)
(** * Formatted output: [__doprnt] and the [snprintf] family

    [osfmk/kern/printf.c] (the conversion engine) and [bsd/kern/subr_prf.c]
    ([snprintf], [vsnprintf], [scnprintf]).  The engine is generic in the
    output routine [putc] and in the object behind its [arg], as in the code:
    [putc c] is a step on a state of an arbitrary type.  A format string and a
    string argument are pointers as in [CStr]; reading past their object, a
    missing or ill-typed argument, a shift by a negative or too large amount
    and an index outside a digit table fault. *)

From S2P Require Import Prelude CStr.

(** The globals [_doprnt_truncates] and [doprnt_hide_pointers] and the kernel's
    address range. *)
Record cfg := Cfg {
  doprnt_truncates : bool;
  doprnt_hide_pointers : bool;
  VM_MIN_KERNEL_AND_KEXT_ADDRESS : Z;
  VM_MAX_KERNEL_ADDRESS : Z
}.

(** A variable argument: an [int] or [unsigned int], a 64-bit integer or the
    address of a pointer that is printed as a number, or a pointer to
    characters ([None] is [NULL]). *)
Inductive va :=
  | VInt (z : Z)
  | VLong (z : Z)
  | VPtr (p : option (list Z)).

Definition va_int (args : list va) : res (Z * list va) :=
  match args with VInt z :: args => Ok (s32 z, args) | _ => Fault end.
Definition va_uint (args : list va) : res (Z * list va) :=
  match args with VInt z :: args => Ok (u32 z, args) | _ => Fault end.
Definition va_ll (args : list va) : res (Z * list va) :=
  match args with VLong z :: args => Ok (s64 z, args) | _ => Fault end.
Definition va_ull (args : list va) : res (Z * list va) :=
  match args with VLong z :: args => Ok (u64 z, args) | _ => Fault end.
Definition va_ptr (args : list va) : res (option (list Z) * list va) :=
  match args with VPtr p :: args => Ok (p, args) | _ => Fault end.

Inductive numeric := INT | SHORT | CHAR.

(** What the flags, width, precision and size modifiers of a directive set. *)
Record spec := Spec {
  fs_length : Z;
  fs_prec : Z;
  fs_ladjust : bool;
  fs_padc : Z;
  fs_plus : Z;
  fs_alt : bool;
  fs_long_long : bool;
  fs_type : numeric
}.

Definition isdigit (d : Z) : bool := (48 <=? d) && (d <=? 57).
Definition Ctod (c : Z) : Z := c - 48.

(** [*fmt] and [fmt + 1]. *)
Definition next (fmt : list Z) : res (Z * list Z) :=
  match fmt with [] => Fault | c :: rest => Ok (c, rest) end.

(** ** Reading a directive *)

(** The flags ['#'], ['-'], ['+'] and [' ']. *)
Fixpoint flags_loop (fmt : list Z) (ladjust altfmt : bool) (plus_sign : Z) :
    res (list Z * bool * bool * Z) :=
  match fmt with
  | [] => Fault
  | c :: rest =>
      if c =? 35 then flags_loop rest ladjust true plus_sign
      else if c =? 45 then flags_loop rest true altfmt plus_sign
      else if c =? 43 then flags_loop rest ladjust altfmt 43
      else if c =? 32 then
        flags_loop rest ladjust altfmt (if plus_sign =? 0 then 32 else plus_sign)
      else Ok (fmt, ladjust, altfmt, plus_sign)
  end.

Fixpoint number_loop (fmt : list Z) (n : Z) : res (list Z * Z) :=
  match fmt with
  | [] => Fault
  | c :: rest =>
      if isdigit c then number_loop rest (s32 (10 * n + Ctod c)) else Ok (fmt, n)
  end.

(** The width: digits, or ['*'] and an [int] argument. *)
Definition parse_width (fmt : list Z) (args : list va) (ladjust : bool) :
    res (list Z * list va * Z * bool) :=
  '(c, rest) ← next fmt;
  if isdigit c then
    '(fmt, n) ← number_loop fmt 0;
    Ok (fmt, args, n, ladjust)
  else if c =? 42 then
    '(n, args) ← va_int args;
    if n <? 0 then Ok (rest, args, s32 (- n), negb ladjust)
    else Ok (rest, args, n, ladjust)
  else Ok (fmt, args, 0, ladjust).

(** The precision, after ['.']. *)
Definition parse_prec (fmt : list Z) (args : list va) : res (list Z * list va * Z) :=
  '(c, rest) ← next fmt;
  if c =? 46 then
    '(c, rest') ← next rest;
    if isdigit c then
      '(fmt, n) ← number_loop rest 0;
      Ok (fmt, args, n)
    else if c =? 42 then
      '(n, args) ← va_int args;
      Ok (rest', args, n)
    else Ok (rest, args, -1)
  else Ok (fmt, args, -1).

(** The size modifiers [l], [ll], [h], [hh], [q], [L], then [z] or [Z]; [long]
    and [size_t] have 64 bits. *)
Definition parse_size (fmt : list Z) : res (list Z * bool * numeric) :=
  '(c, rest) ← next fmt;
  '(fmt, long_long, numeric_type) ←
    (if c =? 108 then
       '(c, rest') ← next rest;
       Ok (if c =? 108 then rest' else rest, true, INT)
     else if c =? 104 then
       '(c, rest') ← next rest;
       Ok (if c =? 104 then (rest', false, CHAR) else (rest, false, SHORT))
     else if (c =? 113) || (c =? 76) then Ok (rest, true, INT)
     else Ok (fmt, false, INT));
  '(c, rest) ← next fmt;
  if (c =? 122) || (c =? 90) then Ok (rest, true, numeric_type)
  else Ok (fmt, long_long, numeric_type).

(** A whole directive after its ['%']: the pointer to the conversion
    character, the arguments left, and the directive's settings. *)
Definition directive (fmt : list Z) (args : list va) : res (list Z * list va * spec) :=
  '(fmt, ladjust, altfmt, plus_sign) ← flags_loop fmt false false 0;
  '(c, rest) ← next fmt;
  let '(padc, fmt) := if c =? 48 then (48, rest) else (32, fmt) in
  '(fmt, args, n, ladjust) ← parse_width fmt args ladjust;
  '(fmt, args, prec) ← parse_prec fmt args;
  '(fmt, long_long, numeric_type) ← parse_size fmt;
  Ok (fmt, args, Spec n prec ladjust padc plus_sign altfmt long_long numeric_type).

(** ** Numbers *)

Definition MAXBUF : nat := 64.
Definition digs : list Z := lit "0123456789abcdef".
Definition digits : list Z := lit "0123456789abcdef0123456789ABCDEF".

(** The [do] loop that stores digits downwards in [buf[MAXBUF]]; [room] is the
    space left below [p], and storing below the buffer faults. *)
Fixpoint num_digits (room : nat) (table : list Z) (u base capitals : Z) (acc : list Z) :
    res (list Z) :=
  match room with
  | O => Fault
  | S room =>
      if base =? 0 then Fault else
      d ← rd table (u mod base + capitals);
      let u := u / base in
      if u =? 0 then Ok (d :: acc) else num_digits room table u base capitals (d :: acc)
  end.

(** [print_signed] and [print_unsigned] up to [goto print_num]. *)
Definition get_signed (sp : spec) (args : list va) : res (Z * list va) :=
  '(n, args) ← (if fs_long_long sp then va_ll args else va_int args);
  Ok (match fs_type sp with
      | SHORT => swrap 16 n
      | CHAR => swrap 8 n
      | INT => n
      end, args).

Definition get_unsigned (sp : spec) (args : list va) : res (Z * list va) :=
  '(u, args) ← (if fs_long_long sp then va_ull args else va_uint args);
  Ok (match fs_type sp with
      | SHORT => wrap 16 u
      | CHAR => wrap 8 u
      | INT => u
      end, args).

(** ** The conversions

    Each returns the number of characters it adds to [nprinted]. *)

Section doprnt.
Context {S : Type} (putc : Z → st S ()) (g : cfg) (is_log : bool).

Definition lift {A} (m : res A) : st S A := λ s,
  match m with Ok a => Ok (a, s) | Fault => Fault end.

(** A loop that puts the characters of an array. *)
Fixpoint emit (cs : list Z) : st S Z :=
  match cs with
  | [] => mret 0
  | c :: cs => putc c ;; n ← emit cs; mret (1 + n)
  end.

(** [while (--length >= 0) ( *putc )(c, arg)] *)
Definition pad (c n : Z) : st S Z := emit (replicate (Z.to_nat n) c).

(** [length] after that loop. *)
Definition padded (len : Z) : Z := if len >=? 0 then -1 else len - 1.

Definition printnum (u base : Z) : st S Z :=
  buf ← lift (num_digits MAXBUF digs u (u64 base) 0 []);
  emit buf.

(** [for (; (c = *p) > 32; p++) ( *putc )(c, arg)] *)
Fixpoint bit_name (p : list Z) : st S (Z * list Z) :=
  match p with
  | [] => fault
  | c :: rest =>
      if c >? 32 then putc c ;; '(n, p) ← bit_name rest; mret (1 + n, p)
      else mret (0, p)
  end.

(** [for (; *p > 32; p++) continue] *)
Fixpoint skip_name (p : list Z) : res (list Z) :=
  match p with
  | [] => Fault
  | c :: rest => if c >? 32 then skip_name rest else Ok p
  end.

(** One register field or bit of [%b] (or [%B] when [isB]); returns the count,
    [any] and [p]. *)
Definition bit_step (isB : bool) (u base i : Z) (any : bool) (p : list Z) :
    st S (Z * bool * list Z) :=
  let i := if isB then 33 - i else i in
  '(c, rest) ← lift (next p);
  if c <=? 32 then
    putc (if any then 44 else 60) ;;
    let j := if isB then 32 - c else c in
    '(n, p) ← bit_name rest;
    if (0 <=? j - 1) && (j - 1 <? 64) && (0 <=? i - j) && (i - j <? 32) then
      let mask := s32 (s32 (Z.shiftl 2 (i - j)) - 1) in
      m ← printnum (u32 (Z.land (Z.shiftr u (j - 1)) (u64 mask))) base;
      mret (1 + n + m, true, p)
    else fault
  else if (0 <=? i - 1) && (i - 1 <? 32) then
    if tst u (u64 (s32 (Z.shiftl 1 (i - 1)))) then
      putc (if any then 44 else 60) ;;
      '(n, p) ← bit_name p;
      mret (1 + n, true, p)
    else
      p ← lift (skip_name p);
      mret (0, any, p)
  else fault.

Fixpoint bit_loop (fuel : nat) (isB : bool) (u base : Z) (any : bool) (p : list Z) : st S Z :=
  match fuel with
  | O => fault
  | Datatypes.S fuel =>
      '(i, p) ← lift (next p);
      if i =? 0 then (if any then putc 62 ;; mret 1 else mret 0)
      else
        '(n, any, p) ← bit_step isB u base i any p;
        m ← bit_loop fuel isB u base any p;
        mret (n + m)
  end.

(** [case 'b': case 'B':] *)
Definition conv_bits (isB : bool) (sp : spec) (args : list va) : st S (Z * list va) :=
  '(u, args) ← lift (if fs_long_long sp then va_ull args else va_uint args);
  '(p, args) ← lift (va_ptr args);
  '(base, p) ← lift (next (default [] p));
  n ← printnum u base;
  if u =? 0 then mret (n, args)
  else
    m ← bit_loop (length p) isB u base false p;
    mret (n + m, args).

(** [for (; *p != '\0' && n < prec; p++) n++] *)
Fixpoint str_count (p : list Z) (n prec : Z) : res Z :=
  match p with
  | [] => Fault
  | c :: p => if negb (c =? 0) && (n <? prec) then str_count p (n + 1) prec else Ok n
  end.

(** The loop that puts the string. *)
Fixpoint str_out (p : list Z) (n prec len : Z) : st S Z :=
  if (n <? prec) && negb ((len >? 0) && (n >=? len)) then
    match p with
    | [] => fault
    | c :: p => if c =? 0 then mret n else putc c ;; str_out p (n + 1) prec len
    end
  else mret n.

(** [case 's':] *)
Definition conv_str (sp : spec) (args : list va) : st S (Z * list va) :=
  let len := fs_length sp in
  let prec := if fs_prec sp =? -1 then 2147483647 else fs_prec sp in
  '(p, args) ← lift (va_ptr args);
  let p := default (lit "") p in
  l ← (if (len >? 0) && negb (fs_ladjust sp) then
         n ← lift (str_count p 0 prec);
         pad 32 (len - n)
       else mret 0);
  n ← str_out p 0 prec len;
  r ← (if (n <? len) && fs_ladjust sp then pad 32 (len - n) else mret 0);
  mret (l + n + r, args).

(** [for (q = p; *q; q++) ( *putc )( *q, arg)] *)
Fixpoint put_string (q : list Z) : st S Z :=
  match q with
  | [] => fault
  | c :: q => if c =? 0 then mret 0 else putc c ;; n ← put_string q; mret (1 + n)
  end.

(** [while (length--)] of [case 'D':], over the bytes at [up]. *)
Fixpoint hexdump (up p : list Z) (len : Z) : st S Z :=
  if len =? 0 then mret 0 else
  match up with
  | [] => fault
  | b :: up =>
      hi ← lift (rd digs (Z.shiftr (u8 b) 4));
      lo ← lift (rd digs (Z.land (u8 b) 15));
      putc hi ;; putc lo ;;
      let len := len - 1 in
      sep ← (if negb (len =? 0) then put_string p else mret 0);
      n ← hexdump up p len;
      mret (2 + sep + n)
  end.

Definition conv_dump (sp : spec) (args : list va) : st S (Z * list va) :=
  '(up, args) ← lift (va_ptr args);
  '(p, args) ← lift (va_ptr args);
  let len := if fs_length sp =? -1 then 16 else fs_length sp in
  n ← hexdump (default [] up) (default [] p) len;
  mret (n, args).

(** [print_num:]; a [sign_char] of 0 prints no sign.  On x86_64 there are no
    pointer authentication codes to strip ([HAS_APPLE_PAC] is not defined, and
    [VM_KERNEL_STRIP_PTR] gives its argument back). *)
Definition print_num (sp : spec) (u base capitals sign_char : Z) (truncate : bool) : st S Z :=
  let u := if truncate then u64 (s32 u) else u in
  if doprnt_hide_pointers g && is_log && (u >=? VM_MIN_KERNEL_AND_KEXT_ADDRESS g)
     && (u <=? VM_MAX_KERNEL_ADDRESS g)
  then emit (chars "<ptr>")
  else
    let prefix :=
      if negb (u =? 0) && fs_alt sp
      then if base =? 8 then chars "0" else if base =? 16 then chars "0x" else []
      else [] in
    buf ← lift (num_digits MAXBUF digits u base capitals []);
    let sign := if sign_char =? 0 then [] else [sign_char] in
    let len := s32 (fs_length sp - Z.of_nat (length buf) - Z.of_nat (length sign)
                    - Z.of_nat (length prefix)) in
    let blank := (fs_padc sp =? 32) && negb (fs_ladjust sp) in
    n1 ← (if blank then pad 32 len else mret 0);
    let len := if blank then padded len else len in
    n2 ← emit sign;
    n3 ← emit prefix;
    n4 ← (if fs_padc sp =? 48 then pad 48 len else mret 0);
    let len := if fs_padc sp =? 48 then padded len else len in
    n5 ← emit buf;
    n6 ← (if fs_ladjust sp then pad 32 len else mret 0);
    mret (n1 + n2 + n3 + n4 + n5 + n6).

Definition conv_signed (sp : spec) (base : Z) (truncate : bool) (args : list va) :
    st S (Z * list va) :=
  '(n, args) ← lift (get_signed sp args);
  k ← (if n >=? 0 then print_num sp n base 0 (fs_plus sp) truncate
       else print_num sp (u64 (- n)) base 0 45 truncate);
  mret (k, args).

Definition conv_unsigned (sp : spec) (base capitals : Z) (truncate : bool) (args : list va) :
    st S (Z * list va) :=
  '(u, args) ← lift (get_unsigned sp args);
  k ← print_num sp u base capitals 0 truncate;
  mret (k, args).

Definition with_pointer (sp : spec) : spec :=
  Spec (fs_length sp) (fs_prec sp) (fs_ladjust sp) (fs_padc sp) (fs_plus sp) true true
    (fs_type sp).

(** [switch (c)].  The cases are, in order: [b] and [B]; [c]; [s]; [o] and
    [O]; [D]; [d] and [i]; [u] and [U]; [p]; [x]; [X]; [r] and [R]; [n] and
    [N]; the NUL; any other character, which is put as it is. *)
Definition conv (radix c : Z) (sp : spec) (args : list va) : st S (Z * list va) :=
  let truncate := doprnt_truncates g in
  if (c =? 98) || (c =? 66) then conv_bits (c =? 66) sp args
  else if c =? 99 then
    '(z, args) ← lift (va_int args);
    putc (swrap 8 z) ;; mret (1, args)
  else if c =? 115 then conv_str sp args
  else if c =? 111 then conv_unsigned sp 8 0 truncate args
  else if c =? 79 then conv_unsigned sp 8 0 false args
  else if c =? 68 then conv_dump sp args
  else if (c =? 100) || (c =? 105) then conv_signed sp 10 truncate args
  else if c =? 117 then conv_unsigned sp 10 0 truncate args
  else if c =? 85 then conv_unsigned sp 10 0 false args
  else if c =? 112 then conv_unsigned (with_pointer sp) 16 0 truncate args
  else if c =? 120 then conv_unsigned sp 16 0 truncate args
  else if c =? 88 then conv_unsigned sp 16 16 false args
  else if c =? 114 then conv_signed sp radix truncate args
  else if c =? 82 then conv_signed sp radix false args
  else if c =? 110 then conv_unsigned sp radix 0 truncate args
  else if c =? 78 then conv_unsigned sp radix 0 false args
  else if c =? 0 then mret (0, args)
  else putc c ;; mret (1, args).

(** The loop over the format.  Each round takes at least one character of it,
    so that its length is enough fuel. *)
Fixpoint doprnt_loop (fuel : nat) (radix : Z) (fmt : list Z) (args : list va) (nprinted : Z) :
    st S Z :=
  match fuel with
  | O => fault
  | Datatypes.S fuel =>
      '(c, rest) ← lift (next fmt);
      if c =? 0 then mret nprinted
      else if negb (c =? 37) then
        putc c ;; doprnt_loop fuel radix rest args (s32 (nprinted + 1))
      else
        '(fmt, args, sp) ← lift (directive rest args);
        '(c, rest) ← lift (next fmt);
        '(n, args) ← conv radix c sp args;
        doprnt_loop fuel radix (if c =? 0 then fmt else rest) args (s32 (nprinted + n))
  end.

Definition doprnt (fmt : list Z) (args : list va) (radix : Z) : st S Z :=
  let radix := if (radix <? 2) || (radix >? 36) then 10 else radix in
  doprnt_loop (length fmt) radix fmt args 0.

End doprnt.

(** ** [snprintf] *)

(** [struct snprintf_arg] and the buffer [str] points into, at an offset. *)
Record snprintf_arg := Snp { sn_buf : list Z; sn_str : Z; sn_remain : Z }.

Definition snprintf_func (ch : Z) : st snprintf_arg () := λ info,
  if sn_remain info >=? 2 then
    buf ← wr (sn_buf info) (sn_str info) (swrap 8 ch);
    Ok ((), Snp buf (sn_str info + 1) (sn_remain info - 1))
  else Ok ((), info).

(** [vsnprintf(buf + off, size, format, ap)]: the buffer afterwards and the
    result.  [snprintf] is this function on its own arguments. *)
Definition vsnprintf (g : cfg) (buf : list Z) (off size : Z) (format : list Z) (ap : list va) :
    res (list Z * Z) :=
  '(retval, info) ← doprnt snprintf_func g false format ap 10 (Snp buf off size);
  if sn_remain info >=? 1 then
    buf ← wr (sn_buf info) (sn_str info) 0;
    Ok (buf, retval)
  else Ok (sn_buf info, retval).

Definition vscnprintf (g : cfg) (buf : list Z) (off size : Z) (fmt : list Z) (args : list va) :
    res (list Z * Z) :=
  '(buf, i) ← vsnprintf g buf off size fmt args;
  Ok (buf, if i >=? s64 size then s32 (s64 size - 1) else i).
