(* ===== verification/PrintfTrace.v ===== *)
(** * The conversion engine as a producer of characters

    [__doprnt] is generic in its output routine.  Run with a routine that
    records its argument it yields a list of characters, [render]; run with
    any other routine it hands the same characters to it, in order, and
    returns their number. *)

From S2P Require Import Prelude CStr Printf.

(** The output routine that records. *)
Definition record (c : Z) : st (list Z) () := λ l, Ok ((), l ++ [c]).

(** What a format and its arguments produce. *)
Definition render (g : cfg) (is_log : bool) (fmt : list Z) (args : list va) (radix : Z) :
    res (list Z) :=
  '(_, out) ← doprnt record g is_log fmt args radix [];
  Ok out.

Section trace.
Context {S : Type} (putc : Z → st S ()).

Fixpoint puts (cs : list Z) : st S () :=
  match cs with [] => mret () | c :: cs => putc c ;; puts cs end.

Lemma puts_app cs cs' s : puts (cs ++ cs') s = (puts cs ;; puts cs') s.
Proof.
  revert s. induction cs as [|c cs IH]; intros s; [done |]. simpl.
  rewrite !st_bind_unfold. destruct (putc c s) as [[? s']|]; [| done]. apply IH.
Qed.

(** [m], written against [putc], and [m0], the same code written against
    [record]: when [m0] appends [out] and returns [a], then [m] puts [out]
    and returns [a], and [cnt a] is the number of characters. *)
Definition tr {A} (cnt : A → Z) (m : st S A) (m0 : st (list Z) A) : Prop :=
  ∀ l, match m0 l with
       | Ok (a, l') => ∃ out, l' = l ++ out ∧ cnt a = Z.of_nat (length out) ∧
                              ∀ s, m s = (puts out ;; mret a) s
       | Fault => ∀ s, m s = Fault
       end.

Lemma tr_ret {A} (cnt : A → Z) a : cnt a = 0 → tr cnt (mret a) (mret a).
Proof. intros Ha l. exists []. by rewrite app_nil_r. Qed.

Lemma tr_fault {A} (cnt : A → Z) : tr cnt fault fault.
Proof. by intros l. Qed.

Lemma tr_lift {A} (m : res A) : tr (λ _, 0) (lift m) (lift m).
Proof. intros l. unfold lift. destruct m; [| done]. exists []. by rewrite app_nil_r. Qed.

Lemma tr_putc c : tr (λ _, 1) (putc c) (record c).
Proof.
  intros l. exists [c]. repeat split. intros s. simpl. rewrite !st_bind_unfold.
  by destruct (putc c s) as [[[] s']|].
Qed.

Lemma tr_bind {A B} (f : A → Z) (h : B → Z) m m0 (k : A → st S B) k0 :
  tr f m m0 → (∀ a, tr (λ b, h b - f a) (k a) (k0 a)) → tr h (m ≫= k) (m0 ≫= k0).
Proof.
  intros Hm Hk l. specialize (Hm l). rewrite st_bind_unfold.
  destruct (m0 l) as [[a l1]|].
  - destruct Hm as (o1 & -> & Ha & Hm). specialize (Hk a (l ++ o1)).
    destruct (k0 a (l ++ o1)) as [[b l2]|].
    + destruct Hk as (o2 & -> & Hb & Hk). exists (o1 ++ o2). rewrite app_assoc, length_app.
      split; [done |]. split; [lia |]. intros s.
      rewrite !st_bind_unfold, puts_app, Hm, !st_bind_unfold.
      destruct (puts o1 s) as [[[] s1]|]; [| done]. simpl. by rewrite Hk, st_bind_unfold.
    + intros s. rewrite st_bind_unfold, Hm, st_bind_unfold.
      destruct (puts o1 s) as [[[] s1]|]; [| done]. apply Hk.
  - intros s. by rewrite st_bind_unfold, Hm.
Qed.

Lemma tr_cnt {A} (f h : A → Z) m m0 : tr f m m0 → (∀ a, f a = h a) → tr h m m0.
Proof.
  intros Hm Hf l. specialize (Hm l). destruct (m0 l) as [[a l']|]; [| done].
  destruct Hm as (out & ? & ? & ?). exists out. by rewrite <- Hf.
Qed.

End trace.

Create HintDb tr.
#[export] Hint Resolve tr_lift tr_putc tr_fault : tr.

(** Follows the code of both runs: the count of a step is that of the lemma
    in the database, the end is arithmetic. *)
Ltac tr_step :=
  match goal with
  | |- tr _ _ (mret _) _ => apply tr_ret; simpl; lia
  | |- tr _ _ (match ?x with _ => _ end) _ => destruct x
  | |- tr _ _ (_ ≫= _) _ => eapply tr_bind; [solve [eauto with tr nocore] | intros ?]
  | |- tr _ _ fault _ => apply tr_fault
  | |- tr _ _ (let _ := _ in _) _ => simpl
  end.

Section conversions.
Context {S : Type} (putc : Z → st S ()) (g : cfg) (is_log : bool).

Lemma tr_emit cs : tr putc (λ n, n) (emit putc cs) (emit record cs).
Proof. induction cs as [|c cs IH]; simpl; repeat tr_step. Qed.
#[local] Hint Resolve tr_emit : tr.

Lemma tr_pad c n : tr putc (λ k, k) (pad putc c n) (pad record c n).
Proof. apply tr_emit. Qed.
#[local] Hint Resolve tr_pad : tr.

Lemma tr_printnum u base : tr putc (λ k, k) (printnum putc u base) (printnum record u base).
Proof. unfold printnum. tr_step. eapply tr_cnt; [apply tr_emit | intros; simpl; lia]. Qed.
#[local] Hint Resolve tr_printnum : tr.

Lemma tr_bit_name p : tr putc fst (bit_name putc p) (bit_name record p).
Proof. induction p as [|c p IH]; simpl; repeat tr_step. Qed.
#[local] Hint Resolve tr_bit_name : tr.

Lemma tr_bit_step isB u base i any p :
  tr putc (λ r, r.1.1) (bit_step putc isB u base i any p) (bit_step record isB u base i any p).
Proof. unfold bit_step. repeat tr_step. Qed.
#[local] Hint Resolve tr_bit_step : tr.

Lemma tr_bit_loop fuel isB u base : ∀ any p,
  tr putc (λ k, k) (bit_loop putc fuel isB u base any p) (bit_loop record fuel isB u base any p).
Proof. induction fuel as [|fuel IH]; intros any p; simpl; repeat tr_step. Qed.
#[local] Hint Resolve tr_bit_loop : tr.

Lemma tr_conv_bits isB sp args :
  tr putc fst (conv_bits putc isB sp args) (conv_bits record isB sp args).
Proof. unfold conv_bits. repeat tr_step. Qed.
#[local] Hint Resolve tr_conv_bits : tr.

Lemma tr_str_out p prec len : ∀ n,
  tr putc (λ k, k - n) (str_out putc p n prec len) (str_out record p n prec len).
Proof.
  induction p as [|c p IH]; intros n; simpl; repeat tr_step.
  eapply tr_cnt; [apply IH | intros; simpl; lia].
Qed.
#[local] Hint Resolve tr_str_out : tr.

Lemma tr_conv_str sp args : tr putc fst (conv_str putc sp args) (conv_str record sp args).
Proof.
  unfold conv_str. do 2 tr_step. eapply (tr_bind _ (λ k, k)).
  { tr_step; [tr_step; eapply tr_cnt; [apply tr_pad | intros; simpl; lia] | tr_step]. }
  intros l0. tr_step. eapply (tr_bind _ (λ k, k)).
  { tr_step; [apply tr_pad | tr_step]. }
  intros r. tr_step.
Qed.
#[local] Hint Resolve tr_conv_str : tr.

Lemma tr_put_string q : tr putc (λ k, k) (put_string putc q) (put_string record q).
Proof. induction q as [|c q IH]; simpl; repeat tr_step. Qed.
#[local] Hint Resolve tr_put_string : tr.

Lemma tr_hexdump up p : ∀ len,
  tr putc (λ k, k) (hexdump putc up p len) (hexdump record up p len).
Proof.
  induction up as [|b up IH]; intros len; simpl; [repeat tr_step |].
  do 5 tr_step. eapply (tr_bind _ (λ k, k)); [tr_step; [apply tr_put_string | tr_step] |].
  intros sep. repeat tr_step.
Qed.
#[local] Hint Resolve tr_hexdump : tr.

Lemma tr_conv_dump sp args : tr putc fst (conv_dump putc sp args) (conv_dump record sp args).
Proof. unfold conv_dump. repeat tr_step. Qed.
#[local] Hint Resolve tr_conv_dump : tr.

Lemma tr_pad_if (b : bool) c n :
  tr putc (λ k, k) (if b then pad putc c n else mret 0) (if b then pad record c n else mret 0).
Proof. tr_step; [apply tr_pad | tr_step]. Qed.
#[local] Hint Resolve tr_pad_if : tr.

Lemma tr_print_num sp u base capitals sign_char truncate :
  tr putc (λ k, k) (print_num putc g is_log sp u base capitals sign_char truncate)
                   (print_num record g is_log sp u base capitals sign_char truncate).
Proof.
  unfold print_num. destruct (_ && _); [apply tr_emit |]. repeat tr_step.
Qed.
#[local] Hint Resolve tr_print_num : tr.

Lemma tr_conv_unsigned sp base capitals truncate args :
  tr putc fst (conv_unsigned putc g is_log sp base capitals truncate args)
              (conv_unsigned record g is_log sp base capitals truncate args).
Proof. unfold conv_unsigned. repeat tr_step. Qed.

Lemma tr_conv_signed sp base truncate args :
  tr putc fst (conv_signed putc g is_log sp base truncate args)
              (conv_signed record g is_log sp base truncate args).
Proof.
  unfold conv_signed. do 2 tr_step. eapply (tr_bind _ (λ k, k)).
  { tr_step; apply tr_print_num. }
  intros k. tr_step.
Qed.
#[local] Hint Resolve tr_conv_unsigned tr_conv_signed : tr.

Lemma tr_conv radix c sp args :
  tr putc fst (conv putc g is_log radix c sp args) (conv record g is_log radix c sp args).
Proof. unfold conv. repeat (tr_step || solve [eauto with tr nocore]). Qed.
#[local] Hint Resolve tr_conv : tr.

(** The same relation for the loop, whose counter wraps around: started at
    [n], it returns [n] plus the number of characters, as an [int]. *)
Definition trw (n : Z) (m : st S Z) (m0 : st (list Z) Z) : Prop :=
  ∀ l, match m0 l with
       | Ok (a, l') => ∃ out, l' = l ++ out ∧ a = s32 (n + Z.of_nat (length out)) ∧
                              ∀ s, m s = (puts putc out ;; mret a) s
       | Fault => ∀ s, m s = Fault
       end.

Lemma trw_bind {A} (f : A → Z) n m m0 (k : A → st S Z) k0 :
  tr putc f m m0 → (∀ a, trw (s32 (n + f a)) (k a) (k0 a)) → trw n (m ≫= k) (m0 ≫= k0).
Proof.
  intros Hm Hk l. specialize (Hm l). rewrite st_bind_unfold.
  destruct (m0 l) as [[a l1]|].
  - destruct Hm as (o1 & -> & Ha & Hm). specialize (Hk a (l ++ o1)).
    destruct (k0 a (l ++ o1)) as [[b l2]|].
    + destruct Hk as (o2 & -> & Hb & Hk). exists (o1 ++ o2). rewrite app_assoc, length_app.
      split; [done |]. split.
      { rewrite Hb, Ha, s32_add_l. f_equal. lia. }
      intros s. rewrite !st_bind_unfold, puts_app, Hm, !st_bind_unfold.
      destruct (puts putc o1 s) as [[[] s1]|]; [| done]. simpl. by rewrite Hk, st_bind_unfold.
    + intros s. rewrite st_bind_unfold, Hm, st_bind_unfold.
      destruct (puts putc o1 s) as [[[] s1]|]; [| done]. apply Hk.
  - intros s. by rewrite st_bind_unfold, Hm.
Qed.

Lemma trw_lift {A} n (m : res A) (k : A → st S Z) k0 :
  n = s32 n → (∀ a, trw n (k a) (k0 a)) → trw n (lift m ≫= k) (lift m ≫= k0).
Proof.
  intros Hn Hk. eapply trw_bind; [apply tr_lift |]. intros a.
  by rewrite Z.add_0_r, <- Hn.
Qed.

Lemma trw_doprnt_loop fuel radix : ∀ fmt args n,
  n = s32 n →
  trw n (doprnt_loop putc g is_log fuel radix fmt args n)
        (doprnt_loop record g is_log fuel radix fmt args n).
Proof.
  induction fuel as [|fuel IH]; intros fmt args n Hn; simpl; [by intros l |].
  apply trw_lift; [done |]. intros [c rest]. destruct (c =? 0).
  { intros l. exists []. rewrite app_nil_r, Z.add_0_r. done. }
  destruct (c =? 37); simpl.
  - apply trw_lift; [done |]. intros [[fmt' args'] sp].
    apply trw_lift; [done |]. intros [c' rest'].
    eapply trw_bind; [apply tr_conv |]. intros [k args'']. simpl.
    apply IH. by rewrite s32_idemp.
  - eapply trw_bind; [apply tr_putc |]. intros ?. simpl. apply IH. by rewrite s32_idemp.
Qed.

End conversions.

Lemma doprnt_puts {S} (putc : Z → st S ()) g is_log fmt args radix s :
  doprnt putc g is_log fmt args radix s =
  match render g is_log fmt args radix with
  | Ok out => (puts putc out ;; mret (s32 (Z.of_nat (length out)))) s
  | Fault => Fault
  end.
Proof.
  unfold render, doprnt.
  pose proof (trw_doprnt_loop putc g is_log (length fmt)
    (if (radix <? 2) || (radix >? 36) then 10 else radix) fmt args 0 eq_refl []) as H.
  destruct (doprnt_loop record _ _ _ _ _ _ _ _) as [[a out]|].
  - destruct H as (out' & Hout & Ha & H). simpl in Hout. subst out'. simpl. by rewrite H, Ha.
  - apply H.
Qed.

(** C23: for every output routine, [__doprnt] hands it the characters that the
    format and the arguments [render], in order and nothing else, and returns
    their number as an [int]; when the format faults it faults. *)
Theorem doprnt_trace {S} (putc : Z → st S ()) g is_log fmt args radix s :
  doprnt putc g is_log fmt args radix s =
  match render g is_log fmt args radix with
  | Ok out => (puts putc out ;; mret (s32 (Z.of_nat (length out)))) s
  | Fault => Fault
  end.
Proof. apply doprnt_puts. Qed.
