(* ===== verification/PrintfSpec.v ===== *)
(** * What the formatted-output routines compute

    [vsnprintf] stores the rendered characters cut to the buffer, with a NUL;
    a number is printed as its digits with the sign, prefix and padding that
    the flags ask for; a format whose arguments have the types it names does
    not fault.  The theorems at the end are concrete formats on which the
    code departs from its comments or from the C standard. *)

From S2P Require Import Prelude CStr CStrSpec Printf PrintfTrace.

(** ** [vsnprintf] *)

Lemma puts_snprintf out : ∀ pre post rem,
  0 <= rem <= Z.of_nat (length post) →
  let k := (Z.to_nat (rem - 1) `min` length out)%nat in
  puts snprintf_func out (Snp (pre ++ post) (Z.of_nat (length pre)) rem) =
  Ok ((), Snp (pre ++ take k (swrap 8 <$> out) ++ drop k post)
              (Z.of_nat (length pre + k)) (rem - Z.of_nat k)).
Proof.
  induction out as [|c out IH]; intros pre post rem Hrem k.
  { subst k. rewrite Nat.min_0_r, Nat.add_0_r. simpl.
    rewrite drop_0, Z.sub_0_r. done. }
  simpl. rewrite st_bind_unfold. unfold snprintf_func at 1. simpl.
  rewrite Z.geb_leb. destruct (Z.leb_spec 2 rem).
  - destruct post as [|x post]; [simpl in Hrem; lia |]. rewrite wr_mid. simpl.
    rewrite cons_middle, app_assoc.
    replace (Z.of_nat (length pre) + 1) with (Z.of_nat (length (pre ++ [swrap 8 c])))
      by (rewrite length_app; simpl; lia).
    rewrite IH by (simpl in Hrem; lia).
    assert (Hk : k = S (Z.to_nat (rem - 1 - 1) `min` length out)).
    { subst k. replace (Z.to_nat (rem - 1)) with (S (Z.to_nat (rem - 1 - 1))) by lia. done. }
    clearbody k. subst k. simpl. rewrite <- app_assoc, length_app. simpl.
    repeat first [done | lia | f_equal].
  - rewrite IH by lia. assert (Hk : k = 0%nat) by (subst k; lia). rewrite Hk.
    replace (Z.to_nat (rem - 1)) with 0%nat by lia. done.
Qed.

(** The buffer after [cs] and a NUL have been stored at [off] in it. *)
Definition stored_at (buf : list Z) (off : Z) (cs : list Z) : list Z :=
  take (Z.to_nat off) buf ++ stored (drop (Z.to_nat off) buf) cs.

Lemma vsnprintf_spec g buf off size fmt args out :
  render g false fmt args 10 = Ok out →
  0 <= off → 0 <= size → off + size <= Z.of_nat (length buf) →
  vsnprintf g buf off size fmt args =
  Ok (if size =? 0 then buf
      else stored_at buf off (take (Z.to_nat (size - 1)) (swrap 8 <$> out)),
      s32 (Z.of_nat (length out))).
Proof.
  intros Hout Hoff Hsize Hfit. unfold vsnprintf.
  rewrite doprnt_puts, Hout, st_bind_unfold.
  assert (Hsplit : ∃ pre post, buf = pre ++ post ∧ off = Z.of_nat (length pre)).
  { exists (take (Z.to_nat off) buf), (drop (Z.to_nat off) buf).
    rewrite take_drop, length_take. split; [done | lia]. }
  destruct Hsplit as (pre & post & -> & ->). rewrite length_app in Hfit.
  rewrite puts_snprintf by lia. simpl. rewrite Z.geb_leb.
  set (k := (Z.to_nat (size - 1) `min` length out)%nat).
  destruct (Z.eqb_spec size 0) as [->|Hs].
  { by replace k with 0%nat by (subst k; simpl; lia). }
  rewrite (proj2 (Z.leb_le 1 _)) by lia.
  destruct (drop_cons_S post k) as [x ->]; [lia |].
  assert (Hlk : length (take k (swrap 8 <$> out)) = k)
    by (rewrite length_take, length_fmap; lia).
  rewrite app_assoc, wr_at by (rewrite length_app, Hlk; lia). simpl.
  unfold stored_at, stored. rewrite Nat2Z.id, take_app_length, drop_app_length, <- app_assoc.
  replace (take (Z.to_nat (size - 1)) (swrap 8 <$> out)) with (take k (swrap 8 <$> out)).
  { by rewrite Hlk. }
  subst k. rewrite <- (length_fmap (swrap 8) out).
  destruct (Nat.min_spec (Z.to_nat (size - 1)) (length (swrap 8 <$> out))) as [[? ->]|[? ->]];
    [done | by rewrite !take_ge by lia].
Qed.

(** C17: [vsnprintf] stores in the [size] bytes at its destination the first
    [size - 1] rendered characters and a NUL, changes no other byte, stores
    nothing when [size] is 0, and returns the number of characters rendered,
    cut or not. *)
Theorem vsnprintf_correct g buf off size fmt args out :
  render g false fmt args 10 = Ok out →
  0 <= off → 0 <= size → off + size <= Z.of_nat (length buf) →
  vsnprintf g buf off size fmt args =
  Ok (if size =? 0 then buf
      else stored_at buf off (take (Z.to_nat (size - 1)) (swrap 8 <$> out)),
      s32 (Z.of_nat (length out))).
Proof. apply vsnprintf_spec. Qed.

Definition cfg0 : cfg := Cfg false true 18446743523953737728 18446744073709551615.

Lemma vsnprintf_correct_witness :
  vsnprintf cfg0 (chars "????????") 1 5 (lit "%d/%s") [VInt 42; VPtr (Some (lit "xyz"))] =
  Ok (stored_at (chars "????????") 1 (chars "42/x"), 6).
Proof.
  apply (vsnprintf_correct cfg0 (chars "????????") 1 5 (lit "%d/%s")
           [VInt 42; VPtr (Some (lit "xyz"))] (chars "42/xyz"));
    [by vm_compute | done | done | done].
Defined.

(** [scnprintf] into a buffer that is not empty returns the number of
    characters it has stored before the NUL. *)
Lemma scnprintf_stored g buf off size fmt args out :
  render g false fmt args 10 = Ok out → Z.of_nat (length out) < 2 ^ 31 →
  0 <= off → 1 <= size < 2 ^ 31 → off + size <= Z.of_nat (length buf) →
  vscnprintf g buf off size fmt args =
  Ok (stored_at buf off (take (Z.to_nat (size - 1)) (swrap 8 <$> out)),
      Z.of_nat (length (take (Z.to_nat (size - 1)) (swrap 8 <$> out)))).
Proof.
  intros Hout Hlen Hoff Hsize Hfit. unfold vscnprintf.
  rewrite (vsnprintf_spec _ _ _ _ _ _ out) by (done || lia). simpl.
  rewrite (proj2 (Z.eqb_neq size 0)) by lia.
  rewrite (swrap_small 64 size) by (change (2 ^ (64 - 1)) with 9223372036854775808; lia).
  rewrite (swrap_small 32 (Z.of_nat _)), (swrap_small 32 (size - 1))
    by (change (2 ^ (32 - 1)) with 2147483648; lia).
  rewrite length_take, length_fmap, Z.geb_leb. do 2 f_equal.
  destruct (Z.leb_spec size (Z.of_nat (length out))); lia.
Qed.

Lemma scnprintf_stored_witness :
  vscnprintf cfg0 (chars "????????") 0 4 (lit "%u") [VInt 123456] =
  Ok (stored_at (chars "????????") 0 (chars "123"), 3).
Proof.
  apply (scnprintf_stored cfg0 (chars "????????") 0 4 (lit "%u") [VInt 123456] (chars "123456"));
    [by vm_compute | done | done | done | done].
Defined.

(** ** Numbers *)

(** The value of a digit of either case ([-1] for other characters), and of a
    list of digits. *)
Definition digit_value (c : Z) : Z :=
  if (48 <=? c) && (c <=? 57) then c - 48
  else if (65 <=? c) && (c <=? 70) then c - 55
  else if (97 <=? c) && (c <=? 102) then c - 87
  else -1.
Definition from_digits (base : Z) (ds : list Z) : Z :=
  foldl (λ n c, n * base + digit_value c) 0 ds.

(** [ds] is how [u] is written in [base]: every character a digit of the
    base, no leading zero except in ["0"] itself. *)
Definition numeral (base u : Z) (ds : list Z) : Prop :=
  from_digits base ds = u ∧ Forall (λ c, 0 <= digit_value c < base) ds ∧
  ∃ c ds', ds = c :: ds' ∧ (digit_value c = 0 → ds' = []).

Lemma digits_lookup v capitals :
  0 <= v < 16 → capitals = 0 ∨ capitals = 16 →
  ∃ c, rd digits (v + capitals) = Ok c ∧ digit_value c = v.
Proof.
  intros Hv Hcap.
  assert (Hall : Forall (λ v, ∃ c, rd digits (v + capitals) = Ok c ∧ digit_value c = v) (seqZ 0 16)).
  { destruct Hcap as [->| ->]; repeat constructor; eexists; by split. }
  rewrite Forall_forall in Hall. apply Hall. apply elem_of_seqZ. lia.
Qed.

Lemma num_digits_spec room : ∀ u base capitals acc,
  2 <= base <= 16 → capitals = 0 ∨ capitals = 16 → 0 <= u < base ^ Z.of_nat room →
  (0 < room)%nat →
  ∃ ds, num_digits room digits u base capitals acc = Ok (ds ++ acc) ∧ numeral base u ds ∧
    (length ds ≤ room)%nat.
Proof.
  induction room as [|room IH]; intros u base capitals acc Hbase Hcap Hu Hroom; [lia |].
  simpl. rewrite (proj2 (Z.eqb_neq base 0)) by lia.
  destruct (digits_lookup (u mod base) capitals) as (d & Hd & Hval);
    [pose proof (Z.mod_pos_bound u base); lia | done |].
  rewrite Hd. simpl. pose proof (Z.mod_pos_bound u base ltac:(lia)).
  destruct (Z.eqb_spec (u / base) 0) as [H0|Hn].
  - exists [d]. split; [done |]. split; [| simpl; lia]. unfold numeral, from_digits. simpl.
    rewrite Hval. split; [rewrite (Z.div_mod u base) at 2 by lia; lia |].
    split; [repeat constructor; lia | by exists d, []].
  - rewrite Nat2Z.inj_succ, Z.pow_succ_r in Hu by lia.
    assert (room ≠ 0)%nat by (intros ->; apply Hn, Z.div_small; simpl in Hu; lia).
    assert (0 <= u / base < base ^ Z.of_nat room).
    { split; [apply Z.div_pos; lia | apply Z.div_lt_upper_bound; lia]. }
    destruct (IH (u / base) base capitals (d :: acc)) as (ds & -> & (Hfrom & Hall & c & ds' & -> & Hc) & Hlen);
      [done | done | done | lia |].
    exists (c :: ds' ++ [d]). split; [simpl; by rewrite <- app_assoc |].
    split; [| simpl in *; rewrite length_app; simpl; lia]. split.
    + rewrite app_comm_cons. unfold from_digits in *. rewrite foldl_app, Hfrom. simpl.
      rewrite Hval. rewrite (Z.div_mod u base) at 3 by lia. lia.
    + split; [rewrite app_comm_cons; apply Forall_app; split; [done | repeat constructor; lia] |].
      exists c, (ds' ++ [d]). split; [done |]. intros Hz. exfalso. apply Hn.
      rewrite (Hc Hz) in Hfrom. unfold from_digits in Hfrom. simpl in Hfrom. lia.
Qed.

(** Where the padding of a number goes: blanks before everything, zeros after
    the sign and the prefix, or blanks after the digits. *)
Definition num_layout (sp : spec) (sign prefix ds : list Z) : list Z :=
  let fill := Z.to_nat (fs_length sp - Z.of_nat (length (sign ++ prefix ++ ds))) in
  let zero := fs_padc sp =? 48 in
  let left := negb zero && negb (fs_ladjust sp) in
  let right := negb zero && fs_ladjust sp in
  (if left then replicate fill 32 else []) ++ sign ++ prefix ++
  (if zero then replicate fill 48 else []) ++ ds ++
  (if right then replicate fill 32 else []).

(** The prefix of the alternate form. *)
Definition num_prefix (sp : spec) (u base : Z) : list Z :=
  if negb (u =? 0) && fs_alt sp
  then if base =? 8 then chars "0" else if base =? 16 then chars "0x" else []
  else [].

Lemma emit_record cs l : emit record cs l = Ok (Z.of_nat (length cs), l ++ cs).
Proof.
  revert l. induction cs as [|c cs IH]; intros l; simpl; [by rewrite app_nil_r |].
  rewrite st_bind_unfold. simpl. rewrite st_bind_unfold, IH. simpl.
  rewrite <- app_assoc. unfold mret, st_ret. repeat first [done | lia | f_equal].
Qed.

Lemma pad_record (b : bool) c n l :
  (if b then pad record c n else mret 0) l =
  Ok (Z.of_nat (length (if b then replicate (Z.to_nat n) c else [])),
      l ++ (if b then replicate (Z.to_nat n) c else [])).
Proof. destruct b; [apply emit_record |]. simpl. by rewrite app_nil_r. Qed.

Lemma num_prefix_length sp u base : (length (num_prefix sp u base) ≤ 2)%nat.
Proof. unfold num_prefix. repeat case_match; simpl; lia. Qed.

Lemma to_nat_padded n : Z.to_nat (padded n) = 0%nat.
Proof. unfold padded. rewrite Z.geb_leb. destruct (Z.leb_spec 0 n); lia. Qed.

Lemma print_num_spec g is_log sp u base capitals sign_char l :
  doprnt_hide_pointers g && is_log = false →
  2 <= base <= 16 → capitals = 0 ∨ capitals = 16 → in_u 64 u →
  0 <= fs_length sp < 2 ^ 31 → fs_padc sp = 32 ∨ fs_padc sp = 48 →
  let sign := if sign_char =? 0 then [] else [sign_char] in
  ∃ ds, numeral base u ds ∧
    let out := num_layout sp sign (num_prefix sp u base) ds in
    print_num record g is_log sp u base capitals sign_char false l =
    Ok (Z.of_nat (length out), l ++ out).
Proof.
  intros Hlog Hbase Hcap Hu Hlen Hpad sign. unfold print_num. rewrite Hlog. cbn [andb].
  destruct (num_digits_spec MAXBUF u base capitals [] Hbase Hcap) as (ds & Hds & Hnum & Hl).
  { destruct Hu. split; [done |]. apply Z.lt_le_trans with (2 ^ 64); [done |].
    apply Z.pow_le_mono_l. lia. }
  { unfold MAXBUF. lia. }
  exists ds. split; [done |]. rewrite app_nil_r in Hds. fold (num_prefix sp u base).
  fold sign. rewrite st_bind_unfold. unfold lift. rewrite Hds.
  assert (Hsign : (length sign ≤ 1)%nat) by (subst sign; destruct (_ =? _); simpl; lia).
  assert (Hpre := num_prefix_length sp u base). unfold MAXBUF in Hl.
  set (W := s32 _).
  assert (HW : W = fs_length sp - Z.of_nat (length (sign ++ num_prefix sp u base ++ ds))).
  { subst W. rewrite swrap_small, !length_app by (change (2 ^ (32 - 1)) with 2147483648; lia). lia. }
  clearbody W. unfold num_layout. rewrite <- HW. clear HW.
  repeat (rewrite st_bind_unfold, ?pad_record, ?emit_record; cbv beta iota).
  destruct Hpad as [->| ->], (fs_ladjust sp); cbn [Z.eqb Pos.eqb negb andb];
    rewrite ?to_nat_padded; unfold mret, st_ret;
    rewrite ?app_nil_r, ?length_app, <- ?app_assoc; simpl;
    repeat first [done | lia | f_equal].
Qed.

(** A number in any base up to 16 is printed as its only numeral, with
    the sign and the prefix before it, filled to the width by blanks on the
    left, by zeros between prefix and digits, or by blanks on the right as
    the flags say; the count returned is the number of characters put. *)
Lemma print_num_exact g is_log sp u base capitals sign_char l :
  doprnt_hide_pointers g && is_log = false →
  2 <= base <= 16 → capitals = 0 ∨ capitals = 16 → in_u 64 u →
  0 <= fs_length sp < 2 ^ 31 → fs_padc sp = 32 ∨ fs_padc sp = 48 →
  let sign := if sign_char =? 0 then [] else [sign_char] in
  ∃ ds, numeral base u ds ∧
    let out := num_layout sp sign (num_prefix sp u base) ds in
    print_num record g is_log sp u base capitals sign_char false l =
    Ok (Z.of_nat (length out), l ++ out).
Proof. apply print_num_spec. Qed.

Lemma print_num_exact_witness :
  let sp := Spec 8 (-1) false 48 43 true false INT in
  ∃ ds, numeral 16 48879 ds ∧
    let out := num_layout sp [43] (chars "0x") ds in
    print_num record cfg0 false sp 48879 16 16 43 false [] = Ok (Z.of_nat (length out), [] ++ out).
Proof.
  intros sp. apply (print_num_exact cfg0 false sp 48879 16 16 43 []);
    [done | lia | by right | done | done | by right].
Defined.

(** ** Well-typed formats *)

(** A format as the language has it, apart from the code that reads it: a list
    of characters and of directives.  A directive has flags, a [0], a width and
    a precision, which may be arguments, a size and a conversion. *)
Inductive amount := Fixed (ds : list Z) | Star.
Inductive modifier := SizeNone | SizeH | SizeHH | SizeL | SizeLL | SizeQ | SizeBigL | SizeZ | SizeBigZ.
Record dir := Dir { d_flags : list Z; d_zero : bool; d_width : amount; d_prec : option amount; d_size : modifier; d_conv : Z }.
Inductive piece := Literal (c : Z) | Directive (d : dir).

Definition amount_text (a : amount) : list Z := match a with Fixed ds => ds | Star => chars "*" end.
Definition size_text (s : modifier) : list Z :=
  match s with
  | SizeNone => [] | SizeH => chars "h" | SizeHH => chars "hh" | SizeL => chars "l" | SizeLL => chars "ll"
  | SizeQ => chars "q" | SizeBigL => chars "L" | SizeZ => chars "z" | SizeBigZ => chars "Z"
  end.
Definition prec_text (a : option amount) : list Z := match a with Some a => 46 :: amount_text a | None => [] end.
Definition dir_text (d : dir) : list Z :=
  d_flags d ++ (if d_zero d then [48] else []) ++ amount_text (d_width d) ++ prec_text (d_prec d) ++ size_text (d_size d) ++ [d_conv d].
Definition piece_text (p : piece) : list Z := match p with Literal c => [c] | Directive d => 37 :: dir_text d end.

(** The sizes whose arguments have 64 bits. *)
Definition wide (s : modifier) : bool := match s with SizeNone | SizeH | SizeHH => false | _ => true end.

(** The arguments left after a width or a precision, and after a conversion:
    numbers of the size, pointers for [%p], and null or a terminated string for
    [%s].  [%b], [%B] and [%D] read encodings of their own and are left out. *)
Definition amount_args (a : amount) (args : list va) : option (list va) :=
  match a, args with
  | Fixed _, args => Some args
  | Star, VInt _ :: args => Some args
  | Star, _ => None
  end.
Definition conv_args (c : Z) (long : bool) (args : list va) : option (list va) :=
  if c =? 99 then match args with VInt _ :: args => Some args | _ => None end
  else if c =? 115 then
    match args with
    | VPtr None :: args => Some args
    | VPtr (Some p) :: args => if bool_decide (0 ∈ p) then Some args else None
    | _ => None
    end
  else if c =? 112 then match args with VLong _ :: args => Some args | _ => None end
  else if existsb (Z.eqb c) (chars "oOdiuUxXrRnN") then
    if long
    then match args with VLong _ :: args => Some args | _ => None end
    else match args with VInt _ :: args => Some args | _ => None end
  else if c =? 37 then Some args else None.
Definition dir_args (d : dir) (args : list va) : option (list va) :=
  args ← amount_args (d_width d) args;
  args ← match d_prec d with Some a => amount_args a args | None => Some args end;
  conv_args (d_conv d) (wide (d_size d)) args.

Definition is_flag (c : Z) : bool := existsb (Z.eqb c) (chars "#-+ ").
Definition number_ok (a : amount) : Prop := match a with Fixed ds => Forall (λ c, isdigit c = true) ds | Star => True end.

(** Flags and numbers are made of the characters they should be, and a width
    does not begin with 0, which is a flag. *)
Definition dir_ok (d : dir) : Prop :=
  Forall (λ c, is_flag c = true) (d_flags d) ∧ number_ok (d_width d) ∧
  (∀ ds, d_width d = Fixed ds → head ds ≠ Some 48) ∧ match d_prec d with Some a => number_ok a | None => True end.

(** The directives find arguments of the types they name; there may be more
    arguments. *)
Fixpoint typed (ps : list piece) (args : list va) : Prop :=
  match ps with
  | [] => True
  | Literal c :: ps => c ≠ 0 ∧ c ≠ 37 ∧ typed ps args
  | Directive d :: ps => dir_ok d ∧ match dir_args d args with Some args => typed ps args | None => False end
  end.

(** *** Reading a directive back *)

(** A character at which flags and numbers end. *)
Definition stops (c : Z) : bool := negb (is_flag c || isdigit c || (c =? 42) || (c =? 46)).
Definition stopped (p : list Z) : Prop := ∃ c t, p = c :: t ∧ stops c = true.

Lemma stops_not c : stops c = true → is_flag c = false ∧ isdigit c = false ∧ c ≠ 42 ∧ c ≠ 46.
Proof. unfold stops. rewrite negb_true_iff, !orb_false_iff, !Z.eqb_neq. tauto. Qed.

Lemma digit_not_flag c : isdigit c = true → is_flag c = false.
Proof.
  intros H. change (is_flag c) with ((c =? 35) || ((c =? 45) || ((c =? 43) || ((c =? 32) || false)))). unfold isdigit in H. lia.
Qed.

Lemma conv_args_conv c long args rest : conv_args c long args = Some rest → c ∈ chars "csoOdiuUpxXrRnN%".
Proof.
  unfold conv_args. let l := eval vm_compute in (chars "oOdiuUxXrRnN") in change (chars "oOdiuUxXrRnN") with l.
  cbn [existsb]. repeat match goal with |- context [c =? ?k] => destruct (Z.eqb_spec c k) as [->|?]; [intros _; compute_done |] end.
  done.
Qed.

Lemma size_stopped s c rest : c ∈ chars "csoOdiuUpxXrRnN%" → stopped (size_text s ++ c :: rest).
Proof.
  intros Hc. destruct s; try (eexists _, _; split; [reflexivity | by vm_compute]). exists c, rest. split; [done |]. revert Hc.
  let l := eval vm_compute in (chars "csoOdiuUpxXrRnN%") in change (chars "csoOdiuUpxXrRnN%") with l. intros Hc. set_unfold in Hc. by destruct_or! Hc; subst.
Qed.

Lemma parse_size_text s c rest : c ∈ chars "csoOdiuUpxXrRnN%" → ∃ ty, parse_size (size_text s ++ c :: rest) = Ok (c :: rest, wide s, ty).
Proof.
  let l := eval vm_compute in (chars "csoOdiuUpxXrRnN%") in change (chars "csoOdiuUpxXrRnN%") with l. intros Hc. set_unfold in Hc.
  destruct_or! Hc; subst; destruct s; eexists; reflexivity.
Qed.

Lemma flags_loop_text fs : ∀ p l a s, Forall (λ c, is_flag c = true) fs → (∃ c t, p = c :: t ∧ is_flag c = false) →
  ∃ l' a' s', flags_loop (fs ++ p) l a s = Ok (p, l', a', s').
Proof.
  assert (Hf : ∀ c, is_flag c = (c =? 35) || ((c =? 45) || ((c =? 43) || ((c =? 32) || false)))) by done.
  induction fs as [|f fs IH]; intros p l a s Hfs Hp; cbn [app].
  - destruct Hp as (c & t & -> & Hc). rewrite Hf, !orb_false_iff in Hc. destruct Hc as (E1 & E2 & E3 & E4 & _). cbn [flags_loop]. rewrite E1, E2, E3, E4. eauto.
  - apply Forall_cons in Hfs as [Hc Hfs]. rewrite Hf in Hc. cbn [flags_loop]. destruct (f =? 35); [by apply IH |]. destruct (f =? 45); [by apply IH |]. destruct (f =? 43); [by apply IH |].
    destruct (f =? 32); [by apply IH | done].
Qed.

Lemma number_loop_text ds : ∀ p n, Forall (λ c, isdigit c = true) ds → (∃ c t, p = c :: t ∧ isdigit c = false) → ∃ n', number_loop (ds ++ p) n = Ok (p, n').
Proof.
  induction ds as [|d ds IH]; intros p n Hds Hp; cbn [app].
  - destruct Hp as (c & t & -> & Hc). cbn [number_loop]. rewrite Hc. eauto.
  - apply Forall_cons in Hds as [Hd Hds]. cbn [number_loop]. rewrite Hd. by apply IH.
Qed.

Lemma parse_width_text a p args rest l : number_ok a → amount_args a args = Some rest → (∃ c t, p = c :: t ∧ isdigit c = false ∧ c ≠ 42) →
  ∃ n l', parse_width (amount_text a ++ p) args l = Ok (p, rest, n, l').
Proof.
  intros Hn Ha (c & t & -> & Hd & H42). destruct a as [[|d ds]|]; cbn in Hn, Ha.
  - injection Ha as ->. cbn [amount_text app]. unfold parse_width. cbn. rewrite Hd, (proj2 (Z.eqb_neq _ _) H42). eauto.
  - injection Ha as ->. destruct (number_loop_text (d :: ds) (c :: t) 0 Hn ltac:(by eexists _, _)) as [n Hl]. apply Forall_cons in Hn as [Hd' _].
    unfold parse_width. cbn [amount_text app next mbind res_bind] in *. rewrite Hd'. cbn [mbind res_bind]. rewrite Hl. cbn. eauto.
  - destruct args as [|[z| |] args]; simplify_eq. unfold parse_width. cbn. destruct (s32 z <? 0); eauto.
Qed.

Lemma parse_prec_text a p args rest : match a with Some a => number_ok a | None => True end → match a with Some a => amount_args a args | None => Some args end = Some rest →
  (∃ c t, p = c :: t ∧ isdigit c = false ∧ c ≠ 42 ∧ c ≠ 46) → ∃ n, parse_prec (prec_text a ++ p) args = Ok (p, rest, n).
Proof.
  intros Hn Ha (c & t & -> & Hd & H42 & H46). destruct a as [[[|d ds]|]|]; cbn in Hn, Ha.
  - injection Ha as ->. unfold parse_prec. cbn. rewrite Hd, (proj2 (Z.eqb_neq _ _) H42). eauto.
  - injection Ha as ->. destruct (number_loop_text (d :: ds) (c :: t) 0 Hn ltac:(by eexists _, _)) as [n Hl]. apply Forall_cons in Hn as [Hd' _].
    unfold parse_prec. cbn [prec_text amount_text app next mbind res_bind Z.eqb Pos.eqb] in *. rewrite Hd'. cbn [mbind res_bind]. rewrite Hl. cbn. eauto.
  - destruct args as [|[z| |] args]; simplify_eq. unfold parse_prec. cbn. eauto.
  - injection Ha as ->. unfold parse_prec. cbn. rewrite (proj2 (Z.eqb_neq _ _) H46). eauto.
Qed.

(** The code reads a directive as it was written. *)
Lemma directive_text d args rest p : dir_ok d → dir_args d args = Some rest →
  ∃ sp args', directive (dir_text d ++ p) args = Ok (d_conv d :: p, args', sp) ∧ conv_args (d_conv d) (fs_long_long sp) args' = Some rest.
Proof.
  intros (Hfl & Hw & Hw0 & Hp) Ha. unfold dir_args in Ha. apply bind_Some in Ha as (a1 & Ha1 & (a2 & Ha2 & Hc)%bind_Some). pose proof (conv_args_conv _ _ _ _ Hc) as Hconv.
  unfold dir_text. rewrite <- !app_assoc. cbn [app]. set (q3 := size_text (d_size d) ++ d_conv d :: p). set (q2 := prec_text (d_prec d) ++ q3).
  destruct (size_stopped (d_size d) (d_conv d) p Hconv) as (c3 & t3 & E3 & (Hf3 & Hd3 & H42 & H46)%stops_not). fold q3 in E3.
  assert (H2 : ∃ c t, q2 = c :: t ∧ is_flag c = false ∧ isdigit c = false ∧ c ≠ 42).
  { unfold q2. destruct (d_prec d); [eexists _, _; by split | rewrite E3; by exists c3, t3]. }
  set (q1 := amount_text (d_width d) ++ q2). assert (H1 : ∃ c t, (if d_zero d then [48] else []) ++ q1 = c :: t ∧ is_flag c = false ∧ (d_zero d = false → c ≠ 48)).
  { destruct (d_zero d); [by exists 48, q1 |]. cbn [app]. unfold q1. destruct (d_width d) as [[|x ds]|] eqn:Ew; cbn [amount_text].
    - destruct H2 as (c & t & -> & ? & Hd & _). exists c, t. split; [done |]. split; [done |]. intros _ ->. by vm_compute in Hd.
    - exists x, (ds ++ q2). apply Forall_cons in Hw as [Hx _]. split; [done |]. split; [by apply digit_not_flag |]. intros _ ->. by apply (Hw0 (48 :: ds)).
    - by exists 42, q2. }
  destruct H1 as (c1 & t1 & E1 & Hf1 & H48). unfold directive.
  destruct (flags_loop_text (d_flags d) (c1 :: t1) false false 0 Hfl ltac:(by eexists _, _)) as (l & a & s & Hl). rewrite E1, Hl. cbn [mbind res_bind next].
  assert (Hz : ∃ padc, (if c1 =? 48 then (48, t1) else (32, c1 :: t1)) = (padc, q1)).
  { destruct (d_zero d); cbn [app] in E1; [injection E1 as <- <-; eauto |]. rewrite (proj2 (Z.eqb_neq _ _)) by auto. rewrite E1. eauto. }
  destruct Hz as [padc ->]. destruct (parse_width_text (d_width d) q2 args a1 l Hw Ha1) as (n & l' & Hwd); [destruct H2 as (c & t & -> & ? & ? & ?); eauto |].
  unfold q1. rewrite Hwd. cbn [mbind res_bind]. destruct (parse_prec_text (d_prec d) q3 a1 a2 Hp Ha2) as (m & Hpr); [rewrite E3; eauto 6 |].
  unfold q2. rewrite Hpr. cbn [mbind res_bind]. destruct (parse_size_text (d_size d) (d_conv d) p Hconv) as [ty Hsz]. unfold q3. rewrite Hsz. cbn. eauto.
Qed.

(** [m] does not fault while recording, and its value satisfies [P]. *)
Definition total {A} (m : st (list Z) A) (P : A → Prop) : Prop :=
  ∀ l, ∃ a l', m l = Ok (a, l') ∧ P a.

Lemma total_ret {A} (a : A) (P : A → Prop) : P a → total (mret a) P.
Proof. intros H l. by exists a, l. Qed.

Lemma total_bind {A B} (m : st (list Z) A) (k : A → st (list Z) B) P Q :
  total m P → (∀ a, P a → total (k a) Q) → total (m ≫= k) Q.
Proof.
  intros Hm Hk l. rewrite st_bind_unfold. destruct (Hm l) as (a & l1 & -> & Ha).
  by apply Hk.
Qed.

Lemma total_lift {A} (m : res A) a (P : A → Prop) : m = Ok a → P a → total (lift m) P.
Proof. intros -> H l. by exists a, l. Qed.

Lemma total_putc c : total (record c) (λ _, True).
Proof. intros l. eexists _, _. by split. Qed.

Lemma total_emit cs : total (emit record cs) (λ _, True).
Proof. intros l. rewrite emit_record. eexists _, _. by split. Qed.

Lemma total_pad (b : bool) c n : total (if b then pad record c n else mret 0) (λ _, True).
Proof. intros l. rewrite pad_record. eexists _, _. by split. Qed.

#[local] Hint Resolve total_putc total_emit total_pad : tr.

(** Follows the code; every step is in the database. *)
Ltac total_step :=
  match goal with
  | |- total (mret _) _ => by apply total_ret
  | |- total (_ ≫= _) _ => eapply total_bind; [solve [eauto with tr nocore] | intros ? _; cbv beta]
  | |- total (let _ := _ in _) _ => cbv zeta
  end.

Lemma total_print_num g is_log sp u base capitals sign_char truncate :
  2 <= base <= 16 → capitals = 0 ∨ capitals = 16 → in_u 64 u →
  total (print_num record g is_log sp u base capitals sign_char truncate) (λ _, True).
Proof.
  intros Hbase Hcap Hu. unfold print_num.
  assert (Hu' : in_u 64 (if truncate then u64 (s32 u) else u)).
  { destruct truncate; [by apply wrap_in_u | done]. }
  revert Hu'. generalize (if truncate then u64 (s32 u) else u). clear u Hu. intros u Hu.
  destruct (_ && _); [apply total_emit |].
  destruct (num_digits_spec MAXBUF u base capitals [] Hbase Hcap) as (ds & Hds & _ & _).
  { destruct Hu. split; [done |]. apply Z.lt_le_trans with (2 ^ 64); [done |].
    apply Z.pow_le_mono_l. lia. }
  { unfold MAXBUF. lia. }
  eapply total_bind; [by apply (total_lift _ _ (λ _, True) Hds) |]. intros buf _.
  repeat total_step.
Qed.

Lemma total_conv_unsigned g is_log sp base capitals truncate args a rest :
  2 <= base <= 16 → capitals = 0 ∨ capitals = 16 →
  args = a :: rest → (if fs_long_long sp then ∃ z, a = VLong z else ∃ z, a = VInt z) →
  total (conv_unsigned record g is_log sp base capitals truncate args) (λ r, r.2 = rest).
Proof.
  intros Hbase Hcap -> Ha. unfold conv_unsigned.
  assert (∃ u, get_unsigned sp (a :: rest) = Ok (u, rest) ∧ in_u 64 u) as (u & Hget & Hu).
  { unfold get_unsigned. destruct (fs_long_long sp); destruct Ha as [z ->]; simpl;
      eexists; (split; [done |]); destruct (fs_type sp);
      match goal with |- in_u 64 (wrap ?w ?x) => pose proof (wrap_in_u w x ltac:(lia)) end;
      unfold in_u in *; lia. }
  eapply total_bind.
  { apply (total_lift _ _ (λ r, r = (u, rest)) Hget eq_refl). }
  intros ? ->. eapply total_bind; [by apply total_print_num |]. intros k _. by apply total_ret.
Qed.

Lemma total_conv_signed g is_log sp base truncate args a rest :
  2 <= base <= 16 →
  args = a :: rest → (if fs_long_long sp then ∃ z, a = VLong z else ∃ z, a = VInt z) →
  total (conv_signed record g is_log sp base truncate args) (λ r, r.2 = rest).
Proof.
  intros Hbase -> Ha. unfold conv_signed.
  assert (∃ n, get_signed sp (a :: rest) = Ok (n, rest) ∧ n < 2 ^ 64) as (n & Hget & Hn).
  { unfold get_signed. destruct (fs_long_long sp); destruct Ha as [z ->]; simpl;
      eexists; (split; [done |]); destruct (fs_type sp);
      match goal with |- swrap ?w ?x < _ => pose proof (swrap_lt w x ltac:(lia)) end; lia. }
  eapply total_bind.
  { apply (total_lift _ _ (λ r, r = (n, rest)) Hget eq_refl). }
  intros ? ->. rewrite Z.geb_leb. eapply (total_bind _ _ (λ _, True)).
  - destruct (Z.leb_spec 0 n); apply total_print_num; auto; [by split | by apply wrap_in_u].
  - intros k _. by apply total_ret.
Qed.

Lemma str_count_total p n prec : 0 ∈ p → ∃ k, str_count p n prec = Ok k.
Proof.
  revert n. induction p as [|c p IH]; intros n Hp; [set_solver |]. simpl.
  destruct (Z.eqb_spec c 0); simpl; [eauto |]. destruct (n <? prec); [| eauto].
  apply IH. set_solver.
Qed.

Lemma total_str_out p prec len : ∀ n, 0 ∈ p → total (str_out record p n prec len) (λ _, True).
Proof.
  induction p as [|c p IH]; intros n Hp; [set_solver |]. simpl.
  destruct (_ && _); [| by apply total_ret].
  destruct (Z.eqb_spec c 0); [by apply total_ret |].
  eapply total_bind; [apply total_putc |]. intros _ _. apply IH. set_solver.
Qed.

Lemma total_conv_str sp p rest :
  0 ∈ default (lit "") p → total (conv_str record sp (VPtr p :: rest)) (λ r, r.2 = rest).
Proof.
  intros Hp. unfold conv_str. eapply total_bind.
  { by apply (total_lift _ (p, rest) (λ r, r = (p, rest))). }
  intros ? ->. eapply (total_bind _ _ (λ _, True)).
  { destruct (_ && _); [| by apply total_ret].
    destruct (str_count_total (default (lit "") p) 0
      (if fs_prec sp =? -1 then 2147483647 else fs_prec sp) Hp) as [k Hk].
    eapply total_bind; [by apply (total_lift _ _ (λ _, True) Hk) |]. intros n _.
    apply (total_pad true). }
  intros l _. eapply total_bind; [by apply total_str_out |]. intros n _.
  eapply total_bind; [apply total_pad |]. intros r _. by apply total_ret.
Qed.

(** The argument that a numeric conversion takes. *)
Lemma numeric_arg (ll : bool) args rest :
  (if ll then match args with VLong _ :: args => Some args | _ => None end
   else match args with VInt _ :: args => Some args | _ => None end) = Some rest →
  ∃ a, args = a :: rest ∧ (if ll then ∃ z, a = VLong z else ∃ z, a = VInt z).
Proof. destruct ll; intros H; repeat case_match; simplify_eq; eauto. Qed.

Lemma total_conv g is_log radix c sp args rest :
  2 <= radix <= 16 → conv_args c (fs_long_long sp) args = Some rest →
  total (conv record g is_log radix c sp args) (λ r, r.2 = rest).
Proof.
  intros Hradix. unfold conv_args, conv.
  let l := eval vm_compute in (chars "oOdiuUxXrRnN") in
    change (chars "oOdiuUxXrRnN") with l.
  repeat match goal with
  | |- context [c =? ?k] => destruct (Z.eqb_spec c k) as [->|?]
  end; cbn [Z.eqb Pos.eqb orb existsb]; intros Hargs; try done.
  all: try (apply numeric_arg in Hargs as (a & -> & Ha);
    first [eapply total_conv_unsigned | eapply total_conv_signed]; eauto with lia).
  - destruct args as [|[z| |] args]; simplify_eq. eapply total_bind.
    { by apply (total_lift _ (s32 z, rest) (λ r, r = (s32 z, rest))). }
    intros ? ->. eapply total_bind; [apply total_putc |]. intros _ _. by apply total_ret.
  - destruct args as [|[| |p] args]; simplify_eq.
    destruct p as [p|]; [case_bool_decide |]; simplify_eq; apply total_conv_str; [done | compute_done].
  - destruct args as [|[|z|] args]; simplify_eq.
    eapply total_conv_unsigned; [lia | by left | done | simpl; eauto].
  - simplify_eq. eapply total_bind; [apply total_putc |]. intros _ _. by apply total_ret.
  - by rewrite !(proj2 (Z.eqb_neq c _)) in Hargs by done.
Qed.

Lemma total_doprnt_loop g is_log radix ps t : 2 <= radix <= 16 → ∀ fuel args n, typed ps args → (length (concat (map piece_text ps)) < fuel)%nat →
  total (doprnt_loop record g is_log fuel radix (concat (map piece_text ps) ++ 0 :: t) args n) (λ _, True).
Proof.
  intros Hradix. induction ps as [|[c|d] ps IH]; intros fuel args n Hok Hfuel; (destruct fuel as [|fuel]; [lia |]); cbn [map concat] in *.
  - eapply total_bind; [by apply (total_lift _ (0, t) (λ r, r = (0, t))) |]. intros ? ->. by apply total_ret.
  - destruct Hok as (Hc0 & Hc & Hok). cbn [piece_text app length] in *. cbn [doprnt_loop]. eapply total_bind; [by apply (total_lift _ (c, concat (map piece_text ps) ++ 0 :: t) (λ r, r = (c, concat (map piece_text ps) ++ 0 :: t))) |].
    intros ? ->. rewrite (proj2 (Z.eqb_neq _ _) Hc0), (proj2 (Z.eqb_neq _ _) Hc). cbn [negb]. eapply total_bind; [apply total_putc |]. intros _ _. apply IH; [done | lia].
  - destruct Hok as [Hd Hok]. destruct (dir_args d args) as [rest|] eqn:Ha; [| done]. cbn [piece_text app length] in *. rewrite length_app in Hfuel. rewrite <- app_assoc. cbn [doprnt_loop].
    set (p := concat (map piece_text ps) ++ 0 :: t). destruct (directive_text d args rest p Hd Ha) as (sp & args' & Hdir & Hconv).
    eapply total_bind; [by apply (total_lift _ (37, dir_text d ++ p) (λ r, r = (37, dir_text d ++ p))) |]. intros ? ->. cbn [Z.eqb Pos.eqb negb].
    eapply total_bind; [by apply (total_lift _ _ (λ r, r = (d_conv d :: p, args', sp)) Hdir) |]. intros ? ->.
    eapply total_bind; [by apply (total_lift _ (d_conv d, p) (λ r, r = (d_conv d, p))) |]. intros ? ->.
    eapply total_bind; [by apply total_conv |]. intros [k args''] Hk. cbn in Hk. subst args''.
    assert (d_conv d ≠ 0) as Hz%Z.eqb_neq by (intros E; apply conv_args_conv in Hconv; rewrite E in Hconv; vm_compute in Hconv; set_unfold in Hconv; lia). rewrite Hz. apply IH; [done | lia].
Qed.

(** C24: a format made of characters and of the directives [c], [s], [d], [i],
    [u], [U], [o], [O], [x], [X], [p], [r], [R], [n], [N] and [%], with any
    flags, widths, precisions and sizes, that finds arguments of the types it
    names, strings being terminated, never makes [__doprnt] read past the
    format, a string or a digit table: it renders a text, for every setting of
    the globals and every radix but those from 17 to 36.  [%b], [%B] and [%D]
    are not covered; [register_formats] has a [%B] that is out of range. *)
Theorem doprnt_well_typed g is_log ps t args radix :
  radix <= 16 ∨ 36 < radix → typed ps args →
  ∃ out, render g is_log (concat (map piece_text ps) ++ 0 :: t) args radix = Ok out.
Proof.
  intros Hradix Hok. unfold render, doprnt. set (r := if _ : bool then 10 else radix).
  assert (Hr : 2 <= r <= 16) by (unfold r; rewrite Z.gtb_ltb; destruct (Z.ltb_spec radix 2), (Z.ltb_spec 36 radix); cbn [orb]; lia).
  destruct (total_doprnt_loop g is_log r ps t Hr (length (concat (map piece_text ps) ++ 0 :: t)) args 0 Hok ltac:(rewrite length_app; cbn; lia) [])
    as (k & out & -> & _). by exists out.
Qed.

(** The format ["%d: %-8s %#0*.4llx%%"]. *)
Definition pieces_demo : list piece :=
  [Directive (Dir [] false (Fixed []) None SizeNone 100); Literal 58; Literal 32;
   Directive (Dir [45] false (Fixed [56]) None SizeNone 115); Literal 32;
   Directive (Dir [35] true Star (Some (Fixed [52])) SizeLL 120); Directive (Dir [] false (Fixed []) None SizeNone 37)].

Lemma doprnt_well_typed_witness :
  ∃ out, render cfg0 true (lit "%d: %-8s %#0*.4llx%%") [VInt 42; VPtr (Some (lit "launchd")); VInt 12; VLong 4096] 10 = Ok out.
Proof.
  apply (doprnt_well_typed cfg0 true pieces_demo [] [VInt 42; VPtr (Some (lit "launchd")); VInt 12; VLong 4096] 10); [lia |].
  unfold pieces_demo, typed. assert (Hnil : ∀ ds, Fixed [] = Fixed ds → head ds ≠ Some 48) by (intros ds [= <-]; done).
  assert (Height : ∀ ds, Fixed [56] = Fixed ds → head ds ≠ Some 48) by (intros ds [= <-]; done).
  split; [split_and!; [constructor | constructor | exact Hnil | done] |]. cbn -[lit conv_args]. split; [done |]. split; [done |]. split; [done |]. split; [done |].
  split; [split_and!; [by repeat constructor | by repeat constructor | exact Height | done] |]. cbn. split; [done |]. split; [done |].
  split; [split_and!; [by repeat constructor | done | done | by repeat constructor] |]. cbn. split; [split_and!; [constructor | constructor | exact Hnil | done] | done].
Defined.

(** ** Departures *)

(** A field width cuts a string that is longer than it, on either side,
    where the C standard has the width only pad. *)
Lemma width_truncates_string :
  render cfg0 false (lit "%4s|%-4s|") [VPtr (Some (lit "launchd")); VPtr (Some (lit "launchd"))] 10
  = Ok (chars "laun|laun|").
Proof. by vm_compute. Qed.

(** With a width, a precision does not keep [%s] from reading the
    character after the precision's last: an array of four characters printed
    with ["%8.4s"] is read at index 4; without the width it is not. *)
Lemma precision_reads_past_array :
  render cfg0 false (lit "%8.4s") [VPtr (Some (chars "HFS+"))] 10 = Fault ∧
  render cfg0 false (lit "%.4s") [VPtr (Some (chars "HFS+"))] 10 = Ok (chars "HFS+").
Proof. by vm_compute. Qed.

(** The register formats.  The second example of the file's comment
    prints ["13<FIELD1=2,BITTWO,BITONE>"] and not the text the comment gives,
    and a [%B] field that ends at bit 32, the least significant one, shifts
    by a negative amount. *)
Lemma register_formats :
  render cfg0 false (lit "%b")
    [VInt 3; VPtr (Some (8 :: 2 :: chars "BITTWO" ++ 1 :: lit "BITONE"))] 10
  = Ok (chars "3<BITTWO,BITONE>") ∧
  render cfg0 false (lit "%b")
    [VInt 11; VPtr (Some (8 :: 4 :: 3 :: chars "FIELD1=" ++ 2 :: chars "BITTWO" ++ 1 :: lit "BITONE"))] 10
  = Ok (chars "13<FIELD1=2,BITTWO,BITONE>") ∧
  render cfg0 false (lit "%B") [VInt 5; VPtr (Some (16 :: 29 :: 32 :: lit "LOW="))] 10 = Fault.
Proof. by vm_compute. Qed.
