(* ===== verification/KextVersion.v ===== *)
(** * Kernel extension versions

    [libkern/OSKextVersion.c]: the parser of version strings such as
    ["10.4.2b3"], which encodes them as numbers, and the printer of encoded
    versions.  The strings are pointers as in [CStr], and the printer calls
    the string and formatting routines of [CStr] and [Printf]. *)

From S2P Require Import Prelude CStr Printf.

Definition VERS_MAJOR_DIGITS : nat := 4.
Definition VERS_MINOR_DIGITS : nat := 4.
Definition VERS_REVISION_DIGITS : nat := 4.
Definition VERS_STAGE_LEVEL_DIGITS : nat := 3.
Definition VERS_MAJOR_MAX : Z := 9999.
Definition VERS_STAGE_LEVEL_MAX : Z := 255.
Definition VERS_MAJOR_MULT : Z := 1000000000000.
Definition VERS_MINOR_MULT : Z := 100000000.
Definition VERS_REVISION_MULT : Z := 10000.
Definition VERS_STAGE_MULT : Z := 1000.
Definition kOSKextVersionMaxLength : Z := 20.

(** [OSKextVersionStage] *)
Definition kOSKextVersionStageInvalid : Z := 0.
Definition kOSKextVersionStageDevelopment : Z := 1.
Definition kOSKextVersionStageAlpha : Z := 3.
Definition kOSKextVersionStageBeta : Z := 5.
Definition kOSKextVersionStageCandidate : Z := 7.
Definition kOSKextVersionStageRelease : Z := 9.

Definition vers_isdigit (c : Z) : bool := existsb (Z.eqb c) (chars "0123456789").

(** Space, tab, carriage return and line feed. *)
Definition vers_isspace (c : Z) : bool :=
  (c =? 32) || (c =? 9) || (c =? 13) || (c =? 10).

Definition vers_digit_for_char (c : Z) : Z :=
  match c with
  | 48 => 0 | 49 => 1 | 50 => 2 | 51 => 3 | 52 => 4
  | 53 => 5 | 54 => 6 | 55 => 7 | 56 => 8 | 57 => 9
  | _ => -1
  end.

Definition VERS_isreleasestate (c : Z) : bool := existsb (Z.eqb c) (chars "dabf").

(** [__vers_isspace(c) || c == '\0'] *)
Definition vers_end (c : Z) : bool := vers_isspace c || (c =? 0).

(** ** Parsing *)

(** [__OSKextVersionStageForString]: the stage and the pointer after it.  The
    letters are ['d'], ['a'], ['b'], ['f'] and the ['c'] of ["fc"]; a
    character of the string is read only after the one before it. *)
Definition OSKextVersionStageForString (string : list Z) : res (Z * list Z) :=
  '(c0, rest) ← next string;
  if vers_end c0 then Ok (kOSKextVersionStageRelease, string)
  else if (c0 =? 100) || (c0 =? 97) || (c0 =? 98) then
    '(c1, _) ← next rest;
    if vers_isdigit c1 then
      Ok (if c0 =? 100 then kOSKextVersionStageDevelopment
          else if c0 =? 97 then kOSKextVersionStageAlpha
          else kOSKextVersionStageBeta, rest)
    else Ok (kOSKextVersionStageInvalid, string)
  else if c0 =? 102 then
    '(c1, rest1) ← next rest;
    if vers_isdigit c1 then Ok (kOSKextVersionStageCandidate, rest)
    else if c1 =? 99 then
      '(c2, _) ← next rest1;
      if vers_isdigit c2 then Ok (kOSKextVersionStageCandidate, rest1)
      else Ok (kOSKextVersionStageInvalid, string)
    else Ok (kOSKextVersionStageInvalid, string)
  else Ok (kOSKextVersionStageInvalid, string).

(** How one of the digit loops is left: [goto finish] with a release, the
    [goto] to the release state or to the next number, [return -1], or after
    the largest number of digits. *)
Inductive scanned :=
  | SEnd (v : Z)
  | SState (p : list Z) (v : Z)
  | SDot (p : list Z) (v : Z)
  | SBad
  | SFull (p : list Z) (v : Z).

(** The loops for the major, minor and revision numbers; [dot] tells whether a
    period is legal, [k] is the number of digits still allowed. *)
Fixpoint scan (dot : bool) (k : nat) (p : list Z) (v : Z) : res scanned :=
  match k with
  | O => Ok (SFull p v)
  | S k =>
      match p with
      | [] => Fault
      | c :: rest =>
          if vers_end c then Ok (SEnd v)
          else if vers_isdigit c then
            let vers_digit := vers_digit_for_char c in
            if vers_digit <? 0 then Ok SBad else scan dot k rest (v * 10 + vers_digit)
          else if VERS_isreleasestate c then Ok (SState p v)
          else if dot && (c =? 46) then Ok (SDot rest v)
          else Ok SBad
      end
  end.

(** The check for too many digits: the pointer after a period, or [None] for
    [return -1]. *)
Definition too_many (p : list Z) : res (option (list Z)) :=
  '(c, rest) ← next p;
  if c =? 46 then Ok (Some rest)
  else if vers_isdigit c then Ok None
  else Ok (Some p).

(** [finish:] *)
Definition finish (major minor revision stage level : Z) : Z :=
  if (stage =? kOSKextVersionStageCandidate) && (level =? 0) then -1
  else major * VERS_MAJOR_MULT + minor * VERS_MINOR_MULT + revision * VERS_REVISION_MULT
       + stage * VERS_STAGE_MULT + level.

(** The loop for the stage level; [None] is [return -1].  [n] counts the
    digits scanned. *)
Fixpoint scan_level (k n : nat) (p : list Z) (v : Z) : res (option Z) :=
  match k with
  | O =>
      '(c, _) ← next p;
      if negb (vers_end c) then Ok None
      else if v >? VERS_STAGE_LEVEL_MAX then Ok None
      else Ok (Some v)
  | S k =>
      '(c, rest) ← next p;
      if vers_end c then (if (0 <? n)%nat then Ok (Some v) else Ok None)
      else if vers_isdigit c then
        let vers_digit := vers_digit_for_char c in
        if vers_digit <? 0 then Ok None
        else scan_level k (S n) rest (v * 10 + vers_digit)
      else Ok None
  end.

(** [release_state:] and the stage level. *)
Definition release_state (major minor revision : Z) (p : list Z) : res Z :=
  '(c, _) ← next p;
  if vers_end c then Ok (finish major minor revision kOSKextVersionStageRelease 0)
  else
    '(stage, p) ← OSKextVersionStageForString p;
    if stage =? kOSKextVersionStageInvalid then Ok (-1)
    else
      level ← scan_level VERS_STAGE_LEVEL_DIGITS 0 p 0;
      match level with
      | None => Ok (-1)
      | Some level => Ok (finish major minor revision stage level)
      end.

(** [revision:] *)
Definition revision_number (major minor : Z) (p : list Z) : res Z :=
  r ← scan false VERS_REVISION_DIGITS p 0;
  match r with
  | SEnd v => Ok (finish major minor v kOSKextVersionStageRelease 0)
  | SState p v => release_state major minor v p
  | SDot _ _ | SBad => Ok (-1)
  | SFull p v =>
      q ← too_many p;
      match q with
      | None => Ok (-1)
      | Some p => release_state major minor v p
      end
  end.

(** [minor_version:] *)
Definition minor_version (major : Z) (p : list Z) : res Z :=
  r ← scan true VERS_MINOR_DIGITS p 0;
  match r with
  | SEnd v => Ok (finish major v 0 kOSKextVersionStageRelease 0)
  | SState p v => release_state major v 0 p
  | SDot p v => revision_number major v p
  | SBad => Ok (-1)
  | SFull p v =>
      q ← too_many p;
      match q with
      | None => Ok (-1)
      | Some p => revision_number major v p
      end
  end.

Definition OSKextParseVersionString (versionString : option (list Z)) : res Z :=
  match versionString with
  | None => Ok (-1)
  | Some p =>
      '(c, rest) ← next p;
      if c =? 0 then Ok (-1)
      else
        let vers_major := vers_digit_for_char c in
        if vers_major <? 0 then Ok (-1)
        else
          r ← scan true (VERS_MAJOR_DIGITS - 1) rest vers_major;
          match r with
          | SEnd v => Ok (finish v 0 0 kOSKextVersionStageRelease 0)
          | SState p v => release_state v 0 0 p
          | SDot p v => minor_version v p
          | SBad => Ok (-1)
          | SFull p v =>
              q ← too_many p;
              match q with
              | None => Ok (-1)
              | Some p => minor_version v p
              end
          end
  end.

(** ** Printing *)

Definition OSKextVersionStringForStage (stage : Z) : option string :=
  match stage with
  | 1 => Some "d"%string
  | 3 => Some "a"%string
  | 5 => Some "b"%string
  | 7 => Some "f"%string
  | 9 => Some ""%string
  | _ => None
  end.

Definition bzero (buf : list Z) (n : Z) : res (list Z) :=
  if n <=? Z.of_nat (length buf)
  then Ok (replicate (Z.to_nat n) 0 ++ drop (Z.to_nat n) buf) else Fault.

(** [scnprintf(buffer + cpos, bufferLength - cpos, "%u", (uint32_t)v)] *)
Definition put_u (g : cfg) (buffer : list Z) (bufferLength cpos v : Z) : res (list Z * Z) :=
  vscnprintf g buffer cpos (u32 (bufferLength - cpos)) (lit "%u") [VInt (u32 v)].

(** The major and minor numbers and a revision that is not 0, into a zeroed
    buffer; the buffer and [cpos]. *)
Definition put_numbers (g : cfg) (buffer : list Z) (bufferLength : Z)
    (vers_major vers_minor vers_revision : Z) : res (list Z * Z) :=
  '(buffer, cpos) ← put_u g buffer bufferLength 0 vers_major;
  buffer ← wr buffer cpos 46;
  let cpos := cpos + 1 in
  '(buffer, n) ← put_u g buffer bufferLength cpos vers_minor;
  let cpos := cpos + n in
  if negb (vers_revision =? 0) then
    buffer ← wr buffer cpos 46;
    let cpos := cpos + 1 in
    '(buffer, n) ← put_u g buffer bufferLength cpos vers_revision;
    Ok (buffer, cpos + n)
  else Ok (buffer, cpos).

(** The stage and its level. *)
Definition put_stage (g : cfg) (buffer : list Z) (bufferLength cpos : Z)
    (vers_stage vers_stage_level : Z) : res (list Z) :=
  match OSKextVersionStringForStage vers_stage with
  | None => '(buffer, _) ← strlcpy buffer (lit "(invalid)") bufferLength; Ok buffer
  | Some stage_string =>
      '(c, _) ← next (lit stage_string);
      '(buffer, cpos) ←
        (if negb (c =? 0) then
           '(buffer, _) ← strlcat buffer (lit stage_string) bufferLength;
           n ← strlen (lit stage_string);
           Ok (buffer, cpos + n)
         else Ok (buffer, cpos));
      if vers_stage <? kOSKextVersionStageRelease then
        '(buffer, _) ← vsnprintf g buffer cpos (u32 (bufferLength - cpos)) (lit "%u")
                         [VInt (u32 vers_stage_level)];
        Ok buffer
      else Ok buffer
  end.

(** The result and the buffer; [None] is the [FALSE] of a missing or short
    buffer, which is left alone. *)
Definition OSKextVersionGetString (g : cfg) (aVersion : Z) (buffer : option (list Z))
    (bufferLength : Z) : res (option (list Z)) :=
  match buffer with
  | None => Ok None
  | Some buffer =>
      if bufferLength <? kOSKextVersionMaxLength then Ok None
      else
        buffer ← bzero buffer bufferLength;
        let text s := '(buffer, _) ← strlcpy buffer (lit s) bufferLength; Ok (Some buffer) in
        if aVersion <? 0 then text "(invalid)"%string
        else if aVersion =? 0 then text "(missing)"%string
        else
          let vers_major := Z.quot aVersion VERS_MAJOR_MULT in
          if vers_major >? VERS_MAJOR_MAX then text "(invalid)"%string
          else
            let a := aVersion - vers_major * VERS_MAJOR_MULT in
            let vers_minor := Z.quot a VERS_MINOR_MULT in
            let a := aVersion - (vers_major * VERS_MAJOR_MULT + vers_minor * VERS_MINOR_MULT) in
            let vers_revision := Z.quot a VERS_REVISION_MULT in
            let a := aVersion - (vers_major * VERS_MAJOR_MULT + vers_minor * VERS_MINOR_MULT
                                 + vers_revision * VERS_REVISION_MULT) in
            let vers_stage := Z.quot a VERS_STAGE_MULT in
            let vers_stage_level :=
              aVersion - (vers_major * VERS_MAJOR_MULT + vers_minor * VERS_MINOR_MULT
                          + vers_revision * VERS_REVISION_MULT + vers_stage * VERS_STAGE_MULT) in
            if vers_stage_level >? VERS_STAGE_LEVEL_MAX then text "(invalid)"%string
            else
              '(buffer, cpos) ← put_numbers g buffer bufferLength vers_major vers_minor vers_revision;
              buffer ← put_stage g buffer bufferLength cpos vers_stage vers_stage_level;
              Ok (Some buffer)
  end.
