(* ===== verification/KextVersionSpec.v ===== *)
(** * Version strings: grammars and order

    The parser accepts exactly the strings of a grammar, which is compared with
    the documented one, and returns the encoding of the version they denote;
    encodings are compared as versions are. *)

From S2P Require Import Prelude CStr CStrSpec Printf KextVersion.

(** ** Versions *)

Record vers := Vers {
  v_major : Z; v_minor : Z; v_revision : Z; v_stage : Z; v_level : Z
}.

Definition encode (v : vers) : Z :=
  v_major v * VERS_MAJOR_MULT + v_minor v * VERS_MINOR_MULT
  + v_revision v * VERS_REVISION_MULT + v_stage v * VERS_STAGE_MULT + v_level v.

(** Numbers of up to four digits, one of the five stages, and a level up to
    255 that is 0 in a release and not 0 in a candidate. *)
Definition valid (v : vers) : Prop :=
  0 <= v_major v <= 9999 ∧ 0 <= v_minor v <= 9999 ∧ 0 <= v_revision v <= 9999 ∧
  v_stage v ∈ [1; 3; 5; 7; 9] ∧ 0 <= v_level v <= 255 ∧
  (v_stage v = 9 → v_level v = 0) ∧ (v_stage v = 7 → v_level v ≠ 0).

(** The order of versions: by major number, then minor number, and so on. *)
Definition fields (v : vers) : list Z :=
  [v_major v; v_minor v; v_revision v; v_stage v; v_level v].
Fixpoint lex_lt (l l' : list Z) : Prop :=
  match l, l' with
  | x :: l, y :: l' => x < y ∨ (x = y ∧ lex_lt l l')
  | _, _ => False
  end.

Lemma valid_stage v : valid v → 1 <= v_stage v <= 9.
Proof. intros (_ & _ & _ & H & _). set_unfold in H. lia. Qed.

Ltac vers_unfold :=
  unfold encode, VERS_MAJOR_MULT, VERS_MINOR_MULT, VERS_REVISION_MULT, VERS_STAGE_MULT in *.

(** Encoded versions are ordered as numbers exactly as the versions they
    encode: by major number, minor number, revision, stage and level. *)
Lemma encode_order v w :
  valid v → valid w → encode v < encode w ↔ lex_lt (fields v) (fields w).
Proof.
  intros Hv Hw. pose proof (valid_stage v Hv). pose proof (valid_stage w Hw).
  destruct Hv as (? & ? & ? & _ & ? & _), Hw as (? & ? & ? & _ & ? & _).
  vers_unfold. simpl. lia.
Qed.

(** ** The grammars *)

Definition number (lo hi : nat) (ds : list Z) (n : Z) : Prop :=
  Forall is_digit ds ∧ (lo ≤ length ds ≤ hi)%nat ∧ decimal ds = n.

(** The string ends: white space (whatever follows it) or the NUL. *)
Definition ends (p : list Z) : Prop := ∃ c t, p = c :: t ∧ vers_end c = true.

Definition stage_letter (letter : list Z) (stage : Z) : Prop :=
  (letter, stage) ∈ [(chars "d", 1); (chars "a", 3); (chars "b", 5); (chars "f", 7); (chars "fc", 7)].

(** A release, or a stage letter and a level of one to three digits. *)
Inductive stage_text : list Z → Z → Z → Prop :=
  | release p : ends p → stage_text p 9 0
  | staged letter stage ds level p :
      stage_letter letter stage → number 1 3 ds level → level <= 255 →
      (stage = 7 → level ≠ 0) → ends p →
      stage_text (letter ++ ds ++ p) stage level.

(** What the code accepts: a major number of one to four digits; after it,
    separated by periods and possibly empty, a minor number and a revision of up
    to four digits; then the stage, also with the level 0 unless it is a
    candidate.  A period may follow a revision of exactly four digits. *)
Inductive version_text : list Z → vers → Prop :=
  | vt_major ds major p stage level :
      number 1 4 ds major → stage_text p stage level →
      version_text (ds ++ p) (Vers major 0 0 stage level)
  | vt_minor ds major ds' minor p stage level :
      number 1 4 ds major → number 0 4 ds' minor → stage_text p stage level →
      version_text (ds ++ 46 :: ds' ++ p) (Vers major minor 0 stage level)
  | vt_revision ds major ds' minor ds'' revision p stage level :
      number 1 4 ds major → number 0 4 ds' minor → number 0 4 ds'' revision →
      stage_text p stage level →
      version_text (ds ++ 46 :: ds' ++ 46 :: ds'' ++ p) (Vers major minor revision stage level)
  | vt_period ds major ds' minor ds'' revision p stage level :
      number 1 4 ds major → number 0 4 ds' minor → number 4 4 ds'' revision →
      stage_text p stage level →
      version_text (ds ++ 46 :: ds' ++ 46 :: ds'' ++ 46 :: p)
                   (Vers major minor revision stage level).

(** What is documented, [####.##.##s{1-255}]: a minor number and a revision of
    one or two digits, a level from 1 to 255, and no period after a revision. *)
Inductive documented_text : list Z → vers → Prop :=
  | doc_major ds major p stage level :
      number 1 4 ds major → stage_text p stage level → (stage ≠ 9 → level ≠ 0) →
      documented_text (ds ++ p) (Vers major 0 0 stage level)
  | doc_minor ds major ds' minor p stage level :
      number 1 4 ds major → number 1 2 ds' minor → stage_text p stage level → (stage ≠ 9 → level ≠ 0) →
      documented_text (ds ++ 46 :: ds' ++ p) (Vers major minor 0 stage level)
  | doc_revision ds major ds' minor ds'' revision p stage level :
      number 1 4 ds major → number 1 2 ds' minor → number 1 2 ds'' revision →
      stage_text p stage level → (stage ≠ 9 → level ≠ 0) →
      documented_text (ds ++ 46 :: ds' ++ 46 :: ds'' ++ p) (Vers major minor revision stage level).

(** A period and a number that does not have one or two digits. *)
Definition odd_number (p : list Z) : Prop :=
  ∃ a ds c q, p = a ++ 46 :: ds ++ c :: q ∧ Forall is_digit ds ∧ ¬ is_digit c ∧ ¬ (1 ≤ length ds ≤ 2)%nat.

(** ** Characters *)

Lemma isdigit_true c : vers_isdigit c = true ↔ is_digit c.
Proof.
  unfold vers_isdigit, is_digit. rewrite existsb_exists.
  let l := eval vm_compute in (chars "0123456789") in change (chars "0123456789") with l.
  split.
  - intros (x & Hx & Heq). apply Z.eqb_eq in Heq as ->. simpl in Hx. lia.
  - intros Hc. exists c. split; [| apply Z.eqb_refl]. simpl. lia.
Qed.

Lemma isdigit_false c : vers_isdigit c = false ↔ ¬ is_digit c.
Proof. rewrite <- isdigit_true. by destruct (vers_isdigit c). Qed.

Lemma digit_for_char c : is_digit c → vers_digit_for_char c = c - 48.
Proof.
  unfold is_digit. intros Hc.
  assert (c = 48 ∨ c = 49 ∨ c = 50 ∨ c = 51 ∨ c = 52 ∨ c = 53 ∨ c = 54 ∨ c = 55 ∨ c = 56 ∨ c = 57)
    as Hcs by lia.
  by repeat (destruct Hcs as [->|Hcs]; [done |]); subst.
Qed.

Lemma digit_for_char_neg c : ¬ is_digit c → vers_digit_for_char c = -1.
Proof.
  unfold is_digit, vers_digit_for_char. intros Hc. repeat (case_match; try lia); try done.
Qed.

(** The value of digits read after a number [v]. *)
Abbreviation digits_after := (foldl (λ n c, n * 10 + (c - 48))).

Lemma number_bound lo hi ds n : number lo hi ds n → 0 <= n < 10 ^ Z.of_nat hi.
Proof.
  intros (Hds & [_ Hlen] & <-).
  assert (H : ∀ l m, Forall is_digit l → 0 <= m →
            0 <= digits_after m l < (m + 1) * 10 ^ Z.of_nat (length l)).
  { clear. induction l as [|c l IH]; intros m Hl Hm; simpl; [lia |]. inv Hl.
    unfold is_digit in *. destruct (IH (m * 10 + (c - 48))) as [? Hlt]; [done | lia |].
    split; [lia |]. eapply Z.lt_le_trans; [exact Hlt |].
    change (Z.pos (Pos.of_succ_nat (length l))) with (Z.of_nat (S (length l))).
    rewrite Nat2Z.inj_succ, Z.pow_succ_r by lia.
    assert (0 < 10 ^ Z.of_nat (length l)) by lia. nia. }
  destruct (H ds 0 Hds) as [? Hlt]; [lia |]. unfold decimal. split; [done |].
  eapply Z.lt_le_trans; [exact Hlt |]. rewrite Z.mul_1_l. apply Z.pow_le_mono_r; lia.
Qed.

Lemma stage_letter_cases letter stage :
  stage_letter letter stage →
  (letter = [100] ∧ stage = 1) ∨ (letter = [97] ∧ stage = 3) ∨ (letter = [98] ∧ stage = 5) ∨
  (letter = [102] ∧ stage = 7) ∨ (letter = [102; 99] ∧ stage = 7).
Proof.
  unfold stage_letter. intros H. set_unfold in H.
  repeat destruct H as [H|H]; simplify_eq; vm_compute; tauto.
Qed.

(** A stage text starts with a character that no number can swallow. *)
Lemma stage_text_head p stage level :
  stage_text p stage level →
  ∃ c t, p = c :: t ∧ ¬ is_digit c ∧ c ≠ 46 ∧
    ((vers_end c = true ∧ stage = 9 ∧ level = 0) ∨
     (vers_end c = false ∧ VERS_isreleasestate c = true)).
Proof.
  assert (Hend : ∀ c, vers_end c = true → ¬ is_digit c ∧ c ≠ 46).
  { intros c. unfold vers_end, vers_isspace, is_digit. rewrite !orb_true_iff, !Z.eqb_eq. lia. }
  intros [q (c & t & -> & Hc)|letter s ds l q Hletter Hds Hl Hne Hq].
  - exists c, t. destruct (Hend c Hc). tauto.
  - apply stage_letter_cases in Hletter.
    destruct_or! Hletter; destruct Hletter as [-> ->];
      eexists _, _; (split; [done |]); unfold is_digit; (split; [lia |]); (split; [lia |]);
      by right.
Qed.

Lemma scan_digits dot ds : ∀ k p v,
  Forall is_digit ds → (length ds ≤ k)%nat →
  scan dot k (ds ++ p) v = scan dot (k - length ds) p (digits_after v ds).
Proof.
  induction ds as [|c ds IH]; intros k p v Hds Hk; simpl in *; [by rewrite Nat.sub_0_r |].
  destruct k as [|k]; [lia |]. inv Hds. cbn [scan Nat.sub].
  assert (Hend : vers_end c = false).
  { apply not_true_is_false. intros Hc.
    destruct (stage_text_head (c :: []) 9 0) as (? & ? & ? & ? & _); [| by simplify_eq].
    constructor. by exists c, []. }
  rewrite Hend, (proj2 (isdigit_true c)), digit_for_char by done.
  unfold is_digit in *. rewrite (proj2 (Z.ltb_ge _ 0)) by lia. apply IH; [done | lia].
Qed.

(** ** Completeness *)

Lemma scan_level_digits ds : ∀ k n p v,
  Forall is_digit ds → (length ds ≤ k)%nat →
  scan_level k n (ds ++ p) v = scan_level (k - length ds) (n + length ds) p (digits_after v ds).
Proof.
  induction ds as [|c ds IH]; intros k n p v Hds Hk; simpl in *.
  { by rewrite Nat.sub_0_r, Nat.add_0_r. }
  destruct k as [|k]; [lia |]. inv Hds. cbn [scan_level Nat.sub next mbind res_bind].
  assert (Hend : vers_end c = false).
  { apply not_true_is_false. intros Hc.
    destruct (stage_text_head (c :: []) 9 0) as (? & ? & ? & ? & _); [| by simplify_eq].
    constructor. by exists c, []. }
  rewrite Hend, (proj2 (isdigit_true c)), digit_for_char by done.
  unfold is_digit in *. rewrite (proj2 (Z.ltb_ge _ 0)) by lia.
  rewrite IH by (done || lia). f_equal. lia.
Qed.

Lemma scan_level_number ds level p :
  number 1 3 ds level → level <= 255 → ends p → scan_level 3 0 (ds ++ p) 0 = Ok (Some level).
Proof.
  intros (Hds & Hlen & <-) Hl (c & t & -> & Hc). rewrite scan_level_digits by (done || lia).
  unfold decimal in *. destruct (3 - length ds)%nat as [|k] eqn:Hk; simpl; rewrite Hc; simpl.
  - rewrite Z.gtb_ltb, (proj2 (Z.ltb_ge _ _)) by (unfold VERS_STAGE_LEVEL_MAX; lia). done.
  - by destruct ds; simpl in *; [lia |].
Qed.

Lemma StageForString_letter letter stage d rest :
  stage_letter letter stage → vers_isdigit d = true →
  OSKextVersionStageForString (letter ++ d :: rest) = Ok (stage, d :: rest).
Proof.
  intros Hletter%stage_letter_cases Hd. unfold OSKextVersionStageForString.
  destruct_or! Hletter; destruct Hletter as [-> ->];
    cbn [app next mbind res_bind vers_end vers_isspace orb Z.eqb Pos.eqb];
    change (vers_isdigit 99) with false;
    cbn [app next mbind res_bind Z.eqb Pos.eqb]; by rewrite Hd.
Qed.

Lemma finish_encode major minor revision stage level :
  (stage = 7 → level ≠ 0) →
  finish major minor revision stage level = encode (Vers major minor revision stage level).
Proof.
  intros Hne. unfold finish, kOSKextVersionStageCandidate.
  destruct (Z.eqb_spec stage 7) as [Hs|]; [| done].
  by rewrite (proj2 (Z.eqb_neq level 0)) by auto.
Qed.

Lemma stage_letter_valid letter stage : stage_letter letter stage → stage ∈ [1; 3; 5; 7; 9] ∧ stage ≠ 9.
Proof. intros H%stage_letter_cases. split; [set_solver | lia]. Qed.

Lemma release_state_text major minor revision p stage level :
  stage_text p stage level →
  release_state major minor revision p = Ok (encode (Vers major minor revision stage level)).
Proof.
  intros Htext. destruct (stage_text_head _ _ _ Htext) as (c0 & t0 & Hp & _ & _ & Hc0).
  unfold release_state. rewrite Hp at 1. cbn [next mbind res_bind]. revert Hp Hc0.
  destruct Htext as [q (c & t & -> & Hc)|letter s ds l q Hletter Hds Hl Hne Hq]; intros Hp Hc0.
  - simplify_eq. by rewrite Hc.
  - destruct Hc0 as [(_ & -> & _)|[-> _]]; [by destruct (stage_letter_valid _ _ Hletter) |].
    assert (∃ d ds', ds = d :: ds' ∧ vers_isdigit d = true) as (d & ds' & -> & Hd).
    { destruct Hds as (Hall & Hlen & _). destruct ds as [|d ds']; simpl in Hlen; [lia |].
      inv Hall. exists d, ds'. split; [done |]. by apply isdigit_true. }
    cbn [app]. rewrite (StageForString_letter letter s) by done. cbn [mbind res_bind].
    rewrite (proj2 (Z.eqb_neq s _))
      by (apply stage_letter_valid in Hletter; unfold kOSKextVersionStageInvalid; set_unfold in Hletter; lia).
    change (d :: ds' ++ q) with ((d :: ds') ++ q). unfold VERS_STAGE_LEVEL_DIGITS.
    rewrite (scan_level_number (d :: ds') l q) by done. simpl. by rewrite finish_encode.
Qed.

(** Scanning a number that a stage text follows. *)
Lemma scan_stage dot k ds v n p stage level :
  Forall is_digit ds → (length ds ≤ k)%nat → digits_after v ds = n → stage_text p stage level →
  scan dot k (ds ++ p) v =
  Ok (if (k - length ds =? 0)%nat then SFull p n
      else if vers_end (hd 0 p) then SEnd n else SState p n).
Proof.
  intros Hds Hlen <- Htext. rewrite scan_digits by (done || lia).
  destruct (stage_text_head _ _ _ Htext) as (c & t & -> & Hdig & Hdot & Hc). simpl hd.
  destruct (k - length ds)%nat; [done |]. cbn [scan Nat.eqb].
  destruct Hc as [(-> & _)|[-> ->]]; [done |].
  by rewrite (proj2 (isdigit_false c)) by done.
Qed.

Lemma too_many_stage p stage level : stage_text p stage level → too_many p = Ok (Some p).
Proof.
  intros Htext. destruct (stage_text_head _ _ _ Htext) as (c & t & -> & Hdig & Hdot & _).
  unfold too_many. simpl.
  by rewrite (proj2 (Z.eqb_neq c 46)), (proj2 (isdigit_false c)) by done.
Qed.

Lemma stage_text_release p stage level :
  stage_text p stage level → vers_end (hd 0 p) = true → stage = 9 ∧ level = 0.
Proof.
  intros Htext. destruct (stage_text_head _ _ _ Htext) as (c & t & -> & _ & _ & Hc).
  simpl. intros ?. destruct Hc as [(_ & ?)|[? _]]; [done | congruence].
Qed.

Lemma revision_text major minor ds n p stage level :
  number 0 4 ds n → stage_text p stage level →
  revision_number major minor (ds ++ p) = Ok (encode (Vers major minor n stage level)).
Proof.
  intros Hn Htext. unfold revision_number, VERS_REVISION_DIGITS.
  destruct Hn as (? & ? & ?).
  rewrite (scan_stage false 4 ds 0 n p stage level) by (done || lia). simpl mbind.
  destruct (_ =? 0)%nat.
  - rewrite (too_many_stage p stage level) by done. by apply release_state_text.
  - destruct (vers_end (hd 0 p)) eqn:Hend; [| by apply release_state_text].
    by destruct (stage_text_release p stage level) as [-> ->].
Qed.

(** The period that a revision of four digits may have after it. *)
Lemma revision_period major minor ds n p stage level :
  number 4 4 ds n → stage_text p stage level →
  revision_number major minor (ds ++ 46 :: p) = Ok (encode (Vers major minor n stage level)).
Proof.
  intros (Hds & Hlen & <-) Htext. unfold revision_number, VERS_REVISION_DIGITS.
  rewrite scan_digits by (done || lia). replace (4 - length ds)%nat with 0%nat by lia.
  simpl. by apply release_state_text.
Qed.

Lemma minor_text major ds n p stage level :
  number 0 4 ds n → stage_text p stage level →
  minor_version major (ds ++ p) = Ok (encode (Vers major n 0 stage level)).
Proof.
  intros Hn Htext. unfold minor_version, VERS_MINOR_DIGITS.
  destruct Hn as (? & ? & ?).
  rewrite (scan_stage true 4 ds 0 n p stage level) by (done || lia). simpl mbind.
  destruct (_ =? 0)%nat.
  - rewrite (too_many_stage p stage level) by done.
    apply (revision_text major n [] 0 p); [by repeat split; auto with lia | done].
  - destruct (vers_end (hd 0 p)) eqn:Hend; [| by apply release_state_text].
    by destruct (stage_text_release p stage level) as [-> ->].
Qed.

(** A period after a number leads to the next one, whether the number has the
    most digits or fewer. *)
Lemma minor_dot major ds n q :
  number 0 4 ds n → minor_version major (ds ++ 46 :: q) = revision_number major n q.
Proof.
  intros (Hds & Hlen & <-). unfold minor_version, VERS_MINOR_DIGITS.
  rewrite scan_digits by (done || lia). by destruct (4 - length ds)%nat.
Qed.

Lemma number_cons ds n :
  number 1 4 ds n →
  ∃ c ds', ds = c :: ds' ∧ is_digit c ∧ Forall is_digit ds' ∧ (length ds' ≤ 3)%nat ∧
    digits_after (c - 48) ds' = n.
Proof.
  intros (Hds & Hlen & <-). destruct ds as [|c ds']; simpl in Hlen; [lia |]. inv Hds.
  exists c, ds'. do 3 (split; [done |]). split; [lia | done].
Qed.

(** The first digit of the major number. *)
Lemma parse_unfold c rest :
  is_digit c →
  OSKextParseVersionString (Some (c :: rest)) =
  (r ← scan true 3 rest (c - 48);
   match r with
   | SEnd v => Ok (finish v 0 0 kOSKextVersionStageRelease 0)
   | SState p v => release_state v 0 0 p
   | SDot p v => minor_version v p
   | SBad => Ok (-1)
   | SFull p v =>
       q ← too_many p;
       match q with None => Ok (-1) | Some p => minor_version v p end
   end).
Proof.
  intros Hc. unfold OSKextParseVersionString. cbn [next mbind res_bind].
  rewrite digit_for_char by done. unfold is_digit in Hc.
  by rewrite (proj2 (Z.eqb_neq c 0)), (proj2 (Z.ltb_ge _ 0)) by lia.
Qed.

Lemma parse_text ds n p stage level :
  number 1 4 ds n → stage_text p stage level →
  OSKextParseVersionString (Some (ds ++ p)) = Ok (encode (Vers n 0 0 stage level)).
Proof.
  intros (c & ds' & -> & Hc & Hds & Hlen & Hval)%number_cons Htext. cbn [app].
  rewrite parse_unfold, (scan_stage true 3 ds' (c - 48) n p stage level) by done.
  cbn [mbind res_bind]. destruct (_ =? 0)%nat.
  - rewrite (too_many_stage p stage level) by done.
    apply (minor_text n [] 0 p); [by repeat split; auto with lia | done].
  - destruct (vers_end (hd 0 p)) eqn:Hend; [| by apply release_state_text].
    by destruct (stage_text_release p stage level) as [-> ->].
Qed.

Lemma parse_dot ds n q :
  number 1 4 ds n → OSKextParseVersionString (Some (ds ++ 46 :: q)) = minor_version n q.
Proof.
  intros (c & ds' & -> & Hc & Hds & Hlen & Hval)%number_cons. cbn [app].
  rewrite parse_unfold, scan_digits, Hval by done. by destruct (3 - length ds')%nat.
Qed.

Lemma parse_complete p v :
  version_text p v → OSKextParseVersionString (Some p) = Ok (encode v).
Proof.
  intros [].
  - by apply parse_text.
  - erewrite parse_dot by done. by apply minor_text.
  - erewrite parse_dot, minor_dot by done. by apply revision_text.
  - erewrite parse_dot, minor_dot by done. by apply revision_period.
Qed.

(** ** Soundness *)

Lemma stage_text_valid p stage level :
  stage_text p stage level →
  stage ∈ [1; 3; 5; 7; 9] ∧ 0 <= level <= 255 ∧ (stage = 9 → level = 0) ∧ (stage = 7 → level ≠ 0).
Proof.
  intros [|letter s ds l q Hletter%stage_letter_valid Hds%number_bound Hl Hne _].
  - split; [set_solver | lia].
  - destruct Hletter. repeat split; auto with lia.
Qed.

Lemma version_text_valid p v : version_text p v → valid v.
Proof.
  assert (Hn : ∀ lo ds n, number lo 4 ds n → 0 <= n <= 9999).
  { intros lo ds n H%number_bound. simpl in H. lia. }
  intros []; unfold valid; simpl;
    repeat match goal with H : number _ _ _ _ |- _ => apply Hn in H end;
    match goal with H : stage_text _ _ _ |- _ => apply stage_text_valid in H end;
    intuition lia.
Qed.

Lemma encode_nonneg v : valid v → 0 < encode v.
Proof.
  intros Hv. pose proof (valid_stage v Hv). destruct Hv as (? & ? & ? & _ & ? & _).
  vers_unfold. lia.
Qed.

(** What a digit loop has read when it is left, on a string with a NUL. *)
Definition scan_post (dot : bool) (k : nat) (p : list Z) (v : Z) (r : scanned) : Prop :=
  ∃ ds, Forall is_digit ds ∧ (length ds ≤ k)%nat ∧
  match r with
  | SEnd w => w = digits_after v ds ∧ ∃ q, p = ds ++ q ∧ ends q
  | SState q w => w = digits_after v ds ∧ p = ds ++ q ∧ 0 ∈ q
  | SDot q w => dot = true ∧ w = digits_after v ds ∧ p = ds ++ 46 :: q ∧ 0 ∈ q
  | SBad => True
  | SFull q w => w = digits_after v ds ∧ p = ds ++ q ∧ length ds = k ∧ 0 ∈ q
  end.

(** No digit has been read. *)
Ltac no_digits := exists []; split; [by constructor | split; [simpl; lia |]].

Lemma end_not_NUL c p : vers_end c = false → 0 ∈ c :: p → 0 ∈ p.
Proof. intros Hend Hp. assert (c ≠ 0); [by intros -> | set_solver]. Qed.

Lemma scan_inv dot k : ∀ p v, 0 ∈ p → ∃ r, scan dot k p v = Ok r ∧ scan_post dot k p v r.
Proof.
  induction k as [|k IH]; intros p v Hp; simpl.
  { eexists. split; [done |]. by no_digits. }
  destruct p as [|c p]; [set_solver |]. destruct (vers_end c) eqn:Hend.
  { eexists. split; [done |]. no_digits. split; [done |].
    exists (c :: p). split; [done | by exists c, p]. }
  pose proof (end_not_NUL c p Hend Hp) as Hp'.
  destruct (vers_isdigit c) eqn:Hdig.
  - apply isdigit_true in Hdig. rewrite digit_for_char by done.
    rewrite (proj2 (Z.ltb_ge _ 0)) by (unfold is_digit in Hdig; lia).
    destruct (IH p (v * 10 + (c - 48)) Hp') as (r & -> & ds & Hds & Hlen & Hr).
    exists r. split; [done |]. exists (c :: ds).
    split; [by constructor |]. split; [simpl; lia |].
    destruct r; naive_solver.
  - destruct (VERS_isreleasestate c).
    { eexists. split; [done |]. by no_digits. }
    destruct dot; simpl; [destruct (Z.eqb_spec c 46) as [->|] |];
      eexists; (split; [done |]); by no_digits.
Qed.

Lemma scan_level_inv k : ∀ n p v,
  0 ∈ p → (1 ≤ n + k)%nat → ∃ r, scan_level k n p v = Ok r ∧
    (r = None ∨ ∃ ds, Forall is_digit ds ∧ (length ds ≤ k)%nat ∧ (1 ≤ n + length ds)%nat ∧
       r = Some (digits_after v ds) ∧ (∃ q, p = ds ++ q ∧ ends q) ∧
       (length ds = k → digits_after v ds <= 255)).
Proof.
  induction k as [|k IH]; intros n p v Hp Hn; (destruct p as [|c p]; [set_solver |]); simpl;
    destruct (vers_end c) eqn:Hend; simpl; try by eauto.
  - rewrite Z.gtb_ltb. destruct (Z.ltb_spec VERS_STAGE_LEVEL_MAX v); [by eauto |].
    eexists. split; [done |]. right. no_digits. split; [simpl; lia |]. split; [done |].
    split; [exists (c :: p); split; [done | by exists c, p] | done].
  - destruct n as [|n]; simpl; [by eauto |].
    eexists. split; [done |]. right. no_digits. split; [simpl; lia |]. split; [done |].
    split; [exists (c :: p); split; [done | by exists c, p] | done].
  - pose proof (end_not_NUL c p Hend Hp) as Hp'. destruct (vers_isdigit c) eqn:Hdig; [| by eauto].
    apply isdigit_true in Hdig. rewrite digit_for_char by done.
    rewrite (proj2 (Z.ltb_ge _ 0)) by (unfold is_digit in Hdig; lia).
    destruct (IH (S n) p (v * 10 + (c - 48)) Hp') as (r & -> & Hr); [lia |].
    exists r. split; [done |]. destruct Hr as [->|(ds & ? & ? & ? & -> & (q & -> & ?) & ?)]; [by left |].
    right. exists (c :: ds). split; [by constructor |]. do 2 (split; [simpl; lia |]).
    split; [done |]. split; [by exists q |]. simpl. intros Hk. simplify_eq. auto.
Qed.

(** The stage string starts with the letter [l]. *)
Ltac stage_found l :=
  eexists _, _; split; [done |]; right; exists l; split; [unfold stage_letter; compute_done |].

Lemma StageForString_inv p :
  0 ∈ p → vers_end (hd 0 p) = false →
  ∃ stage q, OSKextVersionStageForString p = Ok (stage, q) ∧
    (stage = 0 ∨ ∃ letter, stage_letter letter stage ∧ p = letter ++ q ∧ 0 ∈ q).
Proof.
  intros Hp Hend. destruct p as [|c p]; [set_solver |]. simpl in Hend.
  pose proof (end_not_NUL c p Hend Hp) as Hp'.
  unfold OSKextVersionStageForString. simpl next. cbn [mbind res_bind]. rewrite Hend.
  destruct p as [|c1 p]; [set_solver |]. simpl next. cbn [mbind res_bind].
  destruct (vers_isdigit c1) eqn:Hd1.
  { destruct (Z.eqb_spec c 100) as [->|]; [by stage_found [100] |].
    destruct (Z.eqb_spec c 97) as [->|]; [by stage_found [97] |].
    destruct (Z.eqb_spec c 98) as [->|]; [by stage_found [98] |].
    destruct (Z.eqb_spec c 102) as [->|]; [by stage_found [102] |]. by eauto. }
  destruct (_ || _); [by eauto |].
  destruct (Z.eqb_spec c 102) as [->|]; [| by eauto].
  destruct (Z.eqb_spec c1 99) as [->|]; [| by eauto].
  destruct p as [|c2 p]; [set_solver |]. simpl.
  destruct (vers_isdigit c2); [| by eauto].
  stage_found [102; 99]. split; [done |]. set_solver.
Qed.

Lemma release_state_inv major minor revision p :
  0 ∈ p → ∃ x, release_state major minor revision p = Ok x ∧
    (x = -1 ∨ ∃ stage level, stage_text p stage level ∧ x = encode (Vers major minor revision stage level)).
Proof.
  intros Hp. unfold release_state. destruct p as [|c p]; [set_solver |]. cbn [next mbind res_bind].
  destruct (vers_end c) eqn:Hend.
  { eexists. split; [done |]. right. exists 9, 0. split; [constructor; by exists c, p | done]. }
  destruct (StageForString_inv (c :: p)) as (stage & q & -> & Hstage); [done | done |].
  cbn [mbind res_bind].
  destruct Hstage as [->|(letter & Hletter & Hpq & Hq)]; [by eauto |].
  rewrite (proj2 (Z.eqb_neq stage _))
    by (apply stage_letter_valid in Hletter; unfold kOSKextVersionStageInvalid; set_unfold in Hletter; lia).
  destruct (scan_level_inv 3 0 q 0 Hq) as (r & Hr & Hpost); [lia |].
  unfold VERS_STAGE_LEVEL_DIGITS. rewrite Hr. cbn [mbind res_bind].
  destruct Hpost as [->|(ds & Hds & Hlen & Hlen1 & -> & (t & -> & Ht) & Hmax)]; [by eauto |].
  eexists. split; [done |].
  assert (Hnum : number 1 3 ds (digits_after 0 ds)) by (repeat split; done || lia).
  destruct (decide (stage = 7 ∧ digits_after 0 ds = 0)) as [[-> Hz]|Hne].
  { left. unfold finish. by rewrite Hz. }
  right. exists stage, (digits_after 0 ds).
  assert (Hne' : stage = 7 → digits_after 0 ds ≠ 0) by tauto.
  split; [| by apply finish_encode]. rewrite Hpq. constructor; try done.
  destruct (decide (length ds = 3%nat)) as [|Hn3]; [auto |].
  destruct (number_bound 1 2 ds (digits_after 0 ds)); [repeat split; done || lia |]. lia.
Qed.

Inductive revision_tail : list Z → Z → Z → Z → Prop :=
  | rt_plain ds n q stage level :
      number 0 4 ds n → stage_text q stage level → revision_tail (ds ++ q) n stage level
  | rt_period ds n q stage level :
      number 4 4 ds n → stage_text q stage level → revision_tail (ds ++ 46 :: q) n stage level.

Lemma too_many_inv p :
  0 ∈ p → ∃ r, too_many p = Ok r ∧
    match r with
    | None => True
    | Some q => 0 ∈ q ∧ (p = 46 :: q ∨ (q = p ∧ ∃ c t, p = c :: t ∧ ¬ is_digit c ∧ c ≠ 46))
    end.
Proof.
  intros Hp. destruct p as [|c p]; [set_solver |]. unfold too_many. simpl.
  destruct (Z.eqb_spec c 46) as [->|].
  { eexists. split; [done |]. split; [set_solver | by left]. }
  destruct (vers_isdigit c) eqn:Hd; [by exists None |]. apply isdigit_false in Hd.
  eexists. split; [done |]. split; [done |]. right. split; [done |]. by exists c, p.
Qed.

(** A number at the start of a string that does not start with a digit is
    empty. *)
Lemma no_number lo hi ds n q c t :
  number lo hi ds n → ds ++ q = c :: t → ¬ is_digit c → ds = [] ∧ n = 0 ∧ lo = 0%nat.
Proof.
  intros (Hds & Hlen & <-) Heq Hc. destruct ds as [|d ds]; simpl in *.
  - repeat split; lia.
  - simplify_eq. by inv Hds.
Qed.

Lemma revision_inv major minor p :
  0 ∈ p → ∃ x, revision_number major minor p = Ok x ∧
    (x = -1 ∨ ∃ n stage level, revision_tail p n stage level ∧ x = encode (Vers major minor n stage level)).
Proof.
  intros Hp. unfold revision_number, VERS_REVISION_DIGITS.
  destruct (scan_inv false 4 p 0 Hp) as (r & -> & ds & Hds & Hlen & Hr). cbn [mbind res_bind].
  assert (Hnum : number 0 4 ds (digits_after 0 ds)) by (repeat split; done || lia).
  destruct r as [w|q w|q w| |q w]; [| | by eauto | by eauto |].
  - destruct Hr as (-> & q & -> & Hq). eexists. split; [done |]. right.
    exists (digits_after 0 ds), 9, 0. split; [by constructor; [| constructor] | done].
  - destruct Hr as (-> & -> & Hq).
    destruct (release_state_inv major minor (digits_after 0 ds) q Hq) as (x & -> & [->|(s & l & Ht & ->)]);
      [by eauto |].
    eexists. split; [done |]. right. eexists _, s, l. split; [by constructor | done].
  - destruct Hr as (-> & -> & Hfull & Hq). destruct (too_many_inv q Hq) as (o & -> & Ho).
    cbn [mbind res_bind]. destruct o as [q'|]; [| by eauto].
    destruct Ho as [Hq' Ho].
    destruct (release_state_inv major minor (digits_after 0 ds) q' Hq') as (x & -> & [->|(s & l & Ht & ->)]);
      [by eauto |].
    eexists. split; [done |]. right. eexists _, s, l. split; [| done].
    destruct Ho as [->|[-> _]]; [apply rt_period | by apply rt_plain]; [| done].
    repeat split; done || lia.
Qed.

Lemma minor_inv major p :
  0 ∈ p → ∃ x, minor_version major p = Ok x ∧
    (x = -1 ∨
     (∃ ds m q stage level, p = ds ++ q ∧ number 0 4 ds m ∧ stage_text q stage level ∧
        x = encode (Vers major m 0 stage level)) ∨
     (∃ ds m q n stage level, p = ds ++ 46 :: q ∧ number 0 4 ds m ∧ revision_tail q n stage level ∧
        x = encode (Vers major m n stage level))).
Proof.
  intros Hp. unfold minor_version, VERS_MINOR_DIGITS.
  destruct (scan_inv true 4 p 0 Hp) as (r & -> & ds & Hds & Hlen & Hr). cbn [mbind res_bind].
  assert (Hnum : number 0 4 ds (digits_after 0 ds)) by (repeat split; done || lia).
  destruct r as [w|q w|q w| |q w]; [| | | by eauto |].
  - destruct Hr as (-> & q & -> & Hq). eexists. split; [done |]. right. left.
    exists ds, (digits_after 0 ds), q, 9, 0. by split_and!; [| | constructor |].
  - destruct Hr as (-> & -> & Hq).
    destruct (release_state_inv major (digits_after 0 ds) 0 q Hq) as (x & -> & [->|(s & l & Ht & ->)]);
      [by eauto |].
    eexists. split; [done |]. right. left. by exists ds, (digits_after 0 ds), q, s, l.
  - destruct Hr as (_ & -> & -> & Hq).
    destruct (revision_inv major (digits_after 0 ds) q Hq) as (x & -> & [->|(n & s & l & Ht & ->)]);
      [by eauto |].
    eexists. split; [done |]. right. right. by exists ds, (digits_after 0 ds), q, n, s, l.
  - destruct Hr as (-> & -> & Hfull & Hq). destruct (too_many_inv q Hq) as (o & -> & Ho).
    cbn [mbind res_bind]. destruct o as [q'|]; [| by eauto]. destruct Ho as [Hq' Ho].
    destruct (revision_inv major (digits_after 0 ds) q' Hq') as (x & -> & [->|(n & s & l & Ht & ->)]);
      [by eauto |].
    eexists. split; [done |]. right. destruct Ho as [->|[-> (c & t & Hct & Hc & Hdot)]].
    { right. by exists ds, (digits_after 0 ds), q', n, s, l. }
    left. exists ds, (digits_after 0 ds), q, s, l.
    destruct Ht as [ds' n q'' s l Hn Ht|ds' n q'' s l Hn Ht];
      destruct (no_number _ _ _ _ _ _ _ Hn Hct Hc) as (-> & -> & ?); [| done].
    by split_and!.
Qed.

(** The parser after the period that follows the major number. *)
Lemma minor_after ds M q :
  number 1 4 ds M → 0 ∈ q → ∃ x, minor_version M q = Ok x ∧
    (x = -1 ∨ ∃ v, version_text (ds ++ 46 :: q) v ∧ x = encode v).
Proof.
  intros Hnum Hq. destruct (minor_inv M q Hq)
    as (x & -> & [->|[(ds' & m & q' & s & l & -> & Hm & Ht & ->)|
                      (ds' & m & q' & n & s & l & -> & Hm & Ht & ->)]]); [by eauto | |];
    eexists; (split; [done |]); right; eexists; (split; [| done]).
  - by apply vt_minor.
  - destruct Ht; [by apply vt_revision | by apply vt_period].
Qed.

Lemma parse_sound p :
  0 ∈ p → ∃ x, OSKextParseVersionString (Some p) = Ok x ∧
    (x = -1 ∨ ∃ v, version_text p v ∧ x = encode v).
Proof.
  intros Hp. destruct p as [|c p]; [set_solver |].
  destruct (vers_isdigit c) eqn:Hc; [apply isdigit_true in Hc | apply isdigit_false in Hc].
  2: { exists (-1). split; [| by left]. unfold OSKextParseVersionString. simpl.
       rewrite digit_for_char_neg by done. by destruct (c =? 0). }
  assert (Hp' : 0 ∈ p) by (unfold is_digit in Hc; set_unfold in Hp; destruct Hp; [lia | done]).
  rewrite parse_unfold by done.
  destruct (scan_inv true 3 p (c - 48) Hp') as (r & -> & ds & Hds & Hlen & Hr). cbn [mbind res_bind].
  set (M := digits_after (c - 48) ds) in *.
  assert (Hnum : number 1 4 (c :: ds) M) by (repeat split; [by constructor | simpl; lia | simpl; lia]).
  destruct r as [w|q w|q w| |q w]; [| | | by eauto |].
  - destruct Hr as (-> & q & -> & Hq). eexists. split; [done |]. right.
    exists (Vers M 0 0 9 0). split; [| done].
    apply (vt_major (c :: ds) M q 9 0); [done | by constructor].
  - destruct Hr as (-> & -> & Hq).
    destruct (release_state_inv M 0 0 q Hq) as (x & -> & [->|(s & l & Ht & ->)]); [by eauto |].
    eexists. split; [done |]. right. eexists. split; [| done].
    by apply (vt_major (c :: ds) M q).
  - destruct Hr as (_ & -> & -> & Hq). by apply (minor_after (c :: ds) M q).
  - destruct Hr as (-> & -> & Hfull & Hq). destruct (too_many_inv q Hq) as (o & -> & Ho).
    cbn [mbind res_bind]. destruct o as [q'|]; [| by eauto]. destruct Ho as [Hq' Ho].
    destruct Ho as [->|[-> (c' & t & Hct & Hc' & Hdot)]].
    { by apply (minor_after (c :: ds) M q'). }
    destruct (minor_inv M q Hq)
      as (x & -> & [->|[(ds' & m & q' & s & l & Hds' & Hm & Ht & ->)|
                        (ds' & m & q' & n & s & l & Hds' & Hm & Ht & ->)]]); [by eauto | |].
    + eexists. split; [done |]. right. eexists. split; [| done].
      rewrite Hct in Hds'. destruct (no_number _ _ _ _ _ _ _ Hm (eq_sym Hds') Hc') as (-> & -> & _).
      apply (vt_major (c :: ds) M q); [done |]. by rewrite Hct, Hds'.
    + rewrite Hct in Hds'. destruct (no_number _ _ _ _ _ _ _ Hm (eq_sym Hds') Hc') as (-> & _ & _).
      simplify_eq/=.
Qed.

Lemma parse_cases p :
  0 ∈ p → ∃ x, OSKextParseVersionString (Some p) = Ok x ∧
    ((x = -1 ∧ ∀ v, ¬ version_text p v) ∨ ∃ v, version_text p v ∧ valid v ∧ x = encode v).
Proof.
  intros Hp. destruct (parse_sound p Hp) as (x & Hx & [->|(v & Hv & ->)]); eexists; (split; [done |]).
  - left. split; [done |]. intros v Hv. pose proof (encode_nonneg v (version_text_valid p v Hv)).
    rewrite (parse_complete p v Hv) in Hx. simplify_eq. lia.
  - right. exists v. by split_and!; [| eapply version_text_valid |].
Qed.

Lemma number_within lo hi lo' hi' ds n : number lo hi ds n → (lo' ≤ lo)%nat → (hi ≤ hi')%nat → number lo' hi' ds n.
Proof. intros (? & ? & ?) ? ?. split; [done |]. split; [lia | done]. Qed.

Lemma documented_accepted p v : documented_text p v → version_text p v.
Proof.
  intros []; [apply vt_major | apply vt_minor | apply vt_revision]; try done; by (eapply number_within; [done | lia | lia]).
Qed.

Lemma odd_tail a ds c q : Forall is_digit ds → ¬ is_digit c → number 1 2 ds (decimal ds) ∨ odd_number (a ++ 46 :: ds ++ c :: q).
Proof.
  intros Hds Hc. destruct (decide (1 ≤ length ds ≤ 2)%nat); [by left |]. right. by exists a, ds, c, q.
Qed.

(** What is accepted and not documented has a level 0 or an odd number. *)
Lemma accepted_cases p v : version_text p v → documented_text p v ∨ (v_stage v ≠ 9 ∧ v_level v = 0) ∨ odd_number p.
Proof.
  assert (Hnd : ¬ is_digit 46) by (unfold is_digit; lia).
  intros [ds major q stage level Hm Hs|ds major ds' minor q stage level Hm Hn Hs|ds major ds' minor ds'' revision q stage level Hm Hn Hr Hs|ds major ds' minor ds'' revision q stage level Hm Hn Hr Hs]; cbn [v_stage v_level].
  4: { right; right. exists (ds ++ 46 :: ds'), ds'', 46, q. destruct Hr as (? & ? & _). split; [by rewrite <- app_assoc |]. split; [done |]. split; [done | lia]. }
  all: destruct (decide (stage ≠ 9 ∧ level = 0)) as [|Hl]; [by right; left |]; assert (stage ≠ 9 → level ≠ 0) by naive_solver.
  - left. by apply doc_major.
  - destruct (stage_text_head _ _ _ Hs) as (c & t & -> & Hc & _), Hn as (Hds & Hl' & <-).
    destruct (odd_tail ds ds' c t Hds Hc) as [Hn|]; [left; by apply doc_minor | by right; right].
  - destruct (stage_text_head _ _ _ Hs) as (c & t & -> & Hc & _), Hn as (Hds & _ & <-), Hr as (Hds' & _ & <-).
    destruct (odd_tail ds ds' 46 (ds'' ++ c :: t) Hds Hnd) as [Hn|]; [| by right; right].
    destruct (odd_tail (ds ++ 46 :: ds') ds'' c t Hds' Hc) as [Hr|Ho]; [left; by apply doc_revision |]. right; right. by rewrite <- app_assoc in Ho.
Qed.

(** C22: on any terminated string the parser returns a number: the encoding of
    the valid version that the string denotes when the code accepts the string,
    and [-1] exactly when it does not.  Every string of the documented format
    is accepted with the version it denotes.  What is accepted beyond that has a
    level 0, or a minor number or revision that is empty or has three or four
    digits, after which there may be a further period. *)
Theorem parse_exact p :
  0 ∈ p → ∃ x, OSKextParseVersionString (Some p) = Ok x ∧
    (∀ v, documented_text p v → x = encode v) ∧
    ((x = -1 ∧ ∀ v, ¬ version_text p v) ∨
     ∃ v, version_text p v ∧ valid v ∧ x = encode v ∧
       (documented_text p v ∨ (v_stage v ≠ 9 ∧ v_level v = 0) ∨ odd_number p)).
Proof.
  intros Hp. destruct (parse_cases p Hp) as (x & Hx & Hc). exists x. split; [done |]. split.
  - intros v Hv%documented_accepted%parse_complete. rewrite Hx in Hv. by injection Hv.
  - destruct Hc as [|(v & Hv & Hval & ->)]; [by left | right]. exists v. split; [done |]. split; [done |]. split; [done | by apply accepted_cases].
Qed.

Lemma parse_exact_witness :
  ∃ x, OSKextParseVersionString (Some (lit "10.4.2fc3")) = Ok x ∧ x = encode (Vers 10 4 2 7 3).
Proof.
  destruct (parse_exact (lit "10.4.2fc3")) as (x & Hx & Hdoc & _); [compute_done |]. exists x. split; [exact Hx |]. apply Hdoc.
  apply (doc_revision (chars "10") 10 (chars "4") 4 (chars "2") 2 (lit "fc3")); [compute_done | compute_done | compute_done | | discriminate].
  apply (staged (chars "fc") 7 (chars "3") 3 [0]); [unfold stage_letter; compute_done | compute_done | lia | lia | by exists 0, []].
Defined.

(** Comparing the numbers the parser returns compares the versions the
    strings denote: by major number, minor number, revision, stage and level. *)
Lemma parse_order p q v w :
  version_text p v → version_text q w →
  ∃ x y, OSKextParseVersionString (Some p) = Ok x ∧ OSKextParseVersionString (Some q) = Ok y ∧
    (x < y ↔ lex_lt (fields v) (fields w)).
Proof.
  intros Hv Hw. exists (encode v), (encode w).
  split_and!; [by apply parse_complete | by apply parse_complete |].
  apply encode_order; by eapply version_text_valid.
Qed.

Lemma parse_order_witness :
  ∃ x y, OSKextParseVersionString (Some (lit "10.4b3")) = Ok x ∧
    OSKextParseVersionString (Some (lit "10.4")) = Ok y ∧
    (x < y ↔ lex_lt (fields (Vers 10 4 0 5 3)) (fields (Vers 10 4 0 9 0))).
Proof.
  apply (parse_order (lit "10.4b3") (lit "10.4") (Vers 10 4 0 5 3) (Vers 10 4 0 9 0)).
  - apply (vt_minor (chars "10") 10 (chars "4") 4 (lit "b3")); [compute_done | compute_done |].
    apply (staged (chars "b") 5 (chars "3") 3 [0]); [| compute_done | lia | lia |].
    + unfold stage_letter. compute_done.
    + by exists 0, [].
  - apply (vt_minor (chars "10") 10 (chars "4") 4 [0]); [compute_done | compute_done |].
    apply release. by exists 0, [].
Defined.

(** A period after a revision of four digits is accepted and skipped,
    although the comment of the loop rules periods out; after a shorter
    revision it is rejected. *)
Lemma parse_period_after_revision :
  OSKextParseVersionString (Some (lit "1.2.3456.b7")) = Ok (encode (Vers 1 2 3456 5 7)) ∧
  OSKextParseVersionString (Some (lit "1.2.345.b7")) = Ok (-1).
Proof. by vm_compute. Qed.
