(* ===== verification/KextVersionPrint.v ===== *)
(** * Printing versions

    The printer stores a terminated string within its buffer for every number
    it is given; on the encoding of a valid version the string is a text of
    the grammar, which the parser reads back. *)

From S2P Require Import Prelude CStr CStrSpec Printf PrintfTrace PrintfSpec KextVersion KextVersionSpec.

(** ** Printing *)

Lemma digit_value_digit c : 0 <= digit_value c < 10 → is_digit c ∧ digit_value c = c - 48.
Proof.
  unfold digit_value, is_digit.
  destruct (Z.leb_spec 48 c), (Z.leb_spec c 57), (Z.leb_spec 65 c), (Z.leb_spec c 70),
    (Z.leb_spec 97 c), (Z.leb_spec c 102); simpl; lia.
Qed.

(** A decimal numeral below [10 ^ k] is a number of one to [k] digits. *)
Lemma numeral_number n ds k :
  numeral 10 n ds → n < 10 ^ Z.of_nat k → (1 ≤ k)%nat → number 1 k ds n.
Proof.
  intros (<- & Hall & c & ds' & -> & Hlead) Hlt Hk.
  assert (Hdig : Forall is_digit (c :: ds')).
  { eapply Forall_impl; [exact Hall |]. intros x Hx. by apply digit_value_digit. }
  assert (Heq : ∀ l m, Forall (λ c, 0 <= digit_value c < 10) l →
            foldl (λ n c, n * 10 + digit_value c) m l = digits_after m l).
  { clear. induction l as [|x l IH]; intros m Hl; [done |]. inv Hl. simpl.
    destruct (digit_value_digit x) as [_ ->]; [done |]. by apply IH. }
  split; [done |]. unfold from_digits, decimal in *. rewrite Heq in * by done.
  split; [| done]. split; [simpl; lia |].
  destruct (decide (digit_value c = 0)) as [Hz|Hz]; [rewrite (Hlead Hz); simpl; lia |].
  assert (Hlow : ∀ l m, Forall is_digit l → 0 < m → m * 10 ^ Z.of_nat (length l) <= digits_after m l).
  { clear. induction l as [|x l IH]; intros m Hl Hm; simpl; [lia |]. inv Hl. unfold is_digit in *.
    etransitivity; [| apply IH; [done | lia]].
    change (Z.pos (Pos.of_succ_nat (length l))) with (Z.of_nat (S (length l))).
    rewrite Nat2Z.inj_succ, Z.pow_succ_r by lia.
    assert (0 < 10 ^ Z.of_nat (length l)) by lia. nia. }
  inv Hall. destruct (digit_value_digit c) as [_ Hcv]; [done |].
  cbn [foldl] in Hlt. rewrite Z.mul_0_l, Z.add_0_l in Hlt.
  pose proof (Hlow ds' (c - 48) ltac:(by inv Hdig) ltac:(lia)) as Hl.
  apply Nat.nlt_ge. intros Hgt. simpl in Hgt.
  assert (10 ^ Z.of_nat k <= 10 ^ Z.of_nat (length ds')) by (apply Z.pow_le_mono_r; lia).
  nia.
Qed.

Lemma print_num_truncate {S} (putc : Z → st S ()) g is_log sp u base capitals sign_char b :
  0 <= u < 2 ^ 31 →
  print_num putc g is_log sp u base capitals sign_char b =
  print_num putc g is_log sp u base capitals sign_char false.
Proof.
  intros Hu. destruct b; [| done]. unfold print_num.
  rewrite (swrap_small 32) by (change (2 ^ (32 - 1)) with 2147483648; lia).
  by rewrite wrap_small by (split; [lia |]; change (2 ^ 64) with 18446744073709551616; lia).
Qed.

(** One directive of a format. *)
Lemma doprnt_loop_directive {S} (putc : Z → st S ()) g is_log fuel radix rest args n c rest' args' sp s :
  directive rest args = Ok (c :: rest', args', sp) →
  doprnt_loop putc g is_log (Datatypes.S fuel) radix (37 :: rest) args n s =
  ('(k, args) ← conv putc g is_log radix c sp args';
   doprnt_loop putc g is_log fuel radix (if c =? 0 then c :: rest' else rest') args (s32 (n + k))) s.
Proof. intros H. cbn [doprnt_loop]. simpl. rewrite st_bind_unfold. simpl. by rewrite H. Qed.

(** What [%u] prints. *)
Lemma render_u g n :
  0 <= n < 2 ^ 31 → ∃ ds, numeral 10 n ds ∧ render g false (lit "%u") [VInt n] 10 = Ok ds.
Proof.
  intros Hn. set (sp := Spec 0 (-1) false 32 0 false false INT).
  assert (Hn' : in_u 64 n) by (split; [lia |]; change (2 ^ 64) with 18446744073709551616; lia).
  destruct (print_num_spec g false sp n 10 0 0 []) as (ds & Hnum & Hprint);
    [apply andb_false_r | lia | by left | done | simpl; lia | by left |].
  exists ds. split; [done |]. unfold render, doprnt.
  change (lit "%u") with [37; 117; 0]. cbn [length].
  erewrite doprnt_loop_directive by (by vm_compute). fold sp.
  change (conv record g false _ 117 sp [VInt n])
    with (conv_unsigned record g false sp 10 0 (doprnt_truncates g) [VInt n]).
  rewrite st_bind_unfold. unfold conv_unsigned. rewrite st_bind_unfold. unfold lift at 1.
  assert (Hget : get_unsigned sp [VInt n] = Ok (n, [])).
  { unfold get_unsigned. simpl. by rewrite wrap_small by (split; [lia |];
      change (2 ^ 32) with 4294967296; lia). }
  rewrite Hget, st_bind_unfold, print_num_truncate, Hprint by done.
  unfold num_layout, num_prefix. simpl. rewrite andb_false_r, app_nil_r.
  replace (Z.to_nat _) with 0%nat by lia. done.
Qed.

(** A buffer that holds the text [txt], zeros up to [L], and [tail] after. *)
Definition hold (L : nat) (tail txt : list Z) : list Z :=
  txt ++ replicate (L - length txt) 0 ++ tail.

Lemma hold_length L tail txt : (length txt ≤ L)%nat → length (hold L tail txt) = (L + length tail)%nat.
Proof. intros H. unfold hold. rewrite !length_app, length_replicate. lia. Qed.

Lemma number_no_NUL lo hi ds n : number lo hi ds n → 0 ∉ ds.
Proof.
  intros (Hds & _) H. rewrite Forall_forall in Hds. specialize (Hds 0 H).
  unfold is_digit in Hds. lia.
Qed.

Lemma number_weaken lo hi ds n : number lo hi ds n → number 0 hi ds n.
Proof. intros (? & ? & ?). repeat split; done || lia. Qed.

Lemma no_NUL ds n ds' n' :
  number 1 4 ds n → number 1 4 ds' n' → 0 ∉ (ds ++ [46]) ++ ds'.
Proof.
  intros H%number_no_NUL H'%number_no_NUL. rewrite !not_elem_of_app. set_solver.
Qed.

Section hold.
Context (g : cfg) (L : nat) (tail : list Z).
Hypothesis HL : (20 ≤ L)%nat ∧ Z.of_nat L < 2 ^ 31.

Lemma hold_store txt cs :
  (length txt + length cs < L)%nat →
  stored_at (hold L tail txt) (Z.of_nat (length txt)) cs = hold L tail (txt ++ cs).
Proof.
  intros Hlen. unfold stored_at, stored, hold.
  rewrite Nat2Z.id, take_app_length, drop_app_length, <- app_assoc, length_app. do 2 f_equal.
  replace (L - length txt)%nat
    with (S (length cs) + (L - length txt - S (length cs)))%nat by lia.
  rewrite replicate_add, <- app_assoc, drop_app_length' by (by rewrite length_replicate).
  replace (L - (length txt + length cs))%nat with (S (L - length txt - S (length cs))) by lia.
  done.
Qed.

Lemma hold_put txt c :
  (length txt < L)%nat →
  wr (hold L tail txt) (Z.of_nat (length txt)) c = Ok (hold L tail (txt ++ [c])).
Proof.
  intros Hlen. unfold hold. replace (L - length txt)%nat with (S (L - length txt - 1)) by lia.
  simpl. rewrite wr_mid, length_app, <- app_assoc. simpl.
  by replace (L - (length txt + 1))%nat with (L - length txt - 1)%nat by lia.
Qed.

(** Putting a number of at most four digits. *)
Lemma hold_number txt n ds :
  numeral 10 n ds → 0 <= n <= 9999 → (length txt + 4 < L)%nat →
  render g false (lit "%u") [VInt n] 10 = Ok ds →
  vsnprintf g (hold L tail txt) (Z.of_nat (length txt)) (u32 (Z.of_nat L - Z.of_nat (length txt)))
    (lit "%u") [VInt n] = Ok (hold L tail (txt ++ ds), Z.of_nat (length ds)) ∧
  put_u g (hold L tail txt) (Z.of_nat L) (Z.of_nat (length txt)) n =
  Ok (hold L tail (txt ++ ds), Z.of_nat (length ds)).
Proof.
  intros Hnum Hn Hroom Hren.
  destruct (numeral_number n ds 4 Hnum) as (Hdig & Hlen & _);
    [change (10 ^ Z.of_nat 4) with 10000; lia | lia |].
  assert (Hsw : swrap 8 <$> ds = ds).
  { rewrite <- (list_fmap_id ds) at 2. apply list_fmap_ext. intros i x Hx.
    rewrite Forall_lookup in Hdig. specialize (Hdig i x Hx). unfold is_digit in Hdig.
    apply (swrap_small 8 x); [done |]. change (2 ^ (8 - 1)) with 128. lia. }
  set (size := u32 _).
  assert (Hsize : size = Z.of_nat (L - length txt)).
  { subst size. rewrite wrap_small; [lia |]. split; [lia |].
    change (2 ^ 32) with 4294967296. destruct HL. lia. }
  assert (Hv : vsnprintf g (hold L tail txt) (Z.of_nat (length txt)) size (lit "%u") [VInt n] =
               Ok (hold L tail (txt ++ ds), Z.of_nat (length ds))).
  { rewrite (vsnprintf_spec g _ _ _ _ _ ds) by (done || rewrite ?hold_length; lia).
    rewrite (proj2 (Z.eqb_neq size 0)), Hsw, take_ge by lia. rewrite hold_store by lia.
    by rewrite swrap_small by (change (2 ^ (32 - 1)) with 2147483648; lia). }
  split; [exact Hv |]. unfold put_u.
  replace (u32 n) with n
    by (symmetry; apply wrap_small; split; [lia |]; change (2 ^ 32) with 4294967296; lia).
  fold size. unfold vscnprintf. rewrite Hv. cbn [mbind res_bind].
  rewrite Z.geb_leb, (swrap_small 64) by (change (2 ^ (64 - 1)) with 9223372036854775808; destruct HL; lia).
  by rewrite (proj2 (Z.leb_gt _ _)) by lia.
Qed.

Lemma put_number_text txt n cpos :
  0 <= n <= 9999 → (length txt + 4 < L)%nat → cpos = Z.of_nat (length txt) →
  ∃ ds, put_u g (hold L tail txt) (Z.of_nat L) cpos n =
        Ok (hold L tail (txt ++ ds), Z.of_nat (length ds)) ∧ number 1 4 ds n.
Proof.
  intros Hn Hroom ->. destruct (render_u g n) as (ds & Hnum & Hren); [lia |]. exists ds.
  split; [by apply hold_number |]. apply numeral_number; [done | | lia].
  change (10 ^ Z.of_nat 4) with 10000. lia.
Qed.

Lemma hold_cat txt cs :
  0 ∉ txt → 0 ∉ cs → (length txt + length cs < L)%nat →
  ∃ n, strlcat (hold L tail txt) (cs ++ [0]) (Z.of_nat L) = Ok (hold L tail (txt ++ cs), n).
Proof.
  intros Htxt Hcs Hlen. eexists.
  rewrite (strlcat_spec _ txt _ cs); [| | by exists [] | rewrite hold_length; lia].
  2: { exists (replicate (L - length txt - 1) 0 ++ tail). split; [| done]. unfold hold.
       destruct (L - length txt)%nat eqn:?; [lia |]. simpl. by rewrite Nat.sub_0_r. }
  rewrite (proj2 (Z.leb_gt _ _)), take_ge by lia.
  rewrite <- hold_store by lia. unfold stored_at, stored, hold.
  rewrite Nat2Z.id, take_app_length, drop_app_length, length_app, <- app_assoc.
  rewrite drop_app_ge by lia.
  by replace (S (length txt + length cs) - length txt)%nat with (S (length cs)) by lia.
Qed.

(** The numbers of a version: what is put can be followed by any stage. *)
Lemma put_numbers_spec major minor revision :
  0 <= major <= 9999 → 0 <= minor <= 9999 → 0 <= revision <= 9999 →
  ∃ txt, put_numbers g (hold L tail []) (Z.of_nat L) major minor revision =
         Ok (hold L tail txt, Z.of_nat (length txt)) ∧
    (length txt ≤ 14)%nat ∧ 0 ∉ txt ∧
    ∀ q stage level, stage_text q stage level →
      version_text (txt ++ q) (Vers major minor revision stage level).
Proof.
  intros Hmaj Hmin Hrev. unfold put_numbers.
  destruct (put_number_text [] major 0) as (dmaj & -> & Nmaj); [done | simpl; lia | done |].
  cbn [mbind res_bind app]. assert (Lmaj : (length dmaj ≤ 4)%nat) by apply Nmaj.
  rewrite hold_put by lia. cbn [mbind res_bind].
  destruct (put_number_text (dmaj ++ [46]) minor (Z.of_nat (length dmaj) + 1)) as (dmin & -> & Nmin);
    [done | rewrite length_app; simpl; lia | rewrite length_app; simpl; lia |].
  cbn [mbind res_bind]. assert (Lmin : (length dmin ≤ 4)%nat) by apply Nmin.
  assert (Hlen : Z.of_nat (length dmaj) + 1 + Z.of_nat (length dmin)
                 = Z.of_nat (length ((dmaj ++ [46]) ++ dmin)))
    by (rewrite !length_app; simpl; lia).
  rewrite Hlen. destruct (Z.eqb_spec revision 0) as [->|Hrev0]; cbn [negb].
  - eexists. split; [done |]. split; [rewrite !length_app; simpl; lia |].
    split; [by eapply no_NUL |].
    intros q s l Hq. rewrite <- !app_assoc.
    apply (vt_minor dmaj major dmin minor q s l); [done | by eapply number_weaken | done].
  - rewrite hold_put by (rewrite !length_app; simpl; lia). cbn [mbind res_bind].
    destruct (put_number_text (((dmaj ++ [46]) ++ dmin) ++ [46]) revision
                (Z.of_nat (length ((dmaj ++ [46]) ++ dmin)) + 1)) as (drev & -> & Nrev);
      [done | rewrite !length_app; simpl; lia | rewrite !length_app; simpl; lia |].
    cbn [mbind res_bind]. assert (Lrev : (length drev ≤ 4)%nat) by apply Nrev.
    eexists. split; [repeat f_equal; rewrite !length_app; simpl; lia |].
    split; [rewrite !length_app; simpl; lia |].
    split; [apply not_elem_of_app; split; [| by eapply number_no_NUL];
            apply not_elem_of_app; split; [by eapply no_NUL | set_solver] |].
    intros q s l Hq. rewrite <- !app_assoc.
    apply (vt_revision dmaj major dmin minor drev revision q s l); try done;
      by eapply number_weaken.
Qed.

Lemma put_stage_spec txt stage level :
  (length txt ≤ 14)%nat → 0 ∉ txt → stage ∈ [1; 3; 5; 7; 9] → 0 <= level <= 255 →
  ∃ st, put_stage g (hold L tail txt) (Z.of_nat L) (Z.of_nat (length txt)) stage level =
        Ok (hold L tail (txt ++ st)) ∧
    (length st ≤ 4)%nat ∧ 0 ∉ st ∧
    ((stage = 9 → level = 0) → (stage = 7 → level ≠ 0) → ∀ t, stage_text (st ++ 0 :: t) stage level).
Proof.
  intros Hlen Htxt Hstage Hlevel.
  assert (Hend : ∀ t, ends (0 :: t)) by (intros t; by exists 0, t).
  destruct (decide (stage = 9)) as [->|Hne].
  { exists []. rewrite app_nil_r. split; [done |]. split; [simpl; lia |]. split; [set_solver |].
    intros Hrel _ t. rewrite (Hrel eq_refl). apply release, Hend. }
  assert (∃ str x, OSKextVersionStringForStage stage = Some str ∧ lit str = [x; 0] ∧ x ≠ 0 ∧
            stage_letter [x] stage) as (str & x & Hstr & Hlit & Hx & Hletter).
  { unfold stage_letter. set_unfold in Hstage.
    destruct_or! Hstage; subst; try done; eexists _, _; split_and!; try done; compute_done. }
  destruct (render_u g level) as (ds & Hnum & Hren); [lia |].
  destruct (hold_number (txt ++ [x]) level ds) as [Hput _];
    [done | lia | rewrite length_app; simpl; lia | done |].
  destruct (hold_cat txt [x]) as [n Hcat]; [done | set_solver | simpl; lia |].
  assert (Hn3 : number 1 3 ds level).
  { apply numeral_number; [done | | lia]. change (10 ^ Z.of_nat 3) with 1000. lia. }
  exists (x :: ds). unfold put_stage. rewrite Hstr, Hlit. cbn [next mbind res_bind].
  rewrite (proj2 (Z.eqb_neq x 0)) by done. cbn [negb].
  change [x; 0] with ([x] ++ [0]). rewrite Hcat. cbn [mbind res_bind app strlen].
  rewrite (proj2 (Z.eqb_neq x 0)) by done. cbn [mbind res_bind Z.eqb].
  rewrite (proj2 (Z.ltb_lt _ _)) by (unfold kOSKextVersionStageRelease; set_unfold in Hstage; lia).
  rewrite (wrap_small 32 level) by (split; [lia |]; change (2 ^ 32) with 4294967296; lia).
  replace (Z.of_nat (length txt) + (1 + 0)) with (Z.of_nat (length (txt ++ [x])))
    by (rewrite length_app; simpl; lia).
  rewrite Hput. cbn [mbind res_bind].
  rewrite <- app_assoc. split; [done |]. split; [simpl; destruct Hn3 as (_ & ? & _); lia |].
  split; [apply not_elem_of_cons; split; [done | by eapply number_no_NUL] |].
  intros _ Hcand t. apply (staged [x] stage ds level (0 :: t)); try done. lia.
Qed.

End hold.

(** The printer takes an encoding apart into the fields it was made of. *)
Lemma quot_fields v :
  valid v →
  let a := encode v in
  Z.quot a VERS_MAJOR_MULT = v_major v ∧
  Z.quot (a - v_major v * VERS_MAJOR_MULT) VERS_MINOR_MULT = v_minor v ∧
  Z.quot (a - (v_major v * VERS_MAJOR_MULT + v_minor v * VERS_MINOR_MULT)) VERS_REVISION_MULT
    = v_revision v ∧
  Z.quot (a - (v_major v * VERS_MAJOR_MULT + v_minor v * VERS_MINOR_MULT
               + v_revision v * VERS_REVISION_MULT)) VERS_STAGE_MULT = v_stage v.
Proof.
  intros Hv a. pose proof (valid_stage v Hv). pose proof (encode_nonneg v Hv).
  destruct Hv as (? & ? & ? & _ & ? & _). subst a. vers_unfold.
  rewrite !Z.quot_div_nonneg by lia. repeat split; zlia.
Qed.

Lemma get_string_spec g v buf len :
  valid v → 20 <= len <= Z.of_nat (length buf) → len < 2 ^ 31 →
  ∃ txt, OSKextVersionGetString g (encode v) (Some buf) len =
         Ok (Some (hold (Z.to_nat len) (drop (Z.to_nat len) buf) txt)) ∧
    (length txt < 20)%nat ∧ 0 ∉ txt ∧ ∀ t, version_text (txt ++ 0 :: t) v.
Proof.
  intros Hv Hlen Hmax. pose proof (encode_nonneg v Hv) as Hpos.
  destruct (quot_fields v Hv) as (Q1 & Q2 & Q3 & Q4).
  pose proof Hv as (Hmaj & Hmin & Hrev & Hstage & Hlevel & Hrel & Hcand).
  set (L := Z.to_nat len). set (tail := drop L buf).
  assert (HL : (20 ≤ L)%nat ∧ Z.of_nat L < 2 ^ 31) by lia.
  destruct (put_numbers_spec g L tail HL _ _ _ Hmaj Hmin Hrev) as (txt & Hnums & Hl & Hz & Htext).
  destruct (put_stage_spec g L tail HL txt _ _ Hl Hz Hstage Hlevel)
    as (st & Hst & Hls & Hzs & Hstext). specialize (Hstext Hrel Hcand).
  exists (txt ++ st). unfold OSKextVersionGetString, kOSKextVersionMaxLength, bzero.
  rewrite (proj2 (Z.ltb_ge len 20)), (proj2 (Z.leb_le len _)) by lia. cbn [mbind res_bind].
  rewrite (proj2 (Z.ltb_ge (encode v) 0)), (proj2 (Z.eqb_neq (encode v) 0)) by lia.
  cbv zeta. rewrite Q1. rewrite Z.gtb_ltb, (proj2 (Z.ltb_ge _ _)) by (unfold VERS_MAJOR_MAX; lia).
  rewrite Q2, Q3, Q4.
  rewrite Z.gtb_ltb, (proj2 (Z.ltb_ge _ _)) by (unfold VERS_STAGE_LEVEL_MAX; vers_unfold; lia).
  replace (encode v - _) with (v_level v) by (vers_unfold; lia).
  replace (replicate _ 0 ++ _) with (hold L tail []) by (unfold hold; by rewrite Nat.sub_0_r).
  replace len with (Z.of_nat L) by lia. rewrite Hnums. cbn [mbind res_bind].
  rewrite Hst. cbn [mbind res_bind]. split; [done |]. split; [rewrite length_app; lia |].
  split; [rewrite not_elem_of_app; done |].
  intros t. rewrite <- app_assoc. specialize (Htext _ _ _ (Hstext t)). by destruct v.
Qed.

(** C21: printing and parsing are inverse: the printer stores the text of a
    valid version as a terminated string of less than 20 characters in any
    buffer of at least 20, zeros the rest of the buffer and leaves what
    follows it alone, and the parser reads the same version back. *)
Theorem version_roundtrip g v buf len :
  valid v → 20 <= len <= Z.of_nat (length buf) → len < 2 ^ 31 →
  ∃ txt, let buf' := hold (Z.to_nat len) (drop (Z.to_nat len) buf) txt in
    OSKextVersionGetString g (encode v) (Some buf) len = Ok (Some buf') ∧
    (length txt < 20)%nat ∧ 0 ∉ txt ∧
    OSKextParseVersionString (Some buf') = Ok (encode v).
Proof.
  intros Hv Hlen Hmax. destruct (get_string_spec g v buf len Hv Hlen Hmax) as (txt & Hget & Hl & Hz & Htext).
  exists txt. split; [done |]. split; [done |]. split; [done |]. unfold hold.
  destruct (Z.to_nat len - length txt)%nat eqn:E; [lia |]. apply parse_complete, Htext.
Qed.

Lemma version_roundtrip_witness :
  ∃ txt, let buf' := hold 20 (chars "tail") txt in
    OSKextVersionGetString cfg0 (encode (Vers 10 4 2 7 3)) (Some (chars "????????????????????tail")) 20
    = Ok (Some buf') ∧
    (length txt < 20)%nat ∧ 0 ∉ txt ∧
    OSKextParseVersionString (Some buf') = Ok (encode (Vers 10 4 2 7 3)).
Proof.
  apply (version_roundtrip cfg0 (Vers 10 4 2 7 3) (chars "????????????????????tail") 20);
    [unfold valid; simpl; set_solver by lia | by vm_compute | lia].
Defined.

(** Whatever the parser accepts survives a round trip: the printer turns
    the result into a string that parses to the same number. *)
Lemma parse_print_parse g p x buf len :
  0 ∈ p → OSKextParseVersionString (Some p) = Ok x → x ≠ -1 →
  20 <= len <= Z.of_nat (length buf) → len < 2 ^ 31 →
  ∃ buf', OSKextVersionGetString g x (Some buf) len = Ok (Some buf') ∧
    OSKextParseVersionString (Some buf') = Ok x.
Proof.
  intros Hp Hx Hne Hlen Hmax.
  destruct (parse_cases p Hp) as (y & Hy & Hcases). rewrite Hx in Hy. simplify_eq.
  destruct Hcases as [[-> _]|(v & _ & Hv & ->)]; [done |].
  destruct (get_string_spec g v buf len Hv Hlen Hmax) as (txt & Hget & Hl & Hz & Htext).
  eexists. split; [exact Hget |]. unfold hold.
  destruct (Z.to_nat len - length txt)%nat eqn:E; [lia |]. apply parse_complete, Htext.
Qed.

Lemma parse_print_parse_witness :
  ∃ buf', OSKextVersionGetString cfg0 (encode (Vers 7 0 0 9 0)) (Some (replicate 64 63)) 64
          = Ok (Some buf') ∧
    OSKextParseVersionString (Some buf') = Ok (encode (Vers 7 0 0 9 0)).
Proof.
  apply (parse_print_parse cfg0 (lit "0007.. beta") (encode (Vers 7 0 0 9 0)) (replicate 64 63) 64);
    [compute_done | by vm_compute | by vm_compute | simpl; lia | lia].
Defined.

(** ** Any number *)

(** A buffer of which the first [L] characters hold a terminated string and
    the rest is [tail]. *)
Definition holds_text (L : nat) (tail buf : list Z) : Prop :=
  length buf = (L + length tail)%nat ∧ drop L buf = tail ∧
  ∃ txt, cstring buf txt ∧ (length txt < 20)%nat.

Lemma hold_holds L tail txt :
  (length txt < 20 ≤ L)%nat → 0 ∉ txt → holds_text L tail (hold L tail txt).
Proof.
  intros Hlen Hz. split; [apply hold_length; lia |]. split.
  - unfold hold. rewrite app_assoc. apply drop_app_length'.
    rewrite length_app, length_replicate. lia.
  - exists txt. split; [| lia]. unfold hold.
    destruct (L - length txt)%nat as [|k] eqn:E; [lia |].
    exists (replicate k 0 ++ tail). by split.
Qed.

(** The fixed texts. *)
Lemma strlcpy_holds L tail txt s :
  (20 ≤ L)%nat → (length txt ≤ L)%nat → 0 ∉ chars s → (length (chars s) < 20)%nat →
  ∃ buf n, strlcpy (hold L tail txt) (lit s) (Z.of_nat L) = Ok (buf, n) ∧ holds_text L tail buf.
Proof.
  intros HL Hlen Hz Hs. eexists _, _.
  rewrite (strlcpy_spec _ _ (chars s)) by ((by exists []) || rewrite ?hold_length; lia).
  rewrite (proj2 (Z.eqb_neq _ 0)), take_ge by lia. split; [done |]. unfold stored. split_and!.
  - rewrite length_app. simpl. rewrite length_drop, hold_length by done. lia.
  - rewrite drop_app_ge by lia. destruct (L - length (chars s))%nat as [|k] eqn:E; [lia |].
    simpl. rewrite drop_drop. replace (S (length (chars s)) + k)%nat with L by lia.
    unfold hold. rewrite app_assoc. apply drop_app_length'.
    rewrite length_app, length_replicate. lia.
  - exists (chars s). split; [by eexists | lia].
Qed.

Lemma StringForStage_None stage :
  stage ∉ [1; 3; 5; 7; 9] → OSKextVersionStringForStage stage = None.
Proof.
  intros H. set_unfold in H. unfold OSKextVersionStringForStage.
  repeat (case_match; try done); exfalso; apply H; auto 10.
Qed.

Lemma put_stage_holds g L tail txt stage level :
  (20 ≤ L)%nat ∧ Z.of_nat L < 2 ^ 31 → (length txt ≤ 14)%nat → 0 ∉ txt → 0 <= level <= 255 →
  ∃ buf, put_stage g (hold L tail txt) (Z.of_nat L) (Z.of_nat (length txt)) stage level = Ok buf ∧
    holds_text L tail buf.
Proof.
  intros HL Hlen Hz Hlevel. destruct (decide (stage ∈ [1; 3; 5; 7; 9])) as [Hstage|Hstage].
  - destruct (put_stage_spec g L tail HL txt stage level) as (st & -> & Hl & Hzs & _); try done.
    eexists. split; [done |]. apply hold_holds; [rewrite length_app; lia |].
    by rewrite not_elem_of_app.
  - unfold put_stage. rewrite StringForStage_None by done.
    destruct (strlcpy_holds L tail txt "(invalid)") as (buf & n & -> & Hbuf);
      [lia | lia | compute_done | vm_compute; lia |].
    by exists buf.
Qed.

(** For every 64-bit number and every buffer of at least 20 characters
    the printer stays within the buffer and leaves a terminated string of
    less than 20 characters in it, without touching what follows. *)
Lemma get_string_total g a buf len :
  - 2 ^ 63 <= a < 2 ^ 63 → 20 <= len <= Z.of_nat (length buf) → len < 2 ^ 31 →
  ∃ buf', OSKextVersionGetString g a (Some buf) len = Ok (Some buf') ∧
    holds_text (Z.to_nat len) (drop (Z.to_nat len) buf) buf'.
Proof.
  intros Ha Hlen Hmax. set (L := Z.to_nat len). set (tail := drop L buf).
  assert (HL : (20 ≤ L)%nat ∧ Z.of_nat L < 2 ^ 31) by lia.
  unfold OSKextVersionGetString, kOSKextVersionMaxLength, bzero.
  rewrite (proj2 (Z.ltb_ge len 20)), (proj2 (Z.leb_le len _)) by lia. cbn [mbind res_bind].
  replace (replicate _ 0 ++ _) with (hold L tail []) by (unfold hold; by rewrite Nat.sub_0_r).
  replace len with (Z.of_nat L) by lia.
  assert (Htext : ∀ s, 0 ∉ chars s → (length (chars s) < 20)%nat →
    ∃ buf', ('(buffer, _) ← strlcpy (hold L tail []) (lit s) (Z.of_nat L); Ok (Some buffer))
            = Ok (Some buf') ∧ holds_text L tail buf').
  { intros s Hs1 Hs2.
    destruct (strlcpy_holds L tail [] s) as (buf' & n & -> & Hbuf); [lia | simpl; lia | done | done |].
    by exists buf'. }
  assert (Hinv := Htext "(invalid)"%string ltac:(compute_done) ltac:(vm_compute; lia)).
  assert (Hmis := Htext "(missing)"%string ltac:(compute_done) ltac:(vm_compute; lia)).
  clear Htext. cbv zeta.
  destruct (Z.ltb_spec a 0); [done |]. destruct (Z.eqb_spec a 0); [done |].
  rewrite !Z.gtb_ltb. destruct (Z.ltb_spec VERS_MAJOR_MAX (Z.quot a VERS_MAJOR_MULT)); [done |].
  set (major := Z.quot a _) in *. set (minor := Z.quot (_ - major * _) _).
  set (revision := Z.quot (_ - (_ + minor * _)) _). set (stage := Z.quot _ VERS_STAGE_MULT).
  destruct (Z.ltb_spec VERS_STAGE_LEVEL_MAX
    (a - (major * VERS_MAJOR_MULT + minor * VERS_MINOR_MULT
          + revision * VERS_REVISION_MULT + stage * VERS_STAGE_MULT))) as [|Hlevel]; [done |].
  assert (0 <= major <= 9999 ∧ 0 <= minor <= 9999 ∧ 0 <= revision <= 9999 ∧
          0 <= a - (major * VERS_MAJOR_MULT + minor * VERS_MINOR_MULT
                    + revision * VERS_REVISION_MULT + stage * VERS_STAGE_MULT)) as (? & ? & ? & ?).
  { subst major minor revision stage. unfold VERS_MAJOR_MAX, VERS_STAGE_LEVEL_MAX in *. vers_unfold.
    zlia. }
  destruct (put_numbers_spec g L tail HL major minor revision) as (txt & -> & Hl & Hz & _); try done.
  cbn [mbind res_bind].
  destruct (put_stage_holds g L tail txt stage
    (a - (major * VERS_MAJOR_MULT + minor * VERS_MINOR_MULT
          + revision * VERS_REVISION_MULT + stage * VERS_STAGE_MULT)) HL Hl Hz)
    as (buf' & -> & Hbuf); [unfold VERS_STAGE_LEVEL_MAX in Hlevel; lia |].
  by exists buf'.
Qed.

Lemma get_string_total_witness :
  ∃ buf', OSKextVersionGetString cfg0 1000200030002001 (Some (replicate 32 63)) 24 = Ok (Some buf') ∧
    holds_text 24 (replicate 8 63) buf'.
Proof.
  apply (get_string_total cfg0 1000200030002001 (replicate 32 63) 24); [lia | simpl; lia | lia].
Defined.

(** The printer calls a release with a level and a candidate of level 0
    by the name of another version or by a name the parser rejects, instead
    of ["(invalid)"], the text its description promises for numbers that
    encode no version. *)
Lemma print_invalid_encodings :
  (∃ buf, OSKextVersionGetString cfg0 (encode (Vers 1 0 0 9 5)) (Some (replicate 20 63)) 20 = Ok (Some buf)
          ∧ cstring buf (chars "1.0")) ∧
  (∃ buf, OSKextVersionGetString cfg0 (encode (Vers 1 0 0 7 0)) (Some (replicate 20 63)) 20 = Ok (Some buf)
          ∧ cstring buf (chars "1.0f0")) ∧
  OSKextParseVersionString (Some (lit "1.0f0")) = Ok (-1).
Proof.
  split_and!; [eexists; split; [by vm_compute |] | eexists; split; [by vm_compute |] | by vm_compute];
    (eexists; split; [by vm_compute | compute_done]).
Qed.
