(* ===== verification/Sbuf.v ===== *)
(** * String buffers

    [bsd/kern/subr_sbuf.c] and [struct sbuf] of [bsd/sys/sbuf.h].  The state
    is a small memory: the character buffers and the [struct sbuf]s that
    exist, by address, and the outcomes of the allocations to come.  Freeing
    with the wrong size, and an access to memory that is not there, fault. *)

From S2P Require Import Prelude CStr Printf.

Definition ptr := positive.

Record sbuf := Sbuf {
  s_buf : option ptr;
  s_size : Z;
  s_len : Z;
  s_flags : Z
}.

Definition SBUF_FIXEDLEN : Z := 0.
Definition SBUF_AUTOEXTEND : Z := 1.
Definition SBUF_USRFLAGMSK : Z := 65535.
Definition SBUF_DYNAMIC : Z := 65536.
Definition SBUF_FINISHED : Z := 131072.
Definition SBUF_OVERFLOWED : Z := 262144.
Definition SBUF_DYNSTRUCT : Z := 524288.

Definition INT_MAX : Z := 2147483647.
Definition SBUF_MINEXTENDSIZE : Z := 16.

(** [m_null] holds, for each coming allocation, whether it returns [NULL];
    after the end of the list allocations succeed. *)
Record mem := Mem {
  m_bufs : gmap ptr (list Z);
  m_sbufs : gmap ptr sbuf;
  m_null : list bool
}.

Definition SBUF_ISSET (sb : sbuf) (f : Z) : bool := tst (s_flags sb) f.
Definition set_flags (sb : sbuf) (flags : Z) : sbuf :=
  Sbuf (s_buf sb) (s_size sb) (s_len sb) flags.
Definition set_len (sb : sbuf) (len : Z) : sbuf :=
  Sbuf (s_buf sb) (s_size sb) len (s_flags sb).

(** ** Memory *)

Definition get_sbuf (s : ptr) : st mem sbuf := λ m,
  match m_sbufs m !! s with Some sb => Ok (sb, m) | None => Fault end.
Definition put_sbuf (s : ptr) (sb : sbuf) : st mem () := λ m,
  match m_sbufs m !! s with
  | Some _ => Ok ((), Mem (m_bufs m) (<[s := sb]> (m_sbufs m)) (m_null m))
  | None => Fault
  end.
Definition get_buf (b : option ptr) : st mem (list Z) := λ m,
  match b ≫= (λ b, m_bufs m !! b) with Some l => Ok (l, m) | None => Fault end.
Definition put_buf (b : option ptr) (l : list Z) : st mem () := λ m,
  match b with
  | Some b =>
      match m_bufs m !! b with
      | Some _ => Ok ((), Mem (<[b := l]> (m_bufs m)) (m_sbufs m) (m_null m))
      | None => Fault
      end
  | None => Fault
  end.

Definition SBUF_SETFLAG (s : ptr) (f : Z) : st mem () :=
  sb ← get_sbuf s; put_sbuf s (set_flags sb (Z.lor (s_flags sb) f)).
Definition SBUF_CLEARFLAG (s : ptr) (f : Z) : st mem () :=
  sb ← get_sbuf s; put_sbuf s (set_flags sb (Z.land (s_flags sb) (Z.lnot f))).

(** [kheap_alloc] of a [struct sbuf], with [bzero], and its [kheap_free]. *)
Definition alloc_sbuf : st mem (option ptr) := λ m,
  match m_null m with
  | true :: null => Ok (None, Mem (m_bufs m) (m_sbufs m) null)
  | _ =>
      let p := fresh (dom (m_sbufs m)) in
      Ok (Some p, Mem (m_bufs m) (<[p := Sbuf None 0 0 0]> (m_sbufs m)) (tail (m_null m)))
  end.
Definition free_sbuf (s : ptr) : st mem () := λ m,
  match m_sbufs m !! s with
  | Some _ => Ok ((), Mem (m_bufs m) (delete s (m_sbufs m)) (m_null m))
  | None => Fault
  end.
Definition free_buf (b : option ptr) (size : Z) : st mem () := λ m,
  match b with
  | Some b =>
      match m_bufs m !! b with
      | Some l => if Z.of_nat (length l) =? size
                  then Ok ((), Mem (delete b (m_bufs m)) (m_sbufs m) (m_null m)) else Fault
      | None => Fault
      end
  | None => Fault
  end.

Section sbuf.

(** The page size, the characters that [kheap_alloc] leaves in a new buffer,
    and the settings of the formatting engine. *)
Context (PAGE_SIZE : Z) (junk : Z) (g : cfg).

Definition alloc_buf (size : Z) : st mem (option ptr) := λ m,
  match m_null m with
  | true :: null => Ok (None, Mem (m_bufs m) (m_sbufs m) null)
  | _ =>
      let p := fresh (dom (m_bufs m)) in
      Ok (Some p, Mem (<[p := replicate (Z.to_nat size) junk]> (m_bufs m)) (m_sbufs m)
                    (tail (m_null m)))
  end.

(** ** Life of an sbuf *)

Definition sbuf_delete (s : ptr) : st mem () :=
  sb ← get_sbuf s;
  (if SBUF_ISSET sb SBUF_DYNAMIC && bool_decide (is_Some (s_buf sb)) then
     free_buf (s_buf sb) (s_size sb) ;;
     put_sbuf s (Sbuf None (s_size sb) (s_len sb) (s_flags sb))
   else mret ()) ;;
  if SBUF_ISSET sb SBUF_DYNSTRUCT then free_sbuf s else mret ().

(** [while (new_size < target_size) new_size *= 2]; sizes have 64 bits. *)
Fixpoint double_until (fuel : nat) (new_size target_size : Z) : res Z :=
  if new_size <? target_size then
    match fuel with
    | O => Fault
    | S fuel => double_until fuel (u64 (new_size * 2)) target_size
    end
  else Ok new_size.

(** [None] is the result [-1]; [Some] the new value of [*size]. *)
Definition sbuf_extendsize (size : Z) : res (option Z) :=
  let target_size := size in
  if target_size >? INT_MAX then Ok None
  else
    new_size ← (if target_size <? PAGE_SIZE
                then double_until 64 SBUF_MINEXTENDSIZE target_size
                else Ok (Z.land (u64 (target_size + PAGE_SIZE - 1)) (Z.lnot (PAGE_SIZE - 1))));
    if new_size >? INT_MAX then Ok None else Ok (Some new_size).

Definition sbuf_new (s : option ptr) (buf : option ptr) (length_ flags : Z) : st mem (option ptr) :=
  let length := u64 length_ in
  if (length >? INT_MAX) || negb (Z.land flags (Z.lnot SBUF_USRFLAGMSK) =? 0) then mret None
  else
    s ← (match s with
         | None =>
             s ← alloc_sbuf;
             match s with
             | None => mret None
             | Some s =>
                 put_sbuf s (Sbuf None 0 0 flags) ;;
                 SBUF_SETFLAG s SBUF_DYNSTRUCT ;;
                 mret (Some s)
             end
         | Some s => put_sbuf s (Sbuf None 0 0 flags) ;; mret (Some s)
         end);
    match s with
    | None => mret None
    | Some s =>
        sb ← get_sbuf s;
        match buf with
        | Some _ =>
            put_sbuf s (Sbuf buf length (s_len sb) (s_flags sb)) ;;
            mret (Some s)
        | None =>
            length ← lift (if SBUF_ISSET sb SBUF_AUTOEXTEND then sbuf_extendsize length
                           else Ok (Some length));
            match length with
            | None => sbuf_delete s ;; mret None
            | Some length =>
                if length =? 0 then sbuf_delete s ;; mret None
                else
                  b ← alloc_buf length;
                  match b with
                  | None => sbuf_delete s ;; mret None
                  | Some b =>
                      put_buf (Some b) (replicate (Z.to_nat length) 0) ;;
                      put_sbuf s (Sbuf (Some b) length (s_len sb) (s_flags sb)) ;;
                      SBUF_SETFLAG s SBUF_DYNAMIC ;;
                      mret (Some s)
                  end
            end
        end
    end.

(** ** Position and capacity *)

Definition sbuf_setpos (s : ptr) (pos : Z) : st mem Z :=
  sb ← get_sbuf s;
  if (pos <? 0) || (pos >? s_len sb) then mret (-1)
  else put_sbuf s (set_len sb pos) ;; mret 0.

Definition sbuf_clear (s : ptr) : st mem () :=
  SBUF_CLEARFLAG s SBUF_FINISHED ;;
  SBUF_CLEARFLAG s SBUF_OVERFLOWED ;;
  _ ← sbuf_setpos s 0;
  mret ().

(** [bcopy(src, dst, size)] from the start of one buffer to the start of
    another. *)
Definition bcopy_start (src dst : list Z) (size : Z) : res (list Z) :=
  if (size <=? Z.of_nat (length src)) && (size <=? Z.of_nat (length dst))
  then Ok (take (Z.to_nat size) src ++ drop (Z.to_nat size) dst) else Fault.

Definition sbuf_extend (s : ptr) (addlen : Z) : st mem Z :=
  if addlen =? 0 then mret 0
  else
    sb ← get_sbuf s;
    if negb (SBUF_ISSET sb SBUF_AUTOEXTEND) then mret (-1)
    else
      let new_size := u64 (s_size sb) + addlen in
      if new_size >=? 2 ^ 64 then mret (-1)
      else
        new_size ← lift (sbuf_extendsize new_size);
        match new_size with
        | None => mret (-1)
        | Some new_size =>
            new_buf ← alloc_buf new_size;
            match new_buf with
            | None => mret (-1)
            | Some _ =>
                src ← get_buf (s_buf sb);
                dst ← get_buf new_buf;
                dst ← lift (bcopy_start src dst (s_size sb));
                put_buf new_buf dst ;;
                (if SBUF_ISSET sb SBUF_DYNAMIC then free_buf (s_buf sb) (s_size sb)
                 else SBUF_SETFLAG s SBUF_DYNAMIC) ;;
                sb ← get_sbuf s;
                put_sbuf s (Sbuf new_buf new_size (s_len sb) (s_flags sb)) ;;
                mret 0
            end
        end.

Definition sbuf_capacity (sb : sbuf) : Z := u64 (s_size sb - s_len sb - 1).

Definition sbuf_ensure_capacity (s : ptr) (wanted : Z) : st mem Z :=
  sb ← get_sbuf s;
  let size := sbuf_capacity sb in
  if size >=? wanted then mret 0 else sbuf_extend s (wanted - size).

(** ** Appending *)

(** [bcopy(data, buf + off, len)] *)
Definition bcopy_at (data buf : list Z) (off len : Z) : res (list Z) :=
  if (len <=? Z.of_nat (length data)) && (0 <=? off) && (off + len <=? Z.of_nat (length buf))
  then Ok (take (Z.to_nat off) buf ++ take (Z.to_nat len) data
           ++ drop (Z.to_nat (off + len)) buf) else Fault.

Definition sbuf_bcat (s : ptr) (data : list Z) (len : Z) : st mem Z :=
  sb ← get_sbuf s;
  if SBUF_ISSET sb SBUF_OVERFLOWED then mret (-1)
  else
    r ← sbuf_ensure_capacity s len;
    if r =? -1 then SBUF_SETFLAG s SBUF_OVERFLOWED ;; mret (-1)
    else
      sb ← get_sbuf s;
      buf ← get_buf (s_buf sb);
      buf ← lift (bcopy_at data buf (s_len sb) len);
      put_buf (s_buf sb) buf ;;
      put_sbuf s (set_len sb (s_len sb + len)) ;;
      mret 0.

Definition sbuf_bcpy (s : ptr) (data : list Z) (len : Z) : st mem Z :=
  sbuf_clear s ;; sbuf_bcat s data len.

Definition sbuf_cat (s : ptr) (str : list Z) : st mem Z :=
  len ← lift (strlen str);
  sbuf_bcat s str len.

Definition sbuf_cpy (s : ptr) (str : list Z) : st mem Z :=
  sbuf_clear s ;; sbuf_cat s str.

(** The [do] loop; two rounds are enough, because the second has the room
    that the first asked for. *)
Fixpoint vprintf_loop (fuel : nat) (s : ptr) (fmt : list Z) (ap : list va) : st mem Z :=
  match fuel with
  | O => fault
  | S fuel =>
      sb ← get_sbuf s;
      let capacity := sbuf_capacity sb in
      buf ← get_buf (s_buf sb);
      '(buf, result) ← lift (vsnprintf g buf (s_len sb) (u64 (capacity + 1)) fmt ap);
      put_buf (s_buf sb) buf ;;
      if result <? 0 then mret (-1)
      else
        let len := result in
        if len <=? capacity then put_sbuf s (set_len sb (s_len sb + len)) ;; mret 0
        else
          r ← sbuf_ensure_capacity s len;
          if negb (r =? -1) then vprintf_loop fuel s fmt ap
          else SBUF_SETFLAG s SBUF_OVERFLOWED ;; mret (-1)
  end.

Definition sbuf_vprintf (s : ptr) (fmt : list Z) (ap : list va) : st mem Z :=
  sb ← get_sbuf s;
  if SBUF_ISSET sb SBUF_OVERFLOWED then mret (-1) else vprintf_loop 2 s fmt ap.

Definition sbuf_printf (s : ptr) (fmt : list Z) (args : list va) : st mem Z :=
  sbuf_vprintf s fmt args.

Definition sbuf_putc (s : ptr) (c_ : Z) : st mem Z :=
  let c := swrap 8 c_ in
  sb ← get_sbuf s;
  if SBUF_ISSET sb SBUF_OVERFLOWED then mret (-1)
  else
    r ← sbuf_ensure_capacity s 1;
    if r =? -1 then SBUF_SETFLAG s SBUF_OVERFLOWED ;; mret (-1)
    else if negb (c =? 0) then
      sb ← get_sbuf s;
      buf ← get_buf (s_buf sb);
      buf ← lift (wr buf (s_len sb) c);
      put_buf (s_buf sb) buf ;;
      put_sbuf s (set_len sb (s_len sb + 1)) ;;
      mret 0
    else mret 0.

(** ** Trimming, finishing, reading *)

Definition isspace (ch : Z) : bool := (ch =? 32) || (ch =? 10) || (ch =? 9).

(** The loop that drops trailing white space, from length [len]. *)
Fixpoint trim_len (buf : list Z) (len : nat) : res Z :=
  match len with
  | O => Ok 0
  | S n => c ← rd buf (Z.of_nat n);
           if isspace c then trim_len buf n else Ok (Z.of_nat len)
  end.

Definition sbuf_trim (s : ptr) : st mem Z :=
  sb ← get_sbuf s;
  if SBUF_ISSET sb SBUF_OVERFLOWED then mret (-1)
  else
    if s_len sb >? 0 then
      buf ← get_buf (s_buf sb);
      len ← lift (trim_len buf (Z.to_nat (s_len sb)));
      put_sbuf s (set_len sb len) ;; mret 0
    else mret 0.

Definition sbuf_overflowed (s : ptr) : st mem Z :=
  sb ← get_sbuf s; mret (if SBUF_ISSET sb SBUF_OVERFLOWED then 1 else 0).

Definition sbuf_finish (s : ptr) : st mem () :=
  sb ← get_sbuf s;
  buf ← get_buf (s_buf sb);
  buf ← lift (wr buf (s_len sb) 0);
  put_buf (s_buf sb) buf ;;
  SBUF_CLEARFLAG s SBUF_OVERFLOWED ;;
  SBUF_SETFLAG s SBUF_FINISHED.

Definition sbuf_data (s : ptr) : st mem (option ptr) :=
  sb ← get_sbuf s; mret (s_buf sb).

Definition sbuf_len (s : ptr) : st mem Z :=
  sb ← get_sbuf s;
  if SBUF_ISSET sb SBUF_OVERFLOWED then mret (-1) else mret (s_len sb).

Definition sbuf_done (s : ptr) : st mem Z :=
  sb ← get_sbuf s; mret (if SBUF_ISSET sb SBUF_FINISHED then 1 else 0).

End sbuf.
