(* ===== verification/SbufSpec.v ===== *)
(** * String buffers refine an abstract text

    A well-formed sbuf represents a text, a size and three flags; every
    operation keeps it well-formed, does not fault, and acts on the text as
    its description says, whatever the allocator answers.  The rest of memory
    is left alone, so that deleting an sbuf gives all of its memory back. *)

From S2P Require Import Prelude CStr CStrSpec Printf PrintfTrace PrintfSpec Sbuf.

(** ** What an sbuf represents *)

Record abs := Abs {
  a_text : list Z;
  a_size : Z;
  a_auto : bool;
  a_dyn : bool;
  a_struct : bool;
  a_over : bool;
  a_fin : bool
}.

(** What the members of a [struct sbuf] and its buffer represent. *)
Definition abs_of (l : list Z) (size len flags : Z) : abs :=
  Abs (take (Z.to_nat len) l) size (tst flags SBUF_AUTOEXTEND) (tst flags SBUF_DYNAMIC)
    (tst flags SBUF_DYNSTRUCT) (tst flags SBUF_OVERFLOWED) (tst flags SBUF_FINISHED).

(** In memory [m] the sbuf at [s] represents [a]; [B] and [S] are the buffers
    and sbufs that are not its own. *)
Definition repr (B : gmap ptr (list Z)) (S : gmap ptr sbuf) (s : ptr) (a : abs) (m : mem) : Prop :=
  ∃ b l sb null,
    m = Mem (<[b := l]> B) (<[s := sb]> S) null ∧ B !! b = None ∧ S !! s = None ∧
    s_buf sb = Some b ∧ Z.of_nat (length l) = s_size sb ∧
    0 <= s_len sb < s_size sb ∧ s_size sb <= INT_MAX ∧
    a = abs_of l (s_size sb) (s_len sb) (s_flags sb).

Definition with_text (a : abs) (text : list Z) : abs :=
  Abs text (a_size a) (a_auto a) (a_dyn a) (a_struct a) (a_over a) (a_fin a).
Definition with_flags (a : abs) (over fin : bool) : abs :=
  Abs (a_text a) (a_size a) (a_auto a) (a_dyn a) (a_struct a) over fin.

(** The room left for characters, one byte being kept for the NUL. *)
Definition room (a : abs) : Z := a_size a - Z.of_nat (length (a_text a)) - 1.

Lemma repr_intro B S s b l size len flags null a :
  B !! b = None → S !! s = None → Z.of_nat (length l) = size → 0 <= len < size → size <= INT_MAX →
  a = abs_of l size len flags →
  repr B S s a (Mem (<[b := l]> B) (<[s := Sbuf (Some b) size len flags]> S) null).
Proof. intros. by exists b, l, (Sbuf (Some b) size len flags), null. Qed.

(** ** Memory steps *)

Section memory.
Context (B : gmap ptr (list Z)) (S : gmap ptr sbuf) (s b : ptr) (null : list bool).

Lemma get_sbuf_eq B' sb :
  get_sbuf s (Mem B' (<[s := sb]> S) null) = Ok (sb, Mem B' (<[s := sb]> S) null).
Proof. unfold get_sbuf. simpl. by rewrite lookup_insert_eq. Qed.

Lemma put_sbuf_eq B' sb sb' :
  put_sbuf s sb' (Mem B' (<[s := sb]> S) null) = Ok ((), Mem B' (<[s := sb']> S) null).
Proof. unfold put_sbuf. simpl. by rewrite lookup_insert_eq, insert_insert_eq. Qed.

Lemma get_buf_eq S' l :
  get_buf (Some b) (Mem (<[b := l]> B) S' null) = Ok (l, Mem (<[b := l]> B) S' null).
Proof. unfold get_buf. simpl. by rewrite lookup_insert_eq. Qed.

Lemma put_buf_eq S' l l' :
  put_buf (Some b) l' (Mem (<[b := l]> B) S' null) = Ok ((), Mem (<[b := l']> B) S' null).
Proof. unfold put_buf. simpl. by rewrite lookup_insert_eq, insert_insert_eq. Qed.

Lemma free_buf_eq S' l size :
  B !! b = None → Z.of_nat (length l) = size →
  free_buf (Some b) size (Mem (<[b := l]> B) S' null) = Ok ((), Mem B S' null).
Proof.
  intros Hb <-. unfold free_buf. simpl.
  by rewrite lookup_insert_eq, Z.eqb_refl, delete_insert_id.
Qed.

Lemma set_flag_eq B' sb f :
  SBUF_SETFLAG s f (Mem B' (<[s := sb]> S) null) =
  Ok ((), Mem B' (<[s := set_flags sb (Z.lor (s_flags sb) f)]> S) null).
Proof. unfold SBUF_SETFLAG. rewrite st_bind_unfold, get_sbuf_eq. apply put_sbuf_eq. Qed.

Lemma clear_flag_eq B' sb f :
  SBUF_CLEARFLAG s f (Mem B' (<[s := sb]> S) null) =
  Ok ((), Mem B' (<[s := set_flags sb (Z.land (s_flags sb) (Z.lnot f))]> S) null).
Proof. unfold SBUF_CLEARFLAG. rewrite st_bind_unfold, get_sbuf_eq. apply put_sbuf_eq. Qed.

End memory.

Lemma wp_step {T A C} (m : st T A) (k : A → st T C) Q t a t' :
  m t = Ok (a, t') → wp (k a) Q t' → wp (m ≫= k) Q t.
Proof. intros H Hk. apply wp_bind. unfold wp at 1. by rewrite H. Qed.

Lemma wp_lift {T A C} (m : res A) (k : A → st T C) Q t a :
  m = Ok a → wp (k a) Q t → wp (lift m ≫= k) Q t.
Proof. intros -> Hk. by eapply wp_step. Qed.

(** Runs the next memory step of a goal about [wp]. *)
Ltac mstep :=
  eapply wp_step;
  [first [ apply get_sbuf_eq | apply put_sbuf_eq | apply get_buf_eq | apply put_buf_eq
         | apply set_flag_eq | apply clear_flag_eq ] | cbv beta].

(** Shows what an sbuf represents; the flags and the text are left. *)
Ltac close_repr := apply repr_intro; simpl; try (done || lia).

(** Evaluates the tests of one flag constant against another. *)
Ltac flag_bits :=
  repeat match goal with
  | |- context [tst ?x ?y] => first [change (tst x y) with true | change (tst x y) with false]
  end.

(** Opens a represented sbuf. *)
Ltac open_repr H :=
  destruct H as (b & l & [sbuf0 size len flags] & null & -> & Hb & Hs & Hbuf & Hlen & Hpos & Hmax & Ha);
  simpl in Hbuf, Hlen, Hpos, Hmax, Ha; subst sbuf0.

(** ** Position and flags *)

Section specs.
Context (PAGE_SIZE junk : Z) (g : cfg).
Context (B : gmap ptr (list Z)) (S : gmap ptr sbuf) (s : ptr).

Lemma wp_setpos a m pos :
  repr B S s a m →
  wp (sbuf_setpos s pos)
    (λ r m', if decide (0 <= pos <= Z.of_nat (length (a_text a)))
             then r = 0 ∧ repr B S s (with_text a (take (Z.to_nat pos) (a_text a))) m'
             else r = -1 ∧ m' = m) m.
Proof.
  intros H. open_repr H. subst a. unfold sbuf_setpos. mstep. simpl.
  rewrite length_take, Z.gtb_ltb.
  destruct (Z.ltb_spec pos 0), (Z.ltb_spec len pos); simpl;
    destruct (decide _); try lia; try (by apply wp_ret).
  mstep. apply wp_ret. split; [done |].
  close_repr.
  unfold with_text, abs_of. simpl. rewrite take_take. repeat f_equal. lia.
Qed.

(** Setting and clearing [SBUF_OVERFLOWED] and [SBUF_FINISHED]. *)
Lemma wp_set_flag a m f :
  f = SBUF_OVERFLOWED ∨ f = SBUF_FINISHED → repr B S s a m →
  wp (SBUF_SETFLAG s f)
    (λ _, repr B S s (with_flags a (a_over a || (f =? SBUF_OVERFLOWED))
                                   (a_fin a || (f =? SBUF_FINISHED)))) m.
Proof.
  intros Hf H. open_repr H. subst a. unfold wp. rewrite set_flag_eq.
  close_repr.
  unfold with_flags, SBUF_ISSET, abs_of. simpl. rewrite !tst_lor.
  destruct Hf as [-> | ->]; flag_bits; simpl; by rewrite !orb_false_r, !orb_true_r.
Qed.

Lemma wp_clear_flag a m f :
  f = SBUF_OVERFLOWED ∨ f = SBUF_FINISHED → repr B S s a m →
  wp (SBUF_CLEARFLAG s f)
    (λ _, repr B S s (with_flags a (a_over a && negb (f =? SBUF_OVERFLOWED))
                                   (a_fin a && negb (f =? SBUF_FINISHED)))) m.
Proof.
  intros Hf H. open_repr H. subst a. unfold wp. rewrite clear_flag_eq.
  close_repr.
  unfold with_flags, SBUF_ISSET, abs_of. simpl.
  destruct Hf as [-> | ->]; rewrite ?tst_clear_same, !tst_clear_other by done; simpl;
    by rewrite ?andb_true_r, ?andb_false_r.
Qed.

Lemma wp_clear a m :
  repr B S s a m →
  wp (sbuf_clear s) (λ _, repr B S s (with_flags (with_text a []) false false)) m.
Proof.
  intros H. unfold sbuf_clear.
  apply wp_bind. eapply wp_mono; [apply wp_clear_flag; [by right | exact H] |]. clear m H.
  intros ? m H. apply wp_bind. eapply wp_mono; [apply wp_clear_flag; [by left | exact H] |]. clear m H.
  intros ? m H. apply wp_bind. eapply wp_mono; [apply wp_setpos, H |].
  intros r m'. destruct (decide _) as [_|[]]; [| lia]. intros [_ H']. apply wp_ret.
  destruct a. simpl in H'. by rewrite !andb_false_r, andb_true_r in H'.
Qed.

(** Reading the overflow flag. *)
Lemma wp_get_over a m :
  repr B S s a m →
  wp (get_sbuf s) (λ sb m', SBUF_ISSET sb SBUF_OVERFLOWED = a_over a ∧ m' = m) m.
Proof. intros H. open_repr H. unfold wp. rewrite get_sbuf_eq. by subst a. Qed.

(** ** Size computations *)

Section sizes.
Hypothesis Hpage : ∃ k, 4 <= k <= 30 ∧ PAGE_SIZE = 2 ^ k.

Lemma double_until_spec fuel n target :
  0 < n → target <= n * 2 ^ Z.of_nat fuel → n < 2 ^ 32 → target <= 2 ^ 31 →
  ∃ r, double_until fuel n target = Ok r ∧ n <= r ∧ target <= r ∧ r <= Z.max n (2 * target).
Proof.
  revert n. induction fuel as [|fuel IH]; intros n Hn Htar Hn32 Ht31; simpl.
  - exists n. simpl in Htar. rewrite (proj2 (Z.ltb_ge n target)) by lia. split; [done | lia].
  - destruct (Z.ltb_spec n target); [| exists n; split; [done | lia]].
    rewrite wrap_small by (split; [lia |]; change (2 ^ 64) with 18446744073709551616; lia).
    rewrite Nat2Z.inj_succ, Z.pow_succ_r in Htar by lia.
    destruct (IH (n * 2)) as (r & -> & ? & ? & ?); [lia | lia | lia | lia |].
    exists r. split; [done | lia].
Qed.

Lemma extendsize_spec size :
  0 <= size →
  ∃ r, sbuf_extendsize PAGE_SIZE size = Ok r ∧
    match r with
    | Some n => size <= n <= INT_MAX ∧ 16 <= n
    | None => INT_MAX - PAGE_SIZE < size
    end.
Proof.
  intros Hsize. destruct Hpage as (k & Hk & Hp). unfold sbuf_extendsize. rewrite Z.gtb_ltb.
  assert (Hk2 : 16 <= PAGE_SIZE <= 2 ^ 30).
  { rewrite Hp. split; [change 16 with (2 ^ 4) |]; apply Z.pow_le_mono_r; lia. }
  destruct (Z.ltb_spec INT_MAX size); [eexists; split; [done | simpl; lia] |].
  destruct (Z.ltb_spec size PAGE_SIZE).
  - destruct (double_until_spec 64 SBUF_MINEXTENDSIZE size) as (r & -> & ? & ? & ?);
      unfold SBUF_MINEXTENDSIZE, INT_MAX in *; try lia.
    simpl. rewrite Z.gtb_ltb, (proj2 (Z.ltb_ge _ _)) by lia.
    exists (Some r). split; [done |]. lia.
  - simpl. rewrite wrap_small
      by (unfold INT_MAX in *; split; [lia |]; change (2 ^ 64) with 18446744073709551616; lia).
    replace (Z.land _ _) with ((size + PAGE_SIZE - 1) / PAGE_SIZE * PAGE_SIZE).
    2: { rewrite <- Z.ldiff_land, Hp.
         replace (2 ^ k - 1) with (Z.ones k) by (rewrite Z.ones_equiv; lia).
         rewrite Z.ldiff_ones_r by lia.
         by rewrite Z.shiftl_mul_pow2, Z.shiftr_div_pow2 by lia. }
    assert (size <= (size + PAGE_SIZE - 1) / PAGE_SIZE * PAGE_SIZE < size + PAGE_SIZE).
    { pose proof (Z.div_mod (size + PAGE_SIZE - 1) PAGE_SIZE ltac:(lia)).
      pose proof (Z.mod_pos_bound (size + PAGE_SIZE - 1) PAGE_SIZE ltac:(lia)). lia. }
    rewrite Z.gtb_ltb. destruct (Z.ltb_spec INT_MAX ((size + PAGE_SIZE - 1) / PAGE_SIZE * PAGE_SIZE));
      eexists; (split; [done |]); simpl; lia.
Qed.

(** ** Growing *)

Definition grown (a : abs) (n : Z) : abs :=
  Abs (a_text a) n (a_auto a) true (a_struct a) (a_over a) (a_fin a).

(** The buffers of others after an extension: the caller's buffer joins them
    when the sbuf had one. *)
Definition keeps (a : abs) (B' : gmap ptr (list Z)) : Prop :=
  B ⊆ B' ∧ (a_dyn a = true → B' = B).

(** Why an extension by [addlen] may be refused. *)
Definition refused (a : abs) (m : mem) (addlen : Z) : Prop :=
  a_auto a = false ∨ INT_MAX - PAGE_SIZE < a_size a + addlen ∨ head (m_null m) = Some true.

Lemma alloc_buf_cases m n :
  (head (m_null m) = Some true ∧
   alloc_buf junk n m = Ok (None, Mem (m_bufs m) (m_sbufs m) (tail (m_null m)))) ∨
  (∃ p, m_bufs m !! p = None ∧
   alloc_buf junk n m = Ok (Some p, Mem (<[p := replicate (Z.to_nat n) junk]> (m_bufs m)) (m_sbufs m)
                                      (tail (m_null m)))).
Proof.
  unfold alloc_buf. destruct (m_null m) as [|[] null].
  - right. eexists. split; [apply not_elem_of_dom, is_fresh | done].
  - left. done.
  - right. eexists. split; [apply not_elem_of_dom, is_fresh | done].
Qed.

(** The end of an extension: the old buffer is freed or left to the caller. *)
Lemma wp_extend_end a l b p dst size len flags n addlen null :
  a = abs_of l size len flags → B !! b = None → B !! p = None → b ≠ p → S !! s = None →
  Z.of_nat (length l) = size → 0 <= len < size →
  Z.of_nat (length dst) = n → take (Z.to_nat len) dst = take (Z.to_nat len) l →
  size + addlen <= n <= INT_MAX → 0 < addlen →
  wp ((if SBUF_ISSET (Sbuf (Some b) size len flags) SBUF_DYNAMIC then free_buf (Some b) size
       else SBUF_SETFLAG s SBUF_DYNAMIC) ;;
      sb ← get_sbuf s; put_sbuf s (Sbuf (Some p) n (s_len sb) (s_flags sb)) ;; mret 0)
    (λ r m', r = 0 ∧ ∃ B' n, keeps a B' ∧ a_size a + addlen <= n <= INT_MAX ∧
                             repr B' S s (grown a n) m')
    (Mem (<[p := dst]> (<[b := l]> B)) (<[s := Sbuf (Some b) size len flags]> S) null).
Proof.
  intros Ha Hb Hp Hbp Hs Hlen Hpos Hdst Htake Hn Hadd.
  change (SBUF_ISSET _ SBUF_DYNAMIC) with (tst flags SBUF_DYNAMIC).
  destruct (tst flags SBUF_DYNAMIC) eqn:Hdyn.
  - eapply wp_step.
    { rewrite insert_insert_ne by done. apply free_buf_eq; [| done].
      by rewrite lookup_insert_ne. }
    mstep. mstep. apply wp_ret. split; [done |]. exists B, n.
    split; [by split |]. split; [by subst a |]. close_repr.
    subst a. unfold grown, abs_of. simpl. by rewrite Htake, Hdyn.
  - mstep. mstep. mstep. apply wp_ret. split; [done |]. exists (<[b := l]> B), n.
    split; [split; [by apply insert_subseteq | subst a; simpl; congruence] |].
    split; [by subst a |]. close_repr; [rewrite lookup_insert_None; auto |].
    subst a. unfold grown, abs_of. simpl. rewrite Htake, !tst_lor. flag_bits.
    by rewrite !orb_false_r, orb_true_r.
Qed.

Lemma wp_extend a m addlen :
  repr B S s a m → 0 < addlen →
  wp (sbuf_extend PAGE_SIZE junk s addlen)
    (λ r m', (r = -1 ∧ refused a m addlen ∧ repr B S s a m') ∨
             (r = 0 ∧ a_auto a = true ∧
              ∃ B' n, keeps a B' ∧ a_size a + addlen <= n <= INT_MAX ∧
                      repr B' S s (grown a n) m')) m.
Proof.
  intros H Hadd. unfold sbuf_extend. rewrite (proj2 (Z.eqb_neq addlen 0)) by lia.
  pose proof H as H0. open_repr H. mstep. cbn [s_size s_buf].
  assert (Hauto : SBUF_ISSET (Sbuf (Some b) size len flags) SBUF_AUTOEXTEND = a_auto a) by by subst a.
  assert (Hsize : size = a_size a) by by subst a.
  rewrite Hauto. unfold refused. destruct (a_auto a) eqn:Ha'; cbn [negb]; [| apply wp_ret; left; split_and!; by auto].
  rewrite (wrap_small 64 size) by (unfold INT_MAX in Hmax; split; [lia |];
    change (2 ^ 64) with 18446744073709551616; lia).
  rewrite Z.geb_leb. destruct (Z.leb_spec (2 ^ 64) (size + addlen)).
  { apply wp_ret. left. split; [done |]. split; [| done].
    destruct Hpage as (k & Hk & ->). right. left. rewrite <- Hsize.
    assert (0 < 2 ^ k) by lia. change (2 ^ 64) with 18446744073709551616 in *. unfold INT_MAX. lia. }
  destruct (extendsize_spec (size + addlen)) as (r & Hr & Hpost); [lia |].
  eapply wp_lift; [exact Hr |]. destruct r as [n|].
  2: { apply wp_ret. left. rewrite <- Hsize. by auto. }
  destruct (alloc_buf_cases (Mem (<[b:=l]> B) (<[s:=Sbuf (Some b) size len flags]> S) null) n)
    as [[Hnull Halloc]|(p & Hp & Halloc)]; (eapply wp_step; [exact Halloc |]); cbn [m_bufs m_sbufs m_null].
  { apply wp_ret. left. split; [done |]. split; [by auto |].
    by close_repr. }
  simpl in Hp. apply lookup_insert_None in Hp as [HBp Hbp].
  rewrite (insert_insert_ne B p b) by done. mstep.
  rewrite <- (insert_insert_ne B p b) by done. mstep.
  eapply wp_lift.
  { unfold bcopy_start. rewrite Hlen, length_replicate.
    rewrite (proj2 (Z.leb_le size size)), (proj2 (Z.leb_le size _)) by lia. done. }
  mstep. set (dst := take _ l ++ _).
  assert (Hdst : take (Z.to_nat len) dst = take (Z.to_nat len) l).
  { subst dst. rewrite take_app_le, take_take by (rewrite length_take; lia). f_equal. lia. }
  assert (Hdlen : Z.of_nat (length dst) = n).
  { subst dst. rewrite length_app, length_take, length_drop, length_replicate. lia. }
  clearbody dst. destruct Hpost as [Hpost _].
  eapply wp_mono; [by apply (wp_extend_end a l b p dst size len flags n addlen) |].
  intros r m' [? ?]. by right.
Qed.

(** An sbuf that has room for [wanted] characters, after growing perhaps. *)
Definition fits (a : abs) (wanted : Z) (B' : gmap ptr (list Z)) (a' : abs) : Prop :=
  keeps a B' ∧ wanted <= room a' ∧
  ((a' = a ∧ B' = B) ∨ (room a < wanted ∧ a_auto a = true ∧ ∃ n, a' = grown a n)).

Lemma sbuf_capacity_room l size len flags buf0 :
  Z.of_nat (length l) = size → 0 <= len < size → size <= INT_MAX →
  sbuf_capacity (Sbuf buf0 size len flags) = room (abs_of l size len flags).
Proof.
  intros Hlen Hpos Hmax. unfold sbuf_capacity, room. simpl. rewrite length_take.
  unfold INT_MAX in Hmax. rewrite wrap_small; [lia |]. split; [lia |].
  change (2 ^ 64) with 18446744073709551616. lia.
Qed.

Lemma wp_ensure a m wanted :
  repr B S s a m → 0 <= wanted →
  wp (sbuf_ensure_capacity PAGE_SIZE junk s wanted)
    (λ r m', (r = -1 ∧ room a < wanted ∧ refused a m (wanted - room a) ∧ repr B S s a m') ∨
             (r = 0 ∧ ∃ B' a', fits a wanted B' a' ∧ repr B' S s a' m')) m.
Proof.
  intros H Hw. pose proof H as H0. open_repr H. unfold sbuf_ensure_capacity. mstep.
  rewrite (sbuf_capacity_room l), <- Ha by done. rewrite Z.geb_leb.
  destruct (Z.leb_spec wanted (room a)).
  - apply wp_ret. right. split; [done |]. exists B, a. split; [| done]. by repeat split; auto.
  - eapply wp_mono; [apply wp_extend; [exact H0 | lia] |].
    intros r m' [(-> & Href & H')|(-> & Hauto & B' & n & Hk & Hn & H')]; [by auto |].
    right. split; [done |]. exists B', (grown a n). split; [| done].
    split; [done |]. unfold room in *. simpl. split; [lia |].
    right. by eauto.
Qed.

End sizes.

End specs.

(** ** Appending *)

Section append.
Context (PAGE_SIZE junk : Z) (g : cfg).
Hypothesis Hpage : ∃ k, 4 <= k <= 30 ∧ PAGE_SIZE = 2 ^ k.
Context (S : gmap ptr sbuf) (s : ptr).

(** What appending [cs], with room for [wanted] characters asked for, may do
    to a represented sbuf: append; or fail and leave the text, when there is no room and the buffer may not grow, is too
    large or cannot be allocated. *)
Definition appended (B : gmap ptr (list Z)) (a : abs) (m : mem) (wanted : Z) (cs : list Z)
    (r : Z) (m' : mem) : Prop :=
  (r = 0 ∧ a_over a = false ∧
   ∃ B' a', fits B a wanted B' a' ∧ repr B' S s (with_text a' (a_text a ++ cs)) m') ∨
  (r = -1 ∧ a_over a = true ∧ m' = m) ∨
  (r = -1 ∧ a_over a = false ∧ room a < wanted ∧ refused PAGE_SIZE a m (wanted - room a) ∧
   repr B S s (with_flags a true (a_fin a)) m').

Lemma fits_text B a wanted B' a' :
  fits B a wanted B' a' → a_text a' = a_text a ∧ a_over a' = a_over a ∧ a_fin a' = a_fin a.
Proof. intros (_ & _ & [[-> _]|(_ & _ & n & ->)]); done. Qed.

(** Storing behind the text, where there is room. *)
Lemma wp_store B a m data n :
  repr B S s a m → 0 <= n <= Z.of_nat (length data) → n <= room a →
  wp (sb ← get_sbuf s;
      buf ← get_buf (s_buf sb);
      buf ← lift (bcopy_at data buf (s_len sb) n);
      put_buf (s_buf sb) buf ;;
      put_sbuf s (set_len sb (s_len sb + n)) ;;
      mret 0)
    (λ r m', r = 0 ∧ repr B S s (with_text a (a_text a ++ take (Z.to_nat n) data)) m') m.
Proof.
  intros H Hn Hroom. open_repr H. mstep. cbn [s_buf s_len]. mstep.
  assert (Hfit : len + n < size).
  { subst a. unfold room in Hroom. simpl in Hroom. rewrite length_take in Hroom. lia. }
  eapply wp_lift.
  { unfold bcopy_at. rewrite !(proj2 (Z.leb_le _ _)) by lia. done. }
  mstep. mstep. apply wp_ret. split; [done |]. close_repr.
  - rewrite !length_app, !length_take, length_drop. lia.
  - subst a. unfold with_text, abs_of. simpl. f_equal.
    rewrite app_assoc, take_app_length'; [done |]. rewrite length_app, !length_take. lia.
Qed.

(** The start that the appending operations share: the overflow test and the
    request for room; [k] runs with the room. *)
Lemma wp_append_start B a m wanted cs (k : st mem Z) :
  repr B S s a m → 0 <= wanted →
  (∀ B' a' m', fits B a wanted B' a' → repr B' S s a' m' →
     wp k (λ r m'', r = 0 ∧ repr B' S s (with_text a' (a_text a' ++ cs)) m'') m') →
  wp (sb ← get_sbuf s;
      if SBUF_ISSET sb SBUF_OVERFLOWED then mret (-1)
      else
        r ← sbuf_ensure_capacity PAGE_SIZE junk s wanted;
        if r =? -1 then SBUF_SETFLAG s SBUF_OVERFLOWED ;; mret (-1) else k)
    (appended B a m wanted cs) m.
Proof.
  intros H Hw Hk. apply wp_bind. eapply wp_mono; [eapply wp_get_over, H |]. intros sb m0 [Hov ->].
  rewrite Hov. destruct (a_over a) eqn:Ho.
  { apply wp_ret. right. left. done. }
  apply wp_bind. eapply wp_mono; [apply (wp_ensure _ _ B S s Hpage); [exact H | lia] |].
  intros r m' [(-> & Hroom & Href & H')|(-> & B' & a' & Hfits & H')]; simpl.
  - apply wp_bind. eapply wp_mono; [apply wp_set_flag; [by left | exact H'] |].
    intros ? m'' H''. apply wp_ret. right. right. rewrite Ho in *. simpl in H''.
    rewrite orb_false_r in H''. by auto.
  - destruct (fits_text _ _ _ _ _ Hfits) as (Ht & _ & _).
    eapply wp_mono; [by apply (Hk B' a') |]. intros r m'' [-> H'']. left.
    split; [done |]. split; [done |]. exists B', a'. rewrite <- Ht. by split.
Qed.

Lemma wp_bcat B a m data len :
  repr B S s a m → 0 <= len <= Z.of_nat (length data) →
  wp (sbuf_bcat PAGE_SIZE junk s data len) (appended B a m len (take (Z.to_nat len) data)) m.
Proof.
  intros H Hlen. apply (wp_append_start B); [done | lia |].
  intros B' a' m' Hfits H'. apply wp_store; [done | done | apply Hfits].
Qed.

(** [sbuf_cat] appends a C string. *)
Lemma wp_cat B a m p str :
  repr B S s a m → cstring p str →
  wp (sbuf_cat PAGE_SIZE junk s p) (appended B a m (Z.of_nat (length str)) str) m.
Proof.
  intros H Hp. eapply wp_lift; [by apply strlen_spec |].
  replace str with (take (Z.to_nat (Z.of_nat (length str))) p) at 3.
  - apply wp_bcat; [done |]. apply cstring_length in Hp. lia.
  - destruct Hp as (t & -> & _). by rewrite Nat2Z.id, take_app_length.
Qed.

Lemma wp_putc B a m c_ :
  repr B S s a m →
  let c := swrap 8 c_ in
  wp (sbuf_putc PAGE_SIZE junk s c_) (appended B a m 1 (if c =? 0 then [] else [c])) m.
Proof.
  intros H c. apply (wp_append_start B); [done | lia |].
  intros B' a' m' (_ & Hroom & _) H'. fold c. destruct (c =? 0); simpl negb; cbv iota.
  - apply wp_ret. split; [done |]. rewrite app_nil_r. by destruct a'.
  - open_repr H'. mstep. cbn [s_buf s_len]. mstep.
    assert (Hfit : len + 1 < size).
    { subst a'. unfold room in Hroom. simpl in Hroom. rewrite length_take in Hroom. lia. }
    eapply wp_lift; [apply wr_inside; lia |].
    mstep. mstep. apply wp_ret. split; [done |]. close_repr.
    + rewrite length_app, length_take. simpl. rewrite length_drop. lia.
    + subst a'. unfold with_text, abs_of. simpl. f_equal.
      set (t := drop _ _). change (c :: t) with ([c] ++ t).
      rewrite app_assoc, take_app_length'; [done |].
      rewrite length_app, length_take. simpl. lia.
Qed.

(** ** Printing *)

Section printing.
Context (fmt : list Z) (ap : list va) (out : list Z).
Hypothesis Hout : render g false fmt ap 10 = Ok out.
Hypothesis Hint : Z.of_nat (length out) <= INT_MAX.

Lemma stored_at_length l off cs :
  0 <= off → off + Z.of_nat (length cs) < Z.of_nat (length l) →
  length (stored_at l off cs) = length l.
Proof.
  intros Hoff Hfit. unfold stored_at, stored.
  rewrite !length_app, length_take. simpl. rewrite !length_drop. lia.
Qed.

Lemma stored_at_take l off cs n :
  0 <= off → off <= Z.of_nat (length l) → (n ≤ length cs)%nat →
  take (Z.to_nat off + n) (stored_at l off cs) = take (Z.to_nat off) l ++ take n cs.
Proof.
  intros Hoff Hfit Hn. unfold stored_at, stored.
  assert (Hl : length (take (Z.to_nat off) l) = Z.to_nat off) by (rewrite length_take; lia).
  rewrite take_app_add' by done. f_equal. by rewrite take_app_le.
Qed.

(** One round of the loop: the text grows by the output when there is room,
    and otherwise only the bytes behind it change. *)
Lemma wp_vprintf_round B a m fuel Q :
  repr B S s a m →
  (∀ m', m_null m' = m_null m →
     (Z.of_nat (length out) <= room a →
        repr B S s (with_text a (a_text a ++ (swrap 8 <$> out))) m' → Q 0 m') ∧
     (room a < Z.of_nat (length out) → repr B S s a m' →
        wp (r ← sbuf_ensure_capacity PAGE_SIZE junk s (Z.of_nat (length out));
            if negb (r =? -1) then vprintf_loop PAGE_SIZE junk g fuel s fmt ap
            else SBUF_SETFLAG s SBUF_OVERFLOWED ;; mret (-1)) Q m')) →
  wp (vprintf_loop PAGE_SIZE junk g (Datatypes.S fuel) s fmt ap) Q m.
Proof.
  intros H HQ. open_repr H. cbn [vprintf_loop]. mstep. cbn [s_buf s_len]. mstep.
  rewrite (sbuf_capacity_room l), <- Ha by done.
  assert (Hroom : room a = size - len - 1).
  { subst a. unfold room. simpl. rewrite length_take. lia. }
  rewrite wrap_small by (unfold INT_MAX in *; split; [lia |];
    change (2 ^ 64) with 18446744073709551616; lia).
  eapply wp_lift.
  { apply (vsnprintf_spec g l len (room a + 1) fmt ap out); done || lia. }
  rewrite (proj2 (Z.eqb_neq (room a + 1) 0)) by lia. rewrite Z.add_simpl_r.
  rewrite swrap_small by (unfold INT_MAX in Hint; change (2 ^ (32 - 1)) with 2147483648; lia).
  mstep. rewrite (proj2 (Z.ltb_ge _ 0)) by lia.
  set (cs := take _ (swrap 8 <$> out)).
  assert (Hcs : length cs = (Z.to_nat (room a) `min` length out)%nat)
    by (subst cs; by rewrite length_take, length_fmap).
  assert (Hl' : length (stored_at l len cs) = length l) by (apply stored_at_length; lia).
  destruct (Z.leb_spec (Z.of_nat (length out)) (room a)).
  - mstep. apply wp_ret. eapply HQ; [done | done |]. close_repr.
    subst a. unfold with_text, abs_of. simpl. f_equal.
    replace (Z.to_nat (len + Z.of_nat (length out))) with (Z.to_nat len + length cs)%nat by lia.
    rewrite stored_at_take by lia. rewrite (take_ge cs) by lia. f_equal.
    subst cs. by rewrite take_ge by (rewrite length_fmap; lia).
  - apply HQ; [done | done |]. close_repr. subst a. unfold abs_of. f_equal.
    replace (Z.to_nat len) with (Z.to_nat len + 0)%nat by lia.
    rewrite stored_at_take by lia. by rewrite app_nil_r, Nat.add_0_r.
Qed.

(** [sbuf_vprintf] appends what the format renders, growing the buffer
    once if it has to; with no room to be had it marks the sbuf as
    overflowed and leaves the text as it was. *)
Lemma wp_vprintf B a m :
  repr B S s a m →
  wp (sbuf_vprintf PAGE_SIZE junk g s fmt ap)
    (appended B a m (Z.of_nat (length out)) (swrap 8 <$> out)) m.
Proof.
  intros H. apply wp_bind. eapply wp_mono; [eapply wp_get_over, H |]. intros sb m0 [Hov ->].
  rewrite Hov. destruct (a_over a) eqn:Ho.
  { apply wp_ret. right. left. done. }
  apply wp_vprintf_round with B a; [done |]. intros m1 Hnull1. split.
  { intros Hroom H1. left. split; [done |]. split; [done |]. exists B, a.
    split; [| done]. by repeat split; auto. }
  intros Hroom H1. apply wp_bind.
  eapply wp_mono; [apply (wp_ensure _ _ B S s Hpage); [exact H1 | lia] |].
  intros r m2 [(-> & _ & Href & H2)|(-> & B' & a' & Hfits & H2)]; cbn [Z.eqb Pos.eqb negb].
  - apply wp_bind. eapply wp_mono; [apply wp_set_flag; [by left | exact H2] |].
    intros ? m3 H3. apply wp_ret. right. right. rewrite Ho in *. simpl in H3.
    rewrite orb_false_r in H3. unfold refused in *. rewrite Hnull1 in Href. by auto.
  - destruct (fits_text _ _ _ _ _ Hfits) as (Ht & _ & _).
    apply wp_vprintf_round with B' a'; [done |]. intros m3 _. split.
    + intros _ H3. left. split; [done |]. split; [done |]. exists B', a'. rewrite <- Ht. by split.
    + intros Hlt _. destruct Hfits as (_ & ? & _). lia.
Qed.

End printing.

End append.
