(* ===== verification/SbufRefine.v ===== *)
(** * Sequences of sbuf operations

    An abstract machine on texts, and the theorem that every sequence of
    operations on an sbuf is a run of it; creation and deletion, with the
    accounting of memory; and the sizes for which an sbuf is not safe. *)

From S2P Require Import Prelude CStr CStrSpec Printf PrintfTrace PrintfSpec Sbuf SbufSpec.

(** ** Trimming and finishing *)

(** [t] is [text] without the white space at its end. *)
Definition trimmed (text t : list Z) : Prop :=
  ∃ ws, text = t ++ ws ∧ Forall (λ c, isspace c = true) ws ∧
    (∀ t' c, t = t' ++ [c] → isspace c = false).

Lemma trim_len_spec l n :
  (n ≤ length l)%nat →
  ∃ k, trim_len l n = Ok (Z.of_nat k) ∧ (k ≤ n)%nat ∧ trimmed (take n l) (take k l).
Proof.
  induction n as [|n IH]; intros Hn; simpl.
  { exists 0%nat. split; [done |]. split; [done |]. exists []. rewrite take_0.
    split; [done |]. split; [done |]. by intros [|].  }
  destruct (lookup_lt_is_Some_2 l n) as [c Hc]; [lia |].
  rewrite (proj2 (rd_lookup l (Z.of_nat n) c)) by (split; [lia | by rewrite Nat2Z.id]). simpl.
  rewrite (take_S_r l n c) by done. destruct (isspace c) eqn:Hsp.
  - destruct IH as (k & Hk & Hkn & ws & Ht & Hws & Hlast); [lia |].
    exists k. split; [done |]. split; [lia |]. exists (ws ++ [c]).
    rewrite Ht, <- app_assoc. split; [done |]. split; [| done].
    apply Forall_app. by auto.
  - exists (Datatypes.S n). split; [done |]. split; [lia |]. exists [].
    rewrite (take_S_r l n c), app_nil_r by done. split; [done |]. split; [done |].
    intros t' c' [_ ->]%app_inj_tail. done.
Qed.

Section ops.
Context (PAGE_SIZE junk : Z) (g : cfg).
Hypothesis Hpage : ∃ k, 4 <= k <= 30 ∧ PAGE_SIZE = 2 ^ k.
Context (S : gmap ptr sbuf) (s : ptr).

Lemma wp_trim B a m :
  repr B S s a m →
  wp (sbuf_trim s)
    (λ r m', if a_over a then r = -1 ∧ m' = m
             else r = 0 ∧ ∃ t, trimmed (a_text a) t ∧ repr B S s (with_text a t) m') m.
Proof.
  intros H. pose proof H as H0. open_repr H. unfold sbuf_trim. mstep.
  assert (Hover : SBUF_ISSET (Sbuf (Some b) size len flags) SBUF_OVERFLOWED = a_over a) by by subst a.
  rewrite Hover. destruct (a_over a); [by apply wp_ret |]. cbn [s_len s_buf].
  rewrite Z.gtb_ltb. destruct (Z.ltb_spec 0 len).
  - mstep. destruct (trim_len_spec l (Z.to_nat len)) as (k & Hk & Hkn & Htrim); [lia |].
    eapply wp_lift; [exact Hk |]. mstep. apply wp_ret. split; [done |].
    exists (take k l). split; [by subst a |]. close_repr.
    subst a. unfold with_text, abs_of. simpl. by rewrite Nat2Z.id.
  - apply wp_ret. split; [done |]. exists (a_text a). split; [| by destruct a].
    exists []. rewrite app_nil_r. split; [done |]. split; [done |].
    subst a. simpl. replace (Z.to_nat len) with 0%nat by lia. by intros [|].
Qed.

Lemma wp_finish B a m :
  repr B S s a m →
  wp (sbuf_finish s)
    (λ _ m', repr B S s (with_flags a false true) m' ∧
             ∃ b l t, m_bufs m' !! b = Some l ∧ l = a_text a ++ 0 :: t ∧
                      sbuf_data s m' = Ok (Some b, m')) m.
Proof.
  intros H. open_repr H. unfold sbuf_finish. mstep. cbn [s_buf s_len]. mstep.
  eapply wp_lift; [apply wr_inside; lia |]. mstep. mstep.
  unfold wp. rewrite set_flag_eq. split.
  - close_repr; [rewrite length_app, length_take; simpl; rewrite length_drop; lia |].
    subst a. unfold with_flags, abs_of. simpl. rewrite !tst_lor, !tst_clear_same, !tst_clear_other by done.
    flag_bits. rewrite !orb_false_r, orb_true_r, take_app_length'; [done |]. rewrite length_take. lia.
  - eexists b, _, _. simpl. rewrite lookup_insert_eq. split; [done |]. split; [by subst a |].
    unfold sbuf_data. rewrite st_bind_unfold, get_sbuf_eq. done.
Qed.

(** ** The abstract machine *)

Inductive op :=
  | Bcat (data : list Z) (len : Z)
  | Bcpy (data : list Z) (len : Z)
  | Cat (str : list Z)
  | Cpy (str : list Z)
  | Print (fmt : list Z) (ap : list va)
  | Putc (c : Z)
  | Setpos (pos : Z)
  | Clear
  | Trim
  | Finish.

(** The call of an operation; those of type [void] return 0. *)
Definition run_op (o : op) : st mem Z :=
  match o with
  | Bcat data len => sbuf_bcat PAGE_SIZE junk s data len
  | Bcpy data len => sbuf_bcpy PAGE_SIZE junk s data len
  | Cat str => sbuf_cat PAGE_SIZE junk s str
  | Cpy str => sbuf_cpy PAGE_SIZE junk s str
  | Print fmt ap => sbuf_printf PAGE_SIZE junk g s fmt ap
  | Putc c => sbuf_putc PAGE_SIZE junk s c
  | Setpos pos => sbuf_setpos s pos
  | Clear => sbuf_clear s ;; mret 0
  | Trim => sbuf_trim s
  | Finish => sbuf_finish s ;; mret 0
  end.

Fixpoint run_ops (os : list op) : st mem (list Z) :=
  match os with
  | [] => mret []
  | o :: os => r ← run_op o; rs ← run_ops os; mret (r :: rs)
  end.

(** The characters an operation appends and the room it asks for. *)
Definition appends (o : op) (wanted : Z) (cs : list Z) : Prop :=
  match o with
  | Bcat data len | Bcpy data len =>
      0 <= len <= Z.of_nat (length data) ∧ wanted = len ∧ cs = take (Z.to_nat len) data
  | Cat str | Cpy str => cstring str cs ∧ wanted = Z.of_nat (length cs)
  | Print fmt ap =>
      ∃ out, render g false fmt ap 10 = Ok out ∧ Z.of_nat (length out) <= INT_MAX ∧
        cs = swrap 8 <$> out ∧ wanted = Z.of_nat (length cs)
  | Putc c => wanted = 1 ∧ cs = if swrap 8 c =? 0 then [] else [swrap 8 c]
  | _ => False
  end.

(** Appending to a text: within the room; beyond it, when the buffer may
    grow; or overflowing. *)
Inductive append (a : abs) (wanted : Z) (cs : list Z) : Z → abs → Prop :=
  | append_room :
      a_over a = false → wanted <= room a →
      append a wanted cs 0 (with_text a (a_text a ++ cs))
  | append_grow n :
      a_over a = false → room a < wanted → a_auto a = true → wanted <= room (grown a n) →
      append a wanted cs 0 (with_text (grown a n) (a_text a ++ cs))
  | append_overflow :
      a_over a = false → room a < wanted → append a wanted cs (-1) (with_flags a true (a_fin a))
  | append_overflowed :
      a_over a = true → append a wanted cs (-1) a.

Definition cleared (a : abs) : abs := with_flags (with_text a []) false false.

Inductive astep (a : abs) : op → Z → abs → Prop :=
  | step_append o wanted cs r a' :
      match o with Bcpy _ _ | Cpy _ => False | _ => True end →
      appends o wanted cs → append a wanted cs r a' → astep a o r a'
  | step_copy o wanted cs r a' :
      match o with Bcpy _ _ | Cpy _ => True | _ => False end →
      appends o wanted cs → append (cleared a) wanted cs r a' → astep a o r a'
  | step_setpos pos :
      0 <= pos <= Z.of_nat (length (a_text a)) →
      astep a (Setpos pos) 0 (with_text a (take (Z.to_nat pos) (a_text a)))
  | step_setpos_bad pos :
      ¬ 0 <= pos <= Z.of_nat (length (a_text a)) → astep a (Setpos pos) (-1) a
  | step_clear : astep a Clear 0 (cleared a)
  | step_trim t :
      a_over a = false → trimmed (a_text a) t → astep a Trim 0 (with_text a t)
  | step_trim_bad : a_over a = true → astep a Trim (-1) a
  | step_finish : astep a Finish 0 (with_flags a false true).

Inductive asteps : abs → list op → list Z → abs → Prop :=
  | asteps_nil a : asteps a [] [] a
  | asteps_cons a o os r rs a' a'' :
      astep a o r a' → asteps a' os rs a'' → asteps a (o :: os) (r :: rs) a''.

(** What an operation needs of its arguments. *)
Definition op_ok (o : op) : Prop :=
  match o with
  | Setpos _ | Clear | Trim | Finish => True
  | _ => ∃ wanted cs, appends o wanted cs
  end.

Lemma keeps_trans B a B' a' B'' :
  keeps B a B' → keeps B' a' B'' → (a_dyn a = true → a_dyn a' = true) → keeps B a B''.
Proof.
  intros [H1 H2] [H3 H4] Hd. split; [by etransitivity |]. intros Ha.
  rewrite (H4 (Hd Ha)). auto.
Qed.

Lemma keeps_refl B a : keeps B a B.
Proof. by split. Qed.

(** The result of an appending operation is an abstract append. *)
Lemma appended_step B a m wanted cs r m' :
  appended PAGE_SIZE S s B a m wanted cs r m' → repr B S s a m →
  ∃ B' a', append a wanted cs r a' ∧ repr B' S s a' m' ∧ keeps B a B' ∧
           (a_dyn a = true → a_dyn a' = true) ∧ a_struct a' = a_struct a.
Proof.
  intros [(-> & Hov & B' & a' & (Hk & Hroom & Ha') & H')|[(-> & Hov & ->)|(-> & Hov & Hroom & _ & H')]] H.
  - destruct Ha' as [[-> ->]|(Hlt & Hauto & n & ->)].
    + exists B, (with_text a (a_text a ++ cs)). split_and!; try done. by constructor.
    + exists B', (with_text (grown a n) (a_text a ++ cs)). split_and!; try done. by constructor.
  - exists B, a. split_and!; try done. by constructor.
  - exists B, (with_flags a true (a_fin a)). split_and!; try done. by constructor.
Qed.

Lemma append_wp B a m o wanted cs (p : st mem Z) :
  repr B S s a m → appends o wanted cs →
  wp p (appended PAGE_SIZE S s B a m wanted cs) m →
  wp p (λ r m', ∃ B' a', append a wanted cs r a' ∧ repr B' S s a' m' ∧ keeps B a B' ∧
                  (a_dyn a = true → a_dyn a' = true) ∧ a_struct a' = a_struct a) m.
Proof.
  intros H Ha Hp. eapply wp_mono; [exact Hp |]. intros r m' Happ. by eapply appended_step.
Qed.

(** What a step leaves: a state of the abstract machine, represented. *)
Definition stepped (B : gmap ptr (list Z)) (a : abs) (o : op) (r : Z) (m' : mem) : Prop :=
  ∃ B' a', astep a o r a' ∧ repr B' S s a' m' ∧ keeps B a B' ∧
           (a_dyn a = true → a_dyn a' = true) ∧ a_struct a' = a_struct a.

Lemma stepped_append B a m o wanted cs (p : st mem Z) :
  match o with Bcpy _ _ | Cpy _ => False | _ => True end →
  repr B S s a m → appends o wanted cs →
  wp p (appended PAGE_SIZE S s B a m wanted cs) m → wp p (stepped B a o) m.
Proof.
  intros Ho H Hw Hp. eapply wp_mono; [by eapply append_wp |].
  intros r m' (B' & a' & ? & ? & ? & ? & ?). exists B', a'. split_and!; try done.
  by eapply step_append.
Qed.

Lemma stepped_copy B a m o wanted cs (p : st mem Z) :
  match o with Bcpy _ _ | Cpy _ => True | _ => False end →
  repr B S s a m → appends o wanted cs →
  (∀ m', repr B S s (cleared a) m' →
     wp p (appended PAGE_SIZE S s B (cleared a) m' wanted cs) m') →
  wp (sbuf_clear s ;; p) (stepped B a o) m.
Proof.
  intros Ho H Hw Hp. apply wp_bind. eapply wp_mono; [apply wp_clear, H |]. intros ? m' H'.
  eapply wp_mono; [eapply append_wp; [exact H' | done | by apply Hp] |].
  intros r m'' (B' & a' & ? & ? & ? & ? & ?). exists B', a'. split_and!; try done.
  by eapply step_copy.
Qed.

(** One operation simulates one step. *)
Lemma wp_run_op B a m o : repr B S s a m → op_ok o → wp (run_op o) (stepped B a o) m.
Proof.
  intros H Hok. destruct o as [data len|data len|str|str|fmt ap|c|pos| | |]; simpl in Hok.
  - destruct Hok as (wanted & cs & Hlen & -> & ->).
    by eapply stepped_append; [| | | apply wp_bcat].
  - destruct Hok as (wanted & cs & Hlen & -> & ->).
    eapply stepped_copy; [done | done | done |]. intros m' H'. by apply wp_bcat.
  - destruct Hok as (wanted & cs & Hstr & ->).
    by eapply stepped_append; [| | | apply wp_cat].
  - destruct Hok as (wanted & cs & Hstr & ->).
    eapply stepped_copy; [done | done | done |]. intros m' H'. by apply wp_cat.
  - destruct Hok as (wanted & cs & out & Hout & Hint & -> & ->).
    eapply stepped_append; [done | done | by exists out |].
    rewrite length_fmap. by apply wp_vprintf.
  - destruct Hok as (wanted & cs & -> & ->).
    by eapply stepped_append; [| | | apply wp_putc].
  - eapply wp_mono; [apply wp_setpos, H |]. intros r m'. destruct (decide _) as [Hp|Hp].
    + intros [-> H']. eexists B, _. split_and!; try done. by constructor.
    + intros [-> ->]. exists B, a. split_and!; try done. by constructor.
  - apply wp_bind. eapply wp_mono; [apply wp_clear, H |]. intros ? m' H'. apply wp_ret.
    exists B, (cleared a). split_and!; try done. by constructor.
  - eapply wp_mono; [apply wp_trim, H |]. intros r m'. destruct (a_over a) eqn:Ho.
    + intros [-> ->]. exists B, a. split_and!; try done. by constructor.
    + intros (-> & t & Ht & H'). eexists B, _. split_and!; try done. by constructor.
  - apply wp_bind. eapply wp_mono; [apply wp_finish, H |]. intros ? m' [H' _]. apply wp_ret.
    exists B, (with_flags a false true). split_and!; try done. by constructor.
Qed.

Lemma wp_run_ops os : ∀ B a m,
  repr B S s a m → Forall op_ok os →
  wp (run_ops os) (λ rs m', ∃ B' a', asteps a os rs a' ∧ repr B' S s a' m' ∧ keeps B a B' ∧
                     (a_dyn a = true → a_dyn a' = true) ∧ a_struct a' = a_struct a) m.
Proof.
  induction os as [|o os IH]; intros B a m H Hok; simpl.
  { apply wp_ret. exists B, a. split_and!; try done. constructor. }
  inv Hok. apply wp_bind. eapply wp_mono; [by apply wp_run_op |].
  intros r m1 (B1 & a1 & Hstep & Hr1 & Hk1 & Hd1 & Hs1).
  apply wp_bind. eapply wp_mono; [by apply IH |].
  intros rs m2 (B2 & a2 & Hsteps & Hr2 & Hk2 & Hd2 & Hs2). apply wp_ret.
  exists B2, a2. split_and!; [by econstructor | done | by eapply keeps_trans | by auto | congruence].
Qed.

End ops.

(** C16: every sequence of operations on a well-formed sbuf, whatever the
    allocator answers, runs without a fault; its results and the text, size
    and flags after it are those of a run of the abstract machine; the other
    sbufs, and the buffers of others, are unchanged. *)
Theorem sbuf_refines PAGE_SIZE junk g B S s a m os :
  (∃ k, 4 <= k <= 30 ∧ PAGE_SIZE = 2 ^ k) →
  repr B S s a m → Forall (op_ok g) os →
  ∃ rs m' B' a', run_ops PAGE_SIZE junk g s os m = Ok (rs, m') ∧
    asteps g a os rs a' ∧ repr B' S s a' m' ∧ B ⊆ B' ∧ (a_dyn a = true → B' = B).
Proof.
  intros Hpage H Hok.
  destruct (wp_Ok _ _ _ (wp_run_ops PAGE_SIZE junk g Hpage S s os B a m H Hok))
    as (rs & m' & Hrun & B' & a' & ? & ? & [? ?] & _).
  exists rs, m', B', a'. by split_and!.
Qed.

(** ** Creation and deletion *)

(** Flags that the caller may give contain none of the internal ones. *)
Lemma user_flag flags c :
  Z.land flags (Z.lnot SBUF_USRFLAGMSK) = 0 → Z.land SBUF_USRFLAGMSK c = 0 → tst flags c = false.
Proof.
  intros Hf Hc. unfold tst. replace (Z.land flags c) with 0; [done |].
  symmetry. apply Z.bits_inj_0. intros i. rewrite Z.land_spec.
  assert (H1 := f_equal (λ z, Z.testbit z i) Hf). assert (H2 := f_equal (λ z, Z.testbit z i) Hc).
  simpl in H1, H2. rewrite Z.land_spec, Z.bits_0 in H1, H2.
  destruct (Z.ltb_spec i 0); [by rewrite (Z.testbit_neg_r flags) by lia |].
  rewrite Z.lnot_spec in H1 by lia.
  by destruct (Z.testbit flags i), (Z.testbit c i), (Z.testbit SBUF_USRFLAGMSK i).
Qed.

Lemma free_sbuf_eq (B : gmap ptr (list Z)) (S : gmap ptr sbuf) s sb null :
  S !! s = None → free_sbuf s (Mem B (<[s := sb]> S) null) = Ok ((), Mem B S null).
Proof. intros Hs. unfold free_sbuf. simpl. by rewrite lookup_insert_eq, delete_insert_id. Qed.

Lemma wp_delete B S s a m :
  repr B S s a m → a_struct a = true →
  wp (sbuf_delete s)
    (λ _ m', m_sbufs m' = S ∧ B ⊆ m_bufs m' ∧ (a_dyn a = true → m_bufs m' = B)) m.
Proof.
  intros H Hst. open_repr H. unfold sbuf_delete. mstep.
  assert (Hdyn : SBUF_ISSET (Sbuf (Some b) size len flags) SBUF_DYNAMIC = a_dyn a) by by subst a.
  assert (Hstr : SBUF_ISSET (Sbuf (Some b) size len flags) SBUF_DYNSTRUCT = true) by by rewrite <- Hst; subst a.
  rewrite Hdyn, Hstr. cbn [s_buf s_size s_len s_flags]. rewrite bool_decide_true by done.
  destruct (a_dyn a); simpl.
  - apply wp_bind. eapply wp_step; [by apply free_buf_eq |]. unfold wp at 1. rewrite put_sbuf_eq.
    unfold wp. rewrite free_sbuf_eq by done. by split_and!.
  - eapply wp_step; [done |]. unfold wp. rewrite free_sbuf_eq by done. simpl.
    split; [done |]. split; [by apply insert_subseteq | done].
Qed.

(** An sbuf whose buffer has not been set yet is only freed itself. *)
Lemma delete_fresh B S s size len flags null :
  S !! s = None → tst flags SBUF_DYNSTRUCT = true →
  sbuf_delete s (Mem B (<[s := Sbuf None size len flags]> S) null) = Ok ((), Mem B S null).
Proof.
  intros Hs Hf. unfold sbuf_delete. rewrite st_bind_unfold, get_sbuf_eq.
  cbn [s_buf]. rewrite bool_decide_false, andb_false_r by (by intros []).
  rewrite st_bind_unfold. unfold mret, st_ret at 1, SBUF_ISSET. cbn [s_flags]. rewrite Hf.
  by apply free_sbuf_eq.
Qed.

Lemma alloc_sbuf_cases m :
  alloc_sbuf m = Ok (None, Mem (m_bufs m) (m_sbufs m) (tail (m_null m))) ∨
  (∃ p, m_sbufs m !! p = None ∧
   alloc_sbuf m = Ok (Some p, Mem (m_bufs m) (<[p := Sbuf None 0 0 0]> (m_sbufs m)) (tail (m_null m)))).
Proof.
  unfold alloc_sbuf. destruct (m_null m) as [|[] null].
  - right. eexists. split; [apply not_elem_of_dom, is_fresh | done].
  - by left.
  - right. eexists. split; [apply not_elem_of_dom, is_fresh | done].
Qed.

Section create.
Context (PAGE_SIZE junk : Z) (g : cfg).
Hypothesis Hpage : ∃ k, 4 <= k <= 30 ∧ PAGE_SIZE = 2 ^ k.

(** Creating an sbuf with memory of its own: an empty text, or failure with
    nothing left allocated. *)
Definition created (m : mem) (length_ flags : Z) (r : option ptr) (m' : mem) : Prop :=
  match r with
  | None => m_bufs m' = m_bufs m ∧ m_sbufs m' = m_sbufs m
  | Some s => ∃ n, length_ <= n ∧
      repr (m_bufs m) (m_sbufs m) s
        (Abs [] n (tst flags SBUF_AUTOEXTEND) true true false false) m'
  end.

Lemma wp_new m length_ flags :
  - 2 ^ 31 <= length_ < 2 ^ 31 →
  wp (sbuf_new PAGE_SIZE junk None None length_ flags) (created m length_ flags) m.
Proof.
  intros Hlen. unfold sbuf_new. rewrite Z.gtb_ltb.
  destruct (Z.ltb_spec INT_MAX (u64 length_)) as [|Hmax]; [by apply wp_ret |].
  destruct (Z.eqb_spec (Z.land flags (Z.lnot SBUF_USRFLAGMSK)) 0) as [Hflags|]; [| by apply wp_ret].
  assert (Hu : u64 length_ = length_ ∧ 0 <= length_).
  { destruct (Z.leb_spec 0 length_).
    - split; [| done]. apply wrap_small. split; [done |].
      change (2 ^ 64) with 18446744073709551616. lia.
    - exfalso. revert Hmax. unfold wrap, INT_MAX. change (2 ^ 64) with 18446744073709551616. zlia. }
  destruct Hu as [Hu Hpos]. rewrite Hu in *. cbn [orb negb]. apply wp_bind. apply wp_bind.
  destruct m as [B S null].
  destruct (alloc_sbuf_cases (Mem B S null)) as [Ha|(s & Hs & Ha)]; simpl in *;
    (eapply wp_of_Ok; [exact Ha |]).
  { apply wp_ret. by apply wp_ret. }
  mstep. mstep. apply wp_ret. mstep. cbn [s_flags s_len set_flags s_buf s_size].
  change (SBUF_ISSET _ SBUF_AUTOEXTEND) with (tst (Z.lor flags SBUF_DYNSTRUCT) SBUF_AUTOEXTEND).
  assert (Hst : tst (Z.lor flags SBUF_DYNSTRUCT) SBUF_DYNSTRUCT = true).
  { rewrite tst_lor. flag_bits. apply orb_true_r. }
  assert (Hfail : ∀ nl, wp (sbuf_delete s ;; mret None) (created (Mem B S null) length_ flags)
            (Mem B (<[s:=Sbuf None 0 0 (Z.lor flags SBUF_DYNSTRUCT)]> S) nl)).
  { intros nl. eapply wp_step; [by apply delete_fresh |]. by apply wp_ret. }
  assert (Hext : ∃ r, (if tst (Z.lor flags SBUF_DYNSTRUCT) SBUF_AUTOEXTEND
                       then sbuf_extendsize PAGE_SIZE length_ else Ok (Some length_)) = Ok r ∧
                      match r with Some n => length_ <= n <= INT_MAX | None => True end).
  { destruct (tst (Z.lor flags SBUF_DYNSTRUCT) SBUF_AUTOEXTEND);
      [| exists (Some length_); split; [done | lia]].
    destruct (extendsize_spec PAGE_SIZE Hpage length_ Hpos) as ([n|] & -> & Hn); (eexists; split; [done |]); simpl; done || lia. }
  destruct Hext as (r & Hr & Hn). eapply wp_lift; [exact Hr |]. unfold set_flags. cbn [s_buf s_size s_len].
  destruct r as [n|]; [| apply Hfail]. destruct (Z.eqb_spec n 0) as [|Hn0]; [apply Hfail |].
  destruct (alloc_buf_cases junk (Mem B (<[s:=Sbuf None 0 0 (Z.lor flags SBUF_DYNSTRUCT)]> S) (tail null)) n)
    as [[_ Hb]|(b & Hb & Halloc)]; (eapply wp_step; [done |]); [apply Hfail |].
  mstep. mstep. mstep. apply wp_ret. exists n. split; [lia |]. unfold set_flags. cbn [s_buf s_size s_len s_flags].
  apply repr_intro; [done | done | rewrite length_replicate; lia | lia | lia |].
  unfold abs_of. rewrite !tst_lor. flag_bits.
  by rewrite (user_flag flags SBUF_OVERFLOWED), (user_flag flags SBUF_FINISHED), !orb_false_r, !orb_true_r by done.
Qed.

(** Creating an sbuf without a buffer either fails and leaves memory as
    it was, or yields an empty, well-formed sbuf of at least the size asked
    for that does not overlap anything that existed. *)
Lemma sbuf_new_correct m length_ flags :
  - 2 ^ 31 <= length_ < 2 ^ 31 →
  ∃ r m', sbuf_new PAGE_SIZE junk None None length_ flags m = Ok (r, m') ∧ created m length_ flags r m'.
Proof. intros H. by apply wp_Ok, wp_new. Qed.

(** The whole life of an sbuf that is given neither a structure nor a buffer:
    created, used, deleted. *)
Definition life (length_ flags : Z) (os : list op) : st mem () :=
  s ← sbuf_new PAGE_SIZE junk None None length_ flags;
  match s with
  | None => mret ()
  | Some s => run_ops PAGE_SIZE junk g s os ;; sbuf_delete s
  end.

(** C27: when an sbuf is created with [sbuf_new(NULL, NULL, length, flags)], so
    that it allocates its structure and its buffer itself, no memory is leaked or
    freed twice, and nothing else is touched: after any sequence of operations
    between creation and deletion, with any answers of the allocator, the buffers
    and sbufs of the system are those there were before.  An sbuf over a buffer
    of the caller is not covered ([sbuf_new_buffer_correct] is about one of at
    least one byte, [sbuf_size_zero_overruns] about one of none). *)
Theorem sbuf_life_restores m length_ flags os :
  - 2 ^ 31 <= length_ < 2 ^ 31 → Forall (op_ok g) os →
  ∃ m', life length_ flags os m = Ok ((), m') ∧ m_bufs m' = m_bufs m ∧ m_sbufs m' = m_sbufs m.
Proof.
  intros Hlen Hok.
  assert (Hwp : wp (life length_ flags os) (λ _ m', m_bufs m' = m_bufs m ∧ m_sbufs m' = m_sbufs m) m).
  { apply wp_bind. eapply wp_mono; [by apply wp_new |]. intros [s|] m1; [| intros H; by apply wp_ret].
    intros (n & _ & H1). apply wp_bind. eapply wp_mono; [by eapply wp_run_ops |].
    intros rs m2 (B' & a' & _ & H2 & [_ Hk] & Hd & Hs). rewrite (Hk eq_refl) in H2.
    eapply wp_mono; [by eapply wp_delete |]. intros ? m3 (HS & _ & HB). split; [| done].
    apply HB. by apply Hd. }
  destruct (wp_Ok _ _ _ Hwp) as ([] & m' & ? & ? & ?). by exists m'.
Qed.

(** Creating an sbuf over the caller's buffer, of its whole size. *)
Lemma wp_new_buffer m b l flags :
  m_bufs m !! b = Some l → 1 <= Z.of_nat (length l) <= INT_MAX →
  Z.land flags (Z.lnot SBUF_USRFLAGMSK) = 0 →
  wp (sbuf_new PAGE_SIZE junk None (Some b) (Z.of_nat (length l)) flags)
    (λ r m', match r with
             | None => m_bufs m' = m_bufs m ∧ m_sbufs m' = m_sbufs m
             | Some s => repr (delete b (m_bufs m)) (m_sbufs m) s
                 (Abs [] (Z.of_nat (length l)) (tst flags SBUF_AUTOEXTEND) false true false false) m'
             end) m.
Proof.
  intros Hb Hlen Hflags. unfold sbuf_new.
  rewrite (wrap_small 64) by (unfold INT_MAX in *; split; [lia |]; change (2 ^ 64) with 18446744073709551616; lia).
  rewrite Z.gtb_ltb, (proj2 (Z.ltb_ge _ _)), Hflags by lia. cbn [orb negb Z.eqb].
  apply wp_bind. apply wp_bind. destruct m as [B S null].
  destruct (alloc_sbuf_cases (Mem B S null)) as [Ha|(s & Hs & Ha)]; simpl in *;
    (eapply wp_of_Ok; [exact Ha |]).
  { apply wp_ret. by apply wp_ret. }
  mstep. mstep. apply wp_ret. mstep. cbn [s_flags s_len set_flags s_buf s_size].
  mstep. apply wp_ret. rewrite <- (insert_delete_id B b l Hb) at 2.
  apply repr_intro; [by rewrite lookup_delete_eq | done | done | lia | lia |].
  unfold abs_of. rewrite !tst_lor. flag_bits.
  by rewrite (user_flag flags SBUF_OVERFLOWED), (user_flag flags SBUF_FINISHED),
    (user_flag flags SBUF_DYNAMIC), !orb_false_r, !orb_true_r by done.
Qed.

End create.

(** An sbuf over a buffer of the caller's, whose whole size is given,
    starts out empty and well-formed; nothing else is touched. *)
Lemma sbuf_new_buffer_correct PAGE_SIZE junk m b l flags :
  m_bufs m !! b = Some l → 1 <= Z.of_nat (length l) <= INT_MAX →
  Z.land flags (Z.lnot SBUF_USRFLAGMSK) = 0 →
  ∃ r m', sbuf_new PAGE_SIZE junk None (Some b) (Z.of_nat (length l)) flags m = Ok (r, m') ∧
    match r with
    | None => m_bufs m' = m_bufs m ∧ m_sbufs m' = m_sbufs m
    | Some s => repr (delete b (m_bufs m)) (m_sbufs m) s
        (Abs [] (Z.of_nat (length l)) (tst flags SBUF_AUTOEXTEND) false true false false) m'
    end.
Proof. intros. by apply wp_Ok, wp_new_buffer. Qed.

(** ** Witnesses *)

Definition page : Z := 4096.
Lemma page_ok : ∃ k, 4 <= k <= 30 ∧ page = 2 ^ k.
Proof. exists 12. split; [lia | done]. Qed.

(** A growing sbuf of 16 bytes that holds ["ab"], next to a buffer of another. *)
Definition mem_ab : mem :=
  Mem (<[1%positive := chars "ab" ++ replicate 14 0]> {[2%positive := chars "other"]})
      (<[1%positive := Sbuf (Some 1%positive) 16 2 65537]> ∅) [].

Lemma mem_ab_repr :
  repr {[2%positive := chars "other"]} ∅ 1%positive (Abs (chars "ab") 16 true true false false false) mem_ab.
Proof. by apply repr_intro. Qed.

Definition ops_ab : list op :=
  [Putc 99; Cat (lit " "); Print (lit "%s-%d") [VPtr (Some (lit "kext")); VInt 123456789];
   Trim; Setpos 3; Finish].

Lemma ops_ab_ok : Forall (op_ok cfg0) ops_ab.
Proof.
  repeat constructor.
  - by eexists _, _.
  - eexists _, (chars " "). split; [apply cstring_lit; compute_done | done].
  - eexists _, _, (chars "kext-123456789"). by split_and!; vm_compute.
Qed.

Lemma sbuf_refines_witness :
  ∃ rs m' B' a', run_ops page 0 cfg0 1%positive ops_ab mem_ab = Ok (rs, m') ∧
    asteps cfg0 (Abs (chars "ab") 16 true true false false false) ops_ab rs a' ∧
    repr B' ∅ 1%positive a' m' ∧ {[2%positive := chars "other"]} ⊆ B' ∧
    (true = true → B' = {[2%positive := chars "other"]}).
Proof.
  apply (sbuf_refines page 0 cfg0 {[2%positive := chars "other"]} ∅ 1%positive
           (Abs (chars "ab") 16 true true false false false) mem_ab ops_ab);
    [apply page_ok | apply mem_ab_repr | apply ops_ab_ok].
Defined.

Lemma sbuf_new_correct_witness :
  ∃ r m', sbuf_new page 0 None None 20 SBUF_AUTOEXTEND mem_ab = Ok (r, m') ∧
    created mem_ab 20 SBUF_AUTOEXTEND r m'.
Proof. apply (sbuf_new_correct page 0 page_ok mem_ab 20 SBUF_AUTOEXTEND). lia. Defined.

Lemma sbuf_new_buffer_correct_witness :
  ∃ r m', sbuf_new page 0 None (Some 2%positive) 5 0 mem_ab = Ok (r, m') ∧
    match r with
    | None => m_bufs m' = m_bufs mem_ab ∧ m_sbufs m' = m_sbufs mem_ab
    | Some s => repr (delete 2%positive (m_bufs mem_ab)) (m_sbufs mem_ab) s
        (Abs [] 5 false false true false false) m'
    end.
Proof.
  apply (sbuf_new_buffer_correct page 0 mem_ab 2%positive (chars "other") 0);
    [by vm_compute | by vm_compute | done].
Defined.

Lemma sbuf_life_restores_witness :
  ∃ m', life page 0 cfg0 4 SBUF_AUTOEXTEND ops_ab
          (Mem (m_bufs mem_ab) (m_sbufs mem_ab) [false; false; true]) = Ok ((), m') ∧
    m_bufs m' = m_bufs mem_ab ∧ m_sbufs m' = m_sbufs mem_ab.
Proof.
  apply (sbuf_life_restores page 0 cfg0 page_ok
           (Mem (m_bufs mem_ab) (m_sbufs mem_ab) [false; false; true]) 4 SBUF_AUTOEXTEND ops_ab);
    [lia | apply ops_ab_ok].
Defined.

(** A caller's buffer of size 0 is accepted, although the code says that
    such a size makes [sbuf_capacity] underflow: the sbuf then takes its room
    to be [2 ^ 64 - 1] bytes and stores four characters in a buffer it was
    told has none. *)
Lemma sbuf_size_zero_overruns :
  ∃ s m sb m', sbuf_new page 0 None (Some 2%positive) 0 0 mem_ab = Ok (Some s, m) ∧
    m_sbufs m !! s = Some sb ∧ s_size sb = 0 ∧ sbuf_capacity sb = 2 ^ 64 - 1 ∧
    sbuf_bcat page 0 s (chars "XYZW") 4 m = Ok (0, m') ∧
    m_bufs m' !! 2%positive = Some (chars "XYZWr").
Proof.
  eexists _, _, _, _. split; [by vm_compute |]. split; [by vm_compute |].
  split; [done |]. split; [by vm_compute |]. split; by vm_compute.
Qed.
