(* ===== verification/SbufTests.v ===== *)
(** * The self-test of the string buffers

    [sysctl_sbuf_tests] of [bsd/kern/subr_sbuf.c], the test that runs when
    the [kern.sbuf_test] control is written, one definition per group of
    assertions.  Running it on the model of [Sbuf] shows that the definitions
    do on these inputs what the authors of the code expect of it. *)

From S2P Require Import Prelude CStr Printf Sbuf.

(** A test runs on the memory and the count [passed].  It gives [None] after
    [goto fail]; it faults where the kernel would access memory that is not
    there. *)
Definition T (A : Type) : Type := mem * Z → res (option A * (mem * Z)).
#[global] Instance T_ret : MRet T := λ A a m, Ok (Some a, m).
#[global] Instance T_bind : MBind T := λ A B f t m,
  '(a, m) ← t m;
  match a with Some a => f a m | None => Ok (None, m) end.

Definition on {A} (t : st mem A) : T A := λ '(m, passed),
  '(a, m) ← t m; Ok (Some a, (m, passed)).
(** An operation through the variable [s]; a null pointer faults. *)
Definition at_ {A} (s : option ptr) (f : ptr → st mem A) : T A :=
  match s with Some s => on (f s) | None => λ _, Fault end.

Definition SBUF_ASSERT (x : bool) : T () := λ '(m, passed),
  if x then Ok (Some (), (m, passed + 1)) else Ok (None, (m, passed)).
Definition SBUF_ASSERT_SET (a : T bool) : T () := x ← a; SBUF_ASSERT x.
Definition SBUF_ASSERT_CLEAR (a : T bool) : T () := x ← a; SBUF_ASSERT (negb x).
Definition SBUF_ASSERT_EQ (e : Z) (a : T Z) : T () := x ← a; SBUF_ASSERT (x =? e).
Definition SBUF_ASSERT_NE (e : Z) (a : T Z) : T () := x ← a; SBUF_ASSERT (negb (x =? e)).
Definition SBUF_ASSERT_GT (e : Z) (a : T Z) : T () := x ← a; SBUF_ASSERT (x >? e).
Definition SBUF_ASSERT_GTE (e : Z) (a : T Z) : T () := x ← a; SBUF_ASSERT (x >=? e).
Definition SBUF_ASSERT_PTR_EQ (e : option ptr) (a : T (option ptr)) : T () :=
  x ← a; SBUF_ASSERT (bool_decide (x = e)).
Definition SBUF_ASSERT_PTR_NE (e : option ptr) (a : T (option ptr)) : T () :=
  x ← a; SBUF_ASSERT (negb (bool_decide (x = e))).

(** The members the tests look at. *)
Definition field (f : sbuf → Z) (s : option ptr) : T Z :=
  at_ s (λ s, sb ← get_sbuf s; mret (f sb)).
Definition buf_of (s : option ptr) : T (option ptr) :=
  at_ s (λ s, sb ← get_sbuf s; mret (s_buf sb)).
Definition isset (s : option ptr) (f : Z) : T bool :=
  at_ s (λ s, sb ← get_sbuf s; mret (SBUF_ISSET sb f)).
Definition char_at (s : option ptr) (i : Z) : T Z :=
  at_ s (λ s, sb ← get_sbuf s; buf ← get_buf (s_buf sb); lift (rd buf i)).

(** The local variables [buf] and [existing], at addresses of their own. *)
Definition stack_buf (l : list Z) : T ptr := on (λ m,
  let p := fresh (dom (m_bufs m)) in
  Ok (p, Mem (<[p := l]> (m_bufs m)) (m_sbufs m) (m_null m))).
Definition stack_sbuf (sb : sbuf) : T ptr := on (λ m,
  let p := fresh (dom (m_sbufs m)) in
  Ok (p, Mem (m_bufs m) (<[p := sb]> (m_sbufs m)) (m_null m))).
(** A structure filled with bytes 0x41. *)
Definition sbuf_0x41 : sbuf := Sbuf (Some 65%positive) 1094795585 1094795585 1094795585.

(** [for (n = 0; n < strlen(data); ++n) SBUF_ASSERT_EQ(data[n], s->s_buf[n])] *)
Fixpoint check_chars (s : option ptr) (data : list Z) (n : Z) (rounds : nat) : T () :=
  match rounds with
  | O => mret ()
  | S rounds =>
      c ← on (lift (rd data n));
      SBUF_ASSERT_EQ c (char_at s n) ;; check_chars s data (n + 1) rounds
  end.

Definition ENOTRECOVERABLE : Z := 104.

Section tests.
(** The contents of fresh memory, and the settings of the formatter. *)
Context (junk : Z) (g : cfg).

(** The page size of the machine. *)
Definition PAGE_SIZE : Z := 4096.

(** The tests of [sbuf_new]. *)
Definition test_sbuf_new : T () :=
  (* should fail to allocate >INT_MAX *)
  (s ← on (sbuf_new PAGE_SIZE junk None None (s32 (INT_MAX + 1)) 0);
   SBUF_ASSERT_PTR_EQ None (mret s)) ;;
  (* should fail when claiming a backing buffer >INT_MAX *)
  (buf ← stack_buf (replicate 4 0);
   s ← on (sbuf_new PAGE_SIZE junk None (Some buf) (s32 (INT_MAX + 1)) 0);
   SBUF_ASSERT_PTR_EQ None (mret s)) ;;
  (* should fail to allocate a zero-length sbuf *)
  (s ← on (sbuf_new PAGE_SIZE junk None None 0 0);
   SBUF_ASSERT_PTR_EQ None (mret s)) ;;
  (* should not accept invalid flags *)
  (s ← on (sbuf_new PAGE_SIZE junk None None 16 65536);
   SBUF_ASSERT_PTR_EQ None (mret s)) ;;
  (* should succeed when passed an existing sbuf *)
  (existing ← stack_sbuf sbuf_0x41;
   s ← on (sbuf_new PAGE_SIZE junk (Some existing) None 16 SBUF_AUTOEXTEND);
   SBUF_ASSERT_PTR_EQ (Some existing) (mret s) ;;
   SBUF_ASSERT_SET (isset s SBUF_AUTOEXTEND) ;;
   SBUF_ASSERT_SET (isset s SBUF_DYNAMIC) ;;
   SBUF_ASSERT_PTR_NE None (buf_of s) ;;
   SBUF_ASSERT_NE 0 (field s_size s) ;;
   SBUF_ASSERT_EQ 0 (field s_len s) ;;
   at_ s sbuf_delete) ;;
  (* should succeed when passed an existing sbuf and buffer *)
  (buf ← stack_buf (replicate 4 0);
   existing ← stack_sbuf sbuf_0x41;
   s ← on (sbuf_new PAGE_SIZE junk (Some existing) (Some buf) 4 0);
   SBUF_ASSERT_PTR_EQ (Some existing) (mret s) ;;
   SBUF_ASSERT_PTR_EQ (Some buf) (buf_of s) ;;
   SBUF_ASSERT_EQ 4 (field s_size s) ;;
   SBUF_ASSERT_EQ 0 (field s_len s) ;;
   at_ s sbuf_delete) ;;
  (* should succeed without an existing sbuf or buffer *)
  (s ← on (sbuf_new PAGE_SIZE junk None None 16 0);
   SBUF_ASSERT_PTR_NE None (mret s) ;;
   SBUF_ASSERT_SET (isset s SBUF_DYNAMIC) ;;
   SBUF_ASSERT_SET (isset s SBUF_DYNSTRUCT) ;;
   SBUF_ASSERT_PTR_NE None (buf_of s) ;;
   SBUF_ASSERT_NE 0 (field s_size s) ;;
   SBUF_ASSERT_EQ 0 (field s_len s) ;;
   at_ s sbuf_delete) ;;
  (* should succeed without an existing sbuf, but with a buffer *)
  (buf ← stack_buf (replicate 4 0);
   s ← on (sbuf_new PAGE_SIZE junk None (Some buf) 4 0);
   SBUF_ASSERT_PTR_NE None (mret s) ;;
   SBUF_ASSERT_SET (isset s SBUF_DYNSTRUCT) ;;
   SBUF_ASSERT_PTR_EQ (Some buf) (buf_of s) ;;
   SBUF_ASSERT_EQ 4 (field s_size s) ;;
   SBUF_ASSERT_EQ 0 (field s_len s) ;;
   at_ s sbuf_delete) ;;
  (* should round up the requested size if SBUF_AUTOEXTEND *)
  (s ← on (sbuf_new PAGE_SIZE junk None None 1 SBUF_AUTOEXTEND);
   SBUF_ASSERT_GT 1 (field s_size s) ;;
   at_ s sbuf_delete).

(** The tests of [sbuf_clear]. *)
Definition test_sbuf_clear : T () :=
  (* should clear the overflowed and finished flags *)
  (s ← on (sbuf_new PAGE_SIZE junk None None 16 0);
   at_ s (λ s, SBUF_SETFLAG s SBUF_OVERFLOWED) ;;
   SBUF_ASSERT_SET (isset s SBUF_OVERFLOWED) ;;
   at_ s (λ s, SBUF_SETFLAG s SBUF_FINISHED) ;;
   SBUF_ASSERT_SET (isset s SBUF_FINISHED) ;;
   at_ s sbuf_clear ;;
   SBUF_ASSERT_CLEAR (isset s SBUF_OVERFLOWED) ;;
   SBUF_ASSERT_CLEAR (isset s SBUF_FINISHED) ;;
   at_ s sbuf_delete) ;;
  (* should reset the position to zero *)
  (s ← on (sbuf_new PAGE_SIZE junk None None 16 0);
   at_ s (λ s, sb ← get_sbuf s; put_sbuf s (set_len sb 1)) ;;
   at_ s sbuf_clear ;;
   SBUF_ASSERT_EQ 0 (field s_len s) ;;
   at_ s sbuf_delete).

(** The tests of [sbuf_extend]. *)
Definition test_sbuf_extend : T () :=
  (* should allow zero *)
  (s ← on (sbuf_new PAGE_SIZE junk None None 16 SBUF_AUTOEXTEND);
   size_before ← field s_size s;
   SBUF_ASSERT_EQ 0 (at_ s (λ s, sbuf_extend PAGE_SIZE junk s 0)) ;;
   SBUF_ASSERT_EQ size_before (field s_size s) ;;
   at_ s sbuf_delete) ;;
  (* should fail for sbuf not marked as SBUF_AUTOEXTEND *)
  (s ← on (sbuf_new PAGE_SIZE junk None None 16 SBUF_FIXEDLEN);
   SBUF_ASSERT_EQ (-1) (at_ s (λ s, sbuf_extend PAGE_SIZE junk s 10)) ;;
   at_ s sbuf_delete) ;;
  (* should accommodate reasonable requests *)
  (s ← on (sbuf_new PAGE_SIZE junk None None 16 SBUF_AUTOEXTEND);
   size_before ← field s_size s;
   SBUF_ASSERT_EQ 0 (at_ s (λ s, sbuf_extend PAGE_SIZE junk s 10)) ;;
   x ← field s_size s;
   SBUF_ASSERT ((x - size_before) >=? 10) ;;
   at_ s sbuf_delete) ;;
  (* should reject requests that cause overflows *)
  (s ← on (sbuf_new PAGE_SIZE junk None None 16 SBUF_AUTOEXTEND);
   SBUF_ASSERT_EQ (-1) (at_ s (λ s, sbuf_extend PAGE_SIZE junk s (2 ^ 64 - 1))) ;;
   SBUF_ASSERT_EQ (-1) (at_ s (λ s, sbuf_extend PAGE_SIZE junk s INT_MAX)) ;;
   at_ s sbuf_delete) ;;
  (* should transform the sbuf into an SBUF_DYNAMIC one *)
  (buf ← stack_buf (replicate 4 0);
   s ← on (sbuf_new PAGE_SIZE junk None (Some buf) 4 SBUF_AUTOEXTEND);
   SBUF_ASSERT_CLEAR (isset s SBUF_DYNAMIC) ;;
   SBUF_ASSERT_EQ 0 (at_ s (λ s, sbuf_extend PAGE_SIZE junk s 10)) ;;
   SBUF_ASSERT_SET (isset s SBUF_DYNAMIC) ;;
   at_ s sbuf_delete).

(** The tests of [sbuf_capacity]. *)
Definition test_sbuf_capacity : T () :=
  (* should account for the trailing nul byte *)
  (s ← on (sbuf_new PAGE_SIZE junk None None 16 0);
   x ← at_ s (λ s, sb ← get_sbuf s; mret (sbuf_capacity sb));
   y ← field s_size s;
   z ← field s_len s;
   SBUF_ASSERT (x =? (y - z - 1)) ;;
   at_ s sbuf_delete).

(** The tests of [sbuf_ensure_capacity]. *)
Definition test_sbuf_ensure_capacity : T () :=
  (* should return 0 if the sbuf already has enough capacity *)
  (s ← on (sbuf_new PAGE_SIZE junk None None 16 SBUF_AUTOEXTEND);
   size_before ← field s_size s;
   SBUF_ASSERT_EQ 0 (at_ s (λ s, sbuf_ensure_capacity PAGE_SIZE junk s 5)) ;;
   SBUF_ASSERT_EQ size_before (field s_size s) ;;
   at_ s sbuf_delete) ;;
  (* should extend the buffer as needed *)
  (s ← on (sbuf_new PAGE_SIZE junk None None 16 SBUF_AUTOEXTEND);
   size_before ← field s_size s;
   SBUF_ASSERT_EQ 0 (at_ s (λ s, sbuf_ensure_capacity PAGE_SIZE junk s 30)) ;;
   SBUF_ASSERT_GT size_before (field s_size s) ;;
   at_ s sbuf_delete).

(** The tests of [sbuf_bcat]. *)
Definition test_sbuf_bcat : T () :=
  (* should fail if the sbuf is marked as overflowed *)
  (s ← on (sbuf_new PAGE_SIZE junk None None 16 SBUF_AUTOEXTEND);
   at_ s (λ s, SBUF_SETFLAG s SBUF_OVERFLOWED) ;;
   SBUF_ASSERT_EQ (-1) (at_ s (λ s, sbuf_bcat PAGE_SIZE junk s (lit "A") 1)) ;;
   at_ s sbuf_delete) ;;
  (* should fail if len is too big *)
  (s ← on (sbuf_new PAGE_SIZE junk None None 16 SBUF_AUTOEXTEND);
   SBUF_ASSERT_EQ (-1) (at_ s (λ s, sbuf_bcat PAGE_SIZE junk s (lit "A") INT_MAX)) ;;
   SBUF_ASSERT_SET (isset s SBUF_OVERFLOWED) ;;
   at_ s sbuf_delete) ;;
  (* should succeed for a fixed buf within limits *)
  (s ← on (sbuf_new PAGE_SIZE junk None None 16 SBUF_FIXEDLEN);
   SBUF_ASSERT_EQ 0 (at_ s (λ s, sbuf_bcat PAGE_SIZE junk s (lit "ABC") 3)) ;;
   SBUF_ASSERT_EQ 3 (field s_len s) ;;
   SBUF_ASSERT_EQ 65 (char_at s 0) ;;
   SBUF_ASSERT_EQ 66 (char_at s 1) ;;
   SBUF_ASSERT_EQ 67 (char_at s 2) ;;
   at_ s sbuf_delete) ;;
  (* should succeed for binary data, even with nul bytes *)
  (s ← on (sbuf_new PAGE_SIZE junk None None 16 SBUF_FIXEDLEN);
   SBUF_ASSERT_EQ 0 (at_ s (λ s, sbuf_bcat PAGE_SIZE junk s (chars "A" ++ [0] ++ lit "C") 3)) ;;
   SBUF_ASSERT_EQ 3 (field s_len s) ;;
   SBUF_ASSERT_EQ 65 (char_at s 0) ;;
   SBUF_ASSERT_EQ 0 (char_at s 1) ;;
   SBUF_ASSERT_EQ 67 (char_at s 2) ;;
   at_ s sbuf_delete) ;;
  (* should append to existing data *)
  (s ← on (sbuf_new PAGE_SIZE junk None None 16 SBUF_FIXEDLEN);
   SBUF_ASSERT_EQ 0 (at_ s (λ s, sbuf_bcat PAGE_SIZE junk s (lit "ABC") 3)) ;;
   SBUF_ASSERT_EQ 3 (field s_len s) ;;
   SBUF_ASSERT_EQ 65 (char_at s 0) ;;
   SBUF_ASSERT_EQ 66 (char_at s 1) ;;
   SBUF_ASSERT_EQ 67 (char_at s 2) ;;
   SBUF_ASSERT_EQ 0 (at_ s (λ s, sbuf_bcat PAGE_SIZE junk s (lit "DEF") 3)) ;;
   SBUF_ASSERT_EQ 6 (field s_len s) ;;
   SBUF_ASSERT_EQ 68 (char_at s 3) ;;
   SBUF_ASSERT_EQ 69 (char_at s 4) ;;
   SBUF_ASSERT_EQ 70 (char_at s 5) ;;
   at_ s sbuf_delete) ;;
  (* should succeed for a fixed buf right up to the limit *)
  (s ← on (sbuf_new PAGE_SIZE junk None None 16 SBUF_FIXEDLEN);
   SBUF_ASSERT_EQ 0 (at_ s (λ s, sbuf_bcat PAGE_SIZE junk s (lit "0123456789abcde") 15)) ;;
   SBUF_ASSERT_EQ 15 (field s_len s) ;;
   at_ s sbuf_delete) ;;
  (* should fail for a fixed buf if too big *)
  (s ← on (sbuf_new PAGE_SIZE junk None None 16 SBUF_FIXEDLEN);
   SBUF_ASSERT_EQ (-1) (at_ s (λ s, sbuf_bcat PAGE_SIZE junk s (lit "0123456789abcdef") 16)) ;;
   SBUF_ASSERT_SET (isset s SBUF_OVERFLOWED) ;;
   at_ s sbuf_delete) ;;
  (* should expand the backing buffer as needed *)
  (s ← on (sbuf_new PAGE_SIZE junk None None 16 SBUF_AUTOEXTEND);
   size_before ← field s_size s;
   SBUF_ASSERT_EQ 0 (at_ s (λ s, sbuf_bcat PAGE_SIZE junk s (lit "0123456789abcdef") 16)) ;;
   SBUF_ASSERT_GT size_before (field s_size s) ;;
   SBUF_ASSERT_EQ 16 (field s_len s) ;;
   at_ s sbuf_delete).

(** The tests of [sbuf_bcpy]. *)
Definition test_sbuf_bcpy : T () :=
  (* should overwrite any existing data *)
  (s ← on (sbuf_new PAGE_SIZE junk None None 16 0);
   SBUF_ASSERT_EQ 0 (at_ s (λ s, sbuf_bcpy PAGE_SIZE junk s (lit "ABC") 3)) ;;
   SBUF_ASSERT_EQ 3 (field s_len s) ;;
   SBUF_ASSERT_EQ 65 (char_at s 0) ;;
   SBUF_ASSERT_EQ 66 (char_at s 1) ;;
   SBUF_ASSERT_EQ 67 (char_at s 2) ;;
   SBUF_ASSERT_EQ 0 (at_ s (λ s, sbuf_bcpy PAGE_SIZE junk s (lit "XYZ123") 6)) ;;
   SBUF_ASSERT_EQ 6 (field s_len s) ;;
   SBUF_ASSERT_EQ 88 (char_at s 0) ;;
   SBUF_ASSERT_EQ 89 (char_at s 1) ;;
   SBUF_ASSERT_EQ 90 (char_at s 2) ;;
   SBUF_ASSERT_EQ 49 (char_at s 3) ;;
   SBUF_ASSERT_EQ 50 (char_at s 4) ;;
   SBUF_ASSERT_EQ 51 (char_at s 5) ;;
   at_ s sbuf_delete) ;;
  (* should succeed if the sbuf is marked as overflowed, but there is space *)
  (s ← on (sbuf_new PAGE_SIZE junk None None 16 SBUF_AUTOEXTEND);
   at_ s (λ s, SBUF_SETFLAG s SBUF_OVERFLOWED) ;;
   SBUF_ASSERT_EQ 0 (at_ s (λ s, sbuf_bcpy PAGE_SIZE junk s (lit "A") 1)) ;;
   at_ s sbuf_delete) ;;
  (* should fail if len is too big *)
  (s ← on (sbuf_new PAGE_SIZE junk None None 16 SBUF_AUTOEXTEND);
   SBUF_ASSERT_EQ (-1) (at_ s (λ s, sbuf_bcpy PAGE_SIZE junk s (lit "A") INT_MAX)) ;;
   SBUF_ASSERT_SET (isset s SBUF_OVERFLOWED) ;;
   at_ s sbuf_delete) ;;
  (* should succeed for a fixed buf within limits *)
  (s ← on (sbuf_new PAGE_SIZE junk None None 16 SBUF_FIXEDLEN);
   SBUF_ASSERT_EQ 0 (at_ s (λ s, sbuf_bcpy PAGE_SIZE junk s (lit "ABC") 3)) ;;
   SBUF_ASSERT_EQ 3 (field s_len s) ;;
   SBUF_ASSERT_EQ 65 (char_at s 0) ;;
   SBUF_ASSERT_EQ 66 (char_at s 1) ;;
   SBUF_ASSERT_EQ 67 (char_at s 2) ;;
   at_ s sbuf_delete) ;;
  (* should succeed for a fixed buf right up to the limit *)
  (s ← on (sbuf_new PAGE_SIZE junk None None 16 SBUF_FIXEDLEN);
   SBUF_ASSERT_EQ 0 (at_ s (λ s, sbuf_bcpy PAGE_SIZE junk s (lit "0123456789abcde") 15)) ;;
   SBUF_ASSERT_EQ 15 (field s_len s) ;;
   at_ s sbuf_delete) ;;
  (* should fail for a fixed buf if too big *)
  (s ← on (sbuf_new PAGE_SIZE junk None None 16 SBUF_FIXEDLEN);
   SBUF_ASSERT_EQ (-1) (at_ s (λ s, sbuf_bcpy PAGE_SIZE junk s (lit "0123456789abcdef") 16)) ;;
   SBUF_ASSERT_SET (isset s SBUF_OVERFLOWED) ;;
   at_ s sbuf_delete) ;;
  (* should expand the backing buffer as needed *)
  (s ← on (sbuf_new PAGE_SIZE junk None None 16 SBUF_AUTOEXTEND);
   size_before ← field s_size s;
   SBUF_ASSERT_EQ 0 (at_ s (λ s, sbuf_bcpy PAGE_SIZE junk s (lit "0123456789abcdef") 16)) ;;
   SBUF_ASSERT_GT size_before (field s_size s) ;;
   SBUF_ASSERT_EQ 16 (field s_len s) ;;
   at_ s sbuf_delete).

(** The tests of [sbuf_cat]. *)
Definition test_sbuf_cat : T () :=
  (* should fail if the sbuf is marked as overflowed *)
  (s ← on (sbuf_new PAGE_SIZE junk None None 16 SBUF_AUTOEXTEND);
   at_ s (λ s, SBUF_SETFLAG s SBUF_OVERFLOWED) ;;
   SBUF_ASSERT_EQ (-1) (at_ s (λ s, sbuf_cat PAGE_SIZE junk s (lit "A"))) ;;
   at_ s sbuf_delete) ;;
  (* should succeed for a fixed buf within limits *)
  (s ← on (sbuf_new PAGE_SIZE junk None None 16 SBUF_FIXEDLEN);
   SBUF_ASSERT_EQ 0 (at_ s (λ s, sbuf_cat PAGE_SIZE junk s (lit "ABC"))) ;;
   SBUF_ASSERT_EQ 3 (field s_len s) ;;
   SBUF_ASSERT_EQ 65 (char_at s 0) ;;
   SBUF_ASSERT_EQ 66 (char_at s 1) ;;
   SBUF_ASSERT_EQ 67 (char_at s 2) ;;
   at_ s sbuf_delete) ;;
  (* should only copy up to a nul byte *)
  (s ← on (sbuf_new PAGE_SIZE junk None None 16 SBUF_FIXEDLEN);
   SBUF_ASSERT_EQ 0 (at_ s (λ s, sbuf_cat PAGE_SIZE junk s (chars "A" ++ [0] ++ lit "C"))) ;;
   SBUF_ASSERT_EQ 1 (field s_len s) ;;
   SBUF_ASSERT_EQ 65 (char_at s 0) ;;
   at_ s sbuf_delete) ;;
  (* should append to existing data *)
  (s ← on (sbuf_new PAGE_SIZE junk None None 16 SBUF_FIXEDLEN);
   SBUF_ASSERT_EQ 0 (at_ s (λ s, sbuf_cat PAGE_SIZE junk s (lit "ABC"))) ;;
   SBUF_ASSERT_EQ 3 (field s_len s) ;;
   SBUF_ASSERT_EQ 65 (char_at s 0) ;;
   SBUF_ASSERT_EQ 66 (char_at s 1) ;;
   SBUF_ASSERT_EQ 67 (char_at s 2) ;;
   SBUF_ASSERT_EQ 0 (at_ s (λ s, sbuf_cat PAGE_SIZE junk s (lit "DEF"))) ;;
   SBUF_ASSERT_EQ 6 (field s_len s) ;;
   SBUF_ASSERT_EQ 68 (char_at s 3) ;;
   SBUF_ASSERT_EQ 69 (char_at s 4) ;;
   SBUF_ASSERT_EQ 70 (char_at s 5) ;;
   at_ s sbuf_delete) ;;
  (* should succeed for a fixed buf right up to the limit *)
  (s ← on (sbuf_new PAGE_SIZE junk None None 16 SBUF_FIXEDLEN);
   SBUF_ASSERT_EQ 0 (at_ s (λ s, sbuf_cat PAGE_SIZE junk s (lit "0123456789abcde"))) ;;
   SBUF_ASSERT_EQ 15 (field s_len s) ;;
   at_ s sbuf_delete) ;;
  (* should fail for a fixed buf if too big *)
  (s ← on (sbuf_new PAGE_SIZE junk None None 16 SBUF_FIXEDLEN);
   SBUF_ASSERT_EQ (-1) (at_ s (λ s, sbuf_cat PAGE_SIZE junk s (lit "0123456789abcdef"))) ;;
   SBUF_ASSERT_SET (isset s SBUF_OVERFLOWED) ;;
   at_ s sbuf_delete) ;;
  (* should expand the backing buffer as needed *)
  (s ← on (sbuf_new PAGE_SIZE junk None None 16 SBUF_AUTOEXTEND);
   size_before ← field s_size s;
   SBUF_ASSERT_EQ 0 (at_ s (λ s, sbuf_cat PAGE_SIZE junk s (lit "0123456789abcdef"))) ;;
   SBUF_ASSERT_GT size_before (field s_size s) ;;
   SBUF_ASSERT_EQ 16 (field s_len s) ;;
   at_ s sbuf_delete).

(** The tests of [sbuf_cpy]. *)
Definition test_sbuf_cpy : T () :=
  (* should overwrite any existing data *)
  (s ← on (sbuf_new PAGE_SIZE junk None None 16 0);
   SBUF_ASSERT_EQ 0 (at_ s (λ s, sbuf_cpy PAGE_SIZE junk s (lit "ABC"))) ;;
   SBUF_ASSERT_EQ 3 (field s_len s) ;;
   SBUF_ASSERT_EQ 65 (char_at s 0) ;;
   SBUF_ASSERT_EQ 66 (char_at s 1) ;;
   SBUF_ASSERT_EQ 67 (char_at s 2) ;;
   SBUF_ASSERT_EQ 0 (at_ s (λ s, sbuf_cpy PAGE_SIZE junk s (lit "XYZ123"))) ;;
   SBUF_ASSERT_EQ 6 (field s_len s) ;;
   SBUF_ASSERT_EQ 88 (char_at s 0) ;;
   SBUF_ASSERT_EQ 89 (char_at s 1) ;;
   SBUF_ASSERT_EQ 90 (char_at s 2) ;;
   SBUF_ASSERT_EQ 49 (char_at s 3) ;;
   SBUF_ASSERT_EQ 50 (char_at s 4) ;;
   SBUF_ASSERT_EQ 51 (char_at s 5) ;;
   at_ s sbuf_delete) ;;
  (* should succeed if the sbuf is marked as overflowed, but there is space *)
  (s ← on (sbuf_new PAGE_SIZE junk None None 16 SBUF_AUTOEXTEND);
   at_ s (λ s, SBUF_SETFLAG s SBUF_OVERFLOWED) ;;
   SBUF_ASSERT_EQ 0 (at_ s (λ s, sbuf_bcpy PAGE_SIZE junk s (lit "A") 1)) ;;
   at_ s sbuf_delete) ;;
  (* should succeed for a fixed buf within limits *)
  (s ← on (sbuf_new PAGE_SIZE junk None None 16 SBUF_FIXEDLEN);
   SBUF_ASSERT_EQ 0 (at_ s (λ s, sbuf_cpy PAGE_SIZE junk s (lit "ABC"))) ;;
   SBUF_ASSERT_EQ 3 (field s_len s) ;;
   SBUF_ASSERT_EQ 65 (char_at s 0) ;;
   SBUF_ASSERT_EQ 66 (char_at s 1) ;;
   SBUF_ASSERT_EQ 67 (char_at s 2) ;;
   at_ s sbuf_delete) ;;
  (* should succeed for a fixed buf right up to the limit *)
  (s ← on (sbuf_new PAGE_SIZE junk None None 16 SBUF_FIXEDLEN);
   SBUF_ASSERT_EQ 0 (at_ s (λ s, sbuf_cpy PAGE_SIZE junk s (lit "0123456789abcde"))) ;;
   SBUF_ASSERT_EQ 15 (field s_len s) ;;
   at_ s sbuf_delete) ;;
  (* should fail for a fixed buf if too big *)
  (s ← on (sbuf_new PAGE_SIZE junk None None 16 SBUF_FIXEDLEN);
   SBUF_ASSERT_EQ (-1) (at_ s (λ s, sbuf_cpy PAGE_SIZE junk s (lit "0123456789abcdef"))) ;;
   SBUF_ASSERT_SET (isset s SBUF_OVERFLOWED) ;;
   at_ s sbuf_delete) ;;
  (* should expand the backing buffer as needed *)
  (s ← on (sbuf_new PAGE_SIZE junk None None 16 SBUF_AUTOEXTEND);
   size_before ← field s_size s;
   SBUF_ASSERT_EQ 0 (at_ s (λ s, sbuf_cpy PAGE_SIZE junk s (lit "0123456789abcdef"))) ;;
   SBUF_ASSERT_GT size_before (field s_size s) ;;
   SBUF_ASSERT_EQ 16 (field s_len s) ;;
   at_ s sbuf_delete).

(** The tests of [sbuf_printf]. *)
Definition test_sbuf_printf : T () :=
  (* should support simple printing *)
  (s ← on (sbuf_new PAGE_SIZE junk None None 16 SBUF_AUTOEXTEND);
   SBUF_ASSERT_EQ 0 (at_ s (λ s, sbuf_printf PAGE_SIZE junk g s (lit "hello") [])) ;;
   SBUF_ASSERT_EQ 5 (field s_len s) ;;
   SBUF_ASSERT_EQ 104 (char_at s 0) ;;
   SBUF_ASSERT_EQ 101 (char_at s 1) ;;
   SBUF_ASSERT_EQ 108 (char_at s 2) ;;
   SBUF_ASSERT_EQ 108 (char_at s 3) ;;
   SBUF_ASSERT_EQ 111 (char_at s 4) ;;
   at_ s sbuf_delete) ;;
  (* should support format strings *)
  (let data1 := 65 in
   let data2 := 123 in
   let data3 := lit "foo" in
   s ← on (sbuf_new PAGE_SIZE junk None None 16 SBUF_AUTOEXTEND);
   SBUF_ASSERT_EQ 0 (at_ s (λ s, sbuf_printf PAGE_SIZE junk g s (lit "%c %d %s") [VInt data1; VInt data2; VPtr (Some data3)])) ;;
   SBUF_ASSERT_EQ 9 (field s_len s) ;;
   SBUF_ASSERT_EQ 65 (char_at s 0) ;;
   SBUF_ASSERT_EQ 32 (char_at s 1) ;;
   SBUF_ASSERT_EQ 49 (char_at s 2) ;;
   SBUF_ASSERT_EQ 50 (char_at s 3) ;;
   SBUF_ASSERT_EQ 51 (char_at s 4) ;;
   SBUF_ASSERT_EQ 32 (char_at s 5) ;;
   SBUF_ASSERT_EQ 102 (char_at s 6) ;;
   SBUF_ASSERT_EQ 111 (char_at s 7) ;;
   SBUF_ASSERT_EQ 111 (char_at s 8) ;;
   at_ s sbuf_delete) ;;
  (* should work with the fact we reserve a nul byte at the end *)
  (s ← on (sbuf_new PAGE_SIZE junk None None 16 SBUF_FIXEDLEN);
   SBUF_ASSERT_EQ 0 (at_ s (λ s, sbuf_printf PAGE_SIZE junk g s (lit "0123456789abcde") [])) ;;
   SBUF_ASSERT_CLEAR (isset s SBUF_OVERFLOWED) ;;
   at_ s sbuf_delete) ;;
  (* should mark the sbuf as overflowed if we try to write too much *)
  (s ← on (sbuf_new PAGE_SIZE junk None None 16 SBUF_FIXEDLEN);
   SBUF_ASSERT_EQ (-1) (at_ s (λ s, sbuf_printf PAGE_SIZE junk g s (lit "0123456789abcdef") [])) ;;
   SBUF_ASSERT_SET (isset s SBUF_OVERFLOWED) ;;
   at_ s sbuf_delete) ;;
  (* should auto-extend as necessary *)
  (let data := lit "0123456789abcdef" in
   s ← on (sbuf_new PAGE_SIZE junk None None 16 SBUF_AUTOEXTEND);
   size_before ← field s_size s;
   SBUF_ASSERT_EQ 0 (at_ s (λ s, sbuf_printf PAGE_SIZE junk g s (lit "%s") [VPtr (Some data)])) ;;
   SBUF_ASSERT_GT size_before (field s_size s) ;;
   check_chars s data 0 (length data - 1) ;;
   at_ s sbuf_delete) ;;
  (* should fail if the sbuf is marked as overflowed *)
  (s ← on (sbuf_new PAGE_SIZE junk None None 16 SBUF_FIXEDLEN);
   at_ s (λ s, SBUF_SETFLAG s SBUF_OVERFLOWED) ;;
   SBUF_ASSERT_EQ (-1) (at_ s (λ s, sbuf_printf PAGE_SIZE junk g s (lit "A") [])) ;;
   at_ s sbuf_delete).

(** The tests of [sbuf_putc]. *)
Definition test_sbuf_putc : T () :=
  (* should work where we have capacity *)
  (s ← on (sbuf_new PAGE_SIZE junk None None 16 0);
   SBUF_ASSERT_EQ 0 (at_ s (λ s, sbuf_putc PAGE_SIZE junk s 97)) ;;
   SBUF_ASSERT_EQ 1 (field s_len s) ;;
   SBUF_ASSERT_EQ 97 (char_at s 0) ;;
   at_ s sbuf_delete) ;;
  (* should fail if we have a full, fixedlen sbuf *)
  (s ← on (sbuf_new PAGE_SIZE junk None None 16 SBUF_FIXEDLEN);
   SBUF_ASSERT_EQ 0 (at_ s (λ s, sbuf_cpy PAGE_SIZE junk s (lit "0123456789abcd"))) ;;
   SBUF_ASSERT_EQ 0 (at_ s (λ s, sbuf_putc PAGE_SIZE junk s 101)) ;;
   SBUF_ASSERT_EQ (-1) (at_ s (λ s, sbuf_putc PAGE_SIZE junk s 102)) ;;
   SBUF_ASSERT_SET (isset s SBUF_OVERFLOWED) ;;
   at_ s sbuf_delete) ;;
  (* should ignore nul *)
  (s ← on (sbuf_new PAGE_SIZE junk None None 16 SBUF_AUTOEXTEND);
   SBUF_ASSERT_EQ 0 (at_ s (λ s, sbuf_putc PAGE_SIZE junk s 0)) ;;
   SBUF_ASSERT_EQ 0 (field s_len s) ;;
   at_ s sbuf_delete) ;;
  (* should auto-extend if necessary *)
  (s ← on (sbuf_new PAGE_SIZE junk None None 16 SBUF_AUTOEXTEND);
   SBUF_ASSERT_EQ 0 (at_ s (λ s, sbuf_cpy PAGE_SIZE junk s (lit "0123456789abcde"))) ;;
   len_before ← field s_len s;
   size_before ← field s_size s;
   SBUF_ASSERT_EQ 0 (at_ s (λ s, sbuf_putc PAGE_SIZE junk s 102)) ;;
   SBUF_ASSERT_EQ (len_before + 1) (field s_len s) ;;
   SBUF_ASSERT_GT size_before (field s_size s) ;;
   x ← field s_len s;
   y ← char_at s (x - 1);
   SBUF_ASSERT (y =? 102) ;;
   at_ s sbuf_delete) ;;
  (* should fail if the sbuf is overflowed *)
  (s ← on (sbuf_new PAGE_SIZE junk None None 16 SBUF_AUTOEXTEND);
   at_ s (λ s, SBUF_SETFLAG s SBUF_OVERFLOWED) ;;
   SBUF_ASSERT_EQ (-1) (at_ s (λ s, sbuf_putc PAGE_SIZE junk s 97)) ;;
   at_ s sbuf_delete).

(** The tests of [sbuf_trim]. *)
Definition test_sbuf_trim : T () :=
  (* should remove trailing spaces, tabs and newlines *)
  (let test := chars "foo    " ++ [9; 9; 10; 9; 0] in
   s ← on (sbuf_new PAGE_SIZE junk None None 16 0);
   SBUF_ASSERT_EQ 0 (at_ s (λ s, sbuf_cpy PAGE_SIZE junk s test)) ;;
   x ← field s_len s;
   y ← on (lift (strlen test));
   SBUF_ASSERT (x =? y) ;;
   SBUF_ASSERT_EQ 0 (at_ s sbuf_trim) ;;
   SBUF_ASSERT_EQ 3 (field s_len s) ;;
   at_ s sbuf_delete) ;;
  (* should do nothing if there is no trailing whitespace *)
  (let test := lit "foo" in
   s ← on (sbuf_new PAGE_SIZE junk None None 16 0);
   SBUF_ASSERT_EQ 0 (at_ s (λ s, sbuf_cpy PAGE_SIZE junk s test)) ;;
   x ← field s_len s;
   y ← on (lift (strlen test));
   SBUF_ASSERT (x =? y) ;;
   SBUF_ASSERT_EQ 0 (at_ s sbuf_trim) ;;
   z ← field s_len s;
   u ← on (lift (strlen test));
   SBUF_ASSERT (z =? u) ;;
   at_ s sbuf_delete) ;;
  (* should fail if the sbuf is overflowed *)
  (let test := lit "foo   " in
   s ← on (sbuf_new PAGE_SIZE junk None None 16 0);
   SBUF_ASSERT_EQ 0 (at_ s (λ s, sbuf_cpy PAGE_SIZE junk s test)) ;;
   at_ s (λ s, SBUF_SETFLAG s SBUF_OVERFLOWED) ;;
   SBUF_ASSERT_EQ (-1) (at_ s sbuf_trim) ;;
   x ← field s_len s;
   y ← on (lift (strlen test));
   SBUF_ASSERT (x =? y) ;;
   at_ s sbuf_delete) ;;
  (* should work on empty strings *)
  (s ← on (sbuf_new PAGE_SIZE junk None None 16 0);
   SBUF_ASSERT_EQ 0 (at_ s sbuf_trim) ;;
   SBUF_ASSERT_EQ 0 (field s_len s) ;;
   at_ s sbuf_delete).

(** The tests of [sbuf_overflowed]. *)
Definition test_sbuf_overflowed : T () :=
  (* should return false if it hasnt overflowed *)
  (s ← on (sbuf_new PAGE_SIZE junk None None 16 0);
   x ← at_ s sbuf_overflowed;
   SBUF_ASSERT (x =? 0) ;;
   at_ s sbuf_delete) ;;
  (* should return true if it has overflowed *)
  (s ← on (sbuf_new PAGE_SIZE junk None None 16 0);
   at_ s (λ s, SBUF_SETFLAG s SBUF_OVERFLOWED) ;;
   x ← at_ s sbuf_overflowed;
   SBUF_ASSERT (negb (x =? 0)) ;;
   at_ s sbuf_delete).

(** The tests of [sbuf_finish]. *)
Definition test_sbuf_finish : T () :=
  (* should insert a nul byte, clear the overflowed flag and set the finished flag *)
  (s ← on (sbuf_new PAGE_SIZE junk None None 16 0);
   SBUF_ASSERT_EQ 0 (at_ s (λ s, sbuf_putc PAGE_SIZE junk s 65)) ;;
   at_ s (λ s, sb ← get_sbuf s; buf ← get_buf (s_buf sb); buf ← lift (wr buf (s_len sb) 120);
        put_buf (s_buf sb) buf) ;;
   at_ s (λ s, SBUF_SETFLAG s SBUF_OVERFLOWED) ;;
   SBUF_ASSERT_CLEAR (isset s SBUF_FINISHED) ;;
   at_ s sbuf_finish ;;
   x ← field s_len s;
   y ← char_at s x;
   SBUF_ASSERT (y =? 0) ;;
   SBUF_ASSERT_CLEAR (isset s SBUF_OVERFLOWED) ;;
   SBUF_ASSERT_SET (isset s SBUF_FINISHED) ;;
   at_ s sbuf_delete).

(** The tests of [sbuf_data]. *)
Definition test_sbuf_data : T () :=
  (* should return the s_buf pointer *)
  (s ← on (sbuf_new PAGE_SIZE junk None None 16 0);
   x ← at_ s sbuf_data;
   y ← buf_of s;
   SBUF_ASSERT (bool_decide (x = y)) ;;
   at_ s sbuf_delete) ;;
  (* should return the buffer we gave it *)
  (buf ← stack_buf (replicate 4 0);
   s ← on (sbuf_new PAGE_SIZE junk None (Some buf) 4 0);
   SBUF_ASSERT_PTR_EQ (Some buf) (at_ s sbuf_data) ;;
   at_ s sbuf_delete).

(** The tests of [sbuf_len]. *)
Definition test_sbuf_len : T () :=
  (* should return the length of the sbuf data *)
  (s ← on (sbuf_new PAGE_SIZE junk None None 16 0);
   SBUF_ASSERT_EQ 0 (at_ s (λ s, sbuf_cpy PAGE_SIZE junk s (lit "hello"))) ;;
   SBUF_ASSERT_EQ 5 (at_ s sbuf_len) ;;
   at_ s sbuf_delete) ;;
  (* should return -1 if the sbuf is overflowed *)
  (s ← on (sbuf_new PAGE_SIZE junk None None 16 0);
   SBUF_ASSERT_EQ 0 (at_ s (λ s, sbuf_cpy PAGE_SIZE junk s (lit "hello"))) ;;
   SBUF_ASSERT_EQ 5 (at_ s sbuf_len) ;;
   at_ s (λ s, SBUF_SETFLAG s SBUF_OVERFLOWED) ;;
   SBUF_ASSERT_EQ (-1) (at_ s sbuf_len) ;;
   at_ s sbuf_delete).

(** The tests of [sbuf_done]. *)
Definition test_sbuf_done : T () :=
  (* should return false if the sbuf isnt finished *)
  (s ← on (sbuf_new PAGE_SIZE junk None None 16 0);
   x ← at_ s sbuf_done;
   SBUF_ASSERT (x =? 0) ;;
   at_ s sbuf_delete) ;;
  (* should return true if the sbuf has finished *)
  (s ← on (sbuf_new PAGE_SIZE junk None None 16 0);
   x ← at_ s sbuf_done;
   SBUF_ASSERT (x =? 0) ;;
   at_ s (λ s, SBUF_SETFLAG s SBUF_FINISHED) ;;
   y ← at_ s sbuf_done;
   SBUF_ASSERT (negb (y =? 0)) ;;
   at_ s sbuf_delete).

(** The tests of [sbuf_delete]. *)
Definition test_sbuf_delete : T () :=
  (* should just free the backing buffer if we supplied an sbuf *)
  (existing ← stack_sbuf (Sbuf None 0 0 0);
   s ← on (sbuf_new PAGE_SIZE junk (Some existing) None 16 0);
   SBUF_ASSERT_PTR_NE None (buf_of s) ;;
   at_ s sbuf_delete ;;
   SBUF_ASSERT_PTR_EQ None (buf_of s)).

(** The body of the test: the value returned and the count [passed]. *)
Definition sysctl_sbuf_tests (m : mem) : res (Z * Z) :=
  '(r, (_, passed)) ←
    (test_sbuf_new ;; test_sbuf_clear ;; test_sbuf_extend ;; test_sbuf_capacity ;;
     test_sbuf_ensure_capacity ;; test_sbuf_bcat ;; test_sbuf_bcpy ;; test_sbuf_cat ;;
     test_sbuf_cpy ;; test_sbuf_printf ;; test_sbuf_putc ;; test_sbuf_trim ;;
     test_sbuf_overflowed ;; test_sbuf_finish ;; test_sbuf_data ;; test_sbuf_len ;;
     test_sbuf_done ;; test_sbuf_delete) (m, 0);
  Ok (if r is Some _ then 0 else ENOTRECOVERABLE, passed).

End tests.

(** The self-test of the string buffers succeeds: it returns 0 with all 244
    assertions passed and no access outside the memory it has, whatever fresh
    memory contains and however the formatter is set. *)
Lemma sbuf_self_test_passes junk g :
  sysctl_sbuf_tests junk g (Mem ∅ ∅ []) = Ok (0, 244).
Proof. destruct g as [[] [] lo hi]; vm_compute; reflexivity. Qed.
