(* ===== verification/Clist.v ===== *)
(** * Terminal character queues

    [bsd/kern/tty_subr.c] and [struct clist] of [bsd/sys/tty.h]: ring buffers
    of characters, each with a quote bit kept in a bit array.  A [clist] owns
    its two arrays, so the model keeps their contents in the structure; a
    pointer into the ring is its offset from [c_cs], [None] when it is null.
    An access outside an array or through a null pointer faults. *)

From S2P Require Import Prelude.

Definition TTY_QUOTE : Z := 256.
Definition NBBY : Z := 8.
Definition INT_MAX : Z := 2147483647.

Record clist := Clist {
  c_cc : Z;                (* count of characters in queue *)
  c_cn : Z;                (* total ring buffer length *)
  c_cf : option Z;         (* first character *)
  c_cl : option Z;         (* next open character *)
  c_cs : option (list Z);  (* ring buffer *)
  c_ce : Z;                (* end of the ring buffer *)
  c_cq : option (list Z)   (* quote bits *)
}.

Definition set_cc (clp : clist) (n : Z) : clist :=
  Clist n (c_cn clp) (c_cf clp) (c_cl clp) (c_cs clp) (c_ce clp) (c_cq clp).
Definition set_cf (clp : clist) (p : option Z) : clist :=
  Clist (c_cc clp) (c_cn clp) p (c_cl clp) (c_cs clp) (c_ce clp) (c_cq clp).
Definition set_cl (clp : clist) (p : option Z) : clist :=
  Clist (c_cc clp) (c_cn clp) (c_cf clp) p (c_cs clp) (c_ce clp) (c_cq clp).
Definition set_cs (clp : clist) (b : option (list Z)) : clist :=
  Clist (c_cc clp) (c_cn clp) (c_cf clp) (c_cl clp) b (c_ce clp) (c_cq clp).
Definition set_cq (clp : clist) (q : option (list Z)) : clist :=
  Clist (c_cc clp) (c_cn clp) (c_cf clp) (c_cl clp) (c_cs clp) (c_ce clp) q.

(** [clp->c_cf = clp->c_cl = p] *)
Definition set_both (clp : clist) (p : option Z) : clist := set_cf (set_cl clp p) p.
(** [if (clp->c_cc == 0) clp->c_cf = clp->c_cl = NULL] *)
Definition null_if_empty (clp : clist) : clist :=
  if c_cc clp =? 0 then set_both clp None else clp.

Definition ptr (p : option Z) : res Z := match p with Some i => Ok i | None => Fault end.
Definition ring (clp : clist) : res (list Z) :=
  match c_cs clp with Some b => Ok b | None => Fault end.

(** ** Bit arrays *)

Definition QMEM (n : Z) : Z := (n - 1) ÷ NBBY + 1.

Definition isset (a : list Z) (i : Z) : res bool :=
  b ← rd a (i / NBBY); Ok (negb (Z.land b (Z.shiftl 1 (i mod NBBY)) =? 0)).
Definition setbit (a : list Z) (i : Z) : res (list Z) :=
  b ← rd a (i / NBBY); wr a (i / NBBY) (Z.lor b (Z.shiftl 1 (i mod NBBY))).
Definition clrbit (a : list Z) (i : Z) : res (list Z) :=
  b ← rd a (i / NBBY); wr a (i / NBBY) (Z.land b (Z.lnot (Z.shiftl 1 (i mod NBBY)))).

Definition and_byte (a : list Z) (i mask : Z) : res (list Z) :=
  b ← rd a i; wr a i (Z.land b mask).
Fixpoint zero_bytes (n : nat) (a : list Z) (i : Z) : res (list Z) :=
  match n with
  | O => Ok a
  | S n => a ← wr a i 0; zero_bytes n a (i + 1)
  end.

Definition clrbits (cp : list Z) (off len : Z) : res (list Z) :=
  if len =? 1 then clrbit cp off
  else
    let sby := off ÷ NBBY in
    let sbi := Z.rem off NBBY in
    let eby := (off + len) ÷ NBBY in
    let ebi := Z.rem (off + len) NBBY in
    if sby =? eby then
      let mask := u8 (Z.shiftl (Z.shiftl 1 (ebi - sbi) - 1) sbi) in
      and_byte cp sby (Z.lnot mask)
    else
      let mask := u8 (Z.shiftl 1 sbi - 1) in
      cp ← and_byte cp sby mask;
      let sby := sby + 1 in
      let mask := u8 (Z.shiftl 1 ebi - 1) in
      cp ← (if negb (mask =? 0) then and_byte cp eby (Z.lnot mask) else Ok cp);
      zero_bytes (Z.to_nat (eby - sby)) cp sby.

(** ** Allocation *)

(** [alloc] says which of the two allocations succeed.  When only the second
    fails, [c_cs] is left pointing at the array that has just been freed; the
    model keeps an array of no bytes for it, so that any access faults. *)
Definition clalloc (alloc : bool * bool) (size : Z) (quot : bool) : st clist Z := λ clp : clist,
  if negb alloc.1 then Ok (-1, set_cs clp None)
  else
    let done (cq : option (list Z)) : res (Z * clist) :=
      Ok (0, Clist 0 size None None (Some (replicate (Z.to_nat size) 0)) size cq) in
    if quot then
      if negb alloc.2
      then Ok (-1, set_cq (set_cs clp (Some [])) None)
      else done (Some (replicate (Z.to_nat (QMEM size)) 0))
    else done None.

(** Freeing faults unless the whole of a live array is freed. *)
Definition kheap_free (p : option (list Z)) (size : Z) : res () :=
  match p with
  | None => Ok ()
  | Some a => if (0 <? size) && (Z.of_nat (length a) =? size) then Ok () else Fault
  end.

Definition clfree : st clist () := λ clp : clist,
  kheap_free (c_cs clp) (c_cn clp) ;;
  kheap_free (c_cq clp) (QMEM (c_cn clp)) ;;
  Ok ((), set_cq (set_cs clp None) None).

(** ** Single characters *)

(** The character at [p] with its quote bit. *)
Definition char_of (clp : clist) (p : Z) : res Z :=
  b ← ring clp;
  c ← rd b p;
  let c := Z.land c 255 in
  match c_cq clp with
  | Some q => s ← isset q p; Ok (if (s : bool) then Z.lor c TTY_QUOTE else c)
  | None => Ok c
  end.

Definition getc : st clist Z := λ clp : clist,
  if c_cc clp =? 0 then Ok (-1, clp)
  else
    cf ← ptr (c_cf clp);
    c ← char_of clp cf;
    let clp := set_cf clp (Some (if cf + 1 =? c_ce clp then 0 else cf + 1)) in
    Ok (c, null_if_empty (set_cc clp (c_cc clp - 1))).

(** The first part of [putc] and [b_to_q]: an empty queue is reset, and
    allocated when it has no ring yet.  [None]: the allocation failed. *)
Definition ready (alloc : bool * bool) : st clist (option ()) := λ clp : clist,
  if c_cc clp =? 0 then
    match c_cs clp with
    | None =>
        '(r, clp) ← clalloc alloc 1024 true clp;
        if negb (r =? 0) then Ok (None, clp) else Ok (Some (), set_both clp (Some 0))
    | Some _ => Ok (Some (), set_both clp (Some 0))
    end
  else Ok (Some (), clp).

(** The block of [putc] on the quote bit. *)
Definition put_quote (clp : clist) (c i : Z) : res clist :=
  match c_cq clp with
  | Some q =>
      q ← (if negb (Z.land c TTY_QUOTE =? 0) then setbit q i else clrbit q i);
      Ok (set_cq clp (Some q))
  | None => Ok clp
  end.

Definition putc (alloc : bool * bool) (c : Z) : st clist Z := λ clp : clist,
  '(r, clp) ← ready alloc clp;
  match r with
  | None => Ok (-1, clp)
  | Some _ =>
      if c_cc clp =? c_cn clp then Ok (-1, clp)
      else
        cl ← ptr (c_cl clp);
        b ← ring clp;
        b ← wr b cl (Z.land c 255);
        let clp := set_cs clp (Some b) in
        let i := u64 cl in
        if i >? INT_MAX then Ok (-1, clp)
        else
          clp ← put_quote clp c i;
          let clp := set_cc clp (c_cc clp + 1) in
          Ok (0, set_cl clp (Some (if cl + 1 =? c_ce clp then 0 else cl + 1)))
  end.

Definition unputc : st clist Z := λ clp : clist,
  if c_cc clp =? 0 then Ok (-1, clp)
  else
    cl ← ptr (c_cl clp);
    let cl := if cl =? 0 then c_ce clp - 1 else cl - 1 in
    let clp := set_cc (set_cl clp (Some cl)) (c_cc clp - 1) in
    c ← char_of clp cl;
    Ok (c, null_if_empty clp).

(** ** Blocks *)

(** The length of the piece that [q_to_b] and [ndflush] take at once. *)
Definition piece_out (clp : clist) (cf cl count : Z) : Z :=
  let cc := if cf >=? cl then u64 (c_ce clp - cf) else u64 (cl - cf) in
  if (cc >? INT_MAX) || (s32 cc >? count) then u64 count else cc.

Definition advance_cf (clp : clist) (cf cc : Z) : clist :=
  let clp := set_cc clp (s32 (c_cc clp - cc)) in
  set_cf clp (Some (if cf + cc =? c_ce clp then 0 else cf + cc)).

Fixpoint q_to_b_loop (fuel : nat) (clp : clist) (dst : list Z) (p count : Z) :
    res (clist * list Z * Z) :=
  if (count >? 0) && (c_cc clp >? 0) then
    match fuel with
    | O => Fault
    | S fuel =>
        cf ← ptr (c_cf clp);
        cl ← ptr (c_cl clp);
        let cc := piece_out clp cf cl count in
        b ← ring clp;
        data ← slice b cf cc;
        dst ← blit dst p data;
        q_to_b_loop fuel (advance_cf clp cf cc) dst (p + cc) (s32 (count - cc))
    end
  else Ok (clp, dst, p).

(** [q_to_b(clp, cp, count)]; [dst] is the array at [cp]. *)
Definition q_to_b (dst : list Z) (count : Z) : st clist (Z * list Z) := λ clp : clist,
  '(clp, dst, p) ← q_to_b_loop (Z.to_nat (c_cc clp)) clp dst 0 count;
  Ok (Z.min 2147483647 p, dst, null_if_empty clp).

Fixpoint ndflush_loop (fuel : nat) (clp : clist) (count : Z) : res clist :=
  if (count >? 0) && (c_cc clp >? 0) then
    match fuel with
    | O => Fault
    | S fuel =>
        cf ← ptr (c_cf clp);
        cl ← ptr (c_cl clp);
        let cc := piece_out clp cf cl count in
        ndflush_loop fuel (advance_cf clp cf cc) (s32 (count - cc))
    end
  else Ok clp.

Definition ndflush (count : Z) : st clist () := λ clp : clist,
  if count =? c_cc clp then Ok ((), set_both (set_cc clp 0) None)
  else
    clp ← ndflush_loop (Z.to_nat (c_cc clp)) clp count;
    Ok ((), null_if_empty clp).

Fixpoint b_to_q_loop (fuel : nat) (clp : clist) (src : list Z) (p count : Z) :
    res (clist * Z) :=
  if (count >? 0) && (c_cc clp <? c_cn clp) then
    match fuel with
    | O => Fault
    | S fuel =>
        cf ← ptr (c_cf clp);
        cl ← ptr (c_cl clp);
        let cc := if cf >? cl then u64 (cf - cl) else u64 (c_ce clp - cl) in
        let cc := if (cc >? INT_MAX) || (s32 cc >? count) then u64 count else cc in
        data ← slice src p cc;
        b ← ring clp;
        b ← blit b cl data;
        let clp := set_cs clp (Some b) in
        let next (clp : clist) :=
          let clp := set_cc clp (s32 (c_cc clp + cc)) in
          let clp := set_cl clp (Some (if cl + cc =? c_ce clp then 0 else cl + cc)) in
          b_to_q_loop fuel clp src (p + cc) (s32 (count - cc)) in
        match c_cq clp with
        | Some q =>
            if (cl >? INT_MAX) || (cc >? INT_MAX) then Ok (clp, 0)
            else q ← clrbits q (s32 cl) (s32 cc); next (set_cq clp (Some q))
        | None => next clp
        end
    end
  else Ok (clp, count).

(** [b_to_q(cp, count, clp)]; [src] is the array at [cp]. *)
Definition b_to_q (alloc : bool * bool) (src : list Z) (count : Z) : st clist Z := λ clp : clist,
  if count <=? 0 then Ok (0, clp)
  else
    '(r, clp) ← ready alloc clp;
    match r with
    | None => Ok (count, clp)
    | Some _ =>
        if c_cc clp =? c_cn clp then Ok (count, clp)
        else '(clp, count) ← b_to_q_loop (Z.to_nat count) clp src 0 count; Ok (count, clp)
    end.

(** ** Scanning *)

(** The loops of [ndqb]: [stop i] decides on the character at [i]. *)
Fixpoint ndqb_loop (stop : Z → res bool) (cn : Z) (cc : nat) (i count : Z) : res Z :=
  match cc with
  | O => Ok count
  | S cc =>
      s ← stop i;
      if (s : bool) then Ok count
      else if s32 (i + 1) =? cn then Ok (count + 1) else ndqb_loop stop cn cc (i + 1) (count + 1)
  end.

Definition ndqb (clp : clist) (flag : Z) : res Z :=
  let out (count : Z) : res Z := Ok (if count >? INT_MAX then 0 else count) in
  if c_cc clp =? 0 then out 0
  else
    cf ← ptr (c_cf clp);
    if flag =? 0 then
      cl ← ptr (c_cl clp);
      let count := u64 (cl - cf) in
      out (if count <=? 0 then u64 (c_ce clp - cf) else count)
    else
      b ← ring clp;
      let i := u64 cf in
      if i >? INT_MAX then Ok 0
      else
        let stop i :=
          c ← rd b i;
          if negb (Z.land flag TTY_QUOTE =? 0) then
            if negb (Z.land c (Z.land flag (Z.lnot TTY_QUOTE)) =? 0) then Ok true
            else match c_cq clp with Some q => isset q (i + 1) | None => Fault end
          else Ok (negb (Z.land c flag =? 0)) in
        count ← ndqb_loop stop (c_cn clp) (Z.to_nat (c_cc clp)) i 0;
        out count.

(** The static variable [cc] that [firstc] and [nextc] share is the state of
    both; the pair returned is the pointer and [*c]. *)
Definition firstc (clp : clist) : st Z (option (Z * Z)) := λ _,
  let cc := c_cc clp in
  if cc =? 0 then Ok (None, cc)
  else
    cf ← ptr (c_cf clp);
    c ← char_of clp cf;
    Ok (Some (cf, c), cc).

Definition nextc (clp : clist) (cp : option Z) : st Z (option (Z * Z)) := λ cc,
  let cc := if bool_decide (c_cf clp = cp) then c_cc clp else cc in
  match cp with
  | None => Ok (None, cc)
  | Some cp =>
      if cc =? 0 then Ok (None, cc)
      else if cc - 1 =? 0 then Ok (None, cc - 1)
      else
        let cp := if cp + 1 =? c_ce clp then 0 else cp + 1 in
        c ← char_of clp cp;
        Ok (Some (cp, c), cc - 1)
  end.

(** ** Concatenation *)

(** [allocs] holds the outcomes of the allocations of each call of [putc]. *)
Fixpoint catq (fuel : nat) (allocs : list (bool * bool)) (from to : clist) :
    res (clist * clist) :=
  '(c, from) ← getc from;
  if c =? -1 then Ok (from, to)
  else
    match fuel with
    | O => Fault
    | S fuel =>
        '(_, to) ← putc (default (true, true) (head allocs)) c to;
        catq fuel (tail allocs) from to
    end.
