(* ===== verification/ClistBits.v ===== *)
(** * Quote bits of the terminal queues

    The bit arrays of [Clist], bit by bit, and the proof that [clrbits], which
    works on whole bytes, clears exactly the bits it is asked to. *)

From S2P Require Import Prelude Clist.

Definition bytes (a : list Z) : Prop := Forall (in_u 8) a.

(** Bit [j] of the array [a]. *)
Definition bit (a : list Z) (j : Z) : bool :=
  match a !! Z.to_nat (j / 8) with Some b => Z.testbit b (j mod 8) | None => false end.

(** [a'] is an array like [a] whose bits are given by [P]. *)
Definition edited (a a' : list Z) (P : Z → bool) : Prop :=
  bytes a' ∧ length a' = length a ∧ ∀ j, 0 <= j → bit a' j = P j.

Lemma land_pow2_eqb b k : 0 <= k → negb (Z.land b (Z.shiftl 1 k) =? 0) = Z.testbit b k.
Proof.
  intros Hk. rewrite Z.shiftl_1_l. destruct (Z.testbit b k) eqn:Hb.
  - destruct (Z.eqb_spec (Z.land b (2 ^ k)) 0) as [H|]; [| done].
    apply (f_equal (λ x, Z.testbit x k)) in H.
    by rewrite Z.land_spec, Hb, Z.pow2_bits_true, Z.bits_0 in H by done.
  - destruct (Z.eqb_spec (Z.land b (2 ^ k)) 0) as [|H]; [done |]. destruct H.
    apply Z.bits_inj_0. intros i. rewrite Z.land_spec, Z.pow2_bits_eqb by done.
    destruct (Z.eqb_spec k i) as [->|]; [by rewrite Hb | apply andb_false_r].
Qed.

Lemma isset_bit a j : 0 <= j < 8 * Z.of_nat (length a) → isset a j = Ok (bit a j).
Proof.
  intros Hj. unfold isset, bit, NBBY.
  destruct (lookup_lt_is_Some_2 a (Z.to_nat (j / 8))) as [b Hb]; [zlia |].
  rewrite (proj2 (rd_lookup a (j / 8) b)) by (split; [zlia | done]).
  rewrite Hb. simpl. rewrite land_pow2_eqb; [done | zlia].
Qed.

(** Rewriting byte [i] with [f] changes the bits of that byte only. *)
Lemma byte_edit a i f :
  bytes a → 0 <= i < Z.of_nat (length a) → (∀ b, in_u 8 b → in_u 8 (f b)) →
  ∃ a', (b ← rd a i; wr a i (f b)) = Ok a' ∧
    edited a a' (λ j, if j / 8 =? i
                      then Z.testbit (f (default 0 (a !! Z.to_nat i))) (j mod 8) else bit a j).
Proof.
  intros Ha Hi Hf. destruct (lookup_lt_is_Some_2 a (Z.to_nat i)) as [b Hb]; [lia |].
  rewrite (proj2 (rd_lookup a i b)) by (split; [lia | done]). simpl. rewrite Hb. simpl.
  unfold wr. rewrite (proj2 (Z.leb_le 0 i)), (proj2 (Z.ltb_lt i _)) by lia. simpl.
  eexists. split; [done |]. split_and!.
  - apply Forall_insert; [done |]. apply Hf. by eapply Forall_lookup_1.
  - apply length_insert.
  - intros j Hj. unfold bit. destruct (Z.eqb_spec (j / 8) i) as [->|Hne].
    + rewrite list_lookup_insert_eq by lia. done.
    + rewrite list_lookup_insert_ne; [done |]. assert (0 <= j / 8) by zlia. lia.
Qed.

Lemma bit_byte a i j : j / 8 = i → 0 <= j < 8 * Z.of_nat (length a) →
  bit a j = Z.testbit (default 0 (a !! Z.to_nat i)) (j mod 8).
Proof.
  intros <- Hj. unfold bit.
  destruct (lookup_lt_is_Some_2 a (Z.to_nat (j / 8))) as [b ->]; [zlia | done].
Qed.

Lemma bit_above a j : 8 * Z.of_nat (length a) <= j → bit a j = false.
Proof. intros Hj. unfold bit. rewrite lookup_ge_None_2; [done | zlia]. Qed.

Lemma edited_eq a a' P Q : edited a a' P → (∀ j, 0 <= j → P j = Q j) → edited a a' Q.
Proof. intros (? & ? & H) HPQ. split_and!; [done | done |]. intros j Hj. by rewrite H, HPQ. Qed.

(** Arrays with the same bits are the same. *)
Lemma bit_inj a b : bytes a → bytes b → length a = length b →
  (∀ j, 0 <= j → bit a j = bit b j) → a = b.
Proof.
  intros Ha Hb Hl Hj. apply list_eq_same_length with (length a); [done | lia |].
  intros i x y Hi Hx Hy. apply Z.bits_inj'. intros k Hk.
  destruct (Z.ltb_spec k 8) as [Hk8|Hk8].
  - specialize (Hj (8 * Z.of_nat i + k) ltac:(lia)). unfold bit in Hj.
    replace ((8 * Z.of_nat i + k) / 8) with (Z.of_nat i) in Hj by zlia.
    replace ((8 * Z.of_nat i + k) mod 8) with k in Hj by zlia.
    by rewrite Nat2Z.id, Hx, Hy in Hj.
  - assert (high : ∀ z, in_u 8 z → Z.testbit z k = false).
    { intros z Hz. rewrite <- (wrap_small 8 z Hz). unfold wrap. apply Z.mod_pow2_bits_high. lia. }
    rewrite !high; [done | by eapply (Forall_lookup_1 _ b) | by eapply (Forall_lookup_1 _ a)].
Qed.

Lemma clrbit_spec a i : bytes a → 0 <= i < 8 * Z.of_nat (length a) →
  ∃ a', clrbit a i = Ok a' ∧ edited a a' (λ j, bit a j && negb (j =? i)).
Proof.
  intros Ha Hi. unfold clrbit, NBBY.
  destruct (byte_edit a (i / 8) (λ b, Z.land b (Z.lnot (Z.shiftl 1 (i mod 8))))) as (a' & -> & He);
    [done | zlia | intros; by apply land_in_u |].
  exists a'. split; [done |]. eapply edited_eq; [done |]. intros j Hj. simpl.
  destruct (Z.eqb_spec (j / 8) (i / 8)) as [E|E].
  - rewrite (bit_byte a (i / 8)) by (done || zlia).
    rewrite Z.land_spec, Z.lnot_spec, Z.shiftl_1_l, Z.pow2_bits_eqb by zlia.
    do 2 f_equal. apply Z.b2z_inj. destruct (Z.eqb_spec (i mod 8) (j mod 8)), (Z.eqb_spec j i); done || zlia.
  - rewrite (proj2 (Z.eqb_neq j i)) by congruence. by rewrite andb_true_r.
Qed.

Lemma setbit_spec a i : bytes a → 0 <= i < 8 * Z.of_nat (length a) →
  ∃ a', setbit a i = Ok a' ∧ edited a a' (λ j, bit a j || (j =? i)).
Proof.
  intros Ha Hi. unfold setbit, NBBY.
  destruct (byte_edit a (i / 8) (λ b, Z.lor b (Z.shiftl 1 (i mod 8)))) as (a' & -> & He);
    [done | zlia | |].
  { intros b Hb. apply lor_in_u; [done | done |]. rewrite Z.shiftl_1_l. unfold in_u.
    split; [lia | apply Z.pow_lt_mono_r; zlia]. }
  exists a'. split; [done |]. eapply edited_eq; [done |]. intros j Hj. simpl.
  destruct (Z.eqb_spec (j / 8) (i / 8)) as [E|E].
  - rewrite (bit_byte a (i / 8)) by (done || zlia).
    rewrite Z.lor_spec, Z.shiftl_1_l, Z.pow2_bits_eqb by zlia.
    f_equal. apply Z.b2z_inj. destruct (Z.eqb_spec (i mod 8) (j mod 8)), (Z.eqb_spec j i); done || zlia.
  - rewrite (proj2 (Z.eqb_neq j i)) by congruence. by rewrite orb_false_r.
Qed.

Lemma and_byte_spec a i mask : bytes a → 0 <= i < Z.of_nat (length a) →
  ∃ a', and_byte a i mask = Ok a' ∧
    edited a a' (λ j, bit a j && ((negb (j / 8 =? i)) || Z.testbit mask (j mod 8))).
Proof.
  intros Ha Hi. unfold and_byte.
  destruct (byte_edit a i (λ b, Z.land b mask)) as (a' & -> & He);
    [done | done | intros; by apply land_in_u |].
  exists a'. split; [done |]. eapply edited_eq; [done |]. intros j Hj. simpl.
  destruct (Z.eqb_spec (j / 8) i) as [<-|E]; simpl; [| by rewrite andb_true_r].
  by rewrite Z.land_spec, (bit_byte a (j / 8)) by (done || zlia).
Qed.

Lemma zero_bytes_spec n a i : bytes a → 0 <= i → i + Z.of_nat n <= Z.of_nat (length a) →
  ∃ a', zero_bytes n a i = Ok a' ∧
    edited a a' (λ j, bit a j && negb ((i <=? j / 8) && (j / 8 <? i + Z.of_nat n))).
Proof.
  revert a i. induction n as [|n IH]; intros a i Ha Hi Hn; simpl.
  - exists a. split; [done |]. split_and!; [done | done |]. intros j Hj.
    rewrite Z.add_0_r.
    destruct (Z.leb_spec i (j / 8)), (Z.ltb_spec (j / 8) i); simpl; rewrite ?andb_true_r; done || lia.
  - unfold wr. rewrite (proj2 (Z.leb_le 0 i)), (proj2 (Z.ltb_lt i _)) by lia. simpl.
    destruct (IH (<[Z.to_nat i:=0]> a) (i + 1)) as (a' & -> & Hb & Hl & Hj);
      [by apply Forall_insert | lia | rewrite length_insert; lia |].
    exists a'. split; [done |]. rewrite length_insert in Hl. split_and!; [done | done |].
    intros j Hj0. rewrite Hj by done. unfold bit. destruct (Z.eqb_spec (j / 8) i) as [->|Hne].
    + rewrite list_lookup_insert_eq by lia. rewrite Z.bits_0. simpl.
      rewrite (proj2 (Z.leb_le i i)), (proj2 (Z.ltb_lt i _)) by lia. by rewrite andb_false_r.
    + rewrite list_lookup_insert_ne by (assert (0 <= j / 8) by zlia; lia). f_equal. f_equal.
      destruct (Z.leb_spec (i + 1) (j / 8)), (Z.leb_spec i (j / 8)),
        (Z.ltb_spec (j / 8) (i + 1 + Z.of_nat n)), (Z.ltb_spec (j / 8) (i + Z.of_nat (S n))); done || lia.
Qed.

(** ** The optimised loop *)

Lemma ones_mask k : 0 <= k < 8 → u8 (Z.shiftl 1 k - 1) = Z.ones k.
Proof.
  intros Hk. rewrite Z.shiftl_1_l, Z.ones_equiv. apply wrap_small. unfold in_u.
  assert (2 ^ k < 2 ^ 8) by (apply Z.pow_lt_mono_r; lia). lia.
Qed.

Lemma field_mask s e : 0 <= s <= e → e < 8 →
  u8 (Z.shiftl (Z.shiftl 1 (e - s) - 1) s) = Z.shiftl (Z.ones (e - s)) s.
Proof.
  intros Hs He. rewrite Z.shiftl_1_l, Z.ones_equiv. apply wrap_small.
  rewrite Z.shiftl_mul_pow2 by lia. unfold in_u.
  assert (2 ^ (e - s) * 2 ^ s < 2 ^ 8) by (rewrite <- Z.pow_add_r by lia; apply Z.pow_lt_mono_r; lia).
  assert (0 < 2 ^ (e - s)) by lia. assert (0 < 2 ^ s) by lia. nia.
Qed.

Lemma ones_bits n k : 0 <= n → 0 <= k → Z.testbit (Z.ones n) k = (k <? n).
Proof.
  intros Hn Hk. destruct (Z.ltb_spec k n); [apply Z.ones_spec_low | apply Z.ones_spec_high]; lia.
Qed.

Lemma field_bits s e k : 0 <= s <= e → 0 <= k →
  Z.testbit (Z.shiftl (Z.ones (e - s)) s) k = (s <=? k) && (k <? e).
Proof.
  intros Hs Hk. rewrite Z.shiftl_spec by done. destruct (Z.leb_spec s k).
  - rewrite ones_bits by lia. simpl. apply Z.b2z_inj.
    destruct (Z.ltb_spec (k - s) (e - s)), (Z.ltb_spec k e); done || lia.
  - by rewrite Z.testbit_neg_r by lia.
Qed.

(** Decides equalities between boolean combinations of comparisons. *)
Ltac bool_lia :=
  repeat match goal with
  | |- context [?a <=? ?b] => destruct (Z.leb_spec a b)
  | |- context [?a <? ?b] => destruct (Z.ltb_spec a b)
  | |- context [?a =? ?b] => destruct (Z.eqb_spec a b)
  end; simpl; rewrite ?andb_true_r, ?andb_false_r; try done; exfalso; zlia.

Definition cleared (a : list Z) (off len : Z) (j : Z) : bool :=
  bit a j && negb ((off <=? j) && (j <? off + len)).

(** The bits of the last byte, which is not there when there are none. *)
Lemma end_byte a e k :
  bytes a → 0 <= k < 8 → 0 <= e ∧ (k ≠ 0 → e < Z.of_nat (length a)) →
  ∃ a', (if negb (Z.ones k =? 0) then and_byte a e (Z.lnot (Z.ones k)) else Ok a) = Ok a' ∧
    edited a a' (λ j, bit a j && negb ((j / 8 =? e) && (j mod 8 <? k))).
Proof.
  intros Ha Hk [He Hin]. destruct (Z.eqb_spec (Z.ones k) 0) as [E0|E0]; simpl.
  - exists a. split; [done |]. split_and!; [done | done |]. intros j Hj.
    assert (k = 0) as ->.
    { destruct (Z.eqb_spec k 0); [done |]. rewrite Z.ones_equiv in E0.
      assert (2 ^ 1 <= 2 ^ k) by (apply Z.pow_le_mono_r; lia). lia. }
    destruct (bit a j); [| done]. bool_lia.
  - destruct (and_byte_spec a e (Z.lnot (Z.ones k))) as (a2 & -> & He2);
      [done | split; [done | apply Hin; by intros ->] |].
    exists a2. split; [done |]. eapply edited_eq; [done |]. intros j Hj. simpl.
    rewrite Z.lnot_spec, ones_bits by zlia. f_equal. bool_lia.
Qed.

Lemma clrbits_spec a off len :
  bytes a → 0 <= off → 0 < len → off + len <= 8 * Z.of_nat (length a) →
  ∃ a', clrbits a off len = Ok a' ∧ edited a a' (cleared a off len).
Proof.
  intros Ha Hoff Hlen Hfit. unfold clrbits, cleared, NBBY.
  destruct (Z.eqb_spec len 1) as [->|Hne].
  { destruct (clrbit_spec a off) as (a' & -> & He); [done | lia |]. exists a'. split; [done |].
    eapply edited_eq; [done |]. intros j Hj. simpl. f_equal. bool_lia. }
  rewrite !Z.quot_div_nonneg, !Z.rem_mod_nonneg by lia.
  destruct (Z.eqb_spec (off / 8) ((off + len) / 8)) as [E|E].
  - rewrite field_mask by zlia.
    destruct (and_byte_spec a (off / 8) (Z.lnot (Z.shiftl (Z.ones ((off + len) mod 8 - off mod 8)) (off mod 8))))
      as (a' & -> & He); [done | zlia |].
    exists a'. split; [done |]. eapply edited_eq; [done |]. intros j Hj. simpl. f_equal.
    rewrite Z.lnot_spec, field_bits by zlia. bool_lia.
  - rewrite !ones_mask by zlia.
    destruct (and_byte_spec a (off / 8) (Z.ones (off mod 8))) as (a1 & -> & Hb1 & Hl1 & H1); [done | zlia |].
    simpl. destruct (end_byte a1 ((off + len) / 8) ((off + len) mod 8)) as (a2 & -> & Hb2 & Hl2 & H2);
      [done | zlia | rewrite Hl1; zlia |].
    simpl. destruct (zero_bytes_spec (Z.to_nat ((off + len) / 8 - (off / 8 + 1))) a2 (off / 8 + 1))
      as (a3 & -> & Hb3 & Hl3 & H3); [done | zlia | rewrite Hl2, Hl1; zlia |].
    exists a3. split; [done |]. split_and!; [done | lia |]. intros j Hj.
    rewrite H3, H2, H1, ones_bits by zlia. rewrite <- !andb_assoc. f_equal. bool_lia.
Qed.

(** The loop that [clrbits] stands for: one bit at a time. *)
Fixpoint clear_each (n : nat) (a : list Z) (off : Z) : res (list Z) :=
  match n with
  | O => Ok a
  | S n => a ← clrbit a off; clear_each n a (off + 1)
  end.

Lemma clear_each_spec n a off :
  bytes a → 0 <= off → off + Z.of_nat n <= 8 * Z.of_nat (length a) →
  ∃ a', clear_each n a off = Ok a' ∧ edited a a' (cleared a off (Z.of_nat n)).
Proof.
  revert a off. induction n as [|n IH]; intros a off Ha Hoff Hfit.
  - exists a. split; [done |]. split_and!; [done | done |]. intros j Hj. unfold cleared.
    destruct (bit a j); [| done]. bool_lia.
  - simpl. destruct (clrbit_spec a off) as (a1 & -> & Hb & Hl & H1); [done | lia |]. simpl.
    destruct (IH a1 (off + 1)) as (a2 & -> & Hb2 & Hl2 & H2); [done | lia | lia |].
    exists a2. split; [done |]. split_and!; [done | lia |]. intros j Hj.
    rewrite H2 by done. unfold cleared. rewrite H1 by done. rewrite <- andb_assoc. f_equal. bool_lia.
Qed.

(** C30: [clrbits] is the loop it optimises: on any range of bits inside the
    array it gives the same array as clearing the bits of the range one by
    one, and never touches a byte outside the array. *)
Theorem clrbits_equiv a off len :
  bytes a → 0 <= off → 0 < len → off + len <= 8 * Z.of_nat (length a) →
  ∃ a', clrbits a off len = Ok a' ∧ clear_each (Z.to_nat len) a off = Ok a'.
Proof.
  intros Ha Hoff Hlen Hfit.
  destruct (clrbits_spec a off len) as (a1 & -> & Hb1 & Hl1 & H1); [done..|].
  destruct (clear_each_spec (Z.to_nat len) a off) as (a2 & -> & Hb2 & Hl2 & H2); [done | done | lia |].
  exists a1. split; [done |]. f_equal. apply bit_inj; [done | done | lia |]. intros j Hj.
  by rewrite H1, H2, Z2Nat.id by lia.
Qed.

Lemma clrbits_equiv_witness :
  ∃ a', clrbits [255; 255; 255; 255] 5 19 = Ok a' ∧ clear_each 19 [255; 255; 255; 255] 5 = Ok a'.
Proof.
  apply (clrbits_equiv [255; 255; 255; 255] 5 19); [| lia | lia | simpl; lia].
  repeat constructor; unfold in_u; lia.
Defined.
