(* ===== verification/ClistSpec.v ===== *)
(** * Terminal queues as sequences of characters

    What a [clist] holds: the characters of its ring from [c_cf] on, each with
    its quote bit.  The lemmas describe the pieces of code the operations are
    made of: taking a run of characters off the front, adding a run at the
    end, and reading one. *)

From S2P Require Import Prelude Clist ClistBits.

(** A position of a ring of [n] characters, for [0 <= k < 2 * n]. *)
Definition pos (n k : Z) : Z := if k <? n then k else k - n.

Definition byte_at (clp : clist) (k : Z) : Z :=
  match c_cs clp with Some b => default 0 (b !! Z.to_nat k) | None => 0 end.
Definition quote_at (clp : clist) (k : Z) : bool :=
  match c_cq clp with Some q => bit q k | None => false end.
Definition cell (clp : clist) (k : Z) : Z :=
  byte_at clp k + (if quote_at clp k then TTY_QUOTE else 0).

(** The arrays of a queue of size [n], with quoting or without. *)
Record shape (clp : clist) (n : Z) (quot : bool) : Prop := {
  sh_ring : ∃ b, c_cs clp = Some b ∧ bytes b ∧ Z.of_nat (length b) = n;
  sh_bits : if quot then ∃ q, c_cq clp = Some q ∧ bytes q ∧ Z.of_nat (length q) = QMEM n
            else c_cq clp = None;
  sh_cn : c_cn clp = n;
  sh_ce : c_ce clp = n;
  sh_size : 0 < n <= INT_MAX
}.

(** The characters [chars] lie in the ring from position [f] on. *)
Definition at_ (clp : clist) (n f : Z) (chars : list Z) : Prop :=
  c_cc clp = Z.of_nat (length chars) ∧ Z.of_nat (length chars) <= n ∧ 0 <= f < n ∧
  c_cf clp = Some f ∧ c_cl clp = Some (pos n (f + Z.of_nat (length chars))) ∧
  ∀ i c, chars !! i = Some c → cell clp (pos n (f + Z.of_nat i)) = c.

(** The pointers of an empty queue do not matter. *)
Definition holds (clp : clist) (n : Z) (chars : list Z) : Prop :=
  (chars = [] ∧ c_cc clp = 0) ∨ ∃ f, at_ clp n f chars.

Lemma QMEM_bits n : 0 < n → n <= 8 * QMEM n.
Proof. intros Hn. unfold QMEM, NBBY. rewrite Z.quot_div_nonneg by lia. zlia. Qed.

Lemma shape_quote_range clp n q : shape clp n true → c_cq clp = Some q →
  bytes q ∧ n <= 8 * Z.of_nat (length q).
Proof.
  intros [_ (q' & Hq & Hb & Hl) _ _ Hn] Hc. simplify_eq. split; [done |].
  rewrite Hl. apply QMEM_bits. lia.
Qed.

(** ** Cells *)

Lemma cell_ext clp clp' k : c_cs clp' = c_cs clp → c_cq clp' = c_cq clp → cell clp' k = cell clp k.
Proof. unfold cell, byte_at, quote_at. by intros -> ->. Qed.

Lemma byte_at_range clp n quot k : shape clp n quot → in_u 8 (byte_at clp k).
Proof.
  intros [(b & Hb & Hbytes & _) _ _ _ _]. unfold byte_at. rewrite Hb.
  destruct (b !! Z.to_nat k) eqn:E; simpl; [by eapply Forall_lookup_1 | unfold in_u; lia].
Qed.

Lemma cell_range clp n quot k : shape clp n quot →
  0 <= cell clp k < (if quot then 512 else 256).
Proof.
  intros Hs. pose proof (byte_at_range clp n quot k Hs) as Hb. unfold in_u in Hb.
  unfold cell, quote_at, TTY_QUOTE. destruct quot.
  - repeat case_match; lia.
  - rewrite (sh_bits _ _ _ Hs). lia.
Qed.

Lemma cell_low clp n quot k : shape clp n quot → Z.land (cell clp k) 255 = byte_at clp k.
Proof.
  intros Hs. pose proof (byte_at_range clp n quot k Hs) as Hb.
  change 255 with (Z.ones 8). rewrite Z.land_ones by lia. unfold cell, TTY_QUOTE, in_u in *.
  case_match; zlia.
Qed.

Lemma lor_quote c : in_u 8 c → Z.lor c TTY_QUOTE = c + TTY_QUOTE.
Proof.
  intros Hc. unfold TTY_QUOTE. rewrite Z.lor_comm.
  pose proof (lor_shiftl 1 c 8 ltac:(lia) Hc) as H. change (Z.shiftl 1 8) with 256 in H. lia.
Qed.

(** Reading a character gives its cell. *)
Lemma char_of_cell clp n quot k : shape clp n quot → 0 <= k < n → char_of clp k = Ok (cell clp k).
Proof.
  intros Hs Hk. pose proof (byte_at_range clp n quot k Hs) as Hr.
  destruct (sh_ring _ _ _ Hs) as (b & Hb & Hbytes & Hl).
  unfold char_of, ring, cell, byte_at, quote_at in *. rewrite Hb in *. cbn [mbind res_bind].
  destruct (lookup_lt_is_Some_2 b (Z.to_nat k)) as [x Hx]; [lia |].
  rewrite (proj2 (rd_lookup b k x)) by (split; [lia | done]). rewrite Hx in *. cbn [mbind res_bind default].
  assert (Z.land x 255 = x) as ->.
  { change 255 with (Z.ones 8). rewrite Z.land_ones by lia. by apply wrap_small. }
  destruct (c_cq clp) as [q|] eqn:Hq; [| by rewrite Z.add_0_r].
  destruct quot; [| by pose proof (sh_bits _ _ _ Hs); simplify_eq].
  destruct (shape_quote_range clp n q Hs Hq) as [Hbq Hlq].
  rewrite isset_bit by lia. cbn [mbind res_bind].
  case_match; [by rewrite lor_quote | by rewrite Z.add_0_r].
Qed.

(** ** Positions *)

Ltac pos_lia := unfold pos in *; repeat case_match; try lia.

Lemma pos_range n k : 0 <= k < 2 * n → 0 <= pos n k < n.
Proof. intros H. unfold pos. destruct (Z.ltb_spec k n); lia. Qed.

Lemma pos_pos n k i : 0 <= k < 2 * n → 0 <= i → k + i < 2 * n → pos n (pos n k + i) = pos n (k + i).
Proof. intros. unfold pos. destruct (Z.ltb_spec k n); [done |].
  destruct (Z.ltb_spec (k - n + i) n), (Z.ltb_spec (k + i) n); lia. Qed.

Lemma pos_end n k : 0 < n → 0 <= k <= n → (if k =? n then 0 else k) = pos n k.
Proof. intros. unfold pos. destruct (Z.eqb_spec k n), (Z.ltb_spec k n); lia. Qed.

(** ** Moving the ends *)

(** A run [l1] at the front, which does not go past the end of the ring, is
    dropped by moving [c_cf]. *)
Lemma at_drop clp clp' n f l1 l2 :
  at_ clp n f (l1 ++ l2) → f + Z.of_nat (length l1) <= n →
  c_cs clp' = c_cs clp → c_cq clp' = c_cq clp → c_cl clp' = c_cl clp →
  c_cc clp' = c_cc clp - Z.of_nat (length l1) →
  c_cf clp' = Some (if f + Z.of_nat (length l1) =? n then 0 else f + Z.of_nat (length l1)) →
  at_ clp' n (pos n (f + Z.of_nat (length l1))) l2.
Proof.
  intros (Hcc & Hn & Hf & Hcf & Hcl & Hcells) Hrun Hcs Hcq Hcl' Hcc' Hcf'.
  rewrite length_app, Nat2Z.inj_add in *. unfold at_. split_and!.
  - lia.
  - lia.
  - apply pos_range; lia.
  - apply pos_range; lia.
  - rewrite Hcf'. f_equal. apply pos_end; lia.
  - rewrite Hcl', Hcl, pos_pos by lia. do 2 f_equal. lia.
  - intros i c Hi. pose proof (lookup_lt_Some _ _ _ Hi).
    rewrite (cell_ext clp clp') by done.
    rewrite pos_pos by lia. rewrite <- (Hcells (length l1 + i)%nat c) by (by rewrite lookup_app_r, Nat.add_sub' by lia).
    do 2 f_equal. lia.
Qed.

(** A run [l2], stored behind the last character without going past the end
    of the ring, is added by moving [c_cl]. *)
Lemma at_app clp clp' n f l1 l2 :
  at_ clp n f l1 → Z.of_nat (length l1) + Z.of_nat (length l2) <= n →
  let l := pos n (f + Z.of_nat (length l1)) in
  l + Z.of_nat (length l2) <= n →
  (∀ k, 0 <= k < n →
     cell clp' k = if (l <=? k) && (k <? l + Z.of_nat (length l2))
                   then default 0 (l2 !! Z.to_nat (k - l)) else cell clp k) →
  c_cf clp' = Some f → c_cc clp' = c_cc clp + Z.of_nat (length l2) →
  c_cl clp' = Some (if l + Z.of_nat (length l2) =? n then 0 else l + Z.of_nat (length l2)) →
  at_ clp' n f (l1 ++ l2).
Proof.
  intros (Hcc & Hn & Hf & Hcf & Hcl & Hcells) Hfit l Hrun Hcell Hcf' Hcc' Hcl'.
  assert (Hl : 0 <= l < n ∨ l = n) by (unfold l, pos; destruct (Z.ltb_spec (f + Z.of_nat (length l1)) n); lia).
  unfold at_. rewrite length_app, Nat2Z.inj_add. split_and!; [lia | lia | lia | lia | done | |].
  - rewrite Hcl', pos_end by lia. f_equal. unfold l. rewrite pos_pos by lia. f_equal. lia.
  - intros i c Hi. apply lookup_app_Some in Hi as [Hi|[Hge Hi]].
    + pose proof (lookup_lt_Some _ _ _ Hi). rewrite Hcell by (apply pos_range; lia).
      rewrite <- (Hcells i c Hi). unfold l.
      destruct (Z.leb_spec (pos n (f + Z.of_nat (length l1))) (pos n (f + Z.of_nat i))); simpl; [| done].
      destruct (Z.ltb_spec (pos n (f + Z.of_nat i)) (pos n (f + Z.of_nat (length l1)) + Z.of_nat (length l2)));
        [| done]. exfalso. unfold l, pos in *.
      destruct (Z.ltb_spec (f + Z.of_nat i) n), (Z.ltb_spec (f + Z.of_nat (length l1)) n); lia.
    + pose proof (lookup_lt_Some _ _ _ Hi).
      assert (Hp : pos n (f + Z.of_nat i) = l + Z.of_nat (i - length l1)).
      { unfold l, pos in *. destruct (Z.ltb_spec (f + Z.of_nat i) n), (Z.ltb_spec (f + Z.of_nat (length l1)) n); lia. }
      rewrite Hp, Hcell by lia.
      rewrite (proj2 (Z.leb_le _ _)), (proj2 (Z.ltb_lt _ _)) by lia. simpl.
      replace (l + Z.of_nat (i - length l1) - l) with (Z.of_nat (i - length l1)) by lia.
      by rewrite Nat2Z.id, Hi.
Qed.
