(* ===== verification/ClistRefine.v ===== *)
(** * Terminal queues: refinement

    The operations of [Clist] against bounded first-in first-out queues of
    characters: the abstract machine, the proof that every operation follows
    it, and the properties of whole runs. *)

From S2P Require Import Prelude Clist ClistBits ClistSpec.

(** A queue with its capacity, and whether it keeps quote bits; [None] is a
    queue that has no ring yet. *)
Record queue := Queue { q_size : Z; q_quote : bool; q_chars : list Z }.

Definition with_chars (q : queue) (chars : list Z) : queue := Queue (q_size q) (q_quote q) chars.

Definition repr (clp : clist) (a : option queue) : Prop :=
  match a with
  | None => c_cs clp = None ∧ c_cc clp = 0
  | Some q => shape clp (q_size q) (q_quote q) ∧ holds clp (q_size q) (q_chars q)
  end.

Definition low (c : Z) : Z := Z.land c 255.
(** The character that [putc] stores. *)
Definition kept (quot : bool) (c : Z) : Z :=
  low c + (if quot && negb (Z.land c TTY_QUOTE =? 0) then TTY_QUOTE else 0).

Lemma low_range c : in_u 8 (low c).
Proof. unfold low. change 255 with (Z.ones 8). rewrite land_ones_mod by done. by apply wrap_in_u. Qed.

(** ** Frame lemmas *)

Lemma shape_ext clp clp' n quot :
  shape clp n quot → c_cs clp' = c_cs clp → c_cq clp' = c_cq clp →
  c_cn clp' = c_cn clp → c_ce clp' = c_ce clp → shape clp' n quot.
Proof. intros [? ? ? ? ?] Hs Hq Hn He. split; rewrite ?Hs, ?Hq, ?Hn, ?He; done. Qed.

Lemma shape_null clp n quot : shape clp n quot → shape (null_if_empty clp) n quot.
Proof. intros H. eapply shape_ext; [done |..]; unfold null_if_empty; by case_match. Qed.

Lemma holds_null clp n f chars : at_ clp n f chars → holds (null_if_empty clp) n chars.
Proof.
  intros H. pose proof H as (Hcc & _). unfold null_if_empty. destruct (Z.eqb_spec (c_cc clp) 0).
  - left. split; [destruct chars; [done | simpl in *; lia] | done].
  - right. eauto.
Qed.

Lemma holds_cases clp n chars : holds clp n chars →
  (chars = [] ∧ c_cc clp = 0) ∨ (chars ≠ [] ∧ c_cc clp ≠ 0 ∧ ∃ f, at_ clp n f chars).
Proof.
  intros [H|[f H]]; [by left |]. pose proof H as (Hcc & _).
  destruct chars; [by left | right]. split; [done |]. split; [simpl in *; lia | eauto].
Qed.

Lemma repr_at clp n quot f chars :
  shape clp n quot ∧ at_ clp n f chars → repr clp (Some (Queue n quot chars)).
Proof. intros [? ?]. split; [done |]. right. by exists f. Qed.

(** ** Characters off either end *)

Lemma getc_spec clp n quot chars : shape clp n quot → holds clp n chars →
  ∃ clp', getc clp = Ok (default (-1) (head chars), clp') ∧
    shape clp' n quot ∧ holds clp' n (tail chars).
Proof.
  intros Hs Hh. unfold getc. destruct (holds_cases _ _ _ Hh) as [[-> Hcc]|(Hne & Hcc & f & Hat)].
  { rewrite (proj2 (Z.eqb_eq _ _) Hcc). by exists clp. }
  rewrite (proj2 (Z.eqb_neq _ _) Hcc). destruct chars as [|c chars]; [done |].
  pose proof Hat as (Hc & Hn & Hf & Hcf & Hcl & Hcells).
  rewrite Hcf. cbn [ptr mbind res_bind]. rewrite (char_of_cell clp n quot) by done. cbn [mbind res_bind].
  rewrite (sh_ce _ _ _ Hs).
  assert (cell clp f = c) as ->.
  { rewrite <- (Hcells 0%nat c) by done. f_equal. rewrite Z.add_0_r. unfold pos. by rewrite (proj2 (Z.ltb_lt _ _)) by lia. }
  eexists. split; [done |]. split; [apply shape_null; by eapply shape_ext |].
  eapply holds_null. apply (at_drop clp _ n f [c] chars); try done; simpl; lia.
Qed.

Lemma unputc_spec clp n quot chars : shape clp n quot → holds clp n chars →
  ∃ clp', unputc clp = Ok (default (-1) (last chars), clp') ∧
    shape clp' n quot ∧ holds clp' n (take (pred (length chars)) chars).
Proof.
  intros Hs Hh. unfold unputc. destruct (holds_cases _ _ _ Hh) as [[-> Hcc]|(Hne & Hcc & f & Hat)].
  { rewrite (proj2 (Z.eqb_eq _ _) Hcc). by exists clp. }
  rewrite (proj2 (Z.eqb_neq _ _) Hcc).
  destruct (exists_last Hne) as (l & c & ->). clear Hne. rewrite last_snoc, length_app.
  replace (take (pred (length l + length [c])) (l ++ [c])) with l
    by (simpl; rewrite Nat.add_1_r; simpl; by rewrite take_app_length).
  pose proof Hat as (Hc & Hn & Hf & Hcf & Hcl & Hcells). rewrite length_app in *. simpl in *.
  rewrite Hcl. cbn [ptr mbind res_bind]. rewrite (sh_ce _ _ _ Hs).
  set (p := if pos n _ =? 0 then _ else _).
  assert (Hp : p = pos n (f + Z.of_nat (length l))).
  { unfold p, pos. destruct (Z.ltb_spec (f + Z.of_nat (length l + 1)) n), (Z.ltb_spec (f + Z.of_nat (length l)) n);
      match goal with |- context [?x =? 0] => destruct (Z.eqb_spec x 0) end; lia. }
  assert (Hr : 0 <= p < n) by (rewrite Hp; apply pos_range; lia).
  rewrite (char_of_cell _ n quot) by (done || by eapply shape_ext). cbn [mbind res_bind].
  assert (cell (set_cc (set_cl clp (Some p)) (c_cc clp - 1)) p = c) as ->.
  { rewrite (cell_ext clp) by done. rewrite Hp. apply Hcells. by rewrite list_lookup_middle. }
  eexists. split; [done |]. split; [apply shape_null; by eapply shape_ext |].
  apply (holds_null _ n f). unfold at_. simpl. rewrite Hp. split_and!; try done; [lia.. |].
  intros i x Hi. rewrite (cell_ext clp) by done. apply Hcells.
  by apply lookup_app_l_Some.
Qed.

(** ** Room for characters *)

(** The queue that an operation which stores works on. *)
Definition opened (alloc : bool * bool) (a : option queue) : option queue :=
  match a with
  | Some q => Some q
  | None => if alloc.1 then Some (Queue 1024 true []) else None
  end.

Lemma ready_spec clp a alloc : repr clp a → alloc ≠ (true, false) →
  match opened alloc a with
  | None => ∃ clp', ready alloc clp = Ok (None, clp') ∧ repr clp' None
  | Some q => ∃ clp' f, ready alloc clp = Ok (Some (), clp') ∧
      shape clp' (q_size q) (q_quote q) ∧ at_ clp' (q_size q) f (q_chars q)
  end.
Proof.
  intros Hr Ha. unfold ready. destruct a as [q|]; simpl in *.
  - destruct Hr as [Hs Hh]. destruct (holds_cases _ _ _ Hh) as [[Hq Hcc]|(Hne & Hcc & f & Hat)].
    + rewrite (proj2 (Z.eqb_eq _ _) Hcc). destruct (sh_ring _ _ _ Hs) as (b & Hb & _). rewrite Hb.
      pose proof (sh_size _ _ _ Hs). eexists _, 0. split; [done |]. split; [by eapply shape_ext |].
      rewrite Hq. unfold at_, pos. simpl. rewrite (proj2 (Z.ltb_lt 0 _)) by lia. split_and!; done || lia.
    + rewrite (proj2 (Z.eqb_neq _ _) Hcc). eauto.
  - destruct Hr as [Hcs Hcc]. rewrite Hcc, Hcs, Z.eqb_refl. unfold clalloc.
    destruct alloc as [[] []]; [| done |..]; cbn [fst snd negb mbind res_bind]; rewrite ?Z.eqb_refl;
      [| by eexists ..]. cbn [negb].
    eexists _, 0. split; [done |]. split.
    + split; cbn [set_both set_cf set_cl c_cs c_cq c_cn c_ce].
      * eexists. split; [done |]. split; [| by rewrite length_replicate].
        apply Forall_replicate. unfold in_u. lia.
      * eexists. split; [done |]. split; [| by rewrite length_replicate].
        apply Forall_replicate. unfold in_u. lia.
      * done.
      * done.
      * by cbn.
    + by split_and!.
Qed.

(** Storing a run of unquoted or single characters behind the last one. *)
Lemma blit_lookup {A} (b : list A) l data k : 0 <= l → l + Z.of_nat (length data) <= Z.of_nat (length b) →
  0 <= k →
  (take (Z.to_nat l) b ++ data ++ drop (Z.to_nat l + length data) b) !! Z.to_nat k =
  if (l <=? k) && (k <? l + Z.of_nat (length data)) then data !! Z.to_nat (k - l) else b !! Z.to_nat k.
Proof.
  intros Hl Hfit Hk. assert (Ht : length (take (Z.to_nat l) b) = Z.to_nat l) by (rewrite length_take; lia).
  destruct (Z.leb_spec l k); simpl.
  - rewrite lookup_app_r by lia. rewrite Ht. destruct (Z.ltb_spec k (l + Z.of_nat (length data))).
    + rewrite lookup_app_l by lia. f_equal. lia.
    + rewrite lookup_app_r by lia. rewrite lookup_drop. f_equal. lia.
  - rewrite lookup_app_l by lia. by rewrite lookup_take_lt by lia.
Qed.

Lemma blit_bytes b l data : bytes b → bytes data →
  bytes (take (Z.to_nat l) b ++ data ++ drop (Z.to_nat l + length data) b).
Proof. intros Hb Hd. apply Forall_app_2; [by apply Forall_take |]. apply Forall_app_2; [done | by apply Forall_drop]. Qed.

Lemma blit_length {A} (b : list A) l data : 0 <= l → l + Z.of_nat (length data) <= Z.of_nat (length b) →
  length (take (Z.to_nat l) b ++ data ++ drop (Z.to_nat l + length data) b) = length b.
Proof. intros. rewrite !length_app, length_take, length_drop. lia. Qed.

(** Quote bits [oq] given by [P]. *)
Definition requoted (n : Z) (quot : bool) (oq : option (list Z)) (P : Z → bool) : Prop :=
  (if quot then ∃ q, oq = Some q ∧ bytes q ∧ Z.of_nat (length q) = QMEM n else oq = None) ∧
  ∀ k, 0 <= k → (match oq with Some q => bit q k | None => false end) = P k.

Lemma edited_requoted clp n q q' P : shape clp n true → c_cq clp = Some q → edited q q' P →
  requoted n true (Some q') P.
Proof.
  intros Hs Hq (Hb & Hl & HP). destruct (sh_bits _ _ _ Hs) as (q0 & Hq0 & _ & Hl0). simplify_eq.
  split; [| done]. exists q'. by rewrite Hl.
Qed.

Lemma requoted_eq n quot oq P Q : requoted n quot oq P → (∀ k, 0 <= k → P k = Q k) → requoted n quot oq Q.
Proof. intros [H HP] HPQ. split; [done |]. intros k Hk. by rewrite HP, HPQ. Qed.

(** A run [data] of bytes goes into the ring at [l], and its quote bits are
    set to those of [l2]: the queue then ends with [l2]. *)
Lemma stored_run clp n quot f l1 l2 b data oq :
  shape clp n quot → at_ clp n f l1 → c_cs clp = Some b →
  let l := pos n (f + Z.of_nat (length l1)) in
  length data = length l2 → bytes data →
  Z.of_nat (length l1) + Z.of_nat (length l2) <= n → l + Z.of_nat (length l2) <= n →
  requoted n quot oq (λ k, if (l <=? k) && (k <? l + Z.of_nat (length l2))
      then negb (default 0 (data !! Z.to_nat (k - l)) =? default 0 (l2 !! Z.to_nat (k - l)))
      else quote_at clp k) →
  (∀ i c, l2 !! i = Some c → ∃ x, data !! i = Some x ∧ (c = x ∨ c = x + TTY_QUOTE)) →
  ∀ clp', c_cs clp' = Some (take (Z.to_nat l) b ++ data ++ drop (Z.to_nat l + length data) b) →
  c_cq clp' = oq → c_cn clp' = c_cn clp → c_ce clp' = c_ce clp → c_cf clp' = c_cf clp →
  c_cc clp' = c_cc clp + Z.of_nat (length l2) →
  c_cl clp' = Some (if l + Z.of_nat (length l2) =? n then 0 else l + Z.of_nat (length l2)) →
  shape clp' n quot ∧ at_ clp' n f (l1 ++ l2).
Proof.
  intros Hs Hat Hb l Hdl Hdata Hfit Hrun [Hoq Hbits] Hl2 clp' Hcs' Hcq' Hcn' Hce' Hcf' Hcc' Hcl'.
  destruct (sh_ring _ _ _ Hs) as (b' & Hb' & Hbytes & Hbl). rewrite Hb in Hb'. simplify_eq Hb'. intros <-.
  pose proof (sh_size _ _ _ Hs). pose proof Hat as (Hcc & Hn & Hf & Hcf & Hcl & _).
  assert (0 <= l) by (apply pos_range; lia).
  split.
  - split; rewrite ?Hcs', ?Hcq', ?Hcn', ?Hce'; [| done | apply (sh_cn _ _ _ Hs) | apply (sh_ce _ _ _ Hs) | done].
    eexists. split; [done |]. split; [by apply blit_bytes |]. rewrite blit_length; lia.
  - apply (at_app clp clp' n f l1 l2); try done; [| by rewrite Hcf', Hcf]. intros k Hk.
    unfold cell, byte_at, quote_at. rewrite Hcs', Hcq', Hbits, Hb, blit_lookup, Hdl by lia. fold l. unfold quote_at.
    destruct (Z.leb_spec l k), (Z.ltb_spec k (l + Z.of_nat (length l2))); cbn [andb]; try done.
    destruct (lookup_lt_is_Some_2 l2 (Z.to_nat (k - l))) as [c Hc]; [lia |].
    destruct (Hl2 _ _ Hc) as (x & Hx & Hcx). rewrite Hc, Hx. cbn [from_option id].
    unfold TTY_QUOTE in *. destruct Hcx as [-> | ->]; [rewrite Z.eqb_refl | rewrite (proj2 (Z.eqb_neq x (x + 256))) by lia];
      simpl; lia.
Qed.

(** [putc] sets or clears one quote bit. *)
Lemma put_quote_spec clp0 clp n quot l c :
  shape clp0 n quot → c_cq clp = c_cq clp0 → 0 <= l < n →
  ∃ oq, put_quote clp c l = Ok (set_cq clp oq) ∧
    requoted n quot oq (λ j, if j =? l then quot && negb (Z.land c TTY_QUOTE =? 0) else quote_at clp0 j).
Proof.
  intros Hs Hcq Hl. unfold put_quote, quote_at. rewrite Hcq. destruct quot.
  - destruct (sh_bits _ _ _ Hs) as (q & Hq & _). rewrite Hq.
    destruct (shape_quote_range clp0 n q Hs Hq) as [Hb Hr].
    assert (∃ q', (if negb (Z.land c TTY_QUOTE =? 0) then setbit q l else clrbit q l) = Ok q' ∧
      edited q q' (λ j, if j =? l then negb (Z.land c TTY_QUOTE =? 0) else bit q j)) as (q' & -> & He).
    { destruct (negb _); [destruct (setbit_spec q l) as (q' & -> & He) | destruct (clrbit_spec q l) as (q' & -> & He)];
        try (done || lia); exists q'; (split; [done |]); (eapply edited_eq; [done |]); intros j _; simpl;
        destruct (j =? l), (bit q j); done. }
    exists (Some q'). split; [done |]. by eapply edited_requoted.
  - pose proof (sh_bits _ _ _ Hs) as Hq. simpl in Hq. rewrite Hq. exists None. split.
    + f_equal. destruct clp. simpl in *. unfold set_cq. simpl. congruence.
    + split; [done |]. intros j _. by case_match.
Qed.

Definition aputc (alloc : bool * bool) (c : Z) (a : option queue) : Z * option queue :=
  match opened alloc a with
  | None => (-1, None)
  | Some q =>
      if Z.of_nat (length (q_chars q)) =? q_size q then (-1, Some q)
      else (0, Some (with_chars q (q_chars q ++ [kept (q_quote q) c])))
  end.

Lemma putc_spec clp a alloc c : repr clp a → alloc ≠ (true, false) →
  ∃ clp', putc alloc c clp = Ok ((aputc alloc c a).1, clp') ∧ repr clp' (aputc alloc c a).2.
Proof.
  intros Hr Ha. pose proof (ready_spec clp a alloc Hr Ha) as H. unfold putc, aputc.
  destruct (opened alloc a) as [q|]; [| destruct H as (clp' & -> & H); by exists clp'].
  destruct H as (clp1 & f & -> & Hs & Hat). cbn [mbind res_bind].
  pose proof Hat as (Hcc & Hn & Hf & Hcf & Hcl & _). rewrite Hcc, (sh_cn _ _ _ Hs).
  destruct (Z.eqb_spec (Z.of_nat (length (q_chars q))) (q_size q)) as [|Hne].
  { exists clp1. split; [done |]. split; [done | right; eauto]. }
  rewrite Hcl. destruct (sh_ring _ _ _ Hs) as (b & Hb & Hbytes & Hbl). unfold ring. rewrite Hb.
  cbn [ptr mbind res_bind]. set (l := pos _ _).
  assert (Hl : 0 <= l < q_size q) by (apply pos_range; lia). pose proof (sh_size _ _ _ Hs) as Hsize.
  unfold wr. rewrite (proj2 (Z.leb_le 0 l)), (proj2 (Z.ltb_lt l _)) by lia. cbn [andb mbind res_bind].
  unfold INT_MAX in *. rewrite (wrap_small 64 l) by (unfold in_u; lia).
  rewrite Z.gtb_ltb, (proj2 (Z.ltb_ge _ _)) by lia. cbn [set_cs c_cq].
  destruct (put_quote_spec clp1 (set_cs clp1 (Some (<[Z.to_nat l:=Z.land c 255]> b))) (q_size q) (q_quote q) l c)
    as (oq & -> & Hq); [done..|]. cbn [mbind res_bind]. eexists. split; [done |].
  apply (repr_at _ _ _ f).
  apply (stored_run clp1 (q_size q) (q_quote q) f (q_chars q) [kept (q_quote q) c] b [low c] oq);
    try done; try (simpl; lia).
  - apply Forall_singleton, low_range.
  - eapply requoted_eq; [done |]. intros j Hj. cbn [length]. fold l.
    destruct (Z.eqb_spec j l) as [->|Hne'].
    + rewrite (proj2 (Z.leb_le l l)), (proj2 (Z.ltb_lt l _)), Z.sub_diag by lia.
      simpl. unfold kept. destruct (q_quote q && _).
      * by rewrite (proj2 (Z.eqb_neq _ _)) by (unfold TTY_QUOTE; lia).
      * by rewrite Z.add_0_r, Z.eqb_refl.
    + destruct (Z.leb_spec l j), (Z.ltb_spec j (l + Z.of_nat 1)); done || lia.
  - intros [|i] x Hi; simplify_eq/=. exists (low c). split; [done |].
    unfold kept, TTY_QUOTE. destruct (_ && _); [by right | left; lia].
  - cbn. f_equal. rewrite insert_take_drop by lia. fold l. by rewrite Nat.add_1_r.
  - cbn. by rewrite (sh_ce _ _ _ Hs).
Qed.

(** ** Blocks *)

Lemma slice_Ok {A} (b : list A) off len : 0 <= off → 0 <= len → off + len <= Z.of_nat (length b) →
  slice b off len = Ok (take (Z.to_nat len) (drop (Z.to_nat off) b)).
Proof. intros. unfold slice. by rewrite !(proj2 (Z.leb_le _ _)) by lia. Qed.

Lemma blit_Ok {A} (b : list A) off data : 0 <= off → off + Z.of_nat (length data) <= Z.of_nat (length b) →
  blit b off data = Ok (take (Z.to_nat off) b ++ data ++ drop (Z.to_nat off + length data) b).
Proof. intros. unfold blit. by rewrite !(proj2 (Z.leb_le _ _)) by lia. Qed.

Lemma piece_min cc count : 0 <= cc <= INT_MAX → 0 <= count <= INT_MAX →
  (if (cc >? INT_MAX) || (s32 cc >? count) then u64 count else cc) = Z.min cc count.
Proof.
  unfold INT_MAX. intros Hcc Hcount. rewrite swrap_small by lia.
  rewrite !Z.gtb_ltb, (proj2 (Z.ltb_ge _ cc)) by lia. cbn [orb].
  destruct (Z.ltb_spec count cc); [rewrite wrap_small by (unfold in_u; lia) |]; lia.
Qed.

(** The bits under a run of unquoted characters are cleared. *)
Lemma requoted_run n l (data : list Z) q q' clp :
  shape clp n true → c_cq clp = Some q → edited q q' (cleared q l (Z.of_nat (length data))) →
  requoted n true (Some q') (λ k, if (l <=? k) && (k <? l + Z.of_nat (length data))
      then negb (default 0 (data !! Z.to_nat (k - l)) =? default 0 (data !! Z.to_nat (k - l)))
      else quote_at clp k).
Proof.
  intros Hs Hq He. eapply requoted_eq; [by eapply edited_requoted |]. intros k Hk.
  unfold cleared, quote_at. rewrite Hq, Z.eqb_refl.
  by destruct (bit q k), ((l <=? k) && (k <? l + Z.of_nat (length data))).
Qed.

Lemma b_to_q_step fuel clp n quot f chars src p count :
  shape clp n quot → at_ clp n f chars → bytes src → 0 <= p → 0 < count <= INT_MAX →
  Z.of_nat (length chars) < n → p + count <= Z.of_nat (length src) →
  ∃ cc clp', b_to_q_loop (S fuel) clp src p count = b_to_q_loop fuel clp' src (p + cc) (count - cc) ∧
    1 <= cc <= count ∧ Z.of_nat (length chars) + cc <= n ∧
    shape clp' n quot ∧ at_ clp' n f (chars ++ take (Z.to_nat cc) (drop (Z.to_nat p) src)).
Proof.
  intros Hs Hat Hsrc Hp Hcount Hroom Hfit. unfold b_to_q_loop; fold b_to_q_loop.
  pose proof Hat as (Hcc & Hn & Hf & Hcf & Hcl & _). pose proof (sh_size _ _ _ Hs) as Hsize.
  rewrite Hcc, (sh_cn _ _ _ Hs), Z.gtb_ltb, !(proj2 (Z.ltb_lt _ _)) by lia.
  rewrite Hcf, Hcl, (sh_ce _ _ _ Hs). cbn [andb ptr mbind res_bind]. set (l := pos _ _).
  assert (Hl : 0 <= l < n) by (apply pos_range; lia).
  assert (Hpiece : (if f >? l then u64 (f - l) else u64 (n - l)) = Z.min (n - l) (n - Z.of_nat (length chars))).
  { unfold l, pos, INT_MAX in *. rewrite Z.gtb_ltb. destruct (Z.ltb_spec (f + Z.of_nat (length chars)) n);
      match goal with |- context [?a <? ?b] => destruct (Z.ltb_spec a b) end;
      rewrite ?(wrap_small 64) by (unfold in_u; lia); lia. }
  cbv zeta. rewrite Hpiece, piece_min by (unfold INT_MAX in *; lia). set (cc := Z.min _ count).
  assert (Hcc1 : 1 <= cc <= count ∧ l + cc <= n ∧ Z.of_nat (length chars) + cc <= n) by lia.
  destruct (sh_ring _ _ _ Hs) as (b & Hb & Hbytes & Hbl).
  rewrite slice_Ok by lia. cbn [mbind res_bind]. set (data := take _ _).
  assert (Hdl : Z.of_nat (length data) = cc) by (unfold data; rewrite length_take, length_drop; lia).
  assert (Hdata : bytes data) by (apply Forall_take, Forall_drop, Hsrc).
  unfold ring at 1. rewrite Hb. cbn [mbind res_bind]. rewrite blit_Ok by lia. cbn [mbind res_bind].
  cbn [set_cs c_cq c_cc c_ce c_cn]. unfold INT_MAX in *.
  assert (Hrun : ∀ oq clp', requoted n quot oq (λ k, if (l <=? k) && (k <? l + Z.of_nat (length data))
      then negb (default 0 (data !! Z.to_nat (k - l)) =? default 0 (data !! Z.to_nat (k - l)))
      else quote_at clp k) →
    clp' = Clist (s32 (c_cc clp + cc)) (c_cn clp) (c_cf clp) (Some (if l + cc =? c_ce clp then 0 else l + cc))
      (Some (take (Z.to_nat l) b ++ data ++ drop (Z.to_nat l + length data) b)) (c_ce clp) oq →
    shape clp' n quot ∧ at_ clp' n f (chars ++ data)).
  { intros oq clp' Hq ->. apply (stored_run clp n quot f chars data b data oq); try done; try lia;
      cbn; rewrite ?swrap_small, ?Hdl, ?(sh_ce _ _ _ Hs) by lia; try done.
    intros i x ->. eauto. }
  rewrite (swrap_small 32 (count - cc)) by lia.
  destruct quot.
  - destruct (sh_bits _ _ _ Hs) as (q & Hq & _). destruct (shape_quote_range clp n q Hs Hq) as [Hqb Hqr].
    rewrite Hq, !Z.gtb_ltb, !(proj2 (Z.ltb_ge _ _)), !(swrap_small 32) by lia. cbn [orb].
    destruct (clrbits_spec q l cc) as (q' & -> & He); [done | lia.. |]. cbn [mbind res_bind].
    eexists cc, _. split; [done |]. split; [lia |]. split; [lia |].
    eapply (Hrun (Some q')); [eapply requoted_run; [done.. |]; by rewrite Hdl |].
    cbn. by rewrite (swrap_small 32) by lia.
  - pose proof (sh_bits _ _ _ Hs) as Hq. simpl in Hq. rewrite Hq. eexists cc, _. split; [done |].
    split; [lia |]. split; [lia |]. eapply (Hrun None);
      [| unfold set_cl, set_cc, set_cs; simpl; by rewrite Hq].
    split; [done |]. intros k _. rewrite Z.eqb_refl. unfold quote_at. rewrite Hq. by destruct (_ && _).
Qed.

Lemma b_to_q_loop_spec fuel clp n quot f chars src p count :
  shape clp n quot → at_ clp n f chars → bytes src → 0 <= p → 0 <= count <= INT_MAX →
  count <= Z.of_nat fuel → p + count <= Z.of_nat (length src) →
  let k := Z.min count (n - Z.of_nat (length chars)) in
  ∃ clp', b_to_q_loop fuel clp src p count = Ok (clp', count - k) ∧
    shape clp' n quot ∧ at_ clp' n f (chars ++ take (Z.to_nat k) (drop (Z.to_nat p) src)).
Proof.
  revert clp chars p count. induction fuel as [|fuel IH];
    intros clp chars p count Hs Hat Hsrc Hp Hcount Hfuel Hfit k;
    pose proof Hat as (Hcc & Hn & _);
    (destruct (decide (count = 0 ∨ Z.of_nat (length chars) = n)) as [Hstop|Hgo];
      [ exists clp; unfold b_to_q_loop; rewrite Hcc, (sh_cn _ _ _ Hs), Z.gtb_ltb;
        assert (k = 0) as -> by lia; rewrite Z.sub_0_r, app_nil_r;
        by replace ((0 <? count) && _) with false by bool_lia | ]); [lia |].
  destruct (b_to_q_step fuel clp n quot f chars src p count) as (cc & clp1 & -> & Hcc1 & Hroom & Hs1 & Hat1);
    [done.. | lia | lia | lia |].
  destruct (IH clp1 (chars ++ take (Z.to_nat cc) (drop (Z.to_nat p) src)) (p + cc) (count - cc))
    as (clp2 & -> & Hs2 & Hat2); [done.. | lia | lia | lia | lia |].
  rewrite length_app, length_take, length_drop in Hat2 |- *.
  exists clp2. split; [do 2 f_equal; lia |]. split; [done |].
  rewrite <- app_assoc in Hat2. replace (Z.to_nat (p + cc)) with (Z.to_nat p + Z.to_nat cc)%nat in Hat2 by lia.
  rewrite <- drop_drop, take_take_drop in Hat2.
  by replace (Z.to_nat k) with (Z.to_nat cc + Z.to_nat (Z.min (count - cc)
    (n - Z.of_nat (length chars + Z.to_nat cc `min` (length src - Z.to_nat p)))))%nat by lia.
Qed.

Definition ab_to_q (alloc : bool * bool) (src : list Z) (count : Z) (a : option queue) : Z * option queue :=
  if count <=? 0 then (0, a)
  else
    match opened alloc a with
    | None => (count, None)
    | Some q =>
        let k := Z.min count (q_size q - Z.of_nat (length (q_chars q))) in
        (count - k, Some (with_chars q (q_chars q ++ take (Z.to_nat k) src)))
    end.

Lemma b_to_q_spec clp a alloc src count :
  repr clp a → alloc ≠ (true, false) → bytes src → count <= INT_MAX → count <= Z.of_nat (length src) →
  ∃ clp', b_to_q alloc src count clp = Ok ((ab_to_q alloc src count a).1, clp') ∧
    repr clp' (ab_to_q alloc src count a).2.
Proof.
  intros Hr Ha Hsrc Hmax Hlen. unfold b_to_q, ab_to_q.
  destruct (Z.leb_spec count 0); [by exists clp |].
  pose proof (ready_spec clp a alloc Hr Ha) as H1.
  destruct (opened alloc a) as [q|]; [| destruct H1 as (clp' & -> & H1); by exists clp'].
  destruct H1 as (clp1 & f & -> & Hs & Hat). cbn [mbind res_bind].
  pose proof Hat as (Hcc & Hn & _). rewrite Hcc, (sh_cn _ _ _ Hs). cbn [fst snd].
  destruct (Z.eqb_spec (Z.of_nat (length (q_chars q))) (q_size q)) as [E|Hne].
  { exists clp1. replace (Z.min count _) with 0 by lia. rewrite Z.sub_0_r, app_nil_r. split; [done |].
    by apply (repr_at _ _ _ f). }
  destruct (b_to_q_loop_spec (Z.to_nat count) clp1 (q_size q) (q_quote q) f (q_chars q) src 0 count)
    as (clp2 & -> & H2); [done.. | lia | lia | lia | lia |].
  exists clp2. split; [done |]. by apply (repr_at _ _ _ f).
Qed.

(** The piece that [q_to_b] and [ndflush] take: as much as is asked for of
    the characters up to the end of the ring. *)
Lemma piece_out_spec clp n quot f chars count :
  shape clp n quot → at_ clp n f chars → chars ≠ [] → 0 < count <= INT_MAX →
  ∃ cc, piece_out clp f (pos n (f + Z.of_nat (length chars))) count = cc ∧
    1 <= cc <= Z.min count (Z.of_nat (length chars)) ∧ f + cc <= n ∧
    shape (advance_cf clp f cc) n quot ∧
    at_ (advance_cf clp f cc) n (pos n (f + cc)) (drop (Z.to_nat cc) chars).
Proof.
  intros Hs Hat Hne Hcount. pose proof Hat as (Hcc & Hn & Hf & Hcf & Hcl & _).
  pose proof (sh_size _ _ _ Hs) as Hsize.
  assert (0 < Z.of_nat (length chars)) by (destruct chars; [done | simpl; lia]).
  set (cc := Z.min (Z.min (n - f) (Z.of_nat (length chars))) count).
  assert (Hcc1 : 1 <= cc <= Z.min count (Z.of_nat (length chars)) ∧ f + cc <= n) by lia.
  exists cc. split; [| split; [lia |]; split; [lia |]; split].
  - unfold piece_out. rewrite (sh_ce _ _ _ Hs).
    assert ((if f >=? pos n (f + Z.of_nat (length chars)) then u64 (n - f)
             else u64 (pos n (f + Z.of_nat (length chars)) - f)) = Z.min (n - f) (Z.of_nat (length chars))) as ->.
    { unfold pos, INT_MAX in *. rewrite Z.geb_leb. destruct (Z.ltb_spec (f + Z.of_nat (length chars)) n);
        match goal with |- context [?a <=? ?b] => destruct (Z.leb_spec a b) end;
        rewrite (wrap_small 64) by (unfold in_u; lia); lia. }
    rewrite piece_min by lia. done.
  - by eapply shape_ext.
  - assert (Z.of_nat (length (take (Z.to_nat cc) chars)) = cc) as Htl by (rewrite length_take; lia).
    rewrite <- Htl at 2. apply (at_drop clp); try done; rewrite ?take_drop, ?Htl; [done | lia | |].
    + unfold advance_cf. cbn. unfold INT_MAX in *. by rewrite swrap_small by lia.
    + unfold advance_cf. cbn. by rewrite (sh_ce _ _ _ Hs).
Qed.

Lemma ring_slice clp n quot f chars cc b :
  shape clp n quot → at_ clp n f chars → c_cs clp = Some b →
  0 <= cc <= Z.of_nat (length chars) → f + cc <= n →
  slice b f cc = Ok (low <$> take (Z.to_nat cc) chars).
Proof.
  intros Hs (Hcc & Hn & Hf & Hcf & Hcl & Hcells) Hb Hle Hrun.
  destruct (sh_ring _ _ _ Hs) as (b' & Hb' & _ & Hbl). simplify_eq.
  rewrite slice_Ok by lia. f_equal.
  apply list_eq_same_length with (Z.to_nat cc);
    [rewrite length_fmap, length_take; lia | rewrite length_take, length_drop; lia |].
  intros i x y Hi Hx Hy. rewrite lookup_take_lt, lookup_drop in Hx by lia.
  apply list_lookup_fmap_Some in Hy as (c & -> & Hc). rewrite lookup_take_lt in Hc by lia.
  rewrite <- (Hcells i c Hc). unfold low. rewrite (cell_low _ _ _ _ Hs).
  unfold byte_at. rewrite Hb. unfold pos. rewrite (proj2 (Z.ltb_lt _ _)) by lia.
  replace (Z.to_nat (f + Z.of_nat i)) with (Z.to_nat f + i)%nat by lia. by rewrite Hx.
Qed.

(** Characters stored in an array from [p] on. *)
Definition put_at (dst : list Z) (p : Z) (l : list Z) : list Z :=
  take (Z.to_nat p) dst ++ l ++ drop (Z.to_nat p + length l) dst.

Lemma put_at_app dst p l1 l2 : 0 <= p → p + Z.of_nat (length l1) <= Z.of_nat (length dst) →
  put_at (put_at dst p l1) (p + Z.of_nat (length l1)) l2 = put_at dst p (l1 ++ l2).
Proof.
  intros Hp Hfit. unfold put_at.
  assert (Hl : length (take (Z.to_nat p) dst ++ l1) = Z.to_nat (p + Z.of_nat (length l1)))
    by (rewrite length_app, length_take; lia).
  rewrite !app_assoc. rewrite take_app_le by lia. rewrite <- Hl, firstn_all, drop_app_ge by lia.
  rewrite drop_drop, length_app, <- !app_assoc. do 4 f_equal. rewrite length_app, length_take. lia.
Qed.

Lemma put_at_nil dst p : put_at dst p [] = dst.
Proof. unfold put_at. simpl. rewrite Nat.add_0_r. apply take_drop. Qed.

Lemma q_to_b_loop_spec fuel clp n quot f chars dst p count :
  shape clp n quot → at_ clp n f chars → 0 <= p → count <= INT_MAX →
  Z.of_nat (length chars) <= Z.of_nat fuel →
  let k := Z.max 0 (Z.min count (Z.of_nat (length chars))) in
  p + k <= Z.of_nat (length dst) →
  ∃ clp' f', q_to_b_loop fuel clp dst p count =
      Ok (clp', put_at dst p (low <$> take (Z.to_nat k) chars), p + k) ∧
    shape clp' n quot ∧ at_ clp' n f' (drop (Z.to_nat k) chars).
Proof.
  revert clp f chars dst p count. induction fuel as [|fuel IH];
    intros clp f chars dst p count Hs Hat Hp Hcount Hfuel k Hfit;
    pose proof Hat as (Hcc & Hn & Hf & Hcf & Hcl & _);
    (destruct (decide (count <= 0 ∨ Z.of_nat (length chars) = 0)) as [Hstop|Hgo];
      [ exists clp, f; unfold q_to_b_loop; rewrite Hcc, !Z.gtb_ltb;
        assert (k = 0) as -> by lia; rewrite Z.add_0_r; simpl; rewrite put_at_nil;
        by replace ((0 <? count) && _) with false by bool_lia | ]); [lia |].
  destruct (piece_out_spec clp n quot f chars count) as (cc & Hpc & Hcc1 & Hrun & Hs1 & Hat1);
    [done.. | by intros -> ; simpl in Hgo; lia | lia |].
  unfold q_to_b_loop; fold q_to_b_loop. rewrite Hcc, !Z.gtb_ltb, !(proj2 (Z.ltb_lt _ _)) by lia.
  rewrite Hcf, Hcl. cbn [andb ptr mbind res_bind]. rewrite Hpc.
  destruct (sh_ring _ _ _ Hs) as (b & Hb & _). unfold ring. rewrite Hb. cbn [mbind res_bind].
  rewrite (ring_slice clp n quot f chars) by (done || lia). cbn [mbind res_bind].
  set (data := low <$> take (Z.to_nat cc) chars).
  assert (Hdl : Z.of_nat (length data) = cc) by (unfold data; rewrite length_fmap, length_take; lia).
  rewrite blit_Ok by lia. cbn [mbind res_bind]. fold (put_at dst p data).
  rewrite swrap_small by (unfold INT_MAX in *; lia).
  destruct (IH (advance_cf clp f cc) (pos n (f + cc)) (drop (Z.to_nat cc) chars) (put_at dst p data) (p + cc) (count - cc))
    as (clp2 & f2 & -> & Hs2 & Hat2); rewrite ?length_drop; [done | done | lia | lia | lia | |].
  { unfold put_at. rewrite blit_length by lia. lia. }
  rewrite length_drop in Hat2. exists clp2, f2. split_and!; [| done |].
  - match goal with |- Ok (_, put_at _ _ ?l2, _) = _ => pose proof (put_at_app dst p data l2) as E end.
    rewrite Hdl in E. rewrite E by lia. unfold data. rewrite <- fmap_app, take_take_drop.
    repeat first [done | lia | f_equal].
  - rewrite drop_drop in Hat2. by replace (Z.to_nat k) with (Z.to_nat cc + Z.to_nat (Z.max 0 (Z.min (count - cc)
      (Z.of_nat (length chars - Z.to_nat cc)))))%nat by lia.
Qed.

Definition aq_to_b (dst : list Z) (count : Z) (q : queue) : Z * list Z * queue :=
  let k := Z.max 0 (Z.min count (Z.of_nat (length (q_chars q)))) in
  (k, put_at dst 0 (low <$> take (Z.to_nat k) (q_chars q)), with_chars q (drop (Z.to_nat k) (q_chars q))).

(** Off an empty queue, of which the pointers may be null, nothing is taken. *)
Lemma q_to_b_empty clp dst count : c_cc clp = 0 → q_to_b dst count clp = Ok (0, dst, null_if_empty clp).
Proof.
  intros Hcc. unfold q_to_b. rewrite Hcc. change (Z.to_nat 0) with O. unfold q_to_b_loop. rewrite Hcc.
  by rewrite !Z.gtb_ltb, andb_false_r.
Qed.

Lemma q_to_b_spec clp n quot chars dst count :
  shape clp n quot → holds clp n chars → count <= INT_MAX →
  Z.min count (Z.of_nat (length chars)) <= Z.of_nat (length dst) →
  let '(r, dst', q') := aq_to_b dst count (Queue n quot chars) in
  ∃ clp', q_to_b dst count clp = Ok (r, dst', clp') ∧ repr clp' (Some q').
Proof.
  intros Hs Hh Hcount Hfit. unfold aq_to_b, with_chars. cbn [q_size q_quote q_chars].
  destruct (holds_cases _ _ _ Hh) as [[-> Hcc]|(Hne & Hcc & f & Hat)].
  - rewrite q_to_b_empty by done. simpl. replace (Z.max 0 _) with 0 by lia. rewrite take_nil, drop_nil, put_at_nil.
    eexists. split; [done |]. split; [by apply shape_null |]. left. split; [done |].
    unfold null_if_empty. by rewrite (proj2 (Z.eqb_eq _ _) Hcc).
  - pose proof Hat as (Hc & Hn & _). pose proof (sh_size _ _ _ Hs).
    destruct (q_to_b_loop_spec (Z.to_nat (c_cc clp)) clp n quot f chars dst 0 count)
      as (clp' & f' & Hloop & Hs' & Hat'); [done.. | lia | done | lia | lia |].
    unfold q_to_b. rewrite Hloop. cbn [mbind res_bind].
    rewrite Z.add_0_l, Z.min_r by (unfold INT_MAX in *; lia).
    eexists. split; [done |]. split; [by apply shape_null | by eapply holds_null].
Qed.

Lemma ndflush_loop_spec fuel clp n quot f chars count :
  shape clp n quot → at_ clp n f chars → count <= INT_MAX →
  Z.of_nat (length chars) <= Z.of_nat fuel →
  ∃ clp' f', ndflush_loop fuel clp count = Ok clp' ∧ shape clp' n quot ∧ at_ clp' n f' (drop (Z.to_nat count) chars).
Proof.
  revert clp f chars count. induction fuel as [|fuel IH]; intros clp f chars count Hs Hat Hcount Hfuel;
    pose proof Hat as (Hcc & Hn & Hf & Hcf & Hcl & _);
    (destruct (decide (count <= 0 ∨ Z.of_nat (length chars) = 0)) as [Hstop|Hgo];
      [ exists clp, f; unfold ndflush_loop; rewrite Hcc, !Z.gtb_ltb;
        replace ((0 <? count) && _) with false by bool_lia;
        replace (drop (Z.to_nat count) chars) with chars;
        [done | destruct Hstop; [by replace (Z.to_nat count) with 0%nat by lia | by destruct chars; [rewrite drop_nil |]]] | ]);
    [lia |].
  destruct (piece_out_spec clp n quot f chars count) as (cc & Hpc & Hcc1 & Hrun & Hs1 & Hat1);
    [done.. | by intros -> ; simpl in Hgo; lia | lia |].
  unfold ndflush_loop; fold ndflush_loop. rewrite Hcc, !Z.gtb_ltb, !(proj2 (Z.ltb_lt _ _)) by lia.
  rewrite Hcf, Hcl. cbn [andb ptr mbind res_bind]. rewrite Hpc, swrap_small by (unfold INT_MAX in *; lia).
  destruct (IH (advance_cf clp f cc) (pos n (f + cc)) (drop (Z.to_nat cc) chars) (count - cc))
    as (clp2 & f2 & -> & Hs2 & Hat2); [done | done | lia | rewrite length_drop; lia |].
  exists clp2, f2. split_and!; [done | done |]. rewrite drop_drop in Hat2.
  by replace (Z.to_nat count) with (Z.to_nat cc + Z.to_nat (count - cc))%nat by lia.
Qed.

Lemma ndflush_spec clp n quot chars count :
  shape clp n quot → holds clp n chars → count <= INT_MAX →
  ∃ clp', ndflush count clp = Ok ((), clp') ∧ shape clp' n quot ∧ holds clp' n (drop (Z.to_nat count) chars).
Proof.
  intros Hs Hh Hcount. unfold ndflush. destruct (holds_cases _ _ _ Hh) as [[-> Hcc]|(Hne & Hcc & f & Hat)].
  - rewrite drop_nil. destruct (Z.eqb_spec count (c_cc clp)).
    { eexists. split; [done |]. split; [by eapply shape_ext | by left]. }
    rewrite Hcc. change (Z.to_nat 0) with O. unfold ndflush_loop. rewrite Hcc, !Z.gtb_ltb, andb_false_r. cbn [mbind res_bind].
    eexists. split; [done |]. split; [by apply shape_null |]. left. split; [done |].
    unfold null_if_empty. by rewrite (proj2 (Z.eqb_eq _ _) Hcc).
  - pose proof Hat as (Hc & Hn & _). destruct (Z.eqb_spec count (c_cc clp)) as [->|].
    { eexists. split; [done |]. split; [by eapply shape_ext |]. left. split; [| done].
      rewrite Hc, Nat2Z.id. apply drop_all. }
    destruct (ndflush_loop_spec (Z.to_nat (c_cc clp)) clp n quot f chars count) as (clp' & f' & -> & ? & ?);
      [done.. | lia |].
    eexists. split; [done |]. split; [by apply shape_null | by eapply holds_null].
Qed.
