(* ===== verification/ClistFifo.v ===== *)
(** * Terminal queues: whole runs

    The abstract machine of a bounded queue of characters, the theorem that
    every run of the operations of [Clist] follows it, and what the scanning
    and concatenating functions do to the contents. *)

From S2P Require Import Prelude Clist ClistBits ClistSpec ClistRefine.

(** ** Scanning *)

(** A loop over a queue: [firstc], then [nextc] until it gives null. *)
Fixpoint walk (fuel : nat) (clp : clist) (r : option (Z * Z)) (cc : Z) : res (list Z) :=
  match r with
  | None => Ok []
  | Some (cp, c) =>
      match fuel with
      | O => Fault
      | S fuel => '(r, cc) ← nextc clp (Some cp) cc; l ← walk fuel clp r cc; Ok (c :: l)
      end
  end.
Definition walk_all (clp : clist) (cc : Z) : res (list Z) :=
  '(r, cc) ← firstc clp cc; walk (Z.to_nat (c_cc clp)) clp r cc.

Lemma walk_from clp n quot f chars : shape clp n quot → at_ clp n f chars →
  ∀ l i c fuel, drop i chars = c :: l → (length l < fuel)%nat →
  walk fuel clp (Some (pos n (f + Z.of_nat i), c)) (Z.of_nat (length chars) - Z.of_nat i) = Ok (c :: l).
Proof.
  intros Hs (Hcc & Hn & Hf & Hcf & Hcl & Hcells) l.
  induction l as [|c' l IH]; intros i c fuel Hd Hfuel; (destruct fuel as [|fuel]; [simpl in Hfuel; lia |]);
    assert (Hlen : (length chars = i + length (drop i chars))%nat)
      by (rewrite length_drop; assert (i < length chars)%nat; [| lia];
          destruct (decide (i < length chars)%nat); [done | by rewrite drop_ge in Hd by lia]);
    rewrite Hd in Hlen; simpl in Hlen; unfold walk; fold walk; unfold nextc;
    assert ((if bool_decide (c_cf clp = Some (pos n (f + Z.of_nat i))) then c_cc clp
             else Z.of_nat (length chars) - Z.of_nat i) = Z.of_nat (length chars) - Z.of_nat i) as ->
      by (case_bool_decide as E; [| done]; rewrite Hcf in E; simplify_eq E; intros E'; unfold pos in E';
          destruct (Z.ltb_spec (f + Z.of_nat i) n); lia);
    rewrite (proj2 (Z.eqb_neq _ 0)) by lia.
  - rewrite (proj2 (Z.eqb_eq _ 0)) by lia. by destruct fuel.
  - rewrite (proj2 (Z.eqb_neq _ 0)) by lia. rewrite (sh_ce _ _ _ Hs).
    assert (Hi : drop (S i) chars = c' :: l) by (by rewrite <- Nat.add_1_r, <- drop_drop, Hd).
    assert (Hc : chars !! S i = Some c') by (rewrite <- (Nat.add_0_r (S i)), <- lookup_drop, Hi; done).
    assert (Hp : (if pos n (f + Z.of_nat i) + 1 =? n then 0 else pos n (f + Z.of_nat i) + 1) = pos n (f + Z.of_nat (S i))).
    { unfold pos. destruct (Z.ltb_spec (f + Z.of_nat i) n), (Z.ltb_spec (f + Z.of_nat (S i)) n);
        match goal with |- context [?x =? n] => destruct (Z.eqb_spec x n) end; lia. }
    rewrite Hp, (char_of_cell clp n quot) by (done || apply pos_range; lia). cbn [mbind res_bind].
    rewrite (Hcells _ _ Hc).
    replace (Z.of_nat (length chars) - Z.of_nat i - 1) with (Z.of_nat (length chars) - Z.of_nat (S i)) by lia.
    rewrite (IH (S i) c' fuel) by (done || simpl in Hfuel; lia). done.
Qed.

(** A loop that starts with [firstc] and calls [nextc] until it returns
    null sees every character of the queue, with its quote bit, in order and
    once, whatever the static counter held before. *)
Lemma walk_exact clp q cc : repr clp (Some q) → walk_all clp cc = Ok (q_chars q).
Proof.
  intros [Hs Hh]. unfold walk_all, firstc. destruct (holds_cases _ _ _ Hh) as [[-> Hcc]|(Hne & Hcc & f & Hat)].
  - rewrite Hcc. done.
  - rewrite (proj2 (Z.eqb_neq _ _) Hcc). pose proof Hat as (Hc & Hn & Hf & Hcf & Hcl & Hcells).
    destruct (q_chars q) as [|c l] eqn:E; [done |]. rewrite Hcf. cbn [ptr mbind res_bind].
    rewrite (char_of_cell clp (q_size q) (q_quote q)) by done. cbn [mbind res_bind].
    pose proof (Hcells 0%nat c eq_refl) as H0. rewrite Z.add_0_r in H0.
    assert (Hp : pos (q_size q) f = f) by (unfold pos; by rewrite (proj2 (Z.ltb_lt _ _)) by lia).
    rewrite Hp in H0. rewrite H0, Hc, Nat2Z.id.
    pose proof (walk_from clp (q_size q) (q_quote q) f (c :: l) Hs Hat l 0 c (length (c :: l)) eq_refl ltac:(simpl; lia)) as H.
    by rewrite Z.sub_0_r, Z.add_0_r, Hp in H.
Qed.

(** ** Concatenation *)

Lemma char_nonneg clp q c : repr clp (Some q) → c ∈ q_chars q → 0 <= c.
Proof.
  intros [Hs [[E _]|[f (_ & _ & _ & _ & _ & H)]]] Hc; [rewrite E in Hc; set_solver |].
  apply list_elem_of_lookup in Hc as [i Hi]. rewrite <- (H i c Hi). by apply (cell_range _ _ _ _ Hs).
Qed.

(** The characters [cs] are added one by one; [allocs] are the outcomes of the
    allocations, which succeed when the list is too short. *)
Fixpoint acat (allocs : list (bool * bool)) (cs : list Z) (a : option queue) : option queue :=
  match cs with
  | [] => a
  | c :: cs => acat (tail allocs) cs (aputc (default (true, true) (head allocs)) c a).2
  end.

Lemma catq_loop chars : ∀ fuel allocs from to n quot a,
  repr from (Some (Queue n quot chars)) → repr to a → Forall (λ x, x ≠ (true, false)) allocs → (length chars ≤ fuel)%nat →
  ∃ from' to', catq fuel allocs from to = Ok (from', to') ∧ repr from' (Some (Queue n quot [])) ∧ repr to' (acat allocs chars a).
Proof.
  induction chars as [|c chars IH]; intros fuel allocs from to n quot a Hf Ht Hal Hfuel;
    pose proof Hf as [Hs Hh]; destruct (getc_spec _ _ _ _ Hs Hh) as (from1 & Hget & H1);
    destruct fuel as [|fuel]; try (simpl in Hfuel; lia); unfold catq; fold catq; rewrite Hget;
    cbn [mbind res_bind q_chars head hd_error default from_option]; try by exists from1, to.
  cbn [id]. rewrite (proj2 (Z.eqb_neq c _)) by (pose proof (char_nonneg from _ c Hf ltac:(set_solver)); lia).
  destruct (putc_spec to a (default (true, true) (head allocs)) c Ht) as (to1 & Hput & Ht1); [by destruct Hal |].
  cbn [mbind res_bind] in *. rewrite Hput. cbn [mbind res_bind].
  apply (IH fuel (tail allocs) from1 to1 n quot); [exact H1 | done | by destruct Hal | simpl in Hfuel; lia].
Qed.

(** ** Operations *)

(** [Scan] is a loop of [firstc] and [nextc], when the static counter is [cc];
    [CatFrom] is [catq] from another queue. *)
Inductive op :=
  | Getc
  | Putc (alloc : bool * bool) (c : Z)
  | Unputc
  | QToB (dst : list Z) (count : Z)
  | BToQ (alloc : bool * bool) (src : list Z) (count : Z)
  | Ndflush (count : Z)
  | Scan (cc : Z)
  | CatFrom (allocs : list (bool * bool)) (from : clist).

Inductive answer :=
  | AInt (n : Z)
  | ABuf (n : Z) (dst : list Z)
  | AChars (l : list Z)
  | ANone.

Definition do_op (o : op) : st clist answer :=
  match o with
  | Getc => c ← getc; mret (AInt c)
  | Putc alloc c => r ← putc alloc c; mret (AInt r)
  | Unputc => c ← unputc; mret (AInt c)
  | QToB dst count => '(n, dst) ← q_to_b dst count; mret (ABuf n dst)
  | BToQ alloc src count => r ← b_to_q alloc src count; mret (AInt r)
  | Ndflush count => ndflush count ;; mret ANone
  | Scan cc => λ clp, l ← walk_all clp cc; Ok (AChars l, clp)
  | CatFrom allocs from => λ clp, '(from, clp) ← catq (Z.to_nat (c_cc from)) allocs from clp; Ok (AInt (c_cc from), clp)
  end.

Fixpoint run_ops (os : list op) : st clist (list answer) :=
  match os with
  | [] => mret []
  | o :: os => r ← do_op o; rs ← run_ops os; mret (r :: rs)
  end.

(** ** The abstract machine *)

Definition aget (a : option queue) : option queue := (λ q, with_chars q (tail (q_chars q))) <$> a.
Definition aunput (a : option queue) : option queue :=
  (λ q, with_chars q (take (pred (length (q_chars q))) (q_chars q))) <$> a.
Definition achars (a : option queue) : list Z := default [] (q_chars <$> a).

(** What another queue holds. *)
Definition contents (clp : clist) : list Z := match walk_all clp 0 with Ok l => l | Fault => [] end.

Definition astep (a : option queue) (o : op) : answer * option queue :=
  match o with
  | Getc => (AInt (default (-1) (head (achars a))), aget a)
  | Putc alloc c => let '(r, a) := aputc alloc c a in (AInt r, a)
  | Unputc => (AInt (default (-1) (last (achars a))), aunput a)
  | QToB dst count =>
      match a with
      | None => (ABuf 0 dst, None)
      | Some q => let '(n, dst, q) := aq_to_b dst count q in (ABuf n dst, Some q)
      end
  | BToQ alloc src count => let '(r, a) := ab_to_q alloc src count a in (AInt r, a)
  | Ndflush count => (ANone, (λ q, with_chars q (drop (Z.to_nat count) (q_chars q))) <$> a)
  | Scan _ => (AChars (achars a), a)
  | CatFrom allocs from => (AInt 0, acat allocs (contents from) a)
  end.

Fixpoint arun (a : option queue) (os : list op) : list answer * option queue :=
  match os with
  | [] => ([], a)
  | o :: os => let '(r, a) := astep a o in let '(rs, a) := arun a os in (r :: rs, a)
  end.

(** What the callers provide: arrays as long as they say, of bytes, and queues
    to take characters from; and not the allocation failure that [clalloc] does
    not recover from. *)
Definition op_ok (o : op) : Prop :=
  match o with
  | Putc alloc _ => alloc ≠ (true, false)
  | QToB dst count => count <= INT_MAX ∧ count <= Z.of_nat (length dst)
  | BToQ alloc src count =>
      alloc ≠ (true, false) ∧ bytes src ∧ count <= INT_MAX ∧ count <= Z.of_nat (length src)
  | Ndflush count => count <= INT_MAX
  | CatFrom allocs from => Forall (λ x, x ≠ (true, false)) allocs ∧ ∃ b, repr from b
  | Getc | Unputc | Scan _ => True
  end.

(** ** Refinement *)

Lemma null_none clp : repr clp None → repr (null_if_empty clp) None.
Proof. intros [? Hc]. unfold null_if_empty. by rewrite (proj2 (Z.eqb_eq _ _) Hc). Qed.

Lemma step_refines clp a o : repr clp a → op_ok o →
  ∃ clp', do_op o clp = Ok ((astep a o).1, clp') ∧ repr clp' (astep a o).2.
Proof.
  intros Hr Hok. destruct o as [|alloc c| |dst count|alloc src count|count|cc|allocs from]; unfold do_op, astep;
    try rewrite st_bind_unfold.
  - destruct a as [q|].
    + destruct Hr as [Hs Hh]. destruct (getc_spec _ _ _ _ Hs Hh) as (clp' & -> & H). by exists clp'.
    + pose proof Hr as [_ Hc]. unfold getc. rewrite (proj2 (Z.eqb_eq _ _) Hc). by exists clp.
  - destruct (putc_spec clp a alloc c Hr Hok) as (clp' & -> & H). destruct (aputc alloc c a). by exists clp'.
  - destruct a as [q|].
    + destruct Hr as [Hs Hh]. destruct (unputc_spec _ _ _ _ Hs Hh) as (clp' & -> & H). by exists clp'.
    + pose proof Hr as [_ Hc]. unfold unputc. rewrite (proj2 (Z.eqb_eq _ _) Hc). by exists clp.
  - destruct a as [q|].
    + destruct Hr as [Hs Hh], Hok as [Hmax Hdst]. pose proof (q_to_b_spec clp (q_size q) (q_quote q) (q_chars q) dst count Hs Hh) as H.
      destruct q. destruct (aq_to_b _ _ _) as [[r dst'] q']. destruct H as (clp' & -> & H); [done | simpl in *; lia |].
      by exists clp'.
    + pose proof Hr as [_ Hc]. rewrite q_to_b_empty by done. eexists. split; [done | by apply null_none].
  - destruct Hok as (Hal & Hsrc & Hmax & Hlen).
    destruct (b_to_q_spec clp a alloc src count) as (clp' & -> & H); [done.. |].
    destruct (ab_to_q alloc src count a). by exists clp'.
  - destruct a as [q|].
    + destruct Hr as [Hs Hh]. destruct (ndflush_spec _ _ _ _ _ Hs Hh Hok) as (clp' & -> & H). by exists clp'.
    + pose proof Hr as [Hcs Hc]. unfold ndflush. rewrite Hc. destruct (Z.eqb_spec count 0); [by eexists |].
      change (Z.to_nat 0) with O. unfold ndflush_loop. rewrite Hc, !Z.gtb_ltb, andb_false_r.
      eexists. split; [done | by apply null_none].
  - exists clp. split; [| done]. destruct a as [q|]; [by rewrite (walk_exact clp q cc Hr) |]. destruct Hr as [_ Hc]. unfold walk_all, firstc. by rewrite Hc.
  - destruct Hok as [Hal [[[n quot chars]|] Hb]].
    + unfold contents. rewrite (walk_exact _ _ 0 Hb). cbn [q_chars].
      assert (Hcc : Z.to_nat (c_cc from) = length chars) by (destruct Hb as [_ [[E ->]|(f & -> & _)]]; [cbn in E; by rewrite E | by rewrite Nat2Z.id]).
      destruct (catq_loop chars (Z.to_nat (c_cc from)) allocs from clp n quot a Hb Hr Hal) as (from' & clp' & -> & Hf & Hr'); [by rewrite Hcc |].
      destruct Hf as [_ [[_ Hz]|(f & Hz & _)]]; cbn in *; rewrite Hz; by exists clp'.
    + destruct Hb as [_ Hc]. unfold contents, walk_all, firstc. rewrite Hc. exists clp. split; [| done]. cbn. change (Z.to_nat 0) with O. unfold catq, getc. rewrite Hc. cbn. by rewrite Hc.
Qed.

Lemma run_refines os : ∀ clp a, repr clp a → Forall op_ok os →
  ∃ clp', run_ops os clp = Ok ((arun a os).1, clp') ∧ repr clp' (arun a os).2.
Proof.
  induction os as [|o os IH]; intros clp a Hr Hok; [by exists clp |].
  apply Forall_cons in Hok as [Ho Hok]. simpl.
  destruct (step_refines clp a o Hr Ho) as (clp1 & H1 & Hr1). rewrite st_bind_unfold, H1.
  destruct (astep a o) as [r a1]. destruct (IH clp1 a1 Hr1 Hok) as (clp2 & H2 & Hr2).
  rewrite st_bind_unfold, H2. destruct (arun a1 os) as [rs a2]. by exists clp2.
Qed.


Definition clist_demo : clist := Clist 3 5 (Some 3) (Some 1) (Some [7; 0; 0; 8; 9]) 5 (Some [16]).

Lemma clist_demo_repr : repr clist_demo (Some (Queue 5 true [8; 265; 7])).
Proof.
  split; [split; simpl | right; exists 3].
  - eexists. split; [done |]. split; [repeat constructor; done | done].
  - eexists. split; [done |]. split; [repeat constructor; done | done].
  - done.
  - done.
  - done.
  - unfold at_. split_and!; try done. intros [|[|[|i]]] c Hi; simplify_eq/=; by vm_compute.
Qed.

Definition ops_demo : list op :=
  [Putc (true, true) 353; BToQ (true, true) [98; 99; 100; 101] 4; Getc; Unputc;
   BToQ (true, true) [102; 103; 104] 3; Ndflush 1; Scan 4; QToB [0; 0; 0; 0; 0; 0] 6; Getc; CatFrom [] clist_demo; Getc].

Lemma ops_demo_ok : Forall op_ok ops_demo.
Proof.
  unfold ops_demo. repeat (apply Forall_cons; split); try done; unfold op_ok, INT_MAX; simpl; try lia.
  - split; [done |]. split; [repeat constructor; done | lia].
  - split; [done |]. split; [repeat constructor; done | lia].
  - split; [constructor |]. eexists. apply clist_demo_repr.
Qed.


(** ** Creation and deletion *)

Lemma clalloc_spec size quot clp : 0 < size <= INT_MAX →
  ∃ clp', clalloc (true, true) size quot clp = Ok (0, clp') ∧ repr clp' (Some (Queue size quot [])).
Proof.
  intros Hsize. unfold clalloc. cbn [fst snd negb].
  assert (Hz : ∀ n, bytes (replicate n 0)) by (intros n; apply Forall_replicate; unfold in_u; lia).
  assert (0 <= QMEM size) by (unfold QMEM, NBBY; rewrite Z.quot_div_nonneg by lia; zlia).
  destruct quot; (eexists; split; [done |]); (split; [split; cbn | by left]); try done.
  - exists (replicate (Z.to_nat size) 0). split; [done |]. split; [done |]. rewrite length_replicate. lia.
  - exists (replicate (Z.to_nat (QMEM size)) 0). split; [done |]. split; [done |]. rewrite length_replicate. lia.
  - exists (replicate (Z.to_nat size) 0). split; [done |]. split; [done |]. rewrite length_replicate. lia.
Qed.

Lemma clfree_spec clp q : repr clp (Some q) →
  clfree clp = Ok ((), set_cq (set_cs clp None) None).
Proof.
  intros [Hs _]. destruct (sh_ring _ _ _ Hs) as (b & Hb & _ & Hl). pose proof (sh_size _ _ _ Hs).
  unfold clfree. rewrite Hb, (sh_cn _ _ _ Hs). cbn [kheap_free].
  rewrite (proj2 (Z.ltb_lt 0 (q_size q))), (proj2 (Z.eqb_eq _ _) Hl) by lia. cbn [andb mbind res_bind].
  pose proof (sh_bits _ _ _ Hs) as Hq. destruct (q_quote q); [| by rewrite Hq].
  destruct Hq as (bits & -> & _ & Hql). cbn [kheap_free]. rewrite (proj2 (Z.eqb_eq _ _) Hql).
  by rewrite (proj2 (Z.ltb_lt 0 (QMEM (q_size q)))) by (pose proof (QMEM_bits (q_size q)); lia).
Qed.

Lemma acat_open cs : ∀ allocs q, is_Some (acat allocs cs (Some q)).
Proof.
  induction cs as [|c cs IH]; intros allocs q; [by eexists |]. cbn [acat]. unfold aputc, opened. case_match; apply IH.
Qed.

Lemma astep_open q o : is_Some (astep (Some q) o).2.
Proof.
  destruct o as [| | | | | | |allocs from]; [.. | apply acat_open]; unfold astep, aputc, ab_to_q, opened, aq_to_b, aget, aunput; cbn;
    repeat case_match; simplify_eq/=; eauto.
Qed.

Lemma arun_open os : ∀ q, is_Some (arun (Some q) os).2.
Proof.
  induction os as [|o os IH]; intros q; simpl; [eauto |].
  destruct (astep (Some q) o) as [r a] eqn:E. pose proof (astep_open q o) as [q' Hq].
  rewrite E in Hq. simpl in Hq. subst a. specialize (IH q'). by destruct (arun (Some q') os).
Qed.

(** A queue that is allocated with any size, used in any way and freed
    returns both of its arrays, whole, and keeps no pointer to them. *)
Lemma clist_life size quot os clp :
  0 < size <= INT_MAX → Forall op_ok os →
  ∃ clp', (clalloc (true, true) size quot ;; run_ops os ;; clfree) clp = Ok ((), clp') ∧
    c_cs clp' = None ∧ c_cq clp' = None.
Proof.
  intros Hsize Hok. destruct (clalloc_spec size quot clp Hsize) as (clp1 & H1 & Hr1).
  rewrite st_bind_unfold, H1. destruct (run_refines os clp1 _ Hr1 Hok) as (clp2 & H2 & Hr2).
  rewrite st_bind_unfold, H2. destruct (arun_open os (Queue size quot [])) as [q Hq]. rewrite Hq in Hr2.
  rewrite (clfree_spec clp2 q Hr2). eauto.
Qed.

Lemma clist_life_witness :
  ∃ clp', (clalloc (true, true) 5 true ;; run_ops ops_demo ;; clfree) (Clist 9 9 None (Some 3) None 7 None) =
    Ok ((), clp') ∧ c_cs clp' = None ∧ c_cq clp' = None.
Proof.
  apply (clist_life 5 true ops_demo (Clist 9 9 None (Some 3) None 7 None)); [done |].
  apply ops_demo_ok.
Defined.

(** When the second allocation of [clalloc] fails, the ring that has been
    freed stays in [c_cs]: after a queue has been freed, a [putc] that fails
    this way makes the next one store into freed memory. *)
Lemma clalloc_keeps_freed_ring clp :
  c_cs clp = None → c_cc clp = 0 → c_cn clp = 1024 →
  ∃ clp', putc (true, false) 97 clp = Ok (-1, clp') ∧ putc (true, true) 98 clp' = Fault.
Proof.
  destruct clp as [cc cn cf cl cs ce cq]. simpl. intros -> -> ->. eexists. split; [done |]. done.
Qed.

(** ** Room for characters *)

Lemma aputc_fold cs : ∀ q,
  let room := Z.to_nat (q_size q - Z.of_nat (length (q_chars q))) in
  Z.of_nat (length (q_chars q)) <= q_size q →
  acat [] cs (Some q) =
  Some (with_chars q (q_chars q ++ take room (kept (q_quote q) <$> cs))).
Proof.
  induction cs as [|c cs IH]; intros q room Hle; simpl.
  - rewrite take_nil, app_nil_r. by destruct q.
  - unfold aputc. cbn [opened]. destruct (Z.eqb_spec (Z.of_nat (length (q_chars q))) (q_size q)) as [E|Hne].
    + cbn [snd]. rewrite IH by done. fold room. replace room with 0%nat by lia. done.
    + cbn [snd]. rewrite IH; cbn [q_size q_quote q_chars with_chars]; [| rewrite length_app; simpl; lia].
      unfold with_chars. cbn [q_size q_quote q_chars]. do 2 f_equal. rewrite <- app_assoc. f_equal.
      replace room with (S (Z.to_nat (q_size q - Z.of_nat (length (q_chars q ++ [kept (q_quote q) c])))))
        by (rewrite length_app; simpl; lia). done.
Qed.

Lemma repr_fits clp q : repr clp (Some q) → Z.of_nat (length (q_chars q)) <= q_size q.
Proof.
  intros [Hs [[-> _]|[f (_ & H & _)]]]; [| done]. pose proof (sh_size _ _ _ Hs). simpl. lia.
Qed.

(** [catq] empties one queue into another: the characters follow those of
    the second queue in order, as many as it has room for; the second queue
    may be one that gets its ring on the way. *)
Lemma catq_moves from to a qf qt fuel :
  repr from (Some qf) → repr to a → opened (true, true) a = Some qt →
  (length (q_chars qf) ≤ fuel)%nat →
  let room := Z.to_nat (q_size qt - Z.of_nat (length (q_chars qt))) in
  ∃ from' to' a', catq fuel [] from to = Ok (from', to') ∧ repr from' (Some (with_chars qf [])) ∧
    repr to' a' ∧ achars a' = q_chars qt ++ take room (kept (q_quote qt) <$> q_chars qf).
Proof.
  intros Hf Ht Hopen Hfuel room. destruct qf as [n quot chars]. simpl in *.
  destruct (catq_loop chars fuel [] from to n quot a Hf Ht ltac:(constructor) Hfuel) as (from' & to' & Hcat & Hf' & Ht').
  eexists from', to', _. split; [done |]. split; [done |]. split; [exact Ht' |].
  destruct a as [q|].
  - cbn in Hopen. simplify_eq. rewrite aputc_fold by (by eapply repr_fits). done.
  - cbn in Hopen. simplify_eq. destruct chars as [|c chars]; [done |]. cbn [acat head default from_option tail id].
    change (aputc (true, true) c None) with (0, Some (Queue 1024 true [kept true c])). cbn [snd].
    rewrite aputc_fold by (simpl; lia). unfold room. done.
Qed.

Lemma catq_moves_witness :
  ∃ from' to' a', catq 3 [] clist_demo clist_demo = Ok (from', to') ∧
    repr from' (Some (Queue 5 true [])) ∧ repr to' a' ∧ achars a' = [8; 265; 7; 8; 265].
Proof.
  apply (catq_moves clist_demo clist_demo (Some (Queue 5 true [8; 265; 7]))
           (Queue 5 true [8; 265; 7]) (Queue 5 true [8; 265; 7]) 3);
    [apply clist_demo_repr | apply clist_demo_repr | done | simpl; lia].
Defined.

Lemma walk_exact_witness : walk_all clist_demo 77 = Ok [8; 265; 7].
Proof. apply (walk_exact clist_demo (Queue 5 true [8; 265; 7]) 77), clist_demo_repr. Defined.

(** [ndqb] without flags counts the characters up to the end of the ring
    only while the queue has not wrapped around or is full; once the next
    open character is before the first one it returns 0, though the run up to
    the end of the ring is not empty. *)
Lemma ndqb_exact clp q :
  repr clp (Some q) → q_chars q ≠ [] →
  ∃ f, c_cf clp = Some f ∧ 0 <= f < q_size q ∧
    ndqb clp 0 = Ok (let len := Z.of_nat (length (q_chars q)) in
                     if f + len <? q_size q then len
                     else if len =? q_size q then q_size q - f else 0).
Proof.
  intros [Hs Hh] Hne. destruct (holds_cases _ _ _ Hh) as [[E _]|(_ & Hcc & f & Hat)]; [done |].
  pose proof Hat as (Hc & Hn & Hf & Hcf & Hcl & _). pose proof (sh_size _ _ _ Hs) as Hsize.
  exists f. split; [done |]. split; [done |]. unfold ndqb. rewrite (proj2 (Z.eqb_neq _ _) Hcc), Hcf, Hcl.
  cbn [ptr mbind res_bind Z.eqb]. rewrite (sh_ce _ _ _ Hs). unfold INT_MAX, pos in *. f_equal. rewrite Z.gtb_ltb.
  assert (0 < Z.of_nat (length (q_chars q))) by (destruct (q_chars q); simpl; [done | lia]).
  destruct (Z.ltb_spec (f + Z.of_nat (length (q_chars q))) (q_size q)).
  { rewrite (wrap_small 64) by (unfold in_u; lia). rewrite (proj2 (Z.leb_gt _ _)), (proj2 (Z.ltb_ge _ _)) by lia. lia. }
  destruct (Z.eqb_spec (Z.of_nat (length (q_chars q))) (q_size q)) as [->|].
  - replace (f + q_size q - q_size q - f) with 0 by lia. change (u64 0) with 0. simpl.
    rewrite (wrap_small 64) by (unfold in_u; lia). by rewrite (proj2 (Z.ltb_ge _ _)) by lia.
  - assert (u64 (f + Z.of_nat (length (q_chars q)) - q_size q - f) =
      2 ^ 64 + (Z.of_nat (length (q_chars q)) - q_size q)) as ->.
    { unfold wrap. symmetry. apply Zmod_unique with (-1); lia. }
    by rewrite (proj2 (Z.leb_gt _ _)), (proj2 (Z.ltb_lt _ _)) by lia.
Qed.

Lemma ndqb_exact_witness : ∃ f, c_cf clist_demo = Some f ∧ 0 <= f < 5 ∧ ndqb clist_demo 0 =
  Ok (if f + 3 <? 5 then 3 else if 3 =? 5 then 5 - f else 0).
Proof. apply (ndqb_exact clist_demo (Queue 5 true [8; 265; 7])); [apply clist_demo_repr | done]. Defined.

(** With [TTY_QUOTE] among the flags [ndqb] tests the quote bit of the next
    position instead of the character's own: a quoted character is counted
    and the one before it is not.  On the last position of a ring of eight
    characters it reads past the array of quote bits. *)
Lemma ndqb_tests_next_bit :
  ndqb (Clist 2 8 (Some 0) (Some 2) (Some [97; 98; 0; 0; 0; 0; 0; 0]) 8 (Some [1])) TTY_QUOTE = Ok 2 ∧
  ndqb (Clist 2 8 (Some 0) (Some 2) (Some [97; 98; 0; 0; 0; 0; 0; 0]) 8 (Some [2])) TTY_QUOTE = Ok 0 ∧
  ndqb (Clist 1 8 (Some 7) (Some 0) (Some [0; 0; 0; 0; 0; 0; 0; 97]) 8 (Some [0])) TTY_QUOTE = Fault.
Proof. by vm_compute. Qed.
