(* ===== verification/Ipc.v ===== *)
(** * System V interprocess communication: identifiers and permissions

    What [bsd/kern/sysv_sem.c], [bsd/kern/sysv_msg.c] and
    [bsd/kern/sysv_shm.c] share: [bsd/sys/ipc.h] and [ipcperm] of
    [bsd/kern/sysv_ipc.c]. *)

From S2P Require Import Prelude.

Abbreviation s16 := (swrap 16).

Definition IPC_CREAT : Z := 0x200.
Definition IPC_EXCL : Z := 0x400.
Definition IPC_NOWAIT : Z := 0x800.
Definition IPC_PRIVATE : Z := 0.
Definition IPC_R : Z := 0x100.
Definition IPC_W : Z := 0x80.
Definition IPC_M : Z := 0x1000.

Definition EPERM : Z := 1.
Definition ENOENT : Z := 2.
Definition EINTR : Z := 4.
Definition E2BIG : Z := 7.
Definition ENOMEM : Z := 12.
Definition EACCES : Z := 13.
Definition EFAULT : Z := 14.
Definition EEXIST : Z := 17.
Definition EINVAL : Z := 22.
Definition EFBIG : Z := 27.
Definition ENOSPC : Z := 28.
Definition ERANGE : Z := 34.
Definition EAGAIN : Z := 35.
Definition EIDRM : Z := 90.

Definition IPCID_TO_IX (id : Z) : Z := Z.land id 0xffff.
Definition IPCID_TO_SEQ (id : Z) : Z := Z.land (Z.shiftr id 16) 0xffff.
Definition IXSEQ_TO_IPCID (ix seq : Z) : Z := Z.lor (Z.shiftl seq 16) (Z.land ix 0xffff).

Record ipc_perm := IpcPerm {
  uid : Z; gid : Z; cuid : Z; cgid : Z; mode : Z; _seq : Z; _key : Z
}.

(** ** Permissions *)

(** A credential: its user and group, whether it is the super user's, and the
    groups that [kauth_cred_ismember_gid] finds it in. *)
Record cred := Cred { cr_uid : Z; cr_gid : Z; cr_super : bool; cr_member : Z → bool }.

Definition ipcperm (c : cred) (perm : ipc_perm) (mode_req : Z) : Z :=
  let want_mod_controlinfo := tst mode_req IPC_M in
  let mode_owner := Z.land (mode perm) 0x1c0 in
  let mode_group := Z.shiftl (Z.land (mode perm) 0x38) 3 in
  let mode_world := Z.shiftl (Z.land (mode perm) 0x7) 6 in
  let other := if negb (Z.land mode_req mode_world =? mode_req) then EACCES else 0 in
  if cr_super c then 0
  else if (cr_uid c =? cuid perm) || (cr_uid c =? uid perm) then
    if want_mod_controlinfo then 0
    else if Z.land mode_req mode_owner =? mode_req then 0 else EACCES
  else if want_mod_controlinfo then EPERM
  else if Z.land (Z.land mode_req mode_group) mode_world =? mode_req then 0
  else if negb (Z.land mode_req mode_group =? mode_req) then
    if cr_member c (gid perm) && ((gid perm =? cgid perm) || cr_member c (cgid perm)) then EACCES
    else other
  else
    if cr_member c (gid perm) || (negb (gid perm =? cgid perm) && cr_member c (cgid perm)) then 0
    else other.
