(* ===== verification/Sem.v ===== *)
(** * System V semaphores

    [bsd/kern/sysv_sem.c] with the structures of [bsd/sys/sem_internal.h].
    The semaphores of all sets lie one after the other in the pool; a set is a
    range of it.  A process that used [SEM_UNDO] owns an undo structure, which
    is in a list linked by indices and has a list of adjustments.  Each
    definition runs with the subsystem lock held; [semop] is cut where it
    sleeps. *)

From S2P Require Import Prelude Ipc.

Definition SEM_ALLOC : Z := 0x200.
Definition SEM_UNDO : Z := 0x1000.
Definition SEMVMX : Z := 32767.
Definition SEMOPM : Z := 5.
Definition SEMMNI_INC : Z := 8.
Definition SEMMNS_INC : Z := 64.
Definition SEMMNU_INC : Z := 32.

(** ** Structures *)

Record sem := Sem { semval : Z; sempid : Z; semncnt : Z; semzcnt : Z }.

Record sembuf := Sembuf { sem_num : Z; sem_op : Z; sem_flg : Z }.

(** [sem_base] is the index in the pool that the pointer stands for. *)
Record semid_kernel := SemidKernel {
  sem_perm : ipc_perm;
  sem_base : Z;
  sem_nsems : Z;
  sem_otime : Z;
  sem_ctime : Z
}.

Record undo := Undo { une_adjval : Z; une_num : Z; une_id : Z }.

Record sem_undo := SemUndo {
  un_next_idx : Z;
  un_proc : option Z;
  un_cnt : Z;
  un_ent : list undo
}.

(** What zeroed memory holds. *)
Definition zero_sem : sem := Sem 0 0 0 0.
Definition zero_semid : semid_kernel := SemidKernel (IpcPerm 0 0 0 0 0 0 0) 0 0 0 0.
Definition zero_undo : sem_undo := SemUndo 0 None 0 [].

(** The hard limits that can be configured. *)
Record seminfo := Seminfo { semmni : Z; semmns : Z; semmnu : Z; semmsl : Z; semume : Z }.

(** The arrays, whose sizes are the members of [seminfo]; the answers of the
    allocations to come ([true]: null); and the sets woken up so far. *)
Record state := State {
  semtot : Z;
  sema : list semid_kernel;
  sem_pool : list sem;
  semu_list_idx : Z;
  semu : list sem_undo;
  nulls : list bool;
  woken : list Z
}.

Abbreviation M := (st state).

Definition set_semtot (x : Z) : M () := λ s,
  Ok ((), State x (sema s) (sem_pool s) (semu_list_idx s) (semu s) (nulls s) (woken s)).
Definition set_sema (x : list semid_kernel) : M () := λ s,
  Ok ((), State (semtot s) x (sem_pool s) (semu_list_idx s) (semu s) (nulls s) (woken s)).
Definition set_pool (x : list sem) : M () := λ s,
  Ok ((), State (semtot s) (sema s) x (semu_list_idx s) (semu s) (nulls s) (woken s)).
Definition set_list_idx (x : Z) : M () := λ s,
  Ok ((), State (semtot s) (sema s) (sem_pool s) x (semu s) (nulls s) (woken s)).
Definition set_semu (x : list sem_undo) : M () := λ s,
  Ok ((), State (semtot s) (sema s) (sem_pool s) (semu_list_idx s) x (nulls s) (woken s)).
Definition wakeup (semid : Z) : M () := λ s,
  Ok ((), State (semtot s) (sema s) (sem_pool s) (semu_list_idx s) (semu s) (nulls s) (woken s ++ [semid])).

Definition panic {A} : M A := fault.
Definition liftr {A} (m : res A) : M A := λ s, a ← m; Ok (a, s).

(** Accesses through the pointers into the arrays. *)
Definition get_semid (i : Z) : M semid_kernel := s ← get; liftr (rd (sema s) i).
Definition put_semid (i : Z) (k : semid_kernel) : M () := s ← get; l ← liftr (wr (sema s) i k); set_sema l.
Definition get_sem (i : Z) : M sem := s ← get; liftr (rd (sem_pool s) i).
Definition put_sem (i : Z) (x : sem) : M () := s ← get; l ← liftr (wr (sem_pool s) i x); set_pool l.
Definition SEMU (i : Z) : M sem_undo := s ← get; liftr (rd (semu s) i).
Definition put_semu (i : Z) (u : sem_undo) : M () := s ← get; l ← liftr (wr (semu s) i u); set_semu l.

(** [kheap_alloc]: whether it gives null. *)
Definition kheap_alloc : M bool := λ s,
  Ok (hd false (nulls s),
      State (semtot s) (sema s) (sem_pool s) (semu_list_idx s) (semu s) (tail (nulls s)) (woken s)).

Definition allocated (k : semid_kernel) : bool := tst (mode (sem_perm k)) SEM_ALLOC.

(** ** Growing the arrays *)

Section semaphores.

Context (limitseminfo : seminfo).

Definition grow_semu_array (newSize : Z) : M bool :=
  s ← get;
  let cur := Z.of_nat (length (semu s)) in
  if newSize <=? cur then mret true
  else if newSize >? semmnu limitseminfo then mret false
  else
    let newSize := Z.min ((newSize / SEMMNU_INC + 1) * SEMMNU_INC) (semmnu limitseminfo) in
    null ← kheap_alloc;
    if (null : bool) then mret false
    else set_semu (semu s ++ replicate (Z.to_nat (newSize - cur)) zero_undo) ;; mret true.

(** Wakes the sleepers of the sets from index [i] on, which sleep on
    addresses in the old array. *)
Fixpoint wake_sets (l : list semid_kernel) (i : Z) : M () :=
  match l with
  | [] => mret ()
  | k :: l => (if allocated k then wakeup i else mret ()) ;; wake_sets l (i + 1)
  end.

Definition grow_sema_array (newSize : Z) : M bool :=
  s ← get;
  let cur := Z.of_nat (length (sema s)) in
  if newSize <=? cur then mret false
  else if newSize >? semmni limitseminfo then mret false
  else
    let newSize := Z.min ((newSize / SEMMNI_INC + 1) * SEMMNI_INC) (semmni limitseminfo) in
    null ← kheap_alloc;
    if (null : bool) then mret false
    else
      wake_sets (sema s) 0 ;;
      set_sema (sema s ++ replicate (Z.to_nat (newSize - cur)) zero_semid) ;; mret true.

(** The sets keep their places in the new pool. *)
Definition grow_sem_pool (new_pool_size : Z) : M bool :=
  s ← get;
  let cur := Z.of_nat (length (sem_pool s)) in
  if new_pool_size <? semtot s then mret false
  else if new_pool_size >? semmns limitseminfo then mret false
  else
    let new_pool_size := Z.min ((new_pool_size / SEMMNS_INC + 1) * SEMMNS_INC) (semmns limitseminfo) in
    null ← kheap_alloc;
    if (null : bool) then mret false
    else if new_pool_size <? cur then fault
    else set_pool (sem_pool s ++ replicate (Z.to_nat (new_pool_size - cur)) zero_sem) ;; mret true.

(** ** Undo structures *)

(** A place that holds an index of the list. *)
Inductive iref := IHead | INext (i : Z).

Definition read_iref (r : iref) : M Z :=
  match r with
  | IHead => s ← get; mret (semu_list_idx s)
  | INext i => u ← SEMU i; mret (un_next_idx u)
  end.

Definition write_iref (r : iref) (x : Z) : M () :=
  match r with
  | IHead => set_list_idx x
  | INext i => u ← SEMU i; put_semu i (SemUndo x (un_proc u) (un_cnt u) (un_ent u))
  end.

(** The first structure that is not in use. *)
Fixpoint find_free (l : list sem_undo) (i : Z) : option Z :=
  match l with
  | [] => None
  | u :: l => match un_proc u with None => Some i | Some _ => find_free l (i + 1) end
  end.

(** Takes a free structure for [p], if there is one. *)
Definition take_free (p : Z) : M (option Z) :=
  s ← get;
  match find_free (semu s) 0 with
  | Some i =>
      put_semu i (SemUndo (semu_list_idx s) (Some p) 0 []) ;;
      set_list_idx i ;; mret (Some i)
  | None => mret None
  end.

(** Frees the structures without entries; the fuel is the number of
    structures and one. *)
Fixpoint purge (fuel : nat) (supidx : iref) (did_something : bool) : M bool :=
  match fuel with
  | O => fault
  | S fuel =>
      i ← read_iref supidx;
      if i =? -1 then mret did_something
      else
        u ← SEMU i;
        if un_cnt u =? 0 then
          put_semu i (SemUndo (un_next_idx u) None (un_cnt u) (un_ent u)) ;;
          write_iref supidx (un_next_idx u) ;;
          purge fuel supidx true
        else purge fuel (INext i) did_something
  end.

Definition semu_alloc (p : Z) : M Z :=
  r ← take_free p;
  match r with
  | Some i => mret i
  | None =>
      s ← get;
      did_something ← purge (S (length (semu s))) IHead false;
      ok ← (if (did_something : bool) then mret true else grow_semu_array (Z.of_nat (length (semu s)) + 1));
      if negb ok then mret (-1)
      else
        r ← take_free p;
        match r with Some i => mret i | None => panic end
  end.

(** The structure of [p] in the list from [i] on, or -1. *)
Fixpoint find_undo (fuel : nat) (p i : Z) : M Z :=
  match fuel with
  | O => fault
  | S fuel =>
      if i =? -1 then mret (-1)
      else
        u ← SEMU i;
        if bool_decide (un_proc u = Some p) then mret i else find_undo fuel p (un_next_idx u)
  end.

(** Looks for the entry among the first [n] and adjusts it: the new entries
    and whether the entry has gone; [None] if it is not there. *)
Fixpoint adjust_ent (semid semnum adjval : Z) (n : nat) (l : list undo) : res (option (list undo * bool)) :=
  match n with
  | O => Ok None
  | S n =>
      match l with
      | [] => Fault
      | e :: l =>
          if negb (une_id e =? semid) || negb (une_num e =? semnum) then
            r ← adjust_ent semid semnum adjval n l;
            Ok (match r with Some (l', del) => Some (e :: l', del) | None => None end)
          else
            let v := if adjval =? 0 then 0 else s16 (une_adjval e + adjval) in
            Ok (Some (if v =? 0 then (l, true) else (Undo v (une_num e) (une_id e) :: l, false)))
      end
  end.

(** The error, and the structure found or allocated. *)
Definition semundo_adjust (p supidx semid semnum adjval : Z) : M (Z * Z) :=
  s ← get;
  found ← (if supidx =? -1 then find_undo (S (length (semu s))) p (semu_list_idx s) else mret supidx);
  r ← (if found =? -1 then
         if adjval =? 0 then mret (inl 0)
         else i ← semu_alloc p; mret (if i =? -1 then inl ENOSPC else inr i)
       else mret (inr found));
  match (r : Z + Z) with
  | inl eval => mret (eval, -1)
  | inr suidx =>
      u ← SEMU suidx;
      r ← liftr (adjust_ent semid semnum adjval (Z.to_nat (un_cnt u)) (un_ent u));
      match r with
      | Some (l, del) =>
          put_semu suidx (SemUndo (un_next_idx u) (un_proc u)
                            (if (del : bool) then s16 (un_cnt u - 1) else un_cnt u) l) ;;
          mret (0, suidx)
      | None =>
          if adjval =? 0 then mret (0, suidx)
          else if un_cnt u =? semume limitseminfo then mret (EINVAL, suidx)
          else
            null ← kheap_alloc;
            if (null : bool) then mret (ENOMEM, suidx)
            else
              put_semu suidx (SemUndo (un_next_idx u) (un_proc u) (s16 (un_cnt u + 1))
                                (Undo (s16 adjval) (s16 semnum) semid :: un_ent u)) ;;
              mret (0, suidx)
      end
  end.

(** The entries left after those for the semaphore have been removed from the
    next [n], and how many were removed. *)
Fixpoint clear_ents (semid semnum : Z) (n : nat) (l : list undo) : res (list undo * Z) :=
  match n with
  | O => Ok (l, 0)
  | S n =>
      match l with
      | [] => Fault
      | e :: l =>
          if une_id e =? semid then
            if (semnum =? -1) || (une_num e =? semnum) then
              '(l', k) ← clear_ents semid semnum n l; Ok (l', k + 1)
            else Ok (e :: l, 0)
          else '(l', k) ← clear_ents semid semnum n l; Ok (e :: l', k)
      end
  end.

Fixpoint clear_loop (fuel : nat) (semid semnum i : Z) : M () :=
  match fuel with
  | O => fault
  | S fuel =>
      if i =? -1 then mret ()
      else
        u ← SEMU i;
        '(l, k) ← liftr (clear_ents semid semnum (Z.to_nat (un_cnt u)) (un_ent u));
        put_semu i (SemUndo (un_next_idx u) (un_proc u) (un_cnt u - k) l) ;;
        clear_loop fuel semid semnum (un_next_idx u)
  end.

Definition semundo_clear (semid semnum : Z) : M () :=
  s ← get; clear_loop (S (length (semu s))) semid semnum (semu_list_idx s).

(** ** Control *)

(** The commands of [semctl] with what is copied in from the caller: an error,
    or the data.  [SETALL] and [GETALL] copy the values one by one: [array] are
    the values that the caller's memory has, [room] is the number of those
    that it can take. *)
Inductive semctl_cmd :=
  | IPC_RMID
  | IPC_SET (copyin : Z + (Z * Z * Z))
  | IPC_STAT (copyout : Z)
  | GETNCNT
  | GETPID
  | GETVAL
  | GETALL (room : nat)
  | GETZCNT
  | SETVAL (val : Z)
  | SETALL (array : list Z).

(** What is returned or copied out. *)
Inductive semctl_ret :=
  | RInt (rval : Z)
  | RDs (ds : semid_kernel)
  | RVals (vals : list Z).

Definition set_perm (f : ipc_perm → ipc_perm) (k : semid_kernel) : semid_kernel :=
  SemidKernel (f (sem_perm k)) (sem_base k) (sem_nsems k) (sem_otime k) (sem_ctime k).
Definition set_base (x : Z) (k : semid_kernel) : semid_kernel :=
  SemidKernel (sem_perm k) x (sem_nsems k) (sem_otime k) (sem_ctime k).
Definition set_otime (x : Z) (k : semid_kernel) : semid_kernel :=
  SemidKernel (sem_perm k) (sem_base k) (sem_nsems k) x (sem_ctime k).
Definition set_ctime (x : Z) (k : semid_kernel) : semid_kernel :=
  SemidKernel (sem_perm k) (sem_base k) (sem_nsems k) (sem_otime k) x.

Definition set_val (x : Z) (m : sem) : sem := Sem x (sempid m) (semncnt m) (semzcnt m).
Definition set_pid (x : Z) (m : sem) : sem := Sem (semval m) x (semncnt m) (semzcnt m).
Definition set_ncnt (x : Z) (m : sem) : sem := Sem (semval m) (sempid m) x (semzcnt m).
Definition set_zcnt (x : Z) (m : sem) : sem := Sem (semval m) (sempid m) (semncnt m) x.

(** Moves [n] semaphores, from index [i + k] on, down to [i]. *)
Fixpoint compact (n : nat) (i k : Z) : M () :=
  match n with
  | O => mret ()
  | S n => m ← get_sem (i + k); put_sem i m ;; compact n (i + 1) k
  end.

(** The sets behind the one removed move down in the pool. *)
Definition rebase (base nsems : Z) (k : semid_kernel) : semid_kernel :=
  if allocated k && (sem_base k >? base) then set_base (sem_base k - nsems) k else k.

Definition ipc_rmid (c : cred) (semid : Z) : M () :=
  k ← get_semid semid;
  put_semid semid (set_perm (λ p, IpcPerm (cr_uid c) (gid p) (cr_uid c) (cgid p) (mode p) (_seq p) (_key p)) k) ;;
  s ← get;
  let tot := semtot s - sem_nsems k in
  set_semtot tot ;;
  compact (Z.to_nat (tot - sem_base k)) (sem_base k) (sem_nsems k) ;;
  s ← get;
  set_sema (rebase (sem_base k) (sem_nsems k) <$> sema s) ;;
  k ← get_semid semid;
  put_semid semid (set_perm (λ p, IpcPerm (uid p) (gid p) (cuid p) (cgid p) 0 (_seq p) (_key p)) k) ;;
  semundo_clear semid (-1) ;;
  wakeup semid.

Definition ipc_set (now semid : Z) (ds : Z * Z * Z) : M () :=
  k ← get_semid semid;
  let '(u, g, m) := ds in
  put_semid semid (set_ctime now (set_perm (λ p, IpcPerm u g (cuid p) (cgid p)
    (Z.lor (Z.land (mode p) (Z.lnot 0x1ff)) (Z.land m 0x1ff)) (_seq p) (_key p)) k)).

Fixpoint getall (n : nat) (i : Z) (room : nat) : M (Z * list Z) :=
  match n, room with
  | O, _ => mret (0, [])
  | S _, O => mret (EFAULT, [])
  | S n, S room => m ← get_sem i; '(eval, l) ← getall n (i + 1) room; mret (eval, semval m :: l)
  end.

(** Stores the values as long as they can be copied in. *)
Fixpoint setall (p : Z) (n : nat) (i : Z) (array : list Z) : M Z :=
  match n, array with
  | O, _ => mret 0
  | S _, [] => mret EFAULT
  | S n, v :: array =>
      m ← get_sem i; put_sem i (set_pid p (set_val (u16 v) m)) ;; setall p n (i + 1) array
  end.

(** The value of a semaphore of the set, after the checks of the commands that
    read one. *)
Definition getone (semid semnum : Z) (f : sem → Z) : M (Z * semctl_ret) :=
  k ← get_semid semid;
  if (semnum <? 0) || (semnum >=? sem_nsems k) then mret (EINVAL, RInt 0)
  else m ← get_sem (sem_base k + semnum); mret (0, RInt (f m)).

(** The permission that a command needs. *)
Definition need (cmd : semctl_cmd) : Z :=
  match cmd with
  | IPC_RMID | IPC_SET _ => IPC_M
  | SETVAL _ | SETALL _ => IPC_W
  | _ => IPC_R
  end.

(** [mac] is the answer of the MAC policy, [now] the time. *)
Definition semctl (p : Z) (c : cred) (mac now : Z) (id semnum : Z) (cmd : semctl_cmd) : M (Z * semctl_ret) :=
  let semid := IPCID_TO_IX id in
  s ← get;
  if (semid <? 0) || (semid >=? Z.of_nat (length (sema s))) then mret (EINVAL, RInt 0)
  else
    k ← get_semid semid;
    if negb (allocated k) || negb (_seq (sem_perm k) =? IPCID_TO_SEQ id) then mret (EINVAL, RInt 0)
    else if negb (mac =? 0) then mret (mac, RInt 0)
    else
      let eval := ipcperm c (sem_perm k) (need cmd) in
      if negb (eval =? 0) then mret (eval, RInt 0)
      else
        match cmd with
        | IPC_RMID => ipc_rmid c semid ;; mret (0, RInt 0)
        | IPC_SET (inl eval) => mret (eval, RInt 0)
        | IPC_SET (inr ds) => ipc_set now semid ds ;; mret (0, RInt 0)
        | IPC_STAT copyout => mret (copyout, RDs k)
        | GETNCNT => getone semid semnum semncnt
        | GETPID => getone semid semnum sempid
        | GETVAL => getone semid semnum semval
        | GETZCNT => getone semid semnum semzcnt
        | GETALL room =>
            '(eval, l) ← getall (Z.to_nat (sem_nsems k)) (sem_base k) room; mret (eval, RVals l)
        | SETVAL val =>
            if (semnum <? 0) || (semnum >=? sem_nsems k) then mret (EINVAL, RInt 0)
            else if u32 val >? SEMVMX then mret (ERANGE, RInt 0)
            else
              m ← get_sem (sem_base k + semnum);
              put_sem (sem_base k + semnum) (set_pid p (set_val (u16 (u32 val)) m)) ;;
              semundo_clear semid semnum ;; wakeup semid ;; mret (0, RInt 0)
        | SETALL array =>
            eval ← setall p (Z.to_nat (sem_nsems k)) (sem_base k) array;
            semundo_clear semid (-1) ;; wakeup semid ;; mret (eval, RInt 0)
        end.

(** ** Creation *)

Fixpoint find_set (f : semid_kernel → bool) (l : list semid_kernel) (i : Z) : option Z :=
  match l with
  | [] => None
  | k :: l => if f k then Some i else find_set f l (i + 1)
  end.

Fixpoint bzero_sems (n : nat) (i : Z) : M () :=
  match n with
  | O => mret ()
  | S n => put_sem i zero_sem ;; bzero_sems n (i + 1)
  end.

(** Sets the slot [semid] up for a new set. *)
Definition init_set (c : cred) (now key nsems semflg semid : Z) : M () :=
  k ← get_semid semid;
  s ← get;
  put_semid semid (SemidKernel
    (IpcPerm (cr_uid c) (cr_gid c) (cr_uid c) (cr_gid c) (Z.lor (Z.land semflg 0x1ff) SEM_ALLOC)
             (Z.land (_seq (sem_perm k) + 1) 0x7fff) key)
    (semtot s) (u16 nsems) 0 now) ;;
  set_semtot (semtot s + nsems) ;;
  bzero_sems (Z.to_nat nsems) (semtot s).

(** The index of a slot for a new set, or an error. *)
Definition new_slot (nsems : Z) : M (Z + Z) :=
  s ← get;
  ok ← (if nsems >? Z.of_nat (length (sem_pool s)) - semtot s then grow_sem_pool (semtot s + nsems) else mret true);
  if negb ok then mret (inl ENOSPC)
  else
    s ← get;
    match find_set (λ k, negb (allocated k)) (sema s) 0 with
    | Some semid => mret (inr semid)
    | None =>
        ok ← grow_sema_array (Z.of_nat (length (sema s)) + 1);
        mret (if (ok : bool) then inr (Z.of_nat (length (sema s))) else inl ENOSPC)
    end.

(** The error and the identifier. *)
Definition semget (c : cred) (mac now : Z) (key nsems semflg : Z) : M (Z * Z) :=
  s ← get;
  let found := if negb (key =? IPC_PRIVATE)
               then find_set (λ k, allocated k && (_key (sem_perm k) =? key)) (sema s) 0 else None in
  match found with
  | Some semid =>
      k ← get_semid semid;
      let eval := ipcperm c (sem_perm k) (Z.land semflg 0x1c0) in
      if negb (eval =? 0) then mret (eval, 0)
      else if (nsems <? 0) || (sem_nsems k <? nsems) then mret (EINVAL, 0)
      else if tst semflg IPC_CREAT && tst semflg IPC_EXCL then mret (EEXIST, 0)
      else if negb (mac =? 0) then mret (mac, 0)
      else mret (0, IXSEQ_TO_IPCID semid (_seq (sem_perm k)))
  | None =>
      if (key =? IPC_PRIVATE) || tst semflg IPC_CREAT then
        if (nsems <=? 0) || (nsems >? semmsl limitseminfo) then mret (EINVAL, 0)
        else
          r ← new_slot nsems;
          match r with
          | inl eval => mret (eval, 0)
          | inr semid =>
              init_set c now key nsems semflg semid ;;
              k ← get_semid semid;
              mret (0, IXSEQ_TO_IPCID semid (_seq (sem_perm k)))
          end
      else mret (ENOENT, 0)
  end.

(** ** Operations *)

Inductive try_result :=
  | TryDone (do_wakeup do_undos : bool)
  | TryBlocked (i : nat) (sop : sembuf) (do_undos : bool)
  | TryFbig.

(** One pass over the vector, from operation [i] on. *)
Fixpoint try_ops (semid : Z) (sops : list sembuf) (i : nat) (do_wakeup do_undos : bool) : M try_result :=
  match sops with
  | [] => mret (TryDone do_wakeup do_undos)
  | sop :: sops =>
      k ← get_semid semid;
      if sem_num sop >=? sem_nsems k then mret TryFbig
      else
        let j := sem_base k + sem_num sop in
        m ← get_sem j;
        if sem_op sop <? 0 then
          if semval m + sem_op sop <? 0 then mret (TryBlocked i sop do_undos)
          else
            let v := u16 (semval m + sem_op sop) in
            put_sem j (set_val v m) ;;
            try_ops semid sops (S i) (do_wakeup || ((v =? 0) && (semzcnt m >? 0)))
              (do_undos || tst (sem_flg sop) SEM_UNDO)
        else if sem_op sop =? 0 then
          if semval m >? 0 then mret (TryBlocked i sop do_undos)
          else try_ops semid sops (S i) do_wakeup do_undos
        else
          put_sem j (set_val (u16 (semval m + sem_op sop)) m) ;;
          try_ops semid sops (S i) (do_wakeup || (semncnt m >? 0)) (do_undos || tst (sem_flg sop) SEM_UNDO)
  end.

(** Takes the operations back. *)
Fixpoint rollback (semid : Z) (sops : list sembuf) : M () :=
  match sops with
  | [] => mret ()
  | sop :: sops =>
      k ← get_semid semid;
      m ← get_sem (sem_base k + sem_num sop);
      put_sem (sem_base k + sem_num sop) (set_val (u16 (semval m - sem_op sop)) m) ;;
      rollback semid sops
  end.

Definition wants_undo (sop : sembuf) : bool := tst (sem_flg sop) SEM_UNDO && negb (sem_op sop =? 0).

(** Records the adjustments; if that fails, the error and how many operations
    had been gone through. *)
Fixpoint undo_loop (p semid supidx : Z) (sops : list sembuf) (i : nat) : M (Z * Z * nat) :=
  match sops with
  | [] => mret (0, supidx, i)
  | sop :: sops =>
      if wants_undo sop then
        '(eval, supidx) ← semundo_adjust p supidx semid (sem_num sop) (- sem_op sop);
        if eval =? 0 then undo_loop p semid supidx sops (S i) else mret (eval, supidx, i)
      else undo_loop p semid supidx sops (S i)
  end.

(** Takes adjustments back, in the order of the list. *)
Fixpoint unundo_loop (p semid supidx : Z) (sops : list sembuf) : M () :=
  match sops with
  | [] => mret ()
  | sop :: sops =>
      if wants_undo sop then
        '(eval, supidx) ← semundo_adjust p supidx semid (sem_num sop) (sem_op sop);
        if eval =? 0 then unundo_loop p semid supidx sops else panic
      else unundo_loop p semid supidx sops
  end.

Fixpoint set_pids (p semid : Z) (sops : list sembuf) : M () :=
  match sops with
  | [] => mret ()
  | sop :: sops =>
      k ← get_semid semid;
      m ← get_sem (sem_base k + sem_num sop);
      put_sem (sem_base k + sem_num sop) (set_pid p m) ;;
      set_pids p semid sops
  end.

(** A thread in [semop] after a section: it has returned, or it sleeps because
    of an operation of the vector. *)
Inductive semop_state :=
  | SReturn (eval : Z)
  | SSleep (sop : sembuf) (do_undos : bool).

(** The whole vector has been gone through. *)
Definition semop_done (p now semid : Z) (sops : list sembuf) (do_wakeup do_undos : bool) : M semop_state :=
  '(eval, supidx, i) ← (if do_undos then undo_loop p semid (-1) sops 0 else mret (0, -1, O));
  if negb (eval =? 0) then
    unundo_loop p semid supidx (rev (take i sops)) ;;
    rollback semid sops ;;
    mret (SReturn eval)
  else
    set_pids p semid sops ;;
    k ← get_semid semid;
    put_semid semid (set_otime now k) ;;
    (if do_wakeup then wakeup semid else mret ()) ;;
    mret (SReturn 0).

Definition semop_attempt (p now semid : Z) (sops : list sembuf) (do_undos : bool) : M semop_state :=
  r ← try_ops semid sops 0 false do_undos;
  match r with
  | TryFbig => mret (SReturn EFBIG)
  | TryDone do_wakeup do_undos => semop_done p now semid sops do_wakeup do_undos
  | TryBlocked i sop do_undos =>
      rollback semid (take i sops) ;;
      if tst (sem_flg sop) IPC_NOWAIT then mret (SReturn EAGAIN)
      else
        k ← get_semid semid;
        m ← get_sem (sem_base k + sem_num sop);
        put_sem (sem_base k + sem_num sop)
          (if sem_op sop =? 0 then set_zcnt (u16 (semzcnt m + 1)) m else set_ncnt (u16 (semncnt m + 1)) m) ;;
        mret (SSleep sop do_undos)
  end.

Definition semop (p : Z) (c : cred) (mac now : Z) (id nsops : Z) (copyin : Z + list sembuf) : M semop_state :=
  let semid := IPCID_TO_IX id in
  s ← get;
  if (semid <? 0) || (semid >=? Z.of_nat (length (sema s))) then mret (SReturn EINVAL)
  else
    k ← get_semid semid;
    if negb (allocated k) then mret (SReturn EINVAL)
    else if negb (_seq (sem_perm k) =? IPCID_TO_SEQ id) then mret (SReturn EINVAL)
    else
      let eval := ipcperm c (sem_perm k) IPC_W in
      if negb (eval =? 0) then mret (SReturn eval)
      else if (nsops <? 0) || (nsops >? SEMOPM) then mret (SReturn E2BIG)
      else
        match copyin with
        | inl eval => mret (SReturn eval)
        | inr sops =>
            if negb (mac =? 0) then mret (SReturn mac)
            else semop_attempt p now semid sops false
        end.

(** The sleep has ended with [err]. *)
Definition semop_wake (p now id : Z) (sops : list sembuf) (sop : sembuf) (do_undos : bool) (err : Z) :
    M semop_state :=
  let semid := IPCID_TO_IX id in
  let eval := if negb (err =? 0) then EINTR else 0 in
  k ← get_semid semid;
  if negb (allocated k) || negb (_seq (sem_perm k) =? IPCID_TO_SEQ id) || (sem_num sop >=? sem_nsems k)
  then mret (SReturn (if eval =? EINTR then EINTR else EIDRM))
  else
    m ← get_sem (sem_base k + sem_num sop);
    put_sem (sem_base k + sem_num sop)
      (if sem_op sop =? 0 then set_zcnt (u16 (semzcnt m - 1)) m else set_ncnt (u16 (semncnt m - 1)) m) ;;
    if negb (eval =? 0) then mret (SReturn eval)
    else semop_attempt p now semid sops do_undos.

(** ** Exit *)

(** Applies the adjustments of the structure [suidx], one after the other. *)
Fixpoint apply_undos (suidx : Z) (l : list undo) : M () :=
  match l with
  | [] => mret ()
  | e :: l =>
      k ← get_semid (une_id e);
      if negb (allocated k) then panic
      else if une_num e >=? sem_nsems k then panic
      else
        m ← get_sem (sem_base k + une_num e);
        let v := if une_adjval e <? 0
                 then if semval m <? - une_adjval e then 0 else u16 (semval m + une_adjval e)
                 else u16 (semval m + une_adjval e) in
        put_sem (sem_base k + une_num e) (set_val v m) ;;
        wakeup (une_id e) ;;
        u ← SEMU suidx;
        put_semu suidx (SemUndo (un_next_idx u) (un_proc u) (s16 (un_cnt u - 1)) l) ;;
        apply_undos suidx l
  end.

(** The place in the list that holds the structure of [p], and that structure. *)
Fixpoint find_exit (fuel : nat) (p : Z) (supidx : iref) : M (option (iref * Z)) :=
  match fuel with
  | O => fault
  | S fuel =>
      i ← read_iref supidx;
      if i =? -1 then mret None
      else
        u ← SEMU i;
        if bool_decide (un_proc u = Some p) then mret (Some (supidx, i)) else find_exit fuel p (INext i)
  end.

Definition semexit (p : Z) : M () :=
  s ← get;
  match sem_pool s with
  | [] => mret ()
  | _ =>
      r ← find_exit (S (length (semu s))) p IHead;
      match r with
      | None => mret ()
      | Some (supidx, suidx) =>
          u ← SEMU suidx;
          (if un_cnt u >? 0 then apply_undos suidx (un_ent u) else mret ()) ;;
          u ← SEMU suidx;
          put_semu suidx (SemUndo (un_next_idx u) None (un_cnt u) (un_ent u)) ;;
          write_iref supidx (un_next_idx u)
      end
  end.

End semaphores.
