(* ===== verification/SemSpec.v ===== *)
(** * System V semaphores: sets and values

    A set is a segment of the pool.  The passes of [semop] over a vector of
    operations shift the values of the segment, and taking a part of a vector
    back restores them, whatever wraps around. *)

From S2P Require Import Prelude Ipc Sem.

(** ** Accesses *)

Definition with_pool (s : state) (l : list sem) : state :=
  State (semtot s) (sema s) l (semu_list_idx s) (semu s) (nulls s) (woken s).
Definition with_sema (s : state) (l : list semid_kernel) : state :=
  State (semtot s) l (sem_pool s) (semu_list_idx s) (semu s) (nulls s) (woken s).
Definition with_semu (s : state) (l : list sem_undo) : state :=
  State (semtot s) (sema s) (sem_pool s) (semu_list_idx s) l (nulls s) (woken s).

Lemma rd_nat {A} (l : list A) (n : nat) x : l !! n = Some x → rd l (Z.of_nat n) = Ok x.
Proof. intros H. apply rd_lookup. split; [lia |]. by rewrite Nat2Z.id. Qed.

Lemma wr_nat {A} (l : list A) (n : nat) x : (n < length l)%nat → wr l (Z.of_nat n) x = Ok (<[n := x]> l).
Proof.
  intros H. unfold wr. rewrite (proj2 (Z.leb_le _ _)), (proj2 (Z.ltb_lt _ _)) by lia. cbn. by rewrite Nat2Z.id.
Qed.

Lemma get_semid_eq s n k : sema s !! n = Some k → get_semid (Z.of_nat n) s = Ok (k, s).
Proof. intros H. unfold get_semid. rewrite st_bind_unfold. cbn. unfold liftr. by rewrite (rd_nat _ _ _ H). Qed.

Lemma put_semid_eq s n k : (n < length (sema s))%nat →
  put_semid (Z.of_nat n) k s = Ok ((), with_sema s (<[n := k]> (sema s))).
Proof. intros H. unfold put_semid. rewrite !st_bind_unfold. cbn. unfold liftr. by rewrite wr_nat. Qed.

Lemma get_sem_eq s n m : sem_pool s !! n = Some m → get_sem (Z.of_nat n) s = Ok (m, s).
Proof. intros H. unfold get_sem. rewrite st_bind_unfold. cbn. unfold liftr. by rewrite (rd_nat _ _ _ H). Qed.

Lemma put_sem_eq s n m : (n < length (sem_pool s))%nat →
  put_sem (Z.of_nat n) m s = Ok ((), with_pool s (<[n := m]> (sem_pool s))).
Proof. intros H. unfold put_sem. rewrite !st_bind_unfold. cbn. unfold liftr. by rewrite wr_nat. Qed.

Lemma SEMU_eq s n u : semu s !! n = Some u → SEMU (Z.of_nat n) s = Ok (u, s).
Proof. intros H. unfold SEMU. rewrite st_bind_unfold. cbn. unfold liftr. by rewrite (rd_nat _ _ _ H). Qed.

Lemma put_semu_eq s n u : (n < length (semu s))%nat →
  put_semu (Z.of_nat n) u s = Ok ((), with_semu s (<[n := u]> (semu s))).
Proof. intros H. unfold put_semu. rewrite !st_bind_unfold. cbn. unfold liftr. by rewrite wr_nat. Qed.

(** ** Segments *)

(** The set [i] is [k], and its semaphores are [ms], between [pre] and [post]
    in the pool. *)
Record seg (s : state) (i : nat) (k : semid_kernel) (pre ms post : list sem) : Prop := {
  sg_set : sema s !! i = Some k;
  sg_pool : sem_pool s = pre ++ ms ++ post;
  sg_base : sem_base k = Z.of_nat (length pre);
  sg_nsems : sem_nsems k = Z.of_nat (length ms)
}.

Lemma seg_get s i k pre ms post n m : seg s i k pre ms post → ms !! n = Some m →
  get_sem (sem_base k + Z.of_nat n) s = Ok (m, s).
Proof.
  intros [] Hm. rewrite sg_base0, <- Nat2Z.inj_add. apply get_sem_eq. rewrite sg_pool0.
  rewrite lookup_app_r by lia. rewrite Nat.add_comm, Nat.add_sub. rewrite lookup_app_l; [done |]. by apply lookup_lt_Some in Hm.
Qed.

Lemma seg_put s i k pre ms post n m : seg s i k pre ms post → (n < length ms)%nat →
  put_sem (sem_base k + Z.of_nat n) m s = Ok ((), with_pool s (pre ++ <[n := m]> ms ++ post)).
Proof.
  intros [] Hn. rewrite sg_base0, <- Nat2Z.inj_add. rewrite put_sem_eq by (rewrite sg_pool0, !length_app; lia).
  do 3 f_equal. rewrite sg_pool0, insert_app_r. by rewrite insert_app_l.
Qed.

Lemma seg_with_pool s i k pre ms post ms' : seg s i k pre ms post → length ms' = length ms →
  seg (with_pool s (pre ++ ms' ++ post)) i k pre ms' post.
Proof. intros [] Hl. constructor; cbn; try done. lia. Qed.

Lemma with_pool_twice s l l' : with_pool (with_pool s l) l' = with_pool s l'.
Proof. done. Qed.

(** ** Values *)

(** What the operations of a vector add to semaphore [n]. *)
Definition delta (sops : list sembuf) (n : nat) : Z :=
  foldr (λ sop d, (if sem_num sop =? Z.of_nat n then sem_op sop else 0) + d) 0 sops.

(** Adds [d n] to the value of each semaphore [n]. *)
Definition shift (d : nat → Z) (ms : list sem) : list sem :=
  imap (λ n m, set_val (u16 (semval m + d n)) m) ms.

Definition val_ok (m : sem) : Prop := in_u 16 (semval m).

Lemma length_shift d ms : length (shift d ms) = length ms.
Proof. apply length_imap. Qed.

Lemma shift_lookup d ms n : shift d ms !! n = (λ m, set_val (u16 (semval m + d n)) m) <$> ms !! n.
Proof. apply list_lookup_imap. Qed.

Lemma shift_ext d e ms : (∀ n, (n < length ms)%nat → u16 (d n) = u16 (e n)) → shift d ms = shift e ms.
Proof.
  intros H. apply list_eq. intros n. rewrite !shift_lookup. destruct (ms !! n) as [m|] eqn:Hm; [| done]. cbn.
  apply lookup_lt_Some in Hm. do 2 f_equal. unfold wrap in *.
  rewrite Z.add_mod, (H n Hm), <- Z.add_mod by lia. done.
Qed.

Lemma shift_shift d e ms : shift d (shift e ms) = shift (λ n, e n + d n) ms.
Proof.
  apply list_eq. intros n. rewrite !shift_lookup. destruct (ms !! n) as [m|]; [| done]. cbn.
  unfold set_val. cbn. do 2 f_equal. unfold wrap. rewrite Zplus_mod_idemp_l. f_equal. lia.
Qed.

Lemma shift_zero ms : Forall val_ok ms → shift (λ _, 0) ms = ms.
Proof.
  intros H. apply list_eq. intros n. rewrite shift_lookup. destruct (ms !! n) as [m|] eqn:Hm; [| done]. cbn. f_equal.
  rewrite Z.add_0_r, wrap_small by apply (Forall_lookup_1 _ _ _ _ H Hm). by destruct m.
Qed.

Lemma shift_ok d ms : Forall val_ok (shift d ms).
Proof.
  apply Forall_lookup. intros n m. rewrite shift_lookup. intros (m0 & _ & ->)%fmap_Some. unfold val_ok. cbn.
  apply wrap_in_u. lia.
Qed.

Lemma shift_insert d ms n m : ms !! n = Some m → Forall val_ok ms →
  (∀ n', n' ≠ n → d n' = 0) → <[n := set_val (u16 (semval m + d n)) m]> ms = shift d ms.
Proof.
  intros Hm Hok Hd. apply list_eq. intros n'. rewrite shift_lookup. destruct (decide (n' = n)) as [->|Hne].
  - rewrite list_lookup_insert_eq, Hm by (by apply lookup_lt_Some in Hm). done.
  - rewrite list_lookup_insert_ne by done. destruct (ms !! n') as [m'|] eqn:Hm'; [| done]. cbn. f_equal.
    rewrite (Hd n' Hne), Z.add_0_r, wrap_small by apply (Forall_lookup_1 _ _ _ _ Hok Hm'). by destruct m'.
Qed.

Lemma delta_app l l' n : delta (l ++ l') n = delta l n + delta l' n.
Proof. unfold delta. induction l as [|x l IH]; simpl; [done |]. rewrite IH. lia. Qed.

(** ** Passes over a vector *)

(** Whether an operation can go ahead on the value [v]. *)
Definition enabled (v : Z) (sop : sembuf) : bool :=
  if sem_op sop <? 0 then 0 <=? v + sem_op sop
  else if sem_op sop =? 0 then v =? 0
  else true.

(** The first operation that is out of range or not enabled when those before
    it have been carried out. *)
Inductive verdict := VDone | VBlocked (i : nat) (sop : sembuf) | VFbig (i : nat).

Fixpoint judge (ms : list sem) (done sops : list sembuf) : verdict :=
  match sops with
  | [] => VDone
  | sop :: sops =>
      match ms !! Z.to_nat (sem_num sop) with
      | None => VFbig (length done)
      | Some m =>
          if enabled (u16 (semval m + delta done (Z.to_nat (sem_num sop)))) sop
          then judge ms (done ++ [sop]) sops
          else VBlocked (length done) sop
      end
  end.

Definition sop_ok (sop : sembuf) : Prop := in_u 16 (sem_num sop).

(** What the pass makes of the flags. *)
Definition undo_flag (sops : list sembuf) : bool :=
  existsb (λ sop, negb (sem_op sop =? 0) && tst (sem_flg sop) SEM_UNDO) sops.

Definition try_of (v : verdict) (wk : bool) (un : bool) (sops : list sembuf) : try_result :=
  match v with
  | VDone => TryDone wk (un || undo_flag sops)
  | VBlocked i sop => TryBlocked i sop (un || undo_flag (take i sops))
  | VFbig _ => TryFbig
  end.

(** How many operations a verdict lets through. *)
Definition passed (v : verdict) (sops : list sembuf) : list sembuf :=
  match v with VDone => sops | VBlocked i _ | VFbig i => take i sops end.

Lemma delta_snoc done sop n :
  delta (done ++ [sop]) n = delta done n + (if sem_num sop =? Z.of_nat n then sem_op sop else 0).
Proof. rewrite delta_app. unfold delta at 2. simpl. lia. Qed.

Lemma undo_flag_snoc done sop :
  undo_flag (done ++ [sop]) = undo_flag done || (negb (sem_op sop =? 0) && tst (sem_flg sop) SEM_UNDO).
Proof. unfold undo_flag. rewrite existsb_app. cbn. by rewrite orb_false_r. Qed.

(** Carrying out one more operation. *)
Lemma shift_one ms done sop m : ms !! Z.to_nat (sem_num sop) = Some m → 0 <= sem_num sop →
  let m' := set_val (u16 (semval m + delta done (Z.to_nat (sem_num sop)))) m in
  <[Z.to_nat (sem_num sop) := set_val (u16 (semval m' + sem_op sop)) m']> (shift (delta done) ms) =
  shift (delta (done ++ [sop])) ms.
Proof.
  intros Hm Hn m'. set (n := Z.to_nat (sem_num sop)) in *.
  set (e := λ n', if sem_num sop =? Z.of_nat n' then sem_op sop else 0).
  transitivity (shift e (shift (delta done) ms)).
  - rewrite <- (shift_insert e _ n m').
    + unfold e. by rewrite (proj2 (Z.eqb_eq _ _)) by lia.
    + rewrite shift_lookup, Hm. done.
    + apply shift_ok.
    + intros n' Hne. unfold e. rewrite (proj2 (Z.eqb_neq _ _)); [done | lia].
  - rewrite shift_shift. apply shift_ext. intros n' _. by rewrite delta_snoc.
Qed.

Lemma flag_step un0 done sop : sem_op sop ≠ 0 →
  un0 || undo_flag done || tst (sem_flg sop) SEM_UNDO = un0 || undo_flag (done ++ [sop]).
Proof. intros H. rewrite undo_flag_snoc, (proj2 (Z.eqb_neq _ _) H). cbn. by rewrite orb_assoc. Qed.

Lemma try_ops_spec s i k pre ms post un0 sops : ∀ done wk,
  seg s i k pre ms post → Forall sop_ok sops →
  ∃ wk', try_ops (Z.of_nat i) sops (length done) wk (un0 || undo_flag done)
           (with_pool s (pre ++ shift (delta done) ms ++ post)) =
    Ok (try_of (judge ms done sops) wk' un0 (done ++ sops),
        with_pool s (pre ++ shift (delta (passed (judge ms done sops) (done ++ sops))) ms ++ post)).
Proof.
  induction sops as [|sop sops IH]; intros done wk Hseg Hok; cbn [try_ops judge].
  { exists wk. by rewrite app_nil_r. }
  apply Forall_cons in Hok as [Hsop Hok]. unfold sop_ok, in_u in Hsop.
  assert (Hseg' := seg_with_pool s i k pre ms post (shift (delta done) ms) Hseg (length_shift _ _)).
  rewrite st_bind_unfold, (get_semid_eq _ i k) by apply Hseg. pose proof (sg_nsems _ _ _ _ _ _ Hseg) as Hns.
  set (n := Z.to_nat (sem_num sop)). assert (Hn : sem_num sop = Z.of_nat n) by lia.
  destruct (ms !! n) as [m|] eqn:Hm.
  2:{ apply lookup_ge_None in Hm. rewrite Z.geb_leb, (proj2 (Z.leb_le _ _)) by lia. exists wk. cbn. by rewrite take_app_length. }
  pose proof (lookup_lt_Some _ _ _ Hm) as Hlt. rewrite Z.geb_leb, (proj2 (Z.leb_gt _ _)) by lia. cbv zeta.
  set (m' := set_val (u16 (semval m + delta done n)) m).
  assert (Hget : shift (delta done) ms !! n = Some m') by (rewrite shift_lookup, Hm; done).
  assert (Hrd := seg_get _ _ _ _ _ _ n m' Hseg' Hget). rewrite <- Hn in Hrd. rewrite st_bind_unfold, Hrd.
  assert (Hnext : put_sem (sem_base k + sem_num sop) (set_val (u16 (semval m' + sem_op sop)) m')
      (with_pool s (pre ++ shift (delta done) ms ++ post)) =
      Ok ((), with_pool s (pre ++ shift (delta (done ++ [sop])) ms ++ post))).
  { rewrite Hn at 1. rewrite (seg_put _ _ _ _ _ _ n _ Hseg') by (rewrite length_shift; lia). rewrite with_pool_twice.
    do 5 f_equal. by apply shift_one; [| lia]. }
  assert (Hlen : S (length done) = length (done ++ [sop])) by (rewrite length_app; cbn; lia).
  assert (Happ : done ++ sop :: sops = (done ++ [sop]) ++ sops) by (by rewrite <- (assoc_L (++))).
  unfold enabled. change (semval m') with (u16 (semval m + delta done n)) in *.
  set (v := u16 (semval m + delta done n)) in *. assert (Hv : 0 <= v) by apply wrap_in_u, Z.lt_le_incl, eq_refl.
  destruct (Z.ltb_spec (sem_op sop) 0) as [Hneg|Hneg]; [| destruct (Z.eqb_spec (sem_op sop) 0) as [Hz|Hz]].
  - rewrite Z.leb_antisym. destruct (Z.ltb_spec (v + sem_op sop) 0); cbn [negb].
    { exists wk. cbn. by rewrite take_app_length. }
    rewrite st_bind_unfold, Hnext, flag_step, Hlen, Happ by lia. by apply IH.
  - destruct (Z.eqb_spec v 0) as [->|Hv0]; cbn [Z.gtb Z.compare].
    + rewrite Hlen, Happ. destruct (IH (done ++ [sop]) wk Hseg Hok) as [wk' H]. exists wk'. rewrite <- H. f_equal.
      * by rewrite undo_flag_snoc, Hz, orb_false_r.
      * do 3 f_equal. apply shift_ext. intros n' _. rewrite delta_snoc, Hz. by destruct (_ =? _); rewrite Z.add_0_r.
    + rewrite Z.gtb_ltb, (proj2 (Z.ltb_lt _ _)) by lia. exists wk. cbn. by rewrite take_app_length.
  - rewrite st_bind_unfold, Hnext, flag_step, Hlen, Happ by lia. by apply IH.
Qed.

Lemma shift_one' ms sop m : ms !! Z.to_nat (sem_num sop) = Some m → 0 <= sem_num sop → Forall val_ok ms →
  <[Z.to_nat (sem_num sop) := set_val (u16 (semval m - sem_op sop)) m]> ms = shift (λ n, - delta [sop] n) ms.
Proof.
  intros Hm Hn Hok. rewrite <- (shift_insert (λ n, - delta [sop] n) ms (Z.to_nat (sem_num sop)) m); [| done | done |].
  - unfold delta. cbn. rewrite (proj2 (Z.eqb_eq _ _)) by lia. by rewrite Z.add_0_r.
  - intros n' Hne. unfold delta. cbn. rewrite (proj2 (Z.eqb_neq _ _)); [done | lia].
Qed.

Definition in_set (ms : list sem) (sop : sembuf) : Prop := 0 <= sem_num sop < Z.of_nat (length ms).

Lemma rollback_spec s i k pre post sops : ∀ ms,
  seg (with_pool s (pre ++ ms ++ post)) i k pre ms post → Forall val_ok ms → Forall (in_set ms) sops →
  rollback (Z.of_nat i) sops (with_pool s (pre ++ ms ++ post)) =
    Ok ((), with_pool s (pre ++ shift (λ n, - delta sops n) ms ++ post)).
Proof.
  induction sops as [|sop sops IH]; intros ms Hseg Hok Hin; cbn [rollback].
  { unfold delta. cbn. by rewrite shift_zero. }
  apply Forall_cons in Hin as [Hs Hin]. unfold in_set in Hs.
  destruct (lookup_lt_is_Some_2 ms (Z.to_nat (sem_num sop))) as [m Hm]; [lia |].
  rewrite st_bind_unfold, (get_semid_eq _ i k) by apply Hseg.
  assert (Hn : sem_num sop = Z.of_nat (Z.to_nat (sem_num sop))) by lia.
  pose proof (seg_get _ _ _ _ _ _ _ m Hseg Hm) as Hget. rewrite <- Hn in Hget. rewrite st_bind_unfold, Hget.
  assert (Hput := seg_put _ _ _ _ _ _ (Z.to_nat (sem_num sop)) (set_val (u16 (semval m - sem_op sop)) m) Hseg ltac:(lia)).
  rewrite <- Hn in Hput. rewrite st_bind_unfold, Hput, with_pool_twice.
  rewrite (shift_one' ms sop m) by (done || lia).
  rewrite IH.
  - do 5 f_equal. rewrite shift_shift. apply shift_ext. intros n _. unfold delta. cbn. f_equal. lia.
  - by apply (seg_with_pool (with_pool s (pre ++ ms ++ post)) i k pre ms post _ Hseg (length_shift _ _)).
  - apply shift_ok.
  - eapply Forall_impl; [exact Hin |]. intros x. unfold in_set. by rewrite length_shift.
Qed.

(** Taking a vector back that has been carried out. *)
Lemma shift_back sops ms : Forall val_ok ms → shift (λ n, - delta sops n) (shift (delta sops) ms) = ms.
Proof.
  intros Hok. rewrite shift_shift. rewrite (shift_ext _ (λ _, 0)); [by apply shift_zero |].
  intros n _. f_equal. lia.
Qed.

(** The semaphores touched get the process's number. *)
Definition stamp (p : Z) (sops : list sembuf) (ms : list sem) : list sem :=
  imap (λ n m, if existsb (λ sop, sem_num sop =? Z.of_nat n) sops then set_pid p m else m) ms.

Lemma length_stamp p sops ms : length (stamp p sops ms) = length ms.
Proof. apply length_imap. Qed.

Lemma stamp_lookup p sops ms n : stamp p sops ms !! n =
  (λ m, if existsb (λ sop, sem_num sop =? Z.of_nat n) sops then set_pid p m else m) <$> ms !! n.
Proof. apply list_lookup_imap. Qed.

Lemma stamp_ok p sops ms : Forall val_ok ms → Forall val_ok (stamp p sops ms).
Proof.
  intros H. apply Forall_lookup. intros n m. rewrite stamp_lookup. intros (m0 & Hm & ->)%fmap_Some.
  pose proof (Forall_lookup_1 _ _ _ _ H Hm). by case_match.
Qed.

Lemma set_pids_spec s p i k pre post sops : ∀ ms,
  seg (with_pool s (pre ++ ms ++ post)) i k pre ms post → Forall (in_set ms) sops →
  set_pids p (Z.of_nat i) sops (with_pool s (pre ++ ms ++ post)) =
    Ok ((), with_pool s (pre ++ stamp p sops ms ++ post)).
Proof.
  induction sops as [|sop sops IH]; intros ms Hseg Hin; cbn [set_pids].
  { replace (stamp p [] ms) with ms; [done |]. apply list_eq. intros n. rewrite stamp_lookup. by destruct (ms !! n). }
  apply Forall_cons in Hin as [Hs Hin]. unfold in_set in Hs.
  destruct (lookup_lt_is_Some_2 ms (Z.to_nat (sem_num sop))) as [m Hm]; [lia |].
  rewrite st_bind_unfold, (get_semid_eq _ i k) by apply Hseg.
  assert (Hn : sem_num sop = Z.of_nat (Z.to_nat (sem_num sop))) by lia.
  pose proof (seg_get _ _ _ _ _ _ _ m Hseg Hm) as Hget. rewrite <- Hn in Hget. rewrite st_bind_unfold, Hget.
  assert (Hput := seg_put _ _ _ _ _ _ (Z.to_nat (sem_num sop)) (set_pid p m) Hseg ltac:(lia)).
  rewrite <- Hn in Hput. rewrite st_bind_unfold, Hput, with_pool_twice. rewrite IH.
  - do 5 f_equal. apply list_eq. intros n. rewrite !stamp_lookup. cbn.
    destruct (decide (n = Z.to_nat (sem_num sop))) as [->|Hne].
    + rewrite list_lookup_insert_eq, Hm by lia. rewrite (proj2 (Z.eqb_eq _ _)) by lia. cbn. by case_match.
    + rewrite list_lookup_insert_ne by done. by rewrite (proj2 (Z.eqb_neq _ _)) by lia.
  - apply (seg_with_pool (with_pool s (pre ++ ms ++ post)) i k pre ms post _ Hseg). by rewrite length_insert.
  - eapply Forall_impl; [exact Hin |]. intros x. unfold in_set. by rewrite length_insert.
Qed.

(** ** Verdicts *)

Lemma judge_done_in ms sops : ∀ dn, judge ms dn sops = VDone → Forall sop_ok sops → Forall (in_set ms) sops.
Proof.
  induction sops as [|sop sops IH]; intros dn H Hok; [done |]. cbn in H. apply Forall_cons in Hok as [Hs Hok].
  destruct (ms !! Z.to_nat (sem_num sop)) as [m|] eqn:Hm; [| done]. case_match; [| done].
  apply lookup_lt_Some in Hm. constructor; [unfold in_set, sop_ok, in_u in *; lia | eauto].
Qed.

Lemma judge_prefix ms sops i sop : ∀ dn, judge ms dn sops = VBlocked i sop → Forall sop_ok sops →
  ∃ l1 l2, sops = l1 ++ sop :: l2 ∧ i = (length dn + length l1)%nat ∧ Forall (in_set ms) l1 ∧ in_set ms sop.
Proof.
  induction sops as [|x sops IH]; intros dn H Hok; [done |]. cbn in H. apply Forall_cons in Hok as [Hs Hok].
  destruct (ms !! Z.to_nat (sem_num x)) as [m|] eqn:Hm; [| done].
  assert (Hx : in_set ms x) by (apply lookup_lt_Some in Hm; unfold in_set, sop_ok, in_u in *; lia).
  case_match.
  - destruct (IH _ H Hok) as (l1 & l2 & -> & -> & H1 & H2). exists (x :: l1), l2. split_and!; try done.
    + rewrite length_app. cbn. lia.
    + by constructor.
  - simplify_eq. exists [], sops. split_and!; try done.
Qed.
