(* ===== verification/SemUndos.v ===== *)
(** * System V semaphores: undo structures

    The structures in use are linked by indices into a list that contains each
    of them once.  Seen from outside, every process has a finite map from the
    semaphores it has operated on with [SEM_UNDO] to the adjustments that its
    exit will make. *)

From S2P Require Import Prelude Ipc Sem SemSpec.

(** ** Lists linked by indices *)

Fixpoint linked (us : list sem_undo) (i : Z) (l : list nat) : Prop :=
  match l with
  | [] => i = -1
  | j :: l => i = Z.of_nat j ∧ ∃ u, us !! j = Some u ∧ linked us (un_next_idx u) l
  end.

Lemma linked_lookup us l : ∀ i j, linked us i l → j ∈ l → is_Some (us !! j).
Proof.
  induction l as [|x l IH]; intros i j Hl Hj; [by apply elem_of_nil in Hj |]. destruct Hl as (_ & u & Hu & Hl).
  apply elem_of_cons in Hj as [->|Hj]; eauto.
Qed.

Lemma linked_length us l i : linked us i l → NoDup l → (length l <= length us)%nat.
Proof.
  intros Hl Hnd. replace (length us) with (length (seq 0 (length us))) by apply length_seq. apply submseteq_length, NoDup_submseteq; [done |].
  intros j Hj. apply elem_of_seq. destruct (linked_lookup us l i j Hl Hj) as [u Hu]. apply lookup_lt_Some in Hu. lia.
Qed.

(** The list only depends on its members' links. *)
Lemma linked_ext us us' l : ∀ i, linked us i l →
  (∀ j u, j ∈ l → us !! j = Some u → ∃ u', us' !! j = Some u' ∧ un_next_idx u' = un_next_idx u) → linked us' i l.
Proof.
  induction l as [|x l IH]; intros i Hl H; [done |]. destruct Hl as (-> & u & Hu & Hl).
  destruct (H x u) as (u' & Hu' & Hn); [by constructor | done |]. split; [done |]. exists u'. split; [done |].
  rewrite Hn. apply IH; [done |]. intros j v Hj. apply H. by constructor.
Qed.

Lemma linked_insert us l i j u : linked us i l → j ∉ l → linked (<[j := u]> us) i l.
Proof.
  intros Hl Hj. eapply linked_ext; [exact Hl |]. intros j' u' Hj' Hu'. exists u'. split; [| done].
  rewrite list_lookup_insert_ne; [done |]. by intros ->.
Qed.

(** ** Maps of adjustments *)

Definition ent_key (e : undo) : Z * Z := (une_id e, une_num e).
Definition ents_map (l : list undo) : gmap (Z * Z) Z := list_to_map ((λ e, (ent_key e, une_adjval e)) <$> l).

(** The structure that belongs to [p]. *)
Definition owns (us : list sem_undo) (p : Z) (j : nat) (u : sem_undo) : Prop := us !! j = Some u ∧ un_proc u = Some p.

(** The adjustments of [p]. *)
Definition undo_map (us : list sem_undo) (p : Z) : gmap (Z * Z) Z :=
  match list_find (λ u, un_proc u = Some p) us with
  | Some (_, u) => ents_map (un_ent u)
  | None => ∅
  end.

(** Adding to the adjustment of a semaphore. *)
Definition adjust (m : gmap (Z * Z) Z) (key : Z * Z) (d : Z) : gmap (Z * Z) Z :=
  let v := s16 (default 0 (m !! key) + d) in
  if v =? 0 then delete key m else <[key := v]> m.

Definition ent_ok (e : undo) : Prop := - 2 ^ 15 <= une_adjval e < 2 ^ 15 ∧ une_adjval e ≠ 0.

Definition struct_ok (lim : seminfo) (u : sem_undo) : Prop :=
  un_cnt u = Z.of_nat (length (un_ent u)) ∧ un_cnt u <= semume lim ∧
  NoDup (ent_key <$> un_ent u) ∧ Forall ent_ok (un_ent u).

(** [l] are the structures in use. *)
Record undos_ok (lim : seminfo) (us : list sem_undo) (i : Z) (l : list nat) : Prop := {
  uo_linked : linked us i l;
  uo_nodup : NoDup l;
  uo_used : ∀ j u, us !! j = Some u → j ∈ l ↔ is_Some (un_proc u);
  uo_procs : ∀ p j j' u u', owns us p j u → owns us p j' u' → j = j';
  uo_structs : ∀ j u, us !! j = Some u → is_Some (un_proc u) → struct_ok lim u
}.

Lemma undo_map_owner lim us i l p j u : undos_ok lim us i l → owns us p j u → undo_map us p = ents_map (un_ent u).
Proof.
  intros Hok [Hu Hp]. unfold undo_map. destruct (list_find _ us) as [[j' u']|] eqn:E.
  - apply list_find_Some in E as (Hu' & Hp' & _).
    assert (j' = j) as -> by (by apply (uo_procs _ _ _ _ Hok p j' j u' u)). by simplify_eq.
  - apply list_find_None in E. rewrite Forall_lookup in E. by destruct (E _ _ Hu).
Qed.

Lemma undo_map_none us p : (∀ j u, ¬ owns us p j u) → undo_map us p = ∅.
Proof.
  intros H. unfold undo_map. destruct (list_find _ us) as [[j' u']|] eqn:E; [| done].
  apply list_find_Some in E as (Hu' & Hp' & _). by destruct (H j' u').
Qed.

Lemma ents_lookup l key e : NoDup (ent_key <$> l) → e ∈ l → ent_key e = key → ents_map l !! key = Some (une_adjval e).
Proof.
  intros Hnd He <-. unfold ents_map. apply elem_of_list_to_map.
  - rewrite <- list_fmap_compose. exact Hnd.
  - apply list_elem_of_fmap. by exists e.
Qed.

Lemma ents_lookup_inv l key v : ents_map l !! key = Some v → ∃ e, e ∈ l ∧ ent_key e = key ∧ une_adjval e = v.
Proof.
  intros H. apply elem_of_list_to_map_2 in H. apply list_elem_of_fmap in H as (e & [= -> ->] & He). by exists e.
Qed.

Lemma ents_none l key : ents_map l !! key = None ↔ key ∉ ent_key <$> l.
Proof.
  unfold ents_map. rewrite <- not_elem_of_list_to_map, <- list_fmap_compose. done.
Qed.

Lemma ents_size l : NoDup (ent_key <$> l) → size (ents_map l) = length l.
Proof.
  intros Hnd. unfold ents_map. rewrite map_size_list_to_map, length_fmap; [done |]. by rewrite <- list_fmap_compose.
Qed.

Lemma ents_cons e l : ents_map (e :: l) = <[ent_key e := une_adjval e]> (ents_map l).
Proof. done. Qed.

Lemma adjust_insert_ne m key key' v d : key ≠ key' →
  adjust (<[key' := v]> m) key d = <[key' := v]> (adjust m key d).
Proof.
  intros Hne. unfold adjust. rewrite lookup_insert_ne by done. case_match.
  - by rewrite delete_insert_ne.
  - by rewrite insert_insert_ne.
Qed.

Lemma adjust_ent_spec id num d l :
  NoDup (ent_key <$> l) → Forall ent_ok l → d ≠ 0 →
  match adjust_ent id num d (length l) l with
  | Ok None => (id, num) ∉ ent_key <$> l
  | Ok (Some (l', del)) =>
      ents_map l' = adjust (ents_map l) (id, num) d ∧ NoDup (ent_key <$> l') ∧ Forall ent_ok l' ∧
      Z.of_nat (length l') = Z.of_nat (length l) - Z.b2z del ∧ (∀ e, e ∈ l' → ent_key e ∈ ent_key <$> l)
  | Fault => False
  end.
Proof.
  intros Hnd Hok Hd. induction l as [|e l IH]; [by apply not_elem_of_nil |]. cbn [length adjust_ent].
  rewrite fmap_cons in Hnd. apply NoDup_cons in Hnd as [Hke Hnd]. apply Forall_cons in Hok as [He Hok].
  specialize (IH Hnd Hok). destruct (decide (ent_key e = (id, num))) as [Hk|Hk].
  - unfold ent_key in Hk. simplify_eq. rewrite !Z.eqb_refl. cbn [negb orb]. rewrite (proj2 (Z.eqb_neq _ _) Hd). cbn [mret res_ret].
    assert (Hm : ents_map l !! ent_key e = None) by by apply ents_none.
    set (v := s16 (une_adjval e + d)). rewrite ents_cons. unfold adjust. fold (ent_key e).
    rewrite lookup_insert_eq. cbn [default from_option id]. fold v. destruct (Z.eqb_spec v 0) as [Hv|Hv].
    + cbn [Z.b2z]. split_and!; [by rewrite delete_insert_eq, delete_id | done | done | lia |].
      intros e' He'. apply elem_of_cons. right. by apply list_elem_of_fmap_2.
    + cbn [Z.b2z]. rewrite ents_cons. split_and!.
      * by rewrite insert_insert_eq.
      * rewrite fmap_cons. by apply NoDup_cons.
      * constructor; [| done]. split; [| done]. cbn. unfold v. pose proof (swrap_lt 16 (une_adjval e + d)). cbn in *. lia.
      * cbn [length]. lia.
      * intros e' [->|He']%elem_of_cons; apply elem_of_cons; [by left |]. right. by apply list_elem_of_fmap_2.
  - assert (negb (une_id e =? id) || negb (une_num e =? num) = true) as ->.
    { apply orb_true_iff. rewrite !negb_true_iff, !Z.eqb_neq. unfold ent_key in Hk.
      destruct (decide (une_id e = id)) as [H1|]; [right; intros H2; congruence | by left]. }
    destruct (adjust_ent id num d (length l) l) as [[[l' del]|]|]; cbn [mbind res_bind]; [| | done].
    + destruct IH as (Hm & Hn & Ho & Hl & Hin). rewrite !ents_cons, Hm. split_and!.
      * symmetry. apply adjust_insert_ne. done.
      * rewrite fmap_cons. apply NoDup_cons. split; [| done]. intros (e' & Hk' & He')%list_elem_of_fmap.
        apply Hke. rewrite Hk'. by apply Hin.
      * by constructor.
      * cbn [length]. lia.
      * intros e' [->|He']%elem_of_cons; rewrite fmap_cons; apply elem_of_cons; [by left | right; auto].
    + rewrite fmap_cons, not_elem_of_cons. by split.
Qed.

(** ** Changing one structure *)

Lemma undo_map_insert lim us i l j u u' p :
  undos_ok lim us i l → us !! j = Some u → un_proc u' = un_proc u →
  undo_map (<[j := u']> us) p = if bool_decide (un_proc u = Some p) then ents_map (un_ent u') else undo_map us p.
Proof.
  intros Hok Hu Hp. pose proof (lookup_lt_Some _ _ _ Hu) as Hlt. case_bool_decide as Hb.
  - unfold undo_map. destruct (list_find _ (<[j := u']> us)) as [[j2 u2]|] eqn:E.
    + apply list_find_Some in E as (H2 & Hp2 & _). destruct (decide (j2 = j)) as [->|Hne].
      * rewrite list_lookup_insert_eq in H2 by done. by simplify_eq.
      * rewrite list_lookup_insert_ne in H2 by done. destruct Hne. by apply (uo_procs _ _ _ _ Hok p j2 j u2 u).
    + apply list_find_None in E. rewrite Forall_lookup in E. destruct (E j u'); [by apply list_lookup_insert_eq | congruence].
  - unfold undo_map. assert (list_find (λ u, un_proc u = Some p) (<[j := u']> us) = list_find (λ u, un_proc u = Some p) us) as ->; [| done].
    clear Hok Hlt. revert j Hu. induction us as [|x us IH]; intros [|j] Hu; simplify_eq/=; [| by rewrite IH].
    rewrite !decide_False by congruence. done.
Qed.

Lemma undos_ok_update lim us i l j u u' :
  undos_ok lim us i l → us !! j = Some u → is_Some (un_proc u) →
  un_proc u' = un_proc u → un_next_idx u' = un_next_idx u → struct_ok lim u' →
  undos_ok lim (<[j := u']> us) i l.
Proof.
  intros [] Hu Hs Hp Hn Hst. pose proof (lookup_lt_Some _ _ _ Hu) as Hlt.
  assert (Hback : ∀ j2 u2, <[j := u']> us !! j2 = Some u2 → ∃ v, us !! j2 = Some v ∧ un_proc v = un_proc u2 ∧
    (u2 = u' ∨ u2 = v)).
  { intros j2 u2 H2. destruct (decide (j2 = j)) as [->|Hne].
    - rewrite list_lookup_insert_eq in H2 by done. simplify_eq. exists u. auto.
    - rewrite list_lookup_insert_ne in H2 by done. exists u2. auto. }
  constructor; try done.
  - eapply linked_ext; [exact uo_linked0 |]. intros j2 u2 _ H2. destruct (decide (j2 = j)) as [->|Hne].
    + exists u'. rewrite list_lookup_insert_eq by done. split; [done | congruence].
    + exists u2. by rewrite list_lookup_insert_ne.
  - intros j2 u2 (v & Hv & Hpv & _)%Hback. rewrite <- Hpv. eauto.
  - intros p j1 j2 u1 u2 [(v1 & Hv1 & Hp1 & _)%Hback Ho1] [(v2 & Hv2 & Hp2 & _)%Hback Ho2].
    apply (uo_procs0 p j1 j2 v1 v2); split; congruence.
  - intros j2 u2 (v & Hv & Hpv & [-> | ->])%Hback Hs2; [done |]. eauto.
Qed.

(** ** Looking a process up *)

Lemma find_undo_spec p us l : ∀ fuel i s, semu s = us → linked us i l → (length l < fuel)%nat →
  ∃ r, find_undo fuel p i s = Ok (r, s) ∧
    ((∃ j u, r = Z.of_nat j ∧ owns us p j u) ∨ (r = -1 ∧ ∀ j u, j ∈ l → ¬ owns us p j u)).
Proof.
  induction l as [|x l IH]; intros fuel i s Hs Hl Hf; (destruct fuel as [|fuel]; [cbn in Hf; lia |]); cbn [find_undo].
  - cbn in Hl. subst i. exists (-1). split; [done |]. right. split; [done |]. intros j u Hj. by apply elem_of_nil in Hj.
  - destruct Hl as (-> & u & Hu & Hl). rewrite (proj2 (Z.eqb_neq _ _)) by lia.
    rewrite st_bind_unfold, (SEMU_eq s x u) by (by rewrite Hs). case_bool_decide as Hp.
    + eexists. split; [done |]. left. by exists x, u.
    + destruct (IH fuel (un_next_idx u) s Hs Hl) as (r & Hr & Hpost); [cbn in Hf; lia |]. exists r. split; [done |].
      destruct Hpost as [?|[-> Hn]]; [by left |]. right. split; [done |].
      intros j v [->|Hj]%elem_of_cons; [| eauto]. intros [Hv Hvp]. congruence.
Qed.

Lemma used_in_list lim us i l p j u : undos_ok lim us i l → owns us p j u → j ∈ l.
Proof. intros [] [Hu Hp]. apply (uo_used0 j u Hu). by eexists. Qed.

Lemma find_undo_ok lim p s l : undos_ok lim (semu s) (semu_list_idx s) l →
  ∃ r, find_undo (S (length (semu s))) p (semu_list_idx s) s = Ok (r, s) ∧
    ((∃ j u, r = Z.of_nat j ∧ owns (semu s) p j u) ∨ (r = -1 ∧ ∀ j u, ¬ owns (semu s) p j u)).
Proof.
  intros Hok. pose proof (linked_length _ _ _ (uo_linked _ _ _ _ Hok) (uo_nodup _ _ _ _ Hok)).
  destruct (find_undo_spec p (semu s) l (S (length (semu s))) (semu_list_idx s) s) as (r & Hr & Hpost);
    [done | apply Hok | lia |]. exists r. split; [done |]. destruct Hpost as [?|[-> Hn]]; [by left |]. right.
  split; [done |]. intros j u Hu. by apply (Hn j u); [eapply used_in_list |].
Qed.

(** ** Taking a free structure *)

Lemma find_free_spec us : ∀ i, match find_free us i with
  | Some r => ∃ j u, r = i + Z.of_nat j ∧ us !! j = Some u ∧ un_proc u = None
  | None => ∀ j u, us !! j = Some u → is_Some (un_proc u)
  end.
Proof.
  induction us as [|x us IH]; intros i; cbn; [done |]. destruct (un_proc x) as [p|] eqn:Hp.
  - specialize (IH (i + 1)). destruct (find_free us (i + 1)) as [r|].
    + destruct IH as (j & u & -> & Hu & Hn). exists (S j), u. split_and!; [lia | done | done].
    + intros [|j] u Hu; cbn in Hu; [| eauto]. simplify_eq. by eexists.
  - exists 0%nat, x. split_and!; [lia | done | done].
Qed.

Definition with_undos (s : state) (i : Z) (us : list sem_undo) : state :=
  State (semtot s) (sema s) (sem_pool s) i us (nulls s) (woken s).

Lemma undos_ok_add lim us i l j u p :
  undos_ok lim us i l → us !! j = Some u → un_proc u = None → (∀ j u, ¬ owns us p j u) → 0 <= semume lim →
  undos_ok lim (<[j := SemUndo i (Some p) 0 []]> us) (Z.of_nat j) (j :: l) ∧
  ∀ p', undo_map (<[j := SemUndo i (Some p) 0 []]> us) p' = undo_map us p'.
Proof.
  intros Hok Hu Hp Hno Hlim. pose proof Hok as []. pose proof (lookup_lt_Some _ _ _ Hu) as Hlt.
  assert (Hj : j ∉ l). { intros Hj. apply (uo_used0 j u Hu) in Hj as [? ?]. congruence. }
  set (u' := SemUndo i (Some p) 0 []).
  assert (Hown : ∀ q j2 u2, owns (<[j := u']> us) q j2 u2 → (j2 = j ∧ q = p) ∨ owns us q j2 u2).
  { intros q j2 u2 [H2 Hq]. destruct (decide (j2 = j)) as [->|Hne].
    - rewrite list_lookup_insert_eq in H2 by done. apply (inj Some) in H2 as <-. cbn in Hq. left. split; congruence.
    - rewrite list_lookup_insert_ne in H2 by done. by right. }
  assert (Hok' : undos_ok lim (<[j := u']> us) (Z.of_nat j) (j :: l)).
  { constructor.
    - split; [done |]. exists u'. rewrite list_lookup_insert_eq by done. split; [done |]. by apply linked_insert.
    - by apply NoDup_cons.
    - intros j2 u2 H2. rewrite elem_of_cons. destruct (decide (j2 = j)) as [->|Hne].
      + rewrite list_lookup_insert_eq in H2 by done. apply (inj Some) in H2 as <-. split; [by eexists | by left].
      + rewrite list_lookup_insert_ne in H2 by done. rewrite <- (uo_used0 j2 u2 H2). naive_solver.
    - intros q j1 j2 u1 u2 [[-> ->]|H1]%Hown [[-> Hq]|H2]%Hown; [done | by destruct (Hno j2 u2) | | by eapply uo_procs0].
      subst q. by destruct (Hno j1 u1).
    - intros j2 u2 H2 Hs2. destruct (decide (j2 = j)) as [->|Hne].
      + rewrite list_lookup_insert_eq in H2 by done. apply (inj Some) in H2 as <-. split_and!; cbn; try done. apply NoDup_nil_2.
      + rewrite list_lookup_insert_ne in H2 by done. eauto. }
  split; [done |]. intros q. destruct (decide (q = p)) as [->|Hq].
  - rewrite (undo_map_none us p) by done. rewrite (undo_map_owner _ _ _ _ p j u' Hok'); [done |].
    split; [by apply list_lookup_insert_eq | done].
  - destruct (list_find (λ u, un_proc u = Some q) us) as [[j2 u2]|] eqn:E.
    + apply list_find_Some in E as (H2 & Hp2 & _). assert (j2 ≠ j) by congruence.
      rewrite (undo_map_owner _ _ _ _ q j2 u2 Hok) by done. rewrite (undo_map_owner _ _ _ _ q j2 u2 Hok'); [done |].
      split; [by rewrite list_lookup_insert_ne | done].
    + rewrite !undo_map_none; [done | |].
      * intros j2 u2 [H2 Hp2]. apply list_find_None in E. rewrite Forall_lookup in E. by destruct (E j2 u2).
      * intros j2 u2 [[-> ->]|H2]%Hown; [done |]. apply list_find_None in E. rewrite Forall_lookup in E.
        destruct H2 as [H2 Hp2]. by destruct (E j2 u2).
Qed.

(** ** Unlinking a structure *)

Lemma owner_cases us p : (∃ j u, owns us p j u) ∨ (∀ j u, ¬ owns us p j u).
Proof.
  destruct (list_find (λ u, un_proc u = Some p) us) as [[j u]|] eqn:E.
  - apply list_find_Some in E as (Hu & Hp & _). left. by exists j, u.
  - right. intros j u [Hu Hp]. apply list_find_None in E. rewrite Forall_lookup in E. by destruct (E j u).
Qed.

Definition head_idx (l : list nat) : Z := match l with [] => -1 | j :: _ => Z.of_nat j end.

(** The place that holds the index of what follows [pre] in the list. *)
Definition place (pre : list nat) : iref := match last pre with None => IHead | Some j => INext (Z.of_nat j) end.

Lemma linked_head us i l : linked us i l → i = head_idx l.
Proof. destruct l; [done |]. by intros [-> _]. Qed.

Lemma linked_app us pre l : ∀ i, linked us i (pre ++ l) → ∃ i', linked us i' l.
Proof.
  induction pre as [|x pre IH]; intros i Hl; [by exists i |]. destruct Hl as (_ & u & _ & Hl). eauto.
Qed.

(** The link to what follows [pre ++ [x]] is in [x]. *)
Lemma linked_last us pre x l : ∀ i, linked us i ((pre ++ [x]) ++ l) →
  ∃ u, us !! x = Some u ∧ linked us (un_next_idx u) l.
Proof.
  induction pre as [|y pre IH]; intros i Hl.
  - destruct Hl as (_ & u & Hu & Hl). eauto.
  - destruct Hl as (_ & u & _ & Hl). eauto.
Qed.

Lemma read_place s pre l : linked (semu s) (semu_list_idx s) (pre ++ l) →
  read_iref (place pre) s = Ok (head_idx l, s).
Proof.
  intros Hl. unfold place. destruct pre as [|x pre _] using rev_ind; cbn.
  - unfold read_iref. rewrite st_bind_unfold. cbn. by rewrite (linked_head _ _ _ Hl).
  - rewrite last_snoc. cbn. destruct (linked_last _ _ _ _ _ Hl) as (u & Hu & Hl').
    rewrite st_bind_unfold, (SEMU_eq s x u Hu). cbn. by rewrite (linked_head _ _ _ Hl').
Qed.

(** Changing the link after [pre]. *)
Lemma linked_relink us pre x l l' i i' u : NoDup (pre ++ [x]) → (∀ y, y ∈ pre ++ [x] → y ∉ l') →
  linked us i ((pre ++ [x]) ++ l) → us !! x = Some u → linked us i' l' →
  linked (<[x := SemUndo i' (un_proc u) (un_cnt u) (un_ent u)]> us) i ((pre ++ [x]) ++ l').
Proof.
  revert i. induction pre as [|y pre IH]; intros i Hnd Hni Hl Hu Hl'.
  - destruct Hl as (-> & _). split; [done |]. eexists. split.
    + apply list_lookup_insert_eq. by apply lookup_lt_Some in Hu.
    + apply linked_insert; [done |]. apply Hni. by constructor.
  - destruct Hl as (-> & v & Hv & Hl). apply NoDup_cons in Hnd as [Hy Hnd].
    split; [done |]. exists v. split.
    + rewrite list_lookup_insert_ne; [done |]. intros ->. apply Hy. set_solver.
    + apply IH; try done. intros z Hz. apply Hni. by constructor.
Qed.

(** [us'] is [us] without [j], up to links. *)
Definition freed (us us' : list sem_undo) (j : nat) : Prop :=
  length us' = length us ∧
  ∀ j2 u2, us' !! j2 = Some u2 → ∃ v, us !! j2 = Some v ∧ un_cnt u2 = un_cnt v ∧ un_ent u2 = un_ent v ∧
    un_proc u2 = if decide (j2 = j) then None else un_proc v.

Lemma freed_owns us us' j q j2 u2 : freed us us' j → owns us' q j2 u2 →
  j2 ≠ j ∧ ∃ v, owns us q j2 v ∧ un_ent v = un_ent u2.
Proof.
  intros [_ H] [H2 Hq]. destruct (H _ _ H2) as (v & Hv & _ & He & Hp). case_decide; [congruence |].
  split; [done |]. exists v. split; [split; congruence | done].
Qed.

Lemma freed_ok lim us us' i i' l l' j : undos_ok lim us i l → freed us us' j → l ≡ₚ j :: l' →
  linked us' i' l' → undos_ok lim us' i' l'.
Proof.
  intros Hok Hfr Hperm Hl. pose proof Hok as []. pose proof Hfr as [Hlen Hf].
  assert (Hnd : NoDup (j :: l')) by by rewrite <- Hperm. apply NoDup_cons in Hnd as [Hj Hnd].
  constructor; try done.
  - intros j2 u2 H2. destruct (Hf _ _ H2) as (v & Hv & _ & _ & Hp). rewrite Hp. case_decide as Hd.
    + subst. split; [done |]. by intros [? ?].
    + rewrite <- (uo_used0 j2 v Hv), Hperm, elem_of_cons. naive_solver.
  - intros p j1 j2 u1 u2 (? & v1 & H1 & _)%(freed_owns _ _ _ _ _ _ Hfr) (? & v2 & H2 & _)%(freed_owns _ _ _ _ _ _ Hfr). eauto.
  - intros j2 u2 H2 Hs. destruct (Hf _ _ H2) as (v & Hv & Hc & He & Hp). case_decide; [by rewrite Hp in Hs; destruct Hs |].
    unfold struct_ok. rewrite Hc, He. apply (uo_structs0 j2 v Hv). by rewrite <- Hp.
Qed.

Lemma freed_map lim us us' i i' l l' j u q : undos_ok lim us i l → undos_ok lim us' i' l' → freed us us' j →
  us !! j = Some u →
  undo_map us' q = if bool_decide (un_proc u = Some q) then ∅ else undo_map us q.
Proof.
  intros Hok Hok' Hfr Hu. case_bool_decide as Hq.
  - apply undo_map_none. intros j2 u2 (Hne & v & Hv & _)%(freed_owns _ _ _ _ _ _ Hfr).
    destruct Hne. by apply (uo_procs _ _ _ _ Hok q j2 j v u).
  - destruct (owner_cases us q) as [(j2 & v & Hv)|Hno].
    + rewrite (undo_map_owner _ _ _ _ q j2 v Hok Hv). destruct Hv as [Hv Hvq].
      destruct Hfr as [Hlen Hf]. destruct (lookup_lt_is_Some_2 us' j2) as [u2 H2].
      { rewrite Hlen. by apply lookup_lt_Some in Hv. }
      destruct (Hf _ _ H2) as (v' & Hv' & _ & He & Hp). simplify_eq. case_decide; [by simplify_eq |].
      rewrite (undo_map_owner _ _ _ _ q j2 u2 Hok'); [by rewrite He | split; [done | congruence]].
    + rewrite (undo_map_none us q Hno). apply undo_map_none. intros j2 u2 (_ & v & Hv & _)%(freed_owns _ _ _ _ _ _ Hfr).
      by apply (Hno j2 v).
Qed.

Lemma with_undos_semu s us : with_semu s us = with_undos s (semu_list_idx s) us.
Proof. done. Qed.

(** What [purge] does with an empty structure, and [semexit] at its end. *)
Lemma unlink_spec lim s pre j l u :
  undos_ok lim (semu s) (semu_list_idx s) (pre ++ j :: l) → semu s !! j = Some u →
  ∃ s1 i' us', put_semu (Z.of_nat j) (SemUndo (un_next_idx u) None (un_cnt u) (un_ent u)) s = Ok ((), s1) ∧
    write_iref (place pre) (un_next_idx u) s1 = Ok ((), with_undos s i' us') ∧
    freed (semu s) us' j ∧ undos_ok lim us' i' (pre ++ l).
Proof.
  intros Hok Hu. pose proof (lookup_lt_Some _ _ _ Hu) as Hlt.
  set (u0 := SemUndo (un_next_idx u) None (un_cnt u) (un_ent u)).
  assert (Hnd := uo_nodup _ _ _ _ Hok). assert (Hl := uo_linked _ _ _ _ Hok).
  assert (Hperm : pre ++ j :: l ≡ₚ j :: pre ++ l) by (by rewrite <- Permutation_middle).
  assert (Hj : j ∉ pre ++ l). { rewrite Hperm in Hnd. by apply NoDup_cons in Hnd as [? _]. }
  assert (Hnext : linked (<[j := u0]> (semu s)) (un_next_idx u) l).
  { destruct (linked_app _ _ _ _ Hl) as [i' (_ & v & Hv & Hl2)]. simplify_eq.
    apply linked_insert; [done |]. set_solver. }
  assert (Hf0 : freed (semu s) (<[j := u0]> (semu s)) j).
  { split; [apply length_insert |]. intros j2 u2 H2. case_decide as Hd.
    - subst. rewrite list_lookup_insert_eq in H2 by done. apply (inj Some) in H2 as <-. by exists u.
    - rewrite list_lookup_insert_ne in H2 by done. by exists u2. }
  eexists. rewrite put_semu_eq by done. destruct pre as [|x pre _] using rev_ind.
  - exists (un_next_idx u), (<[j := u0]> (semu s)). split_and!; [done | done | done |].
    by apply (freed_ok lim (semu s) _ (semu_list_idx s) _ ([] ++ j :: l) _ j).
  - assert (Hx : x ≠ j) by set_solver. destruct (linked_last _ _ _ _ _ Hl) as (v & Hv & _).
    assert (Hv' : <[j := u0]> (semu s) !! x = Some v) by (by rewrite list_lookup_insert_ne).
    set (us' := <[x := SemUndo (un_next_idx u) (un_proc v) (un_cnt v) (un_ent v)]> (<[j := u0]> (semu s))).
    exists (semu_list_idx s), us'.
    assert (Hf : freed (semu s) us' j).
    { destruct Hf0 as [Hlen Hf0]. split; [unfold us'; by rewrite length_insert |]. intros j2 u2 H2.
      unfold us' in H2. destruct (decide (j2 = x)) as [->|Hne].
      - rewrite list_lookup_insert_eq in H2 by (by apply lookup_lt_Some in Hv'). apply (inj Some) in H2 as <-.
        exists v. by rewrite decide_False.
      - rewrite list_lookup_insert_ne in H2 by done. eauto. }
    split_and!; [done | | done |].
    + unfold place. rewrite last_snoc. cbn [write_iref].
      rewrite st_bind_unfold, (SEMU_eq _ x v) by done. rewrite put_semu_eq by (by apply lookup_lt_Some in Hv'). done.
    + apply (freed_ok lim (semu s) _ (semu_list_idx s) _ ((pre ++ [x]) ++ j :: l) _ j); try done.
      apply (linked_relink _ _ _ (j :: l) l _ _ v); try done.
      * by apply NoDup_app in Hnd as (? & _ & _).
      * intros y Hy Hyl. apply NoDup_app in Hnd as (_ & Hd & _). apply (Hd y Hy). by constructor.
      * eapply linked_ext; [exact Hl |]. intros y w Hy Hw. destruct (decide (y = j)) as [->|Hne].
        -- exists u0. rewrite list_lookup_insert_eq by done. split; [done |]. rewrite Hu in Hw. by apply (inj Some) in Hw as <-.
        -- exists w. by rewrite list_lookup_insert_ne.
Qed.

(** ** Structures for a process *)

(** [s'] differs from [s] in its undo structures, whose adjustments are the
    same but for those of [p]. *)
Record undos_step (lim : seminfo) (s s' : state) : Prop := {
  us_rest : ∃ i us ns, s' = State (semtot s) (sema s) (sem_pool s) i us ns (woken s);
  us_ok : ∃ l, undos_ok lim (semu s') (semu_list_idx s') l;
  us_nulls : ∃ ns, nulls s = ns ++ nulls s'
}.

Definition same_maps (s s' : state) : Prop := ∀ q, undo_map (semu s') q = undo_map (semu s) q.

Lemma undos_step_trans lim s1 s2 s3 : undos_step lim s1 s2 → undos_step lim s2 s3 → undos_step lim s1 s3.
Proof.
  intros [(i & us & ns & ->) _ [n1 H1]] [(i' & us' & ns' & ->) Hok [n2 H2]]. constructor.
  - by exists i', us', ns'.
  - done.
  - exists (n1 ++ n2). cbn in *. by rewrite <- (assoc_L (++)), <- H2.
Qed.

Lemma undos_step_with lim s i us l : undos_ok lim us i l → undos_step lim s (with_undos s i us).
Proof. intros Hok. constructor; [by exists i, us, (nulls s) | by exists l | by exists []]. Qed.

Lemma purge_spec lim l : ∀ fuel s pre d,
  undos_ok lim (semu s) (semu_list_idx s) (pre ++ l) → (length l < fuel)%nat →
  ∃ b s', purge fuel (place pre) d s = Ok (b, s') ∧ undos_step lim s s' ∧ same_maps s s' ∧
    length (semu s') = length (semu s) ∧
    (∀ q, (∀ j u, ¬ owns (semu s) q j u) → ∀ j u, ¬ owns (semu s') q j u) ∧
    (b = true → d = true ∨ ∃ j u, semu s' !! j = Some u ∧ un_proc u = None) ∧
    (∀ j u, semu s !! j = Some u → un_proc u = None → ∃ u', semu s' !! j = Some u' ∧ un_proc u' = None).
Proof.
  induction l as [|j l IH]; intros fuel s pre d Hok Hf; (destruct fuel as [|fuel]; [cbn in Hf; lia |]); cbn [purge].
  - rewrite st_bind_unfold, (read_place s pre []) by apply Hok. exists d, s. split; [done |].
    split; [by apply (undos_step_with lim s _ (semu s) (pre ++ [])) in Hok; destruct s |]. split_and!; try done; eauto.
  - assert (Hj : is_Some (semu s !! j)). { eapply linked_lookup; [apply Hok |]. set_solver. } destruct Hj as [u Hu].
    rewrite st_bind_unfold, (read_place s pre (j :: l)) by apply Hok. cbn [head_idx].
    rewrite (proj2 (Z.eqb_neq _ _)) by lia. rewrite st_bind_unfold, (SEMU_eq s j u Hu).
    assert (Hs : is_Some (un_proc u)) by (apply (uo_used _ _ _ _ Hok j u Hu); set_solver).
    destruct (Z.eqb_spec (un_cnt u) 0) as [Hc|Hc].
    2:{ replace (INext (Z.of_nat j)) with (place (pre ++ [j])) by (unfold place; by rewrite last_snoc).
        apply IH; [by rewrite <- (assoc_L (++)) | cbn in Hf; lia]. }
    destruct (unlink_spec lim s pre j l u Hok Hu) as (s1 & i' & us' & E1 & E2 & Hfr & Hok').
    rewrite st_bind_unfold, E1, st_bind_unfold, E2.
    destruct (IH fuel (with_undos s i' us') pre true Hok') as (b & s' & E & Hst & Hm & Hlen & Hno & Hb & Hfree); [cbn in Hf; lia |].
    exists b, s'. split; [done |]. split; [by eapply undos_step_trans; [eapply undos_step_with |] |].
    assert (Hgone : ∃ u', semu s' !! j = Some u' ∧ un_proc u' = None).
    { destruct (lookup_lt_is_Some_2 us' j) as [uj Huj]; [rewrite (proj1 Hfr); by apply lookup_lt_Some in Hu |].
      apply (Hfree j uj Huj). destruct (proj2 Hfr j uj Huj) as (v & _ & _ & _ & Hp). by rewrite decide_True in Hp. }
    split_and!.
    + intros q. rewrite Hm. cbn [semu with_undos]. rewrite (freed_map lim (semu s) us' _ _ _ _ j u q Hok Hok' Hfr Hu).
      case_bool_decide as Hq; [| done]. rewrite (undo_map_owner _ _ _ _ q j u Hok) by done.
      destruct (uo_structs _ _ _ _ Hok j u Hu Hs) as (Hcnt & _). destruct (un_ent u); [done | cbn in Hcnt; lia].
    + rewrite Hlen. apply Hfr.
    + intros q Hq. apply Hno. intros j2 u2 (_ & v & Hv & _)%(freed_owns _ _ _ _ _ _ Hfr). by apply (Hq j2 v).
    + intros _. right. destruct Hgone as (u' & ? & ?). by exists j, u'.
    + intros j2 u2 H2 Hn. destruct (lookup_lt_is_Some_2 us' j2) as [u3 H3]; [rewrite (proj1 Hfr); by apply lookup_lt_Some in H2 |].
      apply (Hfree j2 u3 H3). destruct (proj2 Hfr j2 u3 H3) as (v & Hv & _ & _ & Hp). case_decide; congruence.
Qed.

(** Taking a structure, when the process has none. *)
Lemma take_free_spec lim s p l : undos_ok lim (semu s) (semu_list_idx s) l → 0 <= semume lim →
  (∀ j u, ¬ owns (semu s) p j u) →
  ∃ r s', take_free p s = Ok (r, s') ∧
    match r with
    | Some i => undos_step lim s s' ∧ same_maps s s' ∧ length (semu s') = length (semu s) ∧
                ∃ j u, i = Z.of_nat j ∧ owns (semu s') p j u
    | None => s' = s ∧ ∀ j u, semu s !! j = Some u → is_Some (un_proc u)
    end.
Proof.
  intros Hok Hlim Hno. unfold take_free. rewrite st_bind_unfold. cbn [get].
  pose proof (find_free_spec (semu s) 0) as Hff. destruct (find_free (semu s) 0) as [r|]; [| by exists None, s].
  destruct Hff as (j & u & -> & Hu & Hn). pose proof (lookup_lt_Some _ _ _ Hu) as Hlt. rewrite Z.add_0_l.
  rewrite st_bind_unfold, put_semu_eq by done. eexists (Some (Z.of_nat j)), _. split; [done |].
  destruct (undos_ok_add lim (semu s) (semu_list_idx s) l j u p) as [Hok' Hm]; try done.
  split_and!; [exact (undos_step_with lim s (Z.of_nat j) _ _ Hok') | done | apply length_insert |].
  exists j. eexists. split; [done |]. split; [by apply list_lookup_insert_eq | done].
Qed.

Lemma undos_ok_grow lim us i l n : undos_ok lim us i l → undos_ok lim (us ++ replicate n zero_undo) i l ∧
  (∀ q, undo_map (us ++ replicate n zero_undo) q = undo_map us q) ∧
  (∀ q j u, owns (us ++ replicate n zero_undo) q j u → owns us q j u).
Proof.
  intros Hok. pose proof Hok as [].
  assert (Hold : ∀ j u, (us ++ replicate n zero_undo) !! j = Some u → us !! j = Some u ∨ (us !! j = None ∧ u = zero_undo)).
  { intros j u [Hu|(Hlen & Hu)]%lookup_app_Some; [by left |]. right. apply lookup_replicate in Hu as [-> _].
    split; [by apply lookup_ge_None | done]. }
  assert (Hown : ∀ q j u, owns (us ++ replicate n zero_undo) q j u → owns us q j u).
  { intros q j u [[H|[_ ->]]%Hold Hq]; [done |]. done. }
  assert (Hok' : undos_ok lim (us ++ replicate n zero_undo) i l).
  { constructor; try done.
    - eapply linked_ext; [exact uo_linked0 |]. intros j u _ Hu. exists u. split; [by apply lookup_app_l_Some | done].
    - intros j u [H|[H ->]]%Hold; [by apply uo_used0 |]. cbn. split; [| by intros [? ?]].
      intros Hj. apply (linked_lookup _ _ _ _ uo_linked0) in Hj as [? ?]. congruence.
    - intros p j j' u u' H1%Hown H2%Hown. eauto.
    - intros j u [H|[H ->]]%Hold Hs; [eauto |]. by destruct Hs. }
  split_and!; try done. intros q. destruct (owner_cases us q) as [(j & u & Hu)|Hno].
  - rewrite (undo_map_owner _ _ _ _ q j u Hok Hu). apply (undo_map_owner _ _ _ _ q j u Hok').
    destruct Hu as [Hu Hq]. split; [by apply lookup_app_l_Some | done].
  - rewrite !undo_map_none; [done | done |]. intros j u Hu%Hown. by apply (Hno j u).
Qed.

(** How the arrays' new sizes are rounded. *)
Lemma round_up_gt x k : 0 < k → x < (x / k + 1) * k.
Proof. intros H. pose proof (Z.mod_pos_bound x k H). rewrite (Z.div_mod x k) at 1 by lia. lia. Qed.

Lemma kheap_step lim s l : undos_ok lim (semu s) (semu_list_idx s) l →
  ∃ b s', kheap_alloc s = Ok (b, s') ∧ undos_step lim s s' ∧ semu s' = semu s ∧ semu_list_idx s' = semu_list_idx s ∧
    (true ∉ nulls s → b = false).
Proof.
  intros Hok. eexists _, _. split; [done |]. split_and!; try done.
  - constructor; [by eexists _, _, _ | by exists l |]. destruct (nulls s) as [|x ns] eqn:En; cbn; [by exists [] | by exists [x]].
  - destruct (nulls s) as [|[] ns]; cbn; [done | set_solver | done].
Qed.

Lemma grow_semu_spec lim s l n : undos_ok lim (semu s) (semu_list_idx s) l → Z.of_nat (length (semu s)) < n →
  ∃ b s', grow_semu_array lim n s = Ok (b, s') ∧ undos_step lim s s' ∧ same_maps s s' ∧
    (∀ q, (∀ j u, ¬ owns (semu s) q j u) → ∀ j u, ¬ owns (semu s') q j u) ∧
    (b = true → ∃ j u, semu s' !! j = Some u ∧ un_proc u = None).
Proof.
  intros Hok Hn. unfold grow_semu_array. rewrite st_bind_unfold. cbn [get]. rewrite (proj2 (Z.leb_gt _ _)) by lia.
  assert (Hself : undos_step lim s s) by (apply (undos_step_with lim s _ (semu s)) in Hok; by destruct s).
  destruct (Z.gtb_spec n (semmnu lim)) as [Hgt|Hle]; [by exists false, s |].
  destruct (kheap_step lim s l Hok) as (b & s1 & E1 & Hst & Hs1 & Hi1 & _). rewrite st_bind_unfold, E1.
  destruct b; [exists false, s1; split_and!; try done; [intros q; by rewrite Hs1 | by rewrite Hs1] |].
  set (k := Z.to_nat _). eexists true, (with_undos s1 (semu_list_idx s) (semu s ++ replicate k zero_undo)).
  destruct (undos_ok_grow lim (semu s) (semu_list_idx s) l k Hok) as (Hok3 & Hm3 & Hown3). split_and!.
  - unfold with_undos. by rewrite <- Hi1.
  - eapply undos_step_trans; [exact Hst |]. by eapply undos_step_with.
  - done.
  - intros q Hq j u Hu%Hown3. by apply (Hq j u).
  - intros _. exists (length (semu s)), zero_undo. split; [| done]. cbn. rewrite lookup_app_r, Nat.sub_diag by lia.
    assert (k ≠ 0%nat) by (pose proof (round_up_gt n SEMMNU_INC eq_refl); lia). by destruct k.
Qed.

(** A structure for a process without one, or no space. *)
Lemma semu_alloc_spec lim s p l : undos_ok lim (semu s) (semu_list_idx s) l → 0 <= semume lim →
  (∀ j u, ¬ owns (semu s) p j u) →
  ∃ r s', semu_alloc lim p s = Ok (r, s') ∧ undos_step lim s s' ∧ same_maps s s' ∧
    (r = -1 ∨ ∃ j u, r = Z.of_nat j ∧ owns (semu s') p j u).
Proof.
  intros Hok Hlim Hno. unfold semu_alloc. destruct (take_free_spec lim s p l Hok Hlim Hno) as (r & s1 & E & Hr).
  rewrite st_bind_unfold, E. destruct r as [i|].
  { destruct Hr as (Hst & Hm & _ & Hown). exists i, s1. split; [done |]. auto. }
  destruct Hr as [-> Hfull]. rewrite st_bind_unfold. cbn [get].
  pose proof (linked_length _ _ _ (uo_linked _ _ _ _ Hok) (uo_nodup _ _ _ _ Hok)) as Hll.
  destruct (purge_spec lim l (S (length (semu s))) s [] false) as (b & s2 & E2 & Hst & Hm & Hlen & Hno2 & Hb & _);
    [done | lia |]. change (place []) with IHead in E2. rewrite st_bind_unfold, E2.
  destruct (us_ok _ _ _ Hst) as [l2 Hok2].
  assert (Htake : ∀ s3 l3, undos_ok lim (semu s3) (semu_list_idx s3) l3 → undos_step lim s s3 → same_maps s s3 →
    (∀ j u, ¬ owns (semu s3) p j u) → (∃ j u, semu s3 !! j = Some u ∧ un_proc u = None) →
    ∃ i s4, take_free p s3 = Ok (Some i, s4) ∧ undos_step lim s s4 ∧ same_maps s s4 ∧
      ∃ j u, i = Z.of_nat j ∧ owns (semu s4) p j u).
  { intros s3 l3 Hok3 Hst3 Hm3 Hno3 (j & u & Hu & Hn).
    destruct (take_free_spec lim s3 p l3 Hok3 Hlim Hno3) as (r & s4 & E4 & Hr). destruct r as [i|].
    - destruct Hr as (Hst4 & Hm4 & _ & Hown). exists i, s4. split_and!; try done; [by eapply undos_step_trans |].
      intros q. by rewrite Hm4, Hm3.
    - destruct Hr as [_ Hr]. destruct (Hr j u Hu). congruence. }
  destruct b.
  - rewrite st_bind_unfold. cbn [negb]. destruct (Htake s2 l2) as (i & s4 & E4 & H4 & Hm4 & Hown); try done.
    + by apply Hno2.
    + by destruct (Hb eq_refl).
    + cbn [mret st_ret negb]. rewrite st_bind_unfold, E4. exists i, s4. auto.
  - destruct (grow_semu_spec lim s2 l2 (Z.of_nat (length (semu s)) + 1) Hok2) as (ok & s3 & E3 & Hst3 & Hm3 & Hno3 & Hfree); [lia |].
    rewrite st_bind_unfold, E3. destruct (us_ok _ _ _ Hst3) as [l3 Hok3].
    assert (undos_step lim s s3) by (by eapply undos_step_trans). assert (same_maps s s3) by (intros q; by rewrite Hm3).
    destruct ok; cbn [negb]; [| by exists (-1), s3; auto].
    destruct (Htake s3 l3) as (i & s4 & E4 & H4 & Hm4 & Hown); auto.
    rewrite st_bind_unfold, E4. exists i, s4. auto.
Qed.
