(* ===== verification/SemAdjust.v ===== *)
(** * System V semaphores: recording adjustments

    What [semundo_adjust] and the two loops of [semop] over a vector do to the
    maps of adjustments: recording a vector that fails half way and taking the
    part recorded back leaves every map as it was. *)

From S2P Require Import Prelude Ipc Sem SemSpec SemUndos.

(** ** Adjusting *)

Definition map_ok (m : gmap (Z * Z) Z) : Prop := map_Forall (λ _ v, - 2 ^ 15 <= v < 2 ^ 15 ∧ v ≠ 0) m.

Lemma s16_id v : - 2 ^ 15 <= v < 2 ^ 15 → s16 v = v.
Proof. intros H. apply swrap_small; cbn; lia. Qed.

Lemma s16_back v d : - 2 ^ 15 <= v < 2 ^ 15 → s16 (s16 (v + d) - d) = v.
Proof.
  intros H. rewrite <- (s16_id v H) at 2. apply swrap_cong. rewrite Zminus_mod, swrap_mod, <- Zminus_mod by lia.
  f_equal. lia.
Qed.

Lemma s16_nonzero d : - 2 ^ 15 <= d <= 2 ^ 15 → d ≠ 0 → s16 d ≠ 0.
Proof.
  intros H Hd Hz. pose proof (swrap_mod 16 d eq_refl) as Hm. rewrite Hz in Hm. change (0 mod 2 ^ 16) with 0 in Hm.
  symmetry in Hm. apply Z.mod_divide in Hm as [k Hk]; [| done]. cbn in *. lia.
Qed.

(** An amount that an operation can ask for. *)
Definition adj_ok (d : Z) : Prop := - 2 ^ 15 <= d <= 2 ^ 15 ∧ d ≠ 0.

Lemma adjust_ok m key d : map_ok m → map_ok (adjust m key d).
Proof.
  intros Hm. unfold adjust. case_match eqn:Hv; [by apply map_Forall_delete |].
  apply map_Forall_insert_2; [| done]. apply Z.eqb_neq in Hv. split; [| done]. pose proof (swrap_lt 16 (default 0 (m !! key) + d)).
  cbn in *. lia.
Qed.

(** Adjusting back. *)
Lemma adjust_back m key d : map_ok m → adj_ok d → adjust (adjust m key d) key (- d) = m.
Proof.
  intros Hm [Hd Hd0]. unfold adjust at 2. destruct (m !! key) as [v|] eqn:Hk; cbn [default from_option id].
  - destruct (Hm _ _ Hk) as [Hv Hv0]. pose proof (s16_back v d Hv) as Hb. unfold adjust.
    destruct (Z.eqb_spec (s16 (v + d)) 0) as [Hz|Hz].
    + rewrite lookup_delete_eq. cbn [default from_option id]. rewrite Hz in Hb. rewrite Z.add_opp_r, Hb.
      rewrite (proj2 (Z.eqb_neq _ _) Hv0), insert_delete_id; done.
    + rewrite lookup_insert_eq. cbn [default from_option id]. rewrite Z.add_opp_r, Hb.
      rewrite (proj2 (Z.eqb_neq _ _) Hv0), insert_insert_eq. by apply insert_id.
  - pose proof (s16_back 0 d ltac:(lia)) as Hb. rewrite Z.add_0_l in *. rewrite (proj2 (Z.eqb_neq _ _)) by by apply s16_nonzero.
    unfold adjust. rewrite lookup_insert_eq. cbn [default from_option id]. rewrite Z.add_opp_r, Hb. cbn.
    rewrite delete_insert_eq. by apply delete_id.
Qed.

(** ** One adjustment *)

Section adjusting.

Context (lim : seminfo) (Hume : 0 <= semume lim < 2 ^ 15).

Definition umap (s : state) (p : Z) : gmap (Z * Z) Z := undo_map (semu s) p.

Definition good (s : state) : Prop := ∃ l, undos_ok lim (semu s) (semu_list_idx s) l.

Definition owned (s : state) (p : Z) : Prop := ∃ j u, owns (semu s) p j u.

(** A hint where the structure of [p] is. *)
Definition hint (s : state) (p supidx : Z) : Prop :=
  supidx = -1 ∨ ∃ j u, supidx = Z.of_nat j ∧ owns (semu s) p j u.

Lemma good_map_ok s p : good s → map_ok (umap s p) ∧ Z.of_nat (size (umap s p)) <= semume lim.
Proof.
  intros [l Hok]. unfold umap. destruct (owner_cases (semu s) p) as [(j & u & Hu)|Hno].
  - rewrite (undo_map_owner _ _ _ _ p j u Hok Hu). destruct Hu as [Hu Hp].
    destruct (uo_structs _ _ _ _ Hok j u Hu) as (Hc & Hcm & Hnd & Hents); [by eexists |]. split.
    + intros key v (e & He & _ & <-)%ents_lookup_inv. by apply (proj1 (Forall_forall _ _) Hents).
    + rewrite ents_size by done. lia.
  - rewrite undo_map_none by done. rewrite map_size_empty. split; [apply map_Forall_empty | lia].
Qed.

(** The structure of [p] is found or made. *)
Definition su_result (p : Z) (s : state) (r : Z + Z) (s' : state) : Prop :=
  undos_step lim s s' ∧ same_maps s s' ∧
  match r with
  | inl e => e ≠ 0 ∧ ¬ owned s p
  | inr i => ∃ j u, i = Z.of_nat j ∧ owns (semu s') p j u ∧ (owned s p → s' = s)
  end.

Lemma undos_step_refl s : good s → undos_step lim s s.
Proof. intros [l Hok]. apply (undos_step_with lim s _ (semu s)) in Hok. by destruct s. Qed.

Lemma find_su_spec p supidx d s : good s → hint s p supidx → d ≠ 0 →
  ∃ found s1 r, (if supidx =? -1 then find_undo (S (length (semu s))) p (semu_list_idx s) else mret supidx) s = Ok (found, s) ∧
    (if found =? -1 then
         if d =? 0 then mret (inl 0)
         else i ← semu_alloc lim p; mret (if i =? -1 then inl ENOSPC else inr i)
       else mret (inr found)) s = Ok (r, s1) ∧ su_result p s r s1.
Proof.
  intros Hg Hh Hd. pose proof Hg as [l Hok].
  assert (Hhit : ∀ j u, owns (semu s) p j u → ∃ s1 r,
    (if Z.of_nat j =? -1 then if d =? 0 then mret (inl 0)
         else i ← semu_alloc lim p; mret (if i =? -1 then inl ENOSPC else inr i)
       else mret (inr (Z.of_nat j))) s = Ok (r, s1) ∧ su_result p s r s1).
  { intros j u Hu. exists s, (inr (Z.of_nat j)). rewrite (proj2 (Z.eqb_neq _ _)) by lia. split; [done |].
    split_and!; [by apply undos_step_refl | done |]. exists j, u. done. }
  destruct (Z.eqb_spec supidx (-1)) as [->|Hne].
  - destruct (find_undo_ok lim p s l Hok) as (r & -> & [(j & u & -> & Hu)|[-> Hno]]).
    + destruct (Hhit j u Hu) as (s1 & r & E & Hr). by exists (Z.of_nat j), s1, r.
    + destruct (semu_alloc_spec lim s p l Hok) as (i & s1 & E & Hst & Hm & Hi); [lia | done |].
      exists (-1). rewrite (proj2 (Z.eqb_neq d 0) Hd). rewrite Z.eqb_refl, st_bind_unfold, E.
      exists s1. eexists. split; [done |]. split; [done |]. split_and!; [done | done |].
      destruct Hi as [->|(j & u & -> & Hu)].
      * cbn. split; [done |]. intros (j & u & Hu). by apply (Hno j u).
      * rewrite (proj2 (Z.eqb_neq _ _)) by lia. exists j, u. split_and!; try done.
        intros (j2 & u2 & H2). by destruct (Hno j2 u2).
  - destruct Hh as [?|(j & u & -> & Hu)]; [done |]. destruct (Hhit j u Hu) as (s1 & r & E & Hr). by exists (Z.of_nat j), s1, r.
Qed.

(** [p]'s map becomes [m], the others' stay. *)
Definition maps_to (s s' : state) (p : Z) (m : gmap (Z * Z) Z) : Prop :=
  umap s' p = m ∧ ∀ q, q ≠ p → umap s' q = umap s q.

Lemma put_struct_spec p s j u u' : good s → owns (semu s) p j u →
  un_proc u' = un_proc u → un_next_idx u' = un_next_idx u → struct_ok lim u' →
  ∃ s', put_semu (Z.of_nat j) u' s = Ok ((), s') ∧ undos_step lim s s' ∧ maps_to s s' p (ents_map (un_ent u')) ∧
    owns (semu s') p j u'.
Proof.
  intros [l Hok] [Hu Hp] Hp' Hn' Hst. pose proof (lookup_lt_Some _ _ _ Hu) as Hlt.
  eexists. rewrite put_semu_eq by done. split; [done |]. split_and!.
  - rewrite with_undos_semu. eapply undos_step_with. apply (undos_ok_update lim _ _ l j u u'); try done.
  - unfold maps_to, umap. cbn. split.
    + rewrite (undo_map_insert _ _ _ _ _ u u' p Hok Hu Hp'). by rewrite bool_decide_true.
    + intros q Hq. rewrite (undo_map_insert _ _ _ _ _ u u' q Hok Hu Hp'). rewrite bool_decide_false; [done | congruence].
  - split; [by apply list_lookup_insert_eq | congruence].
Qed.

Lemma undos_step_good s s' : undos_step lim s s' → good s'.
Proof. by intros []. Qed.

(** The outcome of an adjustment. *)
Definition adjusted (p : Z) (key : Z * Z) (d : Z) (s : state) (eval supidx : Z) (s' : state) : Prop :=
  undos_step lim s s' ∧ hint s' p supidx ∧
  (eval = 0 ∧ owned s' p ∧ maps_to s s' p (adjust (umap s p) key d) ∨
   eval ≠ 0 ∧ same_maps s s' ∧ (owned s p → owned s' p)) ∧
  (owned s p → true ∉ nulls s → Z.of_nat (size (adjust (umap s p) key d)) <= semume lim → eval = 0).

Lemma adjust_new m key d : m !! key = None → adj_ok d → adjust m key d = <[key := s16 d]> m.
Proof.
  intros Hm [Hd H0]. unfold adjust. rewrite Hm. cbn [default from_option id]. rewrite Z.add_0_l.
  by rewrite (proj2 (Z.eqb_neq _ _)) by by apply s16_nonzero.
Qed.

Lemma semundo_adjust_spec p supidx semid semnum d s :
  good s → hint s p supidx → adj_ok d → 0 <= semnum < 2 ^ 15 →
  ∃ eval sup s', semundo_adjust lim p supidx semid semnum d s = Ok ((eval, sup), s') ∧
    adjusted p (semid, semnum) d s eval sup s'.
Proof.
  intros Hg Hh Hd Hnum. destruct (find_su_spec p supidx d s Hg Hh (proj2 Hd)) as (found & s1 & r & E1 & E2 & Hst & Hm & Hr).
  unfold semundo_adjust. rewrite st_bind_unfold. cbn [get]. rewrite st_bind_unfold, E1, st_bind_unfold, E2.
  destruct r as [e|i].
  { destruct Hr as [He Hno]. exists e, (-1), s1. split; [done |]. split_and!; [done | by left | right; split_and!; done | done]. }
  destruct Hr as (j & u & -> & Hu & Heq). pose proof (undos_step_good _ _ Hst) as Hg1. pose proof Hg1 as [l1 Hok1].
  assert (Hum : umap s p = ents_map (un_ent u)) by (rewrite <- (undo_map_owner _ _ _ _ p j u Hok1 Hu); symmetry; apply Hm).
  destruct (uo_structs _ _ _ _ Hok1 j u (proj1 Hu)) as (Hc & Hcm & Hnd & Hents); [by eexists; apply Hu |].
  assert (Hfin : ∀ u', un_proc u' = un_proc u → un_next_idx u' = un_next_idx u → struct_ok lim u' →
    ents_map (un_ent u') = adjust (umap s p) (semid, semnum) d → ∀ s2, undos_step lim s1 s2 → semu s2 = semu s1 →
    ∃ s3, put_semu (Z.of_nat j) u' s2 = Ok ((), s3) ∧ adjusted p (semid, semnum) d s 0 (Z.of_nat j) s3).
  { intros u' Hp' Hn' Hso Hents' s2 Hst2 Hs2. rewrite <- Hs2 in Hu.
    destruct (put_struct_spec p s2 j u u' (undos_step_good _ _ Hst2) Hu Hp' Hn' Hso) as (s3 & E3 & Hst3 & [Hmp Hmq] & Hu3).
    exists s3. split; [done |]. split_and!; [by eauto using undos_step_trans | by right; eauto | | done].
    left. split_and!; [done | by eexists _, _ |]. split; [by rewrite Hmp, Hents' |].
    intros q Hq. rewrite Hmq by done. unfold umap. rewrite Hs2. apply Hm. }
  rewrite st_bind_unfold, (SEMU_eq s1 j u (proj1 Hu)), st_bind_unfold. unfold liftr.
  pose proof (adjust_ent_spec semid semnum d (un_ent u) Hnd Hents (proj2 Hd)) as Ha.
  rewrite Hc, Nat2Z.id. destruct (adjust_ent _ _ _ _ _) as [[[l' del]|]|]; [| | done]; cbn [mbind res_bind].
  - destruct Ha as (Ham & Hand & Haok & Halen & _).
    destruct (Hfin (SemUndo (un_next_idx u) (un_proc u) (if del then s16 (Z.of_nat (length (un_ent u)) - 1) else Z.of_nat (length (un_ent u))) l'))
      with (s2 := s1) as (s3 & E3 & Had); try done.
    + split_and!; cbn; try done; destruct del; cbn in Halen; rewrite ?s16_id by lia; lia.
    + cbn [un_ent]. by rewrite Ham, Hum.
    + by apply undos_step_refl.
    + exists 0, (Z.of_nat j), s3. split; [| done]. by rewrite st_bind_unfold, E3.
  - rewrite (proj2 (Z.eqb_neq _ _) (proj2 Hd)). apply ents_none in Ha.
    assert (Hadj : adjust (umap s p) (semid, semnum) d = <[(semid, semnum) := s16 d]> (ents_map (un_ent u))).
    { rewrite Hum. by apply adjust_new. }
    assert (Hsize : size (adjust (umap s p) (semid, semnum) d) = S (length (un_ent u))).
    { rewrite Hadj, map_size_insert_None by done. by rewrite ents_size. }
    destruct (Z.eqb_spec (Z.of_nat (length (un_ent u))) (semume lim)) as [Hfull|Hfull].
    + exists EINVAL, (Z.of_nat j), s1. split; [done |].
      split_and!; [done | by right; eauto | right; split_and!; [done | done | by intros; eexists _, _] |].
      intros _ _. rewrite Hsize. lia.
    + destruct (kheap_step lim s1 l1 Hok1) as (b & s2 & Ek & Hst2 & Hs2 & Hi2 & Hb). rewrite st_bind_unfold, Ek.
      destruct b.
      * exists ENOMEM, (Z.of_nat j), s2. split; [done |].
        split_and!; [by eauto using undos_step_trans | right; rewrite Hs2; eauto | right; split_and!; [done | | ] |].
        -- intros q. rewrite Hs2. apply Hm.
        -- intros _. exists j, u. by rewrite Hs2.
        -- intros Hown Hnull. rewrite (Heq Hown) in Hb. by specialize (Hb Hnull).
      * destruct (Hfin (SemUndo (un_next_idx u) (un_proc u) (s16 (Z.of_nat (length (un_ent u)) + 1))
          (Undo (s16 d) (s16 semnum) semid :: un_ent u))) with (s2 := s2) as (s3 & E3 & Had); try done.
        -- rewrite s16_id by lia. rewrite (s16_id semnum) by lia. split_and!; cbn [un_cnt un_ent length]; [lia | lia | |].
           ++ rewrite fmap_cons. apply NoDup_cons. split; [by apply ents_none | done].
           ++ constructor; [| done]. split; [| apply s16_nonzero; apply Hd]. cbn. pose proof (swrap_lt 16 d). cbn in *. lia.
        -- cbn [un_ent]. rewrite ents_cons, Hadj. unfold ent_key. cbn. by rewrite (s16_id semnum) by lia.
        -- exists 0, (Z.of_nat j), s3. split; [| done]. by rewrite st_bind_unfold, E3.
Qed.

(** ** A vector *)

(** The adjustments after a vector has been recorded. *)
Definition record (semid : Z) (sops : list sembuf) (m : gmap (Z * Z) Z) : gmap (Z * Z) Z :=
  foldl (λ m sop, if wants_undo sop then adjust m (semid, sem_num sop) (- sem_op sop) else m) m sops.

Definition sop_wf (sop : sembuf) : Prop := 0 <= sem_num sop < 2 ^ 15 ∧ - 2 ^ 15 <= sem_op sop < 2 ^ 15.

Lemma wants_adj_ok sop : sop_wf sop → wants_undo sop = true → adj_ok (sem_op sop) ∧ adj_ok (- sem_op sop).
Proof.
  intros [_ Ho] [_ Hz]%andb_true_iff. apply negb_true_iff, Z.eqb_neq in Hz. unfold adj_ok. lia.
Qed.

(** [n] operations of the vector have been recorded. *)
Record recorded (p semid : Z) (s : state) (sops : list sembuf) (n : nat) (supidx : Z) (s' : state) : Prop := {
  rc_step : undos_step lim s s';
  rc_hint : hint s' p supidx;
  rc_maps : maps_to s s' p (record semid (take n sops) (umap s p));
  rc_sizes : ∀ k, (k <= n)%nat → Z.of_nat (size (record semid (take k sops) (umap s p))) <= semume lim;
  rc_owned : owned s' p ∨ Forall (λ sop, wants_undo sop = false) (take n sops);
  rc_mono : owned s p → owned s' p
}.

Lemma recorded_nil p semid s sops supidx : good s → hint s p supidx → recorded p semid s sops 0 supidx s.
Proof.
  intros Hg Hh. constructor; try done.
  - by apply undos_step_refl.
  - intros k Hk. replace k with 0%nat by lia. by apply good_map_ok.
  - by right.
Qed.

(** One more operation in front. *)
Lemma recorded_cons p semid s1 s2 s3 sop sops n supidx : good s1 →
  undos_step lim s1 s2 → (owned s1 p → owned s2 p) →
  maps_to s1 s2 p (record semid [sop] (umap s1 p)) → owned s2 p ∨ wants_undo sop = false →
  recorded p semid s2 sops n supidx s3 → recorded p semid s1 (sop :: sops) (S n) supidx s3.
Proof.
  intros Hg Hst Hmono [Hmp Hmq] Hw []. constructor; auto.
  - by eapply undos_step_trans.
  - destruct rc_maps0 as [Hp Hq]. split; [rewrite Hp, Hmp; done |]. intros q Hne. by rewrite Hq, Hmq.
  - intros [|k] Hk; [by apply good_map_ok |]. specialize (rc_sizes0 k ltac:(lia)). rewrite Hmp in rc_sizes0. exact rc_sizes0.
  - destruct Hw as [Hw|Hw]; [by left; auto |]. destruct rc_owned0 as [?|?]; [by left | right; by constructor].
Qed.

Lemma undo_loop_spec p semid sops : ∀ supidx i s,
  good s → hint s p supidx → Forall sop_wf sops →
  ∃ eval sup n s', undo_loop lim p semid supidx sops i s = Ok ((eval, sup, (i + n)%nat), s') ∧
    recorded p semid s sops n sup s' ∧
    (eval = 0 ∧ n = length sops ∨ eval ≠ 0 ∧ (n < length sops)%nat ∧ Exists (λ sop, wants_undo sop = true) sops).
Proof.
  induction sops as [|sop sops IH]; intros supidx i s Hg Hh Hwf; cbn [undo_loop].
  { exists 0, supidx, 0%nat, s. rewrite Nat.add_0_r. split; [done |]. split; [by apply recorded_nil | by left]. }
  apply Forall_cons in Hwf as [Hs Hwf]. destruct (wants_undo sop) eqn:Hw.
  - destruct (wants_adj_ok sop Hs Hw) as [_ Hadj].
    destruct (semundo_adjust_spec p supidx semid (sem_num sop) (- sem_op sop) s Hg Hh Hadj) as (eval & sup & s1 & E & Hst & Hh1 & Hout & _);
      [apply Hs |]. rewrite st_bind_unfold, E. destruct (Z.eqb_spec eval 0) as [->|He].
    + destruct Hout as [(_ & Hown & Hm)|[? _]]; [| done].
      destruct (IH sup (S i) s1) as (eval & sup2 & n & s2 & E2 & Hrc & Hn); [by eapply undos_step_good | done | done |].
      exists eval, sup2, (S n), s2. rewrite Nat.add_succ_r. split; [done |]. split.
      2:{ destruct Hn as [[? ?]|(? & ? & ?)]; [left | right]; split_and!; cbn [length]; try done; [lia | lia | by apply Exists_cons_tl]. }
      eapply recorded_cons; eauto. unfold record. cbn. by rewrite Hw.
    + destruct Hout as [(? & _)|(_ & Hm & Hown)]; [done |]. exists eval, sup, 0%nat, s1. rewrite Nat.add_0_r. split; [done |].
      split; [| right; split_and!; [done | cbn; lia | by apply Exists_cons_hd]]. constructor; try done.
      * split; [apply Hm | intros; apply Hm].
      * intros k Hk. replace k with 0%nat by lia. by apply good_map_ok.
      * by right.
  - destruct (IH supidx (S i) s Hg Hh Hwf) as (eval & sup & n & s2 & E2 & Hrc & Hn).
    exists eval, sup, (S n), s2. rewrite Nat.add_succ_r. split; [done |]. split.
    2:{ destruct Hn as [[? ?]|(? & ? & ?)]; [left | right]; split_and!; cbn [length]; try done; [lia | lia | by apply Exists_cons_tl]. }
    eapply recorded_cons; eauto; [by apply undos_step_refl | split; [| done]]. unfold record. cbn. by rewrite Hw.
Qed.

Lemma record_snoc semid l sop m : record semid (l ++ [sop]) m =
  if wants_undo sop then adjust (record semid l m) (semid, sem_num sop) (- sem_op sop) else record semid l m.
Proof. unfold record. by rewrite foldl_app. Qed.

Lemma record_map_ok semid l m : map_ok m → map_ok (record semid l m).
Proof.
  intros Hm. induction l as [|sop l IH] using rev_ind; [done |]. rewrite record_snoc. case_match; [| done]. by apply adjust_ok.
Qed.

Lemma unundo_loop_spec p semid m sops : ∀ supidx s,
  good s → hint s p supidx → Forall sop_wf sops → map_ok m →
  umap s p = record semid sops m → true ∉ nulls s →
  (∀ k, (k <= length sops)%nat → Z.of_nat (size (record semid (take k sops) m)) <= semume lim) →
  owned s p ∨ Forall (λ sop, wants_undo sop = false) sops →
  ∃ s', unundo_loop lim p semid supidx (rev sops) s = Ok ((), s') ∧ undos_step lim s s' ∧ maps_to s s' p m.
Proof.
  induction sops as [|sop sops IH] using rev_ind; intros supidx s Hg Hh Hwf Hmok Hm Hnull Hsz Hown.
  { exists s. split; [done |]. split; [by apply undos_step_refl | done]. }
  rewrite rev_app_distr. cbn [rev app unundo_loop]. apply Forall_app in Hwf as [Hwf [Hs _]%Forall_cons].
  rewrite record_snoc in Hm.
  assert (Hsz' : ∀ k, (k <= length sops)%nat → Z.of_nat (size (record semid (take k sops) m)) <= semume lim).
  { intros k Hk. specialize (Hsz k). rewrite take_app_le in Hsz by lia. apply Hsz. rewrite length_app. lia. }
  destruct (wants_undo sop) eqn:Hw.
  - assert (Hown' : owned s p). { destruct Hown as [?|[_ H]%Forall_app]; [done |]. apply Forall_cons in H as [H _]. congruence. }
    destruct (wants_adj_ok sop Hs Hw) as [Hadj Hadj'].
    assert (Hback : adjust (umap s p) (semid, sem_num sop) (sem_op sop) = record semid sops m).
    { rewrite Hm. rewrite <- (Z.opp_involutive (sem_op sop)) at 2. apply adjust_back; [by apply record_map_ok | done]. }
    destruct (semundo_adjust_spec p supidx semid (sem_num sop) (sem_op sop) s Hg Hh Hadj) as (eval & sup & s1 & E & Hst & Hh1 & Hout & Hz);
      [apply Hs |]. rewrite st_bind_unfold, E.
    assert (eval = 0) as ->.
    { apply Hz; [done | done |]. rewrite Hback, <- (take_ge sops (length sops)) by lia. by apply Hsz'. }
    destruct Hout as [(_ & Hown1 & [Hmp Hmq])|[? _]]; [| done]. rewrite Z.eqb_refl.
    destruct (IH sup s1) as (s2 & E2 & Hst2 & [Hp Hq]); try done.
    + by eapply undos_step_good.
    + by rewrite Hmp.
    + destruct (us_nulls _ _ _ Hst) as [ns Hns]. rewrite Hns in Hnull. set_solver.
    + by left.
    + exists s2. split; [done |]. split; [by eapply undos_step_trans |]. split; [done |]. intros q Hne. by rewrite Hq, Hmq.
  - destruct (IH supidx s) as (s2 & E2 & Hst2 & Hmp); try done.
    + destruct Hown as [?|[? _]%Forall_app]; [by left | by right].
    + by exists s2.
Qed.

End adjusting.
