(* ===== verification/SemClear.v ===== *)
(** * System V semaphores: dropping adjustments

    [semundo_clear] when a set is removed or its values are set, and the end
    of [semexit]. *)

From S2P Require Import Prelude Ipc Sem SemSpec SemUndos SemAdjust.

(** What clearing may leave of a map: nothing of the set if no semaphore is
    named; otherwise the entry of that semaphore goes, or the loop has
    stopped before it. *)
Definition cleared (semid semnum : Z) (m m' : gmap (Z * Z) Z) : Prop :=
  if semnum =? -1 then m' = filter (λ kv, kv.1.1 ≠ semid) m
  else m' = m ∨ m' = delete (semid, semnum) m.

Lemma cleared_empty semid semnum : cleared semid semnum ∅ ∅.
Proof. unfold cleared. case_match; [by rewrite map_filter_empty | by left]. Qed.

Lemma cleared_same_id semid semnum e l : une_id e = semid → semnum = -1 ∨ une_num e = semnum →
  ent_key e ∉ ent_key <$> l → ∀ m', cleared semid semnum (ents_map l) m' → cleared semid semnum (ents_map (e :: l)) m'.
Proof.
  intros Hid Hnum Hk m'. rewrite ents_cons. apply ents_none in Hk. unfold cleared. destruct (Z.eqb_spec semnum (-1)) as [->|Hne].
  - intros ->. rewrite map_filter_insert_False by (cbn; congruence). rewrite delete_id by done. done.
  - destruct Hnum as [?|<-]; [done |]. assert (Heq : ent_key e = (semid, une_num e)) by (unfold ent_key; congruence).
    rewrite <- Heq. intros Hm. right. rewrite delete_insert_eq, delete_id by done.
    destruct Hm as [->| ->]; [done |]. by rewrite delete_id.
Qed.

Lemma cleared_other_id semid semnum e l l' : une_id e ≠ semid →
  cleared semid semnum (ents_map l) (ents_map l') → cleared semid semnum (ents_map (e :: l)) (ents_map (e :: l')).
Proof.
  intros Hid. rewrite !ents_cons. unfold cleared. case_match.
  - intros ->. by rewrite map_filter_insert_True by done.
  - intros [->| ->]; [by left | right]. rewrite delete_insert_ne; [done |]. unfold ent_key. congruence.
Qed.

Lemma clear_ents_spec semid semnum l : NoDup (ent_key <$> l) →
  ∃ l' k, clear_ents semid semnum (length l) l = Ok (l', k) ∧ l' `sublist_of` l ∧
    Z.of_nat (length l') = Z.of_nat (length l) - k ∧ cleared semid semnum (ents_map l) (ents_map l').
Proof.
  induction l as [|e l IH]; intros Hnd; cbn [clear_ents length].
  { exists [], 0. split_and!; try done. apply cleared_empty. }
  rewrite fmap_cons in Hnd. apply NoDup_cons in Hnd as [Hk Hnd]. destruct (IH Hnd) as (l' & k & E & Hsub & Hlen & Hc).
  destruct (Z.eqb_spec (une_id e) semid) as [Hid|Hid].
  - destruct ((semnum =? -1) || (une_num e =? semnum)) eqn:Hn.
    + rewrite E. exists l', (k + 1). split_and!; [done | by apply sublist_cons | cbn [length]; lia |].
      apply cleared_same_id; try done. apply orb_true_iff in Hn. rewrite !Z.eqb_eq in Hn. done.
    + exists (e :: l), 0. split_and!; [done | done | cbn [length]; lia |].
      apply orb_false_iff in Hn as [Hn _]. unfold cleared. rewrite Hn. by left.
  - rewrite E. exists (e :: l'), k. split_and!; [done | by apply sublist_skip | cbn [length]; lia |]. by apply cleared_other_id.
Qed.

Section clearing.

Context (lim : seminfo) (Hume : 0 <= semume lim < 2 ^ 15).

Lemma struct_ok_sublist u l : struct_ok lim u → l `sublist_of` un_ent u →
  struct_ok lim (SemUndo (un_next_idx u) (un_proc u) (Z.of_nat (length l)) l).
Proof.
  intros (Hc & Hm & Hnd & He) Hs. pose proof (sublist_length _ _ Hs). split_and!; cbn; [done | lia | |].
  - by apply (sublist_NoDup _ _ Hnd), fmap_sublist.
  - apply Forall_forall. intros e Hin. apply (proj1 (Forall_forall _ _) He). apply sublist_submseteq in Hs. by eapply elem_of_submseteq.
Qed.

Lemma clear_loop_spec semid semnum l : ∀ fuel s pre,
  undos_ok lim (semu s) (semu_list_idx s) (pre ++ l) → (length l < fuel)%nat →
  ∃ s', clear_loop fuel semid semnum (head_idx l) s = Ok ((), s') ∧ undos_step lim s s' ∧ nulls s' = nulls s ∧
    ∀ q, (∀ j u, owns (semu s) q j u → j ∈ l → cleared semid semnum (umap s q) (umap s' q)) ∧
         ((∀ j u, owns (semu s) q j u → j ∉ l) → umap s' q = umap s q).
Proof.
  induction l as [|j l IH]; intros fuel s pre Hok Hf; (destruct fuel as [|fuel]; [cbn in Hf; lia |]); cbn [clear_loop head_idx].
  { exists s. split; [done |]. split_and!; [by apply undos_step_refl; eexists | done |]. intros q. split; [| done].
    intros j u _ Hj. by apply elem_of_nil in Hj. }
  assert (Hnd := uo_nodup _ _ _ _ Hok). apply NoDup_app in Hnd as (_ & _ & [Hj Hnd]%NoDup_cons).
  assert (Hl := uo_linked _ _ _ _ Hok). destruct (linked_app _ _ _ _ Hl) as [i (_ & u & Hu & Hl2)].
  assert (Hs : is_Some (un_proc u)) by (apply (uo_used _ _ _ _ Hok j u Hu); set_solver). destruct Hs as [q0 Hq0].
  rewrite (proj2 (Z.eqb_neq _ _)) by lia. rewrite st_bind_unfold, (SEMU_eq s j u Hu), st_bind_unfold. unfold liftr.
  pose proof (uo_structs _ _ _ _ Hok j u Hu ltac:(by eexists)) as Hso. pose proof Hso as (Hc & _ & Hnde & _).
  destruct (clear_ents_spec semid semnum (un_ent u) Hnde) as (l' & k & E & Hsub & Hlen & Hcl).
  rewrite Hc, Nat2Z.id, E. cbn [mbind res_bind]. rewrite <- Hlen.
  set (u' := SemUndo (un_next_idx u) (un_proc u) (Z.of_nat (length l')) l').
  assert (Hso' := struct_ok_sublist u l' Hso Hsub). fold u' in Hso'.
  destruct (put_struct_spec lim q0 s j u u') as (s1 & E1 & Hst1 & [Hm1 Hm1'] & Hown1); try done; [by eexists |].
  rewrite st_bind_unfold, E1. rewrite put_semu_eq in E1 by (by apply lookup_lt_Some in Hu).
  injection E1 as <-. set (s1 := with_semu s _) in *.
  assert (Hok1 : undos_ok lim (semu s1) (semu_list_idx s1) ((pre ++ [j]) ++ l)).
  { rewrite <- (assoc_L (++)). apply (undos_ok_update lim (semu s) _ _ j u u'); try done. }
  destruct (IH fuel s1 (pre ++ [j]) Hok1) as (s2 & E2 & Hst2 & Hn2 & Hq2); [cbn in Hf; lia |].
  rewrite (linked_head _ _ _ Hl2), E2. exists s2. split; [done |]. split_and!; [by eapply undos_step_trans | done |].
  assert (Huniq : ∀ q j2 u2, owns (semu s1) q j2 u2 → q = q0 ∧ j2 = j ∨ q ≠ q0 ∧ j2 ≠ j ∧ owns (semu s) q j2 u2).
  { intros q j2 u2 Ho. pose proof Ho as [H2 Hq]. destruct (decide (j2 = j)) as [->|Hne].
    - left. split; [| done]. destruct Hown1 as [Hw Hp]. congruence.
    - right. cbn in H2. rewrite list_lookup_insert_ne in H2 by done. split_and!; [| done | done]. intros ->.
      destruct Hne. by apply (uo_procs _ _ _ _ Hok q0 j2 j u2 u). }
  assert (Hj0 : ∀ j2 u2, owns (semu s1) q0 j2 u2 → j2 ∉ l).
  { intros j2 u2 [[_ ->]|[? _]]%Huniq; [done | done]. }
  intros q. destruct (Hq2 q) as [HA HB]. destruct (decide (q = q0)) as [->|Hne].
  - split; [| intros Hno; exfalso; apply (Hno j u); [done | by constructor]]. intros j2 u2 Ho _.
    rewrite HB by done. rewrite Hm1. unfold umap. by rewrite (undo_map_owner _ _ _ _ q0 j u Hok).
  - rewrite <- (Hm1' q Hne).
    assert (Hback : ∀ j2 u2, owns (semu s) q j2 u2 → j2 ≠ j ∧ owns (semu s1) q j2 u2).
    { intros j2 u2 [H2 Hq]. assert (j2 ≠ j) by congruence. split; [done |]. split; [| done]. cbn. by rewrite list_lookup_insert_ne. }
    split.
    + intros j2 u2 [Hj2 Ho]%Hback Hin. apply (HA j2 u2 Ho). set_solver.
    + intros Hno. apply HB. intros j2 u2 [[? _]|(_ & _ & Ho)]%Huniq Hin; [done |]. apply (Hno j2 u2 Ho). by constructor.
Qed.

Lemma semundo_clear_spec semid semnum s : good lim s →
  ∃ s', semundo_clear semid semnum s = Ok ((), s') ∧ undos_step lim s s' ∧ nulls s' = nulls s ∧
    ∀ q, cleared semid semnum (umap s q) (umap s' q).
Proof.
  intros [l Hok]. pose proof (linked_length _ _ _ (uo_linked _ _ _ _ Hok) (uo_nodup _ _ _ _ Hok)).
  destruct (clear_loop_spec semid semnum l (S (length (semu s))) s []) as (s' & E & Hst & Hn & Hq); [done | lia |].
  exists s'. unfold semundo_clear. rewrite st_bind_unfold. cbn [get]. rewrite (linked_head _ _ _ (uo_linked _ _ _ _ Hok)).
  split; [done |]. split_and!; [done | done |]. intros q. destruct (Hq q) as [HA HB].
  destruct (owner_cases (semu s) q) as [(j & u & Hu)|Hno].
  - apply (HA j u Hu). by eapply used_in_list.
  - rewrite HB by (intros j u Hu; by destruct (Hno j u)). unfold umap. rewrite undo_map_none by done. apply cleared_empty.
Qed.

End clearing.
