(* ===== verification/SemLayout.v ===== *)
(** * System V semaphores: the pool

    The allocated sets tile the pool: each begins where the one before it
    ends, and the last ends at [semtot].  Seen from outside, a slot holds
    nothing, or a set with its semaphores, wherever these lie. *)

From S2P Require Import Prelude Ipc Sem SemSpec SemUndos SemAdjust SemClear.

(** ** Tilings *)

Fixpoint tiled (ks : list semid_kernel) (base : Z) (order : list nat) (tot : Z) : Prop :=
  match order with
  | [] => base = tot
  | i :: order => ∃ k, ks !! i = Some k ∧ allocated k = true ∧ sem_base k = base ∧ 0 < sem_nsems k <= 2 ^ 15 ∧
                       tiled ks (base + sem_nsems k) order tot
  end.

Lemma tiled_le ks tot order : ∀ base, tiled ks base order tot → base <= tot.
Proof.
  induction order as [|i order IH]; intros base; cbn; [lia |]. intros (k & _ & _ & _ & Hn & Ht). specialize (IH _ Ht). lia.
Qed.

(** The tiling only depends on the sets in it. *)
Lemma tiled_ext ks ks' tot order : ∀ base, tiled ks base order tot →
  (∀ i k, i ∈ order → ks !! i = Some k → ∃ k', ks' !! i = Some k' ∧ allocated k' = allocated k ∧
     sem_base k' = sem_base k ∧ sem_nsems k' = sem_nsems k) → tiled ks' base order tot.
Proof.
  induction order as [|i order IH]; intros base; cbn; [done |]. intros (k & Hk & Ha & Hb & Hn & Ht) H.
  destruct (H i k) as (k' & Hk' & Ha' & Hb' & Hn'); [by constructor | done |].
  exists k'. split_and!; [done | congruence | congruence | lia | lia |]. rewrite Hn'. apply IH; [done |].
  intros j kj Hj. apply H. by constructor.
Qed.

Lemma tiled_elem ks tot order : ∀ base i, tiled ks base order tot → i ∈ order →
  ∃ k, ks !! i = Some k ∧ allocated k = true ∧ base <= sem_base k ∧ sem_base k + sem_nsems k <= tot ∧
       0 < sem_nsems k <= 2 ^ 15.
Proof.
  induction order as [|j order IH]; intros base i; cbn; [intros _ Hi; by apply elem_of_nil in Hi |].
  intros (k & Hk & Ha & Hb & Hn & Ht) [->|Hi]%elem_of_cons.
  - exists k. pose proof (tiled_le _ _ _ _ Ht). split_and!; try done; lia.
  - destruct (IH _ _ Ht Hi) as (k' & ? & ? & ? & ? & ?). exists k'. split_and!; try done; lia.
Qed.

Lemma tiled_app ks tot o1 o2 : ∀ base, tiled ks base (o1 ++ o2) tot ↔ ∃ mid, tiled ks base o1 mid ∧ tiled ks mid o2 tot.
Proof.
  induction o1 as [|i o1 IH]; intros base; cbn.
  - split; [intros H; by exists base | by intros (mid & -> & H)].
  - setoid_rewrite IH. split.
    + intros (k & ? & ? & ? & ? & mid & ? & ?). exists mid. split; [| done]. by exists k.
    + intros (mid & (k & ? & ? & ? & ? & ?) & ?). exists k. split_and!; try done; try lia. by exists mid.
Qed.

(** Two sets do not overlap. *)
Lemma tiled_disjoint ks tot order : ∀ base i j ki kj, NoDup order → tiled ks base order tot →
  i ∈ order → j ∈ order → i ≠ j → ks !! i = Some ki → ks !! j = Some kj →
  sem_base ki + sem_nsems ki <= sem_base kj ∨ sem_base kj + sem_nsems kj <= sem_base ki.
Proof.
  induction order as [|x order IH]; intros base i j ki kj Hnd Ht Hi Hj Hne Hki Hkj; [by apply elem_of_nil in Hi |].
  apply NoDup_cons in Hnd as [Hx Hnd]. destruct Ht as (k & Hk & Ha & Hb & Hn & Ht).
  apply elem_of_cons in Hi as [->|Hi]; apply elem_of_cons in Hj as [->|Hj]; [done | | |].
  - simplify_eq. destruct (tiled_elem _ _ _ _ _ Ht Hj) as (k' & ? & _ & ? & _). simplify_eq. by left.
  - simplify_eq. destruct (tiled_elem _ _ _ _ _ Ht Hi) as (k' & ? & _ & ? & _). simplify_eq. by right.
  - exact (IH _ i j ki kj Hnd Ht Hi Hj Hne Hki Hkj).
Qed.

(** ** The semaphores of a set *)

Definition sems (pool : list sem) (k : semid_kernel) : list sem :=
  take (Z.to_nat (sem_nsems k)) (drop (Z.to_nat (sem_base k)) pool).

Lemma sems_lookup pool k n : sems pool k !! n =
  if decide (n < Z.to_nat (sem_nsems k))%nat then pool !! (Z.to_nat (sem_base k) + n)%nat else None.
Proof.
  unfold sems. case_decide.
  - by rewrite lookup_take_lt, lookup_drop by done.
  - rewrite lookup_take_ge by lia. done.
Qed.

Lemma seg_sems s i k pre ms post : seg s i k pre ms post → sems (sem_pool s) k = ms.
Proof.
  intros []. unfold sems. rewrite sg_pool, sg_base, sg_nsems, !Nat2Z.id.
  by rewrite drop_app_length, take_app_length.
Qed.

(** Seen from outside: what a slot holds, without its place in the pool. *)
Definition aset : Type := semid_kernel * list sem.

Definition view (s : state) (i : nat) : option aset :=
  k ← sema s !! i; if allocated k then Some (set_base 0 k, sems (sem_pool s) k) else None.

Lemma view_eq s i k : sema s !! i = Some k →
  view s i = if allocated k then Some (set_base 0 k, sems (sem_pool s) k) else None.
Proof. intros H. unfold view. by rewrite H. Qed.

Lemma view_Some s i x : view s i = Some x ↔
  ∃ k, sema s !! i = Some k ∧ allocated k = true ∧ x = (set_base 0 k, sems (sem_pool s) k).
Proof.
  destruct (sema s !! i) as [k|] eqn:Hk; [rewrite (view_eq s i k Hk) | unfold view; rewrite Hk; cbn].
  - split; [case_match; intros; simplify_eq; eauto |]. intros (k' & ? & Ha & ->). simplify_eq. by rewrite Ha.
  - split; [done | by intros (k & ? & _)].
Qed.

(** ** The invariant *)

Section invariant.

Context (lim : seminfo).

Definition order_ok (s : state) (order : list nat) : Prop :=
  NoDup order ∧ tiled (sema s) 0 order (semtot s) ∧
  ∀ i k, sema s !! i = Some k → i ∈ order ↔ allocated k = true.

(** An entry is for a semaphore of an allocated set. *)
Definition key_ok (s : state) (key : Z * Z) : Prop :=
  ∃ i x, key.1 = Z.of_nat i ∧ view s i = Some x ∧ 0 <= key.2 < Z.of_nat (length x.2).

Record sem_ok (s : state) : Prop := {
  so_order : ∃ order, order_ok s order;
  so_tot : semtot s <= Z.of_nat (length (sem_pool s));
  so_vals : Forall val_ok (sem_pool s);
  so_good : good lim s;
  so_keys : ∀ q key v, umap s q !! key = Some v → key_ok s key
}.

Lemma sem_ok_range s i k : sem_ok s → sema s !! i = Some k → allocated k = true →
  0 <= sem_base k ∧ sem_base k + sem_nsems k <= semtot s ∧ 0 < sem_nsems k <= 2 ^ 15.
Proof.
  intros [] Hk Ha. destruct so_order0 as (order & _ & Ht & Ho). apply (Ho i k Hk) in Ha.
  destruct (tiled_elem _ _ _ _ _ Ht Ha) as (k' & ? & _ & ? & ? & ?). by simplify_eq.
Qed.

Lemma sem_ok_seg s i k : sem_ok s → sema s !! i = Some k → allocated k = true →
  ∃ pre post, seg s i k pre (sems (sem_pool s) k) post ∧ Forall val_ok (sems (sem_pool s) k).
Proof.
  intros Hok Hk Ha. destruct (sem_ok_range s i k Hok Hk Ha) as (Hb & Ht & Hn). pose proof (so_tot s Hok).
  exists (take (Z.to_nat (sem_base k)) (sem_pool s)), (drop (Z.to_nat (sem_nsems k)) (drop (Z.to_nat (sem_base k)) (sem_pool s))).
  split.
  - constructor; [done | | |].
    + unfold sems. by rewrite take_drop, take_drop.
    + rewrite length_take. lia.
    + unfold sems. rewrite length_take, length_drop. lia.
  - unfold sems. apply Forall_take, Forall_drop, Hok.
Qed.

Lemma sems_length s i k : sem_ok s → sema s !! i = Some k → allocated k = true →
  Z.of_nat (length (sems (sem_pool s) k)) = sem_nsems k.
Proof. intros Hok Hk Ha. destruct (sem_ok_seg s i k Hok Hk Ha) as (pre & post & [] & _). lia. Qed.

(** Changing the semaphores of one set does not touch the others. *)
Lemma view_seg_other s i k pre ms post ms' j : sem_ok s → seg s i k pre ms post → allocated k = true →
  length ms' = length ms → j ≠ i → view (with_pool s (pre ++ ms' ++ post)) j = view s j.
Proof.
  intros Hok Hseg Ha Hlen Hne. unfold view. cbn [sema with_pool]. destruct (sema s !! j) as [kj|] eqn:Hkj; [| done]. cbn.
  destruct (allocated kj) eqn:Haj; [| done]. do 2 f_equal. cbn [sem_pool with_pool].
  destruct (so_order _ Hok) as (order & Hnd & Ht & Ho). pose proof Hseg as [].
  assert (Hdis := tiled_disjoint _ _ _ _ i j k kj Hnd Ht (proj2 (Ho i k sg_set) Ha) (proj2 (Ho j kj Hkj) Haj) ltac:(done) sg_set Hkj).
  destruct (sem_ok_range s j kj Hok Hkj Haj) as (Hbj & _ & Hnj).
  apply list_eq. intros n. rewrite !sems_lookup. case_decide as Hn; [| done]. rewrite sg_pool.
  set (x := (Z.to_nat (sem_base kj) + n)%nat). destruct (decide (x < length pre)%nat).
  - by rewrite !lookup_app_l by done.
  - rewrite !(lookup_app_r pre) by lia. assert (length ms <= x - length pre)%nat by lia.
    rewrite !lookup_app_r by lia. by rewrite Hlen.
Qed.

End invariant.
