(* ===== verification/SemOps.v ===== *)
(** * System V semaphores: operations

    The specification of [semop] on what is seen of the sets and of the
    adjustments, and that its sections meet it. *)

From S2P Require Import Prelude Ipc Sem SemSpec SemUndos SemAdjust SemClear SemLayout.

(** ** What is seen *)

Record astate := AState { asets : nat → option aset; aundos : Z → gmap (Z * Z) Z }.

Definition abst (s : state) : astate := AState (view s) (umap s).

(** Slot [i] now holds [x]; the other slots are as before. *)
Definition set_to (a a' : astate) (i : nat) (x : option aset) : Prop :=
  asets a' i = x ∧ ∀ j, j ≠ i → asets a' j = asets a j.

Definition sets_same (a a' : astate) : Prop := ∀ j, asets a' j = asets a j.

(** The adjustments of [p] are now [m]; those of others are as before. *)
Definition undo_to (a a' : astate) (p : Z) (m : gmap (Z * Z) Z) : Prop :=
  aundos a' p = m ∧ ∀ q, q ≠ p → aundos a' q = aundos a q.

Definition undos_same (a a' : astate) : Prop := ∀ q, aundos a' q = aundos a q.

Definition same (a a' : astate) : Prop := sets_same a a' ∧ undos_same a a'.

(** Adds to the number of those who wait for a semaphore. *)
Definition count (d : Z) (sop : sembuf) (m : sem) : sem :=
  if sem_op sop =? 0 then set_zcnt (u16 (semzcnt m + d)) m else set_ncnt (u16 (semncnt m + d)) m.
Definition counted (d : Z) (sop : sembuf) (ms : list sem) : list sem :=
  alter (count d sop) (Z.to_nat (sem_num sop)) ms.

(** A pass over a vector: everything or nothing, but for a semaphore number
    that is out of range, where the operations before it have been done. *)
Definition spec_attempt (p now : Z) (i : nat) (sops : list sembuf) (r : semop_state) (a a' : astate) : Prop :=
  ∃ k ms, asets a i = Some (k, ms) ∧
  match judge ms [] sops with
  | VDone =>
      r = SReturn 0 ∧ set_to a a' i (Some (set_otime now k, stamp p sops (shift (delta sops) ms))) ∧
      undo_to a a' p (record (Z.of_nat i) sops (aundos a p)) ∨
      (∃ e, e ≠ 0 ∧ r = SReturn e) ∧ same a a' ∧ Exists (λ sop, wants_undo sop = true) sops
  | VBlocked _ sop =>
      if tst (sem_flg sop) IPC_NOWAIT then r = SReturn EAGAIN ∧ same a a'
      else (∃ un, r = SSleep sop un) ∧ in_set ms sop ∧ set_to a a' i (Some (k, counted 1 sop ms)) ∧ undos_same a a'
  | VFbig n => r = SReturn EFBIG ∧ set_to a a' i (Some (k, shift (delta (take n sops)) ms)) ∧ undos_same a a'
  end.

(** The set that an identifier names. *)
Definition named (a : astate) (id : Z) : option aset :=
  x ← asets a (Z.to_nat (IPCID_TO_IX id));
  if _seq (sem_perm x.1) =? IPCID_TO_SEQ id then Some x else None.

Definition spec_semop (p : Z) (c : cred) (mac now id nsops : Z) (copyin : Z + list sembuf) (r : semop_state)
    (a a' : astate) : Prop :=
  match named a id with
  | None => r = SReturn EINVAL ∧ same a a'
  | Some (k, ms) =>
      let e := ipcperm c (sem_perm k) IPC_W in
      if negb (e =? 0) then r = SReturn e ∧ same a a'
      else if (nsops <? 0) || (nsops >? SEMOPM) then r = SReturn E2BIG ∧ same a a'
      else match copyin with
           | inl e => r = SReturn e ∧ same a a'
           | inr sops =>
               if negb (mac =? 0) then r = SReturn mac ∧ same a a'
               else spec_attempt p now (Z.to_nat (IPCID_TO_IX id)) sops r a a'
           end
  end.

(** The end of a sleep: the set may have gone; otherwise the count goes down
    and, unless the sleep was interrupted, there is another pass. *)
Definition spec_wake (p now id : Z) (sops : list sembuf) (sop : sembuf) (err : Z) (r : semop_state)
    (a a' : astate) : Prop :=
  let i := Z.to_nat (IPCID_TO_IX id) in
  match named a id with
  | Some (k, ms) =>
      if sem_num sop <? Z.of_nat (length ms) then
        ∃ a1, set_to a a1 i (Some (k, counted (-1) sop ms)) ∧ undos_same a a1 ∧
          if err =? 0 then spec_attempt p now i sops r a1 a' else r = SReturn EINTR ∧ same a1 a'
      else r = SReturn (if err =? 0 then EIDRM else EINTR) ∧ same a a'
  | None => r = SReturn (if err =? 0 then EIDRM else EINTR) ∧ same a a'
  end.

(** ** Steps of the state *)

Section ops.

Context (lim : seminfo) (Hume : 0 <= semume lim < 2 ^ 15).

Lemma same_refl a : same a a.
Proof. done. Qed.

(** Changing a set and adjustments. *)
Lemma sem_ok_step s i k pre ms post s' k' ms' :
  sem_ok lim s → seg s i k pre ms post → allocated k = true →
  semtot s' = semtot s → sema s' = <[i := k']> (sema s) → sem_pool s' = pre ++ ms' ++ post →
  length ms' = length ms → Forall val_ok ms' →
  allocated k' = true → sem_base k' = sem_base k → sem_nsems k' = sem_nsems k →
  good lim s' → (∀ q key v, umap s' q !! key = Some v → key_ok s key) →
  sem_ok lim s' ∧ set_to (abst s) (abst s') i (Some (set_base 0 k', ms')).
Proof.
  intros Hok Hseg Ha Htot Hsema Hpool Hlen Hvals Ha' Hb' Hn' Hgood Hkeys.
  pose proof (lookup_lt_Some _ _ _ (sg_set _ _ _ _ _ _ Hseg)) as Hi.
  assert (Hi' : sema s' !! i = Some k') by (by rewrite Hsema, list_lookup_insert_eq).
  assert (Hseg' : seg s' i k' pre ms' post).
  { constructor; [done | done | rewrite Hb'; apply Hseg | rewrite Hn', Hlen; apply Hseg]. }
  assert (Hset : set_to (abst s) (abst s') i (Some (set_base 0 k', ms'))).
  { split; cbn.
    - rewrite (view_eq s' i k' Hi'), Ha'. by rewrite (seg_sems _ _ _ _ _ _ Hseg').
    - intros j Hj. rewrite <- (view_seg_other lim s i k pre ms post ms' j Hok Hseg Ha Hlen Hj). unfold view. cbn.
      by rewrite Hsema, list_lookup_insert_ne, Hpool by done. }
  split; [| done]. destruct Hset as [Hset Hother]. pose proof (sg_set _ _ _ _ _ _ Hseg) as Hset0. destruct Hok. constructor.
  - destruct so_order as (order & Hnd & Ht & Ho). exists order. split_and!; [done | |].
    + rewrite Htot. eapply tiled_ext; [exact Ht |]. intros j kj Hj Hkj. destruct (decide (j = i)) as [->|Hne].
      * exists k'. simplify_eq. rewrite Ha, Ha'. done.
      * exists kj. by rewrite Hsema, list_lookup_insert_ne.
    + intros j kj Hkj. destruct (decide (j = i)) as [->|Hne].
      * assert (kj = k') as -> by congruence. rewrite Ha'. rewrite (Ho i k Hset0). by rewrite Ha.
      * rewrite Hsema, list_lookup_insert_ne in Hkj by done. by apply Ho.
  - rewrite Htot, Hpool. rewrite (sg_pool _ _ _ _ _ _ Hseg) in so_tot. rewrite !length_app in *. by rewrite Hlen.
  - rewrite Hpool. rewrite (sg_pool _ _ _ _ _ _ Hseg) in so_vals. rewrite !Forall_app in *. naive_solver.
  - done.
  - intros q key v Hk. destruct (Hkeys q key v Hk) as (j & x & Hj & Hx & Hr). destruct (decide (j = i)) as [->|Hne].
    + exists i. eexists. split_and!; [done | exact Hset | |]; apply view_Some in Hx as (kx & Hkx & _ & ->);
        simplify_eq; cbn in *; rewrite ?(seg_sems _ _ _ _ _ _ Hseg) in Hr; lia.
    + exists j, x. split_and!; try done; [by rewrite <- Hx; apply Hother | lia | lia].
Qed.

(** Changing adjustments only. *)
Lemma sem_ok_undos s s' : sem_ok lim s → undos_step lim s s' →
  (∀ q key v, umap s' q !! key = Some v → key_ok s key) →
  sem_ok lim s' ∧ sets_same (abst s) (abst s').
Proof.
  intros Hok Hst Hkeys. destruct (us_rest _ _ _ Hst) as (i & us & ns & Heq).
  assert (Hv : ∀ j, view s' j = view s j) by (intros j; by rewrite Heq).
  split; [| done]. destruct Hok. constructor.
  - destruct so_order as (order & Ho). exists order. rewrite Heq. exact Ho.
  - by rewrite Heq.
  - by rewrite Heq.
  - by eapply undos_step_good.
  - intros q key v Hk. destruct (Hkeys q key v Hk) as (j & x & Hj & Hx & Hr). exists j, x. by rewrite Hv.
Qed.

Lemma set_base_twice x y k : set_base x (set_base y k) = set_base x k.
Proof. done. Qed.

(** The state's other parts do not matter. *)
Lemma sem_ok_woken s w : sem_ok lim s →
  sem_ok lim (State (semtot s) (sema s) (sem_pool s) (semu_list_idx s) (semu s) (nulls s) w).
Proof. intros []. by constructor. Qed.

(** ** The keys of what is recorded *)

Lemma record_keys semid sops : ∀ m key v, record semid sops m !! key = Some v →
  is_Some (m !! key) ∨ ∃ sop, sop ∈ sops ∧ key = (semid, sem_num sop).
Proof.
  induction sops as [|sop sops IH] using rev_ind; intros m key v; [by left |]. rewrite record_snoc.
  assert (Hold : ∀ v, record semid sops m !! key = Some v →
    is_Some (m !! key) ∨ ∃ sop', sop' ∈ sops ++ [sop] ∧ key = (semid, sem_num sop')).
  { intros v' [?|(sop' & ? & ?)]%IH; [by left | right; exists sop'; set_solver]. }
  case_match; [| eauto]. unfold adjust. case_match.
  - intros [_ H']%lookup_delete_Some. eauto.
  - intros [[<- _]|[_ H']]%lookup_insert_Some; [| eauto]. right. exists sop. set_solver.
Qed.

Lemma key_ok_set s i k ms sop : view s i = Some (k, ms) → in_set ms sop → key_ok s (Z.of_nat i, sem_num sop).
Proof. intros Hv Hin. exists i, (k, ms). done. Qed.

(** ** Passes *)

(** What every step keeps. *)
Record stepped (s s' : state) : Prop := {
  st_ok : sem_ok lim s';
  st_nulls : true ∉ nulls s → true ∉ nulls s';
  st_len : (length (sema s) <= length (sema s'))%nat
}.

Lemma stepped_refl s : sem_ok lim s → stepped s s.
Proof. by constructor. Qed.

Lemma undos_step_nulls s s' : undos_step lim s s' → true ∉ nulls s → true ∉ nulls s'.
Proof. intros Hst. destruct (us_nulls _ _ _ Hst) as [ns ->]. set_solver. Qed.

Lemma undos_step_rest s s' : undos_step lim s s' →
  semtot s' = semtot s ∧ sema s' = sema s ∧ sem_pool s' = sem_pool s.
Proof. intros Hst. destruct (us_rest _ _ _ Hst) as (? & ? & ? & ->). done. Qed.

Lemma with_pool_id s l : sem_pool s = l → with_pool s l = s.
Proof. intros <-. by destruct s. Qed.

Lemma seg_ext s s' i k pre ms ms' post : seg s i k pre ms post → sema s' = sema s →
  sem_pool s' = pre ++ ms' ++ post → length ms' = length ms → seg s' i k pre ms' post.
Proof. intros [] Hs Hp Hl. constructor; [by rewrite Hs | done | done | lia]. Qed.

Lemma seg_view s i k pre ms post : seg s i k pre ms post → allocated k = true → view s i = Some (set_base 0 k, ms).
Proof. intros Hseg Ha. rewrite (view_eq s i k), Ha by apply Hseg. by rewrite (seg_sems _ _ _ _ _ _ Hseg). Qed.

(** Vectors as they are copied in. *)
Definition vec_ok (sops : list sembuf) : Prop := Forall (λ sop, sop_ok sop ∧ - 2 ^ 15 <= sem_op sop < 2 ^ 15) sops.

Lemma vec_sop_ok sops : vec_ok sops → Forall sop_ok sops.
Proof. intros H. eapply Forall_impl; [exact H |]. by intros sop []. Qed.

Lemma vec_sop_wf sops ms : vec_ok sops → Forall (in_set ms) sops → (Z.of_nat (length ms) <= 2 ^ 15) → Forall sop_wf sops.
Proof.
  intros Hv Hin Hlen. apply Forall_forall. intros sop Hs. rewrite Forall_forall in Hin. unfold vec_ok in Hv. rewrite Forall_forall in Hv.
  destruct (Hv sop Hs) as [_ Ho]. pose proof (Hin sop Hs) as Hi. unfold in_set in Hi. split; lia.
Qed.

Lemma in_set_shift d ms sops : Forall (in_set ms) sops → Forall (in_set (shift d ms)) sops.
Proof. intros H. eapply Forall_impl; [exact H |]. intros x. unfold in_set. by rewrite length_shift. Qed.

Lemma no_wants_record semid sops m : Forall (λ sop, wants_undo sop = false) sops → record semid sops m = m.
Proof.
  induction sops as [|sop sops IH] using rev_ind; [done |]. intros [H [Hs _]%Forall_cons]%Forall_app.
  rewrite record_snoc, Hs. auto.
Qed.

Lemma undo_flag_wants sops : undo_flag sops = false → Forall (λ sop, wants_undo sop = false) sops.
Proof.
  induction sops as [|sop sops IH]; [done |]. cbn. intros [H1 H2]%orb_false_iff. constructor; [| by apply IH].
  unfold wants_undo. by rewrite andb_comm.
Qed.

(** Recording the adjustments of a vector, if there are any. *)
Lemma record_phase p semid sops un s : good lim s → Forall sop_wf sops →
  un = true ∨ undo_flag sops = false →
  ∃ eval sup n s', (if un then undo_loop lim p semid (-1) sops 0 else mret (0, -1, O)) s = Ok ((eval, sup, n), s') ∧
    ((eval = 0 ∧ undos_step lim s s' ∧ maps_to s s' p (record semid sops (umap s p))) ∨
     (eval ≠ 0 ∧ recorded lim p semid s sops n sup s' ∧ Exists (λ sop, wants_undo sop = true) sops)).
Proof.
  intros Hg Hwf Hun. destruct un.
  - destruct (undo_loop_spec lim Hume p semid sops (-1) 0 s Hg) as (eval & sup & n & s' & E & Hrc & Hn); [by left | done |].
    exists eval, sup, n, s'. split; [done |]. destruct Hn as [[-> ->]|(? & ? & ?)]; [left | by right].
    split_and!; [done | apply Hrc |]. pose proof (rc_maps _ _ _ _ _ _ _ _ Hrc) as Hm. by rewrite take_ge in Hm.
  - exists 0, (-1), 0%nat, s. split; [done |]. left. destruct Hun as [?|Hf]; [done |]. apply undo_flag_wants in Hf.
    rewrite no_wants_record by done. split_and!; [done | by apply undos_step_refl | done].
Qed.

Lemma record_phase_keys s s' p i k ms sops : sem_ok lim s → view s i = Some (k, ms) → Forall (in_set ms) sops →
  maps_to s s' p (record (Z.of_nat i) sops (umap s p)) → ∀ q key v, umap s' q !! key = Some v → key_ok s key.
Proof.
  intros Hok Hv Hin [Hp Hq] q key v Hk. destruct (decide (q = p)) as [->|Hne].
  - rewrite Hp in Hk. apply record_keys in Hk as [[v' Hv']|(sop & Hs & ->)]; [by apply (so_keys _ _ Hok p key v') |].
    eapply key_ok_set; [done |]. rewrite Forall_forall in Hin. auto.
  - rewrite Hq in Hk by done. by apply (so_keys _ _ Hok q key v).
Qed.

(** The vector has been carried out on the set [i]. *)
Section done_part.

Context (s : state) (i : nat) (k : semid_kernel) (pre ms post : list sem) (p : Z) (sops : list sembuf).
Context (Hok : sem_ok lim s) (Hseg : seg s i k pre ms post) (Ha : allocated k = true) (Hvals : Forall val_ok ms).
Context (Hin : Forall (in_set ms) sops).

Let s1 : state := with_pool s (pre ++ shift (delta sops) ms ++ post).

(** The end of a call that succeeds. *)
Lemma commit_spec now (wk : bool) s2 : undos_step lim s1 s2 → maps_to s1 s2 p (record (Z.of_nat i) sops (umap s p)) →
  ∃ s', (set_pids p (Z.of_nat i) sops ;; k ← get_semid (Z.of_nat i); put_semid (Z.of_nat i) (set_otime now k) ;;
         (if wk then wakeup (Z.of_nat i) else mret ()) ;; mret (SReturn 0)) s2 = Ok (SReturn 0, s') ∧
    stepped s s' ∧ set_to (abst s) (abst s') i (Some (set_otime now (set_base 0 k), stamp p sops (shift (delta sops) ms))) ∧
    undo_to (abst s) (abst s') p (record (Z.of_nat i) sops (umap s p)).
Proof.
  intros Hst2 Hm2. destruct (undos_step_rest _ _ Hst2) as (Ht2 & Hs2 & Hp2). cbn in Ht2, Hs2, Hp2.
  assert (Hview := seg_view _ _ _ _ _ _ Hseg Ha).
  assert (Hseg2 : seg s2 i k pre (shift (delta sops) ms) post) by (by eapply seg_ext; [exact Hseg | | | apply length_shift]).
  pose proof (set_pids_spec s2 p i k pre post sops (shift (delta sops) ms)) as E3. rewrite (with_pool_id s2 _ Hp2) in E3.
  rewrite st_bind_unfold, E3; [| done | by apply in_set_shift].
  set (s3 := with_pool s2 _). assert (Hi3 : sema s3 !! i = Some k) by apply Hseg2.
  rewrite st_bind_unfold, (get_semid_eq s3 i k Hi3), st_bind_unfold, (put_semid_eq s3 i) by (by apply lookup_lt_Some in Hi3).
  set (s4 := with_sema s3 _).
  set (s5 := if wk then State (semtot s4) (sema s4) (sem_pool s4) (semu_list_idx s4) (semu s4) (nulls s4) (woken s4 ++ [Z.of_nat i]) else s4).
  exists s5. split; [rewrite st_bind_unfold; by destruct wk |].
  assert (Hum : ∀ q, umap s5 q = umap s2 q) by (by destruct wk).
  destruct (sem_ok_step s i k pre ms post s5 (set_otime now k) (stamp p sops (shift (delta sops) ms))) as [Hok5 Hset]; try done.
  1-3: destruct wk; cbn; rewrite ?Ht2, ?Hs2; done.
  - by rewrite length_stamp, length_shift.
  - apply stamp_ok, shift_ok.
  - pose proof (undos_step_good _ _ _ Hst2). by destruct wk.
  - intros q key v. rewrite Hum. by apply (record_phase_keys s s2 p i (set_base 0 k) ms sops).
  - split; [constructor; [done | |] |].
    + pose proof (undos_step_nulls _ _ Hst2). by destruct wk.
    + destruct wk; cbn; rewrite length_insert, Hs2; done.
    + split; [done |]. destruct Hm2 as [Hmp Hmq]. split; cbn; [by rewrite Hum |]. intros q Hq. rewrite Hum. by apply Hmq.
Qed.

(** The end of a call whose adjustments could not all be recorded. *)
Lemma revert_spec eval n sup s2 : Forall sop_wf sops → true ∉ nulls s → recorded lim p (Z.of_nat i) s1 sops n sup s2 →
  ∃ s', (unundo_loop lim p (Z.of_nat i) sup (rev (take n sops)) ;; rollback (Z.of_nat i) sops ;; mret (SReturn eval)) s2 =
      Ok (SReturn eval, s') ∧ stepped s s' ∧ same (abst s) (abst s').
Proof.
  intros Hwf Hnull [Hst2 Hh2 [Hmp Hmq] Hsz Hown _].
  destruct (unundo_loop_spec lim Hume p (Z.of_nat i) (umap s1 p) (take n sops) sup s2) as (s3 & E3 & Hst3 & [Hp3 Hq3]); try done.
  - by eapply undos_step_good.
  - by apply Forall_take.
  - apply (good_map_ok lim Hume s1 p). apply Hok.
  - by apply (undos_step_nulls _ _ Hst2).
  - intros k0 Hk0. rewrite length_take in Hk0. rewrite take_take. replace (k0 `min` n)%nat with k0 by lia. apply Hsz. lia.
  - rewrite st_bind_unfold, E3. assert (Hst13 := undos_step_trans _ _ _ _ Hst2 Hst3).
    destruct (undos_step_rest _ _ Hst13) as (Ht3 & Hs3 & Hp3'). cbn in Ht3, Hs3, Hp3'.
    pose proof (rollback_spec s3 i k pre post sops (shift (delta sops) ms)) as E4. rewrite (with_pool_id s3 _ Hp3') in E4.
    rewrite st_bind_unfold, E4; [| by eapply seg_ext; [exact Hseg | | | apply length_shift] | apply shift_ok | by apply in_set_shift].
    rewrite shift_back by done. eexists. split; [done |].
    assert (Hum : ∀ q, umap s3 q = umap s q). { intros q. destruct (decide (q = p)) as [->|Hq]; [done |]. by rewrite Hq3, Hmq. }
    destruct (sem_ok_step s i k pre ms post (with_pool s3 (pre ++ ms ++ post)) k ms) as [Hok5 [Hseti Hsetj]]; try done.
    + cbn. rewrite Hs3. symmetry. apply list_insert_id, Hseg.
    + exact (undos_step_good _ _ _ Hst13).
    + intros q key v. change (umap (with_pool _ _) q) with (umap s3 q). rewrite Hum. apply (so_keys _ _ Hok).
    + split; [constructor; [done | intros _; by apply (undos_step_nulls _ _ Hst13) | cbn; by rewrite Hs3] |].
      split; [| done]. intros j. destruct (decide (j = i)) as [->|Hne]; [| by apply Hsetj].
      rewrite Hseti. symmetry. exact (seg_view _ _ _ _ _ _ Hseg Ha).
Qed.

End done_part.

Lemma semop_done_spec s i k pre ms post p now sops wk un :
  sem_ok lim s → seg s i k pre ms post → allocated k = true → Forall val_ok ms → true ∉ nulls s →
  judge ms [] sops = VDone → vec_ok sops → un = true ∨ undo_flag sops = false →
  ∃ r s', semop_done lim p now (Z.of_nat i) sops wk un (with_pool s (pre ++ shift (delta sops) ms ++ post)) = Ok (r, s') ∧
    stepped s s' ∧ spec_attempt p now i sops r (abst s) (abst s').
Proof.
  intros Hok Hseg Ha Hvals Hnull Hj Hvec Hun.
  assert (Hin : Forall (in_set ms) sops) by (eapply judge_done_in; [done | by apply vec_sop_ok]).
  assert (Hwf : Forall sop_wf sops).
  { apply (vec_sop_wf _ ms Hvec Hin). destruct (sem_ok_range lim s i k Hok (sg_set _ _ _ _ _ _ Hseg) Ha) as (_ & _ & ?).
    rewrite (sg_nsems _ _ _ _ _ _ Hseg) in *. lia. }
  pose proof (seg_view _ _ _ _ _ _ Hseg Ha) as Hview. set (s1 := with_pool s _).
  destruct (record_phase p (Z.of_nat i) sops un s1) as (eval & sup & n & s2 & E2 & Hout); [apply Hok | done | done |].
  unfold semop_done. rewrite st_bind_unfold, E2. destruct Hout as [(-> & Hst2 & Hm2)|(He & Hrc & Hex)].
  - destruct (commit_spec s i k pre ms post p sops Hok Hseg Ha Hin now wk s2 Hst2 Hm2) as (s' & E & Hst & Hset & Hund).
    exists (SReturn 0), s'. split; [exact E |]. split; [done |]. exists (set_base 0 k), ms. split; [done |]. rewrite Hj. by left.
  - rewrite (proj2 (Z.eqb_neq _ _) He).
    destruct (revert_spec s i k pre ms post p sops Hok Hseg Ha Hvals Hin eval n sup s2 Hwf Hnull Hrc) as (s' & E & Hst & Hsame).
    exists (SReturn eval), s'. split; [exact E |]. split; [done |]. exists (set_base 0 k), ms. split; [done |]. rewrite Hj. right.
    split; [by eexists | done].
Qed.

(** Changing one semaphore's counts. *)
Lemma count_put s i k pre ms post sop m d : seg s i k pre ms post → ms !! Z.to_nat (sem_num sop) = Some m →
  0 <= sem_num sop → put_sem (sem_base k + sem_num sop) (count d sop m) s =
    Ok ((), with_pool s (pre ++ counted d sop ms ++ post)).
Proof.
  intros Hseg Hm Hn. pose proof (lookup_lt_Some _ _ _ Hm). replace (sem_num sop) with (Z.of_nat (Z.to_nat (sem_num sop))) at 1 by lia.
  rewrite (seg_put _ _ _ _ _ _ _ _ Hseg) by done. do 5 f_equal. unfold counted.
  apply list_eq. intros n. destruct (decide (n = Z.to_nat (sem_num sop))) as [->|Hne].
  - by rewrite list_lookup_insert_eq, list_lookup_alter_eq, Hm by done.
  - by rewrite list_lookup_insert_ne, list_lookup_alter_ne by done.
Qed.

Lemma counted_vals d sop ms : Forall val_ok ms → Forall val_ok (counted d sop ms).
Proof.
  intros H. apply Forall_lookup. intros n m Hn. unfold counted in Hn. rewrite list_lookup_alter in Hn. case_decide.
  - apply fmap_Some in Hn as (m0 & Hm0 & ->). pose proof (Forall_lookup_1 _ _ _ _ H Hm0) as Hv. unfold count. by case_match.
  - exact (Forall_lookup_1 _ _ _ _ H Hn).
Qed.

(** Changing the semaphores of a set only. *)
Lemma pool_step s i k pre ms post ms' : sem_ok lim s → seg s i k pre ms post → allocated k = true →
  length ms' = length ms → Forall val_ok ms' →
  let s' := with_pool s (pre ++ ms' ++ post) in
  stepped s s' ∧ set_to (abst s) (abst s') i (Some (set_base 0 k, ms')) ∧ undos_same (abst s) (abst s').
Proof.
  intros Hok Hseg Ha Hlen Hv s'.
  destruct (sem_ok_step s i k pre ms post s' k ms') as [Hok' Hset]; try done.
  - symmetry. apply list_insert_id, Hseg.
  - apply Hok.
  - apply (so_keys _ _ Hok).
Qed.

Lemma judge_blocked_take ms sops n sop : judge ms [] sops = VBlocked n sop → Forall sop_ok sops →
  Forall (in_set ms) (take n sops) ∧ in_set ms sop.
Proof.
  intros Hj Hok. destruct (judge_prefix _ _ _ _ _ Hj Hok) as (l1 & l2 & -> & -> & H1 & H2).
  cbn [length Nat.add]. by rewrite take_app_length.
Qed.

Lemma semop_attempt_spec s i k p now sops un :
  sem_ok lim s → sema s !! i = Some k → allocated k = true → true ∉ nulls s → vec_ok sops →
  ∃ r s', semop_attempt lim p now (Z.of_nat i) sops un s = Ok (r, s') ∧ stepped s s' ∧
    spec_attempt p now i sops r (abst s) (abst s').
Proof.
  intros Hok Hk Ha Hnull Hvec. destruct (sem_ok_seg lim s i k Hok Hk Ha) as (pre & post & Hseg & Hvals).
  set (ms := sems (sem_pool s) k) in *. pose proof (vec_sop_ok _ Hvec) as Hsops.
  destruct (try_ops_spec s i k pre ms post un sops [] false Hseg Hsops) as [wk E].
  assert (Hid : with_pool s (pre ++ shift (delta []) ms ++ post) = s).
  { apply with_pool_id. rewrite (sg_pool _ _ _ _ _ _ Hseg). do 2 f_equal. symmetry. exact (shift_zero ms Hvals). }
  rewrite Hid in E. change (undo_flag []) with false in E. rewrite orb_false_r in E. cbn [app length] in E.
  pose proof (seg_view _ _ _ _ _ _ Hseg Ha) as Hview.
  unfold semop_attempt. rewrite st_bind_unfold, E. destruct (judge ms [] sops) as [|n sop|n] eqn:Hj; cbn [try_of passed].
  - apply (semop_done_spec s i k pre ms post); try done. destruct un; [by left |]. cbn. destruct (undo_flag sops); auto.
  - destruct (judge_blocked_take _ _ _ _ Hj Hsops) as [Hin Hs].
    rewrite st_bind_unfold, (rollback_spec s i k pre post).
    2:{ apply (seg_with_pool s i k pre ms post _ Hseg), length_shift. } 2: apply shift_ok. 2: by apply in_set_shift.
    rewrite shift_back by done. rewrite with_pool_id by apply Hseg.
    destruct (tst (sem_flg sop) IPC_NOWAIT) eqn:Hnw.
    { exists (SReturn EAGAIN), s. split; [done |]. split; [by apply stepped_refl |]. exists (set_base 0 k), ms. split; [done |].
      rewrite Hj, Hnw. by split. }
    unfold in_set in Hs. destruct (lookup_lt_is_Some_2 ms (Z.to_nat (sem_num sop))) as [m Hm]; [lia |].
    rewrite st_bind_unfold, (get_semid_eq s i k Hk).
    pose proof (seg_get _ _ _ _ _ _ _ m Hseg Hm) as Hget. rewrite Z2Nat.id in Hget by lia.
    rewrite st_bind_unfold, Hget, st_bind_unfold. fold (count 1 sop m).
    rewrite (count_put s i k pre ms post sop m 1 Hseg Hm) by lia. eexists _, _. split; [done |].
    destruct (pool_step s i k pre ms post (counted 1 sop ms)) as (Hst & Hset & Hun); try done.
    + apply length_alter.
    + by apply counted_vals.
    + split; [done |]. exists (set_base 0 k), ms. split; [done |]. rewrite Hj, Hnw. split; [by eexists |]. split; [unfold in_set; lia |]. by split.
  - eexists _, _. split; [done |].
    destruct (pool_step s i k pre ms post (shift (delta (take n sops)) ms)) as (Hst & Hset & Hun); try done.
    + apply length_shift.
    + apply shift_ok.
    + split; [done |]. exists (set_base 0 k), ms. split; [done |]. by rewrite Hj.
Qed.

(** ** The calls *)

Lemma ipcid_ix id : 0 <= IPCID_TO_IX id < 2 ^ 16.
Proof. unfold IPCID_TO_IX. change 0xffff with (Z.ones 16). rewrite Z.land_ones by lia. apply Z.mod_pos_bound. lia. Qed.

(** The checks that find the set of an identifier. *)
Lemma named_spec s id : named (abst s) id =
  k ← sema s !! Z.to_nat (IPCID_TO_IX id);
  if allocated k && (_seq (sem_perm k) =? IPCID_TO_SEQ id) then Some (set_base 0 k, sems (sem_pool s) k) else None.
Proof.
  unfold named. cbn [asets abst]. unfold view. destruct (sema s !! _) as [k|]; [| done]. cbn.
  destruct (allocated k); [| done]. cbn. done.
Qed.

Definition copyin_ok (copyin : Z + list sembuf) : Prop := match copyin with inl _ => True | inr sops => vec_ok sops end.

Lemma semop_spec s p c mac now id nsops copyin :
  sem_ok lim s → true ∉ nulls s → copyin_ok copyin →
  ∃ r s', semop lim p c mac now id nsops copyin s = Ok (r, s') ∧ stepped s s' ∧
    spec_semop p c mac now id nsops copyin r (abst s) (abst s').
Proof.
  intros Hok Hnull Hcopy. pose proof (ipcid_ix id) as Hix. unfold semop, spec_semop. rewrite named_spec.
  rewrite st_bind_unfold. cbn [get]. rewrite (proj2 (Z.ltb_ge _ _)) by lia. cbn [orb].
  assert (Hstay : ∀ r : semop_state, ∃ r' s', Ok (r, s) = Ok (r', s') ∧ stepped s s' ∧ (r' = r ∧ same (abst s) (abst s'))).
  { intros r. exists r, s. split_and!; try done. }
  rewrite Z.geb_leb. destruct (sema s !! Z.to_nat (IPCID_TO_IX id)) as [k|] eqn:Hk; cbn [mbind option_bind].
  2:{ apply lookup_ge_None in Hk. rewrite (proj2 (Z.leb_le _ _)) by lia. apply Hstay. }
  pose proof (lookup_lt_Some _ _ _ Hk). rewrite (proj2 (Z.leb_gt _ _)) by lia.
  pose proof (get_semid_eq s _ k Hk) as Hget. rewrite Z2Nat.id in Hget by lia. rewrite st_bind_unfold, Hget.
  destruct (allocated k) eqn:Ha; cbn [negb andb]; [| apply Hstay].
  destruct (_ =? IPCID_TO_SEQ id); cbn [negb]; [| apply Hstay]. cbv zeta. cbn [set_base sem_perm].
  destruct (negb _); [apply Hstay |]. destruct (_ || _); [apply Hstay |]. destruct copyin as [e|sops]; [apply Hstay |].
  destruct (negb _); [apply Hstay |]. 
  pose proof (semop_attempt_spec s (Z.to_nat (IPCID_TO_IX id)) k p now sops false Hok Hk Ha Hnull Hcopy) as H'.
  by rewrite Z2Nat.id in H' by lia.
Qed.

Lemma set_to_trans a1 a2 a3 i x y : set_to a1 a2 i x → set_to a2 a3 i y → set_to a1 a3 i y.
Proof. intros [_ H1] [H2 H3]. split; [done |]. intros j Hj. by rewrite H3, H1. Qed.

Lemma semop_wake_spec s p now id sops sop un err :
  sem_ok lim s → true ∉ nulls s → vec_ok sops → IPCID_TO_IX id < Z.of_nat (length (sema s)) → 0 <= sem_num sop →
  ∃ r s', semop_wake lim p now id sops sop un err s = Ok (r, s') ∧ stepped s s' ∧
    spec_wake p now id sops sop err r (abst s) (abst s').
Proof.
  intros Hok Hnull Hvec Hid Hnum. pose proof (ipcid_ix id) as Hix. unfold semop_wake, spec_wake. rewrite named_spec.
  set (i := Z.to_nat (IPCID_TO_IX id)). assert (Hi : IPCID_TO_IX id = Z.of_nat i) by lia. rewrite Hi.
  destruct (lookup_lt_is_Some_2 (sema s) i) as [k Hk]; [lia |]. rewrite Hk. cbn [mbind option_bind].
  rewrite st_bind_unfold, (get_semid_eq s i k Hk).
  assert (Herr : (if (if negb (err =? 0) then EINTR else 0) =? EINTR then EINTR else EIDRM) = if err =? 0 then EIDRM else EINTR)
    by (by destruct (err =? 0)).
  assert (Hgone : ∃ r s', Ok (SReturn (if (if negb (err =? 0) then EINTR else 0) =? EINTR then EINTR else EIDRM), s) = Ok (r, s') ∧
    stepped s s' ∧ r = SReturn (if err =? 0 then EIDRM else EINTR) ∧ same (abst s) (abst s')).
  { rewrite Herr. eexists _, s. split; [done |]. split; [by apply stepped_refl | done]. }
  destruct (allocated k) eqn:Ha; cbn [negb andb orb]; [| exact Hgone].
  destruct (_ =? IPCID_TO_SEQ id); cbn [negb orb]; [| exact Hgone].
  destruct (sem_ok_seg lim s i k Hok Hk Ha) as (pre & post & Hseg & Hvals). set (ms := sems (sem_pool s) k) in *.
  rewrite Z.geb_leb, Z.leb_antisym, (sg_nsems _ _ _ _ _ _ Hseg).
  destruct (Z.ltb_spec (sem_num sop) (Z.of_nat (length ms))) as [Hlt|Hge]; cbn [negb]; [| exact Hgone].
  destruct (lookup_lt_is_Some_2 ms (Z.to_nat (sem_num sop))) as [m Hm]; [lia |].
  pose proof (seg_get _ _ _ _ _ _ _ m Hseg Hm) as Hget. rewrite Z2Nat.id in Hget by lia.
  rewrite st_bind_unfold, Hget, st_bind_unfold. 
  change (if sem_op sop =? 0 then set_zcnt (u16 (semzcnt m - 1)) m else set_ncnt (u16 (semncnt m - 1)) m) with (count (-1) sop m).
  rewrite (count_put s i k pre ms post sop m (-1) Hseg Hm) by lia. set (s1 := with_pool s _).
  destruct (pool_step s i k pre ms post (counted (-1) sop ms)) as (Hst & Hset & Hun); try done; [apply length_alter | by apply counted_vals |].
  fold s1 in Hst, Hset, Hun. destruct (Z.eqb_spec err 0) as [->|He]; cbn [negb Z.eqb].
  - destruct (semop_attempt_spec s1 i k p now sops un) as (r & s2 & E2 & Hst2 & Hsp); try done; [apply Hst |].
    exists r, s2. split; [done |]. split; [| by exists (abst s1)]. constructor; [apply Hst2 | intros; by apply Hst2 |].
    pose proof (st_len _ _ Hst2). done.
  - exists (SReturn EINTR), s1. split; [done |]. split; [done |]. exists (abst s1). done.
Qed.

End ops.
