(* ===== verification/SemExit.v ===== *)
(** * System V semaphores: exit

    [semexit] makes the adjustments of the process, each once, and drops its
    structure. *)

From S2P Require Import Prelude Ipc Sem SemSpec SemUndos SemAdjust SemClear SemLayout SemOps.

(** A semaphore after an adjustment: not below zero. *)
Definition exit_val (adj : option Z) (m : sem) : sem :=
  match adj with
  | None => m
  | Some d => set_val (if d <? 0 then if semval m <? - d then 0 else u16 (semval m + d) else u16 (semval m + d)) m
  end.

Definition exit_set (mp : gmap (Z * Z) Z) (i : nat) (x : aset) : aset :=
  (x.1, imap (λ n m, exit_val (mp !! (Z.of_nat i, Z.of_nat n)) m) x.2).

Definition spec_exit (p : Z) (a a' : astate) : Prop :=
  (∀ i, asets a' i = exit_set (aundos a p) i <$> asets a i) ∧ undo_to a a' p ∅.

Lemma exit_val_ok adj m : val_ok m → val_ok (exit_val adj m).
Proof.
  intros H. destruct adj as [d|]; [| done]. unfold val_ok, in_u. cbn.
  destruct (d <? 0); [destruct (semval m <? - d); [lia |] |]; by apply (wrap_in_u 16).
Qed.

Lemma exit_set_empty i x : exit_set ∅ i x = x.
Proof.
  destruct x as [k ms]. unfold exit_set. cbn. f_equal. apply list_eq. intros n. rewrite list_lookup_imap.
  by destruct (ms !! n).
Qed.

Lemma exit_set_none mp i x : (∀ n, mp !! (Z.of_nat i, n) = None) → exit_set mp i x = x.
Proof.
  intros H. destruct x as [k ms]. unfold exit_set. cbn. f_equal. apply list_eq. intros n. rewrite list_lookup_imap, H.
  by destruct (ms !! n).
Qed.

(** One entry, and then the others. *)
Lemma exit_set_cons (l : list undo) e (i n : nat) k ms m :
  une_id e = Z.of_nat i → une_num e = Z.of_nat n → ent_key e ∉ ent_key <$> l → ms !! n = Some m →
  exit_set (ents_map l) i (k, <[n := exit_val (Some (une_adjval e)) m]> ms) = exit_set (ents_map (e :: l)) i (k, ms).
Proof.
  intros Hi Hn Hk Hm. apply ents_none in Hk. unfold exit_set. cbn [fst snd]. f_equal. apply list_eq. intros n'.
  rewrite !list_lookup_imap. assert (Hkey : ent_key e = (Z.of_nat i, Z.of_nat n)) by (unfold ent_key; congruence).
  rewrite ents_cons, Hkey. rewrite Hkey in Hk. destruct (decide (n' = n)) as [->|Hne].
  - rewrite list_lookup_insert_eq, Hm by (by apply lookup_lt_Some in Hm). cbn. by rewrite Hk, lookup_insert_eq.
  - rewrite list_lookup_insert_ne by done. rewrite lookup_insert_ne; [done |]. intros [= ?%Nat2Z.inj]. done.
Qed.

Lemma exit_set_cons_other (l : list undo) e i j x : une_id e = Z.of_nat i → j ≠ i →
  exit_set (ents_map l) j x = exit_set (ents_map (e :: l)) j x.
Proof.
  intros Hi Hne. unfold exit_set. f_equal. apply list_eq. intros n. rewrite !list_lookup_imap, ents_cons.
  rewrite lookup_insert_ne; [done |]. unfold ent_key. rewrite Hi. intros [= ?%Nat2Z.inj _]. done.
Qed.

Section exit.

Context (lim : seminfo) (Hume : 0 <= semume lim < 2 ^ 15).

(** One turn of the loop. *)
Lemma apply_one s p j u e l L :
  sem_ok lim s → undos_ok lim (semu s) (semu_list_idx s) L → owns (semu s) p j u → un_ent u = e :: l →
  ∃ s', apply_undos (Z.of_nat j) (e :: l) s = apply_undos (Z.of_nat j) l s' ∧
    stepped lim s s' ∧ undos_ok lim (semu s') (semu_list_idx s') L ∧
    owns (semu s') p j (SemUndo (un_next_idx u) (un_proc u) (Z.of_nat (length l)) l) ∧
    maps_to s s' p (ents_map l) ∧
    ∀ i, exit_set (ents_map l) i <$> view s' i = exit_set (ents_map (e :: l)) i <$> view s i.
Proof.
  intros Hok Hund Hown Hent. pose proof Hown as [Hu Hp].
  pose proof (uo_structs _ _ _ _ Hund j u Hu ltac:(by eexists)) as Hso. pose proof Hso as (Hcnt & Hcm & Hnd & Hents).
  rewrite Hent in Hcnt, Hnd. rewrite fmap_cons in Hnd. apply NoDup_cons in Hnd as [Hk Hnd].
  assert (Hum : umap s p = ents_map (e :: l)) by (unfold umap; by rewrite (undo_map_owner _ _ _ _ p j u Hund Hown), Hent).
  destruct (so_keys _ _ Hok p (ent_key e) (une_adjval e)) as (i & x & Hi & Hx & Hr).
  { rewrite Hum, ents_cons. apply lookup_insert_eq. }
  apply view_Some in Hx as (k & Hki & Ha & ->). cbn [ent_key fst snd] in Hi, Hr.
  destruct (sem_ok_seg lim s i k Hok Hki Ha) as (pre & post & Hseg & Hvals). set (ms := sems (sem_pool s) k) in *.
  set (n := Z.to_nat (une_num e)). assert (Hn : une_num e = Z.of_nat n) by lia.
  destruct (lookup_lt_is_Some_2 ms n) as [m Hm]; [lia |].
  set (m' := exit_val (Some (une_adjval e)) m). set (ms' := <[n := m']> ms).
  set (u' := SemUndo (un_next_idx u) (un_proc u) (Z.of_nat (length l)) l).
  assert (Hso' : struct_ok lim u').
  { apply struct_ok_sublist; [done |]. rewrite Hent. by apply sublist_cons. }
  set (s2 := State (semtot s) (sema s) (pre ++ ms' ++ post) (semu_list_idx s) (<[j := u']> (semu s)) (nulls s) (woken s ++ [une_id e])).
  assert (Hund2 : undos_ok lim (semu s2) (semu_list_idx s2) L) by (apply (undos_ok_update lim _ _ L j u u'); try done).
  assert (Hmaps : maps_to s s2 p (ents_map l)).
  { unfold maps_to, umap. cbn [semu s2]. split; [| intros q Hq]; rewrite (undo_map_insert _ _ _ _ j u u' _ Hund Hu) by done.
    - by rewrite bool_decide_true.
    - by rewrite bool_decide_false by congruence. }
  destruct (sem_ok_step lim Hume s i k pre ms post s2 k ms') as [Hok2 [Hset Hother]]; try done.
  { symmetry. by apply list_insert_id. } { apply length_insert. }
  { apply Forall_insert; [done |]. apply exit_val_ok. by apply (Forall_lookup_1 _ _ _ _ Hvals Hm). }
  { by exists L. }
  { intros q key v. destruct (decide (q = p)) as [->|Hq]; [| rewrite (proj2 Hmaps q Hq); apply (so_keys _ _ Hok)].
    rewrite (proj1 Hmaps). intros Hkey. apply (so_keys _ _ Hok p key v). rewrite Hum, ents_cons.
    apply ents_none in Hk. by rewrite lookup_insert_ne by congruence. }
  exists s2. split; [| split; [by constructor |]; split; [done |]; split; [| split; [done |]]].
  - cbn [apply_undos]. rewrite Hi, st_bind_unfold, (get_semid_eq s i k Hki), Ha. cbn [negb].
    rewrite Z.geb_leb, (proj2 (Z.leb_gt _ _)) by (rewrite (sg_nsems _ _ _ _ _ _ Hseg); lia).
    rewrite st_bind_unfold, Hn, (seg_get _ _ _ _ _ _ n m Hseg Hm). cbv zeta.
    rewrite st_bind_unfold, (seg_put _ _ _ _ _ _ n _ Hseg) by lia. rewrite st_bind_unfold. cbn [wakeup].
    rewrite st_bind_unfold, (SEMU_eq _ j u) by done. rewrite st_bind_unfold, put_semu_eq by (by apply lookup_lt_Some in Hu).
    f_equal. unfold s2, with_semu, with_pool. cbn. rewrite Hi. do 3 f_equal. unfold u'. f_equal. rewrite Hcnt.
    cbn [length] in *. rewrite s16_id by lia. lia.
  - split; [| done]. apply list_lookup_insert_eq. by apply lookup_lt_Some in Hu.
  - intros i'. destruct (decide (i' = i)) as [->|Hne].
    + cbn in Hset. rewrite Hset. rewrite (seg_view _ _ _ _ _ _ Hseg Ha). cbn [fmap option_fmap option_map].
      f_equal. by apply exit_set_cons.
    + cbn in Hother. rewrite Hother by done. destruct (view s i') as [x|]; [| done]. cbn [fmap option_fmap option_map].
      f_equal. by apply (exit_set_cons_other l e i).
Qed.

Lemma apply_undos_spec p j l L : ∀ s u,
  sem_ok lim s → undos_ok lim (semu s) (semu_list_idx s) L → owns (semu s) p j u → un_ent u = l →
  ∃ s' u', apply_undos (Z.of_nat j) l s = Ok ((), s') ∧ stepped lim s s' ∧ undos_ok lim (semu s') (semu_list_idx s') L ∧
    owns (semu s') p j u' ∧ maps_to s s' p ∅ ∧ ∀ i, view s' i = exit_set (umap s p) i <$> view s i.
Proof.
  induction l as [|e l IH]; intros s u Hok Hund Hown Hent;
    assert (Hum : umap s p = ents_map (un_ent u)) by (unfold umap; by rewrite (undo_map_owner _ _ _ _ p j u Hund Hown)).
  - exists s, u. rewrite Hum, Hent. split; [done |]. split; [done |]. split; [done |]. split; [done |]. split; [by rewrite Hent in Hum |].
    intros i. destruct (view s i) as [x|]; [| done]. cbn [fmap option_fmap option_map]. change (ents_map []) with (∅ : gmap (Z * Z) Z).
    by rewrite exit_set_empty.
  - destruct (apply_one s p j u e l L Hok Hund Hown Hent) as (s1 & E & Hst & Hund1 & Hown1 & [Hm1 Hm1'] & Hv1).
    destruct (IH s1 _ (st_ok _ _ _ Hst) Hund1 Hown1 eq_refl) as (s2 & u2 & E2 & Hst2 & Hund2 & Hown2 & [Hm2 Hm2'] & Hv2).
    exists s2, u2. rewrite E. split; [done |].
    split. { destruct Hst, Hst2. constructor; [done | auto | lia]. }
    split; [done |]. split; [done |]. split; [split; [done | intros q Hq; by rewrite Hm2', Hm1'] |].
    intros i. by rewrite Hv2, Hm1, Hum, Hent, Hv1.
Qed.

Lemma find_exit_spec p l : ∀ fuel s pre, undos_ok lim (semu s) (semu_list_idx s) (pre ++ l) → (length l < fuel)%nat →
  ∃ r, find_exit fuel p (place pre) s = Ok (r, s) ∧
    match r with
    | Some (supidx, i) => ∃ pre' j l' u, supidx = place pre' ∧ i = Z.of_nat j ∧ pre ++ l = pre' ++ j :: l' ∧ owns (semu s) p j u
    | None => ∀ j u, owns (semu s) p j u → j ∉ l
    end.
Proof.
  induction l as [|j l IH]; intros fuel s pre Hok Hf; (destruct fuel as [|fuel]; [cbn in Hf; lia |]); cbn [find_exit].
  - rewrite st_bind_unfold, (read_place s pre []) by apply Hok. exists None. split; [done |]. intros j u _. apply not_elem_of_nil.
  - rewrite st_bind_unfold, (read_place s pre (j :: l)) by apply Hok. cbn [head_idx]. rewrite (proj2 (Z.eqb_neq _ _)) by lia.
    destruct (linked_lookup _ _ _ j (uo_linked _ _ _ _ Hok)) as [u Hu]; [set_solver |].
    rewrite st_bind_unfold, (SEMU_eq s j u Hu). case_bool_decide as Hp.
    + eexists. split; [done |]. by exists pre, j, l, u.
    + replace (INext (Z.of_nat j)) with (place (pre ++ [j])) by (unfold place; by rewrite last_snoc).
      destruct (IH fuel s (pre ++ [j])) as (r & E & Hr); [by rewrite <- (assoc_L (++)) | cbn in Hf; lia |].
      exists r. split; [done |]. destruct r as [[supidx i]|].
      * rewrite <- (assoc_L (++)) in Hr. exact Hr.
      * intros j2 u2 Ho [->|Hj2]%elem_of_cons; [| by apply (Hr j2 u2)]. destruct Ho. congruence.
Qed.

Lemma no_owner_exit s p : sem_ok lim s → (∀ j u, ¬ owns (semu s) p j u) → spec_exit p (abst s) (abst s).
Proof.
  intros Hok Hno. unfold spec_exit. cbn [abst aundos asets]. unfold umap. rewrite undo_map_none by done. split.
  - intros i. destruct (view s i); cbn [fmap option_fmap option_map]; [by rewrite exit_set_empty | done].
  - split; [| done]. cbn. unfold umap. by rewrite undo_map_none.
Qed.

(** Without semaphores there are no adjustments. *)
Lemma no_pool_exit s p : sem_ok lim s → sem_pool s = [] → spec_exit p (abst s) (abst s).
Proof.
  intros Hok Hp. assert (Hnone : ∀ i, view s i = None).
  { intros i. destruct (view s i) as [x|] eqn:Hx; [| done]. apply view_Some in Hx as (k & Hk & Ha & ->).
    destruct (sem_ok_range lim s i k Hok Hk Ha) as (? & ? & ?). pose proof (so_tot _ _ Hok) as Ht. rewrite Hp in Ht. cbn in Ht. lia. }
  split; [intros i; cbn; by rewrite Hnone |]. split; [| done]. cbn. apply map_eq. intros key. rewrite lookup_empty.
  destruct (umap s p !! key) as [v|] eqn:Hv; [| done]. apply (so_keys _ _ Hok) in Hv as (i & x & _ & Hx & _). by rewrite Hnone in Hx.
Qed.

Lemma semexit_spec s p : sem_ok lim s → ∃ s', semexit p s = Ok ((), s') ∧ stepped lim s s' ∧ spec_exit p (abst s) (abst s').
Proof.
  intros Hok. unfold semexit. rewrite st_bind_unfold. cbn [get]. destruct (sem_pool s) as [|m0 pool0] eqn:Hpool.
  { exists s. split; [done |]. split; [done |]. by apply no_pool_exit. }
  destruct (so_good _ _ Hok) as [L Hund]. pose proof (linked_length _ _ _ (uo_linked _ _ _ _ Hund) (uo_nodup _ _ _ _ Hund)) as HL.
  destruct (find_exit_spec p L (S (length (semu s))) s [] Hund) as (r & E & Hr); [lia |]. change (place []) with IHead in E.
  rewrite st_bind_unfold, E. destruct r as [[supidx i]|].
  2:{ exists s. split; [done |]. split; [done |]. apply no_owner_exit; [done |]. intros j u Ho. apply (Hr j u Ho). by eapply used_in_list. }
  destruct Hr as (pre & j & l & u & -> & -> & HLeq & Hown). cbn [app] in HLeq. subst L. pose proof Hown as [Hu Hp].
  rewrite st_bind_unfold, (SEMU_eq s j u Hu).
  destruct (uo_structs _ _ _ _ Hund j u Hu ltac:(by eexists)) as (Hcnt & _ & _ & _).
  assert (Happ : ∃ s1 u1, (if un_cnt u >? 0 then apply_undos (Z.of_nat j) (un_ent u) else mret ()) s = Ok ((), s1) ∧
    stepped lim s s1 ∧ undos_ok lim (semu s1) (semu_list_idx s1) (pre ++ j :: l) ∧ owns (semu s1) p j u1 ∧ maps_to s s1 p ∅ ∧
    ∀ i, view s1 i = exit_set (umap s p) i <$> view s i).
  { destruct (apply_undos_spec p j (un_ent u) (pre ++ j :: l) s u Hok Hund Hown eq_refl) as (s1 & u1 & E1 & H1).
    exists s1, u1. split; [| done]. rewrite <- E1. rewrite Z.gtb_ltb. destruct (Z.ltb_spec 0 (un_cnt u)); [done |].
    destruct (un_ent u); [done | cbn in Hcnt; lia]. }
  destruct Happ as (s1 & u1 & E1 & Hst1 & Hund1 & [Hu1 Hp1] & [Hm1 Hm1'] & Hv1).
  rewrite st_bind_unfold, E1, st_bind_unfold, (SEMU_eq s1 j u1 Hu1).
  destruct (unlink_spec lim s1 pre j l u1 Hund1 Hu1) as (s2 & i' & us' & E2 & E3 & Hfr & Hund3).
  rewrite st_bind_unfold, E2, E3. eexists. split; [done |].
  assert (Hm3 : ∀ q, umap (with_undos s1 i' us') q = umap s1 q).
  { intros q. unfold umap. cbn [semu with_undos]. rewrite (freed_map lim (semu s1) us' _ _ _ _ j u1 q Hund1 Hund3 Hfr Hu1).
    case_bool_decide as Hq; [| done]. symmetry. assert (q = p) as -> by congruence. exact Hm1. }
  destruct (sem_ok_undos lim s1 (with_undos s1 i' us')) as [Hok3 Hsame].
  { apply Hst1. } { by eapply undos_step_with. } { intros q key v. rewrite Hm3. apply (so_keys _ _ (st_ok _ _ _ Hst1)). }
  split; [destruct Hst1; by constructor |]. split; [exact Hv1 |]. split; cbn [abst aundos]; [by rewrite Hm3 |].
  intros q Hq. by rewrite Hm3, Hm1'.
Qed.

End exit.
