(* ===== verification/SemRmid.v ===== *)
(** * System V semaphores: removing a set

    [IPC_RMID] closes the gap that the set leaves in the pool: the other sets
    keep their semaphores, and no process keeps adjustments for the set. *)

From S2P Require Import Prelude Ipc Sem SemSpec SemUndos SemAdjust SemClear SemLayout SemOps.

(** ** Closing the gap *)

Definition moved (b n k : nat) (l l' : list sem) : Prop :=
  length l' = length l ∧ ∀ x, l' !! x = if decide (b <= x < b + n)%nat then l !! (x + k)%nat else l !! x.

Lemma compact_spec k n : ∀ b s, (b + k + n <= length (sem_pool s))%nat →
  ∃ l', compact n (Z.of_nat b) (Z.of_nat k) s = Ok ((), with_pool s l') ∧ moved b n k (sem_pool s) l'.
Proof.
  induction n as [|n IH]; intros b s Hlen; cbn [compact].
  { exists (sem_pool s). split; [by rewrite with_pool_id |]. split; [done |]. intros x. by rewrite decide_False by lia. }
  destruct (lookup_lt_is_Some_2 (sem_pool s) (b + k)%nat) as [m Hm]; [lia |].
  rewrite st_bind_unfold, <- Nat2Z.inj_add, (get_sem_eq s _ m Hm), st_bind_unfold, put_sem_eq by lia.
  replace (Z.of_nat b + 1) with (Z.of_nat (S b)) by lia.
  destruct (IH (S b) (with_pool s (<[b := m]> (sem_pool s)))) as (l' & E & Hl & Hx); [cbn; rewrite length_insert; lia |].
  exists l'. split; [exact E |]. cbn in Hl, Hx. rewrite length_insert in Hl. split; [done |]. intros x. rewrite Hx.
  destruct (decide (x = b)) as [->|Hne].
  - repeat case_decide; try lia. by rewrite list_lookup_insert_eq by lia.
  - repeat case_decide; try lia; by rewrite list_lookup_insert_ne by lia.
Qed.

(** The sets before the gap, and behind it. *)
Lemma moved_before b n k l l' kj : moved b n k l l' → sem_base kj + sem_nsems kj <= Z.of_nat b → 0 <= sem_base kj →
  sems l' kj = sems l kj.
Proof.
  intros [_ Hx] H H0. apply list_eq. intros x. rewrite !sems_lookup. case_decide; [| done]. rewrite Hx, decide_False by lia. done.
Qed.

Lemma moved_behind b n k l l' kj : moved b n k l l' → Z.of_nat (b + k) <= sem_base kj →
  sem_base kj + sem_nsems kj <= Z.of_nat (b + k + n) →
  sems l' (set_base (sem_base kj - Z.of_nat k) kj) = sems l kj.
Proof.
  intros [_ Hx] Hb H. apply list_eq. intros x. rewrite !sems_lookup. cbn. case_decide; [| done].
  rewrite Hx, decide_True by lia. f_equal. lia.
Qed.

Lemma moved_vals b n k l l' : moved b n k l l' → Forall val_ok l → Forall val_ok l'.
Proof.
  intros [_ Hx] H. apply Forall_lookup. intros x m. rewrite Hx. case_decide; intros Hm; exact (Forall_lookup_1 _ _ _ _ H Hm).
Qed.

(** ** The sets that stay *)

(** The array of sets after the removal of [i]. *)
Definition rebased (b n : Z) (i : nat) (k0 : semid_kernel) (ks : list semid_kernel) : list semid_kernel :=
  <[i := k0]> (rebase b n <$> ks).

Lemma rebased_lookup b n i k0 ks j : j ≠ i → rebased b n i k0 ks !! j = rebase b n <$> ks !! j.
Proof. intros H. unfold rebased. by rewrite list_lookup_insert_ne, list_lookup_fmap. Qed.

Lemma rebase_allocated b n k : allocated (rebase b n k) = allocated k.
Proof. unfold rebase. by destruct (allocated k && _). Qed.

Lemma tiled_rebased ks b n i k0 tot order : 0 < n → i ∉ order → ∀ base, b + n <= base → tiled ks base order tot →
  tiled (rebased b n i k0 ks) (base - n) order (tot - n).
Proof.
  intros Hn. induction order as [|j order IH]; intros Hi base Hb; cbn; [lia |]. intros (k & Hk & Ha & Hbase & Hns & Ht).
  apply not_elem_of_cons in Hi as [Hj Hi].
  exists (set_base (sem_base k - n) k). rewrite rebased_lookup, Hk by done. cbn. unfold rebase.
  rewrite Ha, Z.gtb_ltb, (proj2 (Z.ltb_lt _ _)) by lia. split_and!; [done | done | lia | lia | lia |].
  replace (base - n + sem_nsems k) with (base + sem_nsems k - n) by lia. apply IH; [done | lia | done].
Qed.

Lemma tiled_before ks b n i k0 tot order : i ∉ order → ∀ base, tot <= b → tiled ks base order tot →
  tiled (rebased b n i k0 ks) base order tot.
Proof.
  intros Hi base Hb Ht. eapply tiled_ext; [exact Ht |]. intros j k Hj Hk.
  destruct (tiled_elem _ _ _ _ _ Ht Hj) as (k' & Hk' & _ & _ & ? & ?). simplify_eq.
  exists k. rewrite rebased_lookup by (by intros ->). rewrite Hk. cbn. unfold rebase.
  rewrite Z.gtb_ltb, (proj2 (Z.ltb_ge _ _)) by lia. by rewrite andb_false_r.
Qed.

Section rmid.

Context (lim : seminfo) (Hume : 0 <= semume lim < 2 ^ 15).

(** The state without the set [i], whose record is now [k0]. *)
Definition without (s : state) (i : nat) (k k0 : semid_kernel) (l : list sem) : state :=
  State (semtot s - sem_nsems k) (rebased (sem_base k) (sem_nsems k) i k0 (sema s)) l
        (semu_list_idx s) (semu s) (nulls s) (woken s).

Definition moved_out (s : state) (k : semid_kernel) (l : list sem) : Prop :=
  moved (Z.to_nat (sem_base k)) (Z.to_nat (semtot s - sem_nsems k - sem_base k)) (Z.to_nat (sem_nsems k)) (sem_pool s) l.

Lemma without_order s i k k0 l : sem_ok lim s → sema s !! i = Some k → allocated k = true → allocated k0 = false →
  ∃ order, order_ok (without s i k k0 l) order.
Proof.
  intros Hok Hk Ha Ha0. destruct (so_order _ _ Hok) as (order & Hnd & Ht & Ho).
  apply (Ho i k Hk) in Ha as Hi. apply list_elem_of_split in Hi as (o1 & o2 & ->).
  rewrite <- Permutation_middle in Hnd. apply NoDup_cons in Hnd as [Hni Hnd].
  apply tiled_app in Ht as (mid & Ht1 & k' & Hk' & _ & Hb & Hn & Ht2). simplify_eq.
  exists (o1 ++ o2). split_and!; [done | |].
  - apply tiled_app. exists (sem_base k). cbn [sema semtot without]. split.
    + apply tiled_before; [set_solver | lia | done].
    + replace (sem_base k) with (sem_base k + sem_nsems k - sem_nsems k) at 2 by lia. apply tiled_rebased; [lia | set_solver | lia | done].
  - intros j kj. cbn [sema without]. destruct (decide (j = i)) as [->|Hne].
    + unfold rebased. rewrite list_lookup_insert_eq by (rewrite length_fmap; by apply lookup_lt_Some in Hk).
      intros [= <-]. rewrite Ha0. set_solver.
    + rewrite rebased_lookup by done. intros (kj' & Hkj & ->)%fmap_Some. rewrite rebase_allocated, <- (Ho j kj' Hkj). set_solver.
Qed.

Lemma without_view s i k k0 l j : sem_ok lim s → sema s !! i = Some k → allocated k = true → allocated k0 = false →
  moved_out s k l → view (without s i k k0 l) j = if decide (j = i) then None else view s j.
Proof.
  intros Hok Hk Ha Ha0 Hl. destruct (sem_ok_range lim s i k Hok Hk Ha) as (Hb & Ht & Hn).
  unfold view. cbn [sema sem_pool without]. case_decide as Hj.
  - subst j. unfold rebased. rewrite list_lookup_insert_eq by (rewrite length_fmap; by apply lookup_lt_Some in Hk). cbn. by rewrite Ha0.
  - rewrite rebased_lookup by done. destruct (sema s !! j) as [kj|] eqn:Hkj; [| done]. cbn. rewrite rebase_allocated.
    destruct (allocated kj) eqn:Haj; [| done]. destruct (sem_ok_range lim s j kj Hok Hkj Haj) as (Hbj & Htj & Hnj).
    destruct (so_order _ _ Hok) as (order & Hnd & Htl & Ho).
    destruct (tiled_disjoint _ _ _ _ i j k kj Hnd Htl (proj2 (Ho i k Hk) Ha) (proj2 (Ho j kj Hkj) Haj) ltac:(done) Hk Hkj) as [Hd|Hd];
      unfold rebase; rewrite Haj, Z.gtb_ltb.
    + rewrite (proj2 (Z.ltb_lt _ _)) by lia. cbn [andb]. do 2 f_equal.
      rewrite <- (moved_behind _ _ _ _ _ kj Hl) by lia. do 2 f_equal. lia.
    + rewrite (proj2 (Z.ltb_ge _ _)) by lia. cbn [andb]. do 2 f_equal. by apply (moved_before _ _ _ _ _ kj Hl); lia.
Qed.

Definition spec_rmid (i : nat) (a a' : astate) : Prop :=
  set_to a a' i None ∧ ∀ q, aundos a' q = filter (λ kv, kv.1.1 ≠ Z.of_nat i) (aundos a q).

(** The set has gone and so have the adjustments for it. *)
Lemma without_ok s i k k0 l s' w : sem_ok lim s → sema s !! i = Some k → allocated k = true → allocated k0 = false →
  moved_out s k l → undos_step lim (without s i k k0 l) s' → nulls s' = nulls s →
  (∀ q, cleared (Z.of_nat i) (-1) (umap s q) (umap s' q)) →
  let s'' := State (semtot s') (sema s') (sem_pool s') (semu_list_idx s') (semu s') (nulls s') w in
  stepped lim s s'' ∧ spec_rmid i (abst s) (abst s'').
Proof.
  intros Hok Hk Ha Ha0 Hl Hst Hnulls Hcl s''. destruct (undos_step_rest _ _ _ Hst) as (Hs1 & Hs2 & Hs3).
  assert (Hview : ∀ j, view s'' j = if decide (j = i) then None else view s j).
  { intros j. rewrite <- (without_view s i k k0 l j) by done. unfold view. cbn. by rewrite Hs2, Hs3. }
  assert (Hum : ∀ q, umap s'' q = filter (λ kv, kv.1.1 ≠ Z.of_nat i) (umap s q)) by (intros q; apply (Hcl q)).
  destruct (sem_ok_range lim s i k Hok Hk Ha) as (Hb & Ht & Hn). pose proof (so_tot _ _ Hok).
  split.
  - constructor; [constructor | cbn; by rewrite Hnulls |].
    + destruct (without_order s i k k0 l Hok Hk Ha Ha0) as [order Ho]. exists order. unfold order_ok in *. cbn [sema semtot s''].
      by rewrite Hs1, Hs2.
    + cbn. rewrite Hs1, Hs3. cbn. rewrite (proj1 Hl). lia.
    + cbn. rewrite Hs3. eapply moved_vals; [exact Hl | apply Hok].
    + exact (undos_step_good _ _ _ Hst).
    + intros q key v. rewrite Hum. intros [Hkey Hne]%map_lookup_filter_Some. cbn in Hne.
      destruct (so_keys _ _ Hok q key v Hkey) as (j & x & Hj & Hx & Hr). exists j, x. rewrite Hview, decide_False by congruence. done.
    + cbn. rewrite Hs2. cbn. unfold rebased. by rewrite length_insert, length_fmap.
  - split; [| exact Hum]. split; cbn; [by rewrite Hview, decide_True |]. intros j Hj. by rewrite Hview, decide_False.
Qed.

Lemma ipc_rmid_spec c s i k : sem_ok lim s → sema s !! i = Some k → allocated k = true →
  ∃ s', ipc_rmid c (Z.of_nat i) s = Ok ((), s') ∧ stepped lim s s' ∧ spec_rmid i (abst s) (abst s').
Proof.
  intros Hok Hk Ha. pose proof (lookup_lt_Some _ _ _ Hk) as Hi. destruct (sem_ok_range lim s i k Hok Hk Ha) as (Hb & Ht & Hn).
  pose proof (so_tot _ _ Hok) as Htot. unfold ipc_rmid.
  rewrite st_bind_unfold, (get_semid_eq s i k Hk), st_bind_unfold, put_semid_eq by done. set (k1 := set_perm _ k).
  rewrite st_bind_unfold. cbn [get]. cbv zeta. rewrite st_bind_unfold. cbn [set_semtot semtot with_sema sema sem_pool semu_list_idx semu nulls woken].
  set (s2 := State (semtot s - sem_nsems k) _ _ _ _ _ _).
  destruct (compact_spec (Z.to_nat (sem_nsems k)) (Z.to_nat (semtot s - sem_nsems k - sem_base k)) (Z.to_nat (sem_base k)) s2) as (l & E & Hl);
    [cbn; lia |]. rewrite !Z2Nat.id in E by lia. rewrite st_bind_unfold, E. clear E.
  rewrite st_bind_unfold. cbn [get]. rewrite st_bind_unfold. cbn [set_sema semtot with_pool sema sem_pool semu_list_idx semu nulls woken].
  set (s3 := State _ (rebase _ _ <$> _) _ _ _ _ _).
  assert (Hk3 : sema s3 !! i = Some k1).
  { cbn. rewrite list_lookup_fmap, list_lookup_insert_eq by done. cbn. unfold rebase. cbn.
    by rewrite Z.gtb_ltb, Z.ltb_irrefl, andb_false_r. }
  rewrite st_bind_unfold, (get_semid_eq s3 i k1 Hk3), st_bind_unfold, put_semid_eq by (by apply lookup_lt_Some in Hk3).
  set (k0 := set_perm _ k1). assert (Hw : with_sema s3 (<[i := k0]> (sema s3)) = without s i k k0 l).
  { unfold with_sema, without. f_equal. cbn. unfold rebased. rewrite list_fmap_insert. by rewrite list_insert_insert_eq. }
  rewrite Hw. destruct (semundo_clear_spec lim Hume (Z.of_nat i) (-1) (without s i k k0 l)) as (s4 & E4 & Hst & Hnulls & Hcl).
  { apply Hok. }
  rewrite st_bind_unfold, E4. eexists. split; [done |]. by apply (without_ok s i k k0 l s4).
Qed.

End rmid.
