(* ===== verification/SemCtl.v ===== *)
(** * System V semaphores: control and creation

    The specifications of [semctl] and [semget], and that the code meets
    them. *)

From S2P Require Import Prelude Ipc Sem SemSpec SemUndos SemAdjust SemClear SemLayout SemOps SemRmid.

(** ** Control *)

Definition spec_getone (semnum : Z) (f : sem → Z) (ms : list sem) (r : Z * semctl_ret) : Prop :=
  r = if (semnum <? 0) || (semnum >=? Z.of_nat (length ms)) then (EINVAL, RInt 0)
      else (0, RInt (default 0 (f <$> ms !! Z.to_nat semnum))).

(** The semaphores after the values that could be copied in were stored. *)
Fixpoint stored (p : Z) (vals : list Z) (ms : list sem) : list sem :=
  match vals, ms with
  | v :: vals, m :: ms => set_pid p (set_val (u16 v) m) :: stored p vals ms
  | _, _ => ms
  end.

(** The effect of a command that is allowed. *)
Definition spec_cmd (p now : Z) (c : cred) (i : nat) (semnum : Z) (cmd : semctl_cmd) (k : semid_kernel) (ms : list sem)
    (r : Z * semctl_ret) (a a' : astate) : Prop :=
  match cmd with
  | IPC_RMID => r = (0, RInt 0) ∧ spec_rmid i a a'
  | IPC_SET (inl e) => r = (e, RInt 0) ∧ same a a'
  | IPC_SET (inr (u, g, m)) =>
      r = (0, RInt 0) ∧ undos_same a a' ∧
      set_to a a' i (Some (set_ctime now (set_perm (λ q, IpcPerm u g (cuid q) (cgid q)
        (Z.lor (Z.land (mode q) (Z.lnot 0x1ff)) (Z.land m 0x1ff)) (_seq q) (_key q)) k), ms))
  | IPC_STAT e => (∃ k', r = (e, RDs k') ∧ set_base 0 k' = k) ∧ same a a'
  | GETNCNT => spec_getone semnum semncnt ms r ∧ same a a'
  | GETPID => spec_getone semnum sempid ms r ∧ same a a'
  | GETVAL => spec_getone semnum semval ms r ∧ same a a'
  | GETZCNT => spec_getone semnum semzcnt ms r ∧ same a a'
  | GETALL room =>
      r = (if (length ms <=? room)%nat then 0 else EFAULT, RVals (take room (semval <$> ms))) ∧ same a a'
  | SETVAL val =>
      if (semnum <? 0) || (semnum >=? Z.of_nat (length ms)) then r = (EINVAL, RInt 0) ∧ same a a'
      else if u32 val >? SEMVMX then r = (ERANGE, RInt 0) ∧ same a a'
      else r = (0, RInt 0) ∧ set_to a a' i (Some (k, alter (λ m, set_pid p (set_val (u32 val) m)) (Z.to_nat semnum) ms)) ∧
           ∀ q, cleared (Z.of_nat i) semnum (aundos a q) (aundos a' q)
  | SETALL array =>
      r = (if (length ms <=? length array)%nat then 0 else EFAULT, RInt 0) ∧
      set_to a a' i (Some (k, stored p array ms)) ∧ ∀ q, cleared (Z.of_nat i) (-1) (aundos a q) (aundos a' q)
  end.

Definition spec_ctl (p : Z) (c : cred) (mac now id semnum : Z) (cmd : semctl_cmd) (r : Z * semctl_ret)
    (a a' : astate) : Prop :=
  match named a id with
  | None => r = (EINVAL, RInt 0) ∧ same a a'
  | Some (k, ms) =>
      if negb (mac =? 0) then r = (mac, RInt 0) ∧ same a a'
      else if negb (ipcperm c (sem_perm k) (need cmd) =? 0) then r = (ipcperm c (sem_perm k) (need cmd), RInt 0) ∧ same a a'
      else spec_cmd p now c (Z.to_nat (IPCID_TO_IX id)) semnum cmd k ms r a a'
  end.

(** ** Reading and storing values *)

Lemma getall_spec s i k ms : ∀ pre room rest post, seg s i k pre (rest ++ ms) post →
  getall (length ms) (sem_base k + Z.of_nat (length rest)) room s =
    Ok ((if (length ms <=? room)%nat then 0 else EFAULT, take room (semval <$> ms)), s).
Proof.
  induction ms as [|m ms IH]; intros pre room rest post Hseg; [by destruct room |].
  destruct room as [|room]; [done |]. cbn [length getall].
  rewrite st_bind_unfold, (seg_get _ _ _ _ _ _ (length rest) m Hseg) by (by apply list_lookup_middle).
  replace (sem_base k + Z.of_nat (length rest) + 1) with (sem_base k + Z.of_nat (length (rest ++ [m]))) by (rewrite length_app; cbn; lia).
  rewrite st_bind_unfold, (IH pre room (rest ++ [m]) post) by (by rewrite <- (assoc_L (++))). done.
Qed.

Lemma length_stored p vals : ∀ ms, length (stored p vals ms) = length ms.
Proof. induction vals as [|v vals IH]; intros [|m ms]; cbn; [done | done | done | by rewrite IH]. Qed.

Lemma stored_ok p vals : ∀ ms, Forall val_ok ms → Forall val_ok (stored p vals ms).
Proof.
  induction vals as [|v vals IH]; intros [|m ms] H; cbn; [done | done | done |]. apply Forall_cons in H as [_ H].
  constructor; [| auto]. unfold val_ok. cbn. apply wrap_in_u. lia.
Qed.

Lemma setall_spec s p i k ms post : ∀ pre vals rest, seg s i k pre (rest ++ ms) post →
  setall p (length ms) (sem_base k + Z.of_nat (length rest)) vals s =
    Ok (if (length ms <=? length vals)%nat then 0 else EFAULT, with_pool s (pre ++ (rest ++ stored p vals ms) ++ post)).
Proof.
  revert s. induction ms as [|m ms IH]; intros s pre vals rest Hseg.
  { assert (stored p vals [] = []) as -> by (by destruct vals). by rewrite with_pool_id by apply Hseg. }
  destruct vals as [|v vals]; cbn [length setall stored].
  { by rewrite with_pool_id by apply Hseg. }
  rewrite st_bind_unfold, (seg_get _ _ _ _ _ _ (length rest) m Hseg) by (by apply list_lookup_middle).
  rewrite st_bind_unfold, (seg_put _ _ _ _ _ _ (length rest) _ Hseg) by (rewrite length_app; cbn; lia).
  rewrite (insert_app_r_alt rest) by lia. rewrite Nat.sub_diag. cbn [insert list_insert].
  set (m' := set_pid p (set_val (u16 v) m)).
  replace (sem_base k + Z.of_nat (length rest) + 1) with (sem_base k + Z.of_nat (length (rest ++ [m']))) by (rewrite length_app; cbn; lia).
  assert (Hseg' : seg (with_pool s (pre ++ (rest ++ m' :: ms) ++ post)) i k pre ((rest ++ [m']) ++ ms) post).
  { rewrite cons_middle, (assoc_L (++) rest). apply (seg_with_pool s i k pre (rest ++ m :: ms)); [done |]. rewrite !length_app. cbn. lia. }
  rewrite (IH _ pre vals (rest ++ [m']) Hseg'). rewrite with_pool_twice. do 4 f_equal. by rewrite <- (assoc_L (++) rest [m'] (stored p vals ms)).
Qed.

Section control.

Context (lim : seminfo) (Hume : 0 <= semume lim < 2 ^ 15).

Lemma getone_spec s i k f semnum : sem_ok lim s → sema s !! i = Some k → allocated k = true →
  ∃ r, getone (Z.of_nat i) semnum f s = Ok (r, s) ∧ spec_getone semnum f (sems (sem_pool s) k) r.
Proof.
  intros Hok Hk Ha. destruct (sem_ok_seg lim s i k Hok Hk Ha) as (pre & post & Hseg & _). unfold getone, spec_getone.
  rewrite st_bind_unfold, (get_semid_eq s i k Hk), <- (sg_nsems _ _ _ _ _ _ Hseg). destruct (_ || _) eqn:Hc; [by eexists |].
  apply orb_false_iff in Hc as [H0 Hlt]. apply Z.ltb_ge in H0. rewrite Z.geb_leb in Hlt. apply Z.leb_gt in Hlt.
  pose proof (sg_nsems _ _ _ _ _ _ Hseg). destruct (lookup_lt_is_Some_2 (sems (sem_pool s) k) (Z.to_nat semnum)) as [m Hm]; [lia |].
  pose proof (seg_get _ _ _ _ _ _ _ m Hseg Hm) as Hget. rewrite Z2Nat.id in Hget by lia.
  rewrite st_bind_unfold, Hget, Hm. by eexists.
Qed.

(** Setting values drops adjustments. *)
Lemma set_clear_spec s i k pre ms post ms' semnum : sem_ok lim s → seg s i k pre ms post → allocated k = true →
  length ms' = length ms → Forall val_ok ms' →
  ∃ s', (semundo_clear (Z.of_nat i) semnum ;; wakeup (Z.of_nat i)) (with_pool s (pre ++ ms' ++ post)) = Ok ((), s') ∧
    stepped lim s s' ∧ set_to (abst s) (abst s') i (Some (set_base 0 k, ms')) ∧
    ∀ q, cleared (Z.of_nat i) semnum (umap s q) (umap s' q).
Proof.
  intros Hok Hseg Ha Hlen Hv.
  destruct (semundo_clear_spec lim Hume (Z.of_nat i) semnum (with_pool s (pre ++ ms' ++ post))) as (s' & E & Hst & Hn & Hcl); [apply Hok |].
  rewrite st_bind_unfold, E. eexists. split; [done |].
  destruct (undos_step_rest _ _ _ Hst) as (H1 & H2 & H3). cbn in H1, H2, H3. set (s'' := State _ _ _ _ _ _ _).
  destruct (sem_ok_step lim Hume s i k pre ms post s'' k ms') as [Hok' Hset]; try done.
  - cbn. rewrite H2. symmetry. apply list_insert_id, Hseg.
  - exact (undos_step_good _ _ _ Hst).
  - intros q key v Hv'. change (umap s'' q) with (umap s' q) in Hv'. specialize (Hcl q). unfold cleared in Hcl.
    apply (so_keys _ _ Hok q key v). destruct (semnum =? -1).
    + rewrite Hcl in Hv'. by apply map_lookup_filter_Some_1_1 in Hv'.
    + destruct Hcl as [Heq|Heq]; rewrite Heq in Hv'; [done |]. by apply lookup_delete_Some in Hv' as [_ ?].
  - split; [| done]. constructor; [done | cbn; by rewrite Hn | cbn; by rewrite H2].
Qed.

Lemma set_mode_allocated mo m :
  tst (Z.lor (Z.land mo (Z.lnot 0x1ff)) (Z.land m 0x1ff)) SEM_ALLOC = tst mo SEM_ALLOC.
Proof.
  unfold tst. do 2 f_equal. rewrite Z.land_lor_distr_l, <- !Z.land_assoc. change (Z.land 0x1ff SEM_ALLOC) with 0.
  change (Z.land (Z.lnot 0x1ff) SEM_ALLOC) with SEM_ALLOC. by rewrite Z.land_0_r, Z.lor_0_r.
Qed.

Lemma ipc_set_spec s now i k u g m : sem_ok lim s → sema s !! i = Some k → allocated k = true →
  ∃ s', ipc_set now (Z.of_nat i) (u, g, m) s = Ok ((), s') ∧ stepped lim s s' ∧ undos_same (abst s) (abst s') ∧
    set_to (abst s) (abst s') i (Some (set_ctime now (set_perm (λ q, IpcPerm u g (cuid q) (cgid q)
        (Z.lor (Z.land (mode q) (Z.lnot 0x1ff)) (Z.land m 0x1ff)) (_seq q) (_key q)) (set_base 0 k)), sems (sem_pool s) k)).
Proof.
  intros Hok Hk Ha. destruct (sem_ok_seg lim s i k Hok Hk Ha) as (pre & post & Hseg & Hv).
  unfold ipc_set. rewrite st_bind_unfold, (get_semid_eq s i k Hk), put_semid_eq by (by apply lookup_lt_Some in Hk).
  set (k' := set_ctime now _). eexists. split; [done |].
  destruct (sem_ok_step lim Hume s i k pre (sems (sem_pool s) k) post (with_sema s (<[i := k']> (sema s))) k' (sems (sem_pool s) k))
    as [Hok' Hset]; try done.
  - apply Hseg.
  - unfold allocated. cbn. by rewrite set_mode_allocated.
  - apply Hok.
  - apply (so_keys _ _ Hok).
  - split; [| done]. constructor; [done | done | cbn; by rewrite length_insert].
Qed.

Lemma clear_wakeup {A} (r : A) i semnum s s' : (semundo_clear i semnum ;; wakeup i) s = Ok ((), s') →
  (semundo_clear i semnum ;; wakeup i ;; mret r) s = Ok (r, s').
Proof.
  rewrite !st_bind_unfold. destruct (semundo_clear i semnum s) as [[[] s1]|]; [| done]. rewrite st_bind_unfold. cbn.
  by intros [= ->].
Qed.

Lemma setval_spec s p i k pre ms post semnum val : sem_ok lim s → seg s i k pre ms post → allocated k = true → Forall val_ok ms →
  0 <= semnum < Z.of_nat (length ms) → u32 val <= SEMVMX →
  ∃ s', (m ← get_sem (sem_base k + semnum);
         put_sem (sem_base k + semnum) (set_pid p (set_val (u16 (u32 val)) m)) ;;
         semundo_clear (Z.of_nat i) semnum ;; wakeup (Z.of_nat i) ;; mret (0, RInt 0)) s = Ok ((0, RInt 0), s') ∧
    stepped lim s s' ∧
    set_to (abst s) (abst s') i (Some (set_base 0 k, alter (λ m, set_pid p (set_val (u32 val) m)) (Z.to_nat semnum) ms)) ∧
    ∀ q, cleared (Z.of_nat i) semnum (umap s q) (umap s' q).
Proof.
  intros Hok Hseg Ha Hvals Hnum Hmax. destruct (lookup_lt_is_Some_2 ms (Z.to_nat semnum)) as [m Hm]; [lia |].
  assert (Hv : in_u 16 (u32 val)) by (split; [by apply wrap_in_u | unfold SEMVMX in Hmax; lia]).
  assert (Hval : u16 (u32 val) = u32 val) by by apply wrap_small.
  set (f := λ m, set_pid p (set_val (u32 val) m)). set (ms' := alter f (Z.to_nat semnum) ms).
  assert (Hins : <[Z.to_nat semnum := f m]> ms = ms').
  { apply list_eq. intros x. unfold ms'. destruct (decide (x = Z.to_nat semnum)) as [->|Hne].
    - rewrite list_lookup_insert_eq, list_lookup_alter_eq, Hm by lia. done.
    - by rewrite list_lookup_insert_ne, list_lookup_alter_ne by done. }
  pose proof (seg_get _ _ _ _ _ _ _ m Hseg Hm) as Eg. pose proof (seg_put _ _ _ _ _ _ (Z.to_nat semnum) (f m) Hseg ltac:(lia)) as Ep.
  rewrite Z2Nat.id in Eg, Ep by lia. rewrite st_bind_unfold, Eg, st_bind_unfold, Hval. fold (f m). rewrite Ep, Hins.
  destruct (set_clear_spec s i k pre ms post ms' semnum Hok Hseg Ha) as (s' & E & Hout).
  { apply length_alter. }
  { rewrite <- Hins. by apply Forall_insert. }
  exists s'. split; [| exact Hout]. by apply clear_wakeup.
Qed.

Lemma setall_clear_spec s p i k pre ms post array : sem_ok lim s → seg s i k pre ms post → allocated k = true → Forall val_ok ms →
  ∃ s', (eval ← setall p (length ms) (sem_base k) array;
         semundo_clear (Z.of_nat i) (-1) ;; wakeup (Z.of_nat i) ;; mret (eval, RInt 0)) s =
      Ok ((if (length ms <=? length array)%nat then 0 else EFAULT, RInt 0), s') ∧
    stepped lim s s' ∧ set_to (abst s) (abst s') i (Some (set_base 0 k, stored p array ms)) ∧
    ∀ q, cleared (Z.of_nat i) (-1) (umap s q) (umap s' q).
Proof.
  intros Hok Hseg Ha Hvals. pose proof (setall_spec s p i k ms post pre array [] Hseg) as E0. rewrite Z.add_0_r in E0.
  rewrite st_bind_unfold, E0. cbn [app].
  destruct (set_clear_spec s i k pre ms post (stored p array ms) (-1) Hok Hseg Ha) as (s' & E & Hout).
  { apply length_stored. } { by apply stored_ok. }
  exists s'. split; [| exact Hout]. by apply clear_wakeup.
Qed.

Lemma semctl_spec s p c mac now id semnum cmd : sem_ok lim s →
  ∃ r s', semctl p c mac now id semnum cmd s = Ok (r, s') ∧ stepped lim s s' ∧
    spec_ctl p c mac now id semnum cmd r (abst s) (abst s').
Proof.
  intros Hok. pose proof (ipcid_ix id) as Hix. unfold semctl, spec_ctl. rewrite named_spec.
  set (i := Z.to_nat (IPCID_TO_IX id)). assert (Hi : IPCID_TO_IX id = Z.of_nat i) by lia. rewrite Hi.
  rewrite st_bind_unfold. cbn [get]. rewrite (proj2 (Z.ltb_ge _ _)) by lia. cbn [orb].
  assert (Hstay : ∀ r : Z * semctl_ret, ∃ r' s', Ok (r, s) = Ok (r', s') ∧ stepped lim s s' ∧ (r' = r ∧ same (abst s) (abst s'))).
  { intros r. exists r, s. split_and!; try done. }
  rewrite Z.geb_leb. destruct (sema s !! i) as [k|] eqn:Hk; cbn [mbind option_bind].
  2:{ apply lookup_ge_None in Hk. rewrite (proj2 (Z.leb_le _ _)) by lia. apply Hstay. }
  pose proof (lookup_lt_Some _ _ _ Hk). rewrite (proj2 (Z.leb_gt _ _)) by lia.
  rewrite st_bind_unfold, (get_semid_eq s i k Hk).
  destruct (allocated k) eqn:Ha; cbn [negb andb orb]; [| apply Hstay].
  destruct (_ =? IPCID_TO_SEQ id); cbn [negb]; [| apply Hstay].
  destruct (negb (mac =? 0)); [apply Hstay |]. cbv zeta. cbn [set_base sem_perm]. destruct (negb _); [apply Hstay |].
  destruct (sem_ok_seg lim s i k Hok Hk Ha) as (pre & post & Hseg & Hvals). pose proof (sg_nsems _ _ _ _ _ _ Hseg) as Hns.
  assert (Hone : ∀ f, ∃ r s', getone (Z.of_nat i) semnum f s = Ok (r, s') ∧ stepped lim s s' ∧
    spec_getone semnum f (sems (sem_pool s) k) r ∧ same (abst s) (abst s')).
  { intros f. destruct (getone_spec s i k f semnum Hok Hk Ha) as (r & E & Hr). exists r, s. split_and!; try done. }
  destruct cmd as [|[e|[[u g] m]]|e| | | |room| |val|array]; cbn [spec_cmd]; try apply Hone; try apply Hstay.
  - destruct (ipc_rmid_spec lim Hume c s i k Hok Hk Ha) as (s' & E & Hst & Hsp). rewrite st_bind_unfold, E. by eexists _, s'.
  - destruct (ipc_set_spec s now i k u g m Hok Hk Ha) as (s' & E & Hst & Hu & Hset). rewrite st_bind_unfold, E. by eexists _, s'.
  - eexists _, s. split; [done |]. split; [done |]. split; [by exists k | done].
  - pose proof (getall_spec s i k (sems (sem_pool s) k) pre room [] post Hseg) as E. rewrite Z.add_0_r in E.
    rewrite st_bind_unfold, Hns, Nat2Z.id, E. eexists _, s. split; [done |]. by split.
  - rewrite Hns. destruct (_ || _) eqn:Hc; [apply Hstay |]. destruct (u32 val >? SEMVMX) eqn:Hmax; [apply Hstay |].
    apply orb_false_iff in Hc as [H0 Hlt]. apply Z.ltb_ge in H0. rewrite Z.geb_leb in Hlt. apply Z.leb_gt in Hlt.
    rewrite Z.gtb_ltb in Hmax. apply Z.ltb_ge in Hmax.
    destruct (setval_spec s p i k pre _ post semnum val Hok Hseg Ha Hvals) as (s' & E & Hst & Hset & Hcl); [lia | done |].
    eexists _, s'. split; [exact E |]. done.
  - destruct (setall_clear_spec s p i k pre _ post array Hok Hseg Ha Hvals) as (s' & E & Hst & Hset & Hcl).
    eexists _, s'. rewrite Hns, Nat2Z.id. split; [exact E |]. done.
Qed.

End control.
