(* ===== verification/SemGet.v ===== *)
(** * System V semaphores: creation

    [semget] finds the set of a key, or makes a new one at the end of the pool
    in a free slot; the arrays grow if they have to. *)

From S2P Require Import Prelude Ipc Sem SemSpec SemUndos SemAdjust SemClear SemLayout SemOps.

(** ** Specification *)

(** The set that is found for a key, and the answer for it. *)
Definition spec_found (c : cred) (mac key nsems semflg : Z) (i : nat) (k : semid_kernel) : Z * Z :=
  let eval := ipcperm c (sem_perm k) (Z.land semflg 0x1c0) in
  if negb (eval =? 0) then (eval, 0)
  else if (nsems <? 0) || (sem_nsems k <? nsems) then (EINVAL, 0)
  else if tst semflg IPC_CREAT && tst semflg IPC_EXCL then (EEXIST, 0)
  else if negb (mac =? 0) then (mac, 0)
  else (0, IXSEQ_TO_IPCID (Z.of_nat i) (_seq (sem_perm k))).

Definition new_set (c : cred) (now key nsems semflg seq : Z) : semid_kernel :=
  SemidKernel (IpcPerm (cr_uid c) (cr_gid c) (cr_uid c) (cr_gid c) (Z.lor (Z.land semflg 0x1ff) SEM_ALLOC) seq key)
    0 nsems 0 now.

(** A new set with all values zero, in a slot that was free. *)
Definition spec_created (c : cred) (now key nsems semflg : Z) (r : Z * Z) (a a' : astate) : Prop :=
  ∃ i seq, asets a i = None ∧ 0 <= seq < 2 ^ 15 ∧ r = (0, IXSEQ_TO_IPCID (Z.of_nat i) seq) ∧
    set_to a a' i (Some (new_set c now key nsems semflg seq, replicate (Z.to_nat nsems) zero_sem)) ∧ undos_same a a'.

Definition first_with_key (a : astate) (key : Z) (i : nat) (x : aset) : Prop :=
  asets a i = Some x ∧ _key (sem_perm x.1) = key ∧
  ∀ j y, (j < i)%nat → asets a j = Some y → _key (sem_perm y.1) ≠ key.

Definition spec_get (lim : seminfo) (c : cred) (mac now key nsems semflg : Z) (r : Z * Z) (a a' : astate) : Prop :=
  (key ≠ IPC_PRIVATE ∧ ∃ i x, first_with_key a key i x ∧ r = spec_found c mac key nsems semflg i x.1 ∧ same a a') ∨
  ((key = IPC_PRIVATE ∨ ∀ i x, asets a i = Some x → _key (sem_perm x.1) ≠ key) ∧
   if (key =? IPC_PRIVATE) || tst semflg IPC_CREAT then
     if (nsems <=? 0) || (nsems >? semmsl lim) then r = (EINVAL, 0) ∧ same a a'
     else r = (ENOSPC, 0) ∧ same a a' ∨ spec_created c now key nsems semflg r a a'
   else r = (ENOENT, 0) ∧ same a a').

(** ** Searching *)

Lemma find_set_spec f l : ∀ i0, match find_set f l i0 with
  | Some z => ∃ n k, z = i0 + Z.of_nat n ∧ l !! n = Some k ∧ f k = true ∧ ∀ m k', (m < n)%nat → l !! m = Some k' → f k' = false
  | None => ∀ m k', l !! m = Some k' → f k' = false
  end.
Proof.
  induction l as [|x l IH]; intros i0; cbn [find_set]; [done |]. destruct (f x) eqn:Hf.
  - exists 0%nat, x. split_and!; [lia | done | done | lia].
  - specialize (IH (i0 + 1)). destruct (find_set f l (i0 + 1)) as [z|].
    + destruct IH as (n & k & -> & Hk & Hfk & Hm). exists (S n), k. split_and!; [lia | done | done |].
      intros [|m] k' Hlt Hk'; [by simplify_eq/= |]. apply (Hm m k'); [lia | done].
    + intros [|m] k' Hk'; [by simplify_eq/= |]. by apply (IH m k').
Qed.

(** ** Growing *)

Section creation.

Context (lim : seminfo) (Hume : 0 <= semume lim < 2 ^ 15).

(** [s'] has larger arrays. *)
Record grown (s s' : state) : Prop := {
  gr_tot : semtot s' = semtot s;
  gr_sema : ∃ n, sema s' = sema s ++ replicate n zero_semid;
  gr_pool : ∃ n, sem_pool s' = sem_pool s ++ replicate n zero_sem;
  gr_semu : semu s' = semu s;
  gr_idx : semu_list_idx s' = semu_list_idx s;
  gr_nulls : ∃ ns, nulls s = ns ++ nulls s'
}.

Lemma grown_refl s : grown s s.
Proof. constructor; try done; [exists 0%nat; by rewrite app_nil_r .. | by exists []]. Qed.

Lemma grown_trans s1 s2 s3 : grown s1 s2 → grown s2 s3 → grown s1 s3.
Proof.
  intros [H1 [n1 H2] [m1 H3] H4 H5 [l1 H6]] [H1' [n2 H2'] [m2 H3'] H4' H5' [l2 H6']]. constructor; try congruence.
  - exists (n1 + n2)%nat. by rewrite H2', H2, <- (assoc_L (++)), replicate_add.
  - exists (m1 + m2)%nat. by rewrite H3', H3, <- (assoc_L (++)), replicate_add.
  - exists (l1 ++ l2). by rewrite H6, H6', (assoc_L (++)).
Qed.

Lemma sems_app pool l k : 0 <= sem_base k → sem_base k + sem_nsems k <= Z.of_nat (length pool) →
  sems (pool ++ l) k = sems pool k.
Proof.
  intros Hb H. apply list_eq. intros x. rewrite !sems_lookup. case_decide; [| done]. by rewrite lookup_app_l by lia.
Qed.

Lemma grown_view s s' i : sem_ok lim s → grown s s' → view s' i = view s i.
Proof.
  intros Hok [_ [n Hs] [m Hp] _ _ _]. unfold view. rewrite Hs. destruct (sema s !! i) as [k|] eqn:Hk.
  - rewrite (lookup_app_l_Some _ _ _ _ Hk). cbn. destruct (allocated k) eqn:Ha; [| done].
    destruct (sem_ok_range lim s i k Hok Hk Ha) as (? & ? & ?). pose proof (so_tot _ _ Hok). by rewrite Hp, sems_app by lia.
  - rewrite lookup_app_r by (by apply lookup_ge_None). destruct (replicate n zero_semid !! _) as [k|] eqn:Hr; [| done].
    by apply lookup_replicate in Hr as [-> _].
Qed.

Lemma grown_ok s s' : sem_ok lim s → grown s s' → stepped lim s s' ∧ same (abst s) (abst s').
Proof.
  intros Hok Hg. assert (Hview := λ i, grown_view s s' i Hok Hg). pose proof Hg as [Ht [n Hs] [m Hp] Hu Hi [ns Hn]].
  assert (Hum : ∀ q, umap s' q = umap s q) by (intros q; unfold umap; by rewrite Hu). split; [| done].
  constructor; [| rewrite Hn; set_solver | rewrite Hs, length_app; lia]. pose proof Hok as [Ho Htot Hv Hgd Hk]. constructor.
  - destruct Ho as (order & Hnd & Htl & Ho). exists order. split_and!; [done | |].
    + rewrite Ht. eapply tiled_ext; [exact Htl |]. intros i k _ Hki. exists k. rewrite Hs. by rewrite (lookup_app_l_Some _ _ _ _ Hki).
    + intros i k. rewrite Hs. intros [Hki|[Hlen Hki]]%lookup_app_Some; [by apply Ho |].
      apply lookup_replicate in Hki as [-> _]. split; [| done]. intros Hin.
      destruct (tiled_elem _ _ _ _ _ Htl Hin) as (k & Hki & _). apply lookup_lt_Some in Hki. lia.
  - rewrite Ht, Hp, length_app. lia.
  - rewrite Hp. apply Forall_app_2; [done |]. apply Forall_replicate. split; cbn; lia.
  - destruct Hgd as [l Hl]. exists l. by rewrite Hu, Hi.
  - intros q key v. rewrite Hum. intros Hkey. destruct (Hk q key v Hkey) as (i & x & Hix & Hx & Hr). exists i, x. by rewrite Hview.
Qed.

Lemma kheap_grown s : ∃ b s', kheap_alloc s = Ok (b, s') ∧ grown s s' ∧ sema s' = sema s ∧ sem_pool s' = sem_pool s.
Proof.
  eexists _, _. split; [done |]. split; [| done]. constructor; try done; [by exists 0%nat; rewrite app_nil_r .. |].
  destruct (nulls s) as [|b ns]; [by exists [] | by exists [b]].
Qed.

Lemma grow_pool_spec s nsems : 0 < nsems → semtot s <= Z.of_nat (length (sem_pool s)) →
  nsems > Z.of_nat (length (sem_pool s)) - semtot s →
  ∃ b s', grow_sem_pool lim (semtot s + nsems) s = Ok (b, s') ∧ grown s s' ∧
    (b = true → semtot s' + nsems <= Z.of_nat (length (sem_pool s'))).
Proof.
  intros Hn Htot Hgt. unfold grow_sem_pool. rewrite st_bind_unfold. cbn [get]. rewrite (proj2 (Z.ltb_ge _ _)) by lia.
  rewrite Z.gtb_ltb. destruct (Z.ltb_spec (semmns lim) (semtot s + nsems)) as [?|Hle]; [exists false, s; split_and!; [done | apply grown_refl | done] |].
  destruct (kheap_grown s) as (b & s1 & E & Hg & Hs & Hp). cbv zeta. rewrite st_bind_unfold, E.
  destruct b; [by exists false, s1 |]. pose proof (round_up_gt (semtot s + nsems) SEMMNS_INC eq_refl) as Hr.
  set (sz := Z.min _ _). assert (Hsz : semtot s + nsems <= sz) by lia. rewrite (proj2 (Z.ltb_ge _ _)) by lia.
  eexists true, _. split; [done |]. pose proof Hg as [? ? ? ? ? ?]. split.
  - eapply grown_trans; [exact Hg |]. constructor; try done; [exists 0%nat; by rewrite app_nil_r | | by exists []].
    cbn. rewrite Hp. by eexists.
  - intros _. cbn. rewrite gr_tot0, length_app, length_replicate. lia.
Qed.

Lemma wake_sets_spec l : ∀ i s, ∃ w, wake_sets l i s =
  Ok ((), State (semtot s) (sema s) (sem_pool s) (semu_list_idx s) (semu s) (nulls s) w).
Proof.
  induction l as [|k l IH]; intros i s; cbn [wake_sets]; [exists (woken s); by destruct s |]. rewrite st_bind_unfold.
  destruct (allocated k); cbn; [| apply IH]. destruct (IH (i + 1) (State (semtot s) (sema s) (sem_pool s) (semu_list_idx s) (semu s) (nulls s) (woken s ++ [i]))) as [w E].
  exists w. exact E.
Qed.

Lemma grow_sema_spec s : ∃ b s', grow_sema_array lim (Z.of_nat (length (sema s)) + 1) s = Ok (b, s') ∧ grown s s' ∧
  sem_pool s' = sem_pool s ∧ (b = true → sema s' !! length (sema s) = Some zero_semid).
Proof.
  unfold grow_sema_array. rewrite st_bind_unfold. cbn [get]. rewrite (proj2 (Z.leb_gt _ _)) by lia.
  rewrite Z.gtb_ltb. destruct (Z.ltb_spec (semmni lim) (Z.of_nat (length (sema s)) + 1)) as [?|Hle].
  { exists false, s. split_and!; [done | apply grown_refl | done | done]. }
  destruct (kheap_grown s) as (b & s1 & E & Hg & Hs & Hp). cbv zeta. rewrite st_bind_unfold, E. destruct b; [by exists false, s1 |].
  destruct (wake_sets_spec (sema s) 0 s1) as [w Ew]. rewrite st_bind_unfold, Ew. eexists true, _. split; [done |].
  pose proof (round_up_gt (Z.of_nat (length (sema s)) + 1) SEMMNI_INC eq_refl) as Hr. split_and!.
  - eapply grown_trans; [exact Hg |]. constructor; try done; [cbn; rewrite Hs; by eexists | exists 0%nat; by rewrite app_nil_r | by exists []].
  - done.
  - intros _. cbn. rewrite lookup_app_r, Nat.sub_diag by lia. apply lookup_replicate. split; [done | lia].
Qed.

Lemma new_slot_spec s nsems : sem_ok lim s → 0 < nsems →
  ∃ r s', new_slot lim nsems s = Ok (r, s') ∧ grown s s' ∧
    match r with
    | inl e => e = ENOSPC
    | inr semid => semtot s' + nsems <= Z.of_nat (length (sem_pool s')) ∧
                   ∃ i k, semid = Z.of_nat i ∧ sema s' !! i = Some k ∧ allocated k = false
    end.
Proof.
  intros Hok Hn. unfold new_slot. rewrite st_bind_unfold. cbn [get]. pose proof (so_tot _ _ Hok) as Htot.
  assert (Hgrow : ∃ b s1, (if nsems >? Z.of_nat (length (sem_pool s)) - semtot s then grow_sem_pool lim (semtot s + nsems) else mret true) s = Ok (b, s1) ∧
    grown s s1 ∧ (b = true → semtot s1 + nsems <= Z.of_nat (length (sem_pool s1)))).
  { rewrite Z.gtb_ltb. destruct (Z.ltb_spec (Z.of_nat (length (sem_pool s)) - semtot s) nsems) as [?|?].
    - apply grow_pool_spec; lia.
    - exists true, s. split; [done |]. split; [apply grown_refl | lia]. }
  destruct Hgrow as (b & s1 & E & Hg & Hroom). rewrite st_bind_unfold, E. destruct b; cbn [negb]; [| by eexists _, s1].
  specialize (Hroom eq_refl). rewrite st_bind_unfold. cbn [get].
  pose proof (find_set_spec (λ k, negb (allocated k)) (sema s1) 0) as Hfind. destruct (find_set _ _ _) as [z|].
  - destruct Hfind as (n & k & -> & Hk & Hf & _). eexists _, s1. split; [done |]. split; [done |]. split; [done |].
    exists n, k. apply negb_true_iff in Hf. done.
  - destruct (grow_sema_spec s1) as (b & s2 & E2 & Hg2 & Hp2 & Hb). rewrite st_bind_unfold, E2. eexists _, s2. split; [done |].
    split; [by eapply grown_trans |]. destruct b; [| done]. split; [rewrite (gr_tot _ _ Hg2), Hp2; done |].
    exists (length (sema s1)), zero_semid. auto.
Qed.

(** ** The new set *)

Lemma bzero_spec ms : ∀ s pre post, sem_pool s = pre ++ ms ++ post →
  bzero_sems (length ms) (Z.of_nat (length pre)) s =
    Ok ((), with_pool s (pre ++ replicate (length ms) zero_sem ++ post)).
Proof.
  induction ms as [|m ms IH]; intros s pre post Hp; cbn [length bzero_sems replicate]; [by rewrite with_pool_id |].
  rewrite st_bind_unfold, put_sem_eq by (rewrite Hp, !length_app; cbn; lia).
  assert (Hins : <[length pre := zero_sem]> (sem_pool s) = (pre ++ [zero_sem]) ++ ms ++ post).
  { rewrite Hp, insert_app_r_alt, Nat.sub_diag by lia. cbn. by rewrite <- (assoc_L (++)). }
  replace (Z.of_nat (length pre) + 1) with (Z.of_nat (length (pre ++ [zero_sem]))) by (rewrite length_app; cbn; lia).
  rewrite (IH _ (pre ++ [zero_sem]) post) by done. rewrite with_pool_twice. by rewrite <- (assoc_L (++)).
Qed.

Lemma sems_replaced pre ms ms' post k : length ms' = length ms → 0 <= sem_base k →
  sem_base k + sem_nsems k <= Z.of_nat (length pre) → sems (pre ++ ms' ++ post) k = sems (pre ++ ms ++ post) k.
Proof. intros Hl Hb H. by rewrite !(sems_app pre) by done. Qed.

Lemma seq_range x : 0 <= Z.land x 0x7fff < 2 ^ 15.
Proof. change 0x7fff with (Z.ones 15). rewrite Z.land_ones by lia. apply Z.mod_pos_bound. lia. Qed.

(** Appending a set at the end of the pool. *)
Lemma append_ok s i k k' pre ms post s' : sem_ok lim s → sema s !! i = Some k → allocated k = false →
  sem_pool s = pre ++ ms ++ post → semtot s = Z.of_nat (length pre) → 0 < Z.of_nat (length ms) <= 2 ^ 15 →
  allocated k' = true → sem_base k' = semtot s → sem_nsems k' = Z.of_nat (length ms) →
  s' = State (semtot s + Z.of_nat (length ms)) (<[i := k']> (sema s)) (pre ++ replicate (length ms) zero_sem ++ post)
         (semu_list_idx s) (semu s) (nulls s) (woken s) →
  stepped lim s s' ∧ set_to (abst s) (abst s') i (Some (set_base 0 k', replicate (length ms) zero_sem)) ∧ undos_same (abst s) (abst s').
Proof.
  intros Hok Hk Ha Hp Htot Hlen Ha' Hb' Hn' ->. pose proof (lookup_lt_Some _ _ _ Hk) as Hi.
  set (s' := State _ _ _ _ _ _ _). assert (Hi' : sema s' !! i = Some k') by (by apply list_lookup_insert_eq).
  assert (Hset : set_to (abst s) (abst s') i (Some (set_base 0 k', replicate (length ms) zero_sem))).
  { split; cbn [abst asets].
    - rewrite (view_eq s' i k' Hi'), Ha'. do 2 f_equal.
      apply (seg_sems s' i k' pre (replicate (length ms) zero_sem) post). constructor; [done | done | lia | rewrite length_replicate; lia].
    - intros j Hj. unfold view. cbn [sema sem_pool s']. rewrite list_lookup_insert_ne by done.
      destruct (sema s !! j) as [kj|] eqn:Hkj; [| done]. cbn. destruct (allocated kj) eqn:Haj; [| done].
      destruct (sem_ok_range lim s j kj Hok Hkj Haj) as (? & ? & ?). do 2 f_equal. rewrite Hp.
      apply sems_replaced; [apply length_replicate | done | lia]. }
  split; [| done]. constructor; [| done | cbn; by rewrite length_insert]. pose proof Hok as [Ho Ht Hv Hg Hkeys]. constructor.
  - destruct Ho as (order & Hnd & Htl & Ho). exists (order ++ [i]).
    assert (Hni : i ∉ order). { intros Hin. apply (Ho i k Hk) in Hin. congruence. }
    split_and!.
    + apply NoDup_app. split_and!; [done | | apply NoDup_singleton]. set_solver.
    + apply tiled_app. exists (semtot s). split.
      * eapply tiled_ext; [exact Htl |]. intros j kj Hj Hkj. exists kj. cbn. by rewrite list_lookup_insert_ne by (by intros ->).
      * exists k'. split_and!; [done | done | done | lia | lia | cbn; lia].
    + intros j kj. cbn [sema s']. destruct (decide (j = i)) as [->|Hne].
      * rewrite list_lookup_insert_eq by done. intros [= <-]. set_solver.
      * rewrite list_lookup_insert_ne by done. intros Hkj. rewrite <- (Ho j kj Hkj). set_solver.
  - cbn. rewrite !length_app, length_replicate. lia.
  - cbn. rewrite Hp, !Forall_app in Hv. rewrite !Forall_app. split_and!; [apply Hv | | apply Hv]. apply Forall_replicate. split; cbn; lia.
  - done.
  - intros q key v Hkey. destruct (Hkeys q key v Hkey) as (j & x & Hj & Hx & Hr). exists j, x. split; [done |]. split; [| done].
    destruct Hset as [_ Hother]. cbn in Hother. rewrite Hother; [done |]. intros ->. rewrite (view_eq s i k Hk), Ha in Hx. done.
Qed.

Lemma init_set_spec s c now key nsems semflg i k : sem_ok lim s → sema s !! i = Some k → allocated k = false →
  0 < nsems <= 2 ^ 15 → semtot s + nsems <= Z.of_nat (length (sem_pool s)) → 0 <= semtot s →
  ∃ s' seq, (init_set c now key nsems semflg (Z.of_nat i) ;; k ← get_semid (Z.of_nat i);
             mret (0, IXSEQ_TO_IPCID (Z.of_nat i) (_seq (sem_perm k)))) s = Ok ((0, IXSEQ_TO_IPCID (Z.of_nat i) seq), s') ∧
    0 <= seq < 2 ^ 15 ∧ stepped lim s s' ∧ undos_same (abst s) (abst s') ∧
    set_to (abst s) (abst s') i (Some (new_set c now key nsems semflg seq, replicate (Z.to_nat nsems) zero_sem)).
Proof.
  intros Hok Hk Ha Hn Hroom Htot0. pose proof (lookup_lt_Some _ _ _ Hk) as Hi. set (seq := Z.land (_seq (sem_perm k) + 1) 0x7fff).
  set (k' := SemidKernel (IpcPerm (cr_uid c) (cr_gid c) (cr_uid c) (cr_gid c) (Z.lor (Z.land semflg 0x1ff) SEM_ALLOC) seq key) (semtot s) nsems 0 now).
  set (pre := take (Z.to_nat (semtot s)) (sem_pool s)). set (ms := take (Z.to_nat nsems) (drop (Z.to_nat (semtot s)) (sem_pool s))).
  set (post := drop (Z.to_nat nsems) (drop (Z.to_nat (semtot s)) (sem_pool s))).
  assert (Hp : sem_pool s = pre ++ ms ++ post) by (unfold pre, ms, post; by rewrite !take_drop).
  assert (Hpre : Z.of_nat (length pre) = semtot s) by (unfold pre; rewrite length_take; lia).
  assert (Hms : length ms = Z.to_nat nsems) by (unfold ms; rewrite length_take, length_drop; lia).
  set (s2 := State (semtot s + Z.of_nat (length ms)) (<[i := k']> (sema s))
    (pre ++ replicate (length ms) zero_sem ++ post) (semu_list_idx s) (semu s) (nulls s) (woken s)).
  destruct (append_ok s i k k' pre ms post s2 Hok Hk Ha Hp) as (Hst & Hset & Hun); try done; try lia.
  { unfold allocated. cbn. rewrite tst_lor. change (tst SEM_ALLOC SEM_ALLOC) with true. by rewrite orb_true_r. }
  { cbn. lia. }
  exists s2, seq. split; [| split; [apply seq_range |]; split; [exact Hst |]; split; [exact Hun |]; by rewrite <- Hms].
  assert (Hn16 : u16 nsems = nsems) by (apply wrap_small; unfold in_u; lia).
  rewrite st_bind_unfold. unfold init_set. rewrite st_bind_unfold, (get_semid_eq s i k Hk), st_bind_unfold. cbn [get].
  rewrite st_bind_unfold, put_semid_eq, Hn16 by done. fold seq k'. rewrite st_bind_unfold. cbn [set_semtot with_sema semtot sema sem_pool semu_list_idx semu nulls woken].
  assert (Eb : ∀ s0, sem_pool s0 = sem_pool s →
    bzero_sems (Z.to_nat nsems) (semtot s) s0 = Ok ((), with_pool s0 (pre ++ replicate (length ms) zero_sem ++ post))).
  { intros s0 H0. rewrite <- Hpre, <- Hms. apply bzero_spec. congruence. }
  rewrite Eb by done.
  rewrite st_bind_unfold, (get_semid_eq _ i k') by (by apply list_lookup_insert_eq). cbn. unfold s2. by replace (Z.of_nat (length ms)) with nsems by lia.
Qed.

Lemma semtot_nonneg s : sem_ok lim s → 0 <= semtot s.
Proof. intros Hok. destruct (so_order _ _ Hok) as (order & _ & Ht & _). by apply tiled_le in Ht. Qed.

Lemma semget_spec s c mac now key nsems semflg : sem_ok lim s → nsems <= 2 ^ 15 →
  ∃ r s', semget lim c mac now key nsems semflg s = Ok (r, s') ∧ stepped lim s s' ∧
    spec_get lim c mac now key nsems semflg r (abst s) (abst s').
Proof.
  intros Hok Hlim. unfold semget. rewrite st_bind_unfold. cbn [get]. cbv zeta.
  set (f := λ k, allocated k && (_key (sem_perm k) =? key)).
  pose proof (find_set_spec f (sema s) 0) as Hfind.
  assert (Hview : ∀ i x, view s i = Some x → ∃ k, sema s !! i = Some k ∧ (f k = true ↔ _key (sem_perm x.1) = key)).
  { intros i x (k & Hk & Ha & ->)%view_Some. exists k. split; [done |]. unfold f. rewrite Ha. apply Z.eqb_eq. }
  assert (Hnew : key = IPC_PRIVATE ∨ (∀ i x, asets (abst s) i = Some x → _key (sem_perm x.1) ≠ key) →
    ∃ r s', (if (key =? IPC_PRIVATE) || tst semflg IPC_CREAT then
        if (nsems <=? 0) || (nsems >? semmsl lim) then mret (EINVAL, 0)
        else r ← new_slot lim nsems;
          match r with
          | inl eval => mret (eval, 0)
          | inr semid => init_set c now key nsems semflg semid ;; k ← get_semid semid; mret (0, IXSEQ_TO_IPCID semid (_seq (sem_perm k)))
          end
      else mret (ENOENT, 0)) s = Ok (r, s') ∧ stepped lim s s' ∧ spec_get lim c mac now key nsems semflg r (abst s) (abst s')).
  { intros Hnone. unfold spec_get. destruct ((key =? IPC_PRIVATE) || tst semflg IPC_CREAT).
    2:{ eexists _, s. split; [done |]. split; [done |]. right. by split. }
    destruct ((nsems <=? 0) || (nsems >? semmsl lim)) eqn:Hr.
    { eexists _, s. split; [done |]. split; [done |]. right. by split. }
    apply orb_false_iff in Hr as [Hpos _]. apply Z.leb_gt in Hpos.
    destruct (new_slot_spec s nsems Hok Hpos) as (r & s1 & E & Hg & Hout). destruct (grown_ok s s1 Hok Hg) as [Hst1 [Hsame1 Hun1]].
    rewrite st_bind_unfold, E. destruct r as [e|semid].
    { subst e. eexists _, s1. split; [done |]. split; [done |]. right. split; [done |]. by left. }
    destruct Hout as (Hroom & i & k & -> & Hk & Ha).
    destruct (init_set_spec s1 c now key nsems semflg i k) as (s2 & seq & E2 & Hseq & Hst2 & Hun2 & [Hset2 Hoth2]); try done;
      [apply Hst1 | by apply semtot_nonneg, Hst1 |].
    rewrite E2. eexists _, s2. split; [done |].
    split. { destruct Hst1, Hst2. constructor; [done | auto | lia]. }
    right. split; [done |]. right. exists i, seq. split.
    { rewrite <- Hsame1. cbn. by rewrite (view_eq s1 i k Hk), Ha. }
    split; [done |]. split; [done |]. split; [| intros q; by rewrite Hun2, Hun1]. split; [done |].
    intros j Hj. by rewrite Hoth2, Hsame1. }
  destruct (Z.eqb_spec key IPC_PRIVATE) as [Hpriv|Hpriv]; cbn [negb].
  { apply Hnew. by left. }
  destruct (find_set f (sema s) 0) as [z|].
  - destruct Hfind as (n & k & -> & Hk & Hf & Hmin). rewrite Z.add_0_l, st_bind_unfold, (get_semid_eq s n k Hk).
    exists (spec_found c mac key nsems semflg n (set_base 0 k)), s. split; [| split; [done |]].
    + unfold spec_found. cbn [set_base sem_perm sem_nsems]. repeat case_match; done.
    + left. split; [done |]. unfold f in Hf. apply andb_true_iff in Hf as [Ha Hkey]. apply Z.eqb_eq in Hkey.
      exists n, (set_base 0 k, sems (sem_pool s) k). split; [| split; [done | done]]. split; [cbn; by rewrite (view_eq s n k Hk), Ha |]. split; [done |].
      intros j y Hj Hy. destruct (Hview j y Hy) as (kj & Hkj & Hiff). rewrite <- Hiff, (Hmin j kj Hj Hkj). done.
  - apply Hnew. right. intros i x Hx. destruct (Hview i x Hx) as (k & Hk & Hiff). rewrite <- Hiff, (Hfind i k Hk). done.
Qed.

End creation.
