(* ===== verification/SemThms.v ===== *)
(** * System V semaphores: runs

    Any number of processes make calls; a thread that has to wait sleeps in
    [semop], and goes on when it is woken up or interrupted.  Every call of
    every run does what the specification says, and none faults. *)

From S2P Require Import Prelude Ipc Sem SemSpec SemUndos SemAdjust SemClear SemLayout SemOps SemRmid SemCtl SemGet SemExit.

(** ** Runs *)

(** A thread that sleeps in [semop]. *)
Record sleeper := Sleeper { sl_proc : Z; sl_id : Z; sl_sops : list sembuf; sl_sop : sembuf; sl_undos : bool }.

Record sys := Sys { kernel : state; sleepers : gmap nat sleeper }.

Inductive event :=
  | EGet (c : cred) (mac now key nsems semflg : Z)
  | ECtl (p : Z) (c : cred) (mac now id semnum : Z) (cmd : semctl_cmd)
  | EOp (t : nat) (p : Z) (c : cred) (mac now id nsops : Z) (copyin : Z + list sembuf)
  | EWake (t : nat) (now err : Z)
  | EExit (p : Z).

Inductive answer :=
  | AGet (r : Z * Z)
  | ACtl (r : Z * semctl_ret)
  | AOp (r : semop_state)
  | AExit.

(** The thread [t] after a section of [semop]. *)
Definition settle (t : nat) (p id : Z) (sops : list sembuf) (r : semop_state) (ts : gmap nat sleeper) : gmap nat sleeper :=
  match r with
  | SReturn _ => delete t ts
  | SSleep sop un => <[t := Sleeper p id sops sop un]> ts
  end.

Definition step (lim : seminfo) (e : event) (y : sys) : res (answer * sys) :=
  match e with
  | EGet c mac now key nsems semflg =>
      '(r, s) ← semget lim c mac now key nsems semflg (kernel y); Ok (AGet r, Sys s (sleepers y))
  | ECtl p c mac now id semnum cmd =>
      '(r, s) ← semctl p c mac now id semnum cmd (kernel y); Ok (ACtl r, Sys s (sleepers y))
  | EOp t p c mac now id nsops copyin =>
      '(r, s) ← semop lim p c mac now id nsops copyin (kernel y);
      Ok (AOp r, Sys s (settle t p id (match copyin with inl _ => [] | inr sops => sops end) r (sleepers y)))
  | EWake t now err =>
      match sleepers y !! t with
      | None => Fault
      | Some sl =>
          '(r, s) ← semop_wake lim (sl_proc sl) now (sl_id sl) (sl_sops sl) (sl_sop sl) (sl_undos sl) err (kernel y);
          Ok (AOp r, Sys s (settle t (sl_proc sl) (sl_id sl) (sl_sops sl) r (sleepers y)))
      end
  | EExit p => '(_, s) ← semexit p (kernel y); Ok (AExit, Sys s (sleepers y))
  end.

(** Who may do what: a thread that sleeps makes no calls, and only those that
    sleep wake up.  Sets have at most 32768 semaphores. *)
Definition event_ok (y : sys) (e : event) : Prop :=
  match e with
  | EGet _ _ _ _ nsems _ => nsems <= 2 ^ 15
  | EOp t _ _ _ _ _ _ copyin => sleepers y !! t = None ∧ copyin_ok copyin
  | EWake t _ _ => is_Some (sleepers y !! t)
  | _ => True
  end.

Definition spec_event (lim : seminfo) (ts : gmap nat sleeper) (e : event) (r : answer) (a a' : astate) : Prop :=
  match e, r with
  | EGet c mac now key nsems semflg, AGet r => spec_get lim c mac now key nsems semflg r a a'
  | ECtl p c mac now id semnum cmd, ACtl r => spec_ctl p c mac now id semnum cmd r a a'
  | EOp t p c mac now id nsops copyin, AOp r => spec_semop p c mac now id nsops copyin r a a'
  | EWake t now err, AOp r =>
      match ts !! t with
      | Some sl => spec_wake (sl_proc sl) now (sl_id sl) (sl_sops sl) (sl_sop sl) err r a a'
      | None => False
      end
  | EExit p, AExit => spec_exit p a a'
  | _, _ => False
  end.

(** Each event of the list that may happen does, as specified, and so do the
    events after it. *)
Fixpoint refines (lim : seminfo) (es : list event) (y : sys) : Prop :=
  match es with
  | [] => True
  | e :: es =>
      event_ok y e →
      ∃ r y', step lim e y = Ok (r, y') ∧
        spec_event lim (sleepers y) e r (abst (kernel y)) (abst (kernel y')) ∧ refines lim es y'
  end.

(** Nothing is allocated before the first call. *)
Definition boot (ns : list bool) : sys := Sys (State 0 [] [] (-1) [] ns []) ∅.

(** ** Invariant *)

Definition sleeper_ok (s : state) (sl : sleeper) : Prop :=
  vec_ok (sl_sops sl) ∧ IPCID_TO_IX (sl_id sl) < Z.of_nat (length (sema s)) ∧ 0 <= sem_num (sl_sop sl).

Record sys_ok (lim : seminfo) (y : sys) : Prop := {
  sy_ok : sem_ok lim (kernel y);
  sy_nulls : true ∉ nulls (kernel y);
  sy_sleepers : map_Forall (λ _ sl, sleeper_ok (kernel y) sl) (sleepers y)
}.

Lemma boot_ok lim ns : 0 <= semume lim → true ∉ ns → sys_ok lim (boot ns).
Proof.
  intros Hl Hns. constructor; [| done | apply map_Forall_empty]. constructor; try done.
  - exists []. split_and!; [apply NoDup_nil_2 | done |]. done.
  - exists []. constructor; try done; [apply NoDup_nil_2 |]. intros p j j' u u' [Hu _]. done.
Qed.

Lemma sleepers_step lim s s' (ts : gmap nat sleeper) : stepped lim s s' → map_Forall (λ _ sl, sleeper_ok s sl) ts → map_Forall (λ _ sl, sleeper_ok s' sl) ts.
Proof.
  intros [_ _ Hlen] H. eapply map_Forall_impl; [exact H |]. intros t sl (H1 & H2 & H3). split_and!; [done | lia | done].
Qed.

(** The operation that a thread sleeps for. *)
Lemma attempt_sleep p now i sops sop un a a' : spec_attempt p now i sops (SSleep sop un) a a' →
  0 <= sem_num sop ∧ is_Some (asets a i).
Proof.
  intros (k & ms & Ha & H). split; [| by eexists]. destruct (judge ms [] sops) as [|n sop'|n].
  - destruct H as [[? _]|[[e [_ ?]] _]]; done.
  - destruct (tst _ _); [by destruct H |]. destruct H as ([un' [= <- _]] & Hin & _). apply Hin.
  - by destruct H.
Qed.

Lemma semop_sleep p c mac now id nsops copyin sop un a a' : spec_semop p c mac now id nsops copyin (SSleep sop un) a a' →
  0 <= sem_num sop ∧ is_Some (asets a (Z.to_nat (IPCID_TO_IX id))).
Proof.
  unfold spec_semop. destruct (named a id) as [[k ms]|]; [| by intros [? _]]. cbv zeta.
  repeat case_match; try by intros [? _]. apply attempt_sleep.
Qed.

Lemma wake_sleep p now id sops sop0 err sop un a a' : spec_wake p now id sops sop0 err (SSleep sop un) a a' → 0 <= sem_num sop.
Proof.
  unfold spec_wake. destruct (named a id) as [[k ms]|]; [| by intros [? _]]. case_match; [| by intros [? _]].
  intros (a1 & _ & _ & H'). destruct (err =? 0); [| by destruct H']. by apply attempt_sleep in H' as [? _].
Qed.

Lemma view_index s i : is_Some (view s i) → (i < length (sema s))%nat.
Proof. intros [x (k & Hk & _)%view_Some]. by apply lookup_lt_Some in Hk. Qed.

Lemma settle_ok s t p id sops r ts : map_Forall (λ _ sl, sleeper_ok s sl) ts →
  (∀ sop un, r = SSleep sop un → sleeper_ok s (Sleeper p id sops sop un)) →
  map_Forall (λ _ sl, sleeper_ok s sl) (settle t p id sops r ts).
Proof.
  intros H Hr. destruct r as [e|sop un]; cbn; [by apply map_Forall_delete |]. apply map_Forall_insert_2; auto.
Qed.

(** ** Every step *)

Section steps.

Context (lim : seminfo) (Hume : 0 <= semume lim < 2 ^ 15).

Lemma sem_step_ok y e : sys_ok lim y → event_ok y e →
  ∃ r y', step lim e y = Ok (r, y') ∧ sys_ok lim y' ∧
    spec_event lim (sleepers y) e r (abst (kernel y)) (abst (kernel y')).
Proof.
  intros [Hok Hnulls Hsl] He. destruct e as [c mac now key nsems semflg|p c mac now id semnum cmd|t p c mac now id nsops copyin|t now err|p]; cbn [step].
  - destruct (semget_spec lim Hume (kernel y) c mac now key nsems semflg Hok He) as (r & s' & -> & Hst & Hsp).
    eexists _, _. split; [done |]. split; [| done]. constructor; [apply Hst | by apply Hst | by eapply sleepers_step].
  - destruct (semctl_spec lim Hume (kernel y) p c mac now id semnum cmd Hok) as (r & s' & -> & Hst & Hsp).
    eexists _, _. split; [done |]. split; [| done]. constructor; [apply Hst | by apply Hst | by eapply sleepers_step].
  - destruct He as [_ Hcopy].
    destruct (semop_spec lim Hume (kernel y) p c mac now id nsops copyin Hok Hnulls Hcopy) as (r & s' & -> & Hst & Hsp).
    eexists _, _. split; [done |]. split; [| done]. constructor; [apply Hst | by apply Hst |].
    apply settle_ok; [by eapply sleepers_step |]. intros sop un ->. apply semop_sleep in Hsp as [Hn Hi].
    apply view_index in Hi. pose proof (st_len _ _ _ Hst). pose proof (ipcid_ix id). split_and!; cbn; [destruct copyin; [by apply Forall_nil_2 | done] | lia | done].
  - destruct He as [sl Ht]. rewrite Ht. destruct (map_Forall_lookup_1 _ _ _ _ Hsl Ht) as (Hvec & Hid & Hnum).
    destruct (semop_wake_spec lim Hume (kernel y) (sl_proc sl) now (sl_id sl) (sl_sops sl) (sl_sop sl) (sl_undos sl) err)
      as (r & s' & -> & Hst & Hsp); try done.
    eexists _, _. split; [done |]. split; [| by cbn; rewrite Ht]. constructor; [apply Hst | by apply Hst |].
    apply settle_ok; [by eapply sleepers_step |]. intros sop un ->. apply wake_sleep in Hsp. pose proof (st_len _ _ _ Hst).
    split_and!; cbn; [done | lia | done].
  - destruct (semexit_spec lim Hume (kernel y) p Hok) as (s' & -> & Hst & Hsp).
    eexists _, _. split; [done |]. split; [| done]. constructor; [apply Hst | by apply Hst | by eapply sleepers_step].
Qed.

Lemma refines_ok es : ∀ y, sys_ok lim y → refines lim es y.
Proof.
  induction es as [|e es IH]; intros y Hok; [done |]. cbn [refines]. intros He.
  destruct (sem_step_ok y e Hok He) as (r & y' & E & Hok' & Hsp). exists r, y'. auto.
Qed.

End steps.

(** ** Values *)

Definition set_values (x : aset) : list Z := semval <$> x.2.

Definition values (s : state) (i : nat) : option (list Z) := set_values <$> view s i.

(** The amount that the exit of a process adds to a semaphore. *)
Definition adj_of (m : gmap (Z * Z) Z) (key : Z * Z) : Z := default 0 (m !! key).

Lemma adj_of_adjust m key d key' :
  adj_of (adjust m key d) key' = if bool_decide (key = key') then s16 (adj_of m key + d) else adj_of m key'.
Proof.
  unfold adj_of, adjust. case_bool_decide as Hk.
  - subst key'. case_match eqn:Hz.
    + rewrite lookup_delete_eq. apply Z.eqb_eq in Hz. by rewrite Hz.
    + by rewrite lookup_insert_eq.
  - case_match; [by rewrite lookup_delete_ne | by rewrite lookup_insert_ne].
Qed.

Lemma adj_of_record i sops n : Forall (λ sop, tst (sem_flg sop) SEM_UNDO = true) sops → ∀ m,
  - 2 ^ 15 <= adj_of m (Z.of_nat i, Z.of_nat n) < 2 ^ 15 →
  adj_of (record (Z.of_nat i) sops m) (Z.of_nat i, Z.of_nat n) = s16 (adj_of m (Z.of_nat i, Z.of_nat n) - delta sops n).
Proof.
  induction sops as [|sop sops IH] using rev_ind; intros Hall m Hm.
  { cbn. rewrite Z.sub_0_r. by rewrite s16_id. }
  apply Forall_app in Hall as [Hall [Hs _]%Forall_cons]. rewrite record_snoc, delta_snoc. unfold wants_undo. rewrite Hs. cbn [andb].
  destruct (Z.eqb_spec (sem_op sop) 0) as [Hz|Hz]; cbn [negb].
  { rewrite IH by done. rewrite Hz. by destruct (_ =? _); rewrite Z.add_0_r. }
  rewrite adj_of_adjust. case_bool_decide as Hk.
  - injection Hk as Hk. rewrite Hk, IH by done. rewrite (proj2 (Z.eqb_eq _ _)) by done.
    apply swrap_cong. rewrite Z.add_mod, swrap_mod, <- Z.add_mod by lia. f_equal. lia.
  - rewrite IH by done. destruct (Z.eqb_spec (sem_num sop) (Z.of_nat n)) as [Heq|Hne]; [by rewrite Heq in Hk |]. by rewrite Z.add_0_r.
Qed.

Lemma exit_val_adj mp key m : val_ok m → - 2 ^ 15 <= adj_of mp key → 0 <= semval m + adj_of mp key < 2 ^ 16 →
  semval (exit_val (mp !! key) m) = semval m + adj_of mp key.
Proof.
  unfold adj_of, val_ok, in_u. intros Hv Hd Hr. destruct (mp !! key) as [d|]; cbn [default from_option id exit_val] in *; [| lia].
  cbn [set_val semval]. rewrite (wrap_small 16 (semval m + d)) by done.
  destruct (Z.ltb_spec d 0); [| done]. rewrite (proj2 (Z.ltb_ge _ _)) by lia. done.
Qed.

(** A successful [semop]. *)
Lemma semop_success p c mac now id nsops sops a a' k ms : named a id = Some (k, ms) →
  spec_semop p c mac now id nsops (inr sops) (SReturn 0) a a' →
  judge ms [] sops = VDone ∧
  set_to a a' (Z.to_nat (IPCID_TO_IX id)) (Some (set_otime now k, stamp p sops (shift (delta sops) ms))) ∧
  undo_to a a' p (record (IPCID_TO_IX id) sops (aundos a p)).
Proof.
  intros Hn. unfold spec_semop. rewrite Hn. cbv zeta.
  destruct (Z.eqb_spec (ipcperm c (sem_perm k) IPC_W) 0) as [_|He]; cbn [negb]; [| by intros [[= ?] _]].
  case_match; [by intros [? _] |]. destruct (Z.eqb_spec mac 0) as [_|He]; cbn [negb]; [| by intros [[= ?] _]].
  intros (k' & ms' & Ha & H'). unfold named in Hn. rewrite Ha in Hn. cbn in Hn.
  destruct (_ =? IPCID_TO_SEQ id); [| done]. simplify_eq.
  destruct (judge ms [] sops) as [|n sop|n].
  - destruct H' as [(_ & Hset & Hun)|((e & He & [= <-]) & _)]; [| done]. split; [done |]. split; [done |].
    rewrite Z2Nat.id in Hun by apply ipcid_ix. done.
  - destruct (tst _ _); [by destruct H' as [[= ?] _] | by destruct H' as [[un ?] _]].
  - by destruct H' as [[= ?] _].
Qed.

(** An unsuccessful one, when every semaphore named is in the set. *)
Lemma judge_no_fbig ms sops n : ∀ dn, Forall (in_set ms) sops → judge ms dn sops ≠ VFbig n.
Proof.
  induction sops as [|sop sops IH]; intros dn Hin; [done |]. apply Forall_cons in Hin as [Hs Hin]. cbn.
  unfold in_set in Hs. destruct (lookup_lt_is_Some_2 ms (Z.to_nat (sem_num sop))) as [m Hm]; [lia |]. rewrite Hm. case_match; [by apply IH | done].
Qed.

Lemma counted_values d sop ms : semval <$> counted d sop ms = semval <$> ms.
Proof.
  apply list_eq. intros n. rewrite !list_lookup_fmap. unfold counted. rewrite list_lookup_alter. case_decide; [subst n | done].
  destruct (ms !! _); [| done]. cbn. unfold count. by destruct (sem_op sop =? 0).
Qed.

Definition avalues (a : astate) (i : nat) : option (list Z) := set_values <$> asets a i.

Lemma same_values a a' : same a a' → (∀ j, avalues a' j = avalues a j) ∧ undos_same a a'.
Proof. intros [Hs Hu]. split; [| done]. intros j. unfold avalues. by rewrite Hs. Qed.

Lemma semop_failure p c mac now id nsops sops r a a' k ms : named a id = Some (k, ms) → Forall (in_set ms) sops →
  spec_semop p c mac now id nsops (inr sops) r a a' → r ≠ SReturn 0 →
  (∀ j, avalues a' j = avalues a j) ∧ undos_same a a'.
Proof.
  intros Hn Hin. unfold spec_semop. rewrite Hn. cbv zeta.
  case_match; [intros [_ ?] _; by apply same_values |]. case_match; [intros [_ ?] _; by apply same_values |].
  case_match; [intros [_ ?] _; by apply same_values |].
  intros (k' & ms' & Ha & H') Hr. unfold named in Hn. rewrite Ha in Hn. cbn in Hn.
  destruct (_ =? IPCID_TO_SEQ id); [| done]. simplify_eq.
  destruct (judge ms [] sops) as [|n sop|n] eqn:Hj; [| | by apply judge_no_fbig in Hj].
  - destruct H' as [(? & _)|(_ & ? & _)]; [done | by apply same_values].
  - destruct (tst _ _); [by apply same_values, H' |]. destruct H' as (_ & _ & [Hset Hoth] & Hun). split; [| done].
    intros j. unfold avalues. destruct (decide (j = Z.to_nat (IPCID_TO_IX id))) as [->|Hne]; [| by rewrite Hoth].
    rewrite Hset, Ha. cbn. by rewrite counted_values.
Qed.

Lemma stamp_values p sops ms : semval <$> stamp p sops ms = semval <$> ms.
Proof.
  apply list_eq. intros n. rewrite !list_lookup_fmap, stamp_lookup. destruct (ms !! n); [| done]. cbn. by case_match.
Qed.

#[export] Instance sembuf_eq_dec : EqDecision sembuf.
Proof. solve_decision. Defined.
#[export] Instance semop_state_eq_dec : EqDecision semop_state.
Proof. solve_decision. Defined.

(** ** Properties *)

(** C4: in every run from boot in which no set of more than 32768 semaphores is
    asked for and no allocation fails, whatever calls any number of processes
    make and whenever sleeping threads are woken up or interrupted, no call
    faults or panics, and each call has the effect and the answer of its
    specification on the sets and on the adjustments of the processes: a new
    set is in a slot that was free and all zero, removing a set moves the
    others in the pool without changing them and drops every adjustment for
    it, [semop] does its whole vector, sleeps or fails as specified, and exit
    makes each adjustment of the process once.  ([semexit_underrun] shows what
    happens with larger sets.) *)
Theorem sem_refines (lim : seminfo) (ns : list bool) (es : list event)
    (Hume : 0 <= semume lim < 2 ^ 15) (Hns : true ∉ ns) : refines lim es (boot ns).
Proof. apply refines_ok, boot_ok; [done | lia | done]. Qed.

(** C9: a call of [semop] on semaphores of the set is all or nothing: either
    it returns 0, every operation of the vector was possible when its turn
    came, each semaphore of the set has changed by the sum of the operations
    on it and no other set has changed; or no value and no adjustment has
    changed, also when the adjustments could be recorded only in part. *)
Theorem semop_all_or_nothing (lim : seminfo) (s : state) (p : Z) (c : cred) (mac now id nsops : Z) (sops : list sembuf)
    (k : semid_kernel) (ms : list sem)
    (Hume : 0 <= semume lim < 2 ^ 15) (Hok : sem_ok lim s) (Hns : true ∉ nulls s) (Hvec : vec_ok sops)
    (Hid : named (abst s) id = Some (k, ms)) (Hin : Forall (in_set ms) sops) :
  ∃ r s', semop lim p c mac now id nsops (inr sops) s = Ok (r, s') ∧
    (r = SReturn 0 ∧ judge ms [] sops = VDone ∧
     values s' (Z.to_nat (IPCID_TO_IX id)) = Some (imap (λ n m, u16 (semval m + delta sops n)) ms) ∧
     (∀ j, j ≠ Z.to_nat (IPCID_TO_IX id) → view s' j = view s j) ∨
     r ≠ SReturn 0 ∧ (∀ j, values s' j = values s j) ∧ (∀ q, umap s' q = umap s q)).
Proof.
  destruct (semop_spec lim Hume s p c mac now id nsops (inr sops) Hok Hns Hvec) as (r & s' & E & _ & Hsp).
  exists r, s'. split; [done |]. destruct (decide (r = SReturn 0)) as [->|Hr].
  - left. destruct (semop_success _ _ _ _ _ _ _ _ _ _ _ Hid Hsp) as (Hj & [Hset Hoth] & _). split; [done |]. split; [done |].
    split; [| exact Hoth]. unfold values. cbn in Hset. rewrite Hset. cbn. f_equal. rewrite stamp_values. apply list_eq. intros n.
    rewrite list_lookup_fmap, shift_lookup, list_lookup_imap. by destruct (ms !! n).
  - right. split; [done |]. by apply (semop_failure p c mac now id nsops sops r (abst s) (abst s') k ms).
Qed.

(** C10: exit takes back what a process did with [SEM_UNDO]: if, in a state
    whose sets have at most 32768 semaphores each, a process without adjustments
    has carried out a vector whose operations all have the flag, no value has
    left its range of 16 bits, the sums fit the signed 16 bits of the
    adjustments and no allocation fails, then when the process exits right
    afterwards every semaphore of every set has the value from before the
    vector, and nothing is left to adjust. *)
Theorem exit_undoes (lim : seminfo) (s s1 : state) (p : Z) (c : cred) (mac now id nsops : Z) (sops : list sembuf)
    (k : semid_kernel) (ms : list sem)
    (Hume : 0 <= semume lim < 2 ^ 15) (Hok : sem_ok lim s) (Hns : true ∉ nulls s) (Hvec : vec_ok sops)
    (Hid : named (abst s) id = Some (k, ms)) (Hnone : umap s p = ∅)
    (Hundo : Forall (λ sop, tst (sem_flg sop) SEM_UNDO = true) sops)
    (Hrange : ∀ n m, ms !! n = Some m → 0 <= semval m + delta sops n < 2 ^ 16 ∧ - 2 ^ 15 < delta sops n <= 2 ^ 15)
    (Hop : semop lim p c mac now id nsops (inr sops) s = Ok (SReturn 0, s1)) :
  ∃ s2, semexit p s1 = Ok ((), s2) ∧ (∀ j, values s2 j = values s j) ∧ umap s2 p = ∅.
Proof.
  destruct (semop_spec lim Hume s p c mac now id nsops (inr sops) Hok Hns Hvec) as (r & s' & E & Hst & Hsp).
  rewrite Hop in E. injection E as <- <-. destruct (semop_success _ _ _ _ _ _ _ _ _ _ _ Hid Hsp) as (Hj & [Hset Hoth] & [Hun _]).
  destruct (semexit_spec lim Hume s1 p (st_ok _ _ _ Hst)) as (s2 & E2 & _ & [Hex [Hem _]]). exists s2. split; [done |].
  split; [| exact Hem]. cbn in Hun, Hset, Hoth, Hex. rewrite Hnone in Hun. intros j. unfold values. rewrite Hex.
  set (i := Z.to_nat (IPCID_TO_IX id)) in *. assert (Hi : IPCID_TO_IX id = Z.of_nat i) by (pose proof (ipcid_ix id); lia).
  rewrite Hi in Hun. destruct (decide (j = i)) as [->|Hne].
  - rewrite Hset. unfold named in Hid. fold i in Hid. cbn [abst asets] in Hid. destruct (view s i) as [x|] eqn:Hv; [| done].
    cbn in Hid. case_match; [| done]. simplify_eq. cbn. f_equal. apply view_Some in Hv as (k0 & Hk0 & Ha0 & [= -> Hms]).
    destruct (sem_ok_seg lim s i k0 Hok Hk0 Ha0) as (_ & _ & _ & Hvals). rewrite <- Hms in Hvals.
    apply list_eq. intros n. rewrite !list_lookup_fmap, list_lookup_imap, stamp_lookup, shift_lookup.
    destruct (ms !! n) as [m|] eqn:Hm; [| done]. cbn [fmap option_fmap option_map]. f_equal. destruct (Hrange n m Hm) as [Hr Hd].
    assert (Hadj : adj_of (umap s1 p) (Z.of_nat i, Z.of_nat n) = - delta sops n).
    { rewrite Hun, adj_of_record by done. unfold adj_of. rewrite lookup_empty. change (default 0 None) with 0. apply s16_id. lia. }
    assert (Hu : u16 (semval m + delta sops n) = semval m + delta sops n) by by apply wrap_small.
    pose proof (Forall_lookup_1 _ _ _ _ Hvals Hm) as Hm0. unfold val_ok, in_u in Hm0. rewrite Hu.
    destruct (existsb _ sops); rewrite exit_val_adj; rewrite ?Hadj; unfold val_ok, in_u; cbn [set_pid set_val semval]; lia.
  - rewrite Hoth by done. destruct (view s j) as [x|] eqn:Hv; [| done]. cbn [fmap option_fmap option_map]. f_equal. rewrite exit_set_none; [done |]. intros n.
    destruct (umap s1 p !! (Z.of_nat j, n)) as [v|] eqn:Hl; [| done]. rewrite Hun in Hl.
    apply (record_keys lim Hume) in Hl as [[? H]|(sop & _ & [= ? _])]; [by rewrite lookup_empty in H | lia].
Qed.

(** ** Examples *)

(** The limits from the headers. *)
Definition limits : seminfo := Seminfo 87381 87381 87381 87381 10.

Definition root : cred := Cred 0 0 true (λ _, true).

Fixpoint run (lim : seminfo) (es : list event) (y : sys) : res (list answer * sys) :=
  match es with
  | [] => Ok ([], y)
  | e :: es => '(r, y) ← step lim e y; '(rs, y) ← run lim es y; Ok (r :: rs, y)
  end.

(** What a run answers, and the values of the set in slot [i] at its end. *)
Definition outcome (es : list event) (i : nat) : option (list answer * option (list Z)) :=
  match run limits es (boot []) with
  | Ok (rs, y) => Some (rs, values (kernel y) i)
  | Fault => None
  end.

(** A set of two semaphores is made; process 7 adds 3 and 1; a thread of
    process 8 waits to take 5 from the first; process 9 adds 4 with
    [SEM_UNDO] and the thread goes on; process 9 exits. *)
Definition demo : list event :=
  [ EGet root 0 100 0 2 0x1b6;
    EOp 1 7 root 0 101 0x10000 2 (inr [Sembuf 0 3 0; Sembuf 1 1 0]);
    EOp 2 8 root 0 102 0x10000 1 (inr [Sembuf 0 (-5) 0]);
    EOp 3 9 root 0 103 0x10000 1 (inr [Sembuf 0 4 SEM_UNDO]);
    EWake 2 104 0;
    EExit 9;
    ECtl 7 root 0 105 0x10000 0 IPC_RMID ].

Lemma demo_outcome : outcome (take 6 demo) 0 =
  Some ([AGet (0, 0x10000); AOp (SReturn 0); AOp (SSleep (Sembuf 0 (-5) 0) false); AOp (SReturn 0); AOp (SReturn 0); AExit],
        Some [0; 1]).
Proof. by vm_compute. Qed.

Lemma sem_refines_witness : 0 <= semume limits < 2 ^ 15 ∧ true ∉ ([] : list bool) ∧
  (∃ rs y, run limits demo (boot []) = Ok (rs, y) ∧ view (kernel y) 0 = None) ∧ refines limits demo (boot []).
Proof.
  split; [done |]. split; [apply not_elem_of_nil |]. split.
  - eexists _, _. split; [vm_compute; reflexivity |]. reflexivity.
  - apply (sem_refines limits [] demo); [done | apply not_elem_of_nil].
Defined.

(** The state after the first event of [demo]. *)
Definition demo_state : state :=
  match semget limits root 0 100 0 2 0x1b6 (kernel (boot [])) with Ok (_, s) => s | Fault => kernel (boot []) end.

Definition demo_set : aset :=
  (SemidKernel (IpcPerm 0 0 0 0 0x3b6 1 0) 0 2 0 100, [zero_sem; zero_sem]).

Lemma demo_ok : sem_ok limits demo_state.
Proof.
  destruct (semget_spec limits ltac:(done) (kernel (boot [])) root 0 100 0 2 0x1b6) as (r & s' & E & Hst & _).
  - apply boot_ok; [done | apply not_elem_of_nil].
  - done.
  - unfold demo_state. rewrite E. apply Hst.
Qed.

(** An operation that takes both semaphores up, and then asks for too much. *)
Lemma semop_all_or_nothing_witness :
  named (abst demo_state) 0x10000 = Some demo_set ∧
  ∃ r s', semop limits 7 root 0 101 0x10000 3 (inr [Sembuf 0 3 SEM_UNDO; Sembuf 1 1 0; Sembuf 0 (-4) IPC_NOWAIT]) demo_state = Ok (r, s') ∧
    (r = SReturn 0 ∧ judge demo_set.2 [] [Sembuf 0 3 SEM_UNDO; Sembuf 1 1 0; Sembuf 0 (-4) IPC_NOWAIT] = VDone ∧
     values s' 0 = Some (imap (λ n m, u16 (semval m + delta [Sembuf 0 3 SEM_UNDO; Sembuf 1 1 0; Sembuf 0 (-4) IPC_NOWAIT] n)) demo_set.2) ∧
     (∀ j, j ≠ 0%nat → view s' j = view demo_state j) ∨
     r ≠ SReturn 0 ∧ (∀ j, values s' j = values demo_state j) ∧ (∀ q, umap s' q = umap demo_state q)).
Proof.
  split; [by vm_compute |].
  apply (semop_all_or_nothing limits demo_state 7 root 0 101 0x10000 3 [Sembuf 0 3 SEM_UNDO; Sembuf 1 1 0; Sembuf 0 (-4) IPC_NOWAIT] demo_set.1 demo_set.2).
  - done.
  - exact demo_ok.
  - vm_compute. apply not_elem_of_nil.
  - repeat apply Forall_cons_2; try apply Forall_nil_2; by vm_compute.
  - by vm_compute.
  - repeat apply Forall_cons_2; try apply Forall_nil_2; by vm_compute.
Defined.

Definition demo_sops : list sembuf := [Sembuf 0 3 SEM_UNDO; Sembuf 1 1 SEM_UNDO; Sembuf 0 (-2) SEM_UNDO].

Definition demo_after : state :=
  match semop limits 7 root 0 101 0x10000 3 (inr demo_sops) demo_state with Ok (_, s) => s | Fault => demo_state end.

Lemma exit_undoes_witness :
  values demo_after 0 = Some [1; 1] ∧
  ∃ s2, semexit 7 demo_after = Ok ((), s2) ∧ (∀ j, values s2 j = values demo_state j) ∧ umap s2 7 = ∅.
Proof.
  split; [by vm_compute |].
  apply (exit_undoes limits demo_state demo_after 7 root 0 101 0x10000 3 demo_sops demo_set.1 demo_set.2).
  - done.
  - exact demo_ok.
  - vm_compute. apply not_elem_of_nil.
  - repeat apply Forall_cons_2; try apply Forall_nil_2; by vm_compute.
  - by vm_compute.
  - by vm_compute.
  - repeat apply Forall_cons_2; try apply Forall_nil_2; by vm_compute.
  - intros [|[|n]] m Hm; [| | done]; cbn in Hm; injection Hm as <-; vm_compute; intuition congruence.
  - by vm_compute.
Defined.

(** ** Behaviour that is not intended *)

(** C40: a semaphore number out of range ends [semop] with [EFBIG] after the
    operations in front of it have been carried out, although a comment in the
    code says that a vector is never partially satisfied.  When the first [n]
    operations of the vector are possible one after the other and the number of
    the next one is not in the set, each semaphore of the set is left changed by
    the sum of the first [n] operations on it, the other sets are not changed,
    and no adjustment is recorded.  (The sets have at most 32768 semaphores, no
    allocation fails, and the caller may write to the set.) *)
Theorem semop_efbig_keeps_effects (lim : seminfo) (s : state) (p : Z) (c : cred) (now id nsops : Z) (sops : list sembuf)
    (k : semid_kernel) (ms : list sem) (n : nat)
    (Hume : 0 <= semume lim < 2 ^ 15) (Hok : sem_ok lim s) (Hns : true ∉ nulls s) (Hvec : vec_ok sops)
    (Hid : named (abst s) id = Some (k, ms)) (Hperm : ipcperm c (sem_perm k) IPC_W = 0) (Hn : 0 <= nsops <= SEMOPM)
    (Hbig : judge ms [] sops = VFbig n) :
  ∃ s', semop lim p c 0 now id nsops (inr sops) s = Ok (SReturn EFBIG, s') ∧
    values s' (Z.to_nat (IPCID_TO_IX id)) = Some (imap (λ j m, u16 (semval m + delta (take n sops) j)) ms) ∧
    (∀ j, j ≠ Z.to_nat (IPCID_TO_IX id) → view s' j = view s j) ∧ (∀ q, umap s' q = umap s q).
Proof.
  destruct (semop_spec lim Hume s p c 0 now id nsops (inr sops) Hok Hns Hvec) as (r & s' & E & _ & Hsp).
  unfold spec_semop in Hsp. rewrite Hid, Hperm in Hsp. cbn [Z.eqb negb] in Hsp.
  rewrite (proj2 (Z.ltb_ge _ _)), Z.gtb_ltb, (proj2 (Z.ltb_ge _ _)) in Hsp by lia. cbn [orb] in Hsp.
  destruct Hsp as (k' & ms' & Ha & Hsp). unfold named in Hid. rewrite Ha in Hid. cbn in Hid. destruct (_ =? IPCID_TO_SEQ id); [| done]. simplify_eq.
  rewrite Hbig in Hsp. destruct Hsp as (-> & [Hset Hoth] & Hun). exists s'. split; [done |]. split; [| by split].
  unfold values. cbn in Hset. rewrite Hset. cbn. f_equal. apply list_eq. intros j.
  rewrite list_lookup_fmap, shift_lookup, list_lookup_imap. by destruct (ms !! j).
Qed.

Lemma semop_efbig_keeps_effects_witness :
  ∃ s', semop limits 7 root 0 101 0x10000 2 (inr [Sembuf 0 3 SEM_UNDO; Sembuf 2 1 0]) demo_state = Ok (SReturn EFBIG, s') ∧
    values s' 0 = Some [3; 0] ∧ (∀ j, j ≠ 0%nat → view s' j = view demo_state j) ∧ (∀ q, umap s' q = umap demo_state q).
Proof.
  apply (semop_efbig_keeps_effects limits demo_state 7 root 101 0x10000 2 [Sembuf 0 3 SEM_UNDO; Sembuf 2 1 0] demo_set.1 demo_set.2 1).
  - done.
  - exact demo_ok.
  - vm_compute. apply not_elem_of_nil.
  - repeat apply Forall_cons_2; try apply Forall_nil_2; by vm_compute.
  - by vm_compute.
  - by vm_compute.
  - by vm_compute.
  - by vm_compute.
Defined.

(** Setting the value of a semaphore does not drop a process's adjustment
    for it if the process has a later adjustment for another semaphore of the
    set: here the value set to 5 becomes 4 when process 7 exits. *)
Lemma setval_keeps_adjustment :
  outcome [ EGet root 0 100 0 2 0x1b6;
            EOp 1 7 root 0 101 0x10000 2 (inr [Sembuf 0 1 SEM_UNDO; Sembuf 1 1 SEM_UNDO]);
            ECtl 8 root 0 102 0x10000 0 (SETVAL 5);
            EExit 7 ] 0 =
  Some ([AGet (0, 0x10000); AOp (SReturn 0); ACtl (0, RInt 0); AExit], Some [4; 0]).
Proof. by vm_compute. Qed.

(** A set of all the semaphores of [pool], and no adjustments yet. *)
Definition large (pool : list sem) : state :=
  State (Z.of_nat (length pool)) [SemidKernel (IpcPerm 0 0 0 0 0x3b6 1 0) 0 (Z.of_nat (length pool)) 0 100] pool (-1) [] [] [].

(** C38: the number of a semaphore is kept in 16 bits with a sign in an
    adjustment.  A set may have up to 87381 semaphores; when a process that
    operated with [SEM_UNDO] on a semaphore whose number is 32768 or more
    exits, [semexit] accesses memory in front of the set. *)
Theorem semexit_underrun (pool : list sem) (n : Z) (Hv : Forall val_ok pool)
    (Hn : 2 ^ 15 <= n < Z.of_nat (length pool)) (Hlen : Z.of_nat (length pool) < 2 ^ 16) :
  ∃ s, semop limits 7 root 0 101 0x10000 1 (inr [Sembuf n 1 SEM_UNDO]) (large pool) = Ok (SReturn 0, s) ∧
    semexit 7 s = Fault.
Proof.
  set (k := SemidKernel (IpcPerm 0 0 0 0 0x3b6 1 0) 0 (Z.of_nat (length pool)) 0 100). set (sop := Sembuf n 1 SEM_UNDO).
  assert (Hseg : seg (large pool) 0 k [] pool []) by (constructor; cbn; rewrite ?app_nil_r; done).
  assert (Hsop : Forall sop_ok [sop]) by (repeat constructor; cbn; lia).
  destruct (try_ops_spec (large pool) 0 k [] pool [] false [sop] [] false Hseg Hsop) as [wk E].
  assert (Hj : judge pool [] [sop] = VDone).
  { cbn. destruct (lookup_lt_is_Some_2 pool (Z.to_nat n)) as [m ->]; [lia | done]. }
  rewrite Hj in E. cbn [app passed try_of length] in E. change (Z.of_nat 0) with 0 in E.
  change (false || undo_flag []) with false in E. change (false || undo_flag [sop]) with true in E.
  change (delta []) with (λ _ : nat, 0) in E. rewrite shift_zero, !app_nil_r in E by done.
  change (with_pool (large pool) pool) with (large pool) in E. set (P := shift (delta [sop]) pool) in E.
  assert (HP : length P = length pool) by apply length_shift.
  assert (Hs16 : s16 n = n - 2 ^ 16). { rewrite <- (s16_id (n - 2 ^ 16)) by lia. apply swrap_cong. by rewrite <- (Z.mod_add _ (-1)). }
  assert (Eop : semop limits 7 root 0 101 0x10000 1 (inr [sop]) (large pool) =
    semop_done limits 7 101 0 [sop] wk true (with_pool (large pool) P)).
  { transitivity (semop_attempt limits 7 101 0 [sop] false (large pool)); [reflexivity |]. unfold semop_attempt. by rewrite st_bind_unfold, E. }
  rewrite Eop. clear E Eop Hj. unfold semop_done. rewrite st_bind_unfold.
  set (us := SemUndo (-1) (Some 7) 1 [Undo (-1) (s16 n) 0] :: replicate 31 zero_undo).
  assert (E1 : undo_loop limits 7 0 (-1) [sop] 0 (with_pool (large pool) P) =
    Ok ((0, 0, 1%nat), State (Z.of_nat (length pool)) [k] P 0 us [] [])) by reflexivity.
  rewrite E1. cbn [negb Z.eqb]. set (s2 := State _ [k] P 0 us [] []).
  assert (Hseg2 : seg s2 0 k [] P []) by (constructor; cbn; rewrite ?app_nil_r, ?HP; done).
  pose proof (set_pids_spec s2 7 0 k [] [] [sop] P) as E2. cbn [app] in E2. rewrite !app_nil_r in E2.
  change (with_pool s2 P) with s2 in E2. change (Z.of_nat 0) with 0 in E2.
  rewrite st_bind_unfold, E2; [| done | apply Forall_singleton; unfold in_set; cbn; lia].
  assert (HQ : length (stamp 7 [sop] P) = length pool) by (rewrite length_stamp; done).
  destruct (stamp 7 [sop] P) as [|x Q]; [cbn in HQ; lia |].
  assert (Hfault : ∀ w, semexit 7 (State (Z.of_nat (length pool)) [set_otime 101 k] (x :: Q) 0 us [] w) = Fault).
  { intros w. unfold us. rewrite Hs16. set (d := n - 2 ^ 16). set (u := SemUndo (-1) (Some 7) 1 [Undo (-1) d 0]).
    set (s3 := State _ _ _ _ _ _ _). transitivity ((apply_undos 0 [Undo (-1) d 0] ;; u ← SEMU 0;
      put_semu 0 (SemUndo (un_next_idx u) None (un_cnt u) (un_ent u)) ;; write_iref IHead (un_next_idx u)) s3); [reflexivity |].
    rewrite st_bind_unfold. cbn [apply_undos]. rewrite st_bind_unfold. change (get_semid (une_id (Undo (-1) d 0)) s3) with (Ok (set_otime 101 k, s3)).
    cbv iota beta. change (allocated (set_otime 101 k)) with true. cbn [negb une_num une_adjval]. rewrite Z.geb_leb, (proj2 (Z.leb_gt _ _)) by (cbn; lia).
    rewrite st_bind_unfold. unfold get_sem. rewrite st_bind_unfold. cbn [get]. unfold liftr, rd.
    rewrite (proj2 (Z.ltb_lt _ _)) by (cbn; lia). done. }
  destruct wk; eexists; (split; [reflexivity | apply Hfault]).
Qed.

Lemma semexit_underrun_witness :
  ∃ s, semop limits 7 root 0 101 0x10000 1 (inr [Sembuf 33000 1 SEM_UNDO]) (large (replicate (Z.to_nat 40000) zero_sem)) = Ok (SReturn 0, s) ∧
    semexit 7 s = Fault.
Proof.
  apply (semexit_underrun (replicate (Z.to_nat 40000) zero_sem) 33000).
  - apply Forall_replicate. split; cbn; lia.
  - rewrite length_replicate. lia.
  - rewrite length_replicate. lia.
Defined.
