(* ===== verification/Chain.v ===== *)
(** * Lists linked by indices in arrays

    Structures of the kernel that live in an array are linked by indices; the
    array is divided between lists that have different owners. *)

From stdpp Require Import functions.
From S2P Require Import Prelude.

(** ** Reads and writes of arrays *)

Lemma wr_rd {A} (buf : list A) i (b v : A) : rd buf i = Ok b → wr buf i v = Ok (<[Z.to_nat i := v]> buf).
Proof.
  intros H. apply rd_lookup in H as [Hi Hb]. apply lookup_lt_Some in Hb. unfold wr.
  destruct (_ && _) eqn:E; [done | lia].
Qed.

Lemma rd_insert_eq {A} (buf : list A) i (b v : A) : rd buf i = Ok b → rd (<[Z.to_nat i := v]> buf) i = Ok v.
Proof.
  intros [Hi Hb]%rd_lookup. apply rd_lookup. split; [done |]. apply list_lookup_insert_eq. by eapply lookup_lt_Some.
Qed.

Lemma rd_insert_ne {A} (buf : list A) i j (v : A) : 0 <= i → i ≠ j → rd (<[Z.to_nat i := v]> buf) j = rd buf j.
Proof.
  intros Hi Hne. unfold rd. destruct (Z.ltb_spec j 0); [done |]. rewrite list_lookup_insert_ne; [done |]. lia.
Qed.

Lemma rd_range {A} (buf : list A) i (b : A) : rd buf i = Ok b → 0 <= i < Z.of_nat (length buf).
Proof. intros [Hi Hb]%rd_lookup. apply lookup_lt_Some in Hb. lia. Qed.

(** ** Paths *)

(** The indices [l] lead from [i] to [k]. *)
Fixpoint path (nx : Z → res Z) (i : Z) (l : list Z) (k : Z) : Prop :=
  match l with
  | [] => i = k
  | j :: l => i = j ∧ ∃ i', nx j = Ok i' ∧ path nx i' l k
  end.

Lemma path_app nx l1 l2 : ∀ i k, path nx i (l1 ++ l2) k ↔ ∃ j, path nx i l1 j ∧ path nx j l2 k.
Proof.
  induction l1 as [|x l1 IH]; intros i k; cbn; [naive_solver |]. setoid_rewrite IH. naive_solver.
Qed.

Lemma path_ext nx nx' l : ∀ i k, path nx i l k → (∀ j, j ∈ l → nx' j = nx j) → path nx' i l k.
Proof.
  induction l as [|x l IH]; intros i k H Hx; [done |]. destruct H as (-> & i' & Hi & H). split; [done |].
  exists i'. split; [rewrite Hx; [done | by constructor] |]. apply IH; [done |]. intros j Hj. apply Hx. by constructor.
Qed.

(** A list that ends with a null pointer. *)
Abbreviation chain nx i l := (path nx i l (-1)).

Lemma chain_nil nx l : (∀ j, j ∈ l → 0 <= j) → chain nx (-1) l → l = [].
Proof. destruct l as [|x l]; [done |]. intros H [<- _]. specialize (H (-1) ltac:(constructor)). lia. Qed.

Lemma chain_cons nx i l : chain nx i l → i ≠ -1 → ∃ l' i', l = i :: l' ∧ nx i = Ok i' ∧ chain nx i' l'.
Proof. destruct l as [|x l]; [done |]. intros (-> & i' & Hi & H) _. by exists l, i'. Qed.

(** ** Arrays that are divided *)

Section parts.
Context {O : Type} `{!EqDecision O}.

Implicit Types (f : O → list Z) (n x : Z) (o : O).

(** The indices below [n] are divided between the owners. *)
Record parts n f : Prop := {
  pa_range o x : x ∈ f o → 0 <= x < n;
  pa_nodup o : NoDup (f o);
  pa_disj o o' x : x ∈ f o → x ∈ f o' → o = o';
  pa_all x : 0 <= x < n → ∃ o, x ∈ f o
}.

(** An index goes from one owner to another. *)
Definition move f o o' (l l' : list Z) : O → list Z := <[o' := l']> (<[o := l]> f).

Lemma move_to f o o' l l' : move f o o' l l' o' = l'.
Proof. apply fn_lookup_insert. Qed.

Lemma move_from f o o' l l' : o ≠ o' → move f o o' l l' o = l.
Proof. intros H. unfold move. rewrite fn_lookup_insert_ne by done. apply fn_lookup_insert. Qed.

Lemma move_other f o o' l l' p : p ≠ o → p ≠ o' → move f o o' l l' p = f p.
Proof. intros H H'. unfold move. by rewrite !fn_lookup_insert_ne. Qed.

Lemma move_parts n f o o' x l l' : parts n f → o ≠ o' → f o ≡ₚ x :: l → l' ≡ₚ x :: f o' → parts n (move f o o' l l').
Proof.
  intros Hp Hne Ho Ho'.
  assert (Hin : ∀ p y, y ∈ move f o o' l l' p ↔ if decide (p = o') then y = x ∨ y ∈ f o' else if decide (p = o) then y ∈ l else y ∈ f p).
  { intros p y. case_decide as H1; [subst p; rewrite move_to, Ho'; set_solver |]. case_decide as H2; [subst p; by rewrite move_from |].
    by rewrite move_other. }
  assert (Hx : x ∈ f o) by (rewrite Ho; by constructor).
  assert (Hl : ∀ y, y ∈ l → y ∈ f o ∧ y ≠ x).
  { pose proof (pa_nodup _ _ Hp o) as Hnd. rewrite Ho in Hnd. apply NoDup_cons in Hnd as [Hnx _].
    intros y Hy. split; [rewrite Ho; by constructor | by intros ->]. }
  assert (Hback : ∀ p y, y ∈ move f o o' l l' p → (y = x ∧ p = o') ∨ (y ≠ x ∧ y ∈ f p)).
  { intros p y Hy. apply Hin in Hy. repeat case_decide; subst.
    - destruct Hy as [->|Hy]; [by left |]. right. split; [| done]. intros ->. by destruct (Hne (pa_disj _ _ Hp _ _ _ Hx Hy)).
    - right. by destruct (Hl y Hy).
    - right. split; [| done]. intros ->. by destruct (pa_disj _ _ Hp _ _ _ Hx Hy). }
  split.
  - intros p y [[-> ->]|[_ Hy]]%Hback; eauto using pa_range.
  - intros p. destruct (decide (p = o')) as [->|]; [rewrite move_to, Ho'; constructor; [| apply (pa_nodup _ _ Hp)]; intros Hy; by destruct (Hne (pa_disj _ _ Hp _ _ _ Hx Hy)) |].
    destruct (decide (p = o)) as [->|]; [| rewrite move_other by done; apply (pa_nodup _ _ Hp)].
    rewrite move_from by done. pose proof (pa_nodup _ _ Hp o) as Hnd. rewrite Ho in Hnd. by apply NoDup_cons in Hnd as [_ ?].
  - intros p p' y [[-> ->]|[Hn Hy]]%Hback [[? ->]|[Hn' Hy']]%Hback; try done. by eapply (pa_disj _ _ Hp).
  - intros y Hy. destruct (decide (y = x)) as [->|Hyx]; [exists o'; apply Hin; rewrite decide_True by done; by left |].
    destruct (pa_all _ _ Hp y Hy) as [p Hyp]. exists p. apply Hin. repeat case_decide; subst; [by right | | done].
    rewrite Ho in Hyp. by apply elem_of_cons in Hyp as [->|Hyp].
Qed.

Lemma parts_length n f o : parts n f → (length (f o) <= Z.to_nat n)%nat.
Proof.
  intros Hp. rewrite <- (length_seq (Z.to_nat n) 0), <- (length_fmap Z.of_nat). apply submseteq_length, NoDup_submseteq; [apply (pa_nodup _ _ Hp) |].
  intros x Hx. apply (pa_range _ _ Hp) in Hx. apply list_elem_of_fmap. exists (Z.to_nat x). split; [lia |]. apply elem_of_seq. lia.
Qed.

End parts.

Arguments parts {O} n f.
Arguments move {O _} f o o' l l'.
