(* ===== verification/Msg.v ===== *)
(** * System V message queues

    [bsd/kern/sysv_msg.c] with the structures of [bsd/sys/msg.h].  Message
    headers and segments of the text live in two arrays; free ones are in
    lists, a queue is a list of headers, and a header has a list of segments.
    A pointer to a header is its index in the array, -1 for a null pointer.
    The lock is dropped to sleep and to copy from and to user memory: each
    definition is a section of code that runs with the lock held, and ends
    with the phase in which it leaves the thread. *)

From S2P Require Import Prelude Ipc.

Definition MSG_NOERROR : Z := 0x1000.
Definition MSG_LOCKED : Z := 0x200.
Definition MSGSSZ : Z := 8.
Definition MSGSEG : Z := 2048.
Definition MSGMAX : Z := MSGSSZ * MSGSEG.
Definition MSGMNB : Z := 2048.
Definition MSGMNI : Z := 40.
Definition MSGTQL : Z := 40.
Definition ENOMSG : Z := 91.

(** ** Structures *)

Record msginfo := Msginfo { msgmax : Z; msgmni : Z; msgmnb : Z; msgtql : Z; msgssz : Z; msgseg : Z }.

(** The values the kernel starts with. *)
Definition msginfo_init : msginfo := Msginfo MSGMAX MSGMNI MSGMNB MSGTQL MSGSSZ MSGSEG.

Record msg := Msg { msg_next : Z; msg_type : Z; msg_ts : Z; msg_spot : Z }.

Record msqid_ds := MsqidDs {
  msg_perm : ipc_perm;
  msg_first : Z;
  msg_last : Z;
  msg_cbytes : Z;
  msg_qnum : Z;
  msg_qbytes : Z;
  msg_lspid : Z;
  msg_lrpid : Z;
  msg_stime : Z;
  msg_rtime : Z;
  msg_ctime : Z
}.

(** What threads sleep on: a queue, or the list of free headers. *)
Inductive chan := CQueue (i : Z) | CFree.

(** The answers that the allocations of one call of [msginit] get: null, or
    memory that has any contents. *)
Record alloc := Alloc {
  al_pool : option (nat → Z);
  al_maps : option (nat → Z);
  al_hdrs : option (nat → msg);
  al_ids : option (nat → msqid_ds)
}.

(** [msgmaps] has the [next] of each segment. *)

Record state := State {
  info : msginfo;
  initted : bool;
  nfree_msgmaps : Z;
  free_msgmaps : Z;
  free_msghdrs : Z;
  msgpool : list Z;
  msgmaps : list Z;
  msghdrs : list msg;
  msqids : list msqid_ds;
  heap : list alloc;
  woken : list chan
}.

Abbreviation M := (st state).

Definition with_nfree (x : Z) (s : state) : state :=
  State (info s) (initted s) x (free_msgmaps s) (free_msghdrs s)
    (msgpool s) (msgmaps s) (msghdrs s) (msqids s) (heap s) (woken s).
Definition with_free_maps (x : Z) (s : state) : state :=
  State (info s) (initted s) (nfree_msgmaps s) x (free_msghdrs s)
    (msgpool s) (msgmaps s) (msghdrs s) (msqids s) (heap s) (woken s).
Definition with_free_hdrs (x : Z) (s : state) : state :=
  State (info s) (initted s) (nfree_msgmaps s) (free_msgmaps s) x
    (msgpool s) (msgmaps s) (msghdrs s) (msqids s) (heap s) (woken s).
Definition with_pool (x : list Z) (s : state) : state :=
  State (info s) (initted s) (nfree_msgmaps s) (free_msgmaps s) (free_msghdrs s)
    x (msgmaps s) (msghdrs s) (msqids s) (heap s) (woken s).
Definition with_maps (x : list Z) (s : state) : state :=
  State (info s) (initted s) (nfree_msgmaps s) (free_msgmaps s) (free_msghdrs s)
    (msgpool s) x (msghdrs s) (msqids s) (heap s) (woken s).
Definition with_hdrs (x : list msg) (s : state) : state :=
  State (info s) (initted s) (nfree_msgmaps s) (free_msgmaps s) (free_msghdrs s)
    (msgpool s) (msgmaps s) x (msqids s) (heap s) (woken s).
Definition with_ids (x : list msqid_ds) (s : state) : state :=
  State (info s) (initted s) (nfree_msgmaps s) (free_msgmaps s) (free_msghdrs s)
    (msgpool s) (msgmaps s) (msghdrs s) x (heap s) (woken s).
Definition with_woken (x : list chan) (s : state) : state :=
  State (info s) (initted s) (nfree_msgmaps s) (free_msgmaps s) (free_msghdrs s)
    (msgpool s) (msgmaps s) (msghdrs s) (msqids s) (heap s) x.

Definition modify (f : state → state) : M () := λ s, Ok ((), f s).
Definition set_nfree (x : Z) : M () := modify (with_nfree x).
Definition set_free_maps (x : Z) : M () := modify (with_free_maps x).
Definition set_free_hdrs (x : Z) : M () := modify (with_free_hdrs x).
Definition set_pool (x : list Z) : M () := modify (with_pool x).
Definition wakeup (c : chan) : M () := modify (λ s, with_woken (woken s ++ [c]) s).

Definition panic {A} : M A := fault.
Definition liftr {A} (m : res A) : M A := λ s, a ← m; Ok (a, s).

Definition get_hdr (h : Z) : M msg := s ← get; liftr (rd (msghdrs s) h).
Definition put_hdr (h : Z) (m : msg) : M () := s ← get; l ← liftr (wr (msghdrs s) h m); modify (with_hdrs l).
Definition get_map (i : Z) : M Z := s ← get; liftr (rd (msgmaps s) i).
Definition put_map (i x : Z) : M () := s ← get; l ← liftr (wr (msgmaps s) i x); modify (with_maps l).
Definition get_id (i : Z) : M msqid_ds := s ← get; liftr (rd (msqids s) i).
Definition put_id (i : Z) (q : msqid_ds) : M () := s ← get; l ← liftr (wr (msqids s) i q); modify (with_ids l).

Definition set_next (x : Z) (m : msg) : msg := Msg x (msg_type m) (msg_ts m) (msg_spot m).
Definition set_type (x : Z) (m : msg) : msg := Msg (msg_next m) x (msg_ts m) (msg_spot m).
Definition set_perm (f : ipc_perm → ipc_perm) (q : msqid_ds) : msqid_ds :=
  MsqidDs (f (msg_perm q)) (msg_first q) (msg_last q) (msg_cbytes q) (msg_qnum q) (msg_qbytes q)
    (msg_lspid q) (msg_lrpid q) (msg_stime q) (msg_rtime q) (msg_ctime q).
Definition set_mode (f : Z → Z) : msqid_ds → msqid_ds :=
  set_perm (λ p, IpcPerm (uid p) (gid p) (cuid p) (cgid p) (f (mode p)) (_seq p) (_key p)).
Definition set_list (first last : Z) (q : msqid_ds) : msqid_ds :=
  MsqidDs (msg_perm q) first last (msg_cbytes q) (msg_qnum q) (msg_qbytes q)
    (msg_lspid q) (msg_lrpid q) (msg_stime q) (msg_rtime q) (msg_ctime q).
Definition set_counts (cbytes qnum : Z) (q : msqid_ds) : msqid_ds :=
  MsqidDs (msg_perm q) (msg_first q) (msg_last q) cbytes qnum (msg_qbytes q)
    (msg_lspid q) (msg_lrpid q) (msg_stime q) (msg_rtime q) (msg_ctime q).
Definition set_qbytes (x : Z) (q : msqid_ds) : msqid_ds :=
  MsqidDs (msg_perm q) (msg_first q) (msg_last q) (msg_cbytes q) (msg_qnum q) x
    (msg_lspid q) (msg_lrpid q) (msg_stime q) (msg_rtime q) (msg_ctime q).
Definition set_sent (p now : Z) (q : msqid_ds) : msqid_ds :=
  MsqidDs (msg_perm q) (msg_first q) (msg_last q) (msg_cbytes q) (msg_qnum q) (msg_qbytes q)
    p (msg_lrpid q) now (msg_rtime q) (msg_ctime q).
Definition set_received (p now : Z) (q : msqid_ds) : msqid_ds :=
  MsqidDs (msg_perm q) (msg_first q) (msg_last q) (msg_cbytes q) (msg_qnum q) (msg_qbytes q)
    (msg_lspid q) p (msg_stime q) now (msg_ctime q).
Definition set_ctime (now : Z) (q : msqid_ds) : msqid_ds :=
  MsqidDs (msg_perm q) (msg_first q) (msg_last q) (msg_cbytes q) (msg_qnum q) (msg_qbytes q)
    (msg_lspid q) (msg_lrpid q) (msg_stime q) (msg_rtime q) now.

Definition lock (m : Z) : Z := Z.lor m MSG_LOCKED.
Definition unlock (m : Z) : Z := Z.land m (Z.lnot MSG_LOCKED).
Definition locked (q : msqid_ds) : bool := tst (mode (msg_perm q)) MSG_LOCKED.

(** ** Initialisation *)

(** Whether the size is one of 8, 16, ... up to 1024. *)
Fixpoint small_power (n : nat) (i ssz : Z) : bool :=
  match n with
  | O => i =? ssz
  | S n => if (i <? 1024) && negb (i =? ssz) then small_power n (2 * i) ssz else i =? ssz
  end.

Definition check_info (mi : msginfo) : msginfo :=
  let ssz := if small_power 7 8 (msgssz mi) then msgssz mi else MSGSSZ in
  let seg := if msgseg mi >? 32767 then MSGSEG else msgseg mi in
  Msginfo (msgmax mi) (msgmni mi) (msgmnb mi) (msgtql mi) ssz seg.

Definition array {A} (n : Z) (f : nat → A) : list A := f <$> seq 0 (Z.to_nat n).

(** What the loops over the arrays leave: each element is linked to the one
    after it. *)
Definition link_next (n : Z) (i : nat) : Z := if Z.of_nat i + 1 <? n then Z.of_nat i + 1 else -1.
Definition init_maps (n : Z) (maps : list Z) : list Z := imap (λ i _, link_next n i) maps.
Definition init_hdrs (n : Z) (hdrs : list msg) : list msg :=
  imap (λ i m, Msg (link_next n i) 0 (msg_ts m) (msg_spot m)) hdrs.
Definition init_id (q : msqid_ds) : msqid_ds :=
  set_qbytes 0 (set_perm (λ p, IpcPerm (uid p) (gid p) (cuid p) (cgid p) 0 0 (_key p)) q).

(** All of the memory is given back when one of the allocations fails. *)
Definition msginit : M bool := λ s,
  if initted s then Ok (true, s)
  else
    let mi := check_info (info s) in
    match heap s with
    | Alloc (Some pool) (Some maps) (Some hdrs) (Some ids) :: heap =>
        Ok (true, State mi true (msgseg mi) 0 0 (array (msgmax mi) pool)
          (init_maps (msgseg mi) (array (msgseg mi) maps)) (init_hdrs (msgtql mi) (array (msgtql mi) hdrs))
          (init_id <$> array (msgmni mi) ids) heap (woken s))
    | _ =>
        Ok (false, State mi false (nfree_msgmaps s) (free_msgmaps s) (free_msghdrs s) [] [] [] []
          (tail (heap s)) (woken s))
    end.

(** ** Headers *)

(** Gives the segments back; the fuel is the size of the message. *)
Fixpoint free_segs (fuel : nat) (h : Z) : M () :=
  m ← get_hdr h;
  if msg_ts m >? 0 then
    match fuel with
    | O => fault
    | S fuel =>
        s ← get;
        if (msg_spot m <? 0) || (msg_spot m >=? msgseg (info s)) then panic
        else
          next ← get_map (msg_spot m);
          put_map (msg_spot m) (free_msgmaps s) ;;
          set_free_maps (msg_spot m) ;;
          set_nfree (nfree_msgmaps s + 1) ;;
          put_hdr h (Msg (msg_next m) (msg_type m)
            (if msg_ts m >=? msgssz (info s) then msg_ts m - msgssz (info s) else 0) next) ;;
          free_segs fuel h
    end
  else mret ().

Definition msg_freehdr (h : Z) : M () :=
  m ← get_hdr h;
  free_segs (Z.to_nat (msg_ts m)) h ;;
  m ← get_hdr h;
  if negb (msg_spot m =? -1) then panic
  else
    s ← get;
    put_hdr h (set_next (free_msghdrs s) m) ;;
    set_free_hdrs h ;;
    wakeup CFree.

(** ** Control *)

(** Frees the headers of the queue [i] from [h] on; the fuel is the number of
    headers. *)
Fixpoint free_queue (fuel : nat) (i h : Z) : M () :=
  if h =? -1 then mret ()
  else
    match fuel with
    | O => fault
    | S fuel =>
        m ← get_hdr h;
        q ← get_id i;
        put_id i (set_counts (u64 (msg_cbytes q - msg_ts m)) (u64 (msg_qnum q - 1)) q) ;;
        msg_freehdr h ;;
        free_queue fuel i (msg_next m)
    end.

Definition rmid (i : Z) : M () :=
  s ← get;
  q ← get_id i;
  free_queue (length (msghdrs s)) i (msg_first q) ;;
  q ← get_id i;
  if negb (msg_cbytes q =? 0) then panic
  else if negb (msg_qnum q =? 0) then panic
  else put_id i (set_qbytes 0 q) ;; wakeup (CQueue i).

(** The structure as users see it; the parts for a 32-bit process are
    narrower. *)
Record user_msqid := UserMsqid {
  u_perm : ipc_perm; u_qnum : Z; u_cbytes : Z; u_qbytes : Z;
  u_lspid : Z; u_lrpid : Z; u_stime : Z; u_rtime : Z; u_ctime : Z
}.

Definition msqid_ds_kerneltouser32 (q : msqid_ds) : user_msqid :=
  UserMsqid (msg_perm q) (u32 (msg_qnum q)) (u32 (msg_cbytes q)) (u32 (msg_qbytes q)) (msg_lspid q) (msg_lrpid q)
    (s32 (msg_stime q)) (s32 (msg_rtime q)) (s32 (msg_ctime q)).
Definition msqid_ds_kerneltouser64 (q : msqid_ds) : user_msqid :=
  UserMsqid (msg_perm q) (msg_qnum q) (msg_cbytes q) (msg_qbytes q) (msg_lspid q) (msg_lrpid q)
    (msg_stime q) (msg_rtime q) (msg_ctime q).

(** What a thread does next: it has returned with an error, a value or what it
    has received, or it is asleep, or it copies from or to user memory.  The
    headers that are in none of the lists belong to threads. *)
Record snd_args := SndArgs { sn_proc : Z; sn_id : Z; sn_size : Z; sn_flg : Z; sn_segs : Z }.
Record rcv_args := RcvArgs { rc_proc : Z; rc_64 : bool; rc_id : Z; rc_size : Z; rc_typ : Z; rc_flg : Z }.

Inductive phase :=
  | Return (eval rval : Z)
  | StatCopyout (is64 : bool) (i : Z)
  | StatReturn (u : user_msqid)
  | SetCopyin (c : cred) (i : Z)
  | SndSleep (a : snd_args) (we_own_it : bool) (c : chan)
  | SndType (a : snd_args) (h : Z)
  | SndSeg (a : snd_args) (h next left : Z)
  | RcvSleep (a : rcv_args)
  | RcvType (a : rcv_args) (h size type : Z)
  | RcvSeg (a : rcv_args) (h next len size type : Z) (text : list Z)
  | RcvReturn (eval rval type : Z) (text : list Z).

Inductive msgctl_cmd := IPC_RMID | IPC_SET | IPC_STAT | CmdOther.

(** The checks at the beginning of every call but [msgget]: the index of the
    queue and its structure, or an error. *)
Definition find_queue (id : Z) : M (Z + (Z * msqid_ds)) :=
  ok ← msginit;
  if negb ok then mret (inl ENOMEM)
  else
    let i := IPCID_TO_IX id in
    s ← get;
    if (i <? 0) || (i >=? msgmni (info s)) then mret (inl EINVAL)
    else
      q ← get_id i;
      if msg_qbytes q =? 0 then mret (inl EINVAL)
      else if negb (_seq (msg_perm q) =? IPCID_TO_SEQ id) then mret (inl EINVAL)
      else mret (inr (i, q)).

(** The policy's answer for the messages of the queue from [h] on: the first
    that is an error, where [mac n] answers question [n].  The fuel is the
    number of headers. *)
Fixpoint check_rmid (fuel : nat) (mac : nat → Z) (h : Z) : M Z :=
  if h =? -1 then mret 0
  else
    match fuel with
    | O => fault
    | S fuel =>
        m ← get_hdr h;
        if negb (mac O =? 0) then mret (mac O) else check_rmid fuel (mac ∘ S) (msg_next m)
    end.

(** [mac] and [mac_rmid] are answers of the policy for the queue and for each
    message. *)
Definition msgctl (is64 : bool) (c : cred) (mac : Z) (mac_rmid : nat → Z) (id : Z) (cmd : msgctl_cmd) : M phase :=
  r ← find_queue id;
  match r with
  | inl eval => mret (Return eval 0)
  | inr (i, q) =>
      if negb (mac =? 0) then mret (Return mac 0)
      else
        match cmd with
        | IPC_RMID =>
            let eval := ipcperm c (msg_perm q) IPC_M in
            if negb (eval =? 0) then mret (Return eval 0)
            else
              s ← get;
              eval ← check_rmid (length (msghdrs s)) mac_rmid (msg_first q);
              if negb (eval =? 0) then mret (Return eval 0)
              else rmid i ;; mret (Return 0 0)
        | IPC_SET =>
            let eval := ipcperm c (msg_perm q) IPC_M in
            if negb (eval =? 0) then mret (Return eval 0) else mret (SetCopyin c i)
        | IPC_STAT =>
            let eval := ipcperm c (msg_perm q) IPC_R in
            if negb (eval =? 0) then mret (Return eval 0) else mret (StatCopyout is64 i)
        | CmdOther => mret (Return EINVAL 0)
        end
  end.

(** [IPC_STAT] after the lock has been dropped: the structure is copied, and
    given to the user with [eval]. *)
Definition ipc_stat (is64 : bool) (i eval : Z) : M phase :=
  q ← get_id i;
  if negb (eval =? 0) then mret (Return eval 0)
  else mret (StatReturn (if is64 then msqid_ds_kerneltouser64 q else msqid_ds_kerneltouser32 q)).

(** [IPC_SET] after the structure [b] has been copied in with [eval]. *)
Definition ipc_set (now : Z) (c : cred) (i eval : Z) (b : user_msqid) : M phase :=
  if negb (eval =? 0) then mret (Return eval 0)
  else
    s ← get;
    q ← get_id i;
    if (u_qbytes b >? msg_qbytes q) && negb (cr_super c) then mret (Return EPERM 0)
    else
      let qbytes := if u_qbytes b >? u64 (msgmnb (info s)) then u64 (msgmnb (info s)) else u_qbytes b in
      if qbytes =? 0 then mret (Return EINVAL 0)
      else
        put_id i (set_ctime now (set_qbytes qbytes (set_perm (λ p,
          IpcPerm (uid (u_perm b)) (gid (u_perm b)) (cuid p) (cgid p)
            (Z.lor (Z.land (mode p) (Z.lnot 0x1ff)) (Z.land (mode (u_perm b)) 0x1ff)) (_seq p) (_key p)) q))) ;;
        mret (Return 0 0).

Fixpoint find_id {A} (f : A → bool) (l : list A) (i : Z) : option Z :=
  match l with
  | [] => None
  | q :: l => if f q then Some i else find_id f l (i + 1)
  end.

Definition new_queue (c : cred) (now key msgflg qbytes seq : Z) : msqid_ds :=
  MsqidDs (IpcPerm (cr_uid c) (cr_gid c) (cr_uid c) (cr_gid c) (Z.land msgflg 0x1ff)
             (u16 (seq + 1)) key)
    (-1) (-1) 0 0 qbytes 0 0 0 0 now.

Definition queue_id (i : Z) (q : msqid_ds) : Z := s32 (IXSEQ_TO_IPCID i (_seq (msg_perm q))).

Definition msgget (c : cred) (mac now key msgflg : Z) : M phase :=
  ok ← msginit;
  if negb ok then mret (Return ENOMEM 0)
  else
    s ← get;
    let found := if negb (key =? IPC_PRIVATE)
                 then find_id (λ q, negb (msg_qbytes q =? 0) && (_key (msg_perm q) =? key)) (msqids s) 0 else None in
    match found with
    | Some i =>
        q ← get_id i;
        if tst msgflg IPC_CREAT && tst msgflg IPC_EXCL then mret (Return EEXIST 0)
        else
          let eval := ipcperm c (msg_perm q) (Z.land msgflg 0x1c0) in
          if negb (eval =? 0) then mret (Return eval 0)
          else if negb (mac =? 0) then mret (Return mac 0)
          else mret (Return 0 (queue_id i q))
    | None =>
        if (key =? IPC_PRIVATE) || tst msgflg IPC_CREAT then
          match find_id (λ q, (msg_qbytes q =? 0) && negb (locked q)) (msqids s) 0 with
          | None => mret (Return ENOSPC 0)
          | Some i =>
              q ← get_id i;
              let q := new_queue c now key msgflg (u64 (msgmnb (info s))) (_seq (msg_perm q)) in
              put_id i q ;; mret (Return 0 (queue_id i q))
          end
        else mret (Return ENOENT 0)
    end.

(** ** Sending *)

(** Takes [segs] segments from the free list for the header [h]. *)
Fixpoint take_segs (segs : nat) (h : Z) : M () :=
  match segs with
  | O => mret ()
  | S segs =>
      s ← get;
      if nfree_msgmaps s <=? 0 then panic
      else if free_msgmaps s =? -1 then panic
      else
        let next := free_msgmaps s in
        if next <=? -1 then panic
        else if next >=? msgseg (info s) then panic
        else
          n ← get_map next;
          set_free_maps n ;;
          set_nfree (nfree_msgmaps s - 1) ;;
          m ← get_hdr h;
          put_map next (msg_spot m) ;;
          put_hdr h (Msg (msg_next m) (msg_type m) (msg_ts m) next) ;;
          take_segs segs h
  end.

(** Takes a header and its segments. *)
Definition alloc_hdr (a : snd_args) : M phase :=
  s ← get;
  let h := free_msghdrs s in
  m ← get_hdr h;
  set_free_hdrs (msg_next m) ;;
  put_hdr h (Msg (msg_next m) (msg_type m) (u16 (sn_size a)) (-1)) ;;
  take_segs (Z.to_nat (sn_segs a)) h ;;
  mret (SndType a h).

(** The resources are there: locks the queue. *)
Definition snd_alloc (a : snd_args) : M phase :=
  let i := IPCID_TO_IX (sn_id a) in
  s ← get;
  q ← get_id i;
  if locked q then panic
  else if sn_segs a >? nfree_msgmaps s then panic
  else if u64 (sn_size a + msg_cbytes q) >? msg_qbytes q then panic
  else if free_msghdrs s =? -1 then panic
  else
    put_id i (set_mode lock q) ;; alloc_hdr a.

(** What a sender has to wait for; what is found last counts. *)
Definition blocking_resource (a : snd_args) (s : state) (q : msqid_ds) : option chan :=
  let i := IPCID_TO_IX (sn_id a) in
  let r := if locked q then Some (CQueue i) else None in
  let r := if u64 (sn_size a + msg_cbytes q) >? msg_qbytes q then Some (CQueue i) else r in
  let r := if sn_segs a >? nfree_msgmaps s then Some CFree else r in
  if free_msghdrs s =? -1 then Some CFree else r.

(** The loop that waits for resources, from its beginning to a sleep or to
    the point where the type is copied in. *)
Definition snd_loop (a : snd_args) : M phase :=
  let i := IPCID_TO_IX (sn_id a) in
  s ← get;
  q ← get_id i;
  if sn_size a >? msg_qbytes q then mret (Return EINVAL 0)
  else
    match blocking_resource a s q with
    | Some c =>
        if tst (sn_flg a) IPC_NOWAIT then mret (Return EAGAIN 0)
        else if locked q then mret (SndSleep a false c)
        else put_id i (set_mode lock q) ;; mret (SndSleep a true c)
    | None => snd_alloc a
    end.

Definition msgsnd (p : Z) (c : cred) (mac id msgsz msgflg : Z) : M phase :=
  r ← find_queue id;
  match r with
  | inl eval => mret (Return eval 0)
  | inr (i, q) =>
      let eval := ipcperm c (msg_perm q) IPC_W in
      if negb (eval =? 0) then mret (Return eval 0)
      else if negb (mac =? 0) then mret (Return mac 0)
      else
        s ← get;
        let segs := s32 (u64 (msgsz + msgssz (info s) - 1) / msgssz (info s)) in
        snd_loop (SndArgs p id msgsz msgflg segs)
  end.

(** The sleep has ended with [err]. *)
Definition snd_wake (a : snd_args) (we_own_it : bool) (err : Z) : M phase :=
  let i := IPCID_TO_IX (sn_id a) in
  q ← get_id i;
  (if we_own_it then put_id i (set_mode unlock q) else mret ()) ;;
  if negb (err =? 0) then mret (Return EINTR 0)
  else
    q ← get_id i;
    if msg_qbytes q =? 0 then mret (Return EIDRM 0) else snd_loop a.

(** Gives a message up that could not be copied in. *)
Definition snd_fail (a : snd_args) (h eval : Z) : M phase :=
  let i := IPCID_TO_IX (sn_id a) in
  msg_freehdr h ;;
  q ← get_id i;
  put_id i (set_mode unlock q) ;;
  wakeup (CQueue i) ;;
  mret (Return eval 0).

(** Makes [h] the last header of the queue. *)
Definition append (h : Z) (q : msqid_ds) : M msqid_ds :=
  if msg_first q =? -1 then mret (set_list h h q)
  else
    m ← get_hdr (msg_last q);
    put_hdr (msg_last q) (set_next h m) ;;
    mret (set_list (msg_first q) h q).

Definition enqueue (p now i h : Z) (q : msqid_ds) : M () :=
  q ← append h q;
  m ← get_hdr h;
  put_hdr h (set_next (-1) m) ;;
  put_id i (set_sent p now (set_counts (u64 (msg_cbytes q + msg_ts m)) (u64 (msg_qnum q + 1)) q)).

(** The text is complete; [mac] is the policy's answer for the message. *)
Definition snd_finish (mac now : Z) (a : snd_args) (h next : Z) : M phase :=
  let i := IPCID_TO_IX (sn_id a) in
  if negb (next =? -1) then panic
  else
    q ← get_id i;
    let q := set_mode unlock q in
    put_id i q ;;
    if msg_qbytes q =? 0 then msg_freehdr h ;; wakeup (CQueue i) ;; mret (Return EIDRM 0)
    else if negb (mac =? 0) then msg_freehdr h ;; wakeup (CQueue i) ;; mret (Return mac 0)
    else
      enqueue (sn_proc a) now i h q ;;
      wakeup (CQueue i) ;;
      mret (Return 0 0).

(** The type has been copied in with [eval]. *)
Definition snd_type (mac now : Z) (a : snd_args) (h eval type : Z) : M phase :=
  m ← get_hdr h;
  put_hdr h (set_type type m) ;;
  if negb (eval =? 0) then snd_fail a h eval
  else if type <? 1 then snd_fail a h EINVAL
  else
    s ← get;
    if sn_size a >? 0 then
      if msg_spot m <=? -1 then panic
      else if msg_spot m >=? msgseg (info s) then panic
      else mret (SndSeg a h (msg_spot m) (sn_size a))
    else snd_finish mac now a h (msg_spot m).

(** A segment has been copied in with [eval]; [text] is what is now there. *)
Definition snd_seg (mac now : Z) (a : snd_args) (h next left eval : Z) (text : list Z) : M phase :=
  s ← get;
  let tlen := if left >? msgssz (info s) then msgssz (info s) else left in
  pool ← liftr (blit (msgpool s) (next * msgssz (info s)) (take (Z.to_nat tlen) text));
  set_pool pool ;;
  if negb (eval =? 0) then snd_fail a h eval
  else
    let left := left - tlen in
    next ← get_map next;
    if left >? 0 then
      if next <=? -1 then panic
      else if next >=? msgseg (info s) then panic
      else mret (SndSeg a h next left)
    else snd_finish mac now a h next.

(** ** Receiving *)

(** A place that holds a pointer to a header. *)
Inductive href := QFirst (i : Z) | HNext (h : Z).

Definition read_href (r : href) : M Z :=
  match r with
  | QFirst i => q ← get_id i; mret (msg_first q)
  | HNext h => m ← get_hdr h; mret (msg_next m)
  end.

Definition write_href (r : href) (x : Z) : M () :=
  match r with
  | QFirst i => q ← get_id i; put_id i (set_list x (msg_last q) q)
  | HNext h => m ← get_hdr h; put_hdr h (set_next x m)
  end.

Definition matches (msgtyp type : Z) : bool := (msgtyp =? type) || (type <=? s64 (- msgtyp)).

(** The message is too big for the caller. *)
Definition too_big (a : rcv_args) (ts : Z) : bool :=
  (rc_size a <? ts) && negb (tst (rc_flg a) MSG_NOERROR).

(** Takes the header [h], which [prev] points to, out of the queue. *)
Definition extract (i h previous : Z) (prev : href) : M () :=
  m ← get_hdr h;
  write_href prev (msg_next m) ;;
  q ← get_id i;
  if h =? msg_last q then
    if previous =? -1 then
      match prev with
      | QFirst _ => put_id i (set_list (-1) (-1) q)
      | HNext _ => panic
      end
    else
      match prev with
      | QFirst _ => panic
      | HNext _ => put_id i (set_list (msg_first q) previous q)
      end
  else mret ().

(** The first message of a type that is asked for: an error, the header, or
    none.  [mac] is the policy's answer; the fuel is the number of headers and
    one. *)
Fixpoint search (fuel : nat) (mac : Z) (a : rcv_args) (i previous : Z) (prev : href) : M (Z + option Z) :=
  match fuel with
  | O => fault
  | S fuel =>
      h ← read_href prev;
      if h =? -1 then mret (inr None)
      else
        m ← get_hdr h;
        if matches (rc_typ a) (msg_type m) then
          if too_big a (msg_ts m) then mret (inl E2BIG)
          else if negb (mac =? 0) then mret (inl mac)
          else extract i h previous prev ;; mret (inr (Some h))
        else search fuel mac a i h (HNext h)
  end.

(** The first message of the queue. *)
Definition take_first (mac : Z) (a : rcv_args) (i : Z) : M (Z + option Z) :=
  q ← get_id i;
  let h := msg_first q in
  if h =? -1 then mret (inr None)
  else
    m ← get_hdr h;
    if too_big a (msg_ts m) then mret (inl E2BIG)
    else if negb (mac =? 0) then mret (inl mac)
    else if msg_first q =? msg_last q then put_id i (set_list (-1) (-1) q) ;; mret (inr (Some h))
    else
      put_id i (set_list (msg_next m) (msg_last q) q) ;;
      if msg_next m =? -1 then panic else mret (inr (Some h)).

(** The message of the header [h] is no longer counted. *)
Definition dequeued (p now i h : Z) : M msg :=
  m ← get_hdr h;
  q ← get_id i;
  put_id i (set_received p now (set_counts (u64 (msg_cbytes q - msg_ts m)) (u64 (msg_qnum q - 1)) q)) ;;
  mret m.

(** The loop that waits for a message, from its beginning to a sleep or to the
    point where the type is copied out. *)
Definition rcv_loop (mac now : Z) (a : rcv_args) : M phase :=
  let i := IPCID_TO_IX (rc_id a) in
  s ← get;
  r ← (if rc_typ a =? 0 then take_first mac a i
       else search (S (length (msghdrs s))) mac a i (-1) (QFirst i));
  match (r : Z + option Z) with
  | inl eval => mret (Return eval 0)
  | inr None => if tst (rc_flg a) IPC_NOWAIT then mret (Return ENOMSG 0) else mret (RcvSleep a)
  | inr (Some h) =>
      m ← dequeued (rc_proc a) now i h;
      mret (RcvType a h (if rc_size a >? msg_ts m then msg_ts m else rc_size a)
        (if rc_64 a then msg_type m else s32 (msg_type m)))
  end.

Definition msgrcv (p : Z) (is64 : bool) (c : cred) (mac mac_rcv now id msgsz msgtyp msgflg : Z) : M phase :=
  r ← find_queue id;
  match r with
  | inl eval => mret (Return eval 0)
  | inr (i, q) =>
      let eval := ipcperm c (msg_perm q) IPC_R in
      if negb (eval =? 0) then mret (Return eval 0)
      else if negb (mac =? 0) then mret (Return mac 0)
      else rcv_loop mac_rcv now (RcvArgs p is64 id msgsz msgtyp msgflg)
  end.

(** The sleep has ended with [err]. *)
Definition rcv_wake (mac now : Z) (a : rcv_args) (err : Z) : M phase :=
  if negb (err =? 0) then mret (Return EINTR 0)
  else
    q ← get_id (IPCID_TO_IX (rc_id a));
    if (msg_qbytes q =? 0) || negb (_seq (msg_perm q) =? IPCID_TO_SEQ (rc_id a)) then mret (Return EIDRM 0)
    else rcv_loop mac now a.

(** The call ends; the message has been taken out of the queue already. *)
Definition rcv_end (a : rcv_args) (h eval rval type : Z) (text : list Z) : M phase :=
  msg_freehdr h ;; wakeup (CQueue (IPCID_TO_IX (rc_id a))) ;; mret (RcvReturn eval rval type text).

(** On to the next segment, or to the end. *)
Definition rcv_next (a : rcv_args) (h next len size type : Z) (text : list Z) : M phase :=
  if len <? size then
    s ← get;
    if next <=? -1 then panic
    else if next >=? msgseg (info s) then panic
    else mret (RcvSeg a h next len size type text)
  else rcv_end a h 0 size type text.

(** The type has been copied out with [eval]. *)
Definition rcv_type (a : rcv_args) (h size type eval : Z) : M phase :=
  if negb (eval =? 0) then rcv_end a h eval 0 0 []
  else m ← get_hdr h; rcv_next a h (msg_spot m) 0 size type [].

(** A segment has been copied out with [eval], [got] of its characters if that
    is an error; [text] is what the user has received before. *)
Definition rcv_seg (a : rcv_args) (h next len size type : Z) (text : list Z) (eval : Z) (got : nat) : M phase :=
  s ← get;
  let tlen := Z.min (size - len) (msgssz (info s)) in
  seg ← liftr (slice (msgpool s) (next * msgssz (info s)) tlen);
  if negb (eval =? 0) then rcv_end a h eval 0 type (text ++ take got seg)
  else
    next ← get_map next;
    rcv_next a h next (len + msgssz (info s)) size type (text ++ seg).

(** ** The system call that lists the queues *)

(** The index of the first queue from [cursor] on, and its structure. *)
Definition ipcs_iter (is64 : bool) (cursor : Z) (datalen_ok : bool) : M (Z + (Z * user_msqid)) :=
  ok ← msginit;
  if negb ok then mret (inl ENOMEM)
  else
    s ← get;
    if (cursor <? 0) || (cursor >=? msgmni (info s)) then mret (inl ERANGE)
    else if negb datalen_ok then mret (inl EINVAL)
    else
      match find_id (λ q, negb (msg_qbytes q =? 0)) (drop (Z.to_nat cursor) (msqids s)) cursor with
      | None => mret (inl ENOENT)
      | Some i =>
          q ← get_id i;
          mret (inr (i, if is64 then msqid_ds_kerneltouser64 q else msqid_ds_kerneltouser32 q))
      end.
