(* ===== verification/MsgSpec.v ===== *)
(** * System V message queues: what the calls promise

    A queue is a list of messages, each a type and a text.  What is left of the
    arrays of headers and segments is how many of them are free. *)

From S2P Require Import Prelude Ipc Msg.

Record amsg := AMsg { m_type : Z; m_text : list Z }.

(** An entry of the table of queues that has been used; [sl_meta] is its
    structure without the list and its counters. *)
Record aslot := ASlot { sl_meta : msqid_ds; sl_msgs : list amsg }.

Record astate := AState {
  a_info : msginfo;
  a_up : bool;
  a_hdrs : Z;
  a_segs : Z;
  a_slots : list (option aslot);
  a_heap : list bool;
  a_woken : list chan
}.

Definition zlen {A} (l : list A) : Z := Z.of_nat (length l).
Definition bytes (l : list amsg) : Z := foldr (λ m n, zlen (m_text m) + n) 0 l.
Definition nsegs (mi : msginfo) (n : Z) : Z := (n + msgssz mi - 1) / msgssz mi.

Definition live (sl : aslot) : bool := negb (msg_qbytes (sl_meta sl) =? 0).
Definition seq_of (o : option aslot) : Z := match o with Some sl => _seq (msg_perm (sl_meta sl)) | None => 0 end.
Definition stat_of (sl : aslot) : msqid_ds := set_counts (bytes (sl_msgs sl)) (zlen (sl_msgs sl)) (sl_meta sl).

(** What a thread does next. *)
Inductive aphase :=
  | AReturn (eval rval : Z)
  | AStatCopyout (is64 : bool) (i : Z)
  | AStatReturn (u : user_msqid)
  | ASetCopyin (c : cred) (i : Z)
  | ASndSleep (x : snd_args) (we_own_it : bool) (c : chan)
  | ASndType (x : snd_args)
  | ASndSeg (x : snd_args) (type : Z) (text : list Z)
  | ARcvSleep (x : rcv_args)
  | ARcvType (x : rcv_args) (m : amsg)
  | ARcvSeg (x : rcv_args) (m : amsg) (text : list Z)
  | ARcvReturn (eval rval type : Z) (text : list Z).

(** ** Parts of the state *)

Definition get_slot (i : Z) (a : astate) : option aslot := mjoin (a_slots a !! Z.to_nat i).
Definition put_slot (i : Z) (sl : aslot) (a : astate) : astate :=
  AState (a_info a) (a_up a) (a_hdrs a) (a_segs a) (<[Z.to_nat i := Some sl]> (a_slots a)) (a_heap a) (a_woken a).
Definition put_free (hdrs segs : Z) (a : astate) : astate :=
  AState (a_info a) (a_up a) hdrs segs (a_slots a) (a_heap a) (a_woken a).
Definition spec_wakeup (c : chan) (a : astate) : astate :=
  AState (a_info a) (a_up a) (a_hdrs a) (a_segs a) (a_slots a) (a_heap a) (a_woken a ++ [c]).

(** A message of [n] characters gives its header and segments back. *)
Definition spec_free (n : Z) (a : astate) : astate :=
  spec_wakeup CFree (put_free (a_hdrs a + 1) (a_segs a + nsegs (a_info a) n) a).

Definition spec_init (a : astate) : bool * astate :=
  if a_up a then (true, a)
  else
    let mi := check_info (a_info a) in
    match a_heap a with
    | true :: heap => (true, AState mi true (msgtql mi) (msgseg mi) (replicate (Z.to_nat (msgmni mi)) None) heap (a_woken a))
    | _ => (false, AState mi false 0 0 [] (tail (a_heap a)) (a_woken a))
    end.

Definition spec_find (id : Z) (a : astate) : (Z + (Z * aslot)) * astate :=
  let '(ok, a) := spec_init a in
  if negb ok then (inl ENOMEM, a)
  else
    let i := IPCID_TO_IX id in
    match get_slot i a with
    | Some sl => if live sl && (_seq (msg_perm (sl_meta sl)) =? IPCID_TO_SEQ id) then (inr (i, sl), a) else (inl EINVAL, a)
    | None => (inl EINVAL, a)
    end.

(** ** Control *)

Definition spec_rmid (i : Z) (sl : aslot) (a : astate) : astate :=
  spec_wakeup (CQueue i)
    (put_slot i (ASlot (set_qbytes 0 (sl_meta sl)) []) (foldl (λ a m, spec_free (zlen (m_text m)) a) a (sl_msgs sl))).

Fixpoint first_error (mac : nat → Z) (n : nat) : Z :=
  match n with O => 0 | S n => if negb (mac O =? 0) then mac O else first_error (mac ∘ S) n end.

Definition spec_ctl (is64 : bool) (c : cred) (mac : Z) (mac_rmid : nat → Z) (id : Z) (cmd : msgctl_cmd) (a : astate) :
    astate * aphase :=
  match spec_find id a with
  | (inl eval, a) => (a, AReturn eval 0)
  | (inr (i, sl), a) =>
      let perm := ipcperm c (msg_perm (sl_meta sl)) in
      if negb (mac =? 0) then (a, AReturn mac 0)
      else
        match cmd with
        | IPC_RMID =>
            if negb (perm IPC_M =? 0) then (a, AReturn (perm IPC_M) 0)
            else
              let eval := first_error mac_rmid (length (sl_msgs sl)) in
              if negb (eval =? 0) then (a, AReturn eval 0) else (spec_rmid i sl a, AReturn 0 0)
        | IPC_SET => if negb (perm IPC_M =? 0) then (a, AReturn (perm IPC_M) 0) else (a, ASetCopyin c i)
        | IPC_STAT => if negb (perm IPC_R =? 0) then (a, AReturn (perm IPC_R) 0) else (a, AStatCopyout is64 i)
        | CmdOther => (a, AReturn EINVAL 0)
        end
  end.

Definition spec_stat (is64 : bool) (i eval : Z) (a : astate) : astate * aphase :=
  match get_slot i a with
  | Some sl =>
      if negb (eval =? 0) then (a, AReturn eval 0)
      else (a, AStatReturn (if is64 then msqid_ds_kerneltouser64 (stat_of sl) else msqid_ds_kerneltouser32 (stat_of sl)))
  | None => (a, AReturn EINVAL 0)
  end.

Definition set_meta (now qbytes : Z) (b : user_msqid) (q : msqid_ds) : msqid_ds :=
  set_ctime now (set_qbytes qbytes (set_perm (λ p,
    IpcPerm (uid (u_perm b)) (gid (u_perm b)) (cuid p) (cgid p)
      (Z.lor (Z.land (mode p) (Z.lnot 0x1ff)) (Z.land (mode (u_perm b)) 0x1ff)) (_seq p) (_key p)) q)).

Definition spec_set (now : Z) (c : cred) (i eval : Z) (b : user_msqid) (a : astate) : astate * aphase :=
  match get_slot i a with
  | Some sl =>
      let qbytes := Z.min (u_qbytes b) (msgmnb (a_info a)) in
      if negb (eval =? 0) then (a, AReturn eval 0)
      else if (u_qbytes b >? msg_qbytes (sl_meta sl)) && negb (cr_super c) then (a, AReturn EPERM 0)
      else if qbytes =? 0 then (a, AReturn EINVAL 0)
      else (put_slot i (ASlot (set_meta now qbytes b (sl_meta sl)) (sl_msgs sl)) a, AReturn 0 0)
  | None => (a, AReturn EINVAL 0)
  end.

Definition has_key (key : Z) (o : option aslot) : bool :=
  match o with Some sl => live sl && (_key (msg_perm (sl_meta sl)) =? key) | None => false end.
Definition unused (o : option aslot) : bool :=
  match o with Some sl => negb (live sl) && negb (locked (sl_meta sl)) | None => true end.

Definition spec_get (c : cred) (mac now key msgflg : Z) (a : astate) : astate * aphase :=
  let '(ok, a) := spec_init a in
  if negb ok then (a, AReturn ENOMEM 0)
  else
    match (if key =? IPC_PRIVATE then None else find_id (has_key key) (a_slots a) 0) with
    | Some i =>
        match get_slot i a with
        | Some sl =>
            let eval := ipcperm c (msg_perm (sl_meta sl)) (Z.land msgflg 0x1c0) in
            if tst msgflg IPC_CREAT && tst msgflg IPC_EXCL then (a, AReturn EEXIST 0)
            else if negb (eval =? 0) then (a, AReturn eval 0)
            else if negb (mac =? 0) then (a, AReturn mac 0)
            else (a, AReturn 0 (queue_id i (sl_meta sl)))
        | None => (a, AReturn EINVAL 0)
        end
    | None =>
        if (key =? IPC_PRIVATE) || tst msgflg IPC_CREAT then
          match find_id unused (a_slots a) 0 with
          | None => (a, AReturn ENOSPC 0)
          | Some i =>
              let q := new_queue c now key msgflg (msgmnb (a_info a)) (seq_of (get_slot i a)) in
              (put_slot i (ASlot q []) a, AReturn 0 (queue_id i q))
          end
        else (a, AReturn ENOENT 0)
    end.

(** ** Sending *)

(** What a sender waits for, if anything. *)
Definition blocking (x : snd_args) (sl : aslot) (a : astate) : option chan :=
  if (a_hdrs a =? 0) || (nsegs (a_info a) (sn_size x) >? a_segs a) then Some CFree
  else if locked (sl_meta sl) || (sn_size x + bytes (sl_msgs sl) >? msg_qbytes (sl_meta sl))
  then Some (CQueue (IPCID_TO_IX (sn_id x))) else None.

Definition lock_slot (sl : aslot) : aslot := ASlot (set_mode lock (sl_meta sl)) (sl_msgs sl).
Definition unlock_slot (sl : aslot) : aslot := ASlot (set_mode unlock (sl_meta sl)) (sl_msgs sl).

Definition spec_snd_loop (x : snd_args) (a : astate) : astate * aphase :=
  let i := IPCID_TO_IX (sn_id x) in
  match get_slot i a with
  | Some sl =>
      if sn_size x >? msg_qbytes (sl_meta sl) then (a, AReturn EINVAL 0)
      else
        match blocking x sl a with
        | Some c =>
            if tst (sn_flg x) IPC_NOWAIT then (a, AReturn EAGAIN 0)
            else if locked (sl_meta sl) then (a, ASndSleep x false c)
            else (put_slot i (lock_slot sl) a, ASndSleep x true c)
        | None =>
            (put_free (a_hdrs a - 1) (a_segs a - nsegs (a_info a) (sn_size x)) (put_slot i (lock_slot sl) a), ASndType x)
        end
  | None => (a, AReturn EINVAL 0)
  end.

Definition snd_segs (mi : msginfo) (msgsz : Z) : Z := s32 (u64 (msgsz + msgssz mi - 1) / msgssz mi).

Definition spec_snd (p : Z) (c : cred) (mac id msgsz msgflg : Z) (a : astate) : astate * aphase :=
  match spec_find id a with
  | (inl eval, a) => (a, AReturn eval 0)
  | (inr (i, sl), a) =>
      let eval := ipcperm c (msg_perm (sl_meta sl)) IPC_W in
      if negb (eval =? 0) then (a, AReturn eval 0)
      else if negb (mac =? 0) then (a, AReturn mac 0)
      else spec_snd_loop (SndArgs p id msgsz msgflg (snd_segs (a_info a) msgsz)) a
  end.

Definition spec_snd_wake (x : snd_args) (we_own_it : bool) (err : Z) (a : astate) : astate * aphase :=
  let i := IPCID_TO_IX (sn_id x) in
  match get_slot i a with
  | Some sl =>
      let a := if we_own_it then put_slot i (unlock_slot sl) a else a in
      if negb (err =? 0) then (a, AReturn EINTR 0)
      else if negb (live sl) then (a, AReturn EIDRM 0)
      else spec_snd_loop x a
  | None => (a, AReturn EINVAL 0)
  end.

(** The message is given up. *)
Definition spec_snd_fail (x : snd_args) (eval : Z) (a : astate) : astate * aphase :=
  let i := IPCID_TO_IX (sn_id x) in
  match get_slot i a with
  | Some sl => (spec_wakeup (CQueue i) (put_slot i (unlock_slot sl) (spec_free (sn_size x) a)), AReturn eval 0)
  | None => (a, AReturn EINVAL 0)
  end.

Definition spec_snd_finish (mac now : Z) (x : snd_args) (m : amsg) (a : astate) : astate * aphase :=
  let i := IPCID_TO_IX (sn_id x) in
  match get_slot i a with
  | Some sl =>
      if negb (live sl) then spec_snd_fail x EIDRM a
      else if negb (mac =? 0) then spec_snd_fail x mac a
      else
        (spec_wakeup (CQueue i)
           (put_slot i (ASlot (set_sent (sn_proc x) now (set_mode unlock (sl_meta sl))) (sl_msgs sl ++ [m])) a), AReturn 0 0)
  | None => (a, AReturn EINVAL 0)
  end.

Definition spec_snd_type (mac now : Z) (x : snd_args) (eval type : Z) (a : astate) : astate * aphase :=
  if negb (eval =? 0) then spec_snd_fail x eval a
  else if type <? 1 then spec_snd_fail x EINVAL a
  else if sn_size x >? 0 then (a, ASndSeg x type [])
  else spec_snd_finish mac now x (AMsg type []) a.

(** [text] is there; [more] is copied in with [eval]. *)
Definition spec_snd_seg (mac now : Z) (x : snd_args) (type : Z) (text : list Z) (eval : Z) (more : list Z) (a : astate) :
    astate * aphase :=
  if negb (eval =? 0) then spec_snd_fail x eval a
  else
    let text := text ++ take (Z.to_nat (Z.min (sn_size x - zlen text) (msgssz (a_info a)))) more in
    if zlen text <? sn_size x then (a, ASndSeg x type text) else spec_snd_finish mac now x (AMsg type text) a.

(** ** Receiving *)

(** The first message that is asked for, and the others. *)
Fixpoint pick (typ : Z) (l : list amsg) : option (amsg * list amsg) :=
  match l with
  | [] => None
  | m :: l =>
      if (typ =? 0) || matches typ (m_type m) then Some (m, l)
      else match pick typ l with Some (m', l') => Some (m', m :: l') | None => None end
  end.

Definition spec_rcv_loop (mac now : Z) (x : rcv_args) (a : astate) : astate * aphase :=
  let i := IPCID_TO_IX (rc_id x) in
  match get_slot i a with
  | Some sl =>
      match pick (rc_typ x) (sl_msgs sl) with
      | None => if tst (rc_flg x) IPC_NOWAIT then (a, AReturn ENOMSG 0) else (a, ARcvSleep x)
      | Some (m, l) =>
          if too_big x (zlen (m_text m)) then (a, AReturn E2BIG 0)
          else if negb (mac =? 0) then (a, AReturn mac 0)
          else (put_slot i (ASlot (set_received (rc_proc x) now (sl_meta sl)) l) a, ARcvType x m)
      end
  | None => (a, AReturn EINVAL 0)
  end.

Definition spec_rcv (p : Z) (is64 : bool) (c : cred) (mac mac_rcv now id msgsz msgtyp msgflg : Z) (a : astate) :
    astate * aphase :=
  match spec_find id a with
  | (inl eval, a) => (a, AReturn eval 0)
  | (inr (i, sl), a) =>
      let eval := ipcperm c (msg_perm (sl_meta sl)) IPC_R in
      if negb (eval =? 0) then (a, AReturn eval 0)
      else if negb (mac =? 0) then (a, AReturn mac 0)
      else spec_rcv_loop mac_rcv now (RcvArgs p is64 id msgsz msgtyp msgflg) a
  end.

Definition spec_rcv_wake (mac now : Z) (x : rcv_args) (err : Z) (a : astate) : astate * aphase :=
  match get_slot (IPCID_TO_IX (rc_id x)) a with
  | Some sl =>
      if negb (err =? 0) then (a, AReturn EINTR 0)
      else if live sl && (_seq (msg_perm (sl_meta sl)) =? IPCID_TO_SEQ (rc_id x)) then spec_rcv_loop mac now x a
      else (a, AReturn EIDRM 0)
  | None => (a, AReturn EINVAL 0)
  end.

Definition spec_rcv_end (x : rcv_args) (m : amsg) (eval rval type : Z) (text : list Z) (a : astate) : astate * aphase :=
  (spec_wakeup (CQueue (IPCID_TO_IX (rc_id x))) (spec_free (zlen (m_text m)) a), ARcvReturn eval rval type text).

(** What the user gets to see of a message. *)
Definition rcv_size (x : rcv_args) (m : amsg) : Z := Z.min (rc_size x) (zlen (m_text m)).
Definition rcv_text (x : rcv_args) (m : amsg) : list Z := take (Z.to_nat (rcv_size x m)) (m_text m).
Definition rcv_mtype (x : rcv_args) (m : amsg) : Z := if rc_64 x then m_type m else s32 (m_type m).

Definition spec_rcv_next (x : rcv_args) (m : amsg) (text : list Z) (a : astate) : astate * aphase :=
  if zlen text <? rcv_size x m then (a, ARcvSeg x m text) else spec_rcv_end x m 0 (rcv_size x m) (rcv_mtype x m) text a.

Definition spec_rcv_type (x : rcv_args) (m : amsg) (eval : Z) (a : astate) : astate * aphase :=
  if negb (eval =? 0) then spec_rcv_end x m eval 0 0 [] a else spec_rcv_next x m [] a.

Definition spec_rcv_seg (x : rcv_args) (m : amsg) (text : list Z) (eval : Z) (got : nat) (a : astate) : astate * aphase :=
  let more := take (Z.to_nat (msgssz (a_info a))) (drop (length text) (rcv_text x m)) in
  if negb (eval =? 0) then spec_rcv_end x m eval 0 (rcv_mtype x m) (text ++ take got more) a
  else spec_rcv_next x m (text ++ more) a.
