(* ===== verification/MsgRel.v ===== *)
(** * System V message queues: how the arrays represent queues

    Every header is free, in a queue, or in the hands of a thread; every
    segment is free or belongs to a header.  The lists of indices are a ghost
    state that the relation between the arrays and the queues is stated
    with. *)

From S2P Require Import Prelude Chain Ipc Msg MsgSpec.

Inductive hown := HFree | HQueue (i : Z) | HThread (t : nat).
Inductive sown := SFree | SHdr (h : Z).

#[export] Instance hown_eq_dec : EqDecision hown.
Proof. solve_decision. Defined.
#[export] Instance sown_eq_dec : EqDecision sown.
Proof. solve_decision. Defined.

Record ghost := Ghost { hl : hown → list Z; sg : sown → list Z }.

Definition hnext (s : state) (h : Z) : res Z := m ← rd (msghdrs s) h; Ok (msg_next m).
Definition snext (s : state) (x : Z) : res Z := rd (msgmaps s) x.

(** ** The arrays *)

Record info_ok (mi : msginfo) : Prop := {
  io_mni : 0 < msgmni mi;
  io_mnb : 0 < msgmnb mi < 2 ^ 16;
  io_tql : 0 < msgtql mi < 2 ^ 31;
  io_ssz : 0 < msgssz mi < 2 ^ 16;
  io_seg : 0 < msgseg mi < 2 ^ 15;
  io_max : msgssz mi * msgseg mi <= msgmax mi
}.

Record heap_ok (s : state) (g : ghost) : Prop := {
  ho_info : info_ok (info s);
  ho_pool : zlen (msgpool s) = msgmax (info s);
  ho_maps : zlen (msgmaps s) = msgseg (info s);
  ho_hdrs : zlen (msghdrs s) = msgtql (info s);
  ho_ids : zlen (msqids s) = msgmni (info s);
  ho_hparts : parts (msgtql (info s)) (hl g);
  ho_sparts : parts (msgseg (info s)) (sg g);
  ho_hfree : chain (hnext s) (free_msghdrs s) (hl g HFree);
  ho_sfree : chain (snext s) (free_msgmaps s) (sg g SFree);
  ho_nfree : nfree_msgmaps s = zlen (sg g SFree);
  ho_owned h x : x ∈ sg g (SHdr h) → ∃ o, o ≠ HFree ∧ h ∈ hl g o
}.

(** The header [h], which is not free, has its segments. *)
Record hdr_ok (s : state) (g : ghost) (h : Z) (r : msg) : Prop := {
  hd_rd : rd (msghdrs s) h = Ok r;
  hd_ts : 0 <= msg_ts r < 2 ^ 16;
  hd_segs : chain (snext s) (msg_spot r) (sg g (SHdr h));
  hd_num : zlen (sg g (SHdr h)) = nsegs (info s) (msg_ts r)
}.

(** The characters of a segment, and of a list of segments. *)
Definition seg_text (s : state) (x : Z) : list Z :=
  take (Z.to_nat (msgssz (info s))) (drop (Z.to_nat (x * msgssz (info s))) (msgpool s)).
Definition text_of (s : state) (l : list Z) : list Z := l ≫= seg_text s.

(** The header [h] has the message [m]. *)
Definition hdr_has (s : state) (g : ghost) (h : Z) (m : amsg) : Prop :=
  ∃ r, hdr_ok s g h r ∧ msg_type r = m_type m ∧ msg_ts r = zlen (m_text m) ∧
       m_text m `prefix_of` text_of s (sg g (SHdr h)).

(** ** Queues *)

Definition meta (q : msqid_ds) : msqid_ds := set_list (-1) (-1) (set_counts 0 0 q).

Record list_ok (s : state) (l : list Z) (q : msqid_ds) : Prop := {
  lo_chain : chain (hnext s) (msg_first q) l;
  lo_last h : last l = Some h → msg_last q = h
}.

Record used_rel (s : state) (g : ghost) (l : list Z) (q : msqid_ds) (sl : aslot) : Prop := {
  us_meta : meta q = sl_meta sl;
  us_msgs : Forall2 (hdr_has s g) l (sl_msgs sl);
  us_cbytes : msg_cbytes q = bytes (sl_msgs sl);
  us_qnum : msg_qnum q = zlen (sl_msgs sl);
  us_qbytes : 0 <= msg_qbytes q <= msgmnb (info s);
  us_live : live sl = true → list_ok s l q;
  us_dead : live sl = false → l = []
}.

Definition slot_rel (s : state) (g : ghost) (i : Z) (q : msqid_ds) (o : option aslot) : Prop :=
  match o with
  | None => msg_qbytes q = 0 ∧ _seq (msg_perm q) = 0 ∧ mode (msg_perm q) = 0 ∧ hl g (HQueue i) = []
  | Some sl => used_rel s g (hl g (HQueue i)) q sl
  end.

Definition slots_rel (s : state) (g : ghost) (slots : list (option aslot)) : Prop :=
  length slots = length (msqids s) ∧ (∀ j, ¬ 0 <= j < zlen (msqids s) → hl g (HQueue j) = []) ∧
  ∀ i q o, msqids s !! i = Some q → slots !! i = Some o → slot_rel s g (Z.of_nat i) q o.

Definition alloc_ok (x : alloc) : bool :=
  match x with Alloc (Some _) (Some _) (Some _) (Some _) => true | _ => false end.

Record base_rel (s : state) (g : ghost) (a : astate) : Prop := {
  ba_heap : heap_ok s g;
  ba_slots : slots_rel s g (a_slots a);
  ba_init : initted s = true ∧ a_up a = true;
  ba_info : a_info a = info s;
  ba_hdrs : a_hdrs a = zlen (hl g HFree);
  ba_segs : a_segs a = nfree_msgmaps s;
  ba_alloc : a_heap a = alloc_ok <$> heap s;
  ba_woken : a_woken a = woken s
}.

(** ** Threads *)

Definition used (a : astate) (i : Z) : Prop := 0 <= i ∧ is_Some (get_slot i a).

Definition snd_ok (mi : msginfo) (a : astate) (x : snd_args) : Prop :=
  used a (IPCID_TO_IX (sn_id x)) ∧ 0 <= sn_size x < 2 ^ 64 ∧ sn_segs x = snd_segs mi (sn_size x).

(** After the segments [l1], which are the whole of [text], comes [next]. *)
Definition at_seg (s : state) (r : msg) (l1 : list Z) (next : Z) (text : list Z) : Prop :=
  path (snext s) (msg_spot r) l1 next ∧ text_of s l1 = text.

Definition phase_rel (s : state) (g : ghost) (a : astate) (t : nat) (ph : phase) (aph : aphase) : Prop :=
  match ph, aph with
  | Return e v, AReturn e' v' => e = e' ∧ v = v' ∧ hl g (HThread t) = []
  | StatCopyout b i, AStatCopyout b' i' => b = b' ∧ i = i' ∧ used a i ∧ hl g (HThread t) = []
  | StatReturn u, AStatReturn u' => u = u' ∧ hl g (HThread t) = []
  | SetCopyin c i, ASetCopyin c' i' => c = c' ∧ i = i' ∧ used a i ∧ hl g (HThread t) = []
  | SndSleep x b c, ASndSleep x' b' c' => x = x' ∧ b = b' ∧ c = c' ∧ snd_ok (info s) a x ∧ hl g (HThread t) = []
  | SndType x h, ASndType x' =>
      x = x' ∧ snd_ok (info s) a x ∧ hl g (HThread t) = [h] ∧ ∃ r, hdr_ok s g h r ∧ msg_ts r = sn_size x
  | SndSeg x h next rest, ASndSeg x' ty text =>
      x = x' ∧ snd_ok (info s) a x ∧ hl g (HThread t) = [h] ∧ 0 < rest ∧ rest = sn_size x - zlen text ∧
      ∃ r l1 l2, hdr_ok s g h r ∧ msg_ts r = sn_size x ∧ msg_type r = ty ∧ sg g (SHdr h) = l1 ++ l2 ∧ at_seg s r l1 next text
  | RcvSleep x, ARcvSleep x' => x = x' ∧ used a (IPCID_TO_IX (rc_id x)) ∧ 0 <= rc_size x ∧ hl g (HThread t) = []
  | RcvType x h size ty, ARcvType x' m =>
      x = x' ∧ 0 <= rc_size x ∧ hl g (HThread t) = [h] ∧ hdr_has s g h m ∧ size = rcv_size x m ∧ ty = rcv_mtype x m
  | RcvSeg x h next len size ty text, ARcvSeg x' m text' =>
      x = x' ∧ 0 <= rc_size x ∧ hl g (HThread t) = [h] ∧ hdr_has s g h m ∧ size = rcv_size x m ∧ ty = rcv_mtype x m ∧
      text = text' ∧ len = zlen text ∧ len < size ∧
      ∃ r l1 l2, rd (msghdrs s) h = Ok r ∧ sg g (SHdr h) = l1 ++ l2 ∧ at_seg s r l1 next text
  | RcvReturn e v ty text, ARcvReturn e' v' ty' text' => e = e' ∧ v = v' ∧ ty = ty' ∧ text = text' ∧ hl g (HThread t) = []
  | _, _ => False
  end.

(** ** What stays the same *)

(** Nothing that belongs to the header [h] changes. *)
Record same (s : state) (g : ghost) (s' : state) (g' : ghost) (h : Z) : Prop := {
  sa_hdr : rd (msghdrs s') h = rd (msghdrs s) h;
  sa_sg : sg g' (SHdr h) = sg g (SHdr h);
  sa_seg x : x ∈ sg g (SHdr h) → snext s' x = snext s x ∧ seg_text s' x = seg_text s x
}.

Lemma same_hdr_refl s g h : same s g s g h.
Proof. done. Qed.

Lemma same_trans s g s' g' s'' g'' h : same s g s' g' h → same s' g' s'' g'' h → same s g s'' g'' h.
Proof.
  intros [H1 H2 H3] [H1' H2' H3']. split; [by rewrite H1' | by rewrite H2' |]. intros x Hx.
  destruct (H3 x Hx) as [<- <-]. apply H3'. by rewrite H2.
Qed.

Lemma text_of_ext s s' l : (∀ x, x ∈ l → seg_text s' x = seg_text s x) → text_of s' l = text_of s l.
Proof.
  induction l as [|x l IH]; intros H; [done |]. cbn. rewrite (H x) by constructor. unfold text_of in IH. rewrite IH; [done |].
  intros y Hy. apply H. by constructor.
Qed.

Lemma Forall2_in {A B} (P Q : A → B → Prop) l k :
  Forall2 P l k → (∀ x y, x ∈ l → P x y → Q x y) → Forall2 Q l k.
Proof.
  induction 1 as [|x y l k Hxy _ IH]; intros H; constructor; [apply H; [by constructor | done] |].
  apply IH. intros x' y' Hx'. apply H. by constructor.
Qed.

Section same.
Context (s : state) (g : ghost) (s' : state) (g' : ghost).
Hypothesis (Hinfo : info s' = info s).

Lemma hdr_ok_same h r : same s g s' g' h → hdr_ok s g h r → hdr_ok s' g' h r.
Proof.
  intros [H1 H2 H3] [? ? Hc ?]. split; [by rewrite H1 | done | | by rewrite H2, Hinfo]. rewrite H2.
  eapply path_ext; [exact Hc |]. intros x Hx. by apply H3.
Qed.

Lemma hdr_has_same h m : same s g s' g' h → hdr_has s g h m → hdr_has s' g' h m.
Proof.
  intros H (r & Hr & Hty & Hts & Htx). exists r. split; [by apply hdr_ok_same |]. do 2 (split; [done |]).
  rewrite (sa_sg _ _ _ _ _ H), (text_of_ext s); [done |]. intros x Hx. by apply (sa_seg _ _ _ _ _ H).
Qed.

Lemma at_seg_same h r l1 l2 next text : same s g s' g' h → sg g (SHdr h) = l1 ++ l2 → at_seg s r l1 next text → at_seg s' r l1 next text.
Proof.
  intros H Hl [Hp Ht]. assert (Hs : ∀ x, x ∈ l1 → snext s' x = snext s x ∧ seg_text s' x = seg_text s x).
  { intros x Hx. apply (sa_seg _ _ _ _ _ H). rewrite Hl. apply elem_of_app. by left. }
  split; [eapply path_ext; [exact Hp |]; intros x Hx; by apply Hs |]. rewrite <- Ht. apply text_of_ext. intros x Hx. by apply Hs.
Qed.

Lemma used_rel_same l q sl : (∀ h, h ∈ l → same s g s' g' h) → used_rel s g l q sl → used_rel s' g' l q sl.
Proof.
  intros H [? Hm ? ? ? Hl ?]. split; [done | | done | done | by rewrite Hinfo | | done].
  - eapply Forall2_in; [exact Hm |]. intros h m Hh. apply hdr_has_same. by apply H.
  - intros E. destruct (Hl E) as [Hc ?]. split; [| done]. eapply path_ext; [exact Hc |]. intros h Hh. unfold hnext. by rewrite (sa_hdr _ _ _ _ _ (H h Hh)).
Qed.

Definition grows (a a' : astate) : Prop := ∀ i, used a i → used a' i.

(** What a thread knows of its own message. *)
Lemma phase_rel_same a a' t ph aph :
  grows a a' → hl g' (HThread t) = hl g (HThread t) → (∀ h, h ∈ hl g (HThread t) → same s g s' g' h) →
  phase_rel s g a t ph aph → phase_rel s' g' a' t ph aph.
Proof.
  intros Hg Hh Hs H. unfold phase_rel, snd_ok in *. rewrite Hinfo, Hh. destruct ph, aph; try done; try (by naive_solver).
  - destruct H as (-> & (Hu & Hsz) & Hl & r & Hr & Hts). do 2 (split; [by auto |]). split; [done |]. exists r. split; [| done].
    apply hdr_ok_same; [| done]. apply Hs. rewrite Hl. by constructor.
  - destruct H as (-> & (Hu & Hsz) & Hl & ? & ? & r & l1 & l2 & Hr & ? & ? & Hsg & Ha).
    assert (same s g s' g' h) as Hsame by (apply Hs; rewrite Hl; by constructor).
    do 2 (split; [by auto |]). do 3 (split; [done |]).
    exists r, l1, l2. split; [by apply hdr_ok_same |]. do 2 (split; [done |]). rewrite (sa_sg _ _ _ _ _ Hsame). split; [done |]. by eapply at_seg_same.
  - destruct H as (-> & ? & Hl & Hm & ?). do 3 (split; [done |]). split; [| done]. apply hdr_has_same; [| done]. apply Hs. rewrite Hl. by constructor.
  - destruct H as (-> & ? & Hl & Hm & ? & ? & ? & ? & ? & r & l1 & l2 & Hr & Hsg & Ha).
    assert (same s g s' g' h) as Hsame by (apply Hs; rewrite Hl; by constructor).
    do 3 (split; [done |]). split; [by apply hdr_has_same |]. do 5 (split; [done |]).
    exists r, l1, l2. rewrite (sa_hdr _ _ _ _ _ Hsame), (sa_sg _ _ _ _ _ Hsame). do 2 (split; [done |]). by eapply at_seg_same.
Qed.

End same.
