(* ===== verification/MsgSegs.v ===== *)
(** * System V message queues: headers and segments

    Taking segments for a message and giving a message back. *)

From S2P Require Import Prelude Chain Ipc Msg MsgSpec MsgRel.

(** ** Single accesses *)

Section wp.
Context (s : state).

Lemma wp_modify_msg f (Q : () → state → Prop) : Q () (f s) → wp (modify f) Q s.
Proof. done. Qed.

Lemma wp_get_hdr h m (Q : msg → state → Prop) : rd (msghdrs s) h = Ok m → Q m s → wp (get_hdr h) Q s.
Proof. intros H. unfold wp, get_hdr, get, liftr. rewrite st_bind_unfold. cbn. by rewrite H. Qed.

Lemma wp_get_map x n (Q : Z → state → Prop) : snext s x = Ok n → Q n s → wp (get_map x) Q s.
Proof. intros H. unfold wp, get_map, get, liftr. rewrite st_bind_unfold. cbn. unfold snext in H. by rewrite H. Qed.

Lemma wp_get_id i q (Q : msqid_ds → state → Prop) : rd (msqids s) i = Ok q → Q q s → wp (get_id i) Q s.
Proof. intros H. unfold wp, get_id, get, liftr. rewrite st_bind_unfold. cbn. by rewrite H. Qed.

Lemma wp_put_hdr h m m' (Q : () → state → Prop) :
  rd (msghdrs s) h = Ok m → Q () (with_hdrs (<[Z.to_nat h := m']> (msghdrs s)) s) → wp (put_hdr h m') Q s.
Proof. intros H. unfold wp, put_hdr, get, liftr, modify. rewrite !st_bind_unfold. cbn. by rewrite (wr_rd _ _ _ m' H). Qed.

Lemma wp_put_map x n n' (Q : () → state → Prop) :
  snext s x = Ok n → Q () (with_maps (<[Z.to_nat x := n']> (msgmaps s)) s) → wp (put_map x n') Q s.
Proof. intros H. unfold wp, put_map, get, liftr, modify. rewrite !st_bind_unfold. cbn. by rewrite (wr_rd _ _ _ n' H). Qed.

Lemma wp_put_id i q q' (Q : () → state → Prop) :
  rd (msqids s) i = Ok q → Q () (with_ids (<[Z.to_nat i := q']> (msqids s)) s) → wp (put_id i q') Q s.
Proof. intros H. unfold wp, put_id, get, liftr, modify. rewrite !st_bind_unfold. cbn. by rewrite (wr_rd _ _ _ q' H). Qed.

End wp.

(** ** Numbers of segments *)

Section nsegs.
Context (mi : msginfo).
Hypothesis (Hssz : 0 < msgssz mi).

Lemma nsegs_0 : nsegs mi 0 = 0.
Proof. unfold nsegs. apply Z.div_small. lia. Qed.

Lemma nsegs_sub n : msgssz mi <= n → nsegs mi (n - msgssz mi) = nsegs mi n - 1.
Proof. intros H. unfold nsegs. replace (n + msgssz mi - 1) with (n - msgssz mi + msgssz mi - 1 + 1 * msgssz mi) by lia. rewrite Z.div_add by lia. lia. Qed.

Lemma nsegs_last n : 0 < n <= msgssz mi → nsegs mi n = 1.
Proof. intros H. unfold nsegs. symmetry. apply (Z.div_unique_pos _ _ _ (n - 1)); lia. Qed.

Lemma nsegs_pos n : 0 < n → 0 < nsegs mi n.
Proof. intros H. unfold nsegs. apply Z.div_str_pos. lia. Qed.

Lemma nsegs_nonneg n : 0 <= n → 0 <= nsegs mi n.
Proof. intros H. unfold nsegs. apply Z.div_pos; lia. Qed.

Lemma nsegs_bound n : 0 <= n → n <= msgssz mi * nsegs mi n < n + msgssz mi.
Proof. intros H. unfold nsegs. zlia. Qed.

End nsegs.

(** ** A segment that changes its owner *)

Record quiet (s s' : state) : Prop := {
  qu_info : info s' = info s;
  qu_init : initted s' = initted s;
  qu_pool : msgpool s' = msgpool s;
  qu_ids : msqids s' = msqids s;
  qu_heap : heap s' = heap s
}.

Lemma quiet_refl s : quiet s s.
Proof. done. Qed.

Lemma quiet_trans s s' s'' : quiet s s' → quiet s' s'' → quiet s s''.
Proof. intros [? ? ? ? ?] [? ? ? ? ?]. split; congruence. Qed.

(** All that the other headers have stays. *)
Definition others (s : state) (g : ghost) (s' : state) (g' : ghost) (h : Z) : Prop := ∀ h', h' ≠ h → same s g s' g' h'.

Lemma others_trans s g s' g' s'' g'' h : others s g s' g' h → others s' g' s'' g'' h → others s g s'' g'' h.
Proof. intros H H' h' Hne. eapply same_trans; [by apply H | by apply H']. Qed.

(** The segment [x] is now followed by [k]; the header has become [r]. *)
Definition seg_move (x k free n h : Z) (r : msg) (s : state) : state :=
  with_hdrs (<[Z.to_nat h := r]> (msghdrs s))
    (with_nfree n (with_free_maps free (with_maps (<[Z.to_nat x := k]> (msgmaps s)) s))).

Section move.
Context (s : state) (g : ghost) (x k free n h : Z) (r r' : msg) (nx : Z) (o : hown).
Hypotheses (Hok : heap_ok s g) (Hx : snext s x = Ok nx) (Hr : rd (msghdrs s) h = Ok r) (Hnext : msg_next r' = msg_next r).

Let s1 := seg_move x k free n h r' s.

Lemma seg_move_snext y : snext s1 y = if decide (y = x) then Ok k else snext s y.
Proof.
  unfold snext, s1. cbn. case_decide as H; [subst y; by eapply rd_insert_eq |]. apply rd_insert_ne; [| done].
  by apply rd_range in Hx as [? _].
Qed.

Lemma seg_move_hnext y : hnext s1 y = hnext s y.
Proof.
  unfold hnext, s1. cbn. pose proof (rd_range _ _ _ Hr) as [Hh _]. destruct (decide (h = y)) as [<-|H]; [| by rewrite rd_insert_ne].
  erewrite rd_insert_eq by exact Hr. rewrite Hr. cbn. by rewrite Hnext.
Qed.

Lemma seg_move_quiet : quiet s s1.
Proof. done. Qed.

Lemma seg_move_others sg' : (∀ h', h' ≠ h → sg' (SHdr h') = sg g (SHdr h') ∧ x ∉ sg g (SHdr h')) → others s g s1 (Ghost (hl g) sg') h.
Proof.
  intros H h' Hne. destruct (H h' Hne) as [Hs Hn]. split; [| done |].
  - cbn. apply rd_insert_ne; [| done]. by apply rd_range in Hr as [? _].
  - intros y Hy. rewrite seg_move_snext, decide_False by (by intros ->). done.
Qed.

Lemma seg_move_ok sg' : parts (msgseg (info s)) sg' → chain (snext s1) free (sg' SFree) → n = zlen (sg' SFree) →
  (∀ h' y, y ∈ sg' (SHdr h') → ∃ o, o ≠ HFree ∧ h' ∈ hl g o) → heap_ok s1 (Ghost (hl g) sg').
Proof.
  intros Hp Hc Hn Ho. destruct Hok. split; try done.
  - cbn. unfold zlen. by rewrite length_insert.
  - cbn. unfold zlen. by rewrite length_insert.
  - eapply path_ext; [eassumption |]. intros y _. apply seg_move_hnext.
Qed.

End move.

(** ** Giving segments back *)

(** What is left of the size after one segment. *)
Definition less (mi : msginfo) (ts : Z) : Z := if ts >=? msgssz mi then ts - msgssz mi else 0.

Lemma nsegs_less mi ts : 0 < msgssz mi → 0 < ts → nsegs mi (less mi ts) = nsegs mi ts - 1 ∧ 0 <= less mi ts < ts.
Proof.
  intros H Hts. unfold less. destruct (Z.geb_spec ts (msgssz mi)).
  - rewrite nsegs_sub by lia. lia.
  - rewrite nsegs_0, nsegs_last by lia. lia.
Qed.

Section headers.
Context (o : hown).
Hypothesis (Ho : o ≠ HFree).

(** One segment of [h] becomes free. *)
Lemma give_seg s g h r : heap_ok s g → h ∈ hl g o → hdr_ok s g h r → 0 < msg_ts r →
  ∃ x l nx, msg_spot r = x ∧ 0 <= x < msgseg (info s) ∧ snext s x = Ok nx ∧ sg g (SHdr h) = x :: l ∧
    let r' := Msg (msg_next r) (msg_type r) (less (info s) (msg_ts r)) nx in
    let s1 := seg_move x (free_msgmaps s) x (nfree_msgmaps s + 1) h r' s in
    let g1 := Ghost (hl g) (move (sg g) (SHdr h) SFree l (x :: sg g SFree)) in
    heap_ok s1 g1 ∧ hdr_ok s1 g1 h r' ∧ others s g s1 g1 h.
Proof.
  intros Hok Hh [Hrd Hts Hc Hn] Hpos. pose proof (ho_info _ _ Hok) as Hi. pose proof (io_ssz _ Hi) as Hssz.
  destruct (nsegs_less (info s) (msg_ts r)) as [Hn' Hl']; [lia | done |]. pose proof (nsegs_pos (info s) ltac:(lia) _ Hpos) as Hp.
  destruct (sg g (SHdr h)) as [|x l] eqn:Hsg; [unfold zlen in Hn; cbn in Hn; lia |]. destruct Hc as (Hspot & nx & Hx & Hc).
  pose proof (ho_sparts _ _ Hok) as Hpa. assert (Hxin : x ∈ sg g (SHdr h)) by (rewrite Hsg; by constructor).
  exists x, l, nx. split; [done |]. split; [by apply (pa_range _ _ Hpa) in Hxin |]. do 2 (split; [done |]). cbn zeta.
  assert (Hfree : x ∉ sg g SFree) by (intros Hf; by specialize (pa_disj _ _ Hpa _ _ _ Hxin Hf)).
  assert (Hxl : x ∉ l) by (pose proof (pa_nodup _ _ Hpa (SHdr h)) as Hnd; rewrite Hsg in Hnd; by apply NoDup_cons in Hnd as [? _]).
  set (r' := Msg _ _ _ _). set (s1 := seg_move _ _ _ _ _ _ _).
  assert (Hsn : ∀ y, snext s1 y = if decide (y = x) then Ok (free_msgmaps s) else snext s y) by (intros y; by eapply seg_move_snext).
  split_and!.
  - eapply (seg_move_ok s g x _ _ _ h r r' Hok Hrd); [done | | | |].
    + apply (move_parts _ _ _ _ x); [done | done | by rewrite Hsg | done].
    + rewrite move_to. split; [done |]. exists (free_msgmaps s). rewrite Hsn, decide_True by done. split; [done |].
      eapply path_ext; [apply (ho_sfree _ _ Hok) |]. intros y Hy. rewrite Hsn, decide_False; [done |]. by intros ->.
    + rewrite move_to, (ho_nfree _ _ Hok). unfold zlen. cbn. lia.
    + intros h' y Hy. destruct (decide (h' = h)) as [->|Hne]; [by exists o |]. rewrite move_other in Hy by congruence. by eapply (ho_owned _ _ Hok).
  - split; cbn [hl sg msg_ts msg_spot].
    + cbn. by eapply rd_insert_eq.
    + cbn. lia.
    + rewrite move_from by done. eapply path_ext; [exact Hc |]. intros y Hy. rewrite Hsn, decide_False; [done |]. by intros ->.
    + rewrite move_from by done. cbn [msg_ts r']. unfold zlen in *. cbn [length] in Hn. cbn [info s1 seg_move with_hdrs with_nfree with_free_maps with_maps]. lia.
  - eapply seg_move_others; [exact Hx | exact Hrd |]. intros h' Hne. rewrite move_other by congruence. split; [done |].
    intros Hy. pose proof (pa_disj _ _ Hpa _ _ _ Hxin Hy). congruence.
Qed.

Definition freed (s : state) (g : ghost) (h : Z) (r : msg) (s' : state) : Prop :=
  ∃ g' r', heap_ok s' g' ∧ hl g' = hl g ∧ rd (msghdrs s') h = Ok r' ∧ msg_spot r' = -1 ∧ msg_ts r' = 0 ∧ sg g' (SHdr h) = [] ∧
    nfree_msgmaps s' = nfree_msgmaps s + nsegs (info s) (msg_ts r) ∧
    free_msghdrs s' = free_msghdrs s ∧ woken s' = woken s ∧ quiet s s' ∧ others s g s' g' h.

Lemma free_segs_spec fuel : ∀ s g h r, heap_ok s g → h ∈ hl g o → hdr_ok s g h r → msg_ts r <= Z.of_nat fuel →
  wp (free_segs fuel h) (λ _, freed s g h r) s.
Proof.
  induction fuel as [|fuel IH]; intros s g h r Hok Hh Hr Hf; pose proof (io_ssz _ (ho_info _ _ Hok)) as Hssz;
    cbn [free_segs]; apply wp_bind, (wp_get_hdr _ _ r); [apply Hr | | apply Hr |]; destruct (Z.gtb_spec (msg_ts r) 0) as [Hpos|Hz].
  1: lia.
  1, 3: pose proof (hd_ts _ _ _ _ Hr); assert (msg_ts r = 0) as Hts by lia; pose proof (hd_num _ _ _ _ Hr) as Hn; rewrite Hts, nsegs_0 in Hn by lia;
      destruct (sg g (SHdr h)) eqn:Hsg; [| unfold zlen in Hn; cbn in Hn; lia]; apply wp_ret; exists g, r;
      pose proof (hd_segs _ _ _ _ Hr) as Hc; rewrite Hsg in Hc; cbn in Hc; rewrite Hts, nsegs_0 by lia;
      split_and!; try done; [apply Hr | lia].
  apply wp_bind, wp_get. destruct (give_seg s g h r Hok Hh Hr) as (x & l & nx & Hspot & Hx & Hnx & Hsg & Hok1 & Hr1 & Hoth); [lia |].
  rewrite Hspot. destruct (_ || _) eqn:E; [lia |].
  apply wp_bind, (wp_get_map _ _ nx); [done |]. apply wp_bind, (wp_put_map _ _ nx); [done |].
  apply wp_bind, wp_modify_msg. apply wp_bind, wp_modify_msg. apply wp_bind. eapply wp_put_hdr; [cbn; apply Hr |].
  eapply wp_mono; [eapply (IH _ _ h _ Hok1 Hh Hr1) |].
  - cbn. destruct (nsegs_less (info s) (msg_ts r)); lia.
  - intros _ s' (g' & r' & ? & ? & ? & ? & ? & ? & Hnf & ? & ? & Hq & Hoth'). exists g', r'. split_and!; try done.
    + rewrite Hnf. cbn. destruct (nsegs_less (info s) (msg_ts r)) as [Hl _]; [lia | lia |]. rewrite Hl. lia.
    + eapply quiet_trans; [| exact Hq]. done.
    + by eapply others_trans.
Qed.

(** The header [h], one of those that [o] had, is free with its [n] segments. *)
Record released (s : state) (g : ghost) (h : Z) (l : list Z) (n : Z) (s' : state) (g' : ghost) : Prop := {
  re_ok : heap_ok s' g';
  re_hl : hl g' = move (hl g) o HFree l (h :: hl g HFree);
  re_nfree : nfree_msgmaps s' = nfree_msgmaps s + n;
  re_woken : woken s' = woken s ++ [CFree];
  re_quiet : quiet s s';
  re_others : others s g s' g' h
}.

(** The header itself goes to the free list. *)
Lemma give_hdr s g h r l : heap_ok s g → hl g o ≡ₚ h :: l → rd (msghdrs s) h = Ok r → sg g (SHdr h) = [] →
  let s' := with_woken (woken s ++ [CFree])
              (with_free_hdrs h (with_hdrs (<[Z.to_nat h := set_next (free_msghdrs s) r]> (msghdrs s)) s)) in
  released s g h l 0 s' (Ghost (move (hl g) o HFree l (h :: hl g HFree)) (sg g)).
Proof.
  intros Hok Hl Hr Hsg s'. pose proof (ho_hparts _ _ Hok) as Hp. assert (Hh : h ∈ hl g o) by (rewrite Hl; by constructor).
  pose proof (rd_range _ _ _ Hr) as [Hh0 _].
  assert (Hhn : ∀ y, y ≠ h → hnext s' y = hnext s y) by (intros y Hy; unfold hnext; cbn; by rewrite rd_insert_ne).
  assert (Hoth : others s g s' (Ghost (move (hl g) o HFree l (h :: hl g HFree)) (sg g)) h).
  { intros h' Hne. split; [cbn; by apply rd_insert_ne | done | done]. }
  split; [| done | cbn; lia | done | done | done]. pose proof (ho_owned _ _ Hok) as Hown. destruct Hok. split; try done.
  - cbn. unfold zlen. by rewrite length_insert.
  - cbn. apply (move_parts _ _ _ _ h); done.
  - cbn [hl]. rewrite move_to. cbn [free_msghdrs s' with_woken with_free_hdrs]. split; [done |]. exists (free_msghdrs s). split.
    + unfold hnext. cbn. by rewrite (rd_insert_eq _ _ r).
    + eapply path_ext; [eassumption |]. intros y Hy. apply Hhn. intros ->. by destruct (Ho (pa_disj _ _ Hp _ _ _ Hh Hy)).
  - cbn [sg hl]. intros h' x Hx. destruct (Hown h' x Hx) as (o' & Ho' & Hh'). exists o'. split; [done |].
    assert (h' ≠ h) by (intros ->; rewrite Hsg in Hx; by apply elem_of_nil in Hx). destruct (decide (o' = o)) as [->|Hne].
    + rewrite move_from by done. rewrite Hl in Hh'. by apply elem_of_cons in Hh' as [?|?].
    + by rewrite move_other.
Qed.

Lemma msg_freehdr_spec s g h r l : heap_ok s g → hl g o ≡ₚ h :: l → hdr_ok s g h r →
  wp (msg_freehdr h) (λ _ s', ∃ g', released s g h l (nsegs (info s) (msg_ts r)) s' g') s.
Proof.
  intros Hok Hl Hr. unfold msg_freehdr. apply wp_bind, (wp_get_hdr _ _ r); [apply Hr |]. apply wp_bind.
  eapply wp_mono; [apply (free_segs_spec _ s g h r); [done | rewrite Hl; by constructor | done | destruct (hd_ts _ _ _ _ Hr); lia] |].
  intros _ s1 (g1 & r1 & Hok1 & Hhl & Hr1 & Hspot & _ & Hsg & Hnf & Hfh & Hw & Hq & Hoth).
  apply wp_bind, (wp_get_hdr _ _ r1); [done |]. rewrite Hspot. cbn [negb Z.eqb]. apply wp_bind, wp_get.
  apply wp_bind, (wp_put_hdr _ _ r1); [done |]. apply wp_bind, wp_modify_msg, wp_modify_msg.
  rewrite <- Hhl in Hl. pose proof (give_hdr s1 g1 h r1 l Hok1 Hl Hr1 Hsg) as [? ? Hn ? Hq' ?]. eexists. split; [eassumption | | | | |].
  - cbn. by rewrite Hhl.
  - etrans; [exact Hn |]. lia.
  - cbn. by rewrite Hw.
  - by eapply quiet_trans.
  - by eapply others_trans.
Qed.

(** ** Taking segments *)

Lemma take_seg s g h r : heap_ok s g → h ∈ hl g o → rd (msghdrs s) h = Ok r → chain (snext s) (msg_spot r) (sg g (SHdr h)) →
  0 < nfree_msgmaps s →
  ∃ x l nx, free_msgmaps s = x ∧ 0 <= x < msgseg (info s) ∧ snext s x = Ok nx ∧
    let r' := Msg (msg_next r) (msg_type r) (msg_ts r) x in
    let s1 := seg_move x (msg_spot r) nx (nfree_msgmaps s - 1) h r' s in
    let g1 := Ghost (hl g) (move (sg g) SFree (SHdr h) l (x :: sg g (SHdr h))) in
    heap_ok s1 g1 ∧ chain (snext s1) x (sg g1 (SHdr h)) ∧ rd (msghdrs s1) h = Ok r' ∧ others s g s1 g1 h.
Proof.
  intros Hok Hh Hrd Hc Hpos. pose proof (ho_sparts _ _ Hok) as Hpa. pose proof (ho_nfree _ _ Hok) as Hn.
  pose proof (ho_sfree _ _ Hok) as Hf. destruct (sg g SFree) as [|x l] eqn:Hsg; [unfold zlen in Hn; cbn in Hn; lia |].
  destruct Hf as (Hfree & nx & Hx & Hf). assert (Hxin : x ∈ sg g SFree) by (rewrite Hsg; by constructor).
  exists x, l, nx. split; [done |]. split; [by apply (pa_range _ _ Hpa) in Hxin |]. split; [done |]. cbn zeta.
  assert (Hxh : ∀ h', x ∉ sg g (SHdr h')) by (intros h' Hy; by specialize (pa_disj _ _ Hpa _ _ _ Hxin Hy)).
  assert (Hxl : x ∉ l) by (pose proof (pa_nodup _ _ Hpa SFree) as Hnd; rewrite Hsg in Hnd; by apply NoDup_cons in Hnd as [? _]).
  set (r' := Msg _ _ _ _). set (s1 := seg_move _ _ _ _ _ _ _).
  assert (Hsn : ∀ y, snext s1 y = if decide (y = x) then Ok (msg_spot r) else snext s y) by (intros y; by eapply seg_move_snext).
  split; [| split; [| split]].
  - eapply (seg_move_ok s g x _ _ _ h r r' Hok Hrd); [done | | | |].
    + apply (move_parts _ _ _ _ x); [done | done | by rewrite Hsg | done].
    + rewrite move_from by done. eapply path_ext; [exact Hf |]. intros y Hy. rewrite Hsn, decide_False; [done |]. by intros ->.
    + rewrite move_from by done. rewrite Hn. unfold zlen. cbn. lia.
    + intros h' y Hy. destruct (decide (h' = h)) as [->|Hne]; [by exists o |]. rewrite move_other in Hy by congruence. by eapply (ho_owned _ _ Hok).
  - cbn [sg]. rewrite move_to. split; [done |]. exists (msg_spot r). rewrite Hsn, decide_True by done. split; [done |].
    eapply path_ext; [exact Hc |]. intros y Hy. rewrite Hsn, decide_False; [done |]. intros ->. by destruct (Hxh h).
  - cbn. by eapply rd_insert_eq.
  - eapply seg_move_others; [exact Hx | exact Hrd |]. intros h' Hne. by rewrite move_other by congruence.
Qed.

Lemma take_segs_spec n : ∀ s g h r, heap_ok s g → h ∈ hl g o → rd (msghdrs s) h = Ok r →
  chain (snext s) (msg_spot r) (sg g (SHdr h)) → Z.of_nat n <= nfree_msgmaps s →
  wp (take_segs n h) (λ _ s', ∃ g' r', heap_ok s' g' ∧ hl g' = hl g ∧ rd (msghdrs s') h = Ok r' ∧ msg_ts r' = msg_ts r ∧
    chain (snext s') (msg_spot r') (sg g' (SHdr h)) ∧ zlen (sg g' (SHdr h)) = zlen (sg g (SHdr h)) + Z.of_nat n ∧
    nfree_msgmaps s' = nfree_msgmaps s - Z.of_nat n ∧ woken s' = woken s ∧ quiet s s' ∧ others s g s' g' h) s.
Proof.
  induction n as [|n IH]; intros s g h r Hok Hh Hrd Hc Hn; cbn [take_segs].
  { apply wp_ret. exists g, r. split_and!; try done; lia. }
  apply wp_bind, wp_get. destruct (take_seg s g h r Hok Hh Hrd Hc) as (x & l & nx & Hfree & Hx & Hnx & Hok1 & Hc1 & Hr1 & Hoth); [lia |].
  rewrite Hfree. destruct (Z.leb_spec (nfree_msgmaps s) 0); [lia |]. destruct (Z.eqb_spec x (-1)); [lia |].
  destruct (Z.leb_spec x (-1)); [lia |]. destruct (Z.geb_spec x (msgseg (info s))); [lia |].
  apply wp_bind, (wp_get_map _ _ nx); [done |]. apply wp_bind, wp_modify_msg. apply wp_bind, wp_modify_msg.
  apply wp_bind, (wp_get_hdr _ _ r); [done |]. apply wp_bind, (wp_put_map _ _ nx); [done |].
  apply wp_bind, (wp_put_hdr _ _ r); [done |]. eapply wp_mono; [apply (IH _ _ h _ Hok1 Hh Hr1 Hc1); cbn; lia |].
  intros _ s' (g' & r' & ? & ? & ? & ? & ? & Hlen & Hnf & ? & Hq & Hoth'). exists g', r'. split_and!; try done.
  - rewrite Hlen. cbn [sg]. rewrite move_to. unfold zlen. cbn [length]. lia.
  - rewrite Hnf. cbn. lia.
  - eapply quiet_trans; [| exact Hq]. done.
  - by eapply others_trans.
Qed.

End headers.
