(* ===== verification/MsgBase.v ===== *)
(** * System V message queues: changes to the table of queues

    How the relation between the arrays and the queues survives a change to
    one entry, a header that is freed, and the initialisation. *)

From S2P Require Import Prelude Chain Ipc Msg MsgSpec MsgRel MsgSegs.

(** ** What other owners keep *)

Definition kept (P : hown → Prop) (s : state) (g : ghost) (s' : state) (g' : ghost) : Prop :=
  info s' = info s ∧ ∀ o, P o → hl g' o = hl g o ∧ ∀ h, h ∈ hl g o → same s g s' g' h.

Lemma kept_refl P s g : kept P s g s g.
Proof. done. Qed.

Lemma kept_trans P s g s' g' s'' g'' : kept P s g s' g' → kept P s' g' s'' g'' → kept P s g s'' g''.
Proof.
  intros [Hi H] [Hi' H']. split; [congruence |]. intros o Ho. destruct (H o Ho) as [Hl Hs]. destruct (H' o Ho) as [Hl' Hs'].
  split; [congruence |]. intros h Hh. eapply same_trans; [by apply Hs |]. apply Hs'. by rewrite Hl.
Qed.

Lemma kept_mono (P P' : hown → Prop) s g s' g' : (∀ o, P' o → P o) → kept P s g s' g' → kept P' s g s' g'.
Proof. intros HP [Hi H]. split; [done |]. intros o Ho. by apply H, HP. Qed.

(** The other threads. *)
Definition not_thread (t : nat) (o : hown) : Prop := ∃ t', o = HThread t' ∧ t' ≠ t.
Abbreviation frame t := (kept (not_thread t)).

(** A state that differs in none of what headers have. *)
Lemma kept_same P s g s' : info s' = info s → msghdrs s' = msghdrs s → msgmaps s' = msgmaps s → msgpool s' = msgpool s →
  kept P s g s' g.
Proof.
  intros Hi Hh Hm Hp. split; [done |]. intros o _. split; [done |]. intros h _. split; [by rewrite Hh | done |].
  intros x _. unfold snext, seg_text. by rewrite Hm, Hp, Hi.
Qed.

Lemma released_kept o s g h l n s' g' : heap_ok s g → o ≠ HFree → h ∈ hl g o → released o s g h l n s' g' →
  kept (λ o', o' ≠ HFree ∧ o' ≠ o) s g s' g'.
Proof.
  intros Hok Ho Hh [? Hhl ? ? Hq Hoth]. split; [apply Hq |]. intros o' [Hf Hne]. rewrite Hhl. split; [by rewrite move_other |].
  intros h' Hh'. apply Hoth. intros ->. by destruct (Hne (pa_disj _ _ (ho_hparts _ _ Hok) _ _ _ Hh' Hh)).
Qed.

(** ** Entries of the table *)

Section slots.
Context (s : state) (g : ghost) (s' : state) (g' : ghost) (slots : list (option aslot)).
Hypothesis (Hs : slots_rel s g slots).

Lemma slots_keep : kept (λ o, ∃ j, o = HQueue j) s g s' g' → msqids s' = msqids s → slots_rel s' g' slots.
Proof.
  intros [Hi Hk] Hids. destruct Hs as (Hlen & Hout & Hsl). split; [by rewrite Hids |]. split.
  { intros j. rewrite Hids. intros Hj. destruct (Hk (HQueue j)) as [-> _]; [by eexists | by apply Hout]. }
  intros j q o. rewrite Hids. intros Hq Ho.
  specialize (Hsl j q o Hq Ho). destruct (Hk (HQueue (Z.of_nat j))) as [Hl Hsame]; [by eexists |].
  destruct o as [sl|]; cbn in *; rewrite Hl; [| done]. by eapply used_rel_same.
Qed.

Lemma slots_put i q q' sl : rd (msqids s) i = Ok q → msqids s' = <[Z.to_nat i := q']> (msqids s) →
  kept (λ o, ∃ j, o = HQueue j ∧ j ≠ i) s g s' g' → used_rel s' g' (hl g' (HQueue i)) q' sl →
  slots_rel s' g' (<[Z.to_nat i := Some sl]> slots).
Proof.
  intros Hq Hids [Hi Hk] Hu. destruct Hs as (Hlen & Hout & Hsl). split; [by rewrite Hids, !length_insert |].
  pose proof (rd_range _ _ _ Hq) as [Hi0 Hil]. split.
  { intros j. rewrite Hids. unfold zlen in *. rewrite length_insert. intros Hj. destruct (Hk (HQueue j)) as [-> _]; [exists j; split; [done |]; lia | by apply Hout]. }
  intros j q0 o. rewrite Hids. destruct (decide (j = Z.to_nat i)) as [->|Hj].
  - rewrite !list_lookup_insert_eq by lia. intros [= <-] [= <-]. cbn. by rewrite Z2Nat.id.
  - rewrite !list_lookup_insert_ne by done. intros Hq0 Ho. specialize (Hsl j q0 o Hq0 Ho).
    destruct (Hk (HQueue (Z.of_nat j))) as [Hl Hsame]; [eexists; split; [done | lia] |].
    destruct o as [sl'|]; cbn in *; rewrite Hl; [| done]. by eapply used_rel_same.
Qed.

End slots.

Section base.
Context (s : state) (g : ghost) (a : astate).
Hypothesis (Hb : base_rel s g a).

Lemma base_get i sl : 0 <= i → get_slot i a = Some sl → ∃ q, rd (msqids s) i = Ok q ∧ used_rel s g (hl g (HQueue i)) q sl.
Proof.
  intros Hi. unfold get_slot. destruct (a_slots a !! Z.to_nat i) as [[sl'|]|] eqn:E; cbn; [| done | done]. intros [= ->].
  destruct (ba_slots _ _ _ Hb) as (Hlen & _ & Hsl). destruct (lookup_lt_is_Some_2 (msqids s) (Z.to_nat i)) as [q Hq].
  { apply lookup_lt_Some in E. lia. }
  exists q. split; [by apply rd_lookup |]. specialize (Hsl _ _ _ Hq E). cbn in Hsl. by rewrite Z2Nat.id in Hsl.
Qed.

Lemma base_heap_put q q' i : rd (msqids s) i = Ok q → heap_ok (with_ids (<[Z.to_nat i := q']> (msqids s)) s) g.
Proof. intros Hq. destruct (ba_heap _ _ _ Hb). split; try done. cbn. unfold zlen. by rewrite length_insert. Qed.

Lemma base_put i q q' sl : rd (msqids s) i = Ok q → used_rel s g (hl g (HQueue i)) q' sl →
  base_rel (with_ids (<[Z.to_nat i := q']> (msqids s)) s) g (put_slot i sl a).
Proof.
  intros Hq Hu. pose proof (base_heap_put q q' i Hq). destruct Hb. split; try done. cbn [a_slots put_slot].
  eapply slots_put; [eassumption | exact Hq | done | by apply kept_same |]. eapply used_rel_same; [| | exact Hu]; done.
Qed.

Lemma base_wakeup c : base_rel (with_woken (woken s ++ [c]) s) g (spec_wakeup c a).
Proof.
  destruct Hb as [Hh Hs ? ? ? ? ? Hw]. split; try done; [| | by cbn; rewrite Hw]; [destruct Hh; by split |].
  eapply slots_keep; [exact Hs | by apply kept_same | done].
Qed.

(** A thread gives its header back. *)
Lemma base_freehdr t h r : hl g (HThread t) = [h] → hdr_ok s g h r →
  wp (msg_freehdr h) (λ _ s', ∃ g', base_rel s' g' (spec_free (msg_ts r) a) ∧ hl g' (HThread t) = [] ∧ frame t s g s' g' ∧
    msqids s' = msqids s) s.
Proof.
  intros Hl Hr. pose proof (ba_heap _ _ _ Hb) as Hok.
  eapply wp_mono; [apply (msg_freehdr_spec (HThread t) ltac:(done) s g h r []); [done | by rewrite Hl | done] |].
  intros _ s' (g' & Hre). exists g'. pose proof (released_kept (HThread t) _ _ h _ _ _ _ Hok ltac:(done) ltac:(rewrite Hl; by constructor) Hre) as Hk.
  destruct Hre as [Hok' Hhl Hnf Hw Hq Hoth]. destruct Hb as [_ Hsl [Hin Hup] Hi Hh Hsg Ha Hwo]. split; [| split; [| split]].
  - split; try done.
    + cbn. eapply slots_keep; [exact Hsl | | apply Hq]. eapply kept_mono; [| exact Hk]. by intros o [j ->].
    + split; [| done]. by rewrite (qu_init _ _ Hq).
    + cbn. by rewrite (qu_info _ _ Hq).
    + cbn. rewrite Hhl, move_to, Hh. unfold zlen. cbn. lia.
    + cbn. by rewrite Hnf, Hsg, Hi.
    + cbn. by rewrite (qu_heap _ _ Hq).
    + cbn. by rewrite Hw, Hwo.
  - by rewrite Hhl, move_from.
  - eapply kept_mono; [| exact Hk]. intros o (t' & -> & Ht'). split; [done |]. congruence.
  - apply Hq.
Qed.

End base.

(** ** Entries that have been used *)

Lemma used_put a i j sl : used a i → used (put_slot j sl a) i.
Proof.
  intros [Hi [sl' H]]. split; [done |]. unfold get_slot, put_slot in *. cbn. destruct (decide (Z.to_nat i = Z.to_nat j)) as [E|E].
  - rewrite E. destruct (a_slots a !! Z.to_nat i) eqn:El; [| done]. rewrite list_lookup_insert_eq; [by eexists |]. apply lookup_lt_Some in El. lia.
  - rewrite list_lookup_insert_ne by done. by eexists.
Qed.

Lemma grows_refl a : grows a a.
Proof. by intros i. Qed.

Lemma grows_trans a a' a'' : grows a a' → grows a' a'' → grows a a''.
Proof. unfold grows. eauto. Qed.

Lemma grows_put a i sl : grows a (put_slot i sl a).
Proof. intros j. apply used_put. Qed.

Lemma get_put a i sl : is_Some (get_slot i a) → get_slot i (put_slot i sl a) = Some sl.
Proof.
  intros [sl' H]. unfold get_slot, put_slot in *. cbn. rewrite list_lookup_insert_eq; [done |].
  destruct (a_slots a !! Z.to_nat i) eqn:E; [by apply lookup_lt_Some in E | done].
Qed.

(** ** Sections of a call *)

(** A section of thread [t] does what the specification says. *)
Definition sim (t : nat) (s : state) (g : ghost) (a : astate) (r : astate * aphase) (ph : phase) (s' : state) : Prop :=
  ∃ g', base_rel s' g' (fst r) ∧ phase_rel s' g' (fst r) t ph (snd r) ∧ frame t s g s' g' ∧ grows a (fst r).

Lemma sim_trans t s g a s1 g1 a1 r ph s' : frame t s g s1 g1 → grows a a1 → sim t s1 g1 a1 r ph s' → sim t s g a r ph s'.
Proof.
  intros Hf Hg (g' & Hb & Hp & Hf' & Hg'). exists g'. do 2 (split; [done |]). split; [by eapply kept_trans | by eapply grows_trans].
Qed.

Lemma sim_here t s g a aph ph : base_rel s g a → phase_rel s g a t ph aph → sim t s g a (a, aph) ph s.
Proof. intros Hb Hp. exists g. do 2 (split; [done |]). split; [apply kept_refl | apply grows_refl]. Qed.

(** Nothing changes but an error is returned. *)
Lemma sim_return t s g a e v : base_rel s g a → hl g (HThread t) = [] → wp (mret (Return e v)) (sim t s g a (a, AReturn e v)) s.
Proof. intros Hb Hl. apply wp_ret, sim_here; done. Qed.
