(* ===== verification/MsgQueue.v ===== *)
(** * System V message queues: lists of messages

    Removing a queue with its messages, and moving a message between a queue
    and a thread. *)

From S2P Require Import Prelude Chain Ipc Msg MsgSpec MsgRel MsgSegs MsgBase.

(** ** Sizes *)

Lemma zlen_cons {A} (x : A) l : zlen (x :: l) = zlen l + 1.
Proof. unfold zlen. cbn. lia. Qed.

Lemma zlen_nonneg {A} (l : list A) : 0 <= zlen l.
Proof. unfold zlen. lia. Qed.

Lemma bytes_cons m l : bytes (m :: l) = zlen (m_text m) + bytes l.
Proof. done. Qed.

Lemma bytes_app l k : bytes (l ++ k) = bytes l + bytes k.
Proof. induction l as [|m l IH]; [done |]. cbn [app]. rewrite !bytes_cons. lia. Qed.

Lemma bytes_bound s g l msgs : Forall2 (hdr_has s g) l msgs → 0 <= bytes msgs <= 2 ^ 16 * zlen l.
Proof.
  induction 1 as [|h m l msgs (r & Hr & _ & Hts & _) _ IH]; [done |]. pose proof (hd_ts _ _ _ _ Hr). rewrite bytes_cons, zlen_cons. lia.
Qed.

Definition nsegs_all (mi : msginfo) (l : list amsg) : Z := foldr (λ m n, nsegs mi (zlen (m_text m)) + n) 0 l.

Lemma spec_free_all l : ∀ a, foldl (λ a m, spec_free (zlen (m_text m)) a) a l =
  AState (a_info a) (a_up a) (a_hdrs a + zlen l) (a_segs a + nsegs_all (a_info a) l) (a_slots a) (a_heap a)
    (a_woken a ++ replicate (length l) CFree).
Proof.
  induction l as [|m l IH]; intros [mi up hd sgs sl hp wk]; cbn [foldl].
  - cbn. rewrite app_nil_r. f_equal; unfold zlen; cbn; lia.
  - rewrite IH, zlen_cons. cbn -[zlen]. rewrite <- app_assoc. f_equal; unfold nsegs_all; lia.
Qed.

(** ** Removing a queue *)

Lemma heap_put_ids s g i q q' : heap_ok s g → rd (msqids s) i = Ok q → heap_ok (with_ids (<[Z.to_nat i := q']> (msqids s)) s) g.
Proof. intros Hok Hq. destruct Hok. split; try done. cbn. unfold zlen. by rewrite length_insert. Qed.

Lemma same_ids s g h ids : same s g (with_ids ids s) g h.
Proof. done. Qed.

(** The first header of a list whose other members stay as they are. *)
Lemma released_rest i s g h l msgs n s' g' : parts (msgtql (info s)) (hl g) → hl g (HQueue i) = h :: l →
  released (HQueue i) s g h l n s' g' → chain (hnext s) h (h :: l) → Forall2 (hdr_has s g) l msgs →
  ∀ nx, hnext s h = Ok nx → chain (hnext s') nx l ∧ Forall2 (hdr_has s' g') l msgs.
Proof.
  intros Hp Hl Hre (_ & nx' & Hnx' & Hc) Hm nx Hnx. rewrite Hnx in Hnx'. injection Hnx' as <-.
  assert (Hs : ∀ h', h' ∈ l → same s g s' g' h').
  { intros h' Hh'. apply (re_others _ _ _ _ _ _ _ _ Hre). intros ->. pose proof (pa_nodup _ _ Hp (HQueue i)) as Hnd.
    rewrite Hl in Hnd. by apply NoDup_cons in Hnd as [? _]. }
  split.
  - eapply path_ext; [exact Hc |]. intros h' Hh'. unfold hnext. by rewrite (sa_hdr _ _ _ _ _ (Hs h' Hh')).
  - eapply Forall2_in; [exact Hm |]. intros h' m Hh'. apply hdr_has_same; [| by apply Hs]. apply (re_quiet _ _ _ _ _ _ _ _ Hre).
Qed.

(** All of the headers of the queue [i] are free. *)
Record drained (i : Z) (s : state) (g : ghost) (q : msqid_ds) (msgs : list amsg) (s' : state) (g' : ghost) : Prop := {
  dr_ok : heap_ok s' g';
  dr_queue : hl g' (HQueue i) = [];
  dr_kept : kept (λ o, o ≠ HFree ∧ o ≠ HQueue i) s g s' g';
  dr_hfree : zlen (hl g' HFree) = zlen (hl g HFree) + zlen msgs;
  dr_nfree : nfree_msgmaps s' = nfree_msgmaps s + nsegs_all (info s) msgs;
  dr_woken : woken s' = woken s ++ replicate (length msgs) CFree;
  dr_ids : msqids s' = <[Z.to_nat i := set_counts 0 0 q]> (msqids s);
  dr_init : initted s' = initted s;
  dr_heap : heap s' = heap s
}.

(** One header first, then the others. *)
Lemma drained_cons i s g q q1 h l m msgs s1 g1 s' g' : heap_ok s g → hl g (HQueue i) = h :: l → rd (msqids s) i = Ok q →
  set_counts 0 0 q1 = set_counts 0 0 q →
  released (HQueue i) (with_ids (<[Z.to_nat i := q1]> (msqids s)) s) g h l (nsegs (info s) (zlen (m_text m))) s1 g1 →
  drained i s1 g1 q1 msgs s' g' → drained i s g q (m :: msgs) s' g'.
Proof.
  intros Hok Hl Hq Hc Hre [? ? Hk Hf Hn Hw Hids Hin Hh]. pose proof (rd_range _ _ _ Hq) as [Hi0 Hil].
  pose proof (heap_put_ids s g i q q1 Hok Hq) as Hok1.
  pose proof (released_kept (HQueue i) _ _ h _ _ _ _ Hok1 ltac:(done) ltac:(rewrite Hl; by constructor) Hre) as Hk1.
  destruct Hre as [? Hhl Hnf1 Hw1 Hqu ?]. split; [done | done | | | | | | |].
  - eapply kept_trans; [| exact Hk]. eapply kept_trans; [| exact Hk1]. by apply kept_same.
  - rewrite Hf, Hhl, move_to, !zlen_cons. lia.
  - rewrite Hn, Hnf1, (qu_info _ _ Hqu). cbn. unfold nsegs_all. lia.
  - rewrite Hw, Hw1. cbn. by rewrite <- app_assoc.
  - rewrite Hids, (qu_ids _ _ Hqu), Hc. cbn. by rewrite list_insert_insert_eq.
  - by rewrite Hin, (qu_init _ _ Hqu).
  - by rewrite Hh, (qu_heap _ _ Hqu).
Qed.

Lemma drained_nil i s g q : heap_ok s g → hl g (HQueue i) = [] → rd (msqids s) i = Ok q → msg_cbytes q = 0 → msg_qnum q = 0 →
  drained i s g q [] s g.
Proof.
  intros Hok Hl Hq Hc Hn. split; try done; [unfold zlen; cbn; lia | cbn; lia | by rewrite app_nil_r |].
  apply rd_lookup in Hq as [_ Hq]. symmetry. apply list_insert_id. rewrite Hq. destruct q; cbn in *. by subst.
Qed.

Lemma free_queue_spec i fuel : ∀ l msgs s g h q, heap_ok s g → rd (msqids s) i = Ok q → hl g (HQueue i) = l →
  chain (hnext s) h l → Forall2 (hdr_has s g) l msgs → msg_cbytes q = bytes msgs → msg_qnum q = zlen msgs →
  (length l <= fuel)%nat → wp (free_queue fuel i h) (λ _ s', ∃ g', drained i s g q msgs s' g') s.
Proof.
  induction fuel as [|fuel IH]; intros l msgs s g h q Hok Hq Hl Hc Hm Hcb Hqn Hf;
    (destruct Hm as [|h' m l msgs Hhas Hm]; [rewrite Hc; apply wp_ret; exists g; by apply drained_nil | cbn in Hf; try lia]).
  pose proof Hc as (-> & nx & Hnx & _). destruct Hhas as (r & Hr & Hty & Hts & Htx).
  pose proof (rd_range _ _ _ (hd_rd _ _ _ _ Hr)) as [Hh0 _]. cbn [free_queue]. destruct (Z.eqb_spec h' (-1)); [lia |].
  apply wp_bind, (wp_get_hdr _ _ r); [apply Hr |]. apply wp_bind, (wp_get_id _ _ q); [done |].
  apply wp_bind, (wp_put_id _ _ q); [done |]. set (q1 := set_counts _ _ q). pose proof (heap_put_ids s g i q q1 Hok Hq) as Hok1.
  apply wp_bind. eapply wp_mono; [apply (msg_freehdr_spec (HQueue i) ltac:(done) _ g h' r l Hok1); [by rewrite Hl |] |].
  { eapply hdr_ok_same; [| apply same_ids | exact Hr]. done. }
  intros _ s1 (g1 & Hre). assert (Hnx1 : nx = msg_next r) by (unfold hnext in Hnx; rewrite (hd_rd _ _ _ _ Hr) in Hnx; by injection Hnx). subst nx.
  assert (Hq1 : rd (msqids s1) i = Ok q1) by (rewrite (qu_ids _ _ (re_quiet _ _ _ _ _ _ _ _ Hre)); cbn; by eapply rd_insert_eq).
  destruct (released_rest i _ g h' l msgs _ s1 g1 (ho_hparts _ _ Hok1) Hl Hre Hc) with (nx := msg_next r) as [Hc1 Hm1].
  { eapply Forall2_in; [exact Hm |]. intros y m' _. by apply hdr_has_same. }
  { done. }
  pose proof (bytes_bound _ _ _ _ Hm) as Hb. pose proof (parts_length _ _ (HQueue i) (ho_hparts _ _ Hok)) as Hlen. rewrite Hl in Hlen. cbn in Hlen.
  pose proof (io_tql _ (ho_info _ _ Hok)). pose proof (Forall2_length _ _ _ Hm) as Hll. unfold zlen in *. cbn in Hcb, Hqn. fold (bytes msgs) in Hcb.
  eapply wp_mono; [apply (IH l msgs s1 g1 (msg_next r) q1); [apply Hre | done | | done | done | | | lia] |].
  - by rewrite (re_hl _ _ _ _ _ _ _ _ Hre), move_from.
  - cbn. rewrite Hcb, Hts. unfold zlen. rewrite wrap_small; unfold in_u; lia.
  - cbn. rewrite Hqn. unfold zlen. rewrite wrap_small; unfold in_u; lia.
  - intros _ s' (g' & Hd). exists g'. apply (drained_cons i s g q q1 h' l m msgs s1 g1); try done. unfold zlen. by rewrite <- Hts.
Qed.

Lemma rmid_spec t s g a i sl : base_rel s g a → 0 <= i → get_slot i a = Some sl → live sl = true →
  wp (rmid i) (λ _ s', ∃ g', base_rel s' g' (spec_rmid i sl a) ∧ hl g' (HThread t) = hl g (HThread t) ∧ frame t s g s' g') s.
Proof.
  intros Hb Hi Hsl Hlive. destruct (base_get s g a Hb i sl Hi Hsl) as (q & Hq & [Hme Hm Hcb Hqn Hqb Hlo _]). pose proof (ba_heap _ _ _ Hb) as Hok.
  destruct (Hlo Hlive) as [Hc _]. unfold rmid. apply wp_bind, wp_get. apply wp_bind, (wp_get_id _ _ q); [done |]. apply wp_bind.
  eapply wp_mono; [apply (free_queue_spec i _ _ _ s g _ q Hok Hq eq_refl Hc Hm Hcb Hqn) |].
  { pose proof (parts_length _ _ (HQueue i) (ho_hparts _ _ Hok)). rewrite <- (ho_hdrs _ _ Hok) in H. unfold zlen in H. lia. }
  intros _ s1 (g1 & [Hok1 Hl1 Hk Hhf Hnf Hw Hids Hin Hhp]). assert (Hq1 : rd (msqids s1) i = Ok (set_counts 0 0 q)) by (rewrite Hids; by eapply rd_insert_eq).
  apply wp_bind, (wp_get_id _ _ (set_counts 0 0 q)); [done |]. cbn [msg_cbytes msg_qnum set_counts negb Z.eqb].
  apply wp_bind, (wp_put_id _ _ (set_counts 0 0 q)); [done |]. apply wp_modify_msg. destruct Hb as [_ Hs [Hi1 Hup] Hinf Hh Hsg Ha Hwo].
  exists g1. unfold spec_rmid. rewrite spec_free_all. split; [apply base_wakeup |].
  - split; cbn; [by eapply heap_put_ids | | by rewrite Hin | by rewrite (proj1 Hk) | by rewrite Hhf, Hh | by rewrite Hnf, Hsg, Hinf | by rewrite Hhp | by rewrite Hw, Hwo].
    eapply slots_put; [exact Hs | exact Hq | cbn; by rewrite Hids, list_insert_insert_eq | |].
    + eapply (kept_trans _ _ _ s1 g1); [| by apply kept_same]. eapply kept_mono; [| exact Hk]. intros o (j & -> & Hj). split; [done | congruence].
    + rewrite Hl1. split; cbn; try done; [by rewrite <- Hme |]. pose proof (io_mnb _ (ho_info _ _ Hok1)). lia.
  - split; [apply Hk; split; done |]. eapply (kept_trans _ _ _ s1 g1); [| by apply kept_same]. eapply kept_mono; [| exact Hk]. intros o (t' & -> & _). done.
Qed.
