(* ===== verification/MsgMove.v ===== *)
(** * System V message queues: a message that changes hands

    A message goes from a thread to the end of a queue, or from anywhere in a
    queue to a thread: some links between headers change, and nothing else. *)

From S2P Require Import Prelude Chain Ipc Msg MsgSpec MsgRel MsgSegs MsgBase MsgQueue.

(** ** Links *)

(** The headers differ in their links only, those that satisfy [P] not at all. *)
Record links (hdrs hdrs' : list msg) (P : Z → Prop) : Prop := {
  lk_len : length hdrs' = length hdrs;
  lk_hdr h r : rd hdrs h = Ok r → ∃ n, rd hdrs' h = Ok (set_next n r);
  lk_keep h : P h → rd hdrs' h = rd hdrs h
}.

Lemma set_next_same r : set_next (msg_next r) r = r.
Proof. by destruct r. Qed.

Lemma links_refl hdrs P : links hdrs hdrs P.
Proof. split; [done | | done]. intros h r Hr. exists (msg_next r). by rewrite set_next_same. Qed.

Lemma links_put hdrs hdrs' (P : Z → Prop) h r n : links hdrs hdrs' P → rd hdrs' h = Ok r → ¬ P h →
  links hdrs (<[Z.to_nat h := set_next n r]> hdrs') P.
Proof.
  intros [Hlen Hh Hk] Hr HP. pose proof (rd_range _ _ _ Hr) as [Hh0 _]. split; [by rewrite length_insert | |].
  - intros x rx Hx. destruct (Hh x rx Hx) as [nx Hnx]. destruct (decide (h = x)) as [<-|Hne].
    + exists n. erewrite rd_insert_eq by exact Hr. rewrite Hr in Hnx. by injection Hnx as ->.
    + exists nx. by rewrite rd_insert_ne.
  - intros x Hx. rewrite rd_insert_ne; [by apply Hk | done |]. by intros ->.
Qed.

Section links.
Context (s : state) (g : ghost) (hdrs' : list msg) (ids' : list msqid_ds) (P : Z → Prop).
Hypothesis (Hl : links (msghdrs s) hdrs' P).

Let s' := with_ids ids' (with_hdrs hdrs' s).

Lemma hdr_ok_links hl' h r : hdr_ok s g h r → ∃ n, hdr_ok s' (Ghost hl' (sg g)) h (set_next n r).
Proof. intros [Hr Hts Hc Hn]. destruct (lk_hdr _ _ _ Hl h r Hr) as [n Hn']. by exists n. Qed.

Lemma hdr_has_links hl' h m : hdr_has s g h m → hdr_has s' (Ghost hl' (sg g)) h m.
Proof. intros (r & Hr & Hty & Hts & Htx). destruct (hdr_ok_links hl' h r Hr) as [n Hn]. by exists (set_next n r). Qed.

Lemma hnext_links h : P h → hnext s' h = hnext s h.
Proof. intros H. unfold hnext. cbn. by rewrite (lk_keep _ _ _ Hl h H). Qed.

End links.

(** ** Owners *)

Section move.
Context (s : state) (g : ghost) (a : astate) (t : nat) (i h : Z) (q q' : msqid_ds) (o o' : hown) (l l' : list Z) (hdrs' : list msg).
Hypotheses (Hb : base_rel s g a) (Hq : rd (msqids s) i = Ok q).
Hypothesis (Ho : (o = HThread t ∧ o' = HQueue i) ∨ (o = HQueue i ∧ o' = HThread t)).
Hypotheses (Hfrom : hl g o ≡ₚ h :: l) (Hto : l' ≡ₚ h :: hl g o').
Hypothesis (Hl : links (msghdrs s) hdrs' (λ x, x ∉ hl g (HQueue i) ∧ x ∉ hl g (HThread t))).

Let g' := Ghost (move (hl g) o o' l l') (sg g).
Let s' := with_ids (<[Z.to_nat i := q']> (msqids s)) (with_hdrs hdrs' s).

Lemma move_keeps_other p : p ≠ HQueue i → p ≠ HThread t → hl g' p = hl g p ∧ ∀ x, x ∈ hl g p → same s g s' g' x.
Proof.
  intros Hp Hp'. split; [cbn; apply move_other; destruct Ho as [[-> ->]|[-> ->]]; done |]. intros x Hx. split; [| done | done].
  pose proof (ho_hparts _ _ (ba_heap _ _ _ Hb)) as Hpa. cbn. apply (lk_keep _ _ _ Hl). split; intros Hx'.
  - by destruct (Hp (pa_disj _ _ Hpa _ _ _ Hx Hx')).
  - by destruct (Hp' (pa_disj _ _ Hpa _ _ _ Hx Hx')).
Qed.

Lemma move_heap : heap_ok s' g'.
Proof.
  assert (Hne : o ≠ o') by (destruct Ho as [[-> ->]|[-> ->]]; done).
  destruct (move_keeps_other HFree) as [HF HFs]; [done | done |]. destruct (ba_heap _ _ _ Hb) as [? ? ? ? ? Hpa ? Hc ? ? Hown]. split; try done.
  - cbn. unfold zlen. by rewrite (lk_len _ _ _ Hl).
  - cbn. unfold zlen. by rewrite length_insert.
  - cbn. by apply (move_parts _ _ _ _ h).
  - rewrite HF. eapply path_ext; [exact Hc |]. intros x Hx. unfold hnext. by rewrite (sa_hdr _ _ _ _ _ (HFs x Hx)).
  - intros h' x Hx. destruct (Hown h' x Hx) as (p & Hp & Hh'). cbn [hl g']. destruct (decide (h' = h)) as [->|Hneq].
    + exists o'. split; [destruct Ho as [[-> ->]|[-> ->]]; done |]. rewrite move_to, Hto. by constructor.
    + exists p. split; [done |]. destruct (decide (p = o')) as [->|]; [rewrite move_to, Hto; by constructor |].
      destruct (decide (p = o)) as [->|]; [| by rewrite move_other]. rewrite move_from by done. rewrite Hfrom in Hh'. by apply elem_of_cons in Hh' as [?|?].
Qed.

Lemma move_base sl : used_rel s' g' (hl g' (HQueue i)) q' sl → base_rel s' g' (put_slot i sl a) ∧ frame t s g s' g'.
Proof.
  intros Hu. pose proof move_heap as Hok. split.
  - destruct (move_keeps_other HFree) as [HF _]; [done | done |]. destruct Hb as [_ Hs ? ? Hh ? ? ?].
    split; try done; [| cbn [a_hdrs put_slot]; by rewrite HF]. cbn [a_slots put_slot].
    eapply slots_put; [exact Hs | exact Hq | done | | exact Hu]. split; [done |]. intros p (j & -> & Hj). apply move_keeps_other; congruence.
  - split; [done |]. intros p (t' & -> & Ht). apply move_keeps_other; congruence.
Qed.

End move.

(** ** Giving a header back *)

(** A call that has given its header back and ended. *)
Lemma end_spec t s g a h r c ph aph : base_rel s g a → hl g (HThread t) = [h] → hdr_ok s g h r →
  (∀ s g a, hl g (HThread t) = [] → phase_rel s g a t ph aph) →
  wp (msg_freehdr h ;; (wakeup c ;; mret ph)) (sim t s g a (spec_wakeup c (spec_free (msg_ts r) a), aph)) s.
Proof.
  intros Hb Hl Hr Hph. apply wp_bind. eapply wp_mono; [by apply (base_freehdr s g a Hb t h r) |].
  intros _ s' (g' & Hb' & Hl' & Hf & _). apply wp_bind, wp_modify_msg, wp_ret. exists g'. split; [by apply base_wakeup |].
  split; [by apply Hph |]. split; [| by intros i]. eapply (kept_trans _ _ _ s' g'); [done | by apply kept_same].
Qed.

Lemma used_rel_mode s g l q sl f : used_rel s g l q sl → used_rel s g l (set_mode f q) (ASlot (set_mode f (sl_meta sl)) (sl_msgs sl)).
Proof.
  intros [Hm ? ? ? ? Hl ?]. split; try done; [by rewrite <- Hm |]. intros H. by destruct (Hl H).
Qed.

Lemma snd_fail_spec t s g a x h r eval : base_rel s g a → used a (IPCID_TO_IX (sn_id x)) → hl g (HThread t) = [h] → hdr_ok s g h r →
  msg_ts r = sn_size x → wp (snd_fail x h eval) (sim t s g a (spec_snd_fail x eval a)) s.
Proof.
  intros Hb [Hi [sl Hsl]] Hl Hr Hts. unfold snd_fail, spec_snd_fail. set (i := IPCID_TO_IX (sn_id x)) in *. rewrite Hsl.
  apply wp_bind. eapply wp_mono; [by apply (base_freehdr s g a Hb t h r) |]. intros _ s' (g' & Hb' & Hl' & Hf & _).
  destruct (base_get _ _ _ Hb' i sl Hi Hsl) as (q & Hq & Hu). apply wp_bind, (wp_get_id _ _ q); [done |].
  apply wp_bind, (wp_put_id _ _ q); [done |]. apply wp_bind, wp_modify_msg, wp_ret. exists g'. rewrite <- Hts. split; [| split; [| split]].
  - apply base_wakeup. eapply base_put; [done | exact Hq | by apply used_rel_mode].
  - done.
  - eapply (kept_trans _ _ _ s' g'); [done | by apply kept_same].
  - intros j Hj. by apply (used_put (spec_free (msg_ts r) a)).
Qed.
