(* ===== verification/MsgSend.v ===== *)
(** * System V message queues: sending

    The sections of [msgsnd] do what the specification says. *)

From S2P Require Import Prelude Chain Ipc Msg MsgSpec MsgRel MsgSegs MsgBase MsgQueue MsgMove.

(** ** The end of the queue *)

Lemma append_spec s l q h (P : Z → Prop) : (∀ x, x ∈ l → 0 <= x ∧ ¬ P x) → NoDup l → list_ok s l q →
  wp (append h q) (λ q2 s2, ∃ hdrs' f, s2 = with_hdrs hdrs' s ∧ links (msghdrs s) hdrs' P ∧ q2 = set_list f h q ∧
    path (hnext s2) f l h) s.
Proof.
  intros HP Hnd [Hc Hlast]. unfold append. destruct l as [|x l _] using rev_ind.
  - cbn in Hc. rewrite Hc. apply wp_ret. exists (msghdrs s), h. split; [by destruct s |]. split; [apply links_refl |]. done.
  - assert (Hf : msg_first q ≠ -1).
    { destruct (l ++ [x]) as [|y k] eqn:E; [by destruct l |]. destruct Hc as [-> _]. destruct (HP y) as [? _]; [by constructor | lia]. }
    rewrite (proj2 (Z.eqb_neq _ _) Hf). rewrite last_snoc in Hlast. rewrite (Hlast x eq_refl).
    apply path_app in Hc as (k & Hp & Hk). destruct Hk as (-> & nx & Hnx & _). unfold hnext in Hnx.
    destruct (rd (msghdrs s) x) as [r|] eqn:Hr; [| done]. destruct (HP x) as [Hx0 HPx]; [apply elem_of_app; right; by constructor |].
    apply wp_bind, (wp_get_hdr _ _ r); [done |]. apply wp_bind, (wp_put_hdr _ _ r); [done |]. apply wp_ret.
    eexists _, (msg_first q). split; [done |]. split; [apply links_put; [apply links_refl | done | done] |]. split; [done |].
    apply NoDup_app in Hnd as (_ & Hnd & _). apply path_app. exists x. split.
    + eapply path_ext; [exact Hp |]. intros y Hy. unfold hnext. cbn. rewrite rd_insert_ne; [done | done |]. intros <-. destruct (Hnd x Hy). by constructor.
    + split; [done |]. exists h. split; [| done]. unfold hnext. cbn. by rewrite (rd_insert_eq _ _ r).
Qed.

(** ** Sizes *)

Lemma count_bounds s g i l msgs : heap_ok s g → hl g (HQueue i) = l → Forall2 (hdr_has s g) l msgs →
  0 <= bytes msgs < 2 ^ 47 ∧ zlen msgs < 2 ^ 31.
Proof.
  intros Hok Hl Hm. pose proof (bytes_bound _ _ _ _ Hm). pose proof (parts_length _ _ (HQueue i) (ho_hparts _ _ Hok)) as Hlen.
  pose proof (io_tql _ (ho_info _ _ Hok)). pose proof (Forall2_length _ _ _ Hm). rewrite Hl in Hlen. unfold zlen in *. lia.
Qed.

Lemma hdr_has_ts s g h m r : hdr_has s g h m → rd (msghdrs s) h = Ok r → msg_ts r = zlen (m_text m) ∧ zlen (m_text m) < 2 ^ 16.
Proof.
  intros (r' & Hr' & _ & Hts & _) Hr. pose proof (hd_rd _ _ _ _ Hr') as Hrd. rewrite Hr in Hrd. injection Hrd as <-.
  pose proof (hd_ts _ _ _ _ Hr'). lia.
Qed.

Lemma u64_small x : 0 <= x < 2 ^ 64 → u64 x = x.
Proof. intros H. by apply wrap_small. Qed.

(** ** The message is complete *)

Section enqueue.
Context (t : nat) (s : state) (g : ghost) (a : astate) (h i : Z) (q : msqid_ds) (sl : aslot) (m : amsg).
Hypotheses (Hb : base_rel s g a) (Hq : rd (msqids s) i = Ok q) (Hu : used_rel s g (hl g (HQueue i)) q sl).
Hypotheses (Hlive : live sl = true) (Ht : hl g (HThread t) = [h]) (Hm : hdr_has s g h m).

Lemma enqueue_spec p now :
  wp (enqueue p now i h q) (λ _ s', ∃ g', base_rel s' g' (put_slot i (ASlot (set_sent p now (sl_meta sl)) (sl_msgs sl ++ [m])) a) ∧
       hl g' (HThread t) = [] ∧ frame t s g s' g') s.
Proof.
  pose proof (ba_heap _ _ _ Hb) as Hok. pose proof (ho_hparts _ _ Hok) as Hpa. destruct Hu as [Hme Hms Hcb Hqn Hqb Hlo _].
  set (l := hl g (HQueue i)) in *. set (P := λ x, x ∉ l ∧ x ∉ hl g (HThread t)).
  assert (Hhl : h ∉ l) by (intros H; assert (h ∈ hl g (HThread t)) as H' by (rewrite Ht; by constructor); by pose proof (pa_disj _ _ Hpa _ _ _ H H')).
  unfold enqueue. apply wp_bind. eapply wp_mono; [apply (append_spec s l q h P) |].
  { intros x Hx. split; [by apply (pa_range _ _ Hpa) in Hx as [? _] |]. by intros [? _]. }
  { apply (pa_nodup _ _ Hpa). }
  { by apply Hlo. }
  intros q2 s2 (hdrs' & f & -> & Hlk & -> & Hp). destruct Hm as (r0 & Hr0 & Hty & Hts & Htx).
  destruct (lk_hdr _ _ _ Hlk h r0 (hd_rd _ _ _ _ Hr0)) as [n Hn]. set (r := set_next n r0) in *.
  apply wp_bind, (wp_get_hdr _ _ r); [done |]. apply wp_bind, (wp_put_hdr _ _ r); [done |]. apply (wp_put_id _ _ q); [done |].
  assert (Hlk' : links (msghdrs s) (<[Z.to_nat h := set_next (-1) r]> hdrs') P).
  { apply links_put; [done | done |]. intros [_ H]. rewrite Ht in H. apply H. by constructor. }
  set (hdrs2 := <[_ := _]> hdrs') in *. set (q' := set_sent _ _ _).
  destruct (move_base s g a t i h q q' (HThread t) (HQueue i) [] (l ++ [h]) hdrs2 Hb Hq) with (sl := ASlot (set_sent p now (sl_meta sl)) (sl_msgs sl ++ [m])) as [Hb' Hf].
  { by left. } { by rewrite Ht. } { by rewrite (comm (++)). } { done. }
  - cbn [hl]. rewrite move_to. pose proof (count_bounds _ _ _ _ _ Hok eq_refl Hms) as [Hb1 Hb2]. pose proof (hd_ts _ _ _ _ Hr0) as Hts0.
    split; cbn [sl_meta sl_msgs].
    + by rewrite <- Hme.
    + apply Forall2_app; [eapply Forall2_in; [exact Hms |]; intros x mx _ Hx; by eapply hdr_has_links |].
      constructor; [| constructor]. eapply hdr_has_links; [exact Hlk' |]. by exists r0.
    + cbn. rewrite bytes_app, Hcb, u64_small; rewrite Hts; [unfold bytes; cbn; lia | lia].
    + cbn. rewrite Hqn, u64_small by (pose proof (zlen_nonneg (sl_msgs sl)); lia). unfold zlen. rewrite length_app. cbn. lia.
    + done.
    + intros _. split; [| intros x; rewrite last_snoc; by intros [= <-]]. apply path_app. exists h.
      pose proof (rd_range _ _ _ Hn) as [Hh0 _]. split.
      * eapply path_ext; [exact Hp |]. intros y Hy. unfold hnext. cbn. unfold hdrs2. rewrite rd_insert_ne; [done | done |]. by intros ->.
      * split; [done |]. exists (-1). split; [| done]. unfold hnext. cbn. unfold hdrs2. by rewrite (rd_insert_eq _ _ r).
    + intros H. exfalso. revert Hlive. unfold live in *. cbn in H. by rewrite H.
  - eexists. split; [exact Hb' |]. split; [| exact Hf]. cbn [hl]. by rewrite move_from.
Qed.

End enqueue.

Lemma snd_finish_spec mac now t s g a x h m : base_rel s g a → used a (IPCID_TO_IX (sn_id x)) → hl g (HThread t) = [h] →
  hdr_has s g h m → zlen (m_text m) = sn_size x → wp (snd_finish mac now x h (-1)) (sim t s g a (spec_snd_finish mac now x m a)) s.
Proof.
  intros Hb [Hi [sl Hsl]] Ht Hm Hsz. unfold snd_finish, spec_snd_finish. set (i := IPCID_TO_IX (sn_id x)) in *. rewrite Hsl. cbn [negb Z.eqb].
  destruct (base_get _ _ _ Hb i sl Hi Hsl) as (q & Hq & Hu). apply wp_bind, (wp_get_id _ _ q); [done |]. apply wp_bind, (wp_put_id _ _ q); [done |].
  pose proof (used_rel_mode _ _ _ _ _ unlock Hu) as Hu1. pose proof (base_put s g a Hb i q _ _ Hq Hu1) as Hb1.
  set (q1 := set_mode unlock q) in *. set (s1 := with_ids _ s) in *. set (a1 := put_slot i _ a) in *.
  assert (Hq1 : rd (msqids s1) i = Ok q1) by (cbn; by eapply rd_insert_eq).
  assert (Hf1 : frame t s g s1 g) by (by apply kept_same). assert (Hg1 : grows a a1) by apply grows_put.
  assert (Hm1 : hdr_has s1 g h m) by (eapply hdr_has_same; [| apply same_ids | exact Hm]; done).
  assert (Hfail : ∀ e, wp (msg_freehdr h ;; (wakeup (CQueue i) ;; mret (Return e 0))) (sim t s g a (spec_snd_fail x e a)) s1).
  { intros e. destruct Hm1 as (r & Hr & _ & Hts & _). eapply wp_mono; [apply (end_spec t s1 g a1 h r (CQueue i) (Return e 0) (AReturn e 0) Hb1 Ht Hr); done |].
    intros ph s' H. unfold spec_snd_fail. fold i. rewrite Hsl. eapply sim_trans; [exact Hf1 | exact Hg1 |]. by rewrite Hts, Hsz in H. }
  assert (Hlv : live sl = negb (msg_qbytes q1 =? 0)) by (unfold live; by rewrite <- (us_meta _ _ _ _ _ Hu)).
  rewrite Hlv. destruct (msg_qbytes q1 =? 0) eqn:Eq; cbn [negb]; [apply Hfail |]. destruct (mac =? 0) eqn:Em; cbn [negb]; [| apply Hfail].
  assert (Hlv1 : live (ASlot (set_mode unlock (sl_meta sl)) (sl_msgs sl)) = true) by (unfold live in *; cbn; by rewrite Hlv).
  apply wp_bind. eapply wp_mono; [eapply (enqueue_spec t s1 g a1 h i q1 _ m Hb1 Hq1); [| exact Hlv1 | exact Ht | exact Hm1] |].
  { eapply used_rel_same; [| | exact Hu1]; done. }
  intros _ s2 (g2 & Hb2 & Hl2 & Hf2). apply wp_bind, wp_modify_msg, wp_ret. exists g2. split; [| split; [done | split]].
  - apply base_wakeup. cbn [fst]. replace (put_slot i _ a) with (put_slot i (ASlot (set_sent (sn_proc x) now (set_mode unlock (sl_meta sl))) (sl_msgs sl ++ [m])) a1); [done |].
    unfold a1, put_slot. cbn. by rewrite list_insert_insert_eq.
  - eapply (kept_trans _ _ _ s1 g); [done |]. eapply (kept_trans _ _ _ s2 g2); [done | by apply kept_same].
  - intros j Hj. by apply used_put.
Qed.
