(* ===== verification/MsgText.v ===== *)
(** * System V message queues: the text of a message

    Copying characters into and out of the segments of a message that a
    thread has in its hands. *)

From S2P Require Import Prelude Chain Ipc Msg MsgSpec MsgRel MsgSegs MsgBase MsgQueue MsgMove MsgSend.

(** ** Changes that only a thread sees *)

(** Only the header [h] and its segments differ. *)
Record private (s : state) (g : ghost) (h : Z) (s' : state) : Prop := {
  pr_quiet : info s' = info s ∧ initted s' = initted s ∧ heap s' = heap s ∧ woken s' = woken s ∧ msqids s' = msqids s;
  pr_maps : msgmaps s' = msgmaps s;
  pr_free : nfree_msgmaps s' = nfree_msgmaps s ∧ free_msgmaps s' = free_msgmaps s ∧ free_msghdrs s' = free_msghdrs s;
  pr_len : length (msghdrs s') = length (msghdrs s) ∧ length (msgpool s') = length (msgpool s);
  pr_hdrs h' : h' ≠ h → rd (msghdrs s') h' = rd (msghdrs s) h';
  pr_segs x : 0 <= x → x ∉ sg g (SHdr h) → seg_text s' x = seg_text s x
}.

Lemma base_private s g a t h s' : base_rel s g a → hl g (HThread t) = [h] → private s g h s' → base_rel s' g a ∧ frame t s g s' g.
Proof.
  intros Hb Ht [(Hi & Hin & Hhp & Hw & Hids) Hmp (Hnf & Hfm & Hfh) (Hlh & Hlp) Hh Hs].
  pose proof (ba_heap _ _ _ Hb) as Hok. pose proof (ho_hparts _ _ Hok) as Hpa. pose proof (ho_sparts _ _ Hok) as Hsa.
  assert (Hht : h ∈ hl g (HThread t)) by (rewrite Ht; by constructor).
  assert (Hsame : ∀ h', h' ≠ h → same s g s' g h').
  { intros h' Hne. split; [by apply Hh | done |]. intros x Hx. split; [unfold snext; by rewrite Hmp |]. apply Hs; [by apply (pa_range _ _ Hsa) in Hx as [? _] |]. intros Hx'.
    by pose proof (pa_disj _ _ Hsa _ _ _ Hx Hx') as [= ?]. }
  assert (Hk : kept (λ o, o ≠ HThread t) s g s' g).
  { split; [done |]. intros o Ho. split; [done |]. intros x Hx. apply Hsame. intros ->. by destruct (Ho (pa_disj _ _ Hpa _ _ _ Hx Hht)). }
  split; [| eapply kept_mono; [| exact Hk]; intros o (t' & -> & ?); congruence].
  destruct Hb as [_ Hsl [? ?] ? ? ? ? ?]. split; try congruence; [| | split; congruence].
  - destruct Hok. split; unfold snext, zlen in *; rewrite ?Hi, ?Hmp, ?Hnf, ?Hfm, ?Hfh, ?Hids, ?Hlh, ?Hlp; try done.
    eapply path_ext; [eassumption |]. intros y Hy. unfold hnext. rewrite Hh; [done |]. intros ->. by pose proof (pa_disj _ _ Hpa _ _ _ Hy Hht).
  - eapply slots_keep; [exact Hsl | | done]. eapply kept_mono; [| exact Hk]. by intros o [j ->].
Qed.

(** ** Segments in the pool *)

Section segs.
Context (s : state) (g : ghost).
Hypothesis (Hok : heap_ok s g).

Lemma seg_bound x : 0 <= x < msgseg (info s) → 0 <= x * msgssz (info s) ∧ x * msgssz (info s) + msgssz (info s) <= zlen (msgpool s).
Proof.
  intros Hx. pose proof (ho_info _ _ Hok) as Hi. pose proof (io_ssz _ Hi). pose proof (io_max _ Hi). rewrite (ho_pool _ _ Hok). nia.
Qed.

Lemma seg_text_len x : 0 <= x < msgseg (info s) → length (seg_text s x) = Z.to_nat (msgssz (info s)).
Proof. intros Hx. pose proof (seg_bound x Hx). unfold seg_text, zlen in *. rewrite length_take, length_drop. lia. Qed.

Lemma text_of_len l : (∀ x, x ∈ l → 0 <= x < msgseg (info s)) → zlen (text_of s l) = msgssz (info s) * zlen l.
Proof.
  intros H. pose proof (io_ssz _ (ho_info _ _ Hok)). induction l as [|x l IH]; [unfold zlen; cbn; lia |].
  change (text_of s (x :: l)) with (seg_text s x ++ text_of s l). rewrite zlen_cons. unfold zlen in *. rewrite length_app, Nat2Z.inj_add, IH.
  - rewrite seg_text_len by (apply H; by constructor). lia.
  - intros y Hy. apply H. by constructor.
Qed.

Lemma text_of_app l k : text_of s (l ++ k) = text_of s l ++ text_of s k.
Proof. unfold text_of. apply bind_app. Qed.

Lemma seg_in h x : x ∈ sg g (SHdr h) → 0 <= x < msgseg (info s).
Proof. intros Hx. by apply (pa_range _ _ (ho_sparts _ _ Hok)) in Hx. Qed.

(** The segment that [l1] leads to. *)
Lemma at_seg_next h r l1 l2 next text : hdr_ok s g h r → sg g (SHdr h) = l1 ++ l2 → at_seg s r l1 next text →
  zlen text = msgssz (info s) * zlen l1 ∧ chain (snext s) next l2.
Proof.
  intros Hr Hsg [Hp Ht]. split.
  - rewrite <- Ht. apply text_of_len. intros x Hx. apply (seg_in h). rewrite Hsg. apply elem_of_app. by left.
  - pose proof (hd_segs _ _ _ _ Hr) as Hc. rewrite Hsg in Hc. apply path_app in Hc as (k & Hk & Hc).
    assert (k = next) as <-; [| done]. clear - Hk Hp. revert Hk Hp. generalize (msg_spot r). induction l1 as [|y l1 IH]; intros i Hk Hp; cbn in *; [congruence |].
    destruct Hk as (-> & i1 & H1 & Hk). destruct Hp as (_ & i2 & H2 & Hp). rewrite H1 in H2. injection H2 as <-. by eapply IH.
Qed.

(** There is another segment as long as characters are missing. *)
Lemma at_seg_more h r l1 l2 next text : hdr_ok s g h r → sg g (SHdr h) = l1 ++ l2 → at_seg s r l1 next text →
  zlen text < msg_ts r → ∃ l3 nx, l2 = next :: l3 ∧ 0 <= next < msgseg (info s) ∧ snext s next = Ok nx.
Proof.
  intros Hr Hsg Ha Hlt. destruct (at_seg_next h r l1 l2 next text Hr Hsg Ha) as [Hlen Hc]. pose proof (io_ssz _ (ho_info _ _ Hok)) as Hssz.
  pose proof (hd_num _ _ _ _ Hr) as Hn. pose proof (hd_ts _ _ _ _ Hr). pose proof (nsegs_bound (info s) ltac:(lia) (msg_ts r) ltac:(lia)).
  assert (l2 ≠ []) as Hne.
  { intros ->. rewrite app_nil_r in Hsg. rewrite Hsg in Hn. rewrite Hn in Hlen. lia. }
  destruct l2 as [|y l3]; [done |]. destruct Hc as (-> & nx & Hnx & _). exists l3, nx. split; [done |]. split; [| done].
  apply (seg_in h). rewrite Hsg. apply elem_of_app. right. by constructor.
Qed.

(** The last segment is followed by none. *)
Lemma at_seg_end h r l1 l2 next text : hdr_ok s g h r → sg g (SHdr h) = l1 ++ l2 → at_seg s r l1 next text →
  msg_ts r <= zlen text → next = -1.
Proof.
  intros Hr Hsg Ha Hle. destruct (at_seg_next h r l1 l2 next text Hr Hsg Ha) as [Hlen Hc]. pose proof (io_ssz _ (ho_info _ _ Hok)) as Hssz.
  pose proof (hd_num _ _ _ _ Hr) as Hn. pose proof (hd_ts _ _ _ _ Hr). pose proof (nsegs_bound (info s) ltac:(lia) (msg_ts r) ltac:(lia)).
  destruct l2 as [|y l3]; [done |]. exfalso. rewrite Hsg in Hn. unfold zlen in *. rewrite length_app in Hn. cbn in Hn. nia.
Qed.

Lemma at_seg_step r l1 next nx text : at_seg s r l1 next text → snext s next = Ok nx → at_seg s r (l1 ++ [next]) nx (text ++ seg_text s next).
Proof.
  intros [Hp Ht] Hnx. split; [apply path_app; exists next; split; [done |]; split; [done |]; by exists nx |].
  rewrite text_of_app, Ht. f_equal. unfold text_of. cbn. by rewrite app_nil_r.
Qed.

End segs.

(** Writing a part of the pool. *)
Lemma blit_other {A} (buf data : list A) off p n :
  (off + length data <= length buf)%nat → (p + n <= off ∨ off + length data <= p)%nat →
  take n (drop p (take off buf ++ data ++ drop (off + length data) buf)) = take n (drop p buf).
Proof.
  intros Hl Hd. apply list_eq. intros k. rewrite !lookup_take. case_decide as Hk; [| done]. rewrite !lookup_drop. rewrite lookup_app. destruct Hd as [Hd|Hd].
  - rewrite lookup_take_lt by lia. destruct (buf !! (p + k)%nat) eqn:E; [done |]. apply lookup_ge_None in E. lia.
  - rewrite lookup_take_ge by lia. rewrite length_take, lookup_app_r by lia. rewrite lookup_drop.
    match goal with |- _ !! ?x = _ !! ?y => by replace x with y by lia end.
Qed.

Lemma blit_here {A} (buf data : list A) off : (off + length data <= length buf)%nat →
  drop off (take off buf ++ data ++ drop (off + length data) buf) = data ++ drop (off + length data) buf.
Proof. intros H. rewrite drop_app_length'; [done |]. rewrite length_take. lia. Qed.
