(* ===== verification/MsgCopyin.v ===== *)
(** * System V message queues: copying a message in

    The sections of [msgsnd] that run after the type or a segment has been
    copied from user memory. *)

From S2P Require Import Prelude Chain Ipc Msg MsgSpec MsgRel MsgSegs MsgBase MsgQueue MsgMove MsgSend MsgText.

(** ** Writing a segment *)

Section write.
Context (s : state) (g : ghost) (h x : Z) (data : list Z).
Hypotheses (Hok : heap_ok s g) (Hx : x ∈ sg g (SHdr h)) (Hdata : zlen data <= msgssz (info s)).

Let off := Z.to_nat (x * msgssz (info s)).
Let pool := take off (msgpool s) ++ data ++ drop (off + length data) (msgpool s).
Let s1 := with_pool pool s.

Lemma write_fits : (off + length data <= length (msgpool s))%nat.
Proof. pose proof (seg_bound s g Hok x (seg_in s g Hok h x Hx)). unfold zlen, off in *. lia. Qed.

Lemma write_blit : blit (msgpool s) (x * msgssz (info s)) data = Ok pool.
Proof.
  pose proof (seg_bound s g Hok x (seg_in s g Hok h x Hx)). pose proof write_fits. unfold blit, zlen, off in *.
  destruct (_ && _) eqn:E; [done | lia].
Qed.

Lemma write_other y : 0 <= y → y ≠ x → seg_text s1 y = seg_text s y.
Proof.
  intros Hy Hne. pose proof (seg_in s g Hok h x Hx). pose proof (io_ssz _ (ho_info _ _ Hok)). apply blit_other; [apply write_fits |].
  unfold off, zlen in *. cbn. nia.
Qed.

Lemma write_private : private s g h s1.
Proof.
  split; try done.
  - split; [done |]. cbn. pose proof write_fits. unfold pool. rewrite !length_app, length_take, length_drop. lia.
  - intros y Hy Hn. apply write_other; [done |]. by intros ->.
Qed.

(** What has been written is there, and nothing else if it fills the segment. *)
Lemma write_here : data `prefix_of` seg_text s1 x ∧ (zlen data = msgssz (info s) → seg_text s1 x = data).
Proof.
  unfold seg_text. cbn. fold off. unfold pool. rewrite blit_here by apply write_fits. unfold zlen in *. split.
  - rewrite take_app_ge by lia. by eexists.
  - intros Hl. by rewrite take_app_length' by lia.
Qed.

(** What has been written before stays. *)
Lemma write_at_seg r l1 l3 text : sg g (SHdr h) = l1 ++ x :: l3 → at_seg s r l1 x text → at_seg s1 r l1 x text.
Proof.
  intros Hsg [Hp Htx]. split; [exact Hp |]. rewrite <- Htx. apply text_of_ext. intros y Hy. apply write_other.
  - apply (seg_in s g Hok h). rewrite Hsg. apply elem_of_app. by left.
  - intros ->. pose proof (pa_nodup _ _ (ho_sparts _ _ Hok) (SHdr h)) as Hnd. rewrite Hsg in Hnd. apply NoDup_app in Hnd as (_ & Hnd & _).
    apply (Hnd x Hy). by constructor.
Qed.

End write.

(** ** The type *)

Lemma private_hdr s g h r r' : rd (msghdrs s) h = Ok r → private s g h (with_hdrs (<[Z.to_nat h := r']> (msghdrs s)) s).
Proof.
  intros Hr. pose proof (rd_range _ _ _ Hr) as [? _]. split; try done; [by cbn; rewrite length_insert |]. intros h' Hne. cbn. by rewrite rd_insert_ne.
Qed.

Lemma snd_type_spec mac now t s g a x h eval ty : base_rel s g a → phase_rel s g a t (SndType x h) (ASndType x) →
  wp (snd_type mac now x h eval ty) (sim t s g a (spec_snd_type mac now x eval ty a)) s.
Proof.
  intros Hb (_ & Hx & Ht & r & Hr & Hts). unfold snd_type, spec_snd_type. apply wp_bind, (wp_get_hdr _ _ r); [apply Hr |].
  apply wp_bind, (wp_put_hdr _ _ r); [apply Hr |]. set (r1 := set_type ty r). set (s1 := with_hdrs _ s).
  destruct (base_private s g a t h s1 Hb Ht) as [Hb1 Hf1]; [eapply private_hdr; apply Hr |].
  assert (Hr1 : hdr_ok s1 g h r1) by (destruct Hr as [Hrd ? ? ?]; split; try done; cbn; by eapply rd_insert_eq).
  assert (Hmono : ∀ ar ph s', sim t s1 g a ar ph s' → sim t s g a ar ph s') by (intros ar ph s'; apply sim_trans; [done | apply grows_refl]).
  pose proof (ba_heap _ _ _ Hb1) as Hok1. destruct (eval =? 0); cbn [negb]; [| eapply wp_mono; [eapply (snd_fail_spec t s1 g a x h r1 eval); by try apply Hx | by auto]].
  destruct (ty <? 1); [eapply wp_mono; [eapply (snd_fail_spec t s1 g a x h r1 EINVAL); by try apply Hx | by auto] |].
  apply wp_bind, wp_get. destruct (Z.gtb_spec (sn_size x) 0) as [Hsz|Hsz].
  - assert (Ha : at_seg s1 r1 [] (msg_spot r) []) by done.
    destruct (at_seg_more s1 g Hok1 h r1 [] (sg g (SHdr h)) (msg_spot r) [] Hr1 eq_refl Ha) as (l3 & nx & Hl & Hrange & _).
    { cbn. rewrite Hts. unfold zlen. cbn. lia. }
    destruct (Z.leb_spec (msg_spot r) (-1)); [lia |]. cbn in Hrange. destruct (Z.geb_spec (msg_spot r) (msgseg (info s1))); [cbn in *; lia |].
    apply wp_ret, Hmono, sim_here; [done |]. do 2 (split; [done |]). split; [done |]. split; [lia |]. split; [unfold zlen; cbn; lia |].
    by exists r1, [], (sg g (SHdr h)).
  - assert (msg_spot r = -1) as ->.
    { apply (at_seg_end s1 g Hok1 h r1 [] (sg g (SHdr h)) (msg_spot r) [] Hr1 eq_refl); [done |]. cbn. rewrite Hts. unfold zlen. cbn. lia. }
    destruct Hx as (Hu & Hsz' & _). eapply wp_mono; [apply (snd_finish_spec mac now t s1 g a x h (AMsg ty [])); [done | done | done | | unfold zlen; cbn; lia] | by auto].
    exists r1. split; [done |]. split; [done |]. split; [cbn; rewrite Hts; unfold zlen; cbn; lia | apply prefix_nil].
Qed.

(** ** A segment *)

(** The next segment, or the end. *)
Lemma snd_next_spec mac now t s g a x h r l1 l3 next nx text data :
  base_rel s g a → snd_ok (info s) a x → hl g (HThread t) = [h] → hdr_ok s g h r → msg_ts r = sn_size x →
  sg g (SHdr h) = l1 ++ next :: l3 → snext s next = Ok nx → at_seg s r l1 next text →
  data `prefix_of` seg_text s next → (zlen data = msgssz (info s) → seg_text s next = data) →
  zlen data = Z.min (sn_size x - zlen text) (msgssz (info s)) →
  wp (if sn_size x - zlen text - zlen data >? 0 then
        if nx <=? -1 then panic else if nx >=? msgseg (info s) then panic
        else mret (SndSeg x h nx (sn_size x - zlen text - zlen data))
      else snd_finish mac now x h nx)
    (sim t s g a (if zlen (text ++ data) <? sn_size x then (a, ASndSeg x (msg_type r) (text ++ data))
                  else spec_snd_finish mac now x (AMsg (msg_type r) (text ++ data)) a)) s.
Proof.
  intros Hb Hx Ht Hr Hts Hsg Hnx Ha Hpre Hfull Hdl. pose proof (ba_heap _ _ _ Hb) as Hok.
  assert (Hin : next ∈ sg g (SHdr h)) by (rewrite Hsg; apply elem_of_app; right; by constructor).
  pose proof (seg_text_len s g Hok next (seg_in s g Hok h next Hin)) as Hsl. pose proof (io_ssz _ (ho_info _ _ Hok)) as Hssz.
  assert (Hlen : zlen (text ++ data) = zlen text + zlen data) by (unfold zlen; rewrite length_app; lia).
  pose proof (at_seg_step s r l1 next nx text Ha Hnx) as Ha2. assert (Hsg2 : sg g (SHdr h) = (l1 ++ [next]) ++ l3) by (by rewrite <- app_assoc).
  rewrite Hlen. destruct (Z.gtb_spec (sn_size x - zlen text - zlen data) 0) as [Hgt|Hle].
  - destruct (Z.ltb_spec (zlen text + zlen data) (sn_size x)); [| lia]. rewrite Hfull in Ha2 by lia.
    destruct (at_seg_more s g Hok h r _ l3 nx _ Hr Hsg2 Ha2) as (l4 & n4 & _ & Hr4 & _); [lia |].
    destruct (Z.leb_spec nx (-1)); [lia |]. destruct (Z.geb_spec nx (msgseg (info s))); [lia |]. apply wp_ret, sim_here; [done |].
    do 2 (split; [done |]). split; [done |]. split; [lia |]. split; [lia |]. by exists r, (l1 ++ [next]), l3.
  - destruct (Z.ltb_spec (zlen text + zlen data) (sn_size x)); [lia |].
    assert (nx = -1) as -> by (apply (at_seg_end s g Hok h r _ l3 nx _ Hr Hsg2 Ha2); unfold zlen in *; rewrite length_app; lia).
    destruct Hx as (Hu & _ & _). apply snd_finish_spec; [done | done | done | | cbn; lia].
    exists r. split; [done |]. split; [done |]. split; [cbn; lia |]. cbn. destruct Ha as [_ Htx]. rewrite Hsg, text_of_app, Htx.
    apply prefix_app. change (text_of s (next :: l3)) with (seg_text s next ++ text_of s l3). destruct Hpre as [k ->]. rewrite <- app_assoc. by eexists.
Qed.

Lemma snd_seg_spec mac now t s g a x h next rest ty text eval more :
  base_rel s g a → phase_rel s g a t (SndSeg x h next rest) (ASndSeg x ty text) →
  (eval = 0 → Z.min rest (msgssz (info s)) <= zlen more) →
  wp (snd_seg mac now x h next rest eval more) (sim t s g a (spec_snd_seg mac now x ty text eval more a)) s.
Proof.
  intros Hb (_ & Hx & Ht & Hrest & Hrt & r & l1 & l2 & Hr & Hts & Hty & Hsg & Ha) Hmore. pose proof (ba_heap _ _ _ Hb) as Hok.
  destruct (at_seg_more s g Hok h r l1 l2 next text Hr Hsg Ha) as (l3 & nx & -> & Hnext & Hnx); [lia |].
  assert (Hin : next ∈ sg g (SHdr h)) by (rewrite Hsg; apply elem_of_app; right; by constructor).
  unfold snd_seg, spec_snd_seg. apply wp_bind, wp_get. set (tlen := if rest >? _ then _ else _).
  assert (Htl : tlen = Z.min rest (msgssz (info s))) by (unfold tlen; destruct (Z.gtb_spec rest (msgssz (info s))); lia).
  pose proof (io_ssz _ (ho_info _ _ Hok)) as Hssz.
  set (data := take (Z.to_nat tlen) more). assert (Hdl : zlen data <= tlen) by (unfold data, zlen; rewrite length_take; lia).
  assert (Hd : zlen data <= msgssz (info s)) by lia. apply wp_bind. unfold wp at 1, liftr. rewrite (write_blit s g h next data Hok Hin Hd).
  cbn [mbind res_bind]. apply wp_bind, wp_modify_msg. set (s1 := with_pool _ s).
  destruct (base_private s g a t h s1 Hb Ht (write_private s g h next data Hok Hin Hd)) as [Hb1 Hf1].
  destruct (write_here s g h next data Hok Hin Hd) as [Hpre Hfull]. pose proof (write_at_seg s g h next data Hok Hin Hd r l1 l3 text Hsg Ha) as Ha1.
  assert (Hr1 : hdr_ok s1 g h r) by (by destruct Hr).
  assert (Hmono : ∀ ar ph s', sim t s1 g a ar ph s' → sim t s g a ar ph s') by (intros ar ph s'; apply sim_trans; [done | apply grows_refl]).
  destruct (Z.eqb_spec eval 0) as [->|]; cbn [negb]; [| eapply wp_mono; [eapply (snd_fail_spec t s1 g a x h r eval); by try apply Hx | by auto]].
  assert (Hdt : zlen data = tlen) by (specialize (Hmore eq_refl); unfold data, zlen in *; rewrite length_take; lia).
  apply wp_bind, (wp_get_map _ _ nx); [done |]. rewrite <- Hrt, (ba_info _ _ _ Hb), <- Htl. fold data.
  eapply wp_mono; [| intros ph s' H; apply Hmono; exact H]. rewrite <- Hty, <- Hdt, Hrt.
  apply (snd_next_spec mac now t s1 g a x h r l1 l3 next nx text data); try done. cbn. lia.
Qed.
