(* ===== verification/MsgAlloc.v ===== *)
(** * System V message queues: waiting for resources

    The sections of [msgsnd] up to the point where the type is copied in. *)

From S2P Require Import Prelude Chain Ipc Msg MsgSpec MsgRel MsgSegs MsgBase MsgQueue MsgMove MsgSend.

(** ** A header for a thread *)

Lemma hdrs_zero s g a : base_rel s g a → (free_msghdrs s =? -1) = (a_hdrs a =? 0).
Proof.
  intros Hb. pose proof (ba_heap _ _ _ Hb) as Hok. rewrite (ba_hdrs _ _ _ Hb). pose proof (ho_hfree _ _ Hok) as Hc.
  destruct (hl g HFree) as [|h l] eqn:E; [by cbn in Hc; rewrite Hc |]. destruct Hc as [-> _].
  assert (h ∈ hl g HFree) as [? _]%(pa_range _ _ (ho_hparts _ _ Hok)) by (rewrite E; by constructor).
  rewrite zlen_cons. pose proof (zlen_nonneg l). destruct (Z.eqb_spec h (-1)), (Z.eqb_spec (zlen l + 1) 0); lia.
Qed.

Section take.
Context (t : nat) (s : state) (g : ghost) (a : astate).
Hypotheses (Hb : base_rel s g a) (Ht : hl g (HThread t) = []).

(** The first free header is taken off its list. *)
Lemma take_hdr ts : a_hdrs a ≠ 0 →
  ∃ h l r, free_msghdrs s = h ∧ rd (msghdrs s) h = Ok r ∧ hl g HFree = h :: l ∧
    let s1 := with_hdrs (<[Z.to_nat h := Msg (msg_next r) (msg_type r) ts (-1)]> (msghdrs s)) (with_free_hdrs (msg_next r) s) in
    let g1 := Ghost (move (hl g) HFree (HThread t) l [h]) (sg g) in
    heap_ok s1 g1 ∧ sg g (SHdr h) = [] ∧ kept (λ o, o ≠ HFree ∧ o ≠ HThread t) s g s1 g1.
Proof.
  intros Hne. pose proof (ba_heap _ _ _ Hb) as Hok. rewrite (ba_hdrs _ _ _ Hb) in Hne. pose proof (ho_hparts _ _ Hok) as Hpa.
  pose proof (ho_hfree _ _ Hok) as Hc. destruct (hl g HFree) as [|h l] eqn:E; [done |]. destruct Hc as (Hf & nx & Hnx & Hc).
  unfold hnext in Hnx. destruct (rd (msghdrs s) h) as [r|] eqn:Hr; [| done]. injection Hnx as Hnx.
  assert (Hin : h ∈ hl g HFree) by (rewrite E; by constructor). pose proof (rd_range _ _ _ Hr) as [Hh0 _].
  assert (Hsg : sg g (SHdr h) = []).
  { destruct (sg g (SHdr h)) as [|y k] eqn:Es; [done |]. destruct (ho_owned _ _ Hok h y) as (o & Ho & Hh); [rewrite Es; by constructor |].
    by destruct (Ho (pa_disj _ _ Hpa _ _ _ Hh Hin)). }
  exists h, l, r. do 3 (split; [done |]). cbn zeta. set (s1 := with_hdrs _ _). set (g1 := Ghost _ _).
  assert (Hk : kept (λ o, o ≠ HFree ∧ o ≠ HThread t) s g s1 g1).
  { split; [done |]. intros o [Ho Ho']. split; [cbn; by rewrite move_other |]. intros h' Hh'. split; [| done | done]. cbn. apply rd_insert_ne; [done |].
    intros <-. by destruct (Ho (pa_disj _ _ Hpa _ _ _ Hh' Hin)). }
  split; [| done]. pose proof (ho_owned _ _ Hok) as Hown. destruct Hok. split; try done.
  - cbn. unfold zlen. by rewrite length_insert.
  - cbn. apply (move_parts _ _ _ _ h); [done | done | by rewrite E | by rewrite Ht].
  - cbn [hl g1]. rewrite move_from by done. cbn [free_msghdrs s1 with_hdrs with_free_hdrs]. rewrite Hnx. eapply path_ext; [exact Hc |].
    intros y Hy. unfold hnext. cbn. rewrite rd_insert_ne; [done | done |]. intros <-. pose proof (pa_nodup _ _ Hpa HFree) as Hnd. rewrite E in Hnd. by apply NoDup_cons in Hnd as [? _].
  - intros h' y Hy. destruct (Hown h' y Hy) as (o & Ho & Hh'). exists o. split; [done |]. cbn. rewrite move_other; [done | done |].
    intros ->. rewrite Ht in Hh'. by apply elem_of_nil in Hh'.
Qed.

Lemma alloc_spec x : snd_ok (info s) a x → 0 <= sn_size x < 2 ^ 16 → sn_segs x = nsegs (info s) (sn_size x) →
  a_hdrs a ≠ 0 → sn_segs x <= a_segs a →
  wp (alloc_hdr x) (sim t s g a (put_free (a_hdrs a - 1) (a_segs a - sn_segs x) a, ASndType x)) s.
Proof.
  intros Hx Hsz Hseg Hh Hs. unfold alloc_hdr. apply wp_bind, wp_get. pose proof (io_ssz _ (ho_info _ _ (ba_heap _ _ _ Hb))) as Hssz.
  destruct (take_hdr (sn_size x) Hh) as (h & l & r & Hf & Hr & E & Hok1 & Hsg & Hk). rewrite Hf.
  apply wp_bind, (wp_get_hdr _ _ r); [done |]. apply wp_bind, wp_modify_msg. apply wp_bind, (wp_put_hdr _ _ r); [done |].
  rewrite wrap_small by done. set (s1 := with_hdrs _ _) in *. set (g1 := Ghost _ _) in *. set (r1 := Msg _ _ _ _) in *. apply wp_bind.
  assert (Hr1 : rd (msghdrs s1) h = Ok r1) by (cbn; by eapply rd_insert_eq).
  pose proof (nsegs_nonneg (info s) ltac:(lia) (sn_size x) ltac:(lia)) as Hn0.
  eapply wp_mono; [apply (take_segs_spec (HThread t) ltac:(done) _ s1 g1 h r1 Hok1); [cbn; rewrite move_to; by constructor | done | cbn; by rewrite Hsg |] |].
  { cbn. rewrite <- (ba_segs _ _ _ Hb). lia. }
  intros _ s2 (g2 & r2 & Hok2 & Hhl & Hr2 & Hts & Hc2 & Hlen & Hnf & Hw & Hq & Hoth). apply wp_ret. exists g2.
  assert (Hk2 : kept (λ o, o ≠ HFree ∧ o ≠ HThread t) s1 g1 s2 g2).
  { split; [apply Hq |]. intros o [_ Ho]. rewrite Hhl. split; [done |]. intros h' Hh'. apply Hoth. intros ->. destruct Ho.
    eapply (pa_disj _ _ (ho_hparts _ _ Hok1)); [exact Hh' |]. cbn. rewrite move_to. by constructor. }
  assert (Hkk : kept (λ o, o ≠ HFree ∧ o ≠ HThread t) s g s2 g2) by (by eapply kept_trans).
  destruct Hb as [_ Hsl [Hin Hup] Hi Hhd Hsgs Ha Hwo]. cbn [fst snd]. split; [| split; [| split]].
  - split; cbn; try done.
    + eapply slots_keep; [exact Hsl | | apply Hq]. eapply kept_mono; [| exact Hkk]. by intros o [j ->].
    + by rewrite (qu_init _ _ Hq).
    + by rewrite (qu_info _ _ Hq).
    + rewrite Hhl. cbn. rewrite move_from by done. rewrite Hhd, E, zlen_cons. lia.
    + rewrite Hnf, Hsgs. cbn. lia.
    + by rewrite (qu_heap _ _ Hq).
    + by rewrite Hw.
  - split; [done |]. rewrite (qu_info _ _ Hq). split; [done |]. rewrite Hhl. split; [cbn; by rewrite move_to |]. exists r2. split; [| by rewrite Hts].
    split; [done | rewrite Hts; cbn; lia | done |]. rewrite Hlen, Hts, (qu_info _ _ Hq). cbn. rewrite Hsg. unfold zlen. cbn. lia.
  - eapply kept_mono; [| exact Hkk]. intros o (t' & -> & ?). split; [done | congruence].
  - by intros i.
Qed.

End take.

(** ** The loop *)

Lemma snd_segs_small mi n : 0 < msgssz mi < 2 ^ 16 → 0 <= n < 2 ^ 16 → snd_segs mi n = nsegs mi n.
Proof.
  intros Hs Hn. unfold snd_segs, nsegs. rewrite u64_small by lia. apply swrap_small; [lia |].
  pose proof (Z.div_pos (n + msgssz mi - 1) (msgssz mi)). assert ((n + msgssz mi - 1) / msgssz mi < 2 ^ 31) by (apply Z.div_lt_upper_bound; nia). lia.
Qed.

Lemma slot_locked s g l q sl : used_rel s g l q sl → locked q = locked (sl_meta sl).
Proof. intros Hu. by rewrite <- (us_meta _ _ _ _ _ Hu). Qed.

Lemma slot_qbytes s g l q sl : used_rel s g l q sl → msg_qbytes q = msg_qbytes (sl_meta sl).
Proof. intros Hu. by rewrite <- (us_meta _ _ _ _ _ Hu). Qed.

Section loop.
Context (t : nat) (s : state) (g : ghost) (a : astate) (x : snd_args) (sl : aslot) (q : msqid_ds).
Hypotheses (Hb : base_rel s g a) (Ht : hl g (HThread t) = []) (Hx : snd_ok (info s) a x).
Let i := IPCID_TO_IX (sn_id x).
Hypotheses (Hsl : get_slot i a = Some sl) (Hq : rd (msqids s) i = Ok q) (Hu : used_rel s g (hl g (HQueue i)) q sl).
Hypothesis (Hfits : sn_size x <= msg_qbytes q).

Lemma snd_size_small : 0 <= sn_size x < 2 ^ 16.
Proof.
  destruct Hx as (_ & Hsz & _). pose proof (us_qbytes _ _ _ _ _ Hu). pose proof (io_mnb _ (ho_info _ _ (ba_heap _ _ _ Hb))). lia.
Qed.

Lemma snd_segs_needed : sn_segs x = nsegs (info s) (sn_size x).
Proof.
  destruct Hx as (_ & _ & ->). apply snd_segs_small; [| apply snd_size_small]. apply (io_ssz _ (ho_info _ _ (ba_heap _ _ _ Hb))).
Qed.

Lemma snd_sum : u64 (sn_size x + msg_cbytes q) = sn_size x + bytes (sl_msgs sl).
Proof.
  destruct (count_bounds _ _ _ _ _ (ba_heap _ _ _ Hb) eq_refl (us_msgs _ _ _ _ _ Hu)) as [Hcb _]. pose proof snd_size_small.
  rewrite (us_cbytes _ _ _ _ _ Hu). apply u64_small. lia.
Qed.

Lemma blocking_resource_spec : blocking_resource x s q = blocking x sl a.
Proof.
  unfold blocking_resource, blocking. rewrite snd_sum, (hdrs_zero _ _ _ Hb), <- (slot_locked _ _ _ _ _ Hu), <- (slot_qbytes _ _ _ _ _ Hu),
    (ba_info _ _ _ Hb), <- snd_segs_needed, (ba_segs _ _ _ Hb).
  by destruct (a_hdrs a =? 0), (sn_segs x >? nfree_msgmaps s), (locked q), (sn_size x + bytes (sl_msgs sl) >? msg_qbytes q).
Qed.

(** The queue is locked first. *)
Lemma lock_spec (m : M phase) aph a' :
  (∀ s1, info s1 = info s → base_rel s1 g (put_slot i (lock_slot sl) a) → wp m (sim t s1 g (put_slot i (lock_slot sl) a) (a', aph)) s1) →
  wp (put_id i (set_mode lock q) ;; m) (sim t s g a (a', aph)) s.
Proof.
  intros H. apply wp_bind, (wp_put_id _ _ q); [done |]. eapply wp_mono; [apply H; [done |] |].
  - by apply (base_put s g a Hb i q _ (lock_slot sl) Hq), used_rel_mode.
  - intros ph s' Hs. eapply sim_trans; [| | exact Hs]; [by apply kept_same | apply grows_put].
Qed.

Lemma snd_ok_put mi sl' : snd_ok mi a x → snd_ok mi (put_slot i sl' a) x.
Proof. intros [H ?]. split; [by apply used_put | done]. Qed.

Lemma snd_alloc_spec : blocking x sl a = None →
  wp (snd_alloc x) (sim t s g a (put_free (a_hdrs a - 1) (a_segs a - nsegs (a_info a) (sn_size x)) (put_slot i (lock_slot sl) a), ASndType x)) s.
Proof.
  intros Hbl. pose proof blocking_resource_spec as Hbr. rewrite Hbl in Hbr. unfold blocking in Hbl. unfold blocking_resource in Hbr.
  unfold snd_alloc. fold i in Hbr |- *. apply wp_bind, wp_get. apply wp_bind, (wp_get_id _ _ q); [done |].
  destruct (free_msghdrs s =? -1) eqn:E3; [done |]. destruct (sn_segs x >? nfree_msgmaps s) eqn:E1; [done |].
  destruct (u64 (sn_size x + msg_cbytes q) >? msg_qbytes q) eqn:E2; [done |]. destruct (locked q); [done |].
  apply lock_spec. intros s1 Hi1 Hb1. rewrite (ba_info _ _ _ Hb), <- snd_segs_needed.
  apply (alloc_spec t s1 g _ Hb1 Ht); rewrite ?Hi1; [by apply snd_ok_put | apply snd_size_small | apply snd_segs_needed | |].
  - cbn. rewrite (hdrs_zero _ _ _ Hb) in E3. lia.
  - cbn. rewrite (ba_segs _ _ _ Hb). lia.
Qed.

End loop.

Lemma snd_loop_spec t s g a x : base_rel s g a → hl g (HThread t) = [] → snd_ok (info s) a x →
  wp (snd_loop x) (sim t s g a (spec_snd_loop x a)) s.
Proof.
  intros Hb Ht Hx. pose proof Hx as ([Hi [sl Hsl]] & _). unfold snd_loop, spec_snd_loop. rewrite Hsl.
  destruct (base_get _ _ _ Hb _ sl Hi Hsl) as (q & Hq & Hu). apply wp_bind, wp_get. apply wp_bind, (wp_get_id _ _ q); [done |].
  rewrite <- (slot_qbytes _ _ _ _ _ Hu). destruct (Z.gtb_spec (sn_size x) (msg_qbytes q)); [by apply sim_return |].
  rewrite (blocking_resource_spec s g a x sl q) by done. destruct (blocking x sl a) as [c|] eqn:E; [| by eapply snd_alloc_spec].
  destruct (tst (sn_flg x) IPC_NOWAIT); [by apply sim_return |]. rewrite <- (slot_locked _ _ _ _ _ Hu).
  destruct (locked q); [by apply wp_ret, sim_here |]. eapply lock_spec; [done | done | done |]. intros s1 Hi1 Hb1. apply wp_ret, sim_here; [done |].
  do 3 (split; [done |]). split; [| done]. rewrite Hi1. by apply snd_ok_put.
Qed.

Lemma snd_wake_spec t s g a x own c err : base_rel s g a → phase_rel s g a t (SndSleep x own c) (ASndSleep x own c) →
  wp (snd_wake x own err) (sim t s g a (spec_snd_wake x own err a)) s.
Proof.
  intros Hb (_ & _ & _ & Hx & Ht). pose proof Hx as ([Hi [sl Hsl]] & _). unfold snd_wake, spec_snd_wake. set (i := IPCID_TO_IX (sn_id x)) in *. rewrite Hsl.
  destruct (base_get _ _ _ Hb i sl Hi Hsl) as (q & Hq & Hu). apply wp_bind, (wp_get_id _ _ q); [done |]. apply wp_bind.
  set (a1 := if own then put_slot i (unlock_slot sl) a else a). set (q1 := if own then set_mode unlock q else q).
  set (s1 := if own then with_ids (<[Z.to_nat i := q1]> (msqids s)) s else s).
  assert (Hb1 : base_rel s1 g a1) by (unfold s1, a1, q1; destruct own; [by apply (base_put s g a Hb i q _ (unlock_slot sl) Hq), used_rel_mode | done]).
  assert (Hq1 : rd (msqids s1) i = Ok q1) by (unfold s1, q1; destruct own; [cbn; by eapply rd_insert_eq | done]).
  assert (Hf : frame t s g s1 g) by (unfold s1; destruct own; by apply kept_same).
  assert (Hg : grows a a1) by (unfold a1; destruct own; [apply grows_put | apply grows_refl]).
  assert (Hx1 : snd_ok (info s1) a1 x) by (unfold s1, a1; destruct own; [by apply snd_ok_put | done]).
  apply (wp_mono _ (λ _ s', s' = s1)); [unfold s1, q1; destruct own; [by apply (wp_put_id _ _ q) | by apply wp_ret] |]. intros _ ? ->.
  assert (Hmono : ∀ ar ph s', sim t s1 g a1 ar ph s' → sim t s g a ar ph s') by (intros ar ph s'; by apply sim_trans).
  destruct (err =? 0); cbn [negb]; [| eapply wp_mono; [by apply sim_return | by auto]].
  apply wp_bind, (wp_get_id _ _ q1); [done |].
  assert (live sl = negb (msg_qbytes q1 =? 0)) as -> by (unfold live; rewrite <- (slot_qbytes _ _ _ _ _ Hu); unfold q1; by destruct own).
  destruct (msg_qbytes q1 =? 0); cbn [negb]; (eapply wp_mono; [| apply Hmono]); [by apply sim_return | by apply snd_loop_spec].
Qed.
