(* ===== verification/MsgInit.v ===== *)
(** * System V message queues: initialisation

    The arrays as [msginit] leaves them represent a table without queues. *)

From S2P Require Import Prelude Chain Ipc Msg MsgSpec MsgRel MsgSegs MsgBase.

(** Before the first call, and as long as memory is short. *)
Record down_rel (s : state) (a : astate) : Prop := {
  dn_init : initted s = false;
  dn_ids : msqids s = [];
  dn_spec : a = AState (info s) false 0 0 [] (alloc_ok <$> heap s) (woken s);
  dn_info : info_ok (check_info (info s))
}.

Lemma check_info_idemp mi : check_info (check_info mi) = check_info mi.
Proof.
  unfold check_info at 1 3. cbn [msgssz msgseg msgmax msgmni msgmnb msgtql]. f_equal.
  - unfold check_info. cbn [msgssz]. destruct (small_power 7 8 (msgssz mi)) eqn:E; [by rewrite E | done].
  - unfold check_info. cbn [msgseg]. destruct (Z.gtb_spec (msgseg mi) 32767) as [H|H]; [done |]. destruct (Z.gtb_spec (msgseg mi) 32767); lia.
Qed.

Lemma array_lookup {A} n (f : nat → A) i : (i < Z.to_nat n)%nat → array n f !! i = Some (f i).
Proof. intros H. unfold array. by rewrite list_lookup_fmap, lookup_seq_lt. Qed.

Lemma array_length {A} n (f : nat → A) : 0 <= n → zlen (array n f) = n.
Proof. intros H. unfold zlen, array. rewrite length_fmap, length_seq. lia. Qed.

Definition upto (n : Z) : list Z := Z.of_nat <$> seq 0 (Z.to_nat n).

Lemma elem_of_upto n x : x ∈ upto n ↔ 0 <= x < n.
Proof.
  unfold upto. rewrite list_elem_of_fmap. setoid_rewrite elem_of_seq. split; [intros (k & -> & ?); lia |]. intros H. exists (Z.to_nat x). lia.
Qed.

Lemma upto_length n : 0 <= n → zlen (upto n) = n.
Proof. intros H. unfold zlen, upto. rewrite length_fmap, length_seq. lia. Qed.

Lemma upto_nodup n : NoDup (upto n).
Proof. apply NoDup_fmap_2; [apply _ | apply NoDup_seq]. Qed.

(** Every element leads to the one after it. *)
Lemma link_chain nx n : 0 < n → (∀ i, (Z.of_nat i < n) → nx (Z.of_nat i) = Ok (link_next n i)) → chain nx 0 (upto n).
Proof.
  intros Hn H. assert (Hg : ∀ m k, Z.of_nat k + Z.of_nat (S m) = n → chain nx (Z.of_nat k) (Z.of_nat <$> seq k (S m))).
  { induction m as [|m IH]; intros k Hk; (split; [done |]); exists (link_next n k); (split; [apply H; lia |]); unfold link_next.
    - destruct (Z.ltb_spec (Z.of_nat k + 1) n); [lia | done].
    - destruct (Z.ltb_spec (Z.of_nat k + 1) n); [| lia]. replace (Z.of_nat k + 1) with (Z.of_nat (S k)) by lia. apply IH. lia. }
  unfold upto. destruct (Z.to_nat n) as [|m] eqn:E; [lia |]. apply (Hg m O). lia.
Qed.

(** Everything is free. *)
Lemma free_parts {O} `{!EqDecision O} (o : O) n : parts n (λ p, if decide (p = o) then upto n else []).
Proof.
  split.
  - intros p x. case_decide; [by rewrite elem_of_upto | by intros ?%elem_of_nil].
  - intros p. case_decide; [apply upto_nodup | constructor].
  - intros p p' x. repeat case_decide; subst; rewrite ?elem_of_nil; done.
  - intros x Hx. exists o. rewrite decide_True by done. by apply elem_of_upto.
Qed.

Definition init_ghost (mi : msginfo) : ghost :=
  Ghost (λ o, if decide (o = HFree) then upto (msgtql mi) else []) (λ o, if decide (o = SFree) then upto (msgseg mi) else []).

Lemma rd_imap {A B} (f : nat → A → B) (l : list A) i : (i < length l)%nat → ∃ x, l !! i = Some x ∧ rd (imap f l) (Z.of_nat i) = Ok (f i x).
Proof.
  intros H. destruct (lookup_lt_is_Some_2 l i H) as [x Hx]. exists x. split; [done |]. apply rd_lookup. split; [lia |].
  by rewrite Nat2Z.id, list_lookup_imap, Hx.
Qed.

Section init.
Context (mi : msginfo) (pool maps : nat → Z) (hdrs : nat → msg) (ids : nat → msqid_ds) (hp : list alloc) (wk : list chan).
Hypothesis (Hmi : info_ok mi).

Definition init_state : state :=
  State mi true (msgseg mi) 0 0 (array (msgmax mi) pool) (init_maps (msgseg mi) (array (msgseg mi) maps))
    (init_hdrs (msgtql mi) (array (msgtql mi) hdrs)) (init_id <$> array (msgmni mi) ids) hp wk.

Lemma init_heap : heap_ok init_state (init_ghost mi).
Proof.
  destruct Hmi. assert (Hssz : 0 <= msgmax mi) by nia. split; cbn; try done.
  - apply array_length. lia.
  - unfold zlen, init_maps. rewrite length_imap. apply array_length. lia.
  - unfold zlen, init_hdrs. rewrite length_imap. apply array_length. lia.
  - unfold zlen. rewrite length_fmap. apply array_length. lia.
  - apply free_parts.
  - apply free_parts.
  - apply link_chain; [lia |]. intros i Hi. unfold hnext, init_hdrs. cbn.
    pose proof (array_length (msgtql mi) hdrs ltac:(lia)). unfold zlen in *. destruct (rd_imap (λ i m, Msg (link_next (msgtql mi) i) 0 (msg_ts m) (msg_spot m)) (array (msgtql mi) hdrs) i) as (r & _ & Hr); [lia |].
    unfold init_hdrs. by rewrite Hr.
  - apply link_chain; [lia |]. intros i Hi. unfold snext. cbn. unfold init_maps.
    pose proof (array_length (msgseg mi) maps ltac:(lia)). unfold zlen in *. destruct (rd_imap (λ i _, link_next (msgseg mi) i) (array (msgseg mi) maps) i) as (r & _ & Hr); [lia |]. done.
  - symmetry. apply upto_length. lia.
  - intros h x Hx. by apply elem_of_nil in Hx.
Qed.

Lemma init_base : base_rel init_state (init_ghost mi)
  (AState mi true (msgtql mi) (msgseg mi) (replicate (Z.to_nat (msgmni mi)) None) (alloc_ok <$> hp) wk).
Proof.
  pose proof init_heap. destruct Hmi. split; cbn; try done; [| symmetry; apply upto_length; lia].
  split; cbn; [rewrite length_replicate, length_fmap; unfold array; by rewrite length_fmap, length_seq |].
  split; [done |]. intros i q o Hq Ho. apply lookup_replicate in Ho as [-> Hi]. rewrite list_lookup_fmap, array_lookup in Hq by done. by injection Hq as <-.
Qed.

End init.

(** The call of [msginit] that every system call makes. *)
Lemma msginit_up s g a : base_rel s g a → msginit s = Ok (true, s) ∧ spec_init a = (true, a).
Proof. intros Hb. destruct (ba_init _ _ _ Hb) as [H1 H2]. unfold msginit, spec_init. by rewrite H1, H2. Qed.

Lemma msginit_down s a : down_rel s a →
  (∃ s1 a1, msginit s = Ok (true, s1) ∧ spec_init a = (true, a1) ∧ base_rel s1 (init_ghost (info s1)) a1) ∨
  (∃ s1 a1, msginit s = Ok (false, s1) ∧ spec_init a = (false, a1) ∧ down_rel s1 a1).
Proof.
  intros [Hi Hids -> Hmi]. unfold msginit, spec_init. rewrite Hi. cbn [a_up a_heap a_info a_woken].
  assert (Hd : ∀ hp, down_rel (State (check_info (info s)) false (nfree_msgmaps s) (free_msgmaps s) (free_msghdrs s) [] [] [] [] hp (woken s))
    (AState (check_info (info s)) false 0 0 [] (alloc_ok <$> hp) (woken s))) by (intros hp; split; [done | done | done | cbn [info]; by rewrite check_info_idemp]).
  destruct (heap s) as [|[[pool|] [maps|] [hdrs|] [ids|]] hp]; cbn [fmap list_fmap alloc_ok tail];
    (right; eexists _, _; split; [done |]; split; [done |]; apply Hd) || left.
  eexists _, _. split; [done |]. split; [done |]. by apply init_base.
Qed.
