(* ===== verification/MsgCalls.v ===== *)
(** * System V message queues: entering a call, control and creation *)

From S2P Require Import Prelude Chain Ipc Msg MsgSpec MsgRel MsgSegs MsgBase MsgQueue MsgMove MsgSend MsgAlloc MsgInit.

Lemma ix_nonneg id : 0 <= IPCID_TO_IX id.
Proof. unfold IPCID_TO_IX. apply Z.land_nonneg. by right. Qed.

Lemma wp_msginit s g a (Q : bool → state → Prop) : base_rel s g a → Q true s → wp msginit Q s.
Proof. intros Hb HQ. unfold wp. by rewrite (proj1 (msginit_up s g a Hb)). Qed.

(** ** The queue that an identifier names *)

Section slot.
Context (s : state) (g : ghost) (a : astate).
Hypothesis (Hb : base_rel s g a).

Lemma slots_lookup i : 0 <= i < msgmni (info s) →
  ∃ q o, rd (msqids s) i = Ok q ∧ a_slots a !! Z.to_nat i = Some o ∧ get_slot i a = o ∧ slot_rel s g i q o.
Proof.
  intros Hi. destruct (ba_slots _ _ _ Hb) as (Hlen & _ & Hsl). pose proof (ho_ids _ _ (ba_heap _ _ _ Hb)) as Hids. unfold zlen in Hids.
  destruct (lookup_lt_is_Some_2 (msqids s) (Z.to_nat i)) as [q Hq]; [lia |]. destruct (lookup_lt_is_Some_2 (a_slots a) (Z.to_nat i)) as [o Ho]; [lia |].
  exists q, o. split; [apply rd_lookup; split; [lia | done] |]. split; [done |]. split; [unfold get_slot; by rewrite Ho |]. specialize (Hsl _ _ _ Hq Ho). by rewrite Z2Nat.id in Hsl by lia.
Qed.

Lemma get_slot_none i : msgmni (info s) <= i → get_slot i a = None.
Proof.
  intros Hi. destruct (ba_slots _ _ _ Hb) as (Hlen & _ & _). pose proof (ho_ids _ _ (ba_heap _ _ _ Hb)) as Hids. unfold zlen in Hids.
  unfold get_slot. rewrite lookup_ge_None_2; [done | lia].
Qed.

(** What [find_queue] finds. *)
Inductive found (id : Z) : Z + (Z * msqid_ds) → Z + (Z * aslot) → Prop :=
  | found_none : found id (inl EINVAL) (inl EINVAL)
  | found_queue q sl : let i := IPCID_TO_IX id in
      used a i → get_slot i a = Some sl → live sl = true → rd (msqids s) i = Ok q → used_rel s g (hl g (HQueue i)) q sl →
      found id (inr (i, q)) (inr (i, sl)).

Lemma find_queue_spec id : ∃ r, spec_find id a = (r, a) ∧ wp (find_queue id) (λ r' s', s' = s ∧ found id r' r) s.
Proof.
  unfold find_queue, spec_find. destruct (msginit_up s g a Hb) as [_ ->]. cbn [negb]. pose proof (ix_nonneg id) as Hi0. set (i := IPCID_TO_IX id) in *.
  assert (Hstart : ∀ r (k : M (Z + (Z * msqid_ds))), wp k (λ r' s', s' = s ∧ found id r' r) s →
    wp (ok ← msginit; if negb ok then mret (inl ENOMEM) else k) (λ r' s', s' = s ∧ found id r' r) s).
  { intros r k Hk. by eapply wp_bind, wp_msginit. }
  destruct (Z.geb_spec i (msgmni (info s))) as [Hge|Hlt].
  { rewrite get_slot_none by lia. eexists. split; [done |]. apply Hstart, wp_bind, wp_get. destruct (_ || _) eqn:E; [| lia]. split; [done | constructor]. }
  destruct (slots_lookup i) as (q & o & Hq & _ & Hget & Hsl); [lia |]. rewrite Hget.
  assert (Hcode : ∀ r, found id (if msg_qbytes q =? 0 then inl EINVAL else if negb (_seq (msg_perm q) =? IPCID_TO_SEQ id) then inl EINVAL else inr (i, q)) r →
    wp (s ← get; if (i <? 0) || (i >=? msgmni (info s)) then mret (inl EINVAL) else q ← get_id i;
        if msg_qbytes q =? 0 then mret (inl EINVAL) else if negb (_seq (msg_perm q) =? IPCID_TO_SEQ id) then mret (inl EINVAL) else mret (inr (i, q)))
      (λ r' s', s' = s ∧ found id r' r) s).
  { intros r Hr. apply wp_bind, wp_get. destruct (_ || _) eqn:E; [lia |]. apply wp_bind, (wp_get_id _ _ q); [done |].
    by destruct (msg_qbytes q =? 0), (_seq (msg_perm q) =? IPCID_TO_SEQ id). }
  destruct o as [sl|]; cbn in Hsl.
  - assert (Hlv : live sl = negb (msg_qbytes q =? 0)) by (unfold live; by rewrite <- (slot_qbytes _ _ _ _ _ Hsl)).
    assert (Hsq : _seq (msg_perm (sl_meta sl)) = _seq (msg_perm q)) by (by rewrite <- (us_meta _ _ _ _ _ Hsl)).
    rewrite Hsq. destruct (live sl) eqn:El, (_seq (msg_perm q) =? IPCID_TO_SEQ id) eqn:Es; cbn [andb]; eexists; (split; [done |]); apply Hstart, Hcode;
      destruct (msg_qbytes q =? 0); try done; cbn [negb]; by constructor.
  - eexists. split; [done |]. destruct Hsl as (Hqb & _). apply Hstart, Hcode. rewrite Hqb. constructor.
Qed.

End slot.

Lemma used_perm s g l q sl : used_rel s g l q sl → msg_perm q = msg_perm (sl_meta sl).
Proof. intros Hu. by rewrite <- (us_meta _ _ _ _ _ Hu). Qed.

Lemma msgsnd_spec t s g a p c mac id msgsz msgflg : base_rel s g a → hl g (HThread t) = [] → 0 <= msgsz < 2 ^ 64 →
  wp (msgsnd p c mac id msgsz msgflg) (sim t s g a (spec_snd p c mac id msgsz msgflg a)) s.
Proof.
  intros Hb Ht Hsz. unfold msgsnd, spec_snd. destruct (find_queue_spec s g a Hb id) as (r' & -> & Hw). apply wp_bind.
  eapply wp_mono; [exact Hw |]. intros r ? [-> [|q sl i Hu Hsl Hlive Hq Hus]]; [by apply sim_return |]. rewrite (used_perm _ _ _ _ _ Hus).
  destruct (_ =? 0); cbn [negb]; [| by apply sim_return]. destruct (mac =? 0); cbn [negb]; [| by apply sim_return].
  apply wp_bind, wp_get. rewrite (ba_info _ _ _ Hb). by apply snd_loop_spec.
Qed.

(** ** Control *)

Lemma check_rmid_spec fuel : ∀ mac s g l msgs h, chain (hnext s) h l → (∀ x, x ∈ l → 0 <= x) → Forall2 (hdr_has s g) l msgs →
  (length l <= fuel)%nat → wp (check_rmid fuel mac h) (λ e s', s' = s ∧ e = first_error mac (length msgs)) s.
Proof.
  induction fuel as [|fuel IH]; intros mac s g l msgs h Hc Hl Hm Hf; (destruct Hm as [|h' m l msgs Hh Hm]; [cbn in Hc; by rewrite Hc | cbn in Hf; try lia]).
  destruct Hc as (-> & nx & Hnx & Hc). cbn [check_rmid length first_error]. destruct (Z.eqb_spec h' (-1)); [specialize (Hl h' ltac:(constructor)); lia |].
  unfold hnext in Hnx. destruct (rd (msghdrs s) h') as [r|] eqn:Hr; [| done]. injection Hnx as <-.
  apply wp_bind, (wp_get_hdr _ _ r); [done |]. destruct (mac O =? 0); cbn [negb]; [| by apply wp_ret].
  apply (IH _ s g l); [done | | done | lia]. intros x Hx. apply Hl. by constructor.
Qed.

Lemma msgctl_spec t s g a is64 c mac mac_rmid id cmd : base_rel s g a → hl g (HThread t) = [] →
  wp (msgctl is64 c mac mac_rmid id cmd) (sim t s g a (spec_ctl is64 c mac mac_rmid id cmd a)) s.
Proof.
  intros Hb Ht. unfold msgctl, spec_ctl. destruct (find_queue_spec s g a Hb id) as (r' & -> & Hw). apply wp_bind.
  eapply wp_mono; [exact Hw |]. intros r ? [-> [|q sl i Hu Hsl Hlive Hq Hus]]; [by apply sim_return |]. rewrite (used_perm _ _ _ _ _ Hus).
  destruct (mac =? 0); cbn [negb]; [| by apply sim_return]. destruct cmd; try (by apply sim_return);
    (destruct (ipcperm c (msg_perm (sl_meta sl)) _ =? 0); cbn [negb]; [| by apply sim_return]); try (by apply wp_ret, sim_here).
  apply wp_bind, wp_get. apply wp_bind. pose proof (ba_heap _ _ _ Hb) as Hok. pose proof (us_live _ _ _ _ _ Hus Hlive) as [Hc _].
  eapply wp_mono; [apply (check_rmid_spec _ _ s g (hl g (HQueue i)) (sl_msgs sl)); [done | | apply Hus |] |].
  { intros x Hx. by apply (pa_range _ _ (ho_hparts _ _ Hok)) in Hx as [? _]. }
  { pose proof (parts_length _ _ (HQueue i) (ho_hparts _ _ Hok)) as H. rewrite <- (ho_hdrs _ _ Hok) in H. unfold zlen in H. lia. }
  intros e ? [-> ->]. destruct (_ =? 0); cbn [negb]; [| by apply sim_return]. apply wp_bind.
  eapply wp_mono; [apply (rmid_spec t s g a i sl Hb (proj1 Hu) Hsl Hlive) |]. intros _ s' (g' & Hb' & Ht' & Hf). apply wp_ret. exists g'.
  split; [done |]. split; [split; [done |]; split; [done |]; by rewrite Ht' |]. split; [done |]. intros j Hj. unfold spec_rmid. rewrite spec_free_all.
  exact (used_put a j i _ Hj).
Qed.

Lemma stat_of_meta s g l q sl : used_rel s g l q sl →
  msqid_ds_kerneltouser64 q = msqid_ds_kerneltouser64 (stat_of sl) ∧ msqid_ds_kerneltouser32 q = msqid_ds_kerneltouser32 (stat_of sl).
Proof.
  intros [Hm _ Hc Hn _ _ _]. unfold stat_of, msqid_ds_kerneltouser64, msqid_ds_kerneltouser32. rewrite <- Hm, <- Hc, <- Hn. done.
Qed.

Lemma ipc_stat_spec t s g a is64 i eval : base_rel s g a → phase_rel s g a t (StatCopyout is64 i) (AStatCopyout is64 i) →
  wp (ipc_stat is64 i eval) (sim t s g a (spec_stat is64 i eval a)) s.
Proof.
  intros Hb (_ & _ & [Hi [sl Hsl]] & Ht). unfold ipc_stat, spec_stat. rewrite Hsl. destruct (base_get _ _ _ Hb i sl Hi Hsl) as (q & Hq & Hu).
  apply wp_bind, (wp_get_id _ _ q); [done |]. destruct (eval =? 0); cbn [negb]; [| by apply sim_return].
  apply wp_ret, sim_here; [done |]. destruct (stat_of_meta _ _ _ _ _ Hu) as [-> ->]. done.
Qed.

Lemma ctl_set_spec t s g a now c i eval b : base_rel s g a → phase_rel s g a t (SetCopyin c i) (ASetCopyin c i) → 0 <= u_qbytes b →
  (∀ sl, get_slot i a = Some sl → cr_super c = true → live sl = true) →
  wp (ipc_set now c i eval b) (sim t s g a (spec_set now c i eval b a)) s.
Proof.
  intros Hb (_ & _ & [Hi [sl Hsl]] & Ht) Hqb0 Hsup. unfold ipc_set, spec_set. rewrite Hsl. destruct (base_get _ _ _ Hb i sl Hi Hsl) as (q & Hq & Hu).
  pose proof (io_mnb _ (ho_info _ _ (ba_heap _ _ _ Hb))) as Hmnb. destruct (eval =? 0); cbn [negb]; [| by apply sim_return].
  apply wp_bind, wp_get. apply wp_bind, (wp_get_id _ _ q); [done |]. rewrite <- (slot_qbytes _ _ _ _ _ Hu).
  destruct (_ && _) eqn:Esup; [by apply sim_return |]. rewrite u64_small by lia.
  assert ((if u_qbytes b >? msgmnb (info s) then msgmnb (info s) else u_qbytes b) = Z.min (u_qbytes b) (msgmnb (a_info a))) as ->.
  { rewrite (ba_info _ _ _ Hb). destruct (Z.gtb_spec (u_qbytes b) (msgmnb (info s))); lia. }
  destruct (Z.eqb_spec (Z.min (u_qbytes b) (msgmnb (a_info a))) 0) as [E0|E0]; [by apply sim_return |]. pose proof (us_qbytes _ _ _ _ _ Hu) as Hqb.
  assert (Hlive : live sl = true).
  { destruct (cr_super c) eqn:E; [by apply Hsup |]. unfold live. rewrite <- (slot_qbytes _ _ _ _ _ Hu). destruct (Z.gtb_spec (u_qbytes b) (msg_qbytes q)); [done |].
    destruct (Z.eqb_spec (msg_qbytes q) 0); [| done]. rewrite (ba_info _ _ _ Hb) in E0. lia. }
  rewrite (ba_info _ _ _ Hb) in *. apply wp_bind, (wp_put_id _ _ q); [done |]. apply wp_ret. fold (set_meta now (Z.min (u_qbytes b) (msgmnb (info s))) b q). exists g.
  split; [| split; [done |]; split; [by apply kept_same | apply grows_put]]. eapply base_put; [done | done |].
  destruct Hu as [Hm ? ? ? _ Hl _]. split; cbn [sl_msgs sl_meta]; try done; [by rewrite <- Hm | cbn; lia | |].
  - intros _. by destruct (Hl Hlive).
  - unfold live. cbn. intros H. lia.
Qed.
