(* ===== verification/MsgGet.v ===== *)
(** * System V message queues: finding and creating queues *)

From S2P Require Import Prelude Chain Ipc Msg MsgSpec MsgRel MsgSegs MsgBase MsgQueue MsgMove MsgSend MsgAlloc MsgInit MsgCalls.

(** ** Searching the table *)

Lemma find_id_some {A} (f : A → bool) l : ∀ k i, find_id f l k = Some i → k <= i ∧ ∃ x, l !! Z.to_nat (i - k) = Some x ∧ f x = true.
Proof.
  induction l as [|y l IH]; intros k i; cbn; [done |]. destruct (f y) eqn:E.
  - intros [= ->]. split; [lia |]. exists y. by rewrite Z.sub_diag.
  - intros (Hk & x & Hx & Hfx)%IH. split; [lia |]. exists x. replace (Z.to_nat (i - k)) with (S (Z.to_nat (i - (k + 1)))) by lia. done.
Qed.

Lemma find_id_none {A} (f : A → bool) l : ∀ k, find_id f l k = None → ∀ x, x ∈ l → f x = false.
Proof.
  induction l as [|y l IH]; intros k H x; [by intros ?%elem_of_nil |]. cbn in H. destruct (f y) eqn:E; [done |].
  intros [->|Hx]%elem_of_cons; [done |]. by eapply IH.
Qed.

(** The first one: those before it do not satisfy the condition. *)
Lemma find_id_first {A} (f : A → bool) l : ∀ k i, find_id f l k = Some i → ∀ j x, l !! j = Some x → Z.of_nat j < i - k → f x = false.
Proof.
  induction l as [|y l IH]; intros k i; cbn; [done |]. destruct (f y) eqn:E; [intros [= ->] j x _ ?; lia |].
  intros H [|j] x; cbn; [by intros [= ->] _ |]. intros Hx Hj. eapply IH; [exact H | exact Hx | lia].
Qed.

Lemma find_id_ext {A B} (f : A → bool) (f' : B → bool) l l' : Forall2 (λ x y, f x = f' y) l l' → ∀ k, find_id f l k = find_id f' l' k.
Proof. induction 1 as [|x y l l' Hxy _ IH]; intros k; [done |]. cbn. by rewrite Hxy, IH. Qed.

Section table.
Context (s : state) (g : ghost) (a : astate).
Hypothesis (Hb : base_rel s g a).

Lemma table_rel (f : msqid_ds → bool) (f' : option aslot → bool) : (∀ i q o, slot_rel s g i q o → f q = f' o) →
  ∀ k, find_id f (msqids s) k = find_id f' (a_slots a) k.
Proof.
  intros Hf. apply find_id_ext. destruct (ba_slots _ _ _ Hb) as (Hlen & _ & Hsl). apply Forall2_same_length_lookup_2; [done |]. intros i q o Hq Ho. eapply Hf, Hsl; done.
Qed.

Lemma find_id_get (f' : option aslot → bool) i : find_id f' (a_slots a) 0 = Some i → 0 <= i < msgmni (info s) ∧ f' (get_slot i a) = true.
Proof.
  intros (Hi & o & Ho & Hf)%find_id_some. rewrite Z.sub_0_r in Ho. unfold get_slot. rewrite Ho. destruct (ba_slots _ _ _ Hb) as (Hlen & _ & _).
  pose proof (ho_ids _ _ (ba_heap _ _ _ Hb)) as Hids. unfold zlen in Hids. apply lookup_lt_Some in Ho. split; [lia | done].
Qed.

Lemma slot_has_key key i q o : slot_rel s g i q o → (negb (msg_qbytes q =? 0) && (_key (msg_perm q) =? key)) = has_key key o.
Proof.
  destruct o as [sl|]; cbn; [| by intros (-> & _)]. intros Hu. unfold live. by rewrite (slot_qbytes _ _ _ _ _ Hu), (used_perm _ _ _ _ _ Hu).
Qed.

Lemma slot_unused i q o : slot_rel s g i q o → ((msg_qbytes q =? 0) && negb (locked q)) = unused o.
Proof.
  destruct o as [sl|]; cbn.
  - intros Hu. unfold live. by rewrite (slot_qbytes _ _ _ _ _ Hu), (slot_locked _ _ _ _ _ Hu), negb_involutive.
  - intros (-> & _ & Hm & _). unfold locked. by rewrite Hm.
Qed.

(** A new queue in an entry that is not used. *)
Lemma new_queue_rel i q o c now key msgflg qbytes seq : slot_rel s g i q o → unused o = true → 0 <= qbytes <= msgmnb (info s) →
  used_rel s g (hl g (HQueue i)) (new_queue c now key msgflg qbytes seq) (ASlot (new_queue c now key msgflg qbytes seq) []).
Proof.
  intros Hr Hun Hqb. assert (Hl : hl g (HQueue i) = []).
  { destruct o as [sl|]; cbn in *; [| by destruct Hr as (_ & _ & _ & ?)]. apply (us_dead _ _ _ _ _ Hr). by destruct (live sl). }
  rewrite Hl. by split.
Qed.

End table.

Lemma msgget_spec t s g a c mac now key msgflg : base_rel s g a → hl g (HThread t) = [] →
  wp (msgget c mac now key msgflg) (sim t s g a (spec_get c mac now key msgflg a)) s.
Proof.
  intros Hb Ht. unfold msgget, spec_get. destruct (msginit_up s g a Hb) as [_ ->]. cbn [negb]. eapply wp_bind, wp_msginit; [exact Hb |].
  cbn [negb]. apply wp_bind, wp_get. rewrite (table_rel s g a Hb _ (has_key key)) by apply slot_has_key.
  assert ((if negb (key =? IPC_PRIVATE) then find_id (has_key key) (a_slots a) 0 else None) =
          (if key =? IPC_PRIVATE then None else find_id (has_key key) (a_slots a) 0)) as -> by (by destruct (key =? IPC_PRIVATE)).
  destruct (if key =? IPC_PRIVATE then None else _) as [i|] eqn:Ef.
  - destruct (key =? IPC_PRIVATE); [done |]. destruct (find_id_get s g a Hb _ i Ef) as [Hi Hk].
    destruct (slots_lookup s g a Hb i Hi) as (q & o & Hq & _ & Hg & Hr). rewrite Hg in *. destruct o as [sl|]; [| done]. cbn in Hr.
    apply wp_bind, (wp_get_id _ _ q); [done |]. unfold queue_id. rewrite (used_perm _ _ _ _ _ Hr).
    destruct (_ && _); [by apply sim_return |]. destruct (_ =? 0); cbn [negb]; [| by apply sim_return].
    destruct (mac =? 0); cbn [negb]; by apply sim_return.
  - destruct (_ || _); [| by apply sim_return]. rewrite (table_rel s g a Hb _ unused) by apply slot_unused.
    destruct (find_id unused (a_slots a) 0) as [i|] eqn:En; [| by apply sim_return]. destruct (find_id_get s g a Hb _ i En) as [Hi Hk].
    destruct (slots_lookup s g a Hb i Hi) as (q & o & Hq & _ & Hg & Hr). rewrite Hg in *. pose proof (io_mnb _ (ho_info _ _ (ba_heap _ _ _ Hb))) as Hmnb.
    assert (Hseq : _seq (msg_perm q) = seq_of o) by (destruct o as [sl|]; cbn in *; [by rewrite (used_perm _ _ _ _ _ Hr) | by destruct Hr as (_ & ? & _)]).
    apply wp_bind, (wp_get_id _ _ q); [done |]. rewrite Hseq, u64_small, <- (ba_info _ _ _ Hb) by lia.
    apply wp_bind, (wp_put_id _ _ q); [done |]. apply wp_ret. exists g. split; [| split; [done |]; split; [by apply kept_same | apply grows_put]].
    eapply base_put; [done | done |]. eapply new_queue_rel; [done | done |]. rewrite (ba_info _ _ _ Hb). lia.
Qed.

(** [ipcs_iter] gives every queue from the cursor on, once. *)
Lemma ipcs_iter_spec s g a is64 cursor ok : base_rel s g a →
  wp (ipcs_iter is64 cursor ok) (λ r s', s' = s ∧
    match r with
    | inl e => e = ERANGE ∧ ¬ (0 <= cursor < msgmni (info s)) ∨ e = EINVAL ∧ ok = false ∨
               e = ENOENT ∧ ∀ i sl, cursor <= i → get_slot i a = Some sl → live sl = false
    | inr (i, u) => cursor <= i ∧ ∃ sl, get_slot i a = Some sl ∧ live sl = true ∧
               u = (if is64 then msqid_ds_kerneltouser64 (stat_of sl) else msqid_ds_kerneltouser32 (stat_of sl)) ∧
               ∀ j sl', cursor <= j < i → get_slot j a = Some sl' → live sl' = false
    end) s.
Proof.
  intros Hb. unfold ipcs_iter. eapply wp_bind, wp_msginit; [exact Hb |]. cbn [negb]. apply wp_bind, wp_get.
  destruct (_ || _) eqn:E; [apply wp_ret; split; [done |]; left; split; [done |]; lia |].
  destruct ok; cbn [negb]; [| apply wp_ret; split; [done |]; right; by left].
  assert (Hslot : ∀ j sl, cursor <= j → get_slot j a = Some sl →
    ∃ q, drop (Z.to_nat cursor) (msqids s) !! Z.to_nat (j - cursor) = Some q ∧ used_rel s g (hl g (HQueue j)) q sl ∧ rd (msqids s) j = Ok q).
  { intros j sl Hj Hsl. destruct (base_get _ _ _ Hb j sl ltac:(lia) Hsl) as (q & Hq & Hu). exists q. split; [| done].
    rewrite lookup_drop. apply rd_lookup in Hq as [_ Hq]. by replace (Z.to_nat cursor + Z.to_nat (j - cursor))%nat with (Z.to_nat j) by lia. }
  assert (Hlive : ∀ l q sl, used_rel s g l q sl → negb (msg_qbytes q =? 0) = live sl) by (intros l q sl Hu; unfold live; by rewrite (slot_qbytes _ _ _ _ _ Hu)).
  destruct (find_id _ _ cursor) as [i|] eqn:Ef.
  - pose proof (find_id_first _ _ _ _ Ef) as Hfirst. apply find_id_some in Ef as (Hi & q & Hq & Hl). rewrite lookup_drop in Hq.
    replace (Z.to_nat cursor + Z.to_nat (i - cursor))%nat with (Z.to_nat i) in Hq by lia. pose proof (ho_ids _ _ (ba_heap _ _ _ Hb)) as Hids.
    unfold zlen in Hids. pose proof (lookup_lt_Some _ _ _ Hq) as Hlt. destruct (slots_lookup s g a Hb i ltac:(lia)) as (q' & o & Hq' & _ & Hg & Hr).
    assert (rd (msqids s) i = Ok q) as Hrd by (apply rd_lookup; split; [lia | done]). rewrite Hrd in Hq'. injection Hq' as <-.
    destruct o as [sl|]; cbn in Hr; [| destruct Hr as (Hz & _); by rewrite Hz in Hl].
    apply wp_bind, (wp_get_id _ _ q); [done |]. apply wp_ret. split; [done |]. split; [done |]. exists sl. split; [done |]. split; [by rewrite <- (Hlive _ _ _ Hr) |].
    destruct (stat_of_meta _ _ _ _ _ Hr) as [-> ->]. split; [done |]. intros j sl' Hj Hsl'. destruct (Hslot j sl') as (qj & Hqj & Huj & _); [lia | done |].
    rewrite <- (Hlive _ _ _ Huj). eapply Hfirst; [exact Hqj | lia].
  - apply wp_ret. split; [done |]. right; right. split; [done |]. intros i sl Hi Hsl. destruct (Hslot i sl Hi Hsl) as (q & Hq & Hu & _).
    rewrite <- (Hlive _ _ _ Hu). apply (find_id_none _ _ _ Ef q). by eapply list_elem_of_lookup_2.
Qed.
