(* ===== verification/MsgRecv.v ===== *)
(** * System V message queues: receiving

    Finding a message in the queue and taking it out. *)

From S2P Require Import Prelude Chain Ipc Msg MsgSpec MsgRel MsgSegs MsgBase MsgQueue MsgMove MsgSend MsgAlloc MsgInit MsgCalls.

(** ** Taking a header out of a list *)

Lemma path_skip nx nx' l0 p l2 h n i : path nx i (l0 ++ p :: h :: l2) (-1) → nx h = Ok n →
  (∀ y, y ∈ l0 ++ l2 → nx' y = nx y) → nx' p = Ok n → path nx' i (l0 ++ p :: l2) (-1).
Proof.
  intros Hp Hh Hk Hn. apply path_app in Hp as (j & Hp0 & -> & k & Hk1 & -> & n' & Hn' & Hp2). rewrite Hh in Hn'. injection Hn' as <-.
  apply path_app. exists p. split; [eapply path_ext; [exact Hp0 |]; intros y Hy; apply Hk, elem_of_app; by left |].
  split; [done |]. exists n. split; [done |]. eapply path_ext; [exact Hp2 |]. intros y Hy. apply Hk, elem_of_app. by right.
Qed.

Lemma last_app_cons {A} (l1 l2 : list A) x : last (l1 ++ x :: l2) = last (x :: l2).
Proof. induction l1 as [|y l1 IH]; [done |]. cbn [app]. rewrite last_cons, IH. by destruct (last (x :: l2)) eqn:E; [| apply last_None in E]. Qed.

Section take.
Context (s : state) (g : ghost) (i h : Z) (q : msqid_ds) (l1 l2 : list Z) (r : msg).
Let l := l1 ++ h :: l2.
Hypotheses (Hq : rd (msqids s) i = Ok q) (Hlo : list_ok s l q) (Hnd : NoDup l) (Hpos : ∀ x, x ∈ l → 0 <= x) (Hr : rd (msghdrs s) h = Ok r).

(** The state after the header [h] has been taken out. *)
Definition taken (s1 : state) : Prop :=
  ∃ hdrs' f la, s1 = with_ids (<[Z.to_nat i := set_list f la q]> (msqids s)) (with_hdrs hdrs' s) ∧
    links (msghdrs s) hdrs' (λ x, x ∉ l) ∧ chain (hnext s1) f (l1 ++ l2) ∧ ∀ x, last (l1 ++ l2) = Some x → la = x.

Lemma taken_first f la : l1 = [] → f = msg_next r → (∀ x, last l2 = Some x → la = x) →
  taken (with_ids (<[Z.to_nat i := set_list f la q]> (msqids s)) s).
Proof.
  intros E -> Hla. exists (msghdrs s), (msg_next r), la. split; [by destruct s |]. split; [apply links_refl |]. unfold l in Hlo. rewrite E in *. split; [| exact Hla].
  destruct Hlo as [(_ & n & Hn & Hc) _]. unfold hnext in Hn. rewrite Hr in Hn. injection Hn as <-. exact Hc.
Qed.

(** The last header of the list is the one taken out, or stays. *)
Lemma last_taken : (h =? msg_last q) = bool_decide (l2 = []).
Proof.
  destruct Hlo as [_ Hlast]. unfold l in *. rewrite last_app_cons in Hlast. clear - Hlast Hnd. destruct l2 as [|y l3].
  - rewrite (Hlast h eq_refl). apply Z.eqb_refl.
  - destruct (last (h :: y :: l3)) as [z|] eqn:E; [| by apply last_None in E]. rewrite (Hlast z eq_refl). apply Z.eqb_neq. intros <-.
    apply NoDup_app in Hnd as (_ & _ & Hnd'). apply NoDup_cons in Hnd' as [Hn _]. apply Hn. rewrite last_cons_cons in E. by apply last_Some_elem_of.
Qed.

Lemma next_taken : msg_next r = -1 ↔ l2 = [].
Proof.
  destruct Hlo as [Hc _]. unfold l in Hc. apply path_app in Hc as (j & _ & -> & n & Hn & Hc). unfold hnext in Hn. rewrite Hr in Hn. injection Hn as <-.
  split.
  - intros E. rewrite E in Hc. apply (chain_nil (hnext s)); [| done]. intros x Hx. apply Hpos. unfold l. apply elem_of_app. right. by constructor.
  - intros E. by rewrite E in Hc.
Qed.

(** [prev] is the place that points to [h]. *)
Definition at_pos (prev : href) (previous : Z) : Prop :=
  match last l1 with
  | None => prev = QFirst i ∧ previous = -1
  | Some p => prev = HNext p ∧ previous = p
  end.

Lemma extract_first previous prev : l1 = [] → at_pos prev previous → wp (extract i h previous prev) (λ _, taken) s.
Proof.
  intros E Hp. unfold at_pos in Hp. rewrite E in Hp. destruct Hp as [-> ->]. unfold extract. apply wp_bind, (wp_get_hdr _ _ r); [done |].
  apply wp_bind. unfold write_href. apply wp_bind, (wp_get_id _ _ q); [done |]. apply (wp_put_id _ _ q); [done |].
  set (q1 := set_list (msg_next r) (msg_last q) q). assert (Hq1 : rd (<[Z.to_nat i := q1]> (msqids s)) i = Ok q1) by (by eapply rd_insert_eq).
  apply wp_bind, (wp_get_id _ _ q1); [done |]. cbn [msg_last q1 set_list]. rewrite last_taken. case_bool_decide as E2.
  - cbn [Z.eqb]. apply (wp_put_id _ _ q1); [done |]. pose proof (proj2 next_taken E2) as Hn. cbn. unfold with_ids. cbn. rewrite list_insert_insert_eq.
    apply (taken_first (-1) (-1)); [done | done |]. by rewrite E2.
  - apply wp_ret. apply (taken_first (msg_next r) (msg_last q)); [done | done |]. destruct Hlo as [_ Hlast]. intros x Hx. apply Hlast. unfold l.
    rewrite last_app_cons, last_cons, Hx. done.
Qed.

(** [h] comes after [p]. *)
Lemma extract_after previous prev l0 p : l1 = l0 ++ [p] → at_pos prev previous → wp (extract i h previous prev) (λ _, taken) s.
Proof.
  intros E Hp. unfold at_pos in Hp. rewrite E, last_snoc in Hp. destruct Hp as [-> ->]. unfold extract. apply wp_bind, (wp_get_hdr _ _ r); [done |].
  assert (Hpl : p ∈ l) by (unfold l; rewrite E; apply elem_of_app; left; apply elem_of_app; right; by constructor).
  pose proof Hlo as [Hc Hlast]. unfold l in Hc. rewrite E in Hc. rewrite <- app_assoc in Hc. cbn [app] in Hc.
  assert (∃ rp, rd (msghdrs s) p = Ok rp) as [rp Hrp].
  { apply path_app in Hc as (j & _ & -> & n & Hn & _). unfold hnext in Hn. destruct (rd (msghdrs s) p); [by eexists | done]. }
  apply wp_bind. unfold write_href. apply wp_bind, (wp_get_hdr _ _ rp); [done |]. apply (wp_put_hdr _ _ rp); [done |].
  set (hdrs' := <[Z.to_nat p := set_next (msg_next r) rp]> (msghdrs s)).
  assert (Hlk : links (msghdrs s) hdrs' (λ x, x ∉ l)) by (apply links_put; [apply links_refl | done | by intros []]).
  assert (Hp0 : 0 <= p) by (by apply Hpos).
  assert (Hch : ∀ ids, chain (hnext (with_ids ids (with_hdrs hdrs' s))) (msg_first q) (l1 ++ l2)).
  { intros ids. rewrite E, <- app_assoc. cbn [app]. eapply path_skip; [exact Hc | unfold hnext; by rewrite Hr | |].
    - intros y Hy. unfold hnext. cbn. unfold hdrs'. rewrite rd_insert_ne; [done | done |]. intros <-. revert Hnd. unfold l. rewrite E, <- app_assoc. cbn [app].
      intros (_ & H0 & Hn%NoDup_cons)%NoDup_app. apply elem_of_app in Hy as [Hy|Hy]; [apply (H0 p Hy); by constructor |]. apply Hn. by constructor.
    - unfold hnext. cbn. unfold hdrs'. by rewrite (rd_insert_eq _ _ rp). }
  apply wp_bind, (wp_get_id _ _ q); [done |]. rewrite last_taken. rewrite (proj2 (Z.eqb_neq p (-1))) by lia. case_bool_decide as E2.
  - apply (wp_put_id _ _ q); [done |]. exists hdrs', (msg_first q), p. split; [done |]. split; [done |]. split; [apply Hch |].
    rewrite E, E2, app_nil_r, last_snoc. by intros x [= ->].
  - apply wp_ret. exists hdrs', (msg_first q), (msg_last q). split; [| split; [done |]; split; [apply Hch |]].
    + unfold with_ids, with_hdrs. cbn. rewrite list_insert_id; [done |]. apply rd_lookup in Hq as [_ ->]. by destruct q.
    + intros x Hx. apply Hlast. unfold l. rewrite last_app_cons, last_cons. destruct (last l2) as [z|] eqn:Ez; [| by apply last_None in Ez].
      apply last_Some in Ez as [k Hk]. rewrite Hk, app_assoc, last_snoc in Hx. by injection Hx as ->.
Qed.

Lemma extract_spec previous prev : at_pos prev previous → wp (extract i h previous prev) (λ _, taken) s.
Proof.
  intros Hp. destruct (last l1) as [p|] eqn:E; [apply last_Some in E as [l0 E] | apply last_None in E]; [by eapply extract_after | by apply extract_first].
Qed.

End take.

(** ** Finding a message *)

Lemma pick_app typ m1 m m2 : (∀ m', m' ∈ m1 → (typ =? 0) || matches typ (m_type m') = false) →
  (typ =? 0) || matches typ (m_type m) = true → pick typ (m1 ++ m :: m2) = Some (m, m1 ++ m2).
Proof.
  intros Hm1 Hm. induction m1 as [|m' m1 IH]; cbn; [by rewrite Hm |]. rewrite (Hm1 m') by constructor. rewrite IH; [done |].
  intros m'' H. apply Hm1. by constructor.
Qed.

Lemma pick_none typ l : (∀ m, m ∈ l → (typ =? 0) || matches typ (m_type m) = false) → pick typ l = None.
Proof.
  induction l as [|m l IH]; intros H; [done |]. cbn. rewrite (H m) by constructor. rewrite IH; [done |]. intros m' Hm'. apply H. by constructor.
Qed.

Section find.
Context (mac : Z) (x : rcv_args) (s : state) (g : ghost) (i : Z) (q : msqid_ds) (sl : aslot).
Hypotheses (Hok : heap_ok s g) (Hq : rd (msqids s) i = Ok q) (Hu : used_rel s g (hl g (HQueue i)) q sl) (Hlive : live sl = true).

(** What the two ways of looking for a message have in common. *)
Definition picked (r : Z + option Z) (s1 : state) : Prop :=
  match pick (rc_typ x) (sl_msgs sl) with
  | None => r = inr None ∧ s1 = s
  | Some (m, rest) =>
      if too_big x (zlen (m_text m)) then r = inl E2BIG ∧ s1 = s
      else if negb (mac =? 0) then r = inl mac ∧ s1 = s
      else ∃ l1 h l2, hl g (HQueue i) = l1 ++ h :: l2 ∧ r = inr (Some h) ∧ hdr_has s g h m ∧ Forall2 (hdr_has s g) (l1 ++ l2) rest ∧
                      taken s i h q l1 l2 s1
  end.

Lemma queue_nonneg h : h ∈ hl g (HQueue i) → 0 <= h.
Proof. intros Hh. by apply (pa_range _ _ (ho_hparts _ _ Hok)) in Hh as [? _]. Qed.

Lemma take_first_spec : rc_typ x = 0 → wp (take_first mac x i) picked s.
Proof.
  intros Hty. destruct Hu as [_ Hm _ _ _ Hlo _]. specialize (Hlo Hlive). unfold take_first, picked. rewrite Hty. apply wp_bind, (wp_get_id _ _ q); [done |].
  pose proof (pa_nodup _ _ (ho_hparts _ _ Hok) (HQueue i)) as Hnd. pose proof queue_nonneg as Hpos. pose proof Hlo as [Hc _].
  destruct Hm as [|h m l msgs Hh Hm]; [cbn in Hc; rewrite Hc; by apply wp_ret |]. destruct Hc as (-> & _). cbn [pick Z.eqb orb].
  destruct (Z.eqb_spec h (-1)); [specialize (Hpos h ltac:(constructor)); lia |]. pose proof Hh as (r & Hr & _ & Hts & _). pose proof (hd_rd _ _ _ _ Hr) as Hrd.
  apply wp_bind, (wp_get_hdr _ _ r); [done |]. rewrite Hts. destruct (too_big x _); [by apply wp_ret |]. destruct (mac =? 0); cbn [negb]; [| by apply wp_ret].
  rewrite (last_taken s h q [] l Hlo Hnd). assert (Hdone : ∀ f la, f = msg_next r → (∀ y, last l = Some y → la = y) →
    ∃ l1 h' l2, h :: l = l1 ++ h' :: l2 ∧ inr (Some h) = inr (Some h') :> Z + option Z ∧ hdr_has s g h' m ∧ Forall2 (hdr_has s g) (l1 ++ l2) msgs ∧
      taken s i h' q l1 l2 (with_ids (<[Z.to_nat i := set_list f la q]> (msqids s)) s)).
  { intros f la Hf Hla. exists [], h, l. split; [done |]. split; [done |]. split; [done |]. split; [done |]. by eapply (taken_first s i h q [] l r). }
  pose proof (next_taken s h q [] l r Hlo Hpos Hrd) as Hnext. case_bool_decide as E.
  - apply wp_bind, (wp_put_id _ _ q); [done |]. apply wp_ret, Hdone; [symmetry; by apply Hnext | by rewrite E].
  - apply wp_bind, (wp_put_id _ _ q); [done |]. destruct (Z.eqb_spec (msg_next r) (-1)) as [En|_]; [by destruct E; apply Hnext |].
    apply wp_ret, Hdone; [done |]. intros y Hy. destruct Hlo as [_ Hlast]. apply Hlast. by rewrite last_cons, Hy.
Qed.

(** The headers before [prev] do not match. *)
Lemma search_spec fuel : rc_typ x ≠ 0 → ∀ l2 m2 l1 m1 prev previous, hl g (HQueue i) = l1 ++ l2 → sl_msgs sl = m1 ++ m2 →
  Forall2 (hdr_has s g) l1 m1 → Forall2 (hdr_has s g) l2 m2 → at_pos i l1 prev previous →
  (∀ m, m ∈ m1 → matches (rc_typ x) (m_type m) = false) → (length l2 < fuel)%nat →
  wp (search fuel mac x i previous prev) picked s.
Proof.
  intros Hty. pose proof (us_live _ _ _ _ _ Hu Hlive) as Hlo. pose proof (pa_nodup _ _ (ho_hparts _ _ Hok) (HQueue i)) as Hnd. pose proof queue_nonneg as Hpos.
  assert (Ht0 : ∀ b, (rc_typ x =? 0) || b = b) by (intros b; by rewrite (proj2 (Z.eqb_neq _ _) Hty)).
  induction fuel as [|fuel IH]; intros l2 m2 l1 m1 prev previous Hl Hms H1 H2 Hp Hno Hf; [lia |]. cbn [search]. apply wp_bind.
  assert (Hread : ∃ h, wp (read_href prev) (λ h' s', h' = h ∧ s' = s) s ∧ chain (hnext s) h l2).
  { destruct Hlo as [Hc _]. rewrite Hl in Hc. unfold at_pos in Hp. destruct (last l1) as [p|] eqn:El.
    - apply last_Some in El as [l0 ->]. destruct Hp as [-> ->]. rewrite <- app_assoc in Hc. apply path_app in Hc as (j & _ & -> & n & Hn & Hc). exists n. split; [| done].
      unfold hnext in Hn. destruct (rd (msghdrs s) p) as [rp|] eqn:Hrp; [| done]. injection Hn as <-. by apply wp_bind, (wp_get_hdr _ _ rp).
    - apply last_None in El as ->. destruct Hp as [-> ->]. exists (msg_first q). split; [| done]. by apply wp_bind, (wp_get_id _ _ q). }
  destruct Hread as (h & Hrd & Hc). eapply wp_mono; [exact Hrd |]. intros ? ? [-> ->]. destruct H2 as [|h' m l2 m2 Hh H2].
  { cbn in Hc. rewrite Hc. cbn [Z.eqb]. apply wp_ret. unfold picked. rewrite Hms, app_nil_r, pick_none; [done |]. intros m Hm. rewrite Ht0. by apply Hno. }
  destruct Hc as (-> & _). assert (Hin : h' ∈ hl g (HQueue i)) by (rewrite Hl; apply elem_of_app; right; by constructor).
  destruct (Z.eqb_spec h' (-1)); [specialize (Hpos h' Hin); lia |]. pose proof Hh as (r & Hr & Hmt & Hts & _). pose proof (hd_rd _ _ _ _ Hr) as Hr'.
  apply wp_bind, (wp_get_hdr _ _ r); [done |]. rewrite Hmt. destruct (matches (rc_typ x) (m_type m)) eqn:Em.
  - assert (Hpick : pick (rc_typ x) (sl_msgs sl) = Some (m, m1 ++ m2)).
    { rewrite Hms. apply pick_app; [intros m' Hm'; rewrite Ht0; by apply Hno | by rewrite Ht0]. }
    unfold picked. rewrite Hpick, Hts. destruct (too_big x _); [by apply wp_ret |]. destruct (mac =? 0); cbn [negb]; [| by apply wp_ret].
    apply wp_bind. rewrite Hl in Hlo, Hnd, Hpos. eapply wp_mono; [by apply (extract_spec s i h' q l1 l2 r) |]. intros ? s1 Ht. apply wp_ret.
    exists l1, h', l2. do 3 (split; [done |]). split; [by apply Forall2_app | done].
  - apply (IH l2 m2 (l1 ++ [h']) (m1 ++ [m])); rewrite <- ?app_assoc; try done; cbn in Hf; [by apply Forall2_app; [| constructor] | by unfold at_pos; rewrite last_snoc | | lia].
    intros m' [Hm'|Hm']%elem_of_app; [by apply Hno |]. apply elem_of_cons in Hm' as [->|Hm']; [done | by apply elem_of_nil in Hm'].
Qed.

Lemma find_spec : wp (if rc_typ x =? 0 then take_first mac x i else search (S (length (msghdrs s))) mac x i (-1) (QFirst i)) picked s.
Proof.
  destruct (Z.eqb_spec (rc_typ x) 0) as [E|E]; [by apply take_first_spec |].
  apply (search_spec _ E (hl g (HQueue i)) (sl_msgs sl) [] []); try done; [apply Hu | by intros m ?%elem_of_nil |].
  pose proof (parts_length _ _ (HQueue i) (ho_hparts _ _ Hok)) as H. rewrite <- (ho_hdrs _ _ Hok) in H. unfold zlen in H. lia.
Qed.

End find.

(** ** The loop *)

Section dequeue.
Context (t : nat) (s : state) (g : ghost) (a : astate) (i : Z) (q : msqid_ds) (sl : aslot) (l1 l2 : list Z) (h : Z) (m : amsg) (rest : list amsg).
Hypotheses (Hb : base_rel s g a) (Hq : rd (msqids s) i = Ok q) (Hu : used_rel s g (hl g (HQueue i)) q sl) (Hlive : live sl = true).
Hypotheses (Ht : hl g (HThread t) = []) (Hl : hl g (HQueue i) = l1 ++ h :: l2).
Hypotheses (Hm : hdr_has s g h m) (Hrest : Forall2 (hdr_has s g) (l1 ++ l2) rest).
Hypotheses (Hby : bytes (sl_msgs sl) = zlen (m_text m) + bytes rest) (Hze : zlen (sl_msgs sl) = zlen rest + 1).

Lemma dequeued_spec p now s1 : taken s i h q l1 l2 s1 →
  wp (dequeued p now i h) (λ r s', ∃ g', base_rel s' g' (put_slot i (ASlot (set_received p now (sl_meta sl)) rest) a) ∧
    hl g' (HThread t) = [h] ∧ hdr_has s' g' h m ∧ frame t s g s' g' ∧ info s' = info s ∧ msg_ts r = zlen (m_text m) ∧ msg_type r = m_type m) s1.
Proof.
  intros (hdrs' & f & la & -> & Hlk & Hc & Hla). pose proof Hm as (r0 & Hr0 & Hty & Hts & Htx). pose proof (ba_heap _ _ _ Hb) as Hok.
  destruct (lk_hdr _ _ _ Hlk h r0 (hd_rd _ _ _ _ Hr0)) as [n Hn]. set (r := set_next n r0) in *. set (q1 := set_list f la q) in *.
  unfold dequeued. apply wp_bind, (wp_get_hdr _ _ r); [done |]. apply wp_bind, (wp_get_id _ _ q1); [cbn; by eapply rd_insert_eq |].
  apply wp_bind, (wp_put_id _ _ q1); [cbn; by eapply rd_insert_eq |]. apply wp_ret. set (q2 := set_received _ _ _). cbn [msqids with_ids]. unfold with_ids at 1. cbn. rewrite list_insert_insert_eq.
  destruct (move_base s g a t i h q q2 (HQueue i) (HThread t) (l1 ++ l2) [h] hdrs' Hb Hq) with (sl := ASlot (set_received p now (sl_meta sl)) rest) as [Hb' Hf].
  { by right. } { rewrite Hl. by rewrite Permutation_middle. } { by rewrite Ht. }
  { destruct Hlk as [? ? Hk]. split; [done | done |]. intros y [Hy _]. apply Hk. by rewrite <- Hl. }
  - cbn [hl]. rewrite move_from by done. destruct (count_bounds _ _ _ _ _ Hok eq_refl (us_msgs _ _ _ _ _ Hu)) as [Hb1 Hb2].
    pose proof (zlen_nonneg rest). pose proof (zlen_nonneg (m_text m)). destruct (bytes_bound _ _ _ _ Hrest) as [Hb3 _].
    destruct Hu as [Hme _ Hcb Hqn Hqb _ _]. split; cbn [sl_meta sl_msgs].
    + by rewrite <- Hme.
    + eapply Forall2_in; [exact Hrest |]. intros y my _ Hy. by eapply hdr_has_links.
    + cbn. rewrite Hcb, Hts, u64_small; lia.
    + cbn. rewrite Hqn, u64_small; lia.
    + done.
    + intros _. split; [exact Hc | exact Hla].
    + intros H'. exfalso. revert Hlive. unfold live in *. cbn in H'. by rewrite H'.
  - eexists. split; [exact Hb' |]. split; [cbn; by rewrite move_to |]. split; [| done]. eapply hdr_has_links; [exact Hlk |]. done.
Qed.

End dequeue.

Lemma pick_counts typ l : ∀ m rest, pick typ l = Some (m, rest) → bytes l = zlen (m_text m) + bytes rest ∧ zlen l = zlen rest + 1.
Proof.
  induction l as [|m0 l IH]; intros m rest; cbn [pick]; [done |]. destruct (_ || _).
  - intros [= <- <-]. rewrite bytes_cons, zlen_cons. lia.
  - destruct (pick typ l) as [[m' l']|]; [| done]. intros [= <- <-]. destruct (IH m' l' eq_refl). rewrite !bytes_cons, !zlen_cons. lia.
Qed.

Lemma rcv_loop_spec mac now t s g a x : base_rel s g a → hl g (HThread t) = [] → used a (IPCID_TO_IX (rc_id x)) → 0 <= rc_size x →
  (∀ sl, get_slot (IPCID_TO_IX (rc_id x)) a = Some sl → live sl = true) →
  wp (rcv_loop mac now x) (sim t s g a (spec_rcv_loop mac now x a)) s.
Proof.
  intros Hb Ht Hused Hsz Hlive. pose proof Hused as [Hi [sl Hsl]]. unfold rcv_loop, spec_rcv_loop. set (i := IPCID_TO_IX (rc_id x)) in *. rewrite Hsl. specialize (Hlive sl Hsl).
  destruct (base_get _ _ _ Hb i sl Hi Hsl) as (q & Hq & Hu). apply wp_bind, wp_get. apply wp_bind.
  eapply wp_mono; [by apply (find_spec mac x s g i q sl (ba_heap _ _ _ Hb)) |]. intros r s1. unfold picked.
  destruct (pick (rc_typ x) (sl_msgs sl)) as [[m rest]|] eqn:Ep.
  - destruct (too_big x _); [intros [-> ->]; by apply sim_return |]. destruct (mac =? 0); cbn [negb]; [| intros [-> ->]; by apply sim_return].
    intros (l1 & h & l2 & Hl & -> & Hm & Hrest & Htk). destruct (pick_counts _ _ _ _ Ep) as [Hby Hze]. apply wp_bind.
    eapply wp_mono; [by apply (dequeued_spec t s g a i q sl l1 l2 h m rest Hb Hq Hu Hlive Ht Hl Hm Hrest Hby Hze (rc_proc x) now) |].
    intros r' s' (g' & Hb' & Ht' & Hm' & Hf & _ & Hts & Hty). apply wp_ret. exists g'. split; [done |]. rewrite Hts, Hty. split; [| split; [done | apply grows_put]].
    do 4 (split; [done |]). split; [| done]. unfold rcv_size. destruct (Z.gtb_spec (rc_size x) (zlen (m_text m))); lia.
  - intros [-> ->]. destruct (tst (rc_flg x) IPC_NOWAIT); [by apply sim_return | by apply wp_ret, sim_here].
Qed.

Lemma msgrcv_spec t s g a p is64 c mac mac_rcv now id msgsz msgtyp msgflg : base_rel s g a → hl g (HThread t) = [] → 0 <= msgsz →
  wp (msgrcv p is64 c mac mac_rcv now id msgsz msgtyp msgflg) (sim t s g a (spec_rcv p is64 c mac mac_rcv now id msgsz msgtyp msgflg a)) s.
Proof.
  intros Hb Ht Hsz. unfold msgrcv, spec_rcv. destruct (find_queue_spec s g a Hb id) as (r' & -> & Hw). apply wp_bind.
  eapply wp_mono; [exact Hw |]. intros r ? [-> [|q sl i Hu Hsl Hlive Hq Hus]]; [by apply sim_return |]. rewrite (used_perm _ _ _ _ _ Hus).
  destruct (_ =? 0); cbn [negb]; [| by apply sim_return]. destruct (mac =? 0); cbn [negb]; [| by apply sim_return].
  apply rcv_loop_spec; try done. cbn [rc_id]. intros sl' Hsl'. fold i in Hsl'. rewrite Hsl in Hsl'. by injection Hsl' as <-.
Qed.

Lemma rcv_wake_spec mac now t s g a x err : base_rel s g a → phase_rel s g a t (RcvSleep x) (ARcvSleep x) →
  wp (rcv_wake mac now x err) (sim t s g a (spec_rcv_wake mac now x err a)) s.
Proof.
  intros Hb (_ & Hused & Hsz & Ht). pose proof Hused as [Hi [sl Hsl]]. unfold rcv_wake, spec_rcv_wake. rewrite Hsl.
  destruct (base_get _ _ _ Hb _ sl Hi Hsl) as (q & Hq & Hu). destruct (err =? 0); cbn [negb]; [| by apply sim_return].
  apply wp_bind, (wp_get_id _ _ q); [done |]. assert (Hlv : live sl = negb (msg_qbytes q =? 0)) by (unfold live; by rewrite (slot_qbytes _ _ _ _ _ Hu)).
  rewrite <- (used_perm _ _ _ _ _ Hu). rewrite Hlv. destruct (msg_qbytes q =? 0) eqn:Eq; cbn [negb orb andb]; [by apply sim_return |].
  destruct (_ =? IPCID_TO_SEQ _); cbn [negb]; [| by apply sim_return]. apply rcv_loop_spec; try done.
  intros sl' Hsl'. rewrite Hsl in Hsl'. injection Hsl' as <-. by rewrite Hlv.
Qed.
