(* ===== verification/MsgCopyout.v ===== *)
(** * System V message queues: copying a message out

    The sections of [msgrcv] that run after the type or a segment has been
    copied to user memory. *)

From S2P Require Import Prelude Chain Ipc Msg MsgSpec MsgRel MsgSegs MsgBase MsgQueue MsgMove MsgSend MsgText.

Lemma rcv_end_spec t s g a x h m eval rval ty text : base_rel s g a → hl g (HThread t) = [h] → hdr_has s g h m →
  wp (rcv_end x h eval rval ty text) (sim t s g a (spec_rcv_end x m eval rval ty text a)) s.
Proof.
  intros Hb Ht (r & Hr & _ & Hts & _). unfold rcv_end, spec_rcv_end. rewrite <- Hts. by apply end_spec.
Qed.

(** The characters of the next segment that the user asks for. *)
Lemma prefix_take {A} (u v : list A) n : u `prefix_of` v → (n <= length u)%nat → take n u = take n v.
Proof. intros [k ->] Hn. by rewrite take_app_le. Qed.

Section text.
Context (s : state) (g : ghost) (h : Z) (r : msg) (m : amsg) (x : rcv_args) (l1 l3 : list Z) (next : Z) (text : list Z).
Hypotheses (Hok : heap_ok s g) (Hr : hdr_ok s g h r) (Hts : msg_ts r = zlen (m_text m)).
Hypotheses (Htx : m_text m `prefix_of` text_of s (sg g (SHdr h))) (Hsg : sg g (SHdr h) = l1 ++ next :: l3) (Ht : text_of s l1 = text).
Hypotheses (Hlt : zlen text < rcv_size x m) (Hnext : 0 <= next < msgseg (info s)).

Lemma rcv_more : take (Z.to_nat (Z.min (rcv_size x m - zlen text) (msgssz (info s)))) (seg_text s next) =
  take (Z.to_nat (msgssz (info s))) (drop (length text) (rcv_text x m)).
Proof.
  pose proof (seg_text_len s g Hok next Hnext) as Hsl. pose proof (io_ssz _ (ho_info _ _ Hok)).
  unfold rcv_text, rcv_size in *. set (n := Z.min (rc_size x) (zlen (m_text m))) in *. rewrite skipn_firstn_comm, take_take.
  assert (Hpre : drop (length text) (m_text m) `prefix_of` seg_text s next ++ text_of s l3).
  { destruct Htx as [k Hk]. rewrite Hsg, text_of_app, Ht in Hk. exists k. change (text_of s (next :: l3)) with (seg_text s next ++ text_of s l3) in Hk.
    assert (Hd : drop (length text) (text ++ seg_text s next ++ text_of s l3) = drop (length text) (m_text m ++ k)) by (by rewrite Hk).
    rewrite drop_app_length in Hd. rewrite Hd. rewrite drop_app_le; [done |]. unfold zlen in *. lia. }
  replace (Z.to_nat (msgssz (info s)) `min` (Z.to_nat n - length text))%nat with (Z.to_nat (Z.min (n - zlen text) (msgssz (info s)))) by (unfold zlen in *; lia).
  rewrite (prefix_take _ _ _ Hpre) by (rewrite length_drop; unfold zlen in *; lia). rewrite take_app_le; [done |]. unfold zlen in *. lia.
Qed.

End text.

(** The next segment, or the end. *)
Lemma rcv_next_spec t s g a x h m r l1 l2 next len text : base_rel s g a → hl g (HThread t) = [h] → hdr_has s g h m → 0 <= rc_size x →
  rd (msghdrs s) h = Ok r → sg g (SHdr h) = l1 ++ l2 → (len < rcv_size x m → at_seg s r l1 next text ∧ len = zlen text) →
  (rcv_size x m <= len → zlen text = rcv_size x m) →
  wp (rcv_next x h next len (rcv_size x m) (rcv_mtype x m) text) (sim t s g a (spec_rcv_next x m text a)) s.
Proof.
  intros Hb Ht Hm Hsz Hrd Hsg Hlt Hge. unfold rcv_next, spec_rcv_next. destruct (Z.ltb_spec len (rcv_size x m)) as [Hl|Hl].
  - destruct (Hlt Hl) as [Ha ->]. destruct (Z.ltb_spec (zlen text) (rcv_size x m)); [| lia]. apply wp_bind, wp_get.
    pose proof Hm as (r' & Hr' & _ & Hts & _). pose proof (hd_rd _ _ _ _ Hr') as Hrd'. rewrite Hrd in Hrd'. injection Hrd' as <-.
    destruct (at_seg_more s g (ba_heap _ _ _ Hb) h r l1 l2 next text Hr' Hsg Ha) as (l3 & nx & -> & Hn & _); [unfold rcv_size in *; lia |].
    destruct (Z.leb_spec next (-1)); [lia |]. destruct (Z.geb_spec next (msgseg (info s))); [lia |]. apply wp_ret, sim_here; [done |].
    do 9 (split; [done |]). by exists r, l1, (next :: l3).
  - rewrite (Hge Hl). rewrite Z.ltb_irrefl. by apply rcv_end_spec.
Qed.

Lemma rcv_type_spec t s g a x h size ty m eval : base_rel s g a → phase_rel s g a t (RcvType x h size ty) (ARcvType x m) →
  wp (rcv_type x h size ty eval) (sim t s g a (spec_rcv_type x m eval a)) s.
Proof.
  intros Hb (_ & Hsz & Ht & Hm & -> & ->). unfold rcv_type, spec_rcv_type. destruct (eval =? 0); cbn [negb]; [| by apply rcv_end_spec].
  pose proof Hm as (r & Hr & _). apply wp_bind, (wp_get_hdr _ _ r); [apply Hr |].
  eapply (rcv_next_spec t s g a x h m r [] (sg g (SHdr h))); try done; [apply Hr |]. unfold rcv_size. pose proof (zlen_nonneg (m_text m)). unfold zlen at 2. cbn. lia.
Qed.

Lemma rcv_seg_spec t s g a x h next len size ty text m eval got :
  base_rel s g a → phase_rel s g a t (RcvSeg x h next len size ty text) (ARcvSeg x m text) →
  wp (rcv_seg x h next len size ty text eval got) (sim t s g a (spec_rcv_seg x m text eval got a)) s.
Proof.
  intros Hb (_ & Hsz & Ht & Hm & -> & -> & _ & -> & Hlt & r & l1 & l2 & Hrd & Hsg & Ha). pose proof (ba_heap _ _ _ Hb) as Hok.
  pose proof (io_ssz _ (ho_info _ _ Hok)) as Hssz. pose proof Hm as (r' & Hr & Hty & Hts & Htx). pose proof (hd_rd _ _ _ _ Hr) as Hrd'. rewrite Hrd in Hrd'. injection Hrd' as <-.
  destruct (at_seg_more s g Hok h r l1 l2 next text Hr Hsg Ha) as (l3 & nx & -> & Hn & Hnx); [unfold rcv_size in *; lia |].
  pose proof (seg_bound s g Hok next Hn) as Hbd. pose proof (seg_text_len s g Hok next Hn) as Hsl. unfold rcv_seg, spec_rcv_seg. apply wp_bind, wp_get.
  set (tlen := Z.min _ _). set (more := take _ (drop (length text) _)).
  assert (Hmore : more = take (Z.to_nat tlen) (seg_text s next)) by (unfold more, tlen; rewrite (ba_info _ _ _ Hb); symmetry; eapply rcv_more; try done; apply Ha).
  assert (Hslice : slice (msgpool s) (next * msgssz (info s)) tlen = Ok more).
  { assert (0 < tlen <= msgssz (info s)) by lia. unfold slice. destruct (_ && _) eqn:E; [| unfold zlen in Hbd; lia]. rewrite Hmore. unfold seg_text. rewrite take_take. do 2 f_equal. unfold tlen. lia. }
  apply wp_bind. unfold wp at 1, liftr. rewrite Hslice. cbn [mbind res_bind]. destruct (eval =? 0); cbn [negb]; [| by apply rcv_end_spec].
  apply wp_bind, (wp_get_map _ _ nx); [done |]. assert (Hml : zlen more = tlen) by (rewrite Hmore; unfold zlen; rewrite length_take; unfold tlen; lia).
  assert (Htl : zlen (text ++ more) = zlen text + tlen) by (unfold zlen in *; rewrite length_app; lia).
  eapply (rcv_next_spec t s g a x h m r (l1 ++ [next]) l3); try done; [by rewrite <- app_assoc | | unfold tlen in *; lia].
  intros Hlt'. assert (tlen = msgssz (info s)) as Et by (unfold tlen; lia). split; [| lia].
  assert (more = seg_text s next) as -> by (rewrite Hmore, take_ge; [done | lia]). by apply at_seg_step.
Qed.
