(* ===== verification/MsgRun.v ===== *)
(** * System V message queues: runs

    Any number of threads make calls.  A call is a sequence of sections; the
    sections of different threads may come in any order. *)

From S2P Require Import Prelude Chain Ipc Msg MsgSpec MsgRel MsgSegs MsgBase MsgQueue MsgMove MsgSend MsgText MsgCopyin MsgAlloc MsgInit MsgCalls MsgGet MsgRecv MsgCopyout.

(** ** Runs *)

Record sys := Sys { kernel : state; threads : gmap nat phase }.

(** The sections, with what the thread's user, the memory it copies from and to
    and the scheduler decide. *)
Inductive action :=
  | Get (c : cred) (mac now key msgflg : Z)
  | Ctl (is64 : bool) (c : cred) (mac : Z) (mac_rmid : nat → Z) (id : Z) (cmd : msgctl_cmd)
  | Snd (p : Z) (c : cred) (mac id msgsz msgflg : Z)
  | Rcv (p : Z) (is64 : bool) (c : cred) (mac mac_rcv now id msgsz msgtyp msgflg : Z)
  | Copied (eval : Z)
  | CopiedSet (now eval : Z) (b : user_msqid)
  | CopiedType (mac now eval type : Z)
  | CopiedIn (mac now eval : Z) (text : list Z)
  | CopiedOut (eval : Z) (got : nat)
  | Woken (mac now err : Z).

Definition returned (ph : option phase) : bool :=
  match ph with None | Some (Return _ _) | Some (StatReturn _) | Some (RcvReturn _ _ _ _) => true | _ => false end.

(** The section that a thread in the phase [ph] runs. *)
Definition section (e : action) (ph : option phase) : option (M phase) :=
  match e, ph with
  | Copied eval, Some (StatCopyout is64 i) => Some (ipc_stat is64 i eval)
  | CopiedSet now eval b, Some (SetCopyin c i) => Some (ipc_set now c i eval b)
  | CopiedType mac now eval type, Some (SndType a h) => Some (snd_type mac now a h eval type)
  | CopiedIn mac now eval text, Some (SndSeg a h next rest) => Some (snd_seg mac now a h next rest eval text)
  | Copied eval, Some (RcvType a h size type) => Some (rcv_type a h size type eval)
  | CopiedOut eval got, Some (RcvSeg a h next len size type text) => Some (rcv_seg a h next len size type text eval got)
  | Woken mac now err, Some (SndSleep a own c) => Some (snd_wake a own err)
  | Woken mac now err, Some (RcvSleep a) => Some (rcv_wake mac now a err)
  | Get c mac now key msgflg, ph => if returned ph then Some (msgget c mac now key msgflg) else None
  | Ctl is64 c mac mac_rmid id cmd, ph => if returned ph then Some (msgctl is64 c mac mac_rmid id cmd) else None
  | Snd p c mac id msgsz msgflg, ph => if returned ph then Some (msgsnd p c mac id msgsz msgflg) else None
  | Rcv p is64 c mac mac_rcv now id msgsz msgtyp msgflg, ph =>
      if returned ph then Some (msgrcv p is64 c mac mac_rcv now id msgsz msgtyp msgflg) else None
  | _, _ => None
  end.

Definition step (t : nat) (e : action) (y : sys) : option (res sys) :=
  match section e (threads y !! t) with
  | None => None
  | Some m => Some ('(ph, s) ← m (kernel y); Ok (Sys s (<[t := ph]> (threads y))))
  end.

(** Memory that the kernel has not set up is zero. *)
Definition boot (mi : msginfo) (hp : list alloc) : sys := Sys (State mi false 0 0 0 [] [] [] [] hp []) ∅.

(** ** What they should do *)

Record asys := ASys { spec : astate; aphases : gmap nat aphase }.

Definition areturned (ph : option aphase) : bool :=
  match ph with None | Some (AReturn _ _) | Some (AStatReturn _) | Some (ARcvReturn _ _ _ _) => true | _ => false end.

Definition spec_section (e : action) (ph : option aphase) : option (astate → astate * aphase) :=
  match e, ph with
  | Copied eval, Some (AStatCopyout is64 i) => Some (spec_stat is64 i eval)
  | CopiedSet now eval b, Some (ASetCopyin c i) => Some (spec_set now c i eval b)
  | CopiedType mac now eval type, Some (ASndType x) => Some (spec_snd_type mac now x eval type)
  | CopiedIn mac now eval more, Some (ASndSeg x type text) => Some (spec_snd_seg mac now x type text eval more)
  | Copied eval, Some (ARcvType x m) => Some (spec_rcv_type x m eval)
  | CopiedOut eval got, Some (ARcvSeg x m text) => Some (spec_rcv_seg x m text eval got)
  | Woken mac now err, Some (ASndSleep x own c) => Some (spec_snd_wake x own err)
  | Woken mac now err, Some (ARcvSleep x) => Some (spec_rcv_wake mac now x err)
  | Get c mac now key msgflg, ph => if areturned ph then Some (spec_get c mac now key msgflg) else None
  | Ctl is64 c mac mac_rmid id cmd, ph => if areturned ph then Some (spec_ctl is64 c mac mac_rmid id cmd) else None
  | Snd p c mac id msgsz msgflg, ph => if areturned ph then Some (spec_snd p c mac id msgsz msgflg) else None
  | Rcv p is64 c mac mac_rcv now id msgsz msgtyp msgflg, ph =>
      if areturned ph then Some (spec_rcv p is64 c mac mac_rcv now id msgsz msgtyp msgflg) else None
  | _, _ => None
  end.

Definition spec_step (t : nat) (e : action) (A : asys) : option asys :=
  match spec_section e (aphases A !! t) with
  | None => None
  | Some f => let '(a, ph) := f (spec A) in Some (ASys a (<[t := ph]> (aphases A)))
  end.

Definition aboot (mi : msginfo) (hp : list alloc) : asys := ASys (AState mi false 0 0 [] (alloc_ok <$> hp) []) ∅.

(** Sizes are not negative; a copy that succeeds has all that was asked for;
    the super user does not end an [IPC_SET] of a queue that has been removed
    meanwhile. *)
Definition action_ok (t : nat) (e : action) (A : asys) : Prop :=
  match e with
  | Snd _ _ _ _ msgsz _ => 0 <= msgsz < 2 ^ 64
  | Rcv _ _ _ _ _ _ _ msgsz _ _ => 0 <= msgsz
  | CopiedIn _ _ eval more =>
      ∀ x type text, aphases A !! t = Some (ASndSeg x type text) → eval = 0 →
        Z.min (sn_size x - zlen text) (msgssz (a_info (spec A))) <= zlen more
  | CopiedSet _ _ b => 0 <= u_qbytes b ∧
      ∀ c i sl, aphases A !! t = Some (ASetCopyin c i) → get_slot i (spec A) = Some sl → cr_super c = true → live sl = true
  | _ => True
  end.

(** What users see of a call that has returned. *)
Inductive outcome := ORet (eval rval : Z) | OStat (u : user_msqid) | ORcv (eval rval type : Z) (text : list Z).

Definition outcome_of (ph : option phase) : option outcome :=
  match ph with
  | Some (Return e v) => Some (ORet e v)
  | Some (StatReturn u) => Some (OStat u)
  | Some (RcvReturn e v ty text) => Some (ORcv e v ty text)
  | _ => None
  end.
Definition aoutcome_of (ph : option aphase) : option outcome :=
  match ph with
  | Some (AReturn e v) => Some (ORet e v)
  | Some (AStatReturn u) => Some (OStat u)
  | Some (ARcvReturn e v ty text) => Some (ORcv e v ty text)
  | _ => None
  end.

(** Threads have returned the same, and the same threads have been woken up. *)
Definition agree (y : sys) (A : asys) : Prop :=
  (∀ t, outcome_of (threads y !! t) = aoutcome_of (aphases A !! t)) ∧ woken (kernel y) = a_woken (spec A).

(** Sections one after the other; what a thread cannot do in its phase is left
    out. *)
Fixpoint run (es : list (nat * action)) (y : sys) : res sys :=
  match es with
  | [] => Ok y
  | (t, e) :: es => match step t e y with None => run es y | Some r => y ← r; run es y end
  end.

Fixpoint spec_run (es : list (nat * action)) (A : asys) : asys :=
  match es with
  | [] => A
  | (t, e) :: es => spec_run es (default A (spec_step t e A))
  end.

Fixpoint valid (es : list (nat * action)) (A : asys) : Prop :=
  match es with
  | [] => True
  | (t, e) :: es => action_ok t e A ∧ valid es (default A (spec_step t e A))
  end.

(** ** The invariant *)

Definition thread_rel (s : state) (g : ghost) (a : astate) (t : nat) (ph : option phase) (aph : option aphase) : Prop :=
  match ph, aph with
  | None, None => hl g (HThread t) = []
  | Some ph, Some aph => phase_rel s g a t ph aph
  | _, _ => False
  end.

Definition up_rel (y : sys) (A : asys) : Prop :=
  ∃ g, base_rel (kernel y) g (spec A) ∧ ∀ t, thread_rel (kernel y) g (spec A) t (threads y !! t) (aphases A !! t).

(** Before the arrays exist no call gets further than an error. *)
Definition down_sys (y : sys) (A : asys) : Prop :=
  down_rel (kernel y) (spec A) ∧
  ∀ t, match threads y !! t, aphases A !! t with
       | None, None => True
       | Some (Return e v), Some (AReturn e' v') => e = e' ∧ v = v'
       | _, _ => False
       end.

Definition sys_rel (y : sys) (A : asys) : Prop := up_rel y A ∨ down_sys y A.

Lemma phase_rel_outcome s g a t ph aph : phase_rel s g a t ph aph → outcome_of (Some ph) = aoutcome_of (Some aph).
Proof. by destruct ph, aph; cbn; try done; intros; destruct_and?; simplify_eq. Qed.

Lemma sys_rel_agree y A : sys_rel y A → agree y A.
Proof.
  intros [(g & Hb & Ht)|[Hd Ht]].
  - split; [| symmetry; apply (ba_woken _ _ _ Hb)]. intros t. specialize (Ht t). destruct (threads y !! t), (aphases A !! t); try done. by eapply phase_rel_outcome.
  - split; [| by rewrite (dn_spec _ _ Hd)]. intros t. specialize (Ht t). destruct (threads y !! t) as [[]|], (aphases A !! t) as [[]|]; try done. by destruct Ht as [-> ->].
Qed.

(** ** Sections with the arrays in place *)

Lemma up_step t y A m f : up_rel y A →
  (∀ g, base_rel (kernel y) g (spec A) → thread_rel (kernel y) g (spec A) t (threads y !! t) (aphases A !! t) →
     wp m (sim t (kernel y) g (spec A) (f (spec A))) (kernel y)) →
  ∃ y', ('(ph, s) ← m (kernel y); Ok (Sys s (<[t := ph]> (threads y)))) = Ok y' ∧
    up_rel y' (let '(a, ph) := f (spec A) in ASys a (<[t := ph]> (aphases A))) ∧ info (kernel y') = info (kernel y).
Proof.
  intros (g & Hb & Ht) Hm. destruct (wp_Ok _ _ _ (Hm g Hb (Ht t))) as (ph & s' & -> & g' & Hb' & Hp & [Hi Hf] & Hg). cbn.
  destruct (f (spec A)) as [a' aph]. eexists. split; [done |]. split; [| done]. exists g'. split; [done |]. intros t'. cbn. destruct (decide (t' = t)) as [->|Hne].
  - by rewrite !lookup_insert_eq.
  - rewrite !lookup_insert_ne by done. specialize (Ht t'). destruct (Hf (HThread t')) as [Hl Hs]; [by exists t' |].
    destruct (threads y !! t'), (aphases A !! t'); try done; cbn in *; [| by rewrite Hl]. by eapply phase_rel_same.
Qed.

(** A thread that is between calls holds no header. *)
Lemma returned_rel s g a t ph aph : thread_rel s g a t ph aph → returned ph = areturned aph ∧ (returned ph = true → hl g (HThread t) = []).
Proof. destruct ph as [[]|], aph as [[]|]; cbn; try done; intros; destruct_and?; done. Qed.

(** Both sides agree on what a thread may do next, and do the same. *)
Lemma up_sections t e y A : up_rel y A →
  match spec_section e (aphases A !! t) with
  | None => section e (threads y !! t) = None
  | Some f => ∃ m, section e (threads y !! t) = Some m ∧ (action_ok t e A →
      ∀ g, base_rel (kernel y) g (spec A) → thread_rel (kernel y) g (spec A) t (threads y !! t) (aphases A !! t) →
        wp m (sim t (kernel y) g (spec A) (f (spec A))) (kernel y))
  end.
Proof.
  intros (g0 & Hb0 & Ht0). specialize (Ht0 t). destruct (returned_rel _ _ _ _ _ _ Ht0) as [Hret _].
  assert (Hidle : ∀ g, areturned (aphases A !! t) = true → thread_rel (kernel y) g (spec A) t (threads y !! t) (aphases A !! t) → hl g (HThread t) = []).
  { intros g Hr H. destruct (returned_rel _ _ _ _ _ _ H) as [Hr' Hl]. apply Hl. by rewrite Hr'. }
  destruct e; cbn [section spec_section]; rewrite ?Hret.
  1-4: destruct (areturned (aphases A !! t)) eqn:Er; [eexists; split; [done |]; intros Hok g Hb Ht; specialize (Hidle g eq_refl Ht) | by destruct (threads y !! t), (aphases A !! t)].
  - by apply msgget_spec.
  - by apply msgctl_spec.
  - by apply msgsnd_spec.
  - by apply msgrcv_spec.
  - destruct (threads y !! t) as [[]|], (aphases A !! t) as [[]|]; try done; cbn in Ht0.
    + destruct Ht0 as (-> & -> & _). eexists. split; [done |]. intros _ g Hb Ht. by eapply ipc_stat_spec.
    + destruct Ht0 as (-> & _). eexists. split; [done |]. intros _ g Hb Ht. by eapply rcv_type_spec.
  - destruct (threads y !! t) as [[]|], (aphases A !! t) as [[]|] eqn:EA; try done; cbn in Ht0.
    destruct Ht0 as (-> & -> & _). eexists. split; [done |]. intros [Hq Hs] g Hb Ht. eapply ctl_set_spec; [done | done | done |]. intros sl. by apply Hs.
  - destruct (threads y !! t) as [[]|], (aphases A !! t) as [[]|]; try done; cbn in Ht0.
    destruct Ht0 as (-> & _). eexists. split; [done |]. intros _ g Hb Ht. by eapply snd_type_spec.
  - destruct (threads y !! t) as [[]|], (aphases A !! t) as [[]|] eqn:EA; try done; cbn in Ht0.
    destruct Ht0 as (-> & _). eexists. split; [done |]. intros Hok g Hb Ht. eapply snd_seg_spec; [done | done |]. intros He.
    destruct Ht as (_ & _ & _ & _ & -> & _). rewrite <- (ba_info _ _ _ Hb). by apply (Hok _ _ _ EA).
  - destruct (threads y !! t) as [[]|], (aphases A !! t) as [[]|]; try done; cbn in Ht0.
    destruct Ht0 as (-> & _ & _ & _ & _ & _ & -> & _). eexists. split; [done |]. intros _ g Hb Ht. by eapply rcv_seg_spec.
  - destruct (threads y !! t) as [[]|], (aphases A !! t) as [[]|]; try done; cbn in Ht0.
    + destruct Ht0 as (-> & -> & -> & _). eexists. split; [done |]. intros _ g Hb Ht. by eapply snd_wake_spec.
    + destruct Ht0 as (-> & _). eexists. split; [done |]. intros _ g Hb Ht. by eapply rcv_wake_spec.
Qed.

(** ** The first call *)

Definition starts (m : M phase) (f : astate → astate * aphase) : Prop :=
  (∀ s s1, msginit s = Ok (true, s1) → m s = m s1) ∧ (∀ s s1, msginit s = Ok (false, s1) → m s = Ok (Return ENOMEM 0, s1)) ∧
  (∀ a a1, spec_init a = (true, a1) → f a = f a1) ∧ (∀ a a1, spec_init a = (false, a1) → f a = (a1, AReturn ENOMEM 0)).

Lemma msginit_again s s1 : msginit s = Ok (true, s1) → msginit s1 = Ok (true, s1).
Proof.
  unfold msginit at 1. destruct (initted s) eqn:E; [intros [= <-]; unfold msginit; by rewrite E |].
  destruct (heap s) as [|[[|] [|] [|] [|]] hp]; try done. by intros [= <-].
Qed.

Lemma spec_init_again a a1 : spec_init a = (true, a1) → spec_init a1 = (true, a1).
Proof.
  unfold spec_init at 1. destruct (a_up a) eqn:E; [intros [= <-]; unfold spec_init; by rewrite E |].
  destruct (a_heap a) as [|[|] hp]; try done. by intros [= <-].
Qed.

Lemma starts_find id (k : Z * msqid_ds → M phase) (ka : Z * aslot → astate → astate * aphase) :
  starts (r ← find_queue id; match r with inl e => mret (Return e 0) | inr iq => k iq end)
    (λ a, match spec_find id a with (inl e, a) => (a, AReturn e 0) | (inr il, a) => ka il a end).
Proof.
  assert (Hf : ∀ s ok s1, msginit s = Ok (ok, s1) → find_queue id s = (if negb ok then mret (inl ENOMEM) else
    s ← get; if (IPCID_TO_IX id <? 0) || (IPCID_TO_IX id >=? msgmni (info s)) then mret (inl EINVAL) else q ← get_id (IPCID_TO_IX id);
      if msg_qbytes q =? 0 then mret (inl EINVAL) else if negb (_seq (msg_perm q) =? IPCID_TO_SEQ id) then mret (inl EINVAL) else mret (inr (IPCID_TO_IX id, q))) s1).
  { intros s ok s1 H. unfold find_queue at 1. rewrite st_bind_unfold, H. done. }
  split; [| split; [| split]].
  - intros s s1 H. rewrite !st_bind_unfold, (Hf s true s1 H), (Hf s1 true s1) by (by eapply msginit_again). done.
  - intros s s1 H. rewrite !st_bind_unfold, (Hf s false s1 H). done.
  - intros a a1 H. unfold spec_find. by rewrite H, (spec_init_again a a1 H).
  - intros a a1 H. unfold spec_find. by rewrite H.
Qed.

Lemma starts_get c mac now key msgflg : starts (msgget c mac now key msgflg) (spec_get c mac now key msgflg).
Proof.
  split; [| split; [| split]].
  - intros s s1 H. unfold msgget. rewrite !st_bind_unfold, H, (msginit_again s s1 H). done.
  - intros s s1 H. unfold msgget. rewrite !st_bind_unfold, H. done.
  - intros a a1 H. unfold spec_get. by rewrite H, (spec_init_again a a1 H).
  - intros a a1 H. unfold spec_get. by rewrite H.
Qed.

Lemma starts_call e ph aph m f : returned ph = true → areturned aph = true → section e ph = Some m → spec_section e aph = Some f → starts m f.
Proof.
  intros Hr Ha Hm Hf. destruct e; cbn [section spec_section] in *; rewrite ?Hr, ?Ha in *; simplify_eq.
  - apply starts_get.
  - refine (starts_find id _ _).
  - refine (starts_find id _ _).
  - refine (starts_find id _ _).
  - by destruct ph as [[]|].
  - by destruct ph as [[]|].
  - by destruct ph as [[]|].
  - by destruct ph as [[]|].
  - by destruct ph as [[]|].
  - by destruct ph as [[]|].
Qed.

(** Threads that wait for nothing may do the same. *)
Lemma idle_sections e ph aph : returned ph = true → areturned aph = true → is_Some (section e ph) ↔ is_Some (spec_section e aph).
Proof. intros Hr Ha. destruct e; cbn [section spec_section]; rewrite ?Hr, ?Ha; try done; destruct ph as [[]|], aph as [[]|]; done. Qed.

Lemma down_idle y A t : down_sys y A → returned (threads y !! t) = true ∧ areturned (aphases A !! t) = true.
Proof. intros [_ H]. specialize (H t). by destruct (threads y !! t) as [[]|], (aphases A !! t) as [[]|]. Qed.

(** The system after the arrays have been set up by the call. *)
Lemma down_up y A s1 a1 : down_sys y A → base_rel s1 (init_ghost (info s1)) a1 → up_rel (Sys s1 (threads y)) (ASys a1 (aphases A)).
Proof.
  intros [_ Ht] Hb. exists (init_ghost (info s1)). split; [done |]. intros t. specialize (Ht t). cbn.
  destruct (threads y !! t) as [[]|], (aphases A !! t) as [[]|]; try done. by destruct Ht as [-> ->].
Qed.

(** ** Every section *)

Lemma sys_step t e y A : sys_rel y A →
  match spec_step t e A with
  | None => step t e y = None
  | Some A' => action_ok t e A → ∃ y', step t e y = Some (Ok y') ∧ sys_rel y' A' ∧
      (initted (kernel y) = true → info (kernel y') = info (kernel y))
  end.
Proof.
  intros [Hup|Hdn]; unfold step, spec_step.
  - pose proof (up_sections t e y A Hup) as H. destruct (spec_section e (aphases A !! t)) as [f|]; [| by rewrite H]. destruct H as (m & -> & Hm).
    pose proof (λ Hok, up_step t y A m f Hup (Hm Hok)) as H. clear Hm. destruct (f (spec A)) as [a' aph']. intros Hok. destruct (H Hok) as (y' & -> & Hy' & Hi). exists y'. split; [done |]. split; [by left | done].
  - destruct (down_idle y A t Hdn) as [Hr Ha]. pose proof (idle_sections e _ _ Hr Ha) as Hen.
    destruct (spec_section e (aphases A !! t)) as [f|] eqn:Ef; [| destruct (section e _) as [m|]; [by destruct (proj1 Hen) | done]].
    destruct (section e (threads y !! t)) as [m|] eqn:Em; [| by destruct (proj2 Hen)]. pose proof (starts_call e _ _ m f Hr Ha Em Ef) as (H1 & H2 & H3 & H4).
    destruct (msginit_down _ _ (proj1 Hdn)) as [(s1 & a1 & Hs & Hsp & Hb)|(s1 & a1 & Hs & Hsp & Hd)].
    + pose proof (down_up y A s1 a1 Hdn Hb) as Hup. pose proof (up_sections t e _ _ Hup) as H. cbn in H. rewrite Ef in H. destruct H as (m' & Hm' & H).
      rewrite Em in Hm'. injection Hm' as <-. rewrite (H1 _ _ Hs), (H3 _ _ Hsp). pose proof (λ Hok, up_step t _ _ m f Hup (H Hok)) as Hst. clear H H1 H2 H3 H4 Ef. cbn in Hst.
      destruct (f a1) as [a' aph']. intros Hok. destruct Hst as (y' & Hy & Hy' & _); [| exists y'; split; [by rewrite Hy |]; split; [by left | by rewrite (dn_init _ _ (proj1 Hdn))]].
      destruct (down_idle y A t Hdn) as [_ Hidle]. destruct e; try done; cbn in *; [destruct Hok as [? Hok]; split; [done |] |];
        intros; destruct (aphases A !! t) as [[]|]; done.
    + rewrite (H2 _ _ Hs), (H4 _ _ Hsp). intros _. eexists. split; [done |]. split; [| by rewrite (dn_init _ _ (proj1 Hdn))]. right. split; [done |]. intros t'. cbn.
      destruct (decide (t' = t)) as [->|Hne]; [by rewrite !lookup_insert_eq |]. rewrite !lookup_insert_ne by done. apply Hdn.
Qed.

Lemma run_rel es : ∀ y A, sys_rel y A → valid es A → ∃ y', run es y = Ok y' ∧ sys_rel y' (spec_run es A).
Proof.
  induction es as [|[t e] es IH]; intros y A Hr Hv; [by exists y |]. cbn [run spec_run valid] in *. destruct Hv as [Hok Hv].
  pose proof (sys_step t e y A Hr) as H. destruct (spec_step t e A) as [A'|]; cbn in *; [| rewrite H; by apply IH].
  destruct (H Hok) as (y' & -> & Hr' & _). by apply IH.
Qed.

Lemma boot_rel mi hp : info_ok (check_info mi) → sys_rel (boot mi hp) (aboot mi hp).
Proof. intros Hmi. right. split; [by split |]. intros t. cbn. by rewrite !lookup_empty. Qed.
