(* ===== verification/MsgProgress.v ===== *)
(** * System V message queues: locks and progress

    A thread that sends has the queue locked while it copies its message in,
    and while it is the first to wait for room.  A thread that copies a message
    in or out returns after a number of its own sections that depends on the
    size only, whatever other threads do. *)

From S2P Require Import Prelude Chain Ipc Msg MsgSpec MsgRel MsgSegs MsgBase MsgQueue MsgAlloc MsgInit MsgCalls MsgGet MsgRun.

(** The queue that a thread has locked. *)
Definition own (ph : option aphase) : option nat :=
  match ph with
  | Some (ASndSleep x true _) | Some (ASndType x) | Some (ASndSeg x _ _) => Some (Z.to_nat (IPCID_TO_IX (sn_id x)))
  | _ => None
  end.

Definition slot_at (a : astate) (n : nat) : option aslot := mjoin (a_slots a !! n).
Definition lk (a : astate) (n : nat) : bool := match slot_at a n with Some sl => locked (sl_meta sl) | None => false end.

Lemma lk_put a i sl sl' n : get_slot i a = Some sl' →
  lk (put_slot i sl a) n = if decide (n = Z.to_nat i) then locked (sl_meta sl) else lk a n.
Proof.
  intros H. unfold lk, slot_at, put_slot. cbn. case_decide as E; [| by rewrite list_lookup_insert_ne].
  rewrite E, list_lookup_insert_eq; [done |]. unfold get_slot in H. destruct (a_slots a !! Z.to_nat i) eqn:El; [by apply lookup_lt_Some in El | done].
Qed.

Lemma locked_lock q : locked (set_mode lock q) = true.
Proof. unfold locked, set_mode, lock. cbn. rewrite tst_lor. by destruct (tst (mode (msg_perm q)) MSG_LOCKED). Qed.

Lemma locked_unlock q : locked (set_mode unlock q) = false.
Proof. apply tst_clear_same. Qed.

Lemma locked_set now qbytes b q : locked (set_meta now qbytes b q) = locked q.
Proof.
  unfold locked, set_meta. cbn. rewrite tst_lor, tst_clear_other by done.
  replace (tst (Z.land (mode (u_perm b)) 0x1ff) MSG_LOCKED) with false; [by rewrite orb_false_r |].
  unfold tst. by rewrite <- Z.land_assoc, Z.land_0_r.
Qed.

Lemma locked_new c now key msgflg qbytes seq : locked (new_queue c now key msgflg qbytes seq) = false.
Proof. unfold locked, tst. cbn. by rewrite <- Z.land_assoc, Z.land_0_r. Qed.

(** ** Sections *)

(** How the locks change when a thread that had [o] locked runs a section. *)
Definition lock_step (a : astate) (o : option nat) (r : astate * aphase) : Prop :=
  ∀ n, lk (fst r) n = (if decide (own (Some (snd r)) = Some n) then true else if decide (o = Some n) then false else lk a n) ∧
       (own (Some (snd r)) = Some n → o ≠ Some n → lk a n = false).

Lemma lock_step_same a a' ph : own (Some ph) = None → (∀ n, lk a' n = lk a n) → lock_step a None (a', ph).
Proof. intros Ho H n. cbn [fst snd]. rewrite Ho, H. by repeat case_decide. Qed.

Lemma lock_step_keep a o ph : own (Some ph) = o → (∀ n, o = Some n → lk a n = true) → lock_step a o (a, ph).
Proof. intros <- H n. cbn [fst snd]. split; [case_decide; [by apply H | done] | done]. Qed.

Lemma lock_step_put a i sl sl' ph : get_slot i a = Some sl' → locked (sl_meta sl) = locked (sl_meta sl') → own (Some ph) = None →
  lock_step a None (put_slot i sl a, ph).
Proof.
  intros Hg Hl Ho. apply lock_step_same; [done |]. intros n. rewrite (lk_put _ _ _ _ _ Hg). case_decide as E; [| done]. rewrite Hl, E.
  unfold lk, slot_at. unfold get_slot in Hg. by rewrite Hg.
Qed.

Lemma lk_get a i sl : get_slot i a = Some sl → lk a (Z.to_nat i) = locked (sl_meta sl).
Proof. intros H. unfold lk, slot_at. unfold get_slot in H. by rewrite H. Qed.

Lemma loop_lock a x : lock_step a None (spec_snd_loop x a).
Proof.
  unfold spec_snd_loop. destruct (get_slot _ a) as [sl|] eqn:Hg; [| by apply lock_step_same]. pose proof (lk_get _ _ _ Hg) as Hlk.
  destruct (_ >? _); [by apply lock_step_same |].
  assert (Hlock : locked (sl_meta sl) = false → ∀ a' ph, own (Some ph) = Some (Z.to_nat (IPCID_TO_IX (sn_id x))) →
    (∀ n, lk a' n = lk (put_slot (IPCID_TO_IX (sn_id x)) (lock_slot sl) a) n) → lock_step a None (a', ph)).
  { intros Hl a' ph Ho Ha n. cbn [fst snd]. rewrite Ho, Ha, (lk_put _ _ _ _ _ Hg). cbn [sl_meta lock_slot]. rewrite locked_lock. split.
    - repeat case_decide; congruence.
    - intros [= <-] _. by rewrite Hlk. }
  unfold blocking. destruct ((a_hdrs a =? 0) || _).
  - destruct (tst _ _); [by apply lock_step_same |]. destruct (locked (sl_meta sl)) eqn:El; [by apply lock_step_same | by apply Hlock].
  - destruct (locked (sl_meta sl)) eqn:El; cbn [orb]; [destruct (tst _ _); by apply lock_step_same |].
    destruct (_ >? _); [destruct (tst _ _); [by apply lock_step_same | by apply Hlock] | by apply Hlock].
Qed.

(** The thread gives its lock up. *)
Lemma lock_step_unlock a i sl sl' o r : get_slot i a = Some sl' → o = Some (Z.to_nat i) → locked (sl_meta sl) = false →
  lock_step (put_slot i sl a) None r → lock_step a o r.
Proof.
  intros Hg -> Hl H n. destruct (H n) as [H1 H2]. rewrite (lk_put _ _ _ _ _ Hg) in H1, H2. split.
  - rewrite H1. repeat case_decide; congruence.
  - intros Ho Hne. specialize (H2 Ho ltac:(done)). rewrite decide_False in H2; [done |]. congruence.
Qed.

Lemma lk_none a i : get_slot i a = None → lk a (Z.to_nat i) = false.
Proof. intros H. unfold lk, slot_at. unfold get_slot in H. by rewrite H. Qed.

Lemma fail_lock a x e : lk a (Z.to_nat (IPCID_TO_IX (sn_id x))) = true →
  lock_step a (Some (Z.to_nat (IPCID_TO_IX (sn_id x)))) (spec_snd_fail x e a).
Proof.
  intros Hlk. unfold spec_snd_fail. destruct (get_slot _ a) as [sl|] eqn:Hg; [| by rewrite (lk_none _ _ Hg) in Hlk].
  apply (lock_step_unlock a (IPCID_TO_IX (sn_id x)) (unlock_slot sl) sl); [done | done | apply locked_unlock | by apply lock_step_same].
Qed.

Lemma wake_lock a x own' err : (own' = true → lk a (Z.to_nat (IPCID_TO_IX (sn_id x))) = true) →
  lock_step a (if own' then Some (Z.to_nat (IPCID_TO_IX (sn_id x))) else None) (spec_snd_wake x own' err a).
Proof.
  intros Hlk. unfold spec_snd_wake. destruct (get_slot _ a) as [sl|] eqn:Hg; [| destruct own'; [by rewrite (lk_none _ _ Hg) in Hlk; specialize (Hlk eq_refl) | by apply lock_step_same]].
  destruct own'.
  - apply (lock_step_unlock a (IPCID_TO_IX (sn_id x)) (unlock_slot sl) sl); [done | done | apply locked_unlock |].
    destruct (err =? 0); cbn [negb]; [| by apply lock_step_same]. destruct (live sl); cbn [negb]; [| by apply lock_step_same]. apply loop_lock.
  - destruct (err =? 0); cbn [negb]; [| by apply lock_step_same]. destruct (live sl); cbn [negb]; [| by apply lock_step_same]. apply loop_lock.
Qed.

Lemma finish_lock a mac now x m : lk a (Z.to_nat (IPCID_TO_IX (sn_id x))) = true →
  lock_step a (Some (Z.to_nat (IPCID_TO_IX (sn_id x)))) (spec_snd_finish mac now x m a).
Proof.
  intros Hlk. unfold spec_snd_finish. destruct (get_slot _ a) as [sl|] eqn:Hg; [| by rewrite (lk_none _ _ Hg) in Hlk].
  destruct (live sl); cbn [negb]; [| by apply fail_lock]. destruct (mac =? 0); cbn [negb]; [| by apply fail_lock].
  apply (lock_step_unlock a (IPCID_TO_IX (sn_id x)) (ASlot (set_sent (sn_proc x) now (set_mode unlock (sl_meta sl))) (sl_msgs sl ++ [m])) sl); [done | done | | by apply lock_step_same].
  exact (locked_unlock (sl_meta sl)).
Qed.

Lemma rcv_loop_lock a mac now x : lock_step a None (spec_rcv_loop mac now x a).
Proof.
  unfold spec_rcv_loop. destruct (get_slot _ a) as [sl|] eqn:Hg; [| by apply lock_step_same]. destruct (pick _ _) as [[m l]|].
  - destruct (too_big _ _); [by apply lock_step_same |]. destruct (mac =? 0); cbn [negb]; [| by apply lock_step_same]. by eapply lock_step_put.
  - destruct (tst _ _); by apply lock_step_same.
Qed.

Lemma rcv_next_lock a x m text : lock_step a None (spec_rcv_next x m text a).
Proof. unfold spec_rcv_next. destruct (_ <? _); by apply lock_step_same. Qed.

(** The initialisation locks nothing. *)
Lemma init_lock a : (a_up a = false → a_slots a = []) → ∀ n, lk (snd (spec_init a)) n = lk a n.
Proof.
  intros Hd n. unfold spec_init. destruct (a_up a) eqn:E; [done |]. specialize (Hd eq_refl). destruct (a_heap a) as [|[|] hp]; unfold lk, slot_at; rewrite Hd; cbn; try done.
  destruct (replicate _ None !! n) as [o|] eqn:El; [| done]. by apply lookup_replicate in El as [-> _].
Qed.

Lemma lock_step_init a a1 r : (∀ n, lk a1 n = lk a n) → lock_step a1 None r → lock_step a None r.
Proof. intros H Hs n. destruct (Hs n) as [H1 H2]. by rewrite H in H1, H2. Qed.

Lemma find_lock a id f : (a_up a = false → a_slots a = []) → (∀ i sl a1, get_slot i a1 = Some sl → lock_step a1 None (f i sl a1)) →
  lock_step a None (match spec_find id a with (inl e, a) => (a, AReturn e 0) | (inr (i, sl), a) => f i sl a end).
Proof.
  intros Hd Hf. pose proof (init_lock a Hd) as Hi. unfold spec_find. destruct (spec_init a) as [ok a1]. cbn in Hi. apply (lock_step_init a a1); [done |].
  destruct ok; cbn [negb]; [| by apply lock_step_same]. destruct (get_slot _ a1) as [sl|] eqn:Hg; [| by apply lock_step_same].
  destruct (_ && _); [by apply Hf | by apply lock_step_same].
Qed.

Lemma get_lock a c mac now key msgflg : (a_up a = false → a_slots a = []) → lock_step a None (spec_get c mac now key msgflg a).
Proof.
  intros Hd. pose proof (init_lock a Hd) as Hi. unfold spec_get. destruct (spec_init a) as [ok a1]. cbn in Hi. apply (lock_step_init a a1); [done |].
  destruct ok; cbn [negb]; [| by apply lock_step_same]. destruct (if key =? IPC_PRIVATE then None else _) as [i|].
  - destruct (get_slot i a1); [| by apply lock_step_same]. repeat case_match; by apply lock_step_same.
  - destruct (_ || _); [| by apply lock_step_same]. destruct (find_id unused (a_slots a1) 0) as [i|] eqn:En; [| by apply lock_step_same].
    apply find_id_some in En as (Hi0 & o & Ho & Hun). rewrite Z.sub_0_r in Ho. apply lock_step_same; [done |]. intros n.
    unfold lk, slot_at, put_slot. cbn [a_slots]. destruct (decide (n = Z.to_nat i)) as [->|Hne]; [| by rewrite list_lookup_insert_ne].
    rewrite list_lookup_insert_eq by (by eapply lookup_lt_Some). rewrite Ho. cbn [mjoin option_join sl_meta]. rewrite locked_new.
    destruct o as [sl|]; [| done]. cbn in Hun. by destruct (locked (sl_meta sl)), (live sl).
Qed.

Lemma ctl_lock a is64 c mac mac_rmid id cmd : (a_up a = false → a_slots a = []) → lock_step a None (spec_ctl is64 c mac mac_rmid id cmd a).
Proof.
  intros Hd. refine (find_lock a id _ Hd _). intros i sl a1 Hg. destruct (mac =? 0); cbn [negb]; [| by apply lock_step_same].
  destruct cmd; try by apply lock_step_same.
  all: destruct (_ =? 0); cbn [negb]; try by apply lock_step_same.
  destruct (_ =? 0); cbn [negb]; [| by apply lock_step_same]. unfold spec_rmid. rewrite spec_free_all.
  exact (lock_step_put a1 i (ASlot (set_qbytes 0 (sl_meta sl)) []) sl (AReturn 0 0) Hg eq_refl eq_refl).
Qed.

Lemma section_lock e ph f a : spec_section e ph = Some f → (a_up a = false → a_slots a = []) → (∀ n, own ph = Some n → lk a n = true) →
  lock_step a (own ph) (f a).
Proof.
  intros Hf Hd Hlk. assert (Hidle : areturned ph = true → own ph = None) by (by destruct ph as [[]|]).
  destruct e; cbn [spec_section] in Hf;
    try (destruct (areturned ph); [specialize (Hidle eq_refl); simplify_eq; rewrite Hidle | by destruct ph]).
  - by apply get_lock.
  - by apply ctl_lock.
  - refine (find_lock a id _ Hd _). intros i sl a1 Hg. cbv zeta. repeat case_match; try by apply lock_step_same. apply loop_lock.
  - refine (find_lock a id _ Hd _). intros i sl a1 Hg. cbv zeta. repeat case_match; try by apply lock_step_same. apply rcv_loop_lock.
  - destruct ph as [[]|]; simplify_eq; cbn.
    + unfold spec_stat. destruct (get_slot i a); [| by apply lock_step_same]. destruct (negb _); by apply lock_step_same.
    + unfold spec_rcv_type. destruct (negb _); [by apply lock_step_same | apply rcv_next_lock].
  - destruct ph as [[]|]; simplify_eq; cbn. unfold spec_set. destruct (get_slot i a) as [sl|] eqn:Hg; [| by apply lock_step_same].
    repeat case_match; try by apply lock_step_same. eapply lock_step_put; [done | apply locked_set | done].
  - destruct ph as [[]|]; simplify_eq; cbn in *. unfold spec_snd_type. destruct (eval =? 0); cbn [negb]; [| by apply fail_lock, Hlk].
    destruct (type <? 1); [by apply fail_lock, Hlk |]. destruct (_ >? _); [by apply lock_step_keep | by apply finish_lock, Hlk].
  - destruct ph as [[]|]; simplify_eq; cbn in *. unfold spec_snd_seg. destruct (eval =? 0); cbn [negb]; [| by apply fail_lock, Hlk].
    destruct (_ <? _); [by apply lock_step_keep | by apply finish_lock, Hlk].
  - destruct ph as [[]|]; simplify_eq; cbn. unfold spec_rcv_seg. destruct (negb _); [by apply lock_step_same | apply rcv_next_lock].
  - destruct ph as [[]|]; simplify_eq; cbn in *.
    + apply (wake_lock a x we_own_it err). intros ->. by apply Hlk.
    + unfold spec_rcv_wake. destruct (get_slot _ a); [| by apply lock_step_same]. destruct (negb _); [by apply lock_step_same |]. destruct (_ && _); [apply rcv_loop_lock | by apply lock_step_same].
Qed.

(** ** Runs *)

(** A queue is locked by one thread, or not at all. *)
Record lock_inv (A : asys) : Prop := {
  li_owner t n : own (aphases A !! t) = Some n → lk (spec A) n = true;
  li_locked n : lk (spec A) n = true → ∃ t, own (aphases A !! t) = Some n;
  li_one t t' n : own (aphases A !! t) = Some n → own (aphases A !! t') = Some n → t = t'
}.

Lemma lock_inv_step t e A A' : (a_up (spec A) = false → a_slots (spec A) = []) → lock_inv A → spec_step t e A = Some A' → lock_inv A'.
Proof.
  intros Hd [Hown Hlk Hone]. unfold spec_step. destruct (spec_section e (aphases A !! t)) as [f|] eqn:Ef; [| done].
  pose proof (section_lock e _ f (spec A) Ef Hd (Hown t)) as H. destruct (f (spec A)) as [a' ph']. intros [= <-]. unfold lock_step in H. cbn [fst snd] in H.
  assert (Hoth : ∀ t' n, t' ≠ t → own (aphases A !! t') = Some n → lk a' n = true ∧ own (Some ph') ≠ Some n).
  { intros t' n Hne Ho. destruct (H n) as [H1 H2]. assert (own (aphases A !! t) ≠ Some n) as Hn by (intros Ho'; by destruct Hne; eapply Hone).
    assert (own (Some ph') ≠ Some n) as Hn' by (intros Ho'; pose proof (Hown t' n Ho); rewrite H2 in *; done).
    rewrite H1, decide_False, decide_False by done. split; [by eapply Hown | done]. }
  split; cbn [spec aphases].
  - intros t' n. destruct (decide (t' = t)) as [->|Hne]; [rewrite lookup_insert_eq; intros Ho; destruct (H n) as [-> _]; by rewrite decide_True |].
    rewrite lookup_insert_ne by done. intros Ho. by apply (Hoth t').
  - intros n Hn. destruct (decide (own (Some ph') = Some n)) as [Ho|Ho]; [exists t; by rewrite lookup_insert_eq |].
    destruct (H n) as [H1 _]. rewrite H1, decide_False in Hn by done. clear H1. case_decide as E; [done |]. destruct (Hlk n Hn) as [t' Ht']. exists t'.
    rewrite lookup_insert_ne; [done |]. congruence.
  - intros t1 t2 n. destruct (decide (t1 = t)) as [->|H1], (decide (t2 = t)) as [->|H2]; rewrite ?lookup_insert_eq, ?lookup_insert_ne by done; try done.
    + intros Ho Ho2. by destruct (Hoth t2 n H2 Ho2).
    + intros Ho1 Ho. by destruct (Hoth t1 n H1 Ho1).
    + apply Hone.
Qed.

Lemma lock_inv_run es : ∀ y A, sys_rel y A → valid es A → lock_inv A → lock_inv (spec_run es A).
Proof.
  induction es as [|[t e] es IH]; intros y A Hr Hv Hi; [done |]. cbn [spec_run valid] in *. destruct Hv as [Hok Hv].
  pose proof (sys_step t e y A Hr) as H. destruct (spec_step t e A) as [A'|] eqn:Es; cbn in *; [| by eapply IH].
  destruct (H Hok) as (y' & _ & Hr' & _). eapply IH; [exact Hr' | done |]. eapply lock_inv_step; [| done | exact Es].
  intros Hup. destruct Hr as [(g & Hb & _)|[Hd _]]; [destruct (ba_init _ _ _ Hb); congruence | by rewrite (dn_spec _ _ Hd)].
Qed.

Lemma lock_inv_boot mi hp : lock_inv (aboot mi hp).
Proof. split; cbn; [by intros t n; rewrite lookup_empty | by intros n; unfold lk, slot_at | by intros t t' n; rewrite lookup_empty]. Qed.

(** ** Copying ends *)

(** The number of sections that a thread that is copying still runs, at most. *)
Definition copying (mi : msginfo) (ph : option phase) : option Z :=
  match ph with
  | Some (SndType a _) => Some (nsegs mi (sn_size a) + 1)
  | Some (SndSeg _ _ _ rest) => Some (nsegs mi rest)
  | Some (RcvType _ _ size _) => Some (nsegs mi size + 1)
  | Some (RcvSeg _ _ _ len size _ _) => Some (nsegs mi (size - len))
  | _ => None
  end.

Definition acopying (mi : msginfo) (ph : option aphase) : option Z :=
  match ph with
  | Some (ASndType x) => Some (nsegs mi (sn_size x) + 1)
  | Some (ASndSeg x _ text) => Some (nsegs mi (sn_size x - zlen text))
  | Some (ARcvType x m) => Some (nsegs mi (rcv_size x m) + 1)
  | Some (ARcvSeg x m text) => Some (nsegs mi (rcv_size x m - zlen text))
  | _ => None
  end.

(** There is something left to copy. *)
Definition copies (ph : option aphase) : Prop :=
  match ph with
  | Some (ASndType x) => 0 <= sn_size x
  | Some (ARcvType x m) => 0 <= rcv_size x m
  | Some (ASndSeg x _ text) => 0 < sn_size x - zlen text
  | Some (ARcvSeg x m text) => 0 < rcv_size x m - zlen text
  | _ => True
  end.

Lemma copying_rel s g a mi t ph aph : thread_rel s g a t ph aph → copying mi ph = acopying mi aph ∧ copies aph.
Proof.
  destruct ph as [[]|], aph as [[]|]; try done; cbn; intros H; unfold snd_ok in *; destruct_and?; simplify_eq; split; try done; try lia.
  - unfold rcv_size. pose proof (zlen_nonneg (m_text m)). lia.
Qed.

(** The next phase is nearer to the end, or is the end. *)
Definition nearer (mi : msginfo) (n : Z) (ph : aphase) : Prop :=
  areturned (Some ph) = true ∨ ∃ n', acopying mi (Some ph) = Some n' ∧ n' < n.

Lemma finish_returns mac now x m a : areturned (Some (snd (spec_snd_finish mac now x m a))) = true.
Proof. unfold spec_snd_finish, spec_snd_fail. by repeat case_match. Qed.

Lemma fail_returns x e a : areturned (Some (snd (spec_snd_fail x e a))) = true.
Proof. unfold spec_snd_fail. by repeat case_match. Qed.

Lemma nsegs_fewer mi n k : 0 < msgssz mi → 0 < n → Z.min n (msgssz mi) <= k <= n → nsegs mi (n - k) < nsegs mi n.
Proof.
  intros Hs Hn Hk. pose proof (nsegs_bound mi Hs n ltac:(lia)). pose proof (nsegs_bound mi Hs (n - k) ltac:(lia)). pose proof (nsegs_pos mi Hs n Hn).
  destruct (decide (n <= msgssz mi)) as [Hle|Hgt]; [replace (n - k) with 0 by lia; rewrite nsegs_0; lia |].
  assert (nsegs mi (n - k) <= nsegs mi (n - msgssz mi)) by (unfold nsegs; apply Z.div_le_mono; lia). rewrite nsegs_sub in *; lia.
Qed.

Lemma section_nearer t e A f n : spec_section e (aphases A !! t) = Some f → action_ok t e A → 0 < msgssz (a_info (spec A)) →
  acopying (a_info (spec A)) (aphases A !! t) = Some n → copies (aphases A !! t) → nearer (a_info (spec A)) n (snd (f (spec A))).
Proof.
  intros Hf Hok Hs Hn Hc. destruct (aphases A !! t) as [[]|] eqn:Ea; try done; destruct e; cbn [spec_section areturned] in Hf; simplify_eq; cbn in Hn, Hc; simplify_eq.
  - unfold spec_snd_type. destruct (negb _); [left; apply fail_returns |]. destruct (_ <? 1); [left; apply fail_returns |].
    destruct (Z.gtb_spec (sn_size x) 0); [| left; apply finish_returns]. right. eexists. split; [done |]. unfold zlen. cbn. rewrite Z.sub_0_r. lia.
  - unfold spec_snd_seg. destruct (Z.eqb_spec eval 0) as [->|]; cbn [negb]; [| left; apply fail_returns]. specialize (Hok _ _ _ Ea eq_refl).
    set (more := take _ text0). assert (Hm : zlen more = Z.min (sn_size x - zlen text) (msgssz (a_info (spec A)))) by (unfold more, zlen in *; rewrite length_take; lia).
    assert (Hl : zlen (text ++ more) = zlen text + zlen more) by (unfold zlen; rewrite length_app; lia).
    destruct (_ <? _); [| left; apply finish_returns]. right. eexists. split; [done |]. rewrite Hl, Z.sub_add_distr. apply nsegs_fewer; lia.
  - unfold spec_rcv_type, spec_rcv_next. destruct (negb _); [by left |]. destruct (_ <? _); [| by left]. right. eexists. split; [done |].
    unfold zlen. cbn. rewrite Z.sub_0_r. lia.
  - unfold spec_rcv_seg, spec_rcv_next. destruct (negb _); [by left |]. set (more := take _ _). destruct (_ <? _); [| by left]. right. eexists. split; [done |].
    assert (Hlen : zlen (rcv_text x m) = rcv_size x m).
    { unfold rcv_text. unfold zlen at 1. rewrite length_take. unfold rcv_size, zlen in *. lia. }
    assert (Hm : zlen more = Z.min (msgssz (a_info (spec A))) (rcv_size x m - zlen text)) by (rewrite <- Hlen; unfold more, zlen in *; rewrite length_take, length_drop; lia).
    assert (zlen (text ++ more) = zlen text + zlen more) as -> by (unfold zlen; rewrite length_app; lia). rewrite Z.sub_add_distr. apply nsegs_fewer; lia.
Qed.

(** The sections of [es] that thread [t] runs. *)
Fixpoint own_sections (t : nat) (es : list (nat * action)) (y : sys) : Z :=
  match es with
  | [] => 0
  | (t', e) :: es =>
      match step t' e y with
      | None => own_sections t es y
      | Some (Ok y') => (if decide (t' = t) then 1 else 0) + own_sections t es y'
      | Some Fault => 0
      end
  end.

Lemma returned_rel_sys y A t : sys_rel y A → returned (threads y !! t) = areturned (aphases A !! t).
Proof.
  intros [(g & _ & Ht)|Hd]; [by destruct (returned_rel _ _ _ _ _ _ (Ht t)) | by destruct (down_idle y A t Hd) as [-> ->]].
Qed.

(** A thread that copies finds the arrays set up. *)
Lemma copying_up y A t n : sys_rel y A → copying (info (kernel y)) (threads y !! t) = Some n →
  initted (kernel y) = true ∧ info_ok (info (kernel y)) ∧ a_info (spec A) = info (kernel y) ∧
  acopying (info (kernel y)) (aphases A !! t) = Some n ∧ copies (aphases A !! t).
Proof.
  intros [(g & Hb & Ht)|Hd] Hn.
  - destruct (copying_rel _ _ _ (info (kernel y)) _ _ _ (Ht t)) as [He Hc]. rewrite <- He. split; [apply Hb |]. split; [apply Hb |]. split; [apply Hb | done].
  - exfalso. destruct (down_idle y A t Hd) as [Hr _]. by destruct (threads y !! t) as [[]|].
Qed.

Lemma copy_ends t es : ∀ y A n, sys_rel y A → valid es A → copying (info (kernel y)) (threads y !! t) = Some n → n <= own_sections t es y →
  ∃ es1 es2 y', es = es1 ++ es2 ∧ run es1 y = Ok y' ∧ returned (threads y' !! t) = true.
Proof.
  induction es as [|[t' e] es IH]; intros y A n Hr Hv Hn Hle.
  { exfalso. destruct (copying_up y A t n Hr Hn) as (_ & Hi & _ & Ha & Hc). pose proof (io_ssz _ Hi) as Hs. cbn in Hle.
    assert (0 < n); [| lia]. destruct (aphases A !! t) as [[]|]; try done; cbn in Ha, Hc; simplify_eq.
    - pose proof (nsegs_nonneg (info (kernel y)) ltac:(lia) (sn_size x) ltac:(lia)). lia.
    - apply nsegs_pos; lia.
    - pose proof (nsegs_nonneg (info (kernel y)) ltac:(lia) (rcv_size x m) ltac:(lia)). lia.
    - apply nsegs_pos; lia. }
  destruct (copying_up y A t n Hr Hn) as (Hin & Hi & Hia & Ha & Hc). cbn [valid own_sections] in *. destruct Hv as [Hok Hv]. pose proof (sys_step t' e y A Hr) as Hst.
  destruct (spec_step t' e A) as [A'|] eqn:Es; cbn [default] in Hv.
  2: { rewrite Hst in Hle. destruct (IH y A n Hr Hv Hn Hle) as (es1 & es2 & y' & -> & Hrun & Hret). exists ((t', e) :: es1), es2, y'. split; [done |]. split; [| done]. cbn [run]. by rewrite Hst. }
  destruct (Hst Hok) as (y1 & Hy1 & Hr1 & Hi1). rewrite Hy1 in Hle. specialize (Hi1 Hin).
  assert (Hnext : returned (threads y1 !! t) = true ∨ ∃ n', copying (info (kernel y1)) (threads y1 !! t) = Some n' ∧ n' <= own_sections t es y1).
  { destruct (decide (t' = t)) as [->|Hne].
    - unfold spec_step in Es. destruct (spec_section e (aphases A !! t)) as [f|] eqn:Ef; [| done]. pose proof (io_ssz _ Hi).
      pose proof (section_nearer t e A f n Ef Hok) as Hnear. rewrite Hia in Hnear. specialize (Hnear ltac:(lia) Ha Hc). destruct (f (spec A)) as [a' ph']. injection Es as <-. cbn [snd] in Hnear.
      destruct Hnear as [Hret|(n' & Hn' & Hlt)]; [left; rewrite (returned_rel_sys _ _ t Hr1); cbn; by rewrite lookup_insert_eq |]. right. exists n'. split; [| lia].
      rewrite Hi1. destruct Hr1 as [(g & _ & Ht)|Hd]; [destruct (copying_rel _ _ _ (info (kernel y)) _ _ _ (Ht t)) as [-> _]; cbn; by rewrite lookup_insert_eq |].
      destruct (down_idle _ _ t Hd) as [_ Hx]. cbn in Hx. rewrite lookup_insert_eq in Hx. by destruct ph'.
    - right. exists n. unfold step in Hy1. destruct (section e (threads y !! t')) as [m|]; [| done]. destruct (m (kernel y)) as [[ph s]|]; [| done]. injection Hy1 as <-.
      cbn in *. rewrite lookup_insert_ne by done. rewrite Hi1. split; [done | lia]. }
  destruct Hnext as [Hret|(n' & Hn' & Hle')]; [exists [(t', e)], es, y1; split; [done |]; split; [| done]; cbn [run]; by rewrite Hy1 |].
  destruct (IH y1 A' n' Hr1 Hv Hn' Hle') as (es1 & es2 & y' & -> & Hrun & Hret). exists ((t', e) :: es1), es2, y'. split; [done |]. split; [| done]. cbn [run]. by rewrite Hy1.
Qed.
