(* ===== verification/MsgTrip.v ===== *)
(** * System V message queues: from a sender to a receiver

    A message that is sent to an empty queue is what the next receiver gets. *)

From S2P Require Import Prelude Chain Ipc Msg MsgSpec MsgRel MsgSegs MsgBase MsgQueue MsgSend MsgAlloc MsgInit MsgCalls MsgGet MsgRun.

(** The text is copied in segment by segment. *)
Fixpoint copyins (t : nat) (now : Z) (ssz : nat) (fuel : nat) (text : list Z) : list (nat * action) :=
  match fuel, text with
  | S fuel, _ :: _ => (t, CopiedIn 0 now 0 text) :: copyins t now ssz fuel (drop ssz text)
  | _, _ => []
  end.

Definition sending (t : nat) (p : Z) (c : cred) (now id flg ty : Z) (ssz : nat) (text : list Z) : list (nat * action) :=
  (t, Snd p c 0 id (zlen text) flg) :: (t, CopiedType 0 now 0 ty) :: copyins t now ssz (length text) text.

(** More copies than there are segments are not made. *)
Definition receiving (t : nat) (p : Z) (c : cred) (now id size typ flg : Z) (n : nat) : list (nat * action) :=
  (t, Rcv p true c 0 0 now id size typ flg) :: (t, Copied 0) :: replicate n (t, CopiedOut 0 0).

(** ** Steps of the specification *)

Lemma spec_run_app es es' : ∀ A, spec_run (es ++ es') A = spec_run es' (spec_run es A).
Proof. induction es as [|[t e] es IH]; intros A; [done |]. cbn. by rewrite IH. Qed.

Lemma valid_app es es' : ∀ A, valid (es ++ es') A ↔ valid es A ∧ valid es' (spec_run es A).
Proof. induction es as [|[t e] es IH]; intros A; cbn; [naive_solver |]. rewrite IH. naive_solver. Qed.

Lemma run_app es es' : ∀ y y1, run es y = Ok y1 → run (es ++ es') y = run es' y1.
Proof.
  induction es as [|[t e] es IH]; intros y y1; cbn; [by intros [= ->] |]. destruct (step t e y) as [[y'|]|]; [apply IH | done | apply IH].
Qed.

Lemma spec_step_eq t e A f a' ph : spec_section e (aphases A !! t) = Some f → f (spec A) = (a', ph) →
  spec_step t e A = Some (ASys a' (<[t := ph]> (aphases A))).
Proof. intros Hf Ha. unfold spec_step. by rewrite Hf, Ha. Qed.

(** ** Sending *)

Section copyin.
Context (t : nat) (now ty : Z) (x : snd_args).

Lemma copyins_run fuel : ∀ rest acc A, aphases A !! t = Some (ASndSeg x ty acc) → sn_size x = zlen acc + zlen rest → rest ≠ [] →
  (length rest <= fuel)%nat → 0 < msgssz (a_info (spec A)) →
  let es := copyins t now (Z.to_nat (msgssz (a_info (spec A)))) fuel rest in
  let '(a', ph) := spec_snd_finish 0 now x (AMsg ty (acc ++ rest)) (spec A) in
  valid es A ∧ spec_run es A = ASys a' (<[t := ph]> (aphases A)).
Proof.
  induction fuel as [|fuel IH]; intros rest acc A Hph Hsz Hne Hfuel Hs; [destruct rest; [done | cbn in Hfuel; lia] |]. cbn zeta. destruct rest as [|c rest]; [done |].
  set (w := c :: rest) in *. set (k := Z.to_nat (msgssz (a_info (spec A)))). set (piece := take k w).
  change (copyins t now k (S fuel) w) with ((t, CopiedIn 0 now 0 w) :: copyins t now k fuel (drop k w)).
  assert (Hpl : zlen piece = Z.min (zlen w) (msgssz (a_info (spec A)))) by (unfold piece, zlen; rewrite length_take; lia).
  assert (Htake : take (Z.to_nat (Z.min (sn_size x - zlen acc) (msgssz (a_info (spec A))))) w = piece).
  { unfold piece. rewrite Hsz. replace (zlen acc + zlen w - zlen acc) with (zlen w) by lia. destruct (decide (zlen w <= msgssz (a_info (spec A)))) as [H|H].
    - rewrite !take_ge by (unfold zlen in *; lia). done.
    - by replace (Z.min (zlen w) (msgssz (a_info (spec A)))) with (msgssz (a_info (spec A))) by lia. }
  assert (Hacc : zlen (acc ++ piece) = zlen acc + zlen piece) by (unfold zlen; rewrite length_app; lia).
  assert (Hok : action_ok t (CopiedIn 0 now 0 w) A) by (intros x' ty' acc' H _; rewrite Hph in H; injection H as <- <- <-; lia).
  assert (Hw : acc ++ w = (acc ++ piece) ++ drop k w) by (rewrite <- app_assoc; unfold piece; by rewrite take_drop).
  destruct (spec_snd_finish 0 now x (AMsg ty (acc ++ w)) (spec A)) as [a' ph] eqn:Ef. cbn [valid spec_run].
  destruct (Z.ltb_spec (zlen (acc ++ piece)) (sn_size x)) as [Hlt|Hge].
  - assert (spec_step t (CopiedIn 0 now 0 w) A = Some (ASys (spec A) (<[t := ASndSeg x ty (acc ++ piece)]> (aphases A)))) as ->.
    { eapply spec_step_eq; [by rewrite Hph |]. unfold spec_snd_seg. cbn [negb Z.eqb]. rewrite Htake. destruct (Z.ltb_spec (zlen (acc ++ piece)) (sn_size x)); [done | lia]. }
    cbn [default]. set (A1 := ASys _ _). assert (Hd : zlen (drop k w) = zlen w - zlen piece) by (unfold zlen in *; rewrite length_drop; lia).
    assert (drop k w ≠ []) as Hdne by (intros E; rewrite E in Hd; unfold zlen at 1 in Hd; cbn in Hd; lia).
    specialize (IH (drop k w) (acc ++ piece) A1). cbn in IH. rewrite <- Hw, Ef in IH. destruct IH as [Hv Hr].
    + by rewrite lookup_insert_eq.
    + lia.
    + done.
    + rewrite length_drop. cbn in *. lia.
    + done.
    + split; [done |]. fold k in Hr. change (id A1) with A1. rewrite Hr. cbn. by rewrite insert_insert_eq.
  - assert (piece = w) as Hpw by (unfold piece; apply take_ge; unfold zlen in *; lia).
    assert (spec_step t (CopiedIn 0 now 0 w) A = Some (ASys a' (<[t := ph]> (aphases A)))) as ->.
    { eapply spec_step_eq; [by rewrite Hph |]. unfold spec_snd_seg. cbn [negb Z.eqb]. rewrite Htake. destruct (Z.ltb_spec (zlen (acc ++ piece)) (sn_size x)); [lia |]. by rewrite Hpw. }
    assert (drop k w = []) as -> by (apply drop_ge; unfold zlen in *; rewrite Hpw in Hpl; lia). cbn [default]. by destruct fuel.
Qed.

End copyin.

Lemma relock m : tst m MSG_LOCKED = false → unlock (lock m) = m.
Proof.
  intros H. unfold lock, unlock. unfold tst in H. apply negb_false_iff, Z.eqb_eq in H. apply Z.bits_inj'. intros k Hk0.
  rewrite Z.land_spec, Z.lor_spec, Z.lnot_spec by done. assert (Hk : Z.testbit (Z.land m MSG_LOCKED) k = false) by (rewrite H; apply Z.bits_0).
  rewrite Z.land_spec in Hk. by destruct (Z.testbit m k), (Z.testbit MSG_LOCKED k).
Qed.

Section send.
Context (t : nat) (p now id flg ty : Z) (c : cred) (text : list Z) (A : asys) (sl : aslot).
Let i := IPCID_TO_IX id.
Hypotheses (Hup : a_up (spec A) = true) (Hsl : get_slot i (spec A) = Some sl) (Hlive : live sl = true).
Hypotheses (Hseq : _seq (msg_perm (sl_meta sl)) = IPCID_TO_SEQ id) (Hmsgs : sl_msgs sl = []) (Hlk : locked (sl_meta sl) = false).
Hypotheses (Hperm : ipcperm c (msg_perm (sl_meta sl)) IPC_W = 0) (Hret : areturned (aphases A !! t) = true).
Hypotheses (Hsz : zlen text <= msg_qbytes (sl_meta sl) < 2 ^ 64) (Hhdrs : a_hdrs (spec A) ≠ 0).
Hypotheses (Hsegs : nsegs (a_info (spec A)) (zlen text) <= a_segs (spec A)) (Hty : 1 <= ty) (Hssz : 0 < msgssz (a_info (spec A))).

Lemma spec_find_up : spec_find id (spec A) = (inr (i, sl), spec A).
Proof. unfold spec_find, spec_init. rewrite Hup. cbn [negb]. fold i. rewrite Hsl, Hlive, Hseq, Z.eqb_refl. done. Qed.

(** The queue after the message has been sent. *)
Definition sent_slot : aslot := ASlot (set_sent p now (sl_meta sl)) [AMsg ty text].

Lemma send_run : let es := sending t p c now id flg ty (Z.to_nat (msgssz (a_info (spec A)))) text in
  valid es A ∧ ∃ a', spec_run es A = ASys a' (<[t := AReturn 0 0]> (aphases A)) ∧ a_up a' = true ∧ a_info a' = a_info (spec A) ∧ get_slot i a' = Some sent_slot.
Proof.
  cbn zeta. unfold sending. set (x := SndArgs p id (zlen text) flg (snd_segs (a_info (spec A)) (zlen text))).
  set (a1 := put_free (a_hdrs (spec A) - 1) (a_segs (spec A) - nsegs (a_info (spec A)) (zlen text)) (put_slot i (lock_slot sl) (spec A))).
  assert (Hs1 : spec_step t (Snd p c 0 id (zlen text) flg) A = Some (ASys a1 (<[t := ASndType x]> (aphases A)))).
  { eapply spec_step_eq; [by cbn [spec_section]; rewrite Hret |]. unfold spec_snd. rewrite spec_find_up, Hperm. cbn [negb Z.eqb]. fold x. unfold spec_snd_loop. cbn [sn_id x]. fold i. rewrite Hsl.
    destruct (Z.gtb_spec (zlen text) (msg_qbytes (sl_meta sl))); [lia |]. unfold blocking. cbn [sn_size x]. rewrite (proj2 (Z.eqb_neq _ _) Hhdrs), Hlk, Hmsgs. cbn [orb bytes foldr].
    rewrite Z.add_0_r. destruct (Z.gtb_spec (nsegs (a_info (spec A)) (zlen text)) (a_segs (spec A))); [lia |]. by destruct (Z.gtb_spec (zlen text) (msg_qbytes (sl_meta sl))); [lia |]. }
  set (A1 := ASys a1 _) in Hs1. assert (Hg1 : get_slot i a1 = Some (lock_slot sl)) by (apply (get_put (spec A)); by eexists).
  assert (Hmeta : set_mode unlock (set_mode lock (sl_meta sl)) = sl_meta sl).
  { unfold set_mode, set_perm. cbn. rewrite relock by exact Hlk. by destruct (sl_meta sl) as [[] ? ? ? ? ? ? ? ? ? ?]. }
  assert (Hfin : ∃ a', spec_snd_finish 0 now x (AMsg ty text) a1 = (a', AReturn 0 0) ∧ a_up a' = true ∧ a_info a' = a_info (spec A) ∧ get_slot i a' = Some sent_slot).
  { unfold spec_snd_finish. cbn [sn_id x]. fold i. rewrite Hg1. cbn [sl_meta sl_msgs lock_slot]. rewrite Hmeta, Hmsgs.
    replace (live (lock_slot sl)) with true by (by unfold live in *). cbn [negb Z.eqb]. eexists. split; [done |]. split; [done |]. split; [done |].
    exact (get_put a1 i _ ltac:(by eexists)). }
  destruct Hfin as (a' & Hfin & Hup' & Hinf' & Hg'). cbn [valid spec_run]. rewrite Hs1. change (default A (Some A1)) with A1.
  assert (Hp1 : aphases A1 !! t = Some (ASndType x)) by (cbn; by rewrite lookup_insert_eq).
  assert (Hmax : 0 <= zlen text < 2 ^ 64) by (pose proof (zlen_nonneg text); lia).
  destruct (decide (text = [])) as [E|Hne].
  - assert (spec_step t (CopiedType 0 now 0 ty) A1 = Some (ASys a' (<[t := AReturn 0 0]> (aphases A1)))) as ->.
    { eapply spec_step_eq; [by rewrite Hp1 |]. unfold spec_snd_type. cbn [negb Z.eqb]. destruct (Z.ltb_spec ty 1); [lia |]. cbn [sn_size x]. rewrite E in *. exact Hfin. }
    rewrite E. cbn. split; [done |]. exists a'. split; [by rewrite insert_insert_eq | done].
  - assert (spec_step t (CopiedType 0 now 0 ty) A1 = Some (ASys a1 (<[t := ASndSeg x ty []]> (aphases A1)))) as ->.
    { eapply spec_step_eq; [by rewrite Hp1 |]. unfold spec_snd_type. cbn [negb Z.eqb]. destruct (Z.ltb_spec ty 1); [lia |]. cbn [sn_size x].
      destruct (Z.gtb_spec (zlen text) 0) as [|H0]; [done |]. destruct text; [done |]. rewrite zlen_cons in H0. pose proof (zlen_nonneg l). lia. }
    set (A2 := ASys a1 _). change (default A1 (Some A2)) with A2.
    pose proof (copyins_run t now ty x (length text) text [] A2) as H. cbn [app] in H. change (spec A2) with a1 in H. rewrite Hfin in H.
    destruct H as [Hv Hr]; [cbn; by rewrite lookup_insert_eq | done | done | done | done |].
    split; [done |]. exists a'. split; [| done]. etrans; [exact Hr |]. cbn. by rewrite !insert_insert_eq.
Qed.

End send.

(** ** Receiving *)

Lemma copyouts_idle t n : ∀ A e v ty text, aphases A !! t = Some (ARcvReturn e v ty text) → spec_run (replicate n (t, CopiedOut 0 0)) A = A.
Proof.
  induction n as [|n IH]; intros A e v ty text H; [done |]. cbn [replicate spec_run]. unfold spec_step. rewrite H. cbn. by eapply IH.
Qed.

Lemma copyouts_valid t n : ∀ A, valid (replicate n (t, CopiedOut 0 0)) A.
Proof. induction n as [|n IH]; intros A; [done |]. cbn. split; [done | apply IH]. Qed.

Lemma copyouts_run t x m n : ∀ got A, aphases A !! t = Some (ARcvSeg x m got) → got = take (length got) (rcv_text x m) → 0 <= rcv_size x m →
  zlen got < rcv_size x m → rcv_size x m - zlen got <= Z.of_nat n → 0 < msgssz (a_info (spec A)) →
  aphases (spec_run (replicate n (t, CopiedOut 0 0)) A) !! t = Some (ARcvReturn 0 (rcv_size x m) (rcv_mtype x m) (rcv_text x m)).
Proof.
  induction n as [|n IH]; intros got A Hp Hgot Hsz Hlt Hn Hs; [lia |]. cbn [replicate spec_run]. unfold spec_step. rewrite Hp. cbn [spec_section].
  unfold spec_rcv_seg. cbn [negb Z.eqb]. set (k := Z.to_nat (msgssz (a_info (spec A)))). set (more := take k (drop (length got) (rcv_text x m))).
  assert (Hlen : zlen (rcv_text x m) = rcv_size x m) by (unfold rcv_text; unfold zlen at 1; rewrite length_take; unfold rcv_size, zlen in *; lia).
  assert (Hm : zlen more = Z.min (msgssz (a_info (spec A))) (rcv_size x m - zlen got)) by (rewrite <- Hlen; unfold more, k, zlen in *; rewrite length_take, length_drop; lia).
  assert (Hgl : zlen (got ++ more) = zlen got + zlen more) by (unfold zlen; rewrite length_app; lia).
  assert (Hgm : got ++ more = take (length (got ++ more)) (rcv_text x m)).
  { rewrite length_app. rewrite <- take_take_drop, <- Hgot. f_equal. unfold more. rewrite length_take. unfold zlen in *.
    set (w := drop (length got) (rcv_text x m)). destruct (decide (k <= length w)%nat); [by rewrite Nat.min_l |]. rewrite Nat.min_r by lia. by rewrite !take_ge by lia. }
  unfold spec_rcv_next. destruct (Z.ltb_spec (zlen (got ++ more)) (rcv_size x m)) as [Hl|Hl].
  - cbn [default]. apply (IH (got ++ more)); [cbn; by rewrite lookup_insert_eq | done | done | done | lia | done].
  - unfold spec_rcv_end. cbn [default]. set (A' := ASys _ _). assert (Ha' : aphases A' !! t = Some (ARcvReturn 0 (rcv_size x m) (rcv_mtype x m) (got ++ more))) by (cbn; by rewrite lookup_insert_eq).
    change (id A') with A'. rewrite (copyouts_idle t n A' _ _ _ _ Ha'), Ha'. rewrite Hgm, take_ge; [done |]. unfold zlen in *. lia.
Qed.

Section receive.
Context (t : nat) (p now id size typ flg : Z) (c : cred) (A : asys) (sl : aslot) (m : amsg).
Let i := IPCID_TO_IX id.
Hypotheses (Hup : a_up (spec A) = true) (Hsl : get_slot i (spec A) = Some sl) (Hlive : live sl = true).
Hypotheses (Hseq : _seq (msg_perm (sl_meta sl)) = IPCID_TO_SEQ id) (Hmsgs : sl_msgs sl = [m]).
Hypotheses (Hperm : ipcperm c (msg_perm (sl_meta sl)) IPC_R = 0) (Hret : areturned (aphases A !! t) = true).
Hypotheses (Hsz : zlen (m_text m) <= size) (Htyp : typ = 0 ∨ typ = m_type m) (Hssz : 0 < msgssz (a_info (spec A))).

Lemma receive_run : let es := receiving t p c now id size typ flg (length (m_text m)) in
  valid es A ∧ aphases (spec_run es A) !! t = Some (ARcvReturn 0 (zlen (m_text m)) (m_type m) (m_text m)).
Proof.
  cbn zeta. unfold receiving. set (x := RcvArgs p true id size typ flg). pose proof (zlen_nonneg (m_text m)) as H0.
  assert (Hrs : rcv_size x m = zlen (m_text m)) by (unfold rcv_size; cbn; lia).
  assert (Hrt : rcv_text x m = m_text m) by (unfold rcv_text; rewrite Hrs; apply take_ge; unfold zlen; lia).
  set (a1 := put_slot i (ASlot (set_received p now (sl_meta sl)) []) (spec A)).
  assert (Hs1 : spec_step t (Rcv p true c 0 0 now id size typ flg) A = Some (ASys a1 (<[t := ARcvType x m]> (aphases A)))).
  { eapply spec_step_eq; [by cbn [spec_section]; rewrite Hret |]. unfold spec_rcv. rewrite (spec_find_up id A sl) by done. rewrite Hperm. cbn [negb Z.eqb]. fold x.
    unfold spec_rcv_loop. cbn [rc_id x rc_typ]. fold i. rewrite Hsl, Hmsgs. cbn [pick].
    assert ((typ =? 0) || matches typ (m_type m) = true) as -> by (unfold matches; destruct Htyp as [->| ->]; [done | rewrite Z.eqb_refl; by destruct (m_type m =? 0)]).
    unfold too_big. cbn [rc_size x]. destruct (Z.ltb_spec size (zlen (m_text m))); [lia | done]. }
  set (A1 := ASys a1 _) in Hs1. cbn [valid spec_run]. rewrite Hs1. change (default A (Some A1)) with A1.
  assert (Hp1 : aphases A1 !! t = Some (ARcvType x m)) by (cbn; by rewrite lookup_insert_eq). split; [split; [cbn; lia |]; split; [done | apply copyouts_valid] |].
  destruct (Z.ltb_spec 0 (zlen (m_text m))) as [Hl|Hl].
  - assert (spec_step t (Copied 0) A1 = Some (ASys a1 (<[t := ARcvSeg x m []]> (aphases A1)))) as ->.
    { eapply spec_step_eq; [by rewrite Hp1 |]. unfold spec_rcv_type, spec_rcv_next. cbn [negb Z.eqb]. rewrite Hrs. destruct (Z.ltb_spec (zlen (A:=Z) []) (zlen (m_text m))) as [|Hb]; [done |]. unfold zlen at 2 in Hb. cbn in Hb. lia. }
    set (A2 := ASys _ _). change (default A1 (Some A2)) with A2.
    pose proof (copyouts_run t x m (length (m_text m)) [] A2) as H. rewrite Hrs, Hrt in H. apply H; [cbn; by rewrite lookup_insert_eq | done | lia | unfold zlen in *; cbn; lia | unfold zlen; cbn; lia | done].
  - destruct (m_text m) as [|ch tx] eqn:E; [| rewrite zlen_cons in Hl; pose proof (zlen_nonneg tx); lia]. cbn [length replicate spec_run].
    assert (∃ a2, spec_step t (Copied 0) A1 = Some (ASys a2 (<[t := ARcvReturn 0 0 (m_type m) []]> (aphases A1)))) as [a2 ->].
    { eexists. eapply spec_step_eq; [by rewrite Hp1 |]. unfold spec_rcv_type, spec_rcv_next. cbn [negb Z.eqb]. by rewrite Hrs. }
    cbn. by rewrite lookup_insert_eq.
Qed.

End receive.
