(* ===== verification/MsgThms.v ===== *)
(** * System V message queues: theorems

    What holds in all runs of any number of threads, and runs in which the code
    does not do what it should. *)

From S2P Require Import Prelude Chain Ipc Msg MsgSpec MsgRel MsgSegs MsgBase MsgQueue MsgSend MsgAlloc MsgInit MsgCalls MsgGet MsgRun MsgProgress MsgTrip.

(** ** Runs that can be evaluated *)

Lemma msginfo_init_ok : info_ok (check_info msginfo_init).
Proof. split; vm_compute; done. Qed.

(** Memory that is zero. *)
Definition zeroed : alloc :=
  Alloc (Some (λ _, 0)) (Some (λ _, 0)) (Some (λ _, Msg 0 0 0 0))
    (Some (λ _, MsqidDs (IpcPerm 0 0 0 0 0 0 0) 0 0 0 0 0 0 0 0 0 0)).

Definition action_okb (t : nat) (e : action) (A : asys) : bool :=
  match e with
  | Snd _ _ _ _ msgsz _ => (0 <=? msgsz) && (msgsz <? 2 ^ 64)
  | Rcv _ _ _ _ _ _ _ msgsz _ _ => 0 <=? msgsz
  | CopiedIn _ _ eval more =>
      match aphases A !! t with
      | Some (ASndSeg x _ text) => negb (eval =? 0) || (Z.min (sn_size x - zlen text) (msgssz (a_info (spec A))) <=? zlen more)
      | _ => true
      end
  | CopiedSet _ _ b => (0 <=? u_qbytes b) &&
      match aphases A !! t with
      | Some (ASetCopyin c i) => match get_slot i (spec A) with Some sl => negb (cr_super c) || live sl | None => true end
      | _ => true
      end
  | _ => true
  end.

Lemma action_okb_sound t e A : action_okb t e A = true → action_ok t e A.
Proof.
  destruct e; cbn; try done; try lia.
  - intros [Hq H]%andb_true_iff. split; [lia |]. intros c i sl Hp Hg Hs. rewrite Hp, Hg, Hs in H. done.
  - intros H x type tx Hp ->. rewrite Hp in H. cbn in H. lia.
Qed.

Fixpoint validb (es : list (nat * action)) (A : asys) : bool :=
  match es with
  | [] => true
  | (t, e) :: es => action_okb t e A && validb es (default A (spec_step t e A))
  end.

Lemma validb_sound es : ∀ A, validb es A = true → valid es A.
Proof. induction es as [|[t e] es IH]; intros A; [done |]. cbn. intros [H1 H2]%andb_true_iff. split; [by apply action_okb_sound | by apply IH]. Qed.

Definition user (n : Z) : cred := Cred n n false (λ g, g =? n).
Definition root : cred := Cred 0 0 true (λ _, true).
Definition creat (m : Z) : Z := Z.lor IPC_CREAT m.

(** Identifiers of the first queue in the entries 0, 0 again, and 1. *)
Definition q0 : Z := 0x10000.
Definition q0' : Z := 0x20000.
Definition q1 : Z := 0x10001.

(** A message of a thread that need not wait. *)
Definition send (t : nat) (u ty id : Z) (text : list Z) : list (nat * action) := sending t u (user u) 7 id 0 ty 8 text.
Definition recv (t : nat) (u id typ : Z) (n : nat) : list (nat * action) := receiving t u (user u) 8 id 100 typ IPC_NOWAIT n.

Definition outcome_after (es : list (nat * action)) (t : nat) : res (option outcome) :=
  y ← run es (boot msginfo_init [zeroed]); Ok (outcome_of (threads y !! t)).

(** Two senders and a receiver that asks for the second message. *)
Definition demo : list (nat * action) :=
  (1%nat, Get (user 5) 0 1 77 (creat 0x180)) :: send 1 5 3 q0 [104; 101; 108; 108; 111] ++ send 2 5 4 q0 [116; 104; 101; 32; 119; 111; 114; 108; 100; 33] ++ recv 3 5 q0 4 10.

Lemma demo_delivers : outcome_after demo 3 = Ok (Some (ORcv 0 10 4 [116; 104; 101; 32; 119; 111; 114; 108; 100; 33])).
Proof. vm_compute. reflexivity. Qed.

(** ** All runs *)

Section runs.
Context (mi : msginfo) (hp : list alloc) (es : list (nat * action)) (y : sys).
Hypotheses (Hmi : info_ok (check_info mi)) (Hv : valid es (aboot mi hp)) (Hrun : run es (boot mi hp) = Ok y).

Lemma reached : sys_rel y (spec_run es (aboot mi hp)).
Proof. destruct (run_rel es _ _ (boot_rel mi hp Hmi) Hv) as (y' & Hy & Hr). rewrite Hrun in Hy. by injection Hy as <-. Qed.

End runs.

(** C5: in every valid run of any number of threads whose sections come in any
    order, no section reads or writes outside the arrays or reaches a panic;
    every call returns what the specification says, in which a queue is a list
    of messages, [msgsnd] adds one at the end and [msgrcv] takes the first one
    of a type; and the same sleepers are woken up.  A run is valid when sizes
    are not negative and fit 64 bits, a copy from user memory that succeeds has
    all the bytes that were asked for, and the super user does not finish an
    [IPC_SET] of a queue that has been removed since it began ([ipc_set_revives]
    shows what happens otherwise); the limits are as [info_ok] says, which those
    the kernel starts with are. *)
Theorem msg_refines mi hp es : info_ok (check_info mi) → valid es (aboot mi hp) →
  ∃ y, run es (boot mi hp) = Ok y ∧ agree y (spec_run es (aboot mi hp)).
Proof.
  intros Hmi Hv. destruct (run_rel es _ _ (boot_rel mi hp Hmi) Hv) as (y & Hy & Hr). exists y. split; [done | by apply sys_rel_agree].
Qed.

Lemma msg_refines_witness : ∃ y, run demo (boot msginfo_init [zeroed]) = Ok y ∧ agree y (spec_run demo (aboot msginfo_init [zeroed])).
Proof. apply msg_refines; [apply msginfo_init_ok | apply validb_sound; vm_compute; reflexivity]. Defined.

(** *** Headers and segments are not lost *)

Definition settled (y : sys) : Prop :=
  (∀ t, returned (threads y !! t) = true) ∧ ∀ i q, rd (msqids (kernel y)) i = Ok q → msg_qbytes q ≠ 0 → msg_qnum q = 0.

Lemma settled_owners y A g : settled y → base_rel (kernel y) g (spec A) →
  (∀ t, thread_rel (kernel y) g (spec A) t (threads y !! t) (aphases A !! t)) → ∀ o, o ≠ HFree → hl g o = [].
Proof.
  intros [Ht Hq] Hb Hth [|i|t] Hne; [done | | by apply (returned_rel _ _ _ _ _ _ (Hth t))]. pose proof (ba_slots _ _ _ Hb) as (Hlen & Hout & _).
  pose proof (ho_ids _ _ (ba_heap _ _ _ Hb)) as Hids. destruct (decide (0 <= i < zlen (msqids (kernel y)))) as [Hi|Hi]; [| by apply Hout].
  destruct (slots_lookup _ _ _ Hb i ltac:(lia)) as (q & [sl|] & Hrd & _ & _ & Hr); cbn in Hr; [| by apply Hr].
  destruct (live sl) eqn:El; [| by apply (us_dead _ _ _ _ _ Hr)]. specialize (Hq i q Hrd). unfold live in El. rewrite <- (slot_qbytes _ _ _ _ _ Hr) in El.
  rewrite (us_qnum _ _ _ _ _ Hr) in Hq. pose proof (us_msgs _ _ _ _ _ Hr) as Hm. destruct (sl_msgs sl); [by inversion Hm |].
  rewrite zlen_cons in Hq. pose proof (zlen_nonneg l). lia.
Qed.

Lemma parts_all_free {O} `{!EqDecision O} n (f : O → list Z) o : parts n f → (∀ p, p ≠ o → f p = []) → f o ≡ₚ upto n.
Proof.
  intros Hp Hf. apply NoDup_Permutation; [apply (pa_nodup _ _ Hp) | apply upto_nodup |].
  intros x. rewrite elem_of_upto. split; [apply (pa_range _ _ Hp) |]. intros Hx. destruct (pa_all _ _ Hp x Hx) as [p Hxp].
  destruct (decide (p = o)) as [->|Hne]; [done |]. rewrite (Hf p Hne) in Hxp. by apply elem_of_nil in Hxp.
Qed.

(** C14: nothing leaks: in a valid run, whenever all calls have returned and
    all queues are empty, the list of free headers has every header, once, and
    the list of free segments has every segment, once, and so says the count of
    free segments. *)
Theorem msg_no_leak mi hp es y : info_ok (check_info mi) → valid es (aboot mi hp) → run es (boot mi hp) = Ok y →
  initted (kernel y) = true → settled y →
  nfree_msgmaps (kernel y) = msgseg (info (kernel y)) ∧
  (∃ k, chain (snext (kernel y)) (free_msgmaps (kernel y)) k ∧ k ≡ₚ upto (msgseg (info (kernel y)))) ∧
  (∃ l, chain (hnext (kernel y)) (free_msghdrs (kernel y)) l ∧ l ≡ₚ upto (msgtql (info (kernel y)))).
Proof.
  intros Hmi Hv Hrun Hin Hse. destruct (reached mi hp es y Hmi Hv Hrun) as [(g & Hb & Hth)|[Hd _]]; [| by rewrite (dn_init _ _ Hd) in Hin].
  pose proof (settled_owners y _ g Hse Hb Hth) as Hown. pose proof (ba_heap _ _ _ Hb) as Hok. pose proof (io_seg _ (ho_info _ _ Hok)).
  assert (Hseg : sg g SFree ≡ₚ upto (msgseg (info (kernel y)))).
  { apply parts_all_free; [apply Hok |]. intros [|h] Hp; [done |]. destruct (sg g (SHdr h)) as [|x k] eqn:E; [done |].
    destruct (ho_owned _ _ Hok h x) as (o & Ho & Hh); [rewrite E; by constructor |]. rewrite (Hown o Ho) in Hh. by apply elem_of_nil in Hh. }
  split; [rewrite (ho_nfree _ _ Hok); unfold zlen; rewrite Hseg; apply upto_length; lia |].
  split; [exists (sg g SFree); split; [apply Hok | done] |].
  exists (hl g HFree). split; [apply Hok |]. by apply parts_all_free; [apply Hok |].
Qed.

Definition settledb (y : sys) : bool :=
  initted (kernel y) && forallb (λ p, returned (Some (snd p))) (map_to_list (threads y)) &&
  forallb (λ q, (msg_qbytes q =? 0) || (msg_qnum q =? 0)) (msqids (kernel y)).

Lemma settledb_sound y : settledb y = true → initted (kernel y) = true ∧ settled y.
Proof.
  unfold settledb. intros [[Hi Ht]%andb_true_iff Hq]%andb_true_iff. split; [done |]. split.
  - intros t. destruct (threads y !! t) as [ph|] eqn:E; [| done]. apply elem_of_map_to_list in E. rewrite forallb_forall in Ht. apply (Ht (t, ph)). by apply list_elem_of_In.
  - intros i q [_ Hrd]%rd_lookup Hne. rewrite forallb_forall in Hq. apply list_elem_of_lookup_2, list_elem_of_In in Hrd. specialize (Hq q Hrd). lia.
Qed.

(** What a run that is evaluated has led to. *)
Lemma run_check {A} es (f : sys → A) x y : run es (boot msginfo_init [zeroed]) = Ok y →
  (y ← run es (boot msginfo_init [zeroed]); Ok (f y)) = Ok x → f y = x.
Proof. intros ->. cbn. by intros [= ->]. Qed.

Definition demo_all : list (nat * action) := demo ++ recv 1 5 q0 0 5.

Lemma msg_no_leak_witness : ∃ y, run demo_all (boot msginfo_init [zeroed]) = Ok y ∧
  nfree_msgmaps (kernel y) = msgseg (info (kernel y)) ∧
  (∃ k, chain (snext (kernel y)) (free_msgmaps (kernel y)) k ∧ k ≡ₚ upto (msgseg (info (kernel y)))) ∧
  (∃ l, chain (hnext (kernel y)) (free_msghdrs (kernel y)) l ∧ l ≡ₚ upto (msgtql (info (kernel y)))).
Proof.
  assert (Hv : valid demo_all (aboot msginfo_init [zeroed])) by (apply validb_sound; vm_compute; reflexivity).
  destruct (run_rel _ _ _ (boot_rel msginfo_init [zeroed] msginfo_init_ok) Hv) as (y & Hy & _). exists y. split; [exact Hy |].
  destruct (settledb_sound y) as [Hi Hs]; [apply (run_check demo_all settledb true y Hy); vm_compute; reflexivity |].
  apply (msg_no_leak msginfo_init [zeroed] demo_all y msginfo_init_ok Hv Hy Hi Hs).
Defined.

(** *** Locks *)

(** The thread [t] sends to the entry [i] and has it locked. *)
Definition holds (th : gmap nat phase) (t : nat) (i : Z) : Prop :=
  match th !! t with
  | Some (SndSleep a true _) | Some (SndType a _) | Some (SndSeg a _ _ _) => IPCID_TO_IX (sn_id a) = i
  | _ => False
  end.

Lemma holds_owns s g a th (ath : gmap nat aphase) t i : thread_rel s g a t (th !! t) (ath !! t) → 0 <= i → holds th t i ↔ own (ath !! t) = Some (Z.to_nat i).
Proof.
  unfold holds. intros Ht Hi. assert (Hix : ∀ x, IPCID_TO_IX (sn_id x) = i ↔ Some (Z.to_nat (IPCID_TO_IX (sn_id x))) = Some (Z.to_nat i)).
  { intros x. pose proof (ix_nonneg (sn_id x)). split; [by intros -> |]. intros [= ?]. lia. }
  destruct (th !! t) as [[]|], (ath !! t) as [[]|]; try done; cbn in *; destruct_and?; simplify_eq; try apply Hix. destruct we_own_it0; [apply Hix | done].
Qed.

Lemma locked_lk s g a i q : base_rel s g a → rd (msqids s) i = Ok q → locked q = lk a (Z.to_nat i).
Proof.
  intros Hb Hq. pose proof (rd_range _ _ _ Hq) as Hi. pose proof (ho_ids _ _ (ba_heap _ _ _ Hb)) as Hids. unfold zlen in Hids.
  destruct (slots_lookup _ _ _ Hb i ltac:(lia)) as (q' & o & Hq' & Ho & _ & Hr). rewrite Hq in Hq'. injection Hq' as <-. unfold lk, slot_at. rewrite Ho.
  destruct o as [sl|]; cbn in *; [by eapply slot_locked |]. destruct Hr as (_ & _ & Hm & _). unfold locked. by rewrite Hm.
Qed.

(** C11: the lock of a queue is exclusive: an entry of the table is locked
    exactly when some thread that sends holds it, and no two threads hold the
    same entry, so that a thread that copies its message in is the only one. *)
Theorem msg_lock_exclusive mi hp es y : info_ok (check_info mi) → valid es (aboot mi hp) → run es (boot mi hp) = Ok y →
  ∀ i q, rd (msqids (kernel y)) i = Ok q →
    (locked q = true ↔ ∃ t, holds (threads y) t i) ∧ ∀ t t', holds (threads y) t i → holds (threads y) t' i → t = t'.
Proof.
  intros Hmi Hv Hrun i q Hq. pose proof (lock_inv_run es _ _ (boot_rel mi hp Hmi) Hv (lock_inv_boot mi hp)) as [Hown Hlk Hone]. pose proof (rd_range _ _ _ Hq) as [Hi _].
  destruct (reached mi hp es y Hmi Hv Hrun) as [(g & Hb & Hth)|[Hd _]]; [| rewrite (dn_ids _ _ Hd) in Hq; by apply rd_range in Hq; cbn in Hq; lia].
  assert (Hh : ∀ t, holds (threads y) t i ↔ own (aphases (spec_run es (aboot mi hp)) !! t) = Some (Z.to_nat i)) by (intros t; by eapply holds_owns).
  rewrite (locked_lk _ _ _ i q Hb Hq). setoid_rewrite Hh. split; [split; [apply Hlk | intros [t Ht]; by eapply Hown] |]. intros t t'. apply Hone.
Qed.

Lemma msg_lock_exclusive_witness : ∃ y, run (take 3 demo) (boot msginfo_init [zeroed]) = Ok y ∧
  ∀ i q, rd (msqids (kernel y)) i = Ok q → (locked q = true ↔ ∃ t, holds (threads y) t i) ∧ ∀ t t', holds (threads y) t i → holds (threads y) t' i → t = t'.
Proof.
  assert (Hv : valid (take 3 demo) (aboot msginfo_init [zeroed])) by (apply validb_sound; vm_compute; reflexivity).
  destruct (run_rel _ _ _ (boot_rel msginfo_init [zeroed] msginfo_init_ok) Hv) as (y & Hy & _). exists y. split; [exact Hy |].
  apply (msg_lock_exclusive msginfo_init [zeroed] (take 3 demo) y msginfo_init_ok Hv Hy).
Defined.

(** *** From a sender to a receiver *)

(** [q] is the queue with the identifier [id]; it is empty and a message of
    [n] bytes can be sent to it without waiting. *)
Record ready (s : state) (id : Z) (q : msqid_ds) (n : Z) : Prop := {
  re_entry : rd (msqids s) (IPCID_TO_IX id) = Ok q;
  re_live : msg_qbytes q ≠ 0;
  re_seq : _seq (msg_perm q) = IPCID_TO_SEQ id;
  re_empty : msg_qnum q = 0;
  re_unlocked : locked q = false;
  re_header : free_msghdrs s ≠ -1;
  re_segs : nsegs (info s) n <= nfree_msgmaps s;
  re_fits : n <= msg_qbytes q
}.

(** What such a queue is in the specification. *)
Lemma ready_slot y A id q n : sys_rel y A → ready (kernel y) id q n →
  ∃ sl, get_slot (IPCID_TO_IX id) (spec A) = Some sl ∧ meta q = sl_meta sl ∧ live sl = true ∧ sl_msgs sl = [] ∧ a_up (spec A) = true ∧
    a_info (spec A) = info (kernel y) ∧ 0 < msgssz (info (kernel y)) ∧ msg_qbytes q < 2 ^ 64 ∧ a_hdrs (spec A) ≠ 0 ∧ a_segs (spec A) = nfree_msgmaps (kernel y).
Proof.
  intros [(g & Hb & _)|[Hd _]] [Hq Hl Hs He Hu Hh Hn Hf]; [| rewrite (dn_ids _ _ Hd) in Hq; by apply rd_range in Hq; cbn in Hq; lia].
  pose proof (ba_heap _ _ _ Hb) as Hok. pose proof (ho_info _ _ Hok) as [? ? ? ? ? ?]. pose proof (rd_range _ _ _ Hq) as Hi. rewrite <- (ho_ids _ _ Hok) in *.
  destruct (slots_lookup _ _ _ Hb (IPCID_TO_IX id)) as (q' & [sl|] & Hq' & _ & Hg & Hr); [by rewrite <- (ho_ids _ _ Hok) | |]; rewrite Hq in Hq'; injection Hq' as <-; [| by destruct Hr].
  cbn in Hr. exists sl. split; [done |]. split; [apply Hr |]. split; [unfold live; rewrite <- (slot_qbytes _ _ _ _ _ Hr); lia |].
  split; [pose proof (us_qnum _ _ _ _ _ Hr) as Hz; rewrite He in Hz; destruct (sl_msgs sl) as [|m l]; [done |]; rewrite zlen_cons in Hz; pose proof (zlen_nonneg l); lia |].
  split; [apply Hb |]. split; [apply Hb |]. split; [lia |]. split; [pose proof (us_qbytes _ _ _ _ _ Hr); lia |].
  split; [pose proof (hdrs_zero _ _ _ Hb); lia | apply Hb].
Qed.

(** C12: a message makes the round trip: from any state that can be reached,
    a text that one thread sends to an empty queue, and that is cut into
    segments, comes out of [msgrcv] of the next receiver with the same type
    and the same bytes. *)
Theorem msg_roundtrip mi hp es y t t' p p' c c' now now' id flg flg' ty typ size text q :
  info_ok (check_info mi) → valid es (aboot mi hp) → run es (boot mi hp) = Ok y →
  returned (threads y !! t) = true → returned (threads y !! t') = true → ready (kernel y) id q (zlen text) →
  ipcperm c (msg_perm q) IPC_W = 0 → ipcperm c' (msg_perm q) IPC_R = 0 → 1 <= ty → typ = 0 ∨ typ = ty → zlen text <= size →
  ∃ y', run (sending t p c now id flg ty (Z.to_nat (msgssz (info (kernel y)))) text ++ receiving t' p' c' now' id size typ flg' (length text)) y = Ok y' ∧
    outcome_of (threads y' !! t') = Some (ORcv 0 (zlen text) ty text).
Proof.
  intros Hmi Hv Hrun Ht Ht' Hre Hw Hr Hty Htyp Hsz. pose proof (reached mi hp es y Hmi Hv Hrun) as Hrel. set (A := spec_run es (aboot mi hp)) in *.
  destruct (ready_slot y A id q _ Hrel Hre) as (sl & Hg & Hm & Hl & Hms & Hup & Hinf & Hs & Hqb & Hh & Hn). destruct Hre as [_ _ Hseq _ Hlk _ Hsegs Hfit].
  change (msg_perm q) with (msg_perm (meta q)) in *. change (msg_qbytes q) with (msg_qbytes (meta q)) in *. change (locked q) with (locked (meta q)) in *. rewrite Hm in *.
  rewrite (returned_rel_sys y A _ Hrel) in Ht. rewrite (returned_rel_sys y A _ Hrel) in Ht'. rewrite <- Hinf in *.
  destruct (send_run t p now id flg ty c text A sl) as (Hv1 & a1 & Hr1 & Hup1 & Hinf1 & Hg1); try done; [lia |].
  set (A1 := ASys a1 (<[t := AReturn 0 0]> (aphases A))) in *.
  destruct (receive_run t' p' now' id size typ flg' c' A1 (sent_slot p now ty text sl) (AMsg ty text)) as [Hv2 Hr2]; try done.
  { cbn. destruct (decide (t' = t)) as [->|]; [by rewrite lookup_insert_eq | by rewrite lookup_insert_ne]. }
  { cbn. by rewrite Hinf1. }
  cbn [m_text] in Hv2, Hr2. rewrite <- Hr1 in Hv2. destruct (run_rel _ y A Hrel (proj2 (valid_app _ _ _) (conj Hv1 Hv2))) as (y' & Hy' & Hrel').
  exists y'. split; [exact Hy' |]. destruct (sys_rel_agree _ _ Hrel') as [-> _]. rewrite spec_run_app, Hr1. by rewrite Hr2.
Qed.

Definition hello : list Z := [104; 101; 108; 108; 111; 44; 32; 119; 111; 114; 108; 100].

Lemma msg_roundtrip_witness : ∃ y y', run (take 1 demo) (boot msginfo_init [zeroed]) = Ok y ∧
  run (sending 1 5 (user 5) 7 q0 0 3 (Z.to_nat (msgssz (info (kernel y)))) hello ++ receiving 2 5 (user 5) 8 q0 100 0 IPC_NOWAIT 12) y = Ok y' ∧
  outcome_of (threads y' !! 2%nat) = Some (ORcv 0 12 3 hello).
Proof.
  assert (Hv : valid (take 1 demo) (aboot msginfo_init [zeroed])) by (apply validb_sound; vm_compute; reflexivity).
  destruct (run_rel _ _ _ (boot_rel msginfo_init [zeroed] msginfo_init_ok) Hv) as (y & Hy & _). exists y.
  set (q := new_queue (user 5) 1 77 (creat 0x180) 2048 0).
  destruct (msg_roundtrip msginfo_init [zeroed] (take 1 demo) y 1 2 5 5 (user 5) (user 5) 7 8 q0 0 IPC_NOWAIT 3 0 100 hello q msginfo_init_ok Hv Hy) as (y' & Hy' & Ho).
  - apply (run_check (take 1 demo) (λ y, returned (threads y !! 1%nat)) true y Hy). vm_compute. reflexivity.
  - apply (run_check (take 1 demo) (λ y, returned (threads y !! 2%nat)) true y Hy). vm_compute. reflexivity.
  - split.
    + apply (run_check (take 1 demo) (λ y, rd (msqids (kernel y)) (IPCID_TO_IX q0)) (Ok q) y Hy). vm_compute. reflexivity.
    + done.
    + reflexivity.
    + reflexivity.
    + reflexivity.
    + assert (H : free_msghdrs (kernel y) = 0) by (apply (run_check (take 1 demo) (λ y, free_msghdrs (kernel y)) 0 y Hy); vm_compute; reflexivity). by rewrite H.
    + apply Z.leb_le, (run_check (take 1 demo) (λ y, nsegs (info (kernel y)) (zlen hello) <=? nfree_msgmaps (kernel y)) true y Hy). vm_compute. reflexivity.
    + apply Z.leb_le. reflexivity.
  - reflexivity.
  - reflexivity.
  - lia.
  - by left.
  - apply Z.leb_le. reflexivity.
  - exists y'. split; [exact Hy |]. split; [exact Hy' | exact Ho].
Defined.

(** *** Copying ends *)

(** C19: copying terminates: a thread that copies a message in or out has
    returned once it has run a number of sections that is fixed by the size of
    what is left to copy, one for the type and one for each segment, whatever
    other threads do in between, removing the queue included. *)
Theorem msg_copy_terminates mi hp es es' y t n : info_ok (check_info mi) → valid (es ++ es') (aboot mi hp) → run es (boot mi hp) = Ok y →
  copying (info (kernel y)) (threads y !! t) = Some n → n <= own_sections t es' y →
  ∃ es1 es2 y', es' = es1 ++ es2 ∧ run es1 y = Ok y' ∧ returned (threads y' !! t) = true.
Proof.
  intros Hmi [Hv Hv']%valid_app Hrun. apply (copy_ends t es' y (spec_run es (aboot mi hp)) n (reached mi hp es y Hmi Hv Hrun) Hv').
Qed.

Lemma msg_copy_terminates_witness : ∃ y es1 es2 y', run (take 2 demo) (boot msginfo_init [zeroed]) = Ok y ∧ drop 2 demo = es1 ++ es2 ∧
  run es1 y = Ok y' ∧ returned (threads y' !! 1%nat) = true.
Proof.
  assert (Hv : valid (take 2 demo ++ drop 2 demo) (aboot msginfo_init [zeroed])) by (apply validb_sound; vm_compute; reflexivity).
  destruct (run_rel (take 2 demo) _ _ (boot_rel msginfo_init [zeroed] msginfo_init_ok) (proj1 (proj1 (valid_app _ _ _) Hv))) as (y & Hy & _). exists y.
  destruct (msg_copy_terminates msginfo_init [zeroed] (take 2 demo) (drop 2 demo) y 1 2 msginfo_init_ok Hv Hy) as (es1 & es2 & y' & H).
  - apply (run_check (take 2 demo) (λ y, copying (info (kernel y)) (threads y !! 1%nat)) (Some 2) y Hy). vm_compute. reflexivity.
  - apply Z.leb_le, (run_check (take 2 demo) (λ y, 2 <=? own_sections 1 (drop 2 demo) y) true y Hy). vm_compute. reflexivity.
  - exists es1, es2, y'. split; [exact Hy | exact H].
Defined.

(** ** Where the code falls short *)

(** What [IPC_SET] reads: the new owner, mode and size. *)
Definition new_ds (u m qbytes : Z) : user_msqid := UserMsqid (IpcPerm u u 0 0 m 0 0) 0 0 qbytes 0 0 0 0 0.
Definition ctl (t : nat) (c : cred) (id : Z) (cmd : msgctl_cmd) : nat * action := (t, Ctl true c 0 (λ _, 0) id cmd).

(** User 5 starts an [IPC_SET] of an own queue and removes the queue while the
    first thread copies in; user 6 creates a queue that only its owner may use,
    in the same entry, and sends a message to it. *)
Definition race : list (nat * action) :=
  (1%nat, Get (user 5) 0 1 77 (creat 0x180)) :: ctl 1 (user 5) q0 IPC_SET :: ctl 2 (user 5) q0 IPC_RMID ::
  (3%nat, Get (user 6) 0 2 88 (creat 0x180)) :: send 3 6 1 q0' hello.

(** Reading and writing an entry that there is. *)
Lemma get_id_ok s i q : rd (msqids s) i = Ok q → get_id i s = Ok (q, s).
Proof. intros H. unfold get_id. rewrite st_bind_unfold. cbn. unfold liftr. by rewrite H. Qed.

Lemma put_id_ok s i q v : rd (msqids s) i = Ok q → put_id i v s = Ok ((), with_ids (<[Z.to_nat i := v]> (msqids s)) s).
Proof. intros H. unfold put_id. rewrite st_bind_unfold. cbn. rewrite st_bind_unfold. unfold liftr. by rewrite (wr_rd _ _ _ _ H). Qed.

(** What [IPC_SET] makes of the queue it finds. *)
Definition taken_over (now : Z) (b : user_msqid) (q : msqid_ds) : msqid_ds :=
  set_ctime now (set_qbytes (u_qbytes b) (set_perm (λ p,
    IpcPerm (uid (u_perm b)) (gid (u_perm b)) (cuid p) (cgid p)
      (Z.lor (Z.land (mode p) (Z.lnot 0x1ff)) (Z.land (mode (u_perm b)) 0x1ff)) (_seq p) (_key p)) q)).

Lemma low_bits m b x : Z.land x 0x1ff = x → Z.land (Z.lor (Z.land m (Z.lnot 0x1ff)) (Z.land b 0x1ff)) x = Z.land b x.
Proof.
  intros <-. apply Z.bits_inj'. intros n Hn. rewrite !Z.land_spec, Z.lor_spec, !Z.land_spec, Z.lnot_spec by done.
  destruct (Z.testbit m n), (Z.testbit b n), (Z.testbit 0x1ff n), (Z.testbit x n); done.
Qed.

(** The owner that [IPC_SET] has put in may read if the new mode says so. *)
Lemma taken_over_reads now b q c : cr_uid c = uid (u_perm b) → Z.land (mode (u_perm b)) IPC_R = IPC_R →
  ipcperm c (msg_perm (taken_over now b q)) IPC_R = 0.
Proof.
  intros Hu Hm. unfold ipcperm, taken_over. cbn [msg_perm set_ctime set_qbytes set_perm mode uid cuid]. destruct (cr_super c); [done |].
  rewrite Hu, Z.eqb_refl, orb_true_r. change (tst IPC_R IPC_M) with false. cbv iota.
  rewrite low_bits by done. rewrite Z.land_assoc, (Z.land_comm IPC_R), Hm. done.
Qed.

(** C36: [IPC_SET] does not look again at the queue after it has copied in with
    the lock released.  A thread that began it with the credential [c] changes
    whatever queue [q] is in the entry when the copy ends, also one that [c] may
    not change: the queue gets the owner and the mode that were copied in, so
    that this user may receive its messages, and keeps its messages and its
    identifier.  (The number of bytes that was copied in is not 0 and not more
    than the queue's or the limit.) *)
Theorem ipc_set_race y t c i q now b :
  threads y !! t = Some (SetCopyin c i) → rd (msqids (kernel y)) i = Ok q →
  ipcperm c (msg_perm q) IPC_M ≠ 0 →
  0 < u_qbytes b <= msg_qbytes q → u_qbytes b <= u64 (msgmnb (info (kernel y))) →
  ∃ y', run [(t, CopiedSet now 0 b)] y = Ok y' ∧ outcome_of (threads y' !! t) = Some (ORet 0 0) ∧
    rd (msqids (kernel y')) i = Ok (taken_over now b q) ∧
    msghdrs (kernel y') = msghdrs (kernel y) ∧ msg_first (taken_over now b q) = msg_first q ∧
    queue_id i (taken_over now b q) = queue_id i q ∧
    ∀ c', cr_uid c' = uid (u_perm b) → Z.land (mode (u_perm b)) IPC_R = IPC_R →
      ipcperm c' (msg_perm (taken_over now b q)) IPC_R = 0.
Proof.
  intros Ht Hq Hno Hb Hmnb. cbn [run step]. unfold step. rewrite Ht. cbn [section].
  assert (Hset : ipc_set now c i 0 b (kernel y) = Ok (Return 0 0, with_ids (<[Z.to_nat i := taken_over now b q]> (msqids (kernel y))) (kernel y))).
  { unfold ipc_set. cbn [Z.eqb negb]. rewrite st_bind_unfold. cbn [get]. rewrite (st_bind_Ok _ _ _ _ _ (get_id_ok _ _ _ Hq)).
    rewrite !Z.gtb_ltb, (proj2 (Z.ltb_ge _ _)) by lia. cbn [andb]. rewrite (proj2 (Z.ltb_ge _ _)) by lia. rewrite (proj2 (Z.eqb_neq _ _)) by lia.
    by rewrite (st_bind_Ok _ _ _ _ _ (put_id_ok _ _ _ _ Hq)). }
  rewrite Hset. eexists. split; [done |]. cbn [threads kernel]. split; [by rewrite lookup_insert_eq |].
  split; [by eapply rd_insert_eq |]. split; [done |]. split; [done |]. split; [done |]. intros c'. apply taken_over_reads.
Qed.

Lemma ipc_set_race_witness : ∃ y y', run race (boot msginfo_init [zeroed]) = Ok y ∧
  run [(1%nat, CopiedSet 3 0 (new_ds 5 0x180 2048))] y = Ok y' ∧
  outcome_of (threads y' !! 1%nat) = Some (ORet 0 0) ∧
  ∃ q, rd (msqids (kernel y')) 0 = Ok q ∧ ipcperm (user 5) (msg_perm q) IPC_R = 0.
Proof.
  destruct (run race (boot msginfo_init [zeroed])) as [y|] eqn:Hy; [| vm_compute in Hy; discriminate].
  pose proof (run_check race (λ y, rd (msqids (kernel y)) 0) _ y Hy ltac:(vm_compute; reflexivity)) as Hq.
  pose proof (run_check race (λ y, threads y !! 1%nat) _ y Hy ltac:(vm_compute; reflexivity)) as Ht.
  destruct (ipc_set_race y 1 (user 5) 0 _ 3 (new_ds 5 0x180 2048) Ht Hq) as (y' & Hy' & Ho & Hq' & _ & _ & _ & Hr).
  - by vm_compute.
  - cbn. lia.
  - rewrite (run_check race (λ y, u64 (msgmnb (info (kernel y)))) 2048 y Hy) by (vm_compute; reflexivity). cbn. lia.
  - exists y, y'. split; [done |]. split; [exact Hy' |]. split; [exact Ho |]. eexists. split; [exact Hq' |]. by apply Hr.
Defined.

(** A user who may not receive from the queue of another user does so. *)
Lemma ipc_set_race_receives :
  outcome_after (race ++ recv 2 5 q0' 0 12) 2 = Ok (Some (ORet EACCES 0)) ∧
  outcome_after (race ++ (1%nat, CopiedSet 3 0 (new_ds 5 0x180 2048)) :: recv 2 5 q0' 0 12) 2 = Ok (Some (ORcv 0 12 1 hello)).
Proof. split; vm_compute; reflexivity. Qed.

(** The queue of user 5 takes 8 bytes and is full.  One more sender waits for
    room, with the queue locked, and another one waits for the lock. *)
Definition full : list (nat * action) :=
  (1%nat, Get (user 5) 0 1 77 (creat 0x180)) :: ctl 1 (user 5) q0 IPC_SET :: (1%nat, CopiedSet 1 0 (new_ds 5 0x180 8)) ::
  send 1 5 1 q0 [1; 2; 3; 4; 5; 6; 7; 8] ++ [(2%nat, Snd 5 (user 5) 0 q0 8 0); (3%nat, Snd 5 (user 5) 0 q0 0 0)].

(** C37: a wakeup is lost.  A sender [t] that has the queue locked and is
    interrupted in its sleep unlocks the queue and returns, but wakes up nobody:
    another sender [t'] that sleeps until the queue is unlocked, and that has
    nothing else to wait for, goes on sleeping though nothing keeps it from
    sending any more. *)
Theorem msgsnd_lost_wakeup y t t' a a' c i q mac now err :
  threads y !! t = Some (SndSleep a true c) → IPCID_TO_IX (sn_id a) = i →
  threads y !! t' = Some (SndSleep a' false (CQueue i)) → IPCID_TO_IX (sn_id a') = i →
  rd (msqids (kernel y)) i = Ok q → locked q = true → err ≠ 0 →
  blocking_resource a' (kernel y) (set_mode unlock q) = None →
  blocking_resource a' (kernel y) q = Some (CQueue i) ∧
  ∃ y', run [(t, Woken mac now err)] y = Ok y' ∧ outcome_of (threads y' !! t) = Some (ORet EINTR 0) ∧
    threads y' !! t' = Some (SndSleep a' false (CQueue i)) ∧ woken (kernel y') = woken (kernel y) ∧
    ∃ q', rd (msqids (kernel y')) i = Ok q' ∧ locked q' = false ∧ blocking_resource a' (kernel y') q' = None.
Proof.
  intros Ht Hi Ht' Hi' Hq Hl He Hfree. assert (Hne : t' ≠ t) by (intros ->; congruence).
  assert (Hu : locked (set_mode unlock q) = false).
  { unfold locked, unlock. cbn [set_mode set_perm msg_perm mode]. apply tst_clear_same. }
  split.
  { unfold blocking_resource in *. rewrite Hi' in *. rewrite Hl. rewrite Hu in Hfree. cbn [set_mode set_perm msg_cbytes msg_qbytes] in Hfree.
    destruct (_ =? -1); [done |]. destruct (sn_segs a' >? _); [done |]. by destruct (_ >? msg_qbytes q). }
  set (s' := with_ids (<[Z.to_nat i := set_mode unlock q]> (msqids (kernel y))) (kernel y)).
  assert (Hw : snd_wake a true err (kernel y) = Ok (Return EINTR 0, s')).
  { unfold snd_wake. rewrite Hi, (st_bind_Ok _ _ _ _ _ (get_id_ok _ _ _ Hq)), (st_bind_Ok _ _ _ _ _ (put_id_ok _ _ _ _ Hq)).
    by rewrite (proj2 (Z.eqb_neq _ _) He). }
  exists (Sys s' (<[t := Return EINTR 0]> (threads y))). split; [cbn [run]; unfold step; rewrite Ht; cbn [section]; by rewrite Hw |].
  cbn [threads kernel]. split; [by rewrite lookup_insert_eq |]. split; [by rewrite lookup_insert_ne |]. split; [done |].
  exists (set_mode unlock q). split; [by eapply rd_insert_eq |]. by split.
Qed.

Lemma msgsnd_lost_wakeup_witness : ∃ y y' a', run full (boot msginfo_init [zeroed]) = Ok y ∧
  run [(2%nat, Woken 0 0 EINTR)] y = Ok y' ∧ threads y' !! 3%nat = Some (SndSleep a' false (CQueue 0)) ∧
  woken (kernel y') = woken (kernel y) ∧ ∃ q', rd (msqids (kernel y')) 0 = Ok q' ∧ blocking_resource a' (kernel y') q' = None.
Proof.
  destruct (run full (boot msginfo_init [zeroed])) as [y|] eqn:Hy; [| vm_compute in Hy; discriminate].
  pose proof (run_check full (λ y, threads y !! 2%nat) _ y Hy ltac:(vm_compute; reflexivity)) as H2.
  pose proof (run_check full (λ y, threads y !! 3%nat) _ y Hy ltac:(vm_compute; reflexivity)) as H3.
  pose proof (run_check full (λ y, rd (msqids (kernel y)) 0) _ y Hy ltac:(vm_compute; reflexivity)) as Hq.
  destruct (msgsnd_lost_wakeup y 2 3 _ _ _ 0 _ 0 0 EINTR H2 eq_refl H3 eq_refl Hq eq_refl ltac:(done)) as (_ & y' & Hy' & _ & Ht & Hw & q' & Hq' & _ & Hb).
  - unfold blocking_resource.
    pose proof (run_check full (λ y, free_msghdrs (kernel y)) _ y Hy ltac:(vm_compute; reflexivity)) as ->.
    pose proof (run_check full (λ y, nfree_msgmaps (kernel y)) _ y Hy ltac:(vm_compute; reflexivity)) as ->. reflexivity.
  - exists y, y'. eexists. split; [done |]. split; [exact Hy' |]. split; [exact Ht |]. split; [exact Hw |]. exists q'. by split.
Defined.

(** The queue is removed, the sender that had it locked returns, and user 6
    creates a queue in the same entry. *)
Definition reused : list (nat * action) :=
  full ++ [ctl 1 (user 5) q0 IPC_RMID; (2%nat, Woken 0 0 0); (1%nat, Get (user 6) 0 2 88 (creat 0x180))].

(** A sender that has waited for the lock does not compare the sequence number
    when it wakes up, as [msgrcv] does: its message goes to a queue that the
    user may not send to. *)
Lemma msgsnd_reused_entry :
  outcome_after (reused ++ [(4%nat, Snd 5 (user 5) 0 q0' 0 0)]) 4 = Ok (Some (ORet EACCES 0)) ∧
  outcome_after (reused ++ [(3%nat, Woken 0 0 0); (3%nat, CopiedType 0 3 0 9)] ++ recv 1 6 q0' 0 0) 1 = Ok (Some (ORcv 0 0 9 [])).
Proof. split; vm_compute; reflexivity. Qed.

(** The super user's [IPC_SET] makes a queue that has been removed meanwhile
    live again, with an index of its first message that is stale: removing it
    once more panics. *)
Lemma ipc_set_revives :
  let set_removed := (1%nat, Get root 0 1 77 (creat 0x180)) :: sending 1 0 root 7 q0 0 1 8 [] ++
    [ctl 1 root q0 IPC_SET; ctl 2 root q0 IPC_RMID; (1%nat, CopiedSet 3 0 (new_ds 0 0x180 2048))] in
  outcome_after set_removed 1 = Ok (Some (ORet 0 0)) ∧ outcome_after (set_removed ++ [ctl 2 root q0 IPC_RMID]) 2 = Fault.
Proof. split; vm_compute; reflexivity. Qed.
