(* ===== verification/Shm.v ===== *)
(** * System V shared memory

    [bsd/kern/sysv_shm.c] with the structures of [bsd/sys/shm_internal.h].  A
    segment has a list of handles, each with a named entry of the virtual
    memory system; a process has a table of the segments it has attached.
    Handles are in a store by their addresses, 0 is a null pointer, and a named
    entry that is released twice faults, as does a handle that has been freed.
    A call holds the lock from its beginning to its end, so that calls are
    steps; the one place where the code sleeps, in [shmget_existing], keeps the
    lock.  The lock itself is in [ShmThms].  Answers of the allocators, of the virtual memory system, of
    copies from and to user memory and of the policy are parameters; [vm]
    records what has been asked of the maps of the processes. *)

From S2P Require Import Prelude Ipc.

Definition SHM_RDONLY : Z := 0x1000.
Definition SHM_RND : Z := 0x2000.
Definition SHMSEG_FREE : Z := 0x200.
Definition SHMSEG_REMOVED : Z := 0x400.
Definition SHMSEG_ALLOCATED : Z := 0x800.
Definition SHMSEG_WANTED : Z := 0x1000.
Definition SHMID_UNALLOCATED : Z := -1.
Definition SHMID_SENTINEL : Z := -2.
Definition SHMID_IS_VALID (x : Z) : bool := x >=? 0.
Definition ACCESSPERMS : Z := 0x1ff.
Definition PAGE_SIZE : Z := 4096.
Definition PAGE_MASK : Z := 4095.
Definition ANON_MAX_SIZE : Z := 2 ^ 32 - PAGE_SIZE.
Definition EMFILE : Z := 24.

Definition KERN_SUCCESS : Z := 0.
Definition KERN_INVALID_ADDRESS : Z := 1.
Definition KERN_PROTECTION_FAILURE : Z := 2.
Definition KERN_NO_SPACE : Z := 3.
Definition VM_PROT_READ : Z := 1.
Definition VM_PROT_WRITE : Z := 2.

Definition btoc (x : Z) : Z := Z.shiftr (u32 (u32 x + 4095)) 12.
Definition vm_map_round_page (x pgmask : Z) : Z := Z.land (u64 (x + pgmask)) (Z.lnot pgmask).

(** Whether the sum is too big, and what is left of it. *)
Definition mach_vm_round_page_overflow (x : Z) : bool * Z :=
  (x + PAGE_MASK >=? 2 ^ 64, Z.land (u64 (x + PAGE_MASK)) (Z.lnot PAGE_MASK)).

(** ** Structures *)

Record shminfo := Shminfo { shmmax : Z; shmmin : Z; shmmni : Z; shmseg : Z; shmall : Z }.

(** The values the kernel starts with. *)
Definition shminfo_init : shminfo := Shminfo (4 * 1024 * 1024) 1 32 8 1024.

Record shm_handle := ShmHandle { shm_object : Z; shm_handle_size : Z; shm_handle_next : Z }.

Record shmmap_state := ShmmapState { va : Z; shmid : Z }.

Record shmid_ds := ShmidDs {
  shm_perm : ipc_perm;
  shm_segsz : Z;
  shm_lpid : Z;
  shm_cpid : Z;
  shm_nattch : Z;
  shm_atime : Z;
  shm_dtime : Z;
  shm_ctime : Z;
  shm_internal : Z
}.

(** What has been asked of the map of a process. *)
Inductive vmcall :=
  | Reserve (p : nat) (addr size : Z)
  | Enter (p : nat) (addr size object prot : Z)
  | Deallocate (p : nat) (addr size : Z).

(** [vm_shm] has the tables of the processes that have one, with their
    sentinels; [fresh] is an address that has not been used; [heap] has the
    answers of the allocator. *)
Record state := State {
  info : shminfo;
  shm_inited : bool;
  shm_last_free : Z;
  shm_nused : Z;
  shm_committed : Z;
  shmsegs : list shmid_ds;
  handles : gmap Z shm_handle;
  objects : gset Z;
  fresh : Z;
  vm_shm : gmap nat (list shmmap_state);
  heap : list bool;
  vm : list vmcall;
  woken : list Z
}.

Abbreviation M := (st state).

Definition with_info (x : shminfo) (s : state) : state :=
  State x (shm_inited s) (shm_last_free s) (shm_nused s) (shm_committed s) (shmsegs s) (handles s) (objects s) (fresh s) (vm_shm s) (heap s) (vm s) (woken s).
Definition with_last_free (x : Z) (s : state) : state :=
  State (info s) (shm_inited s) x (shm_nused s) (shm_committed s) (shmsegs s) (handles s) (objects s) (fresh s) (vm_shm s) (heap s) (vm s) (woken s).
Definition with_usage (nused committed : Z) (s : state) : state :=
  State (info s) (shm_inited s) (shm_last_free s) nused committed (shmsegs s) (handles s) (objects s) (fresh s) (vm_shm s) (heap s) (vm s) (woken s).
Definition with_segs (x : list shmid_ds) (s : state) : state :=
  State (info s) (shm_inited s) (shm_last_free s) (shm_nused s) (shm_committed s) x (handles s) (objects s) (fresh s) (vm_shm s) (heap s) (vm s) (woken s).
Definition with_handles (x : gmap Z shm_handle) (y : gset Z) (z : Z) (s : state) : state :=
  State (info s) (shm_inited s) (shm_last_free s) (shm_nused s) (shm_committed s) (shmsegs s) x y z (vm_shm s) (heap s) (vm s) (woken s).
Definition with_vm_shm (x : gmap nat (list shmmap_state)) (s : state) : state :=
  State (info s) (shm_inited s) (shm_last_free s) (shm_nused s) (shm_committed s) (shmsegs s) (handles s) (objects s) (fresh s) x (heap s) (vm s) (woken s).
Definition with_heap (x : list bool) (s : state) : state :=
  State (info s) (shm_inited s) (shm_last_free s) (shm_nused s) (shm_committed s) (shmsegs s) (handles s) (objects s) (fresh s) (vm_shm s) x (vm s) (woken s).
Definition with_vm (x : list vmcall) (s : state) : state :=
  State (info s) (shm_inited s) (shm_last_free s) (shm_nused s) (shm_committed s) (shmsegs s) (handles s) (objects s) (fresh s) (vm_shm s) (heap s) x (woken s).
Definition with_woken (x : list Z) (s : state) : state :=
  State (info s) (shm_inited s) (shm_last_free s) (shm_nused s) (shm_committed s) (shmsegs s) (handles s) (objects s) (fresh s) (vm_shm s) (heap s) (vm s) x.

Definition modify (f : state → state) : M () := λ s, Ok ((), f s).
Definition liftr {A} (m : res A) : M A := λ s, a ← m; Ok (a, s).
Definition panic {A} : M A := fault.

Definition get_seg (i : Z) : M shmid_ds := s ← get; liftr (rd (shmsegs s) i).
Definition put_seg (i : Z) (g : shmid_ds) : M () := s ← get; l ← liftr (wr (shmsegs s) i g); modify (with_segs l).
Definition get_table (p : nat) : M (list shmmap_state) :=
  s ← get; match vm_shm s !! p with Some t => mret t | None => fault end.
Definition put_entry (p : nat) (k : Z) (e : shmmap_state) : M () :=
  s ← get; t ← get_table p; t ← liftr (wr t k e); modify (with_vm_shm (<[p := t]> (vm_shm s))).
Definition ask (c : vmcall) : M () := modify (λ s, with_vm (vm s ++ [c]) s).

(** The next answer of the allocator; it fails when there is none. *)
Definition kheap_alloc : M bool := λ s,
  match heap s with b :: h => Ok (b, with_heap h s) | [] => Ok (false, s) end.

Definition get_handle (a : Z) : M shm_handle :=
  s ← get; match handles s !! a with Some h => mret h | None => fault end.

(** [mach_memory_entry_port_release], and the handle is freed. *)
Definition free_handle (a : Z) : M () :=
  h ← get_handle a;
  s ← get;
  if bool_decide (shm_object h ∈ objects s)
  then modify (with_handles (delete a (handles s)) (objects s ∖ {[shm_object h]}) (fresh s))
  else fault.

Definition set_perm (f : ipc_perm → ipc_perm) (g : shmid_ds) : shmid_ds :=
  ShmidDs (f (shm_perm g)) (shm_segsz g) (shm_lpid g) (shm_cpid g) (shm_nattch g) (shm_atime g) (shm_dtime g) (shm_ctime g) (shm_internal g).
Definition set_mode (f : Z → Z) : shmid_ds → shmid_ds :=
  set_perm (λ p, IpcPerm (uid p) (gid p) (cuid p) (cgid p) (f (mode p)) (_seq p) (_key p)).
Definition set_nattch (x : Z) (g : shmid_ds) : shmid_ds :=
  ShmidDs (shm_perm g) (shm_segsz g) (shm_lpid g) (shm_cpid g) x (shm_atime g) (shm_dtime g) (shm_ctime g) (shm_internal g).
Definition set_attached (p now x : Z) (g : shmid_ds) : shmid_ds :=
  ShmidDs (shm_perm g) (shm_segsz g) p (shm_cpid g) x now (shm_dtime g) (shm_ctime g) (shm_internal g).
Definition set_dtime (now : Z) (g : shmid_ds) : shmid_ds :=
  ShmidDs (shm_perm g) (shm_segsz g) (shm_lpid g) (shm_cpid g) (shm_nattch g) (shm_atime g) now (shm_ctime g) (shm_internal g).
Definition set_ctime (now : Z) (g : shmid_ds) : shmid_ds :=
  ShmidDs (shm_perm g) (shm_segsz g) (shm_lpid g) (shm_cpid g) (shm_nattch g) (shm_atime g) (shm_dtime g) now (shm_internal g).
Definition set_internal (x : Z) (g : shmid_ds) : shmid_ds :=
  ShmidDs (shm_perm g) (shm_segsz g) (shm_lpid g) (shm_cpid g) (shm_nattch g) (shm_atime g) (shm_dtime g) (shm_ctime g) x.

(** ** Initialisation *)

(** Permanent memory is zero. *)
Definition free_seg : shmid_ds := ShmidDs (IpcPerm 0 0 0 0 SHMSEG_FREE 0 0) 0 0 0 0 0 0 0 0.

Definition shminit : M Z :=
  s ← get;
  if shm_inited s then mret 0
  else if (shmmni (info s) * 88 <? 0) || (shmmni (info s) * 88 >=? 2 ^ 64) then mret ENOMEM
  else
    ok ← kheap_alloc;
    if negb ok then mret ENOMEM
    else
      modify (λ s, State (info s) true 0 0 0 (replicate (Z.to_nat (shmmni (info s))) free_seg)
                (handles s) (objects s) (fresh s) (vm_shm s) (heap s) (vm s) (woken s)) ;;
      mret 0.

(** ** Finding segments *)

Fixpoint find_seg (f : shmid_ds → bool) (l : list shmid_ds) (i : Z) : Z :=
  match l with
  | [] => -1
  | g :: l => if f g then i else find_seg f l (i + 1)
  end.

Definition shm_find_segment_by_key (key : Z) (s : state) : Z :=
  find_seg (λ g, tst (mode (shm_perm g)) SHMSEG_ALLOCATED && (_key (shm_perm g) =? key)) (shmsegs s) 0.

(** The index of the segment and its structure. *)
Definition shm_find_segment_by_shmid (id : Z) : M (option (Z * shmid_ds)) :=
  let segnum := IPCID_TO_IX id in
  s ← get;
  if (segnum <? 0) || (segnum >=? shmmni (info s)) then mret None
  else
    g ← get_seg segnum;
    if negb (Z.land (mode (shm_perm g)) (Z.lor SHMSEG_ALLOCATED SHMSEG_REMOVED) =? SHMSEG_ALLOCATED)
       || negb (_seq (shm_perm g) =? IPCID_TO_SEQ id)
    then mret None else mret (Some (segnum, g)).

(** ** Detaching *)

(** Frees the handles from [a] on; the fuel is the number of handles. *)
Fixpoint free_handles (fuel : nat) (a : Z) : M () :=
  if a =? 0 then mret ()
  else
    match fuel with
    | O => fault
    | S fuel => h ← get_handle a; free_handle a ;; free_handles fuel (shm_handle_next h)
    end.

Definition shm_deallocate_segment (pgmask i : Z) : M () :=
  s ← get;
  g ← get_seg i;
  free_handles (size (handles s)) (shm_internal g) ;;
  let sz := vm_map_round_page (shm_segsz g) pgmask in
  modify (λ s, with_usage (shm_nused s - 1) (s32 (shm_committed s - btoc sz)) s) ;;
  put_seg i (set_mode (λ _, SHMSEG_FREE) (set_internal 0 g)).

(** Detaches the entry [k] of the table of [p]; [rv] is the answer of
    [mach_vm_deallocate]. *)
Definition shm_delete_mapping (pgmask now : Z) (p : nat) (k : Z) (deallocate : bool) (rv : Z) : M Z :=
  t ← get_table p;
  e ← liftr (rd t k);
  let segnum := IPCID_TO_IX (shmid e) in
  g ← get_seg segnum;
  let sz := vm_map_round_page (shm_segsz g) pgmask in
  (if deallocate then ask (Deallocate p (va e) sz) else mret ()) ;;
  if deallocate && negb (rv =? KERN_SUCCESS) then mret EINVAL
  else
    put_entry p k (ShmmapState (va e) SHMID_UNALLOCATED) ;;
    let n := swrap 16 (shm_nattch g - 1) in
    put_seg segnum (set_nattch n (set_dtime now g)) ;;
    if (n <=? 0) && tst (mode (shm_perm g)) SHMSEG_REMOVED
    then shm_deallocate_segment pgmask segnum ;; modify (with_last_free segnum) ;; mret 0
    else mret 0.

(** The entry that has the address, or the sentinel. *)
Fixpoint find_va (addr : Z) (l : list shmmap_state) (k : Z) : res (Z * shmmap_state) :=
  match l with
  | [] => Fault
  | e :: l =>
      if shmid e =? SHMID_SENTINEL then Ok (k, e)
      else if SHMID_IS_VALID (shmid e) && (va e =? addr) then Ok (k, e)
      else find_va addr l (k + 1)
  end.

(** What a call returns: an error and a value, or the structure that
    [IPC_STAT] copies out; or the process is asleep with the lock held. *)
Inductive out :=
  | Return (error rval : Z)
  | StatReturn (g : shmid_ds)
  | AsleepLocked (key size shmflg : Z).

Definition shmdt (pgmask now : Z) (p : nat) (mac rv shmaddr : Z) : M out :=
  e ← shminit;
  if negb (e =? 0) then mret (Return e 0)
  else
    s ← get;
    match vm_shm s !! p with
    | None => mret (Return EINVAL 0)
    | Some t =>
        r ← liftr (find_va shmaddr t 0);
        let '(k, x) := (r : Z * shmmap_state) in
        if negb (SHMID_IS_VALID (shmid x)) then mret (Return EINVAL 0)
        else
          _ ← get_seg (IPCID_TO_IX (shmid x));
          if negb (mac =? 0) then mret (Return mac 0)
          else i ← shm_delete_mapping pgmask now p k true rv; mret (Return i 0)
    end.

(** ** Attaching *)

Fixpoint find_unused (l : list shmmap_state) (k : Z) : res (Z * shmmap_state) :=
  match l with
  | [] => Fault
  | e :: l => if SHMID_IS_VALID (shmid e) then find_unused l (k + 1) else Ok (k, e)
  end.

(** A new table; its addresses have any contents. *)
Definition new_table (nsegs : Z) (junk : nat → Z) : list shmmap_state :=
  ((λ i, ShmmapState (junk i) SHMID_UNALLOCATED) <$> seq 0 (Z.to_nat nsegs)) ++ [ShmmapState (junk (Z.to_nat nsegs)) SHMID_SENTINEL].

(** The table of [p], which is allocated when there is none; or an error. *)
Definition shm_table (p : nat) (junk : nat → Z) : M (Z + list shmmap_state) :=
  s ← get;
  match vm_shm s !! p with
  | Some t => mret (inr t)
  | None =>
      let nsegs := s32 (shmseg (info s)) in
      if nsegs <=? 0 then mret (inl EMFILE)
      else if (nsegs + 1) * 16 >=? 2 ^ 64 then mret (inl ENOMEM)
      else
        ok ← kheap_alloc;
        if negb ok then mret (inl ENOMEM)
        else
          modify (λ s, with_vm_shm (<[p := new_table nsegs junk]> (vm_shm s)) s) ;;
          mret (inr (new_table nsegs junk))
  end.

(** Maps the handles from [a] on; the fuel is the number of handles.  [rvs]
    are the answers of [vm_map_enter_mem_object]; the answer when the list is
    too short is success.  Returns an error, and what has been mapped. *)
Fixpoint enter_handles (fuel : nat) (p : nat) (pgmask a attach_va map_size mapped_size prot : Z) (rvs : list Z) : M (Z * Z) :=
  if a =? 0 then mret (KERN_SUCCESS, mapped_size)
  else
    match fuel with
    | O => fault
    | S fuel =>
        h ← get_handle a;
        if negb (mapped_size <? map_size) then panic
        else
          let chunk_size := shm_handle_size h in
          let partial := chunk_size >? map_size - mapped_size in
          if partial && negb (pgmask <? PAGE_MASK) then panic
          else if partial && negb (shm_handle_next h =? 0) then panic
          else
            let chunk_size := if partial then map_size - mapped_size else chunk_size in
            ask (Enter p attach_va chunk_size (shm_object h) prot) ;;
            let rv := default KERN_SUCCESS (head rvs) in
            if negb (rv =? KERN_SUCCESS) then mret (rv, mapped_size)
            else enter_handles fuel p pgmask (shm_handle_next h) (attach_va + chunk_size) map_size (mapped_size + chunk_size) prot (tail rvs)
    end.

Definition shm_errno (rv : Z) : Z :=
  if (rv =? KERN_INVALID_ADDRESS) || (rv =? KERN_NO_SPACE) then ENOMEM
  else if rv =? KERN_PROTECTION_FAILURE then EACCES else EINVAL.

(** [rv] and [new_va] are the answer to the reservation. *)
Definition shmat (pgmask now : Z) (p : nat) (junk : nat → Z) (c : cred) (mac rv new_va : Z) (rvs : list Z) (id shmaddr shmflg : Z) : M out :=
  e ← shminit;
  if negb (e =? 0) then mret (Return e 0)
  else
    r ← shm_table p junk;
    match r with
    | inl e => mret (Return e 0)
    | inr t =>
        r ← shm_find_segment_by_shmid id;
        match (r : option (Z * shmid_ds)) with
        | None => mret (Return EINVAL 0)
        | Some (i, g) =>
            let error := ipcperm c (shm_perm g) (if tst shmflg SHM_RDONLY then IPC_R else Z.lor IPC_R IPC_W) in
            if negb (error =? 0) then mret (Return error 0)
            else if negb (mac =? 0) then mret (Return mac 0)
            else
              r ← liftr (find_unused t 0);
              let '(k, x) := (r : Z * shmmap_state) in
              if negb (shmid x =? SHMID_UNALLOCATED) then mret (Return EMFILE 0)
              else
                let map_size := vm_map_round_page (shm_segsz g) pgmask in
                let prot := if tst shmflg SHM_RDONLY then VM_PROT_READ else Z.lor VM_PROT_READ VM_PROT_WRITE in
                let misaligned := negb (tst shmflg SHM_RND) && negb (Z.land shmaddr pgmask =? 0) in
                let attach_va := if tst shmflg SHM_RND then Z.land shmaddr (Z.lnot pgmask) else shmaddr in
                if misaligned then mret (Return EINVAL 0)
                else
                  (* the address is given when it is not null, and chosen otherwise *)
                  let attach_va := if shmaddr =? 0 then new_va else attach_va in
                  ask (Reserve p attach_va map_size) ;;
                  if negb (rv =? KERN_SUCCESS) then mret (Return (shm_errno rv) 0)
                  else
                    put_entry p k (ShmmapState attach_va (shmid x)) ;;
                    s ← get;
                    r ← enter_handles (size (handles s)) p pgmask (shm_internal g) attach_va map_size 0 prot rvs;
                    let '(rv, mapped_size) := (r : Z * Z) in
                    if negb (rv =? KERN_SUCCESS) then
                      (if mapped_size >? 0 then ask (Deallocate p attach_va mapped_size) else mret ()) ;;
                      mret (Return (shm_errno rv) 0)
                    else
                      put_entry p k (ShmmapState attach_va id) ;;
                      put_seg i (set_attached (Z.of_nat p) now (swrap 16 (shm_nattch g + 1)) g) ;;
                      mret (Return 0 attach_va)
        end
    end.

(** ** Control *)

Inductive shmctl_cmd := IPC_RMID | IPC_SET | IPC_STAT | CmdOther.

Definition shmid_ds_64to32 (g : shmid_ds) : shmid_ds :=
  ShmidDs (shm_perm g) (u32 (shm_segsz g)) (shm_lpid g) (shm_cpid g) (shm_nattch g)
    (u32 (shm_atime g)) (u32 (shm_dtime g)) (u32 (shm_ctime g)) (s32 (shm_internal g)).

(** What users get to see. *)
Definition stat_copy (is64 : bool) (g : shmid_ds) : shmid_ds :=
  set_internal 0 (if is64 then g else shmid_ds_64to32 g).

(** [eval] is the answer of the copy, and [b] the structure that has been
    copied in. *)
Definition shmctl (pgmask now : Z) (is64 : bool) (c : cred) (mac eval : Z) (b : shmid_ds) (id : Z) (cmd : shmctl_cmd) : M out :=
  e ← shminit;
  if negb (e =? 0) then mret (Return e 0)
  else
    r ← shm_find_segment_by_shmid id;
    match (r : option (Z * shmid_ds)) with
    | None => mret (Return EINVAL 0)
    | Some (i, g) =>
        if negb (mac =? 0) then mret (Return mac 0)
        else
          match cmd with
          | IPC_STAT =>
              let error := ipcperm c (shm_perm g) IPC_R in
              if negb (error =? 0) then mret (Return error 0)
              else if negb (eval =? 0) then mret (Return eval 0)
              else mret (StatReturn (stat_copy is64 g))
          | IPC_SET =>
              let error := ipcperm c (shm_perm g) IPC_M in
              if negb (error =? 0) then mret (Return error 0)
              else if negb (eval =? 0) then mret (Return eval 0)
              else
                put_seg i (set_ctime now (set_perm (λ p,
                  IpcPerm (uid (shm_perm b)) (gid (shm_perm b)) (cuid p) (cgid p)
                    (Z.lor (Z.land (mode p) (Z.lnot ACCESSPERMS)) (Z.land (mode (shm_perm b)) ACCESSPERMS)) (_seq p) (_key p)) g)) ;;
                mret (Return 0 0)
          | IPC_RMID =>
              let error := ipcperm c (shm_perm g) IPC_M in
              if negb (error =? 0) then mret (Return error 0)
              else
                put_seg i (set_perm (λ p, IpcPerm (uid p) (gid p) (cuid p) (cgid p)
                  (Z.lor (mode p) SHMSEG_REMOVED) (_seq p) IPC_PRIVATE) g) ;;
                (if shm_nattch g <=? 0
                 then shm_deallocate_segment pgmask i ;; modify (with_last_free i) else mret ()) ;;
                mret (Return 0 0)
          | CmdOther => mret (Return EINVAL 0)
          end
    end.

(** ** Creating *)

(** [mode] is what is asked for.  Sleeps when the segment is marked as removed,
    with the lock held: [tsleep] has no lock to release.  [mac] is the answer of
    the policy; one that asks to try again is asked again, and [mac] is its last
    answer. *)
Definition shmget_existing (mac key sz shmflg md i : Z) : M out :=
  g ← get_seg i;
  if tst (mode (shm_perm g)) SHMSEG_REMOVED then
    put_seg i (set_mode (λ m, Z.lor m SHMSEG_WANTED) g) ;; mret (AsleepLocked key sz shmflg)
  else if negb (Z.land (mode (shm_perm g)) md =? md) then mret (Return EACCES 0)
  else if negb (mac =? 0) then mret (Return mac 0)
  else if negb (sz =? 0) && (sz >? shm_segsz g) then mret (Return EINVAL 0)
  else if Z.land shmflg (Z.lor IPC_CREAT IPC_EXCL) =? Z.lor IPC_CREAT IPC_EXCL then mret (Return EEXIST 0)
  else mret (Return 0 (s32 (IXSEQ_TO_IPCID i (_seq (shm_perm g))))).

(** The size of a new named entry, to which [mach_make_memory_entry_64] sets
    the size it has been given; the pages are those of the kernel because there
    is no map. *)
Definition named_entry_size (size : Z) : Z := vm_map_round_page size PAGE_MASK.

(** The answers for one chunk: an error of [mach_make_memory_entry_64]; or its
    success, and whether there is memory for the handle. *)
Inductive chunk := Refused (kret : Z) | Made (handle : bool).

(** Makes named entries for the bytes from [alloc_size] to [total_size], and
    links their handles behind [last], or to the segment when that is null.
    The answers are used one after the other; there is no more memory when
    none is left.  Returns the last error and the last size. *)
Fixpoint make_chunks (l : list chunk) (i last alloc_size total_size sz : Z) : M (Z * Z) :=
  if alloc_size <? total_size then
    let sz := Z.min (total_size - alloc_size) ANON_MAX_SIZE in
    match l with
    | [] => mret (KERN_NO_SPACE, sz)
    | Refused kret :: _ => mret (kret, sz)
    | Made false :: _ => mret (KERN_NO_SPACE, sz)
    | Made true :: l =>
        let sz := named_entry_size sz in
        s ← get;
        let a := fresh s + 1 in
        modify (with_handles (<[a := ShmHandle (fresh s) sz 0]> (handles s)) ({[fresh s]} ∪ objects s) (fresh s + 2)) ;;
        (if last =? 0 then g ← get_seg i; put_seg i (set_internal a g)
         else
           h ← get_handle last;
           s ← get;
           modify (with_handles (<[last := ShmHandle (shm_object h) (shm_handle_size h) a]> (handles s)) (objects s) (fresh s))) ;;
        make_chunks l i a (alloc_size + sz) total_size sz
    end
  else mret (KERN_SUCCESS, sz).

(** A free place in the table of segments. *)
Definition take_place : M Z :=
  s ← get;
  if shm_last_free s <? 0 then
    let i := find_seg (λ g, tst (mode (shm_perm g)) SHMSEG_FREE) (shmsegs s) 0 in
    if i =? -1 then panic else mret i
  else modify (with_last_free (-1)) ;; mret (shm_last_free s).

Definition shmget_allocate_segment (now : Z) (p : nat) (c : cred) (chunks : list chunk) (key sz md : Z) : M out :=
  s ← get;
  if (sz <=? 0) || (sz <? u64 (shmmin (info s))) || (sz >? u64 (shmmax (info s))) then mret (Return EINVAL 0)
  else if shm_nused s >=? shmmni (info s) then mret (Return ENOSPC 0)
  else
    let '(overflow, total_size) := mach_vm_round_page_overflow sz in
    if overflow then mret (Return EINVAL 0)
    else if u32 (shm_committed s + btoc total_size) >? shmall (info s) then mret (Return ENOMEM 0)
    else
      i ← take_place;
      g ← get_seg i;
      put_seg i (set_perm (λ p, IpcPerm (uid p) (gid p) (cuid p) (cgid p) (Z.lor SHMSEG_ALLOCATED SHMSEG_REMOVED)
        (Z.land (_seq p + 1) 0x7fff) key) g) ;;
      r ← make_chunks chunks i 0 0 total_size 0;
      let '(kret, last_size) := (r : Z * Z) in
      g ← get_seg i;
      if negb (kret =? KERN_SUCCESS) then
        s ← get;
        free_handles (size (handles s)) (shm_internal g) ;;
        put_seg i (set_internal 0 g) ;;
        mret (Return (shm_errno kret) 0)
      else
        let id := s32 (IXSEQ_TO_IPCID i (_seq (shm_perm g))) in
        let m := Z.lor (Z.lor (Z.land (mode (shm_perm g)) SHMSEG_WANTED) (Z.land md ACCESSPERMS)) SHMSEG_ALLOCATED in
        let m' := if tst m SHMSEG_WANTED then Z.land m (Z.lnot SHMSEG_WANTED) else m in
        put_seg i (ShmidDs (IpcPerm (cr_uid c) (cr_gid c) (cr_uid c) (cr_gid c) m' (_seq (shm_perm g)) (_key (shm_perm g)))
          sz 0 (Z.of_nat p) 0 0 0 now (shm_internal g)) ;;
        modify (λ s, with_usage (shm_nused s + 1) (s32 (shm_committed s + btoc last_size)) s) ;;
        (if tst m SHMSEG_WANTED then modify (λ s, with_woken (woken s ++ [i]) s) else mret ()) ;;
        mret (Return 0 id).

(** From the label [again] on. *)
Definition shmget_again (now : Z) (p : nat) (c : cred) (mac : Z) (chunks : list chunk) (key sz shmflg : Z) : M out :=
  let md := Z.land shmflg ACCESSPERMS in
  s ← get;
  let i := if key =? IPC_PRIVATE then -1 else shm_find_segment_by_key key s in
  if i >=? 0 then shmget_existing mac key sz shmflg md i
  else if negb (key =? IPC_PRIVATE) && negb (tst shmflg IPC_CREAT) then mret (Return ENOENT 0)
  else shmget_allocate_segment now p c chunks key sz md.

Definition shmget (now : Z) (p : nat) (c : cred) (mac : Z) (chunks : list chunk) (key sz shmflg : Z) : M out :=
  e ← shminit;
  if negb (e =? 0) then mret (Return e 0) else shmget_again now p c mac chunks key sz shmflg.

(** The sleep in [shmget_existing] has ended with [err]. *)
Definition shmget_wake (now : Z) (p : nat) (c : cred) (mac : Z) (chunks : list chunk) (err key sz shmflg : Z) : M out :=
  if negb (err =? 0) then mret (Return err 0) else shmget_again now p c mac chunks key sz shmflg.

(** ** Processes *)

(** Counts the entries of the table one by one, and another process as
    attached to each segment. *)
Fixpoint fork_counts (t : list shmmap_state) : M () :=
  match t with
  | [] => fault
  | e :: t =>
      if shmid e =? SHMID_SENTINEL then mret ()
      else
        (if SHMID_IS_VALID (shmid e)
         then g ← get_seg (IPCID_TO_IX (shmid e)); put_seg (IPCID_TO_IX (shmid e)) (set_nattch (swrap 16 (shm_nattch g + 1)) g)
         else mret ()) ;;
        fork_counts t
  end.

(** The entries in front of the sentinel. *)
Fixpoint entries (t : list shmmap_state) : res (list shmmap_state) :=
  match t with
  | [] => Fault
  | e :: t => if shmid e =? SHMID_SENTINEL then Ok [] else l ← entries t; Ok (e :: l)
  end.

Definition shmfork (p1 p2 : nat) : M Z :=
  e ← shminit;
  if negb (e =? 0) then mret 1
  else
    src ← get_table p1;
    l ← liftr (entries src);
    if (Z.of_nat (length l) + 1) * 16 >=? 2 ^ 64 then mret 1
    else
      ok ← kheap_alloc;
      if negb ok then mret 1
      else
        let t := take (length l + 1) src in
        modify (λ s, with_vm_shm (<[p2 := t]> (vm_shm s)) s) ;;
        fork_counts t ;;
        mret 0.

(** Detaches from the entry [k] on; [l] is the rest of the table, and [rvs]
    the answers of [mach_vm_deallocate]. *)
Fixpoint cleanup_loop (pgmask now : Z) (p : nat) (deallocate : bool) (rvs : nat → Z) (l : list shmmap_state) (k : Z) : M () :=
  match l with
  | [] => fault
  | e :: l =>
      if shmid e =? SHMID_SENTINEL then mret ()
      else
        (if SHMID_IS_VALID (shmid e)
         then _ ← shm_delete_mapping pgmask now p k deallocate (rvs (Z.to_nat k)); mret () else mret ()) ;;
        cleanup_loop pgmask now p deallocate rvs l (k + 1)
  end.

Definition shmcleanup (pgmask now : Z) (p : nat) (deallocate : bool) (rvs : nat → Z) : M () :=
  t ← get_table p;
  cleanup_loop pgmask now p deallocate rvs t 0 ;;
  l ← liftr (entries t);
  if (Z.of_nat (length l) + 1) * 16 >=? 2 ^ 64 then panic
  else modify (λ s, with_vm_shm (delete p (vm_shm s)) s).

Definition shmexit (pgmask now : Z) (p : nat) (rvs : nat → Z) : M () := shmcleanup pgmask now p true rvs.
Definition shmexec (pgmask now : Z) (p : nat) : M () := shmcleanup pgmask now p false (λ _, KERN_SUCCESS).

(** ** Limits and listing *)

Inductive limit := Shmmax | Shmmin | Shmmni | Shmseg | Shmall.

Definition INT32_MAX : Z := 2 ^ 31 - 1.

(** [v] is the value that has been copied in with [err]. *)
Definition sysctl_shminfo (which : limit) (err v : Z) : M Z :=
  s ← get;
  let i := info s in
  if shm_inited s && match which with Shmmni => true | _ => false end then mret EPERM
  else if negb (err =? 0) then mret err
  else
    match which with
    | Shmmax => if negb (Z.land v PAGE_MASK =? 0) || (v <? 0) then mret EINVAL
                else modify (with_info (Shminfo v (shmmin i) (shmmni i) (shmseg i) (shmall i))) ;; mret 0
    | Shmmin => if v <? 0 then mret EINVAL
                else modify (with_info (Shminfo (shmmax i) v (shmmni i) (shmseg i) (shmall i))) ;; mret 0
    | Shmseg => if (v >? INT32_MAX) || (v <? 0) then mret EINVAL
                else modify (with_info (Shminfo (shmmax i) (shmmin i) (shmmni i) v (shmall i))) ;; mret 0
    | Shmmni => if (v >? INT32_MAX) || (v <? 0) then mret EINVAL
                else modify (with_info (Shminfo (shmmax i) (shmmin i) v (shmseg i) (shmall i))) ;; mret 0
    | Shmall => if (v >? INT32_MAX) || (v <? 0) then mret EINVAL
                else modify (with_info (Shminfo (shmmax i) (shmmin i) (shmmni i) (shmseg i) v)) ;; mret 0
    end.

(** The index of the first segment from [cursor] on, and its structure. *)
Definition ipcs_iter (is64 : bool) (cursor : Z) (datalen_ok : bool) : M (Z + (Z * shmid_ds)) :=
  s ← get;
  if (cursor <? 0) || (cursor >=? shmmni (info s)) then mret (inl ERANGE)
  else if negb datalen_ok then mret (inl EINVAL)
  else
    let i := find_seg (λ g, tst (mode (shm_perm g)) SHMSEG_ALLOCATED) (drop (Z.to_nat cursor) (shmsegs s)) cursor in
    if i =? -1 then mret (inl ENOENT) else g ← get_seg i; mret (inr (i, stat_copy is64 g)).
