(* ===== verification/ShmInv.v ===== *)
(** * System V shared memory: the invariant

    The count of a segment is the number of entries that processes have for
    it; a segment that has been removed goes with its last entry; handles and
    named entries belong to the segments. *)

From S2P Require Import Prelude Chain Ipc Shm.

(** ** Counting *)

Fixpoint cnt {A} (f : A → bool) (l : list A) : Z :=
  match l with [] => 0 | x :: l => Z.b2z (f x) + cnt f l end.

Lemma cnt_nonneg {A} (f : A → bool) l : 0 <= cnt f l.
Proof. induction l as [|x l IH]; cbn; [done |]. destruct (f x); cbn; lia. Qed.

Lemma cnt_le {A} (f : A → bool) l : cnt f l <= Z.of_nat (length l).
Proof. induction l as [|x l IH]; cbn -[Z.of_nat]; [done |]. destruct (f x); cbn -[Z.of_nat]; lia. Qed.

Lemma cnt_app {A} (f : A → bool) l l' : cnt f (l ++ l') = cnt f l + cnt f l'.
Proof. induction l as [|x l IH]; cbn; lia. Qed.

Lemma cnt_insert {A} (f : A → bool) l (k : nat) x y : l !! k = Some x → cnt f (<[k := y]> l) = cnt f l - Z.b2z (f x) + Z.b2z (f y).
Proof.
  revert k. induction l as [|z l IH]; intros [|k] H; try done; [injection H as ->; cbn; lia |].
  change (<[S k := y]> (z :: l)) with (z :: <[k := y]> l). cbn [cnt]. rewrite (IH k) by done. lia.
Qed.

Lemma cnt_pos {A} (f : A → bool) l x : x ∈ l → f x = true → 0 < cnt f l.
Proof.
  induction 1 as [x l|x y l Hx IH]; intros Hf; cbn; [rewrite Hf; pose proof (cnt_nonneg f l); cbn; lia |].
  specialize (IH Hf). destruct (f y); cbn; lia.
Qed.

Lemma cnt_zero {A} (f : A → bool) l : cnt f l = 0 → ∀ x, x ∈ l → f x = false.
Proof. intros H x Hx. destruct (f x) eqn:E; [| done]. pose proof (cnt_pos f l x Hx E). lia. Qed.

Lemma cnt_full {A} (f : A → bool) l : cnt f l < Z.of_nat (length l) → ∃ x, x ∈ l ∧ f x = false.
Proof.
  induction l as [|x l IH]; cbn -[Z.of_nat]; [lia |]. intros H. destruct (f x) eqn:E; [| exists x; split; [by constructor | done]].
  destruct IH as (y & Hy & Hf); [cbn -[Z.of_nat] in H; lia |]. exists y. split; [by constructor | done].
Qed.

(** The entry is for the segment [i]. *)
Definition at_seg (i : Z) (e : shmmap_state) : bool := SHMID_IS_VALID (shmid e) && (IPCID_TO_IX (shmid e) =? i).

(** The entries that all processes have for the segment [i]. *)
Definition total (i : Z) (m : gmap nat (list shmmap_state)) : Z := map_fold (λ _ t n, cnt (at_seg i) t + n) 0 m.

Lemma total_new i m p t : m !! p = None → total i (<[p := t]> m) = cnt (at_seg i) t + total i m.
Proof. intros H. apply (map_fold_insert_L (λ _ t n, cnt (at_seg i) t + n)); [intros; lia | done]. Qed.

Lemma total_delete i m p t : m !! p = Some t → total i m = cnt (at_seg i) t + total i (delete p m).
Proof. intros H. rewrite <- (total_new i (delete p m) p t) by apply lookup_delete_eq. by rewrite insert_delete_id. Qed.

Lemma total_update i m p t t' : m !! p = Some t → total i (<[p := t']> m) = total i m - cnt (at_seg i) t + cnt (at_seg i) t'.
Proof.
  intros H. rewrite (total_delete i m p t H). rewrite <- insert_delete_eq, total_new by apply lookup_delete_eq. lia.
Qed.

Lemma total_nonneg i m : 0 <= total i m.
Proof.
  unfold total. apply (map_fold_weak_ind (λ r _, 0 <= r) (λ _ t n, cnt (at_seg i) t + n)); [done |]. intros p t m' r _ H. pose proof (cnt_nonneg (at_seg i) t). lia.
Qed.

Lemma total_entry i m p t e : m !! p = Some t → e ∈ t → at_seg i e = true → 0 < total i m.
Proof. intros H He Ha. rewrite (total_delete i m p t H). pose proof (cnt_pos _ _ _ He Ha). pose proof (total_nonneg i (delete p m)). lia. Qed.

(** ** Identifiers and modes *)

Lemma shm_id i seq : 0 <= i < 2 ^ 16 → 0 <= seq < 2 ^ 15 →
  let id := s32 (IXSEQ_TO_IPCID i seq) in 0 <= id ∧ IPCID_TO_IX id = i ∧ IPCID_TO_SEQ id = seq.
Proof.
  intros Hi Hs. cbn zeta. unfold IXSEQ_TO_IPCID, IPCID_TO_IX, IPCID_TO_SEQ. change 0xffff with (Z.ones 16). rewrite land_ones_mod by lia.
  rewrite (wrap_small 16 i) by (unfold in_u; lia). rewrite lor_shiftl by lia. change (2 ^ 16) with 65536 in *. change (2 ^ 15) with 32768 in *.
  rewrite swrap_small by (change (2 ^ (32 - 1)) with 2147483648; lia). split; [lia |]. rewrite !land_ones_mod by lia. unfold wrap. rewrite Z.shiftr_div_pow2 by lia.
  change (2 ^ 16) with 65536. split; [zlia |]. rewrite Z.div_add_l by lia. rewrite (Z.div_small i) by lia. rewrite Z.add_0_r. apply Z.mod_small. lia.
Qed.

Lemma shm_ix id : 0 <= IPCID_TO_IX id < 2 ^ 16.
Proof. unfold IPCID_TO_IX. change 0xffff with (Z.ones 16). rewrite land_ones_mod by lia. by apply wrap_in_u. Qed.

Lemma land_pow2 m k : 0 <= k → Z.land m (2 ^ k) = if tst m (2 ^ k) then 2 ^ k else 0.
Proof.
  intros Hk. assert (H : Z.land m (2 ^ k) = 0 ∨ Z.land m (2 ^ k) = 2 ^ k).
  { destruct (Z.testbit m k) eqn:E; [right | left]; apply Z.bits_inj'; intros n Hn; rewrite Z.land_spec, ?Z.bits_0, Z.pow2_bits_eqb by done;
      destruct (Z.eqb_spec k n) as [->|]; rewrite ?E, ?andb_false_r; done. }
  unfold tst. destruct H as [-> | ->]; [done |]. destruct (Z.eqb_spec (2 ^ k) 0); [lia | done].
Qed.

(** The test of [shm_find_segment_by_shmid]. *)
Lemma mode_live m : Z.land m (Z.lor SHMSEG_ALLOCATED SHMSEG_REMOVED) =? SHMSEG_ALLOCATED = tst m SHMSEG_ALLOCATED && negb (tst m SHMSEG_REMOVED).
Proof.
  rewrite Z.land_lor_distr_r. unfold SHMSEG_ALLOCATED, SHMSEG_REMOVED. change 0x800 with (2 ^ 11). change 0x400 with (2 ^ 10).
  rewrite !land_pow2 by lia. by destruct (tst m (2 ^ 11)), (tst m (2 ^ 10)).
Qed.

Lemma tst_perms x b : Z.land ACCESSPERMS b = 0 → tst (Z.land x ACCESSPERMS) b = false.
Proof. intros H. unfold tst. by rewrite <- Z.land_assoc, H, Z.land_0_r. Qed.

(** ** Handles *)

Definition hnext (H : gmap Z shm_handle) (a : Z) : res Z := match H !! a with Some h => Ok (shm_handle_next h) | None => Fault end.
Definition hsize (H : gmap Z shm_handle) (a : Z) : Z := match H !! a with Some h => shm_handle_size h | None => 0 end.
Fixpoint hsizes (H : gmap Z shm_handle) (l : list Z) : Z := match l with [] => 0 | a :: l => hsize H a + hsizes H l end.

(** Handles belong to segments; the named entry of a handle has the number
    below its address. *)
Record heap_ok (H : gmap Z shm_handle) (O : gset Z) (n : Z) (hs : Z → list Z) : Prop := {
  hp_pos : 0 < n;
  hp_owned a : is_Some (H !! a) ↔ ∃ i, a ∈ hs i;
  hp_range i a : a ∈ hs i → 0 < a < n;
  hp_nodup i : NoDup (hs i);
  hp_disj i j a : a ∈ hs i → a ∈ hs j → i = j;
  hp_object a h : H !! a = Some h → shm_object h = a - 1;
  hp_objects o : o ∈ O ↔ is_Some (H !! (o + 1))
}.

(** ** Segments *)

Definition allocated (g : shmid_ds) : bool := tst (mode (shm_perm g)) SHMSEG_ALLOCATED.
Definition removed (g : shmid_ds) : bool := tst (mode (shm_perm g)) SHMSEG_REMOVED.

(** [l] are the handles and [n] the number of entries of a segment. *)
Record used_ok (H : gmap Z shm_handle) (l : list Z) (n : Z) (g : shmid_ds) : Prop := {
  us_alloc : allocated g = true;
  us_free : tst (mode (shm_perm g)) SHMSEG_FREE = false;
  us_wanted : tst (mode (shm_perm g)) SHMSEG_WANTED = false;
  us_nattch : shm_nattch g = n;
  us_bound : 0 <= n < 2 ^ 15;
  us_removed : removed g = true → 0 < n ∧ _key (shm_perm g) = IPC_PRIVATE;
  us_chain : path (hnext H) (shm_internal g) l 0;
  us_chunks : Forall (λ a, PAGE_SIZE <= hsize H a) l;
  us_size : 0 < shm_segsz g ∧ shm_segsz g + PAGE_MASK < 2 ^ 64;
  us_sum : hsizes H l = (shm_segsz g + PAGE_MASK) / PAGE_SIZE * PAGE_SIZE
}.

Record free_ok (l : list Z) (n : Z) (g : shmid_ds) : Prop := {
  fr_mode : mode (shm_perm g) = SHMSEG_FREE;
  fr_internal : shm_internal g = 0;
  fr_handles : l = [];
  fr_entries : n = 0
}.

Definition seg_ok (H : gmap Z shm_handle) (l : list Z) (n : Z) (g : shmid_ds) : Prop :=
  0 <= _seq (shm_perm g) < 2 ^ 15 ∧ (free_ok l n g ∨ used_ok H l n g).

Definition entry_ok (segs : list shmid_ds) (e : shmmap_state) : Prop :=
  shmid e = SHMID_UNALLOCATED ∨
  0 <= shmid e ∧ ∃ g, rd segs (IPCID_TO_IX (shmid e)) = Ok g ∧ allocated g = true ∧ _seq (shm_perm g) = IPCID_TO_SEQ (shmid e).

Definition table_ok (segs : list shmid_ds) (t : list shmmap_state) : Prop :=
  ∃ l e, t = l ++ [e] ∧ shmid e = SHMID_SENTINEL ∧ Forall (entry_ok segs) l ∧ Z.of_nat (length l) < 2 ^ 31.

Record inv (s : state) (hs : Z → list Z) : Prop := {
  iv_init : shm_inited s = true;
  iv_mni : 0 < shmmni (info s) <= 2 ^ 16;
  iv_len : Z.of_nat (length (shmsegs s)) = shmmni (info s);
  iv_heap : heap_ok (handles s) (objects s) (fresh s) hs;
  iv_seg i g : rd (shmsegs s) i = Ok g → seg_ok (handles s) (hs i) (total i (vm_shm s)) g;
  iv_out i : ¬ (0 <= i < shmmni (info s)) → hs i = [];
  iv_tables p t : vm_shm s !! p = Some t → table_ok (shmsegs s) t;
  iv_nused : shm_nused s = cnt allocated (shmsegs s);
  iv_last : shm_last_free s = -1 ∨ ∃ g, rd (shmsegs s) (shm_last_free s) = Ok g ∧ mode (shm_perm g) = SHMSEG_FREE
}.

(** A segment keeps its place for its entries. *)
Definition same_id (g g' : shmid_ds) : Prop := allocated g' = allocated g ∧ _seq (shm_perm g') = _seq (shm_perm g).

Lemma entry_ok_update segs i g g' e : rd segs i = Ok g → entry_ok segs e → (at_seg i e = true → same_id g g') → entry_ok (<[Z.to_nat i := g']> segs) e.
Proof.
  intros Hg [?|(Hv & x & Hx & Ha & Hs)] Hsame; [by left | right]. split; [done |]. destruct (decide (IPCID_TO_IX (shmid e) = i)) as [E|Hne].
  - rewrite E in *. exists g'. rewrite Hg in Hx. injection Hx as <-. destruct Hsame as [Ha' Hs']; [unfold at_seg, SHMID_IS_VALID; lia |].
    split; [by eapply rd_insert_eq | by rewrite Ha', Hs'].
  - exists x. split; [| done]. rewrite rd_insert_ne; [done | | done]. by apply rd_range in Hg as [? _].
Qed.

Lemma table_ok_update segs i g g' t : rd segs i = Ok g → table_ok segs t → (∀ e, e ∈ t → at_seg i e = true → same_id g g') → table_ok (<[Z.to_nat i := g']> segs) t.
Proof.
  intros Hg (l & e & -> & He & Hl & Hn) Hs. exists l, e. split; [done |]. split; [done |]. split; [| done]. apply Forall_forall. intros x Hx.
  rewrite Forall_forall in Hl. eapply entry_ok_update; [done | by apply Hl |]. apply Hs. apply elem_of_app. by left.
Qed.
