(* ===== verification/ShmHeap.v ===== *)
(** * System V shared memory: handles

    What freeing, mapping and making the handles of a segment does. *)

From stdpp Require Import functions.
From S2P Require Import Prelude Chain Ipc Shm ShmInv.

(** ** Steps *)

Lemma wp_modify_shm f (Q : () → state → Prop) s : Q () (f s) → wp (modify f) Q s.
Proof. done. Qed.

Lemma wp_lift_shm {A} (m : res A) x (Q : A → state → Prop) s : m = Ok x → Q x s → wp (liftr m) Q s.
Proof. intros -> H. done. Qed.

Lemma wp_get_seg i g (Q : shmid_ds → state → Prop) s : rd (shmsegs s) i = Ok g → Q g s → wp (get_seg i) Q s.
Proof. intros H HQ. unfold get_seg. by apply wp_bind, wp_get, (wp_lift_shm _ g). Qed.

Lemma wp_put_seg i g g' (Q : () → state → Prop) s : rd (shmsegs s) i = Ok g → Q () (with_segs (<[Z.to_nat i := g']> (shmsegs s)) s) → wp (put_seg i g') Q s.
Proof.
  intros H HQ. unfold put_seg. apply wp_bind, wp_get, wp_bind. eapply wp_lift_shm; [by eapply wr_rd |]. by apply wp_modify_shm.
Qed.

Lemma wp_get_handle a h (Q : shm_handle → state → Prop) s : handles s !! a = Some h → Q h s → wp (get_handle a) Q s.
Proof. intros H HQ. unfold get_handle. apply wp_bind, wp_get. by rewrite H. Qed.

Lemma wp_ask c (Q : () → state → Prop) s : Q () (with_vm (vm s ++ [c]) s) → wp (ask c) Q s.
Proof. done. Qed.

(** ** Freeing *)

(** The handles [l] and their entries are gone. *)
Definition freed (l : list Z) (s s' : state) : Prop :=
  ∃ H O, s' = with_handles H O (fresh s) s ∧ (∀ a, H !! a = if decide (a ∈ l) then None else handles s !! a) ∧
    ∀ o, o ∈ O ↔ o ∈ objects s ∧ o + 1 ∉ l.

Lemma free_handles_spec fuel : ∀ a l s, path (hnext (handles s)) a l 0 → NoDup l → (length l <= fuel)%nat →
  (∀ b, b ∈ l → b ≠ 0 ∧ ∃ h, handles s !! b = Some h ∧ shm_object h = b - 1 ∧ b - 1 ∈ objects s) →
  wp (free_handles fuel a) (λ _, freed l s) s.
Proof.
  induction fuel as [|fuel IH]; intros a l s Hp Hn Hf Hl; destruct l as [|b l]; try (cbn in Hf; lia).
  1-2: cbn in Hp; subst a; apply wp_ret; exists (handles s), (objects s); split; [by destruct s |]; split; [by intros |]; intros o; rewrite elem_of_nil; naive_solver.
  destruct Hp as (-> & n & Hnx & Hp). destruct (Hl b ltac:(constructor)) as (Hb & h & Hh & Ho & Hin). inversion_clear Hn as [|x k Hnb Hn'].
  unfold hnext in Hnx. rewrite Hh in Hnx. injection Hnx as <-. cbn [free_handles]. rewrite (proj2 (Z.eqb_neq b 0) Hb).
  apply wp_bind, (wp_get_handle _ h); [done |]. apply wp_bind. unfold free_handle. apply wp_bind, (wp_get_handle _ h); [done |]. apply wp_bind, wp_get.
  rewrite Ho, bool_decide_eq_true_2 by done. apply wp_modify_shm. set (s1 := with_handles _ _ _ s).
  eapply wp_mono; [apply (IH _ l s1) |].
  - eapply path_ext; [done |]. intros c Hc. unfold hnext. cbn. rewrite lookup_delete_ne; [done |]. by intros ->.
  - done.
  - cbn in Hf. lia.
  - intros c Hc. destruct (Hl c ltac:(by constructor)) as (Hc0 & h' & Hh' & Ho' & Hin'). split; [done |]. exists h'. cbn.
    rewrite lookup_delete_ne by (by intros ->). split; [done |]. split; [done |]. apply elem_of_difference. split; [done |].
    intros ?%elem_of_singleton. assert (c = b) as -> by lia. done.
  - intros _ s' (H & O & -> & HH & HO). exists H, O. split; [done |]. cbn in HH, HO. split.
    + intros c. rewrite HH. destruct (decide (c = b)) as [->|Hne].
      * rewrite decide_False by done. rewrite lookup_delete_eq. by rewrite decide_True by constructor.
      * rewrite lookup_delete_ne by done. destruct (decide (c ∈ l)); [rewrite decide_True by (by constructor) | rewrite decide_False by (by rewrite elem_of_cons; naive_solver)]; done.
    + intros o. rewrite HO, elem_of_difference, elem_of_singleton, elem_of_cons. split.
      * intros ([? ?] & ?). split; [done |]. intros [?|?]; [lia | done].
      * intros (? & Hx). split; [split; [done |]; intros ->; apply Hx; left; lia | by intros ?; apply Hx; right].
Qed.

Lemma handles_fuel (H : gmap Z shm_handle) l : NoDup l → (∀ a, a ∈ l → is_Some (H !! a)) → (length l <= size H)%nat.
Proof.
  intros Hn Hl. rewrite <- size_dom, <- (size_list_to_set (C:=gset Z) l) by done. apply subseteq_size. intros a Ha. apply elem_of_list_to_set in Ha.
  apply elem_of_dom. by apply Hl.
Qed.

Section owned.
Context (H : gmap Z shm_handle) (O : gset Z) (n : Z) (hs : Z → list Z) (Hok : heap_ok H O n hs).

Lemma owned_handle i a : a ∈ hs i → a ≠ 0 ∧ ∃ h, H !! a = Some h ∧ shm_object h = a - 1 ∧ a - 1 ∈ O.
Proof.
  intros Ha. pose proof (hp_range _ _ _ _ Hok i a Ha). split; [lia |]. destruct (proj2 (hp_owned _ _ _ _ Hok a) (ex_intro _ i Ha)) as [h Hh]. exists h.
  split; [done |]. split; [by eapply hp_object |]. apply (hp_objects _ _ _ _ Hok). exists h. by rewrite Z.sub_add.
Qed.

Lemma owned_fuel i : (length (hs i) <= size H)%nat.
Proof. apply handles_fuel; [apply Hok |]. intros a Ha. apply (hp_owned _ _ _ _ Hok). by exists i. Qed.

Lemma heap_freed i H' O' : (∀ a, H' !! a = if decide (a ∈ hs i) then None else H !! a) → (∀ o, o ∈ O' ↔ o ∈ O ∧ o + 1 ∉ hs i) →
  heap_ok H' O' n (<[i := []]> hs).
Proof.
  intros HH HO. assert (Hin : ∀ j a, a ∈ (<[i := []]> hs) j ↔ j ≠ i ∧ a ∈ hs j).
  { intros j a. destruct (decide (j = i)) as [->|Hne]; [rewrite fn_lookup_insert, elem_of_nil; naive_solver | rewrite fn_lookup_insert_ne by done; naive_solver]. }
  split.
  - apply Hok.
  - intros a. setoid_rewrite Hin. rewrite HH. case_decide as Ha.
    + split; [by intros [? ?] |]. intros (j & Hj & Haj). by destruct (Hj (hp_disj _ _ _ _ Hok _ _ _ Haj Ha)).
    + rewrite (hp_owned _ _ _ _ Hok). split; intros (j & Hj); exists j; [| by destruct Hj]. split; [by intros -> | done].
  - intros j a [_ Ha]%Hin. by eapply hp_range.
  - intros j. destruct (decide (j = i)) as [->|Hne]; [rewrite fn_lookup_insert; constructor | rewrite fn_lookup_insert_ne by done; apply Hok].
  - intros j k a [_ Hj]%Hin [_ Hk]%Hin. by eapply hp_disj.
  - intros a h. rewrite HH. case_decide; [done |]. apply Hok.
  - intros o. rewrite HO, HH, (hp_objects _ _ _ _ Hok). case_decide; split; [by intros [_ ?] | by intros [? ?] | by intros [? _] | done].
Qed.

End owned.

Lemma hsizes_ext H H' l : (∀ a, a ∈ l → H' !! a = H !! a) → hsizes H' l = hsizes H l.
Proof. induction l as [|a l IH]; intros Hl; [done |]. cbn. unfold hsize. rewrite Hl by constructor. rewrite IH; [done |]. intros b Hb. apply Hl. by constructor. Qed.

Lemma used_ok_ext H H' l n g : used_ok H l n g → (∀ a, a ∈ l → H' !! a = H !! a) → used_ok H' l n g.
Proof.
  intros [? ? ? ? ? ? Hc Hs ? ?] Hl. split; try done; [| | by rewrite (hsizes_ext H)].
  - eapply path_ext; [done |]. intros a Ha. unfold hnext. by rewrite Hl.
  - rewrite Forall_forall in *. intros a Ha. unfold hsize. rewrite Hl by done. by apply Hs.
Qed.

Lemma seg_ok_ext H H' l n g : seg_ok H l n g → (∀ a, a ∈ l → H' !! a = H !! a) → seg_ok H' l n g.
Proof. intros [Hq [Hf|Hu]] Hl; (split; [done |]); [by left | right; by eapply used_ok_ext]. Qed.

(** ** Mapping *)

(** What is asked of the map for the handles [l]. *)
Fixpoint enters (H : gmap Z shm_handle) (p : nat) (addr map_size mapped prot : Z) (l : list Z) : list vmcall :=
  match l with
  | [] => []
  | a :: l =>
      let c := Z.min (hsize H a) (map_size - mapped) in
      Enter p addr c (a - 1) prot :: enters H p (addr + c) map_size (mapped + c) prot l
  end.

(** What is left to map fits the handles that are left. *)
Definition to_map (H : gmap Z shm_handle) (pgmask map_size mapped : Z) (l : list Z) : Prop :=
  match l with
  | [] => mapped = map_size
  | _ => mapped + hsizes H l - PAGE_SIZE < map_size <= mapped + hsizes H l ∧ (pgmask < PAGE_MASK ∨ map_size = mapped + hsizes H l)
  end.

Lemma hsizes_pos H l : Forall (λ a, PAGE_SIZE <= hsize H a) l → l = [] ∨ PAGE_SIZE <= hsizes H l.
Proof.
  induction 1 as [|a l Ha Hl [->|IH]]; [by left | |]; right; cbn; unfold PAGE_SIZE in *; lia.
Qed.

Lemma to_map_next H pgmask map_size mapped a l : Forall (λ a, PAGE_SIZE <= hsize H a) (a :: l) → to_map H pgmask map_size mapped (a :: l) →
  mapped < map_size ∧ (hsize H a > map_size - mapped → pgmask < PAGE_MASK ∧ l = []) ∧
  to_map H pgmask map_size (mapped + Z.min (hsize H a) (map_size - mapped)) l.
Proof.
  intros [Ha Hl]%Forall_cons [Hm Hp]. cbn in Hm, Hp. pose proof (hsizes_pos H l Hl) as [->|Hs]; cbn in *; unfold PAGE_SIZE in *.
  - split; [lia |]. split; [| lia]. intros ?. split; [lia | done].
  - split; [lia |]. split; [lia |]. destruct l as [|b l]; [cbn in Hs; lia |]. unfold to_map, PAGE_SIZE. lia.
Qed.

Lemma enter_handles_spec fuel p pgmask map_size prot : ∀ l a addr mapped rvs s,
  path (hnext (handles s)) a l 0 → (length l <= fuel)%nat → (∀ b, b ∈ l → b ≠ 0 ∧ ∃ h, handles s !! b = Some h ∧ shm_object h = b - 1) →
  Forall (λ a, PAGE_SIZE <= hsize (handles s) a) l → to_map (handles s) pgmask map_size mapped l →
  wp (enter_handles fuel p pgmask a addr map_size mapped prot rvs) (λ r s', ∃ calls, s' = with_vm (vm s ++ calls) s ∧
    (r.1 = KERN_SUCCESS → calls = enters (handles s) p addr map_size mapped prot l ∧ r.2 = map_size)) s.
Proof.
  induction fuel as [|fuel IH]; intros l a addr mapped rvs s Hp Hf Hl Hc Hm; destruct l as [|b l]; try (cbn in Hf; lia).
  1-2: cbn in Hp; subst a; apply wp_ret; exists []; rewrite app_nil_r; split; [by destruct s | done].
  destruct Hp as (-> & n & Hnx & Hp). destruct (Hl b ltac:(constructor)) as (Hb & h & Hh & Ho). destruct (to_map_next _ _ _ _ _ _ Hc Hm) as (Hlt & Hpart & Hm').
  unfold hnext in Hnx. rewrite Hh in Hnx. injection Hnx as <-. unfold hsize in Hpart, Hm' at 1. rewrite Hh in Hpart, Hm'. cbn [enter_handles]. rewrite (proj2 (Z.eqb_neq b 0) Hb).
  apply wp_bind, (wp_get_handle _ h); [done |]. destruct (Z.ltb_spec mapped map_size); [| lia]. cbn [negb].
  set (partial := shm_handle_size h >? map_size - mapped). assert (Hpt : partial = true → pgmask < PAGE_MASK ∧ l = []) by (intros E; apply Hpart; unfold partial in E; lia).
  assert (partial && negb (pgmask <? PAGE_MASK) = false) as -> by (destruct partial; [destruct Hpt; [done |]; cbn; lia | done]).
  assert (partial && negb (shm_handle_next h =? 0) = false) as ->.
  { destruct partial; [| done]. destruct Hpt as [_ ->]; [done |]. cbn in Hp. rewrite Hp. done. }
  assert ((if partial then map_size - mapped else shm_handle_size h) = Z.min (hsize (handles s) b) (map_size - mapped)) as ->.
  { unfold hsize. rewrite Hh. unfold partial. destruct (Z.gtb_spec (shm_handle_size h) (map_size - mapped)); lia. }
  set (c := Z.min _ _). apply wp_bind, wp_ask. set (call := Enter p addr c (shm_object h) prot). set (s1 := with_vm _ s).
  destruct (negb _) eqn:Er; [apply wp_ret; exists [call]; split; [done |]; cbn; intros E; by rewrite E in Er |].
  eapply wp_mono; [apply (IH l _ _ _ _ s1) |]; try done.
  - cbn in Hf. lia.
  - intros x Hx. apply Hl. by constructor.
  - by inversion Hc.
  - cbn. unfold c, hsize. by rewrite Hh.
  - intros [rv m] s' (calls & -> & Hs). exists (call :: calls). split; [cbn; by rewrite <- app_assoc |]. intros E. destruct (Hs E) as [-> ->]. split; [| done].
    cbn. unfold call. by rewrite Ho.
Qed.

(** ** Making *)

Lemma heap_add H O n hs i sz : heap_ok H O n hs → heap_ok (<[n + 1 := ShmHandle n sz 0]> H) ({[n]} ∪ O) (n + 2) (<[i := hs i ++ [n + 1]]> hs).
Proof.
  intros Hok. pose proof (hp_pos _ _ _ _ Hok). assert (Hnew : ∀ j, n + 1 ∉ hs j) by (intros j Hj; pose proof (hp_range _ _ _ _ Hok j _ Hj); lia).
  assert (Hin : ∀ j a, a ∈ (<[i := hs i ++ [n + 1]]> hs) j ↔ a ∈ hs j ∨ j = i ∧ a = n + 1).
  { intros j a. destruct (decide (j = i)) as [->|Hne]; [rewrite fn_lookup_insert, elem_of_app, list_elem_of_singleton; naive_solver | rewrite fn_lookup_insert_ne by done; naive_solver]. }
  split.
  - lia.
  - intros a. setoid_rewrite Hin. destruct (decide (a = n + 1)) as [->|Hne].
    + rewrite lookup_insert_eq. split; [intros _; exists i; naive_solver | done].
    + rewrite lookup_insert_ne by done. rewrite (hp_owned _ _ _ _ Hok). naive_solver.
  - intros j a [Ha|[_ ->]]%Hin; [pose proof (hp_range _ _ _ _ Hok j a Ha); lia | lia].
  - intros j. destruct (decide (j = i)) as [->|Hne]; [rewrite fn_lookup_insert | rewrite fn_lookup_insert_ne by done; apply Hok].
    apply NoDup_app. split; [apply Hok |]. split; [| apply NoDup_singleton]. intros x Hx ->%list_elem_of_singleton. by apply (Hnew i).
  - intros j k a [Hj|[Ej Ea]]%Hin [Hk|[Ek Ea']]%Hin.
    + by eapply hp_disj.
    + rewrite Ea' in Hj. by destruct (Hnew j).
    + rewrite Ea in Hk. by destruct (Hnew k).
    + by rewrite Ej, Ek.
  - intros a h. destruct (decide (a = n + 1)) as [->|Hne]; [rewrite lookup_insert_eq; intros [= <-]; cbn; lia | rewrite lookup_insert_ne by done; apply (hp_object _ _ _ _ Hok)].
  - intros o. rewrite elem_of_union, elem_of_singleton, (hp_objects _ _ _ _ Hok). destruct (decide (o = n)) as [->|Hne]; [rewrite lookup_insert_eq; naive_solver |].
    rewrite lookup_insert_ne by lia. naive_solver.
Qed.

Lemma heap_link H O n hs a h x : heap_ok H O n hs → H !! a = Some h → heap_ok (<[a := ShmHandle (shm_object h) (shm_handle_size h) x]> H) O n hs.
Proof.
  intros Hok Ha. assert (Hs : ∀ b, is_Some (<[a := ShmHandle (shm_object h) (shm_handle_size h) x]> H !! b) ↔ is_Some (H !! b)).
  { intros b. destruct (decide (b = a)) as [->|Hne]; [rewrite lookup_insert_eq, Ha; split; by eexists | by rewrite lookup_insert_ne]. }
  split; try apply Hok.
  - intros b. rewrite Hs. apply Hok.
  - intros b h'. destruct (decide (b = a)) as [->|Hne]; [rewrite lookup_insert_eq; intros [= <-]; cbn; by apply (hp_object _ _ _ _ Hok) | rewrite lookup_insert_ne by done; apply (hp_object _ _ _ _ Hok)].
  - intros o. rewrite Hs. apply Hok.
Qed.

Lemma hsizes_app H l l' : hsizes H (l ++ l') = hsizes H l + hsizes H l'.
Proof. induction l as [|a l IH]; cbn; lia. Qed.

(** A handle [a] is linked behind the last one. *)
Lemma path_link H l x h a i sz : path (hnext H) i (l ++ [x]) 0 → x ∉ l → a ≠ x → a ∉ l → H !! x = Some h → H !! a = Some (ShmHandle (a - 1) sz 0) →
  path (hnext (<[x := ShmHandle (shm_object h) (shm_handle_size h) a]> H)) i ((l ++ [x]) ++ [a]) 0.
Proof.
  intros (j & Hl & <- & k & _ & _)%path_app Hx Hax Hal Hh Ha. rewrite <- app_assoc. apply path_app. exists j. split.
  - eapply path_ext; [done |]. intros y Hy. unfold hnext. by rewrite lookup_insert_ne by (by intros ->).
  - split; [done |]. exists a. split; [unfold hnext; by rewrite lookup_insert_eq |]. split; [done |]. exists 0. split; [| done].
    unfold hnext. by rewrite lookup_insert_ne, Ha by done.
Qed.

(** What has been made for the segment [i] of size [sum] when its structure is
    [g]. *)
Record made (s : state) (hs : Z → list Z) (i sum : Z) (g : shmid_ds) : Prop := {
  md_seg : rd (shmsegs s) i = Ok g;
  md_heap : heap_ok (handles s) (objects s) (fresh s) hs;
  md_chain : path (hnext (handles s)) (shm_internal g) (hs i) 0;
  md_chunks : Forall (λ a, PAGE_SIZE <= hsize (handles s) a) (hs i);
  md_sum : hsizes (handles s) (hs i) = sum
}.

(** Only the segment [i], and only its handles have changed. *)
Record makes (i : Z) (g : shmid_ds) (s : state) (hs : Z → list Z) (g' : shmid_ds) (s' : state) (hs' : Z → list Z) : Prop := {
  ms_state : s' = with_segs (<[Z.to_nat i := g']> (shmsegs s)) (with_handles (handles s') (objects s') (fresh s') s);
  ms_seg : g' = set_internal (shm_internal g') g;
  ms_hs j : j ≠ i → hs' j = hs j;
  ms_handles j a : j ≠ i → a ∈ hs j → handles s' !! a = handles s !! a
}.

Lemma makes_trans i g s hs g1 s1 hs1 g2 s2 hs2 : makes i g s hs g1 s1 hs1 → makes i g1 s1 hs1 g2 s2 hs2 → makes i g s hs g2 s2 hs2.
Proof.
  intros [E1 G1 H1 A1] [E2 G2 H2 A2]. split.
  - rewrite E2, E1. cbn. by rewrite list_insert_insert_eq.
  - rewrite G2, G1. done.
  - intros j Hj. by rewrite H2, H1.
  - intros j a Hj Ha. rewrite (A2 j); [by eapply A1 | done | by rewrite H1].
Qed.

(** One more handle of size [sz], at the address after [fresh]. *)
Lemma link_chunk s hs i sum g sz : made s hs i sum g → PAGE_SIZE <= sz →
  let a := fresh s + 1 in
  let s1 := with_handles (<[a := ShmHandle (fresh s) sz 0]> (handles s)) ({[fresh s]} ∪ objects s) (fresh s + 2) s in
  wp (if default 0 (last (hs i)) =? 0 then g ← get_seg i; put_seg i (set_internal a g)
      else h ← get_handle (default 0 (last (hs i))); s ← get;
        modify (with_handles (<[default 0 (last (hs i)) := ShmHandle (shm_object h) (shm_handle_size h) a]> (handles s)) (objects s) (fresh s)))
    (λ _ s', let hs' := <[i := hs i ++ [a]]> hs in ∃ g', made s' hs' i (sum + sz) g' ∧ makes i g s hs g' s' hs') s1.
Proof.
  intros [Hg Hok Hp Hc Hsum] Hsz a s1. pose proof (heap_add _ _ _ _ i sz Hok) as Hok1. fold a in Hok1.
  assert (Hnew : ∀ j, a ∉ hs j) by (intros j Hj; pose proof (hp_range _ _ _ _ Hok j _ Hj); unfold a in *; lia).
  assert (Hold : ∀ b, b ∈ hs i → handles s1 !! b = handles s !! b) by (intros b Hb; cbn; rewrite lookup_insert_ne; [done |]; intros ->; by apply (Hnew i)).
  assert (Hsz1 : hsize (handles s1) a = sz) by (unfold hsize; cbn; by rewrite lookup_insert_eq). set (hs' := <[i := hs i ++ [a]]> hs).
  assert (Hi : hs' i = hs i ++ [a]) by apply fn_lookup_insert. destruct (last (hs i)) as [x|] eqn:El; cbn [default from_option].
  - apply last_Some in El as [l El]. assert (Hx : x ∈ hs i) by (rewrite El; apply elem_of_app; right; by constructor).
    destruct (owned_handle _ _ _ _ Hok i x Hx) as (Hx0 & h & Hh & _ & _). change (id x) with x. rewrite (proj2 (Z.eqb_neq x 0) Hx0).
    assert (Hxa : a ≠ x) by (intros <-; by apply (Hnew i)). assert (Hh1 : handles s1 !! x = Some h) by (by rewrite Hold).
    apply wp_bind, (wp_get_handle _ h); [done |]. apply wp_bind, wp_get, wp_modify_shm. set (s2 := with_handles _ _ _ s1). exists g.
    assert (Hsame : ∀ b, hsize (handles s2) b = hsize (handles s1) b).
    { intros b. unfold hsize, s2. cbn [handles with_handles]. destruct (decide (b = x)) as [->|Hne]; [rewrite lookup_insert_eq; by rewrite Hh1 | by rewrite lookup_insert_ne by done]. }
    assert (Hss : ∀ l, hsizes (handles s2) l = hsizes (handles s1) l) by (intros l0; induction l0 as [|b l0 IH]; [done |]; cbn [hsizes]; by rewrite Hsame, IH).
    pose proof (hp_nodup _ _ _ _ Hok i) as Hnd. rewrite El in Hnd. apply NoDup_app in Hnd as (_ & Hnd & _).
    split; [split | split].
    + done.
    + by apply heap_link.
    + rewrite Hi, El. apply path_link with (sz := sz).
      * rewrite <- El. eapply path_ext; [done |]. intros b Hb. unfold hnext. by rewrite Hold.
      * intros Hxl. apply (Hnd x Hxl). by constructor.
      * done.
      * intros Hal. apply (Hnew i). rewrite El. apply elem_of_app. by left.
      * done.
      * cbn. rewrite lookup_insert_eq. unfold a. by rewrite Z.add_simpl_r.
    + rewrite Hi. apply Forall_app. split; [| apply Forall_singleton; by rewrite Hsame, Hsz1]. rewrite Forall_forall in *. intros b Hb. rewrite Hsame. unfold hsize. rewrite Hold by done. by apply Hc.
    + rewrite Hi, Hss, hsizes_app, (hsizes_ext (handles s)) by done. cbn [hsizes]. rewrite Hsz1. lia.
    + unfold s2, s1. cbn. rewrite list_insert_id; [by destruct s |]. by apply rd_lookup in Hg as [_ Hg].
    + by destruct g.
    + intros j Hj. unfold hs'. by rewrite fn_lookup_insert_ne.
    + intros j b Hj Hb. cbn. rewrite lookup_insert_ne; [apply lookup_insert_ne; intros ->; by apply (Hnew j) |]. intros ->. by destruct (Hj (hp_disj _ _ _ _ Hok _ _ _ Hb Hx)).
  - apply last_None in El. cbn [Z.eqb]. apply wp_bind, (wp_get_seg _ g); [done |]. apply (wp_put_seg _ g); [done |]. set (s2 := with_segs _ s1). exists (set_internal a g).
    rewrite El in Hp, Hc, Hsum, Hi. cbn [app] in Hi. split; [split | split].
    + cbn. by eapply rd_insert_eq.
    + done.
    + rewrite Hi. cbn [shm_internal set_internal]. split; [done |]. exists 0. split; [| done]. unfold hnext. cbn. by rewrite lookup_insert_eq.
    + rewrite Hi. apply Forall_singleton. change (handles s2) with (handles s1). by rewrite Hsz1.
    + rewrite Hi. cbn [hsizes]. change (handles s2) with (handles s1). rewrite Hsz1. cbn in Hsum. lia.
    + done.
    + by destruct g.
    + intros j Hj. unfold hs'. by rewrite fn_lookup_insert_ne.
    + intros j b Hj Hb. cbn. apply lookup_insert_ne. intros ->. by apply (Hnew j).
Qed.

Lemma makes_refl i g s hs : rd (shmsegs s) i = Ok g → makes i g s hs g s hs.
Proof.
  intros [_ Hg]%rd_lookup. split; [| by destruct g | done | done]. rewrite list_insert_id by done. by destruct s.
Qed.

Lemma round_page k x : 0 <= k → 0 <= x → x + (2 ^ k - 1) < 2 ^ 64 → vm_map_round_page x (2 ^ k - 1) = (x + (2 ^ k - 1)) / 2 ^ k * 2 ^ k.
Proof.
  intros Hk Hx Hb. unfold vm_map_round_page. assert (0 < 2 ^ k) by lia. rewrite wrap_small by (unfold in_u; lia). replace (2 ^ k - 1) with (Z.ones k) by (rewrite Z.ones_equiv; lia).
  rewrite <- Z.ldiff_land, Z.ldiff_ones_r, Z.shiftr_div_pow2, Z.shiftl_mul_pow2 by done. done.
Qed.

(** A named entry has the size that is asked for. *)
Lemma named_entry_pages z : 0 <= z <= ANON_MAX_SIZE → (PAGE_SIZE | z) → named_entry_size z = z.
Proof.
  intros Hz [k ->]. unfold named_entry_size. change PAGE_MASK with (2 ^ 12 - 1). rewrite round_page by (unfold ANON_MAX_SIZE, PAGE_SIZE in *; lia).
  change (2 ^ 12) with PAGE_SIZE. rewrite Z.div_add_l by done. change ((PAGE_SIZE - 1) / PAGE_SIZE) with 0. lia.
Qed.

Lemma make_chunks_spec i total_size : (PAGE_SIZE | total_size) → ∀ chunks sum sz s hs g,
  made s hs i sum g → (PAGE_SIZE | sum) → sum <= total_size → Forall (λ c, c = Made true) chunks → total_size - sum <= Z.of_nat (length chunks) * ANON_MAX_SIZE →
  wp (make_chunks chunks i (default 0 (last (hs i))) sum total_size sz)
    (λ r s', r.1 = KERN_SUCCESS ∧ ∃ hs' g', made s' hs' i total_size g' ∧ makes i g s hs g' s' hs') s.
Proof.
  intros Ht. induction chunks as [|c chunks IH]; intros sum sz s hs g Hm Hs Hle Hc Hn.
  { cbn in Hn. cbn [make_chunks]. destruct (Z.ltb_spec sum total_size); [lia |]. apply wp_ret. split; [done |]. exists hs, g.
    assert (sum = total_size) as <- by lia. split; [done |]. apply makes_refl, Hm. }
  apply Forall_cons in Hc as [-> Hc]. cbn [make_chunks]. destruct (Z.ltb_spec sum total_size) as [Hlt|Hge].
  2: { apply wp_ret. split; [done |]. exists hs, g. assert (sum = total_size) as <- by lia. split; [done |]. apply makes_refl, Hm. }
  set (z := Z.min (total_size - sum) ANON_MAX_SIZE). assert (Hz : PAGE_SIZE <= z ∧ (PAGE_SIZE | z)).
  { assert (Hd : (PAGE_SIZE | total_size - sum)) by (by apply Z.divide_sub_r). assert (Ha : (PAGE_SIZE | ANON_MAX_SIZE)) by (by exists 1048575).
    assert ((PAGE_SIZE | z)) by (unfold z; destruct (Z.min_spec (total_size - sum) ANON_MAX_SIZE) as [[_ ->]|[_ ->]]; done). split; [| done].
    apply Z.divide_pos_le; [| done]. unfold z, ANON_MAX_SIZE, PAGE_SIZE. lia. }
  rewrite named_entry_pages by (apply Hz || (unfold z, ANON_MAX_SIZE, PAGE_SIZE in *; lia)).
  apply wp_bind, wp_get, wp_bind, wp_modify_shm, wp_bind. eapply wp_mono; [apply (link_chunk s hs i sum g z Hm); apply Hz |].
  intros _ s1 (g1 & Hm1 & Hk1). cbn zeta in *. set (hs1 := <[i := _]> hs) in *.
  assert (Hlast : fresh s + 1 = default 0 (last (hs1 i))) by (unfold hs1; by rewrite fn_lookup_insert, last_snoc).
  rewrite Hlast. eapply wp_mono; [apply (IH (sum + z) z s1 hs1 g1 Hm1) |].
  - apply Z.divide_add_r; [done | apply Hz].
  - unfold z. lia.
  - done.
  - rewrite length_cons, Nat2Z.inj_succ in Hn. unfold z. destruct (Z.min_spec (total_size - sum) ANON_MAX_SIZE) as [[? ->]|[? ->]]; unfold ANON_MAX_SIZE, PAGE_SIZE in *; lia.
  - intros [kret z'] s' (Hr & hs' & g' & Hm' & Hk'). split; [done |]. exists hs', g'. split; [done |]. by eapply makes_trans.
Qed.

(** When a named entry or the memory for a handle is refused: the answers are
    those after [n] chunks of the greatest size. *)
Definition refusal (kret : Z) (rest : list chunk) : Prop :=
  match rest with Refused k :: _ => k ≠ KERN_SUCCESS ∧ kret = k | Made true :: _ => False | _ => kret = KERN_NO_SPACE end.

Lemma make_chunks_refused i total_size kret rest : refusal kret rest → ∀ n sum sz s hs g,
  made s hs i sum g → sum + Z.of_nat n * ANON_MAX_SIZE < total_size →
  wp (make_chunks (replicate n (Made true) ++ rest) i (default 0 (last (hs i))) sum total_size sz)
    (λ r s', r.1 = kret ∧ ∃ hs' g' sum', made s' hs' i sum' g' ∧ makes i g s hs g' s' hs') s.
Proof.
  intros Hr. induction n as [|n IH]; intros sum sz s hs g Hm Hn.
  - cbn [replicate app]. assert (Hlt : sum < total_size) by lia. apply Z.ltb_lt in Hlt.
    destruct rest as [|[k|[]] rest]; cbn [make_chunks]; rewrite Hlt; [| | done |]; apply wp_ret; (split; [by destruct Hr || done |]); exists hs, g, sum; (split; [done | apply makes_refl, Hm]).
  - cbn [replicate app make_chunks]. rewrite Nat2Z.inj_succ in Hn. assert (Hlt : sum < total_size) by (unfold ANON_MAX_SIZE, PAGE_SIZE in *; lia). rewrite (proj2 (Z.ltb_lt _ _) Hlt).
    rewrite Z.min_r by (unfold ANON_MAX_SIZE, PAGE_SIZE in *; lia). rewrite (named_entry_pages ANON_MAX_SIZE) by (done || by exists 1048575).
    apply wp_bind, wp_get, wp_bind, wp_modify_shm, wp_bind. eapply wp_mono; [by apply (link_chunk s hs i sum g ANON_MAX_SIZE Hm) |].
    intros _ s1 (g1 & Hm1 & Hk1). cbn zeta in *. set (hs1 := <[i := _]> hs) in *.
    assert (Hlast : fresh s + 1 = default 0 (last (hs1 i))) by (unfold hs1; by rewrite fn_lookup_insert, last_snoc).
    rewrite Hlast. eapply wp_mono; [apply (IH (sum + ANON_MAX_SIZE) ANON_MAX_SIZE s1 hs1 g1 Hm1); unfold ANON_MAX_SIZE, PAGE_SIZE in *; lia |].
    intros [kr z] s' (Hr' & hs' & g' & sum' & Hm' & Hk'). split; [done |]. exists hs', g', sum'. split; [done |]. by eapply makes_trans.
Qed.
