(* ===== verification/ShmOps.v ===== *)
(** * System V shared memory: detaching and removing

    The operations keep the invariant. *)

From stdpp Require Import functions.
From S2P Require Import Prelude Chain Ipc Shm ShmInv ShmHeap.

(** ** Changes of one segment *)

Section change.
Context (s : state) (hs : Z → list Z) (Hinv : inv s hs).

Lemma seg_range i g : rd (shmsegs s) i = Ok g → 0 <= i < shmmni (info s).
Proof. intros H%rd_range. pose proof (iv_len _ _ Hinv). lia. Qed.

Lemma seg_exists i : 0 <= i < shmmni (info s) → ∃ g, rd (shmsegs s) i = Ok g.
Proof. intros H. apply rd_in_range. pose proof (iv_len _ _ Hinv). lia. Qed.

(** A segment that an entry names is in use. *)
Lemma seg_used i g : rd (shmsegs s) i = Ok g → allocated g = true → 0 <= _seq (shm_perm g) < 2 ^ 15 ∧ used_ok (handles s) (hs i) (total i (vm_shm s)) g.
Proof.
  intros Hg Ha. destruct (iv_seg _ _ Hinv i g Hg) as [Hs [Hf|Hu]]; [| done]. unfold allocated in Ha. by rewrite (fr_mode _ _ _ Hf) in Ha.
Qed.

Lemma last_not_used i g : rd (shmsegs s) i = Ok g → allocated g = true → shm_last_free s ≠ i.
Proof.
  intros Hg Ha E. pose proof (rd_range _ _ _ Hg). destruct (iv_last _ _ Hinv) as [?|(g' & Hg' & Hm)]; [lia |]. rewrite E, Hg in Hg'. injection Hg' as <-. unfold allocated in Ha. by rewrite Hm in Ha.
Qed.

Lemma inv_change s' hs' i g g' : rd (shmsegs s) i = Ok g → info s' = info s → shm_inited s' = true → shmsegs s' = <[Z.to_nat i := g']> (shmsegs s) →
  heap_ok (handles s') (objects s') (fresh s') hs' → (∀ j, j ≠ i → hs' j = hs j) → (∀ j a, j ≠ i → a ∈ hs j → handles s' !! a = handles s !! a) →
  seg_ok (handles s') (hs' i) (total i (vm_shm s')) g' → (∀ j, j ≠ i → total j (vm_shm s') = total j (vm_shm s)) →
  (∀ p t, vm_shm s' !! p = Some t → table_ok (shmsegs s') t) →
  shm_nused s' = shm_nused s - Z.b2z (allocated g) + Z.b2z (allocated g') →
  shm_last_free s' = -1 ∨ shm_last_free s' = i ∧ mode (shm_perm g') = SHMSEG_FREE ∨ shm_last_free s' = shm_last_free s ∧ shm_last_free s ≠ i → inv s' hs'.
Proof.
  intros Hg Hi Hin Hs Hok Hhs Hh Hseg Htot Htab Hnu Hlast. pose proof (rd_range _ _ _ Hg) as Hr. split.
  - done.
  - rewrite Hi. apply Hinv.
  - rewrite Hs, Hi, length_insert. apply Hinv.
  - done.
  - intros j x. rewrite Hs. destruct (decide (j = i)) as [->|Hne].
    + rewrite (rd_insert_eq _ _ _ _ Hg). by intros [= <-].
    + rewrite rd_insert_ne by (done || lia). intros Hx. rewrite Hhs, Htot by done. eapply seg_ok_ext; [by eapply iv_seg |]. intros a Ha. by eapply Hh.
  - rewrite Hi. intros j Hj. rewrite Hhs; [by apply (iv_out _ _ Hinv) |]. intros ->. by apply seg_range in Hg.
  - done.
  - rewrite Hnu, (iv_nused _ _ Hinv), Hs. apply rd_lookup in Hg as [_ Hg]. by rewrite (cnt_insert _ _ _ g).
  - rewrite Hs. destruct Hlast as [?|[[-> Hm]|[-> Hne]]]; [by left | right; exists g'; split; [by eapply rd_insert_eq | done] |].
    destruct (iv_last _ _ Hinv) as [?|(x & Hx & Hm)]; [by left | right; exists x]. split; [| done]. rewrite rd_insert_ne by (done || lia). done.
Qed.

(** The structure of a segment that stays in use. *)
Lemma inv_put i g g' : rd (shmsegs s) i = Ok g → allocated g = true → used_ok (handles s) (hs i) (total i (vm_shm s)) g' →
  _seq (shm_perm g') = _seq (shm_perm g) → inv (with_segs (<[Z.to_nat i := g']> (shmsegs s)) s) hs.
Proof.
  intros Hg Ha Hu Hs. pose proof (us_alloc _ _ _ _ Hu) as Ha'. apply (inv_change _ hs i g g'); try done.
  - apply Hinv.
  - apply Hinv.
  - split; [rewrite Hs; by apply (seg_used i g) | by right].
  - intros p t Ht. eapply table_ok_update; [done | by eapply iv_tables |]. intros e _ _. split; [by rewrite Ha, Ha' | done].
  - cbn. rewrite Ha, Ha'. lia.
  - right. right. split; [done | by eapply last_not_used].
Qed.

(** Tables that count the same. *)
Lemma inv_with_tables m : (∀ i, total i m = total i (vm_shm s)) → (∀ p t, m !! p = Some t → table_ok (shmsegs s) t) → inv (with_vm_shm m s) hs.
Proof. intros Ht Hm. split; try done; try apply Hinv. cbn. intros i g Hg. rewrite Ht. by apply (iv_seg _ _ Hinv). Qed.

Lemma inv_with_vm c : inv (with_vm c s) hs.
Proof. destruct Hinv. by split. Qed.

Lemma inv_with_heap h : inv (with_heap h s) hs.
Proof. destruct Hinv. by split. Qed.

End change.

(** ** Freeing a segment *)

Definition freed_seg (g : shmid_ds) : shmid_ds := set_mode (λ _, SHMSEG_FREE) (set_internal 0 g).

Lemma deallocate_spec pgmask i g l s hs : rd (shmsegs s) i = Ok g → heap_ok (handles s) (objects s) (fresh s) hs → l = hs i → path (hnext (handles s)) (shm_internal g) l 0 →
  wp (shm_deallocate_segment pgmask i) (λ _ s', ∃ H O c, s' = with_segs (<[Z.to_nat i := freed_seg g]> (shmsegs s)) (with_usage (shm_nused s - 1) c (with_handles H O (fresh s) s)) ∧
    heap_ok H O (fresh s) (<[i := []]> hs) ∧ (∀ a, a ∉ hs i → H !! a = handles s !! a)) s.
Proof.
  intros Hg Hok -> Hp. unfold shm_deallocate_segment. apply wp_bind, wp_get, wp_bind, (wp_get_seg _ g); [done |]. apply wp_bind.
  eapply wp_mono; [apply (free_handles_spec _ _ (hs i)); [done | apply Hok | by eapply owned_fuel | intros b; by apply (owned_handle _ _ _ _ Hok)] |].
  intros _ s1 (H & O & -> & HH & HO). apply wp_bind, wp_modify_shm, (wp_put_seg _ g); [done |]. exists H, O. eexists. split; [done |]. split; [by apply (heap_freed _ _ _ _ Hok) |].
  intros a Ha. rewrite HH. by rewrite decide_False.
Qed.

(** ** Tables *)

Lemma table_entry segs t k e : table_ok segs t → rd t k = Ok e → SHMID_IS_VALID (shmid e) = true →
  ∃ g, rd segs (IPCID_TO_IX (shmid e)) = Ok g ∧ allocated g = true ∧ _seq (shm_perm g) = IPCID_TO_SEQ (shmid e).
Proof.
  intros (l & x & -> & Hx & Hl & _) [_ Hk]%rd_lookup Hv. unfold SHMID_IS_VALID in Hv. apply list_elem_of_lookup_2, elem_of_app in Hk as [Hk|Hk%list_elem_of_singleton].
  - rewrite Forall_forall in Hl. destruct (Hl e Hk) as [E|(_ & H)]; [rewrite E in Hv; done | done].
  - rewrite Hk, Hx in Hv. done.
Qed.

(** Another entry in the place of one that is not the sentinel. *)
Lemma table_put segs t k e e' : table_ok segs t → rd t k = Ok e → shmid e ≠ SHMID_SENTINEL → entry_ok segs e' → table_ok segs (<[Z.to_nat k := e']> t).
Proof.
  intros (l & x & -> & Hx & Hl & Hn) [_ Hk]%rd_lookup Hs He. apply lookup_app_Some in Hk as [Hk|[_ Hk]].
  - exists (<[Z.to_nat k := e']> l), x. split; [apply insert_app_l; by eapply lookup_lt_Some |]. split; [done |]. split; [by apply Forall_insert | by rewrite length_insert].
  - apply list_lookup_singleton_Some in Hk as [_ <-]. done.
Qed.

Lemma total_put i m p t k e e' : m !! p = Some t → rd t k = Ok e → total i (<[p := <[Z.to_nat k := e']> t]> m) = total i m - Z.b2z (at_seg i e) + Z.b2z (at_seg i e').
Proof. intros Hp [_ Hk]%rd_lookup. rewrite (total_update i m p t) by done. rewrite (cnt_insert _ _ _ e) by done. lia. Qed.

Lemma wp_get_table p t (Q : list shmmap_state → state → Prop) s : vm_shm s !! p = Some t → Q t s → wp (get_table p) Q s.
Proof. intros H HQ. unfold get_table. apply wp_bind, wp_get. by rewrite H. Qed.

Lemma wp_put_entry p t k e e' (Q : () → state → Prop) s : vm_shm s !! p = Some t → rd t k = Ok e →
  Q () (with_vm_shm (<[p := <[Z.to_nat k := e']> t]> (vm_shm s)) s) → wp (put_entry p k e') Q s.
Proof.
  intros Ht He HQ. unfold put_entry. apply wp_bind, wp_get, wp_bind, (wp_get_table _ t); [done |]. apply wp_bind. eapply wp_lift_shm; [by eapply wr_rd |]. done.
Qed.

(** ** Detaching *)

Definition gone (e : shmmap_state) : shmmap_state := ShmmapState (va e) SHMID_UNALLOCATED.

Lemma gone_seg i e : at_seg i (gone e) = false.
Proof. done. Qed.

(** The segment [g] when one entry less is there for it. *)
Definition less (now : Z) (g : shmid_ds) : shmid_ds := set_nattch (swrap 16 (shm_nattch g - 1)) (set_dtime now g).

(** It was removed, and the entry was the last one. *)
Definition last_one (g : shmid_ds) : bool := removed g && (shm_nattch g =? 1).

Definition detached (now : Z) (p : nat) (t : list shmmap_state) (k : Z) (e : shmmap_state) (g : shmid_ds) (s : state) (hs : Z → list Z) (s' : state) (hs' : Z → list Z) : Prop :=
  let i := IPCID_TO_IX (shmid e) in
  inv s' hs' ∧ info s' = info s ∧ vm_shm s' = <[p := <[Z.to_nat k := gone e]> t]> (vm_shm s) ∧
  shmsegs s' = <[Z.to_nat i := if last_one g then freed_seg (less now g) else less now g]> (shmsegs s) ∧
  hs' = if last_one g then <[i := []]> hs else hs.

Section detach.
Context (s : state) (hs : Z → list Z) (Hinv : inv s hs) (p : nat) (t : list shmmap_state) (k : Z) (e : shmmap_state) (g : shmid_ds) (now : Z).
Let i := IPCID_TO_IX (shmid e).
Hypotheses (Ht : vm_shm s !! p = Some t) (Hk : rd t k = Ok e) (Hv : SHMID_IS_VALID (shmid e) = true) (Hg : rd (shmsegs s) i = Ok g) (Ha : allocated g = true).

Let m := <[p := <[Z.to_nat k := gone e]> t]> (vm_shm s).

Lemma detach_at j : at_seg j e = bool_decide (j = i).
Proof. unfold at_seg. rewrite Hv. cbn. case_bool_decide as E; [rewrite E; apply Z.eqb_refl | apply Z.eqb_neq; unfold i in E; lia]. Qed.

Lemma detach_total j : total j m = total j (vm_shm s) - Z.b2z (bool_decide (j = i)).
Proof. unfold m. rewrite (total_put _ _ _ _ _ e) by done. rewrite gone_seg, detach_at. cbn. lia. Qed.

Lemma detach_count : shm_nattch g = total i (vm_shm s) ∧ 0 < shm_nattch g < 2 ^ 15 ∧ swrap 16 (shm_nattch g - 1) = shm_nattch g - 1.
Proof.
  destruct (seg_used _ _ Hinv i g Hg Ha) as [_ Hu]. pose proof (us_nattch _ _ _ _ Hu) as Hn. pose proof (us_bound _ _ _ _ Hu). split; [done |].
  assert (0 < total i (vm_shm s)). { apply (total_entry i _ p t e); [done | apply rd_lookup in Hk as [_ Hk']; by eapply list_elem_of_lookup_2 | rewrite detach_at; by case_bool_decide]. }
  split; [lia |]. rewrite swrap_small; [done | lia |]. change (2 ^ (16 - 1)) with (2 ^ 15). lia.
Qed.

Lemma detach_tables segs' g' : segs' = <[Z.to_nat i := g']> (shmsegs s) → (0 < total i m → same_id g g') → ∀ q t', m !! q = Some t' → table_ok segs' t'.
Proof.
  intros -> Hs q t' Hq. eapply table_ok_update; [done | | intros x Hx Hax; apply Hs; by eapply total_entry].
  destruct (decide (q = p)) as [->|Hne].
  - unfold m in Hq. rewrite lookup_insert_eq in Hq. injection Hq as <-. eapply table_put; [by eapply iv_tables | done | intros E; by rewrite E in Hv | by left].
  - unfold m in Hq. rewrite lookup_insert_ne in Hq by done. by eapply iv_tables.
Qed.

Lemma less_used : last_one g = false → used_ok (handles s) (hs i) (total i m) (less now g).
Proof.
  intros Hl. destruct (seg_used _ _ Hinv i g Hg Ha) as [_ []]. destruct detach_count as (Hn & Hb & Hw). rewrite detach_total, bool_decide_true, <- Hn by done.
  unfold last_one in Hl. split; cbn; try done; try lia. change (removed (less now g)) with (removed g). intros Hr. rewrite Hr in Hl. cbn in Hl. split; [lia |]. by apply us_removed.
Qed.

Lemma detach_keeps s' : last_one g = false → s' = with_segs (<[Z.to_nat i := less now g]> (shmsegs s)) (with_vm_shm m (with_vm (vm s') s)) → detached now p t k e g s hs s' hs.
Proof.
  intros Hl E. unfold detached. fold i. rewrite Hl. assert (Hm : vm_shm s' = m) by (by rewrite E). assert (Hs : shmsegs s' = <[Z.to_nat i := less now g]> (shmsegs s)) by (by rewrite E).
  assert (Hr : same_id g (less now g)) by done. split; [| by rewrite E]. eapply (inv_change s hs Hinv _ _ i g (less now g)); rewrite ?Hm, ?Hs; try done.
  - by rewrite E.
  - rewrite E. apply Hinv.
  - rewrite E. apply Hinv.
  - by rewrite E.
  - rewrite E. cbn [handles with_segs with_vm_shm with_vm]. split; [apply (seg_used _ _ Hinv i g Hg Ha) | right; by apply less_used].
  - intros j Hj. rewrite detach_total, bool_decide_false by done. cbn. lia.
  - by apply (detach_tables _ (less now g)).
  - rewrite E. cbn. change (allocated (less now g)) with (allocated g). lia.
  - right. right. rewrite E. split; [done | by eapply last_not_used].
Qed.

Lemma detach_frees s' H O c : last_one g = true →
  s' = with_last_free i (with_segs (<[Z.to_nat i := freed_seg (less now g)]> (shmsegs s)) (with_usage (shm_nused s - 1) c (with_handles H O (fresh s) (with_vm_shm m (with_vm (vm s') s))))) →
  heap_ok H O (fresh s) (<[i := []]> hs) → (∀ a, a ∉ hs i → H !! a = handles s !! a) → detached now p t k e g s hs s' (<[i := []]> hs).
Proof.
  intros Hl E Hok Hh. unfold detached. fold i. rewrite Hl. assert (Hm : vm_shm s' = m) by (by rewrite E).
  assert (Hs : shmsegs s' = <[Z.to_nat i := freed_seg (less now g)]> (shmsegs s)) by (by rewrite E). destruct detach_count as (Hn & Hb & _).
  assert (Hz : total i m = 0) by (rewrite detach_total, bool_decide_true by done; unfold last_one in Hl; cbn; lia).
  split; [| by rewrite E]. eapply (inv_change s hs Hinv _ _ i g (freed_seg (less now g))); rewrite ?Hm, ?Hs; try done.
  - by rewrite E.
  - rewrite E. apply Hinv.
  - by rewrite E.
  - intros j Hj. by rewrite fn_lookup_insert_ne.
  - intros j a Hj Hj'. rewrite E. cbn. apply Hh. intros Hi. by destruct (Hj (hp_disj _ _ _ _ (iv_heap _ _ Hinv) _ _ _ Hj' Hi)).
  - split; [cbn; apply (seg_used _ _ Hinv i g Hg Ha) | left]. rewrite fn_lookup_insert. by split.
  - intros j Hj. rewrite detach_total, bool_decide_false by done. cbn. lia.
  - apply (detach_tables _ (freed_seg (less now g))); [done |]. intros Hp. lia.
  - rewrite E, Ha. change (allocated (freed_seg (less now g))) with false. cbn. lia.
  - right. left. by rewrite E.
Qed.

Lemma delete_mapping_spec pgmask deallocate rv :
  wp (shm_delete_mapping pgmask now p k deallocate rv) (λ r s', r = EINVAL ∧ deallocate = true ∧ rv ≠ KERN_SUCCESS ∧ s' = with_vm (vm s') s ∨
    r = 0 ∧ ∃ hs', detached now p t k e g s hs s' hs') s.
Proof.
  unfold shm_delete_mapping. apply wp_bind, (wp_get_table _ t); [done |]. apply wp_bind, (wp_lift_shm _ e); [done |]. apply wp_bind, (wp_get_seg _ g); [done |]. fold i.
  set (sz := vm_map_round_page (shm_segsz g) pgmask). apply wp_bind. set (s0 := if deallocate then with_vm (vm s ++ [Deallocate p (va e) sz]) s else s).
  assert (Hs0 : s0 = with_vm (vm s0) s) by (unfold s0; destruct deallocate; [done | by destruct s]). apply (wp_mono _ (λ _ s', s' = s0)); [by destruct deallocate |].
  intros _ s' ->. destruct (deallocate && negb (rv =? KERN_SUCCESS)) eqn:Ed.
  { apply andb_true_iff in Ed as [Ed Hr]. apply wp_ret. left. split; [done |]. split; [done |]. split; [lia | done]. }
  assert (Hv0 : vm_shm s0 = vm_shm s) by (by rewrite Hs0). assert (Hseg0 : shmsegs s0 = shmsegs s) by (by rewrite Hs0).
  apply wp_bind, (wp_put_entry _ t _ e); [by rewrite Hv0 | done |]. rewrite Hv0. fold (gone e). fold m. apply wp_bind, (wp_put_seg _ g); [cbn; by rewrite Hseg0 |]. cbn [shmsegs with_vm_shm]. rewrite Hseg0.
  fold (less now g). destruct detach_count as (Hn & Hb & Hw). rewrite Hw. fold (removed g).
  assert ((shm_nattch g - 1 <=? 0) && removed g = last_one g) as -> by (unfold last_one; rewrite andb_comm; f_equal; lia).
  set (s1 := with_segs _ (with_vm_shm m s0)). destruct (last_one g) eqn:El; cbn [negb].
  - destruct (seg_used _ _ Hinv i g Hg Ha) as [_ Hu]. apply wp_bind. eapply wp_mono.
    + apply (deallocate_spec pgmask i (less now g) (hs i) s1 hs); [cbn; by eapply rd_insert_eq | cbn; rewrite Hs0; apply Hinv | done | cbn; rewrite Hs0; apply Hu].
    + intros _ s2 (H & O & c & -> & Hok & Hh). apply wp_bind, wp_modify_shm, wp_ret. right. split; [done |]. exists (<[i := []]> hs). apply (detach_frees _ H O c); [done | | |].
      * unfold s1. cbn. rewrite list_insert_insert_eq, Hs0. done.
      * revert Hok. unfold s1. cbn. by rewrite Hs0.
      * intros a Ha'. rewrite Hh by done. unfold s1. cbn. by rewrite Hs0.
  - apply wp_ret. right. split; [done |]. exists hs. apply detach_keeps; [done |]. unfold s1. by rewrite Hs0.
Qed.

End detach.
