(* ===== verification/ShmCalls.v ===== *)
(** * System V shared memory: calls that detach and control, and processes

    The calls keep the invariant, as do fork, exec and exit. *)

From stdpp Require Import functions.
From S2P Require Import Prelude Chain Ipc Shm ShmInv ShmHeap ShmOps.

(** ** The first call *)

(** Nothing has been set up yet. *)
Record down (s : state) : Prop := {
  dn_init : shm_inited s = false;
  dn_mni : 0 < shmmni (info s) <= 2 ^ 16;
  dn_handles : handles s = ∅;
  dn_objects : objects s = ∅;
  dn_fresh : 0 < fresh s;
  dn_tables : vm_shm s = ∅
}.

Definition ok (s : state) : Prop := (∃ hs, inv s hs) ∨ down s.

(** The call has returned. *)
Definition awake (r : out) : Prop := match r with AsleepLocked _ _ _ => False | _ => True end.
Definition fine (r : out) (s : state) : Prop := ok s ∧ awake r.

Lemma fine_inv s hs e v : inv s hs → fine (Return e v) s.
Proof. intros H. split; [left; by exists hs | done]. Qed.

Lemma rd_replicate {A} n (x y : A) i : rd (replicate n x) i = Ok y → y = x.
Proof. intros [_ H]%rd_lookup. by apply lookup_replicate in H as [-> _]. Qed.

Lemma start_inv s s1 : down s → s1 = with_heap (heap s1) s →
  inv (State (info s) true 0 0 0 (replicate (Z.to_nat (shmmni (info s))) free_seg) (handles s) (objects s) (fresh s) (vm_shm s) (heap s1) (vm s) (woken s)) (λ _, []).
Proof.
  intros [Hi Hm Hh Ho Hf Ht] _. split; cbn; try done.
  - rewrite length_replicate. lia.
  - rewrite Hh, Ho. split; try done.
    + intros a. rewrite lookup_empty. split; [by intros [] | by intros [? ?%elem_of_nil]].
    + by intros ? ? ?%elem_of_nil.
    + intros. constructor.
    + by intros ? ? ? ?%elem_of_nil.
    + intros o. rewrite lookup_empty, elem_of_empty. split; [done | by intros []].
  - intros i g ->%rd_replicate. split; [done | left]. rewrite Ht. by split.
  - intros p t. by rewrite Ht, lookup_empty.
  - induction (Z.to_nat (shmmni (info s))) as [|n IH]; [done |]. cbn. by rewrite <- IH.
  - right. destruct (rd_in_range (replicate (Z.to_nat (shmmni (info s))) free_seg) 0) as [g Hg]; [rewrite length_replicate; lia |]. exists g. split; [done |].
    by rewrite (rd_replicate _ _ _ _ Hg).
Qed.

(** What setting up leaves as it was. *)
Definition begun (s s' : state) : Prop := (shm_inited s = true → s' = s) ∧ vm_shm s' = vm_shm s ∧ vm s' = vm s.

Lemma shminit_spec s : ok s → wp shminit (λ e s', e = 0 ∧ (∃ hs, inv s' hs) ∧ begun s s' ∨ e ≠ 0 ∧ down s') s.
Proof.
  intros [[hs Hi]|Hd]; unfold shminit; apply wp_bind, wp_get; [rewrite (iv_init _ _ Hi); apply wp_ret; left; split; [done |]; split; [by exists hs | done] |].
  unfold begun. rewrite (dn_init _ Hd). pose proof (dn_mni _ Hd). destruct (_ || _) eqn:E; [apply wp_ret; by right |]. apply wp_bind. unfold kheap_alloc. unfold wp at 1.
  destruct (heap s) as [|[] h]; cbn [negb].
  - apply wp_ret. by right.
  - apply wp_bind, wp_modify_shm, wp_ret. left. split; [done |]. split; [| done]. exists (λ _, []). cbn. by apply (start_inv s (with_heap h s)).
  - apply wp_ret. right. split; [done |]. by destruct Hd.
Qed.

(** A call after the set up. *)
Lemma wp_start {A} (r : Z → A) (m : M A) (Q : A → state → Prop) s : ok s → (∀ hs s', inv s' hs → begun s s' → wp m Q s') →
  (∀ e s', e ≠ 0 → down s' → Q (r e) s') → wp (e ← shminit; if negb (e =? 0) then mret (r e) else m) Q s.
Proof.
  intros Hs Hm Hr. apply wp_bind. eapply wp_mono; [by apply shminit_spec |]. intros e s' [(-> & [hs Hi] & Hsame)|[He Hd]]; [by apply (Hm hs) |].
  rewrite (proj2 (Z.eqb_neq e 0) He). apply wp_ret. by apply Hr.
Qed.

(** ** Detaching *)

Lemma find_va_spec addr e0 : shmid e0 = SHMID_SENTINEL → ∀ l k, ∃ j e, find_va addr (l ++ [e0]) k = Ok (k + j, e) ∧ rd (l ++ [e0]) j = Ok e ∧
  (SHMID_IS_VALID (shmid e) = true → va e = addr).
Proof.
  intros He. induction l as [|x l IH]; intros k; cbn [app find_va].
  - rewrite He. exists 0, e0. rewrite Z.add_0_r. split; [done |]. split; [done |]. by rewrite He.
  - destruct (Z.eqb_spec (shmid x) SHMID_SENTINEL) as [Ex|].
    { exists 0, x. rewrite Z.add_0_r. split; [done |]. split; [done |]. by rewrite Ex. }
    destruct (SHMID_IS_VALID (shmid x) && (va x =? addr)) eqn:E; [exists 0, x; rewrite Z.add_0_r; split; [done |]; split; [done |]; intros _; lia |].
    destruct (IH (k + 1)) as (j & e & -> & Hj & Hv). exists (j + 1), e. split; [f_equal; f_equal; lia |]. split; [| done].
    apply rd_lookup in Hj as [? Hj]. apply rd_lookup. split; [lia |]. replace (Z.to_nat (j + 1)) with (S (Z.to_nat j)) by lia. done.
Qed.

Lemma shmdt_spec pgmask now p mac rv addr s : ok s → wp (shmdt pgmask now p mac rv addr) fine s.
Proof.
  intros Hs. apply (wp_start (λ e, Return e 0)); [done | | intros; split; [by right | done]]. intros hs s1 Hi _. clear s Hs. rename s1 into s. apply wp_bind, wp_get.
  destruct (vm_shm s !! p) as [t|] eqn:Ht; [| apply wp_ret; by eapply fine_inv].
  destruct (iv_tables _ _ Hi p t Ht) as (l & e0 & Et & He0 & Hl & Hn). destruct (find_va_spec addr e0 He0 l 0) as (k & e & Hf & Hk & _). rewrite <- Et in Hf, Hk.
  apply wp_bind, (wp_lift_shm _ (k, e)); [done |]. destruct (SHMID_IS_VALID (shmid e)) eqn:Hv; [| apply wp_ret; by eapply fine_inv]. cbn [negb].
  destruct (table_entry _ _ _ _ (iv_tables _ _ Hi p t Ht) Hk Hv) as (g & Hg & Ha & _). apply wp_bind, (wp_get_seg _ g); [done |].
  destruct (negb (mac =? 0)); [apply wp_ret; by eapply fine_inv |]. apply wp_bind.
  eapply wp_mono; [by apply (delete_mapping_spec s hs Hi p t k e g now) |]. intros r s' [(_ & _ & _ & ->)|(_ & hs' & Hd)]; apply wp_ret; eapply fine_inv; [by apply inv_with_vm | by destruct Hd].
Qed.

(** ** Control *)

Lemma find_shmid_spec id s hs : inv s hs → wp (shm_find_segment_by_shmid id) (λ r s', s' = s ∧ match r with
  | Some (i, g) => i = IPCID_TO_IX id ∧ rd (shmsegs s) i = Ok g ∧ allocated g = true ∧ removed g = false ∧ _seq (shm_perm g) = IPCID_TO_SEQ id
  | None => True end) s.
Proof.
  intros Hi. unfold shm_find_segment_by_shmid. apply wp_bind, wp_get. destruct (_ || _) eqn:E; [by apply wp_ret |].
  destruct (seg_exists _ _ Hi (IPCID_TO_IX id)) as [g Hg]; [lia |]. apply wp_bind, (wp_get_seg _ g); [done |]. rewrite mode_live. fold (allocated g). fold (removed g).
  destruct (allocated g) eqn:Ea; [| by apply wp_ret]. destruct (removed g) eqn:Er; [by apply wp_ret |]. cbn. destruct (Z.eqb_spec (_seq (shm_perm g)) (IPCID_TO_SEQ id)); by apply wp_ret.
Qed.

Definition set_of (now : Z) (b g : shmid_ds) : shmid_ds :=
  set_ctime now (set_perm (λ p, IpcPerm (uid (shm_perm b)) (gid (shm_perm b)) (cuid p) (cgid p)
    (Z.lor (Z.land (mode p) (Z.lnot ACCESSPERMS)) (Z.land (mode (shm_perm b)) ACCESSPERMS)) (_seq p) (_key p)) g).

Lemma set_of_flag now b g f : Z.land f ACCESSPERMS = 0 → tst (mode (shm_perm (set_of now b g))) f = tst (mode (shm_perm g)) f.
Proof. intros Hf. cbn. rewrite tst_lor, tst_clear_other, tst_perms by (done || by rewrite Z.land_comm). by rewrite orb_false_r. Qed.

Lemma set_of_used H l n now b g : used_ok H l n g → used_ok H l n (set_of now b g).
Proof.
  intros []. split; try done.
  - unfold allocated. by rewrite set_of_flag.
  - by rewrite set_of_flag.
  - by rewrite set_of_flag.
  - unfold removed. rewrite set_of_flag by done. done.
Qed.

Definition removed_of (g : shmid_ds) : shmid_ds :=
  set_perm (λ p, IpcPerm (uid p) (gid p) (cuid p) (cgid p) (Z.lor (mode p) SHMSEG_REMOVED) (_seq p) IPC_PRIVATE) g.

Lemma removed_of_flag g f : tst (mode (shm_perm (removed_of g))) f = tst (mode (shm_perm g)) f || tst SHMSEG_REMOVED f.
Proof. apply tst_lor. Qed.

Lemma removed_of_used H l n g : used_ok H l n g → 0 < n → used_ok H l n (removed_of g).
Proof.
  intros [] Hn. split; try done.
  - unfold allocated in *. by rewrite removed_of_flag, us_alloc.
  - by rewrite removed_of_flag, us_free.
  - by rewrite removed_of_flag, us_wanted.
Qed.

(** The segment goes at once when it has no entries. *)
Lemma remove_frees s hs i g pgmask : inv s hs → rd (shmsegs s) i = Ok g → allocated g = true → shm_nattch g <= 0 →
  wp (shm_deallocate_segment pgmask i ;; modify (with_last_free i)) (λ _ s', inv s' (<[i := []]> hs)) (with_segs (<[Z.to_nat i := removed_of g]> (shmsegs s)) s).
Proof.
  intros Hi Hg Ha Hn. destruct (seg_used _ _ Hi i g Hg Ha) as [Hq Hu]. pose proof (us_nattch _ _ _ _ Hu) as Hna. pose proof (us_bound _ _ _ _ Hu).
  apply wp_bind. eapply wp_mono; [apply (deallocate_spec pgmask i (removed_of g) (hs i) _ hs) |].
  - cbn. by eapply rd_insert_eq.
  - apply Hi.
  - done.
  - apply Hu.
  - intros _ s2 (HH & OO & c & -> & Hok & Hh). apply wp_modify_shm. eapply (inv_change s hs Hi _ _ i g (freed_seg (removed_of g))); try done.
    + apply Hi.
    + cbn. by rewrite list_insert_insert_eq.
    + intros j Hj. by rewrite fn_lookup_insert_ne.
    + intros j a Hj Hj'. cbn. apply Hh. intros Hii. by destruct (Hj (hp_disj _ _ _ _ (iv_heap _ _ Hi) _ _ _ Hj' Hii)).
    + split; [done | left]. rewrite fn_lookup_insert. cbn [vm_shm with_last_free with_segs with_usage with_handles]. split; try done. lia.
    + intros p t Hp. cbn [shmsegs with_last_free with_segs with_usage with_handles]. rewrite list_insert_insert_eq. eapply table_ok_update; [done | by eapply iv_tables |].
      intros x Hx Hax. pose proof (total_entry _ _ _ _ _ Hp Hx Hax). cbn in *. lia.
    + rewrite Ha. change (allocated (freed_seg (removed_of g))) with false. cbn. lia.
    + right. by left.
Qed.

Lemma shmctl_spec pgmask now is64 c mac eval b id cmd s : ok s → wp (shmctl pgmask now is64 c mac eval b id cmd) fine s.
Proof.
  intros Hs. apply (wp_start (λ e, Return e 0)); [done | | intros; split; [by right | done]]. intros hs s1 Hi _. clear s Hs. rename s1 into s. assert (Hok : ok s) by (left; by exists hs).
  apply wp_bind. eapply wp_mono; [by apply (find_shmid_spec id s hs) |]. intros [[i g]|] s' [-> H]; [| by apply wp_ret]. destruct H as (-> & Hg & Ha & Hr & Hseq).
  destruct (negb (mac =? 0)); [by apply wp_ret |]. destruct (seg_used _ _ Hi _ g Hg Ha) as [Hq Hu]. destruct cmd; try by apply wp_ret.
  - cbn zeta. destruct (negb _); [by apply wp_ret |]. fold (removed_of g). apply wp_bind, (wp_put_seg _ g); [done |]. apply wp_bind. destruct (Z.leb_spec (shm_nattch g) 0) as [Hn|Hn].
    + eapply wp_mono; [by apply (remove_frees s hs _ g) |]. intros [] s' Hi'. apply wp_ret. by eapply fine_inv.
    + apply wp_ret, wp_ret, (fine_inv _ hs), (inv_put s hs Hi _ g); [done | done | apply removed_of_used; [done |] | done]. rewrite <- (us_nattch _ _ _ _ Hu). done.
  - cbn zeta. destruct (negb _); [by apply wp_ret |]. destruct (negb _); [by apply wp_ret |]. fold (set_of now b g). apply wp_bind, (wp_put_seg _ g); [done |]. apply wp_ret, (fine_inv _ hs), (inv_put s hs Hi _ g); [done | done | by apply set_of_used | done].
  - cbn zeta. destruct (negb _); [by apply wp_ret |]. destruct (negb _); by apply wp_ret.
Qed.

(** ** The end of a process *)

(** The entries in front of the place [k] have been detached. *)
Definition cleaned (k : Z) (t : list shmmap_state) : Prop := ∀ j e, j < k → rd t j = Ok e → SHMID_IS_VALID (shmid e) = false.

Lemma cleaned_next k t e : rd t k = Ok e → SHMID_IS_VALID (shmid e) = false → cleaned k t → cleaned (k + 1) t.
Proof. intros Hk Hv Hc j x Hj Hx. destruct (decide (j = k)) as [->|]; [rewrite Hk in Hx; by injection Hx as <- | apply (Hc j); [lia | done]]. Qed.

Lemma rd_drop {A} (t : list A) k e l : 0 <= k → drop (Z.to_nat k) t = e :: l → rd t k = Ok e ∧ drop (Z.to_nat (k + 1)) t = l.
Proof.
  intros Hk Hd. split.
  - apply rd_lookup. split; [done |]. replace (Z.to_nat k) with (Z.to_nat k + 0)%nat by lia. by rewrite <- lookup_drop, Hd.
  - replace (Z.to_nat (k + 1)) with (Z.to_nat k + 1)%nat by lia. by rewrite <- drop_drop, Hd.
Qed.

Lemma cleanup_loop_spec pgmask now p deallocate rvs : (deallocate = true → ∀ j, rvs j = KERN_SUCCESS) → ∀ l k t s hs,
  inv s hs → vm_shm s !! p = Some t → 0 <= k → drop (Z.to_nat k) t = l → l ≠ [] → cleaned k t →
  wp (cleanup_loop pgmask now p deallocate rvs l k) (λ _ s', ∃ hs' t', inv s' hs' ∧ info s' = info s ∧ vm_shm s' = <[p := t']> (vm_shm s) ∧
    length t' = length t ∧ ∀ e, e ∈ t' → SHMID_IS_VALID (shmid e) = false) s.
Proof.
  intros Hrv. induction l as [|e l IH]; intros k t s hs Hi Ht Hk Hd Hne Hc; [done |]. destruct (rd_drop t k e l Hk Hd) as [Hke Hd']. cbn [cleanup_loop].
  destruct (iv_tables _ _ Hi p t Ht) as (l0 & e0 & Et & He0 & Hl0 & _).
  destruct (Z.eqb_spec (shmid e) SHMID_SENTINEL) as [Es|Hns].
  { apply wp_ret. exists hs, t. split; [done |]. split; [done |]. split; [by rewrite insert_id |]. split; [done |]. intros x Hx. apply list_elem_of_lookup_1 in Hx as [j Hj].
    assert (Hkl : Z.to_nat k = length l0).
    { apply rd_lookup in Hke as [_ Hke]. rewrite Et in Hke. apply lookup_app_Some in Hke as [Hke|[? Hke]]; [| apply list_lookup_singleton_Some in Hke as [? _]; lia].
      apply list_elem_of_lookup_2 in Hke. rewrite Forall_forall in Hl0. destruct (Hl0 e Hke) as [E|[E _]]; rewrite Es in E; [done | by vm_compute in E]. }
    destruct (decide (j < length l0)%nat) as [Hj'|Hj']; [apply (Hc (Z.of_nat j)); [lia | apply rd_lookup; split; [lia | by rewrite Nat2Z.id]] |].
    rewrite Et in Hj. rewrite lookup_app_r in Hj by lia. apply list_lookup_singleton_Some in Hj as [_ <-]. by rewrite He0. }
  assert (Hl : l ≠ []).
  { intros ->. rewrite Et in Hd'. assert (Hlen : length (drop (Z.to_nat (k + 1)) (l0 ++ [e0])) = O) by (by rewrite Hd'). rewrite length_drop, length_app in Hlen. cbn in Hlen.
    apply rd_lookup in Hke as [_ Hke]. rewrite Et in Hke. pose proof (lookup_lt_Some _ _ _ Hke) as Hlt. rewrite length_app in Hlt. cbn in Hlt.
    rewrite lookup_app_r in Hke by lia. apply list_lookup_singleton_Some in Hke as [_ <-]. done. }
  apply wp_bind. destruct (SHMID_IS_VALID (shmid e)) eqn:Hv.
  - destruct (table_entry _ _ _ _ (iv_tables _ _ Hi p t Ht) Hke Hv) as (g & Hg & Ha & _). apply wp_bind.
    eapply wp_mono; [by apply (delete_mapping_spec s hs Hi p t k e g now) |]. intros r s1 [(_ & E & Er & _)|(_ & hs1 & Hi1 & Hinf & Hm & _ & _)]; [by rewrite Hrv in Er |].
    apply wp_ret. set (t1 := <[Z.to_nat k := gone e]> t) in *. eapply wp_mono; [apply (IH (k + 1) t1 s1 hs1) |].
    + done.
    + by rewrite Hm, lookup_insert_eq.
    + lia.
    + unfold t1. by rewrite drop_insert_lt by lia.
    + done.
    + apply (cleaned_next k _ (gone e)); [by eapply rd_insert_eq | done |]. intros j x Hj Hx. unfold t1 in Hx. rewrite rd_insert_ne in Hx by lia. by apply (Hc j).
    + intros _ s' (hs' & t' & Hi' & Hinf' & Hm' & Hlen & Hall). exists hs', t'. split; [done |]. split; [by rewrite Hinf', Hinf |]. split; [by rewrite Hm', Hm, insert_insert_eq |].
      split; [rewrite Hlen; apply length_insert | done].
  - apply wp_ret. eapply wp_mono; [apply (IH (k + 1) t s hs); try done; [lia | by apply (cleaned_next k t e)] |]. done.
Qed.

Lemma entries_ok segs t : table_ok segs t → ∃ l, entries t = Ok l ∧ Z.of_nat (length l) < 2 ^ 31 ∧ length t = S (length l) ∧ take (length l + 1) t = t.
Proof.
  intros (l & e & -> & He & Hl & Hn). exists l. split; [| rewrite length_app, Nat.add_comm, take_ge by (rewrite length_app; cbn; lia); done].
  clear Hn. induction Hl as [|x l Hx Hl IH]; cbn [app entries]; [by rewrite He |]. destruct (Z.eqb_spec (shmid x) SHMID_SENTINEL) as [Ex|]; [| by rewrite IH].
  destruct Hx as [E|[E _]]; rewrite Ex in E; [done | by vm_compute in E].
Qed.

Lemma cnt_none {A} (f : A → bool) l : (∀ x, x ∈ l → f x = false) → cnt f l = 0.
Proof. induction l as [|x l IH]; intros H; [done |]. cbn. rewrite (H x), IH by (constructor || (intros y Hy; apply H; by constructor)). done. Qed.

Lemma shmcleanup_spec pgmask now p deallocate rvs t s hs : inv s hs → vm_shm s !! p = Some t → (deallocate = true → ∀ j, rvs j = KERN_SUCCESS) →
  wp (shmcleanup pgmask now p deallocate rvs) (λ _, ok) s.
Proof.
  intros Hi Ht Hrv. unfold shmcleanup. apply wp_bind, (wp_get_table _ t); [done |]. apply wp_bind. pose proof (iv_tables _ _ Hi p t Ht) as Htab.
  eapply wp_mono; [apply (cleanup_loop_spec pgmask now p deallocate rvs Hrv t 0 t s hs); try done |].
  - intros ->. destruct Htab as (l & e & E & _). by destruct l.
  - intros j e Hj He. apply rd_range in He. lia.
  - intros _ s' (hs' & t' & Hi' & _ & Hm & _ & Hall). destruct (entries_ok _ _ Htab) as (l & Hl & Hn & _). apply wp_bind, (wp_lift_shm _ l); [done |].
    destruct (Z.geb_spec ((Z.of_nat (length l) + 1) * 16) (2 ^ 64)); [lia |]. apply wp_modify_shm. left. exists hs'. apply inv_with_tables; [done | |].
    + intros i. rewrite (total_delete i (vm_shm s') p t') by (by rewrite Hm, lookup_insert_eq). rewrite cnt_none; [done |]. intros e He. unfold at_seg. by rewrite Hall.
    + intros q t1 Hq. apply lookup_delete_Some in Hq as [_ Hq]. by eapply (iv_tables _ _ Hi').
Qed.

(** ** New processes

    A child gets a copy of the table, and counts for each of its entries. *)

Definition more (n : Z) (g : shmid_ds) : shmid_ds := set_nattch (shm_nattch g + n) g.

Lemma more_0 g : more 0 g = g.
Proof. unfold more. rewrite Z.add_0_r. by destruct g. Qed.

(** [n] more entries, counted in 16 bits. *)
Definition counted (n : Z) (g : shmid_ds) : shmid_ds := if n =? 0 then g else set_nattch (swrap 16 (shm_nattch g + n)) g.

Lemma counted_add a b g : 0 <= a → 0 <= b → counted b (counted a g) = counted (a + b) g.
Proof.
  intros Ha Hb. unfold counted. destruct (Z.eqb_spec a 0) as [->|]; [done |]. destruct (Z.eqb_spec b 0) as [->|]; [rewrite Z.add_0_r; by destruct (Z.eqb_spec a 0) |].
  rewrite (proj2 (Z.eqb_neq (a + b) 0)) by lia. unfold set_nattch. cbn. f_equal. apply swrap_cong. rewrite Z.add_mod, swrap_mod, <- Z.add_mod by lia. f_equal. lia.
Qed.

Lemma counted_more n g : 0 <= shm_nattch g → 0 <= n → (0 < n → shm_nattch g + n < 2 ^ 15) → counted n g = more n g.
Proof.
  intros Hg Hn Hb. unfold counted. destruct (Z.eqb_spec n 0) as [->|]; [by rewrite more_0 |]. unfold more.
  rewrite swrap_small; [done | done |]. change (2 ^ (16 - 1)) with (2 ^ 15). lia.
Qed.

Lemma fork_counts_spec e0 : shmid e0 = SHMID_SENTINEL → ∀ l s,
  (∀ e, e ∈ l → shmid e ≠ SHMID_SENTINEL ∧ (SHMID_IS_VALID (shmid e) = true → ∃ g, rd (shmsegs s) (IPCID_TO_IX (shmid e)) = Ok g)) →
  wp (fork_counts (l ++ [e0])) (λ _ s', ∃ segs, s' = with_segs segs s ∧ length segs = length (shmsegs s) ∧
    ∀ i g, rd (shmsegs s) i = Ok g → rd segs i = Ok (counted (cnt (at_seg i) l) g)) s.
Proof.
  intros He0. induction l as [|e l IH]; intros s Hl; cbn [app fork_counts].
  { rewrite He0. apply wp_ret. exists (shmsegs s). split; [by destruct s |]. by split. }
  destruct (Hl e ltac:(constructor)) as [Hns Hv]. rewrite (proj2 (Z.eqb_neq _ _) Hns). apply wp_bind. destruct (SHMID_IS_VALID (shmid e)) eqn:Ev.
  - destruct (Hv eq_refl) as [g Hg]. set (i := IPCID_TO_IX (shmid e)) in *. assert (Hat : ∀ j, at_seg j e = (i =? j)) by (intros j; unfold at_seg; by rewrite Ev).
    apply wp_bind, (wp_get_seg _ g); [done |]. apply (wp_put_seg _ g); [done |]. change (set_nattch _ g) with (counted 1 g). set (s1 := with_segs _ s). pose proof (rd_range _ _ _ Hg) as Hr.
    assert (Hrd : ∀ j x, rd (shmsegs s) j = Ok x → rd (shmsegs s1) j = Ok (counted (Z.b2z (at_seg j e)) x)).
    { intros j x Hx. cbn. rewrite Hat. destruct (Z.eqb_spec i j) as [<-|Hne]; [rewrite Hg in Hx; injection Hx as <-; by eapply rd_insert_eq |]. by rewrite rd_insert_ne by (done || lia). }
    eapply wp_mono; [apply (IH s1) |].
    + intros x Hx. destruct (Hl x ltac:(by constructor)) as [Hns' Hv']. split; [done |]. intros Hvx. destruct (Hv' Hvx) as [y Hy]. eexists. by apply Hrd.
    + intros _ s' (segs & -> & Hlen & Hs). exists segs. split; [done |]. split; [by rewrite Hlen; cbn; rewrite length_insert |]. intros j x Hx. rewrite (Hs j _ (Hrd j x Hx)).
      rewrite counted_add; [done | destruct (at_seg j e); done | apply cnt_nonneg].
  - apply wp_ret. eapply wp_mono; [apply (IH s) |].
    + intros x Hx. apply Hl. by constructor.
    + intros _ s' (segs & -> & Hlen & Hs). exists segs. split; [done |]. split; [done |]. intros j x Hx. rewrite (Hs j x Hx). cbn [cnt]. unfold at_seg at 2. by rewrite Ev.
Qed.

Lemma cnt_same {A} (f : A → bool) l l' : length l' = length l → (∀ i x, rd l i = Ok x → ∃ y, rd l' i = Ok y ∧ f y = f x) → cnt f l' = cnt f l.
Proof.
  revert l'. induction l as [|x l IH]; intros [|y l'] Hlen H; try done. cbn [cnt]. destruct (H 0 x) as (y' & [= <-] & ->); [done |]. f_equal. apply IH; [by injection Hlen |].
  intros i z [Hi Hz]%rd_lookup. destruct (H (i + 1) z) as (z' & Hz' & Hf).
  - apply rd_lookup. split; [lia |]. by replace (Z.to_nat (i + 1)) with (S (Z.to_nat i)) by lia.
  - exists z'. split; [| done]. apply rd_lookup in Hz' as [_ Hz']. replace (Z.to_nat (i + 1)) with (S (Z.to_nat i)) in Hz' by lia. apply rd_lookup. done.
Qed.

Lemma more_used H l n c g : used_ok H l n g → 0 <= c → n + c < 2 ^ 15 → used_ok H l (n + c) (more c g).
Proof.
  intros [] Hc Hn. split; try done; cbn; try lia. change (removed (more c g)) with (removed g). intros Hr. destruct (us_removed Hr). split; [lia | done].
Qed.

(** Every segment counts the entries of one more table. *)
Lemma inv_more s hs p t segs : inv s hs → vm_shm s !! p = None → table_ok (shmsegs s) t → length segs = length (shmsegs s) →
  (∀ i g, rd (shmsegs s) i = Ok g → rd segs i = Ok (more (cnt (at_seg i) t) g)) → (∀ i, total i (vm_shm s) + cnt (at_seg i) t < 2 ^ 15) →
  inv (with_segs segs (with_vm_shm (<[p := t]> (vm_shm s)) s)) hs.
Proof.
  intros Hi Hp Ht Hlen Hs Hb.
  assert (Hinv : ∀ i x, rd segs i = Ok x → ∃ g, rd (shmsegs s) i = Ok g ∧ x = more (cnt (at_seg i) t) g).
  { intros i x Hx. destruct (rd_in_range (shmsegs s) i) as [g Hg]; [apply rd_range in Hx; lia |]. exists g. split; [done |]. rewrite (Hs i g Hg) in Hx. by injection Hx as <-. }
  assert (Htab : ∀ t', table_ok (shmsegs s) t' → table_ok segs t').
  { intros t' (l & e & Et & He & Hl & Hn). exists l, e. split; [done |]. split; [done |]. split; [| done]. eapply Forall_impl; [exact Hl |].
    intros x [?|(Hv & g & Hg & Ha & Hq)]; [by left | right]. split; [done |]. eexists. split; [by apply Hs |]. done. }
  split; cbn; try apply Hi.
  - rewrite Hlen. apply Hi.
  - intros i x Hx. destruct (Hinv i x Hx) as (g & Hg & ->). rewrite total_new by done. pose proof (cnt_nonneg (at_seg i) t) as Hc. destruct (iv_seg _ _ Hi i g Hg) as [Hq [Hf|Hu]].
    + assert (cnt (at_seg i) t = 0) as ->; [| rewrite more_0; split; [done | left; by destruct Hf]]. destruct Ht as (l & e & -> & He & Hl & _). apply cnt_none. intros x Hx'.
      destruct (at_seg i x) eqn:Ex; [| done]. unfold at_seg, SHMID_IS_VALID in Ex. apply elem_of_app in Hx' as [Hx'|Hx'%list_elem_of_singleton]; [| by rewrite Hx', He in Ex].
      rewrite Forall_forall in Hl. destruct (Hl x Hx') as [E|(_ & g' & Hg' & Ha & _)]; [by rewrite E in Ex |]. assert (E : IPCID_TO_IX (shmid x) = i) by lia. rewrite E, Hg in Hg'.
      injection Hg' as <-. unfold allocated in Ha. by rewrite (fr_mode _ _ _ Hf) in Ha.
    + split; [done | right]. rewrite Z.add_comm. apply more_used; [done | done | apply Hb].
  - intros q t' Hq. apply Htab. destruct (decide (q = p)) as [->|Hne]; [rewrite lookup_insert_eq in Hq; by injection Hq as <- | rewrite lookup_insert_ne in Hq by done; by eapply iv_tables].
  - rewrite (iv_nused _ _ Hi). symmetry. apply cnt_same; [done |]. intros i x Hx. eexists. by split; [apply Hs |].
  - destruct (iv_last _ _ Hi) as [?|(g & Hg & Hm)]; [by left | right]. eexists. by split; [apply Hs |].
Qed.

Lemma kheap_alloc_spec s hs : inv s hs → wp kheap_alloc (λ _ s', inv s' hs ∧ s' = with_heap (heap s') s) s.
Proof. intros Hi. unfold wp, kheap_alloc. destruct (heap s) eqn:E; [split; [done |]; by destruct s | split; [by apply inv_with_heap | done]]. Qed.

(** What a fork does when there is memory for the table. *)
Definition forked (p : nat) (t : list shmmap_state) (s s' : state) : Prop :=
  ∃ segs, s' = with_segs segs (with_vm_shm (<[p := t]> (vm_shm s)) (with_heap (tail (heap s)) s)) ∧ length segs = length (shmsegs s) ∧
    ∀ i g, rd (shmsegs s) i = Ok g → rd segs i = Ok (counted (cnt (at_seg i) t) g).

Lemma shmfork_counts p1 p2 t s hs : inv s hs → vm_shm s !! p1 = Some t →
  wp (shmfork p1 p2) (λ _ s', if default false (head (heap s)) then forked p2 t s s' else s' = with_heap (heap s') s) s.
Proof.
  intros Hi Ht. unfold shmfork. apply wp_bind, (wp_of_Ok _ _ _ 0 s); [unfold shminit; rewrite st_bind_unfold; cbn; by rewrite (iv_init _ _ Hi) |]. cbn [negb Z.eqb].
  apply wp_bind, (wp_get_table _ t); [done |]. destruct (entries_ok _ _ (iv_tables _ _ Hi p1 t Ht)) as (l & Hl & Hn & _ & Htake).
  apply wp_bind, (wp_lift_shm _ l); [done |]. destruct (_ >=? _) eqn:Eo; [lia |]. rewrite Htake. apply wp_bind. destruct (heap s) as [|[] h] eqn:Eh; cbn [head default from_option tail].
  - apply (wp_of_Ok _ _ _ false s); [unfold kheap_alloc; by rewrite Eh |]. apply wp_ret. rewrite Eh, <- Eh. by destruct s.
  - apply (wp_of_Ok _ _ _ true (with_heap h s)); [unfold kheap_alloc; by rewrite Eh |]. cbn [negb]. apply wp_bind, wp_modify_shm, wp_bind. pose proof (iv_tables _ _ Hi p1 t Ht) as (l1 & e0 & Et & He0 & Hl1 & _).
    assert (Hcnt : ∀ i, cnt (at_seg i) t = cnt (at_seg i) l1) by (intros i; rewrite Et, cnt_app; cbn; unfold at_seg at 2; rewrite He0; cbn; lia).
    rewrite Et at 1. eapply wp_mono; [apply (fork_counts_spec e0 He0 l1) |].
    + intros x Hx. rewrite Forall_forall in Hl1. cbn. destruct (Hl1 x Hx) as [E|(Hvx & g & Hg & _)]; [rewrite E; done |]. split; [intros E; rewrite E in Hvx; by vm_compute in Hvx | by exists g].
    + intros _ s2 (segs & -> & Hlen & Hs). apply wp_ret. exists segs. rewrite Eh. split; [done |]. split; [done |]. intros i g Hg. rewrite Hcnt. by apply Hs.
  - apply (wp_of_Ok _ _ _ false (with_heap h s)); [unfold kheap_alloc; by rewrite Eh |]. apply wp_ret. done.
Qed.

Lemma shmfork_spec p1 p2 t s hs : inv s hs → vm_shm s !! p1 = Some t → vm_shm s !! p2 = None → (∀ i, total i (vm_shm s) + cnt (at_seg i) t < 2 ^ 15) →
  wp (shmfork p1 p2) (λ _, ok) s.
Proof.
  intros Hi Ht Hp2 Hb. eapply wp_mono; [by apply (shmfork_counts p1 p2 t s hs) |]. intros ? s'. destruct (default false (head (heap s))).
  2: { intros E. rewrite E. left. exists hs. by apply inv_with_heap. }
  intros (segs & -> & Hlen & Hs). left. exists hs. apply (inv_more (with_heap (tail (heap s)) s) hs p2 t segs); [by apply inv_with_heap | done | by apply (iv_tables _ _ Hi p1 t) | done | | done].
  intros i g Hg. rewrite (Hs i g Hg). f_equal. pose proof (cnt_nonneg (at_seg i) t). destruct (iv_seg _ _ Hi i g Hg) as [_ [Hf|Hu]].
  - pose proof (fr_entries _ _ _ Hf) as Hz. rewrite (total_delete i _ p1 t Ht) in Hz. pose proof (total_nonneg i (delete p1 (vm_shm s))). replace (cnt (at_seg i) t) with 0 by lia. by rewrite more_0.
  - apply counted_more; [| done |]; rewrite (us_nattch _ _ _ _ Hu); pose proof (us_bound _ _ _ _ Hu); [lia |]. intros _. apply Hb.
Qed.
