(* ===== verification/ShmAttach.v ===== *)
(** * System V shared memory: attaching *)

From S2P Require Import Prelude Chain Ipc Shm ShmInv ShmHeap ShmOps ShmCalls.

(** ** Pages *)

(** The page size of a map is at most that of the kernel. *)
Definition page_mask (m : Z) : Prop := ∃ k, 0 <= k <= 12 ∧ m = 2 ^ k - 1.

Lemma round_up_least d x q : 0 < d → x <= q * d → (x + (d - 1)) / d * d <= q * d.
Proof. intros Hd Hq. apply Z.mul_le_mono_nonneg_r; [lia |]. apply Z.lt_succ_r. apply Z.div_lt_upper_bound; lia. Qed.

Lemma round_up_ge d x : 0 < d → x <= (x + (d - 1)) / d * d.
Proof. intros Hd. pose proof (Z.mod_pos_bound (x + (d - 1)) d Hd). pose proof (Z.div_mod (x + (d - 1)) d ltac:(lia)). lia. Qed.

(** The size of a segment for a map, and in the pages of the kernel. *)
Lemma map_size_bounds m x : page_mask m → 0 < x → x + PAGE_MASK < 2 ^ 64 →
  let sz := vm_map_round_page x m in let sum := (x + PAGE_MASK) / PAGE_SIZE * PAGE_SIZE in
  x <= sz <= sum ∧ sum < x + PAGE_SIZE ∧ (m < PAGE_MASK ∨ sz = sum).
Proof.
  intros (k & Hk & ->) Hx Hb. cbn zeta. unfold PAGE_MASK, PAGE_SIZE in *. assert (2 ^ k <= 2 ^ 12) by (apply Z.pow_le_mono_r; lia). change (2 ^ 12) with 4096 in *.
  rewrite round_page by lia. assert (Hpos : 0 < 2 ^ k) by lia. pose proof (round_up_ge (2 ^ k) x Hpos). pose proof (round_up_ge 4096 x ltac:(lia)) as Hge. change (4096 - 1) with 4095 in Hge.
  assert (Hle : (x + (2 ^ k - 1)) / 2 ^ k * 2 ^ k <= (x + 4095) / 4096 * 4096).
  { replace 4096 with (2 ^ (12 - k) * 2 ^ k) in * by (rewrite <- Z.pow_add_r by lia; by replace (12 - k + k) with 12 by lia). rewrite Z.mul_assoc in *. apply round_up_least; [done |].
    replace (2 ^ (12 - k) * 2 ^ k) with 4096 in * by (rewrite <- Z.pow_add_r by lia; by replace (12 - k + k) with 12 by lia). lia. }
  split; [lia |]. split; [zlia |]. destruct (decide (k = 12)) as [->|Hne]; [right; done | left]. assert (2 ^ k < 2 ^ 12) by (apply Z.pow_lt_mono_r; lia). change (2 ^ 12) with 4096 in *. lia.
Qed.

Lemma used_to_map H l n g pgmask : used_ok H l n g → page_mask pgmask → to_map H pgmask (vm_map_round_page (shm_segsz g) pgmask) 0 l.
Proof.
  intros Hu Hm. destruct (us_size _ _ _ _ Hu) as [Hs Hb]. pose proof (map_size_bounds pgmask (shm_segsz g) Hm Hs Hb) as (H1 & H2 & H3). cbn zeta in *. rewrite <- (us_sum _ _ _ _ Hu) in *.
  destruct l as [|a l]; [cbn in *; lia |]. unfold to_map. unfold PAGE_SIZE in *. lia.
Qed.

(** ** Tables *)

Lemma new_table_ok segs n junk : 0 < n < 2 ^ 31 → table_ok segs (new_table n junk).
Proof.
  intros Hn. eexists _, _. split; [done |]. split; [done |]. split; [| rewrite length_fmap, length_seq; lia]. apply Forall_fmap, Forall_forall. intros i _. by left.
Qed.

Lemma new_table_cnt i n junk : cnt (at_seg i) (new_table n junk) = 0.
Proof.
  apply cnt_none. intros e [H|H%list_elem_of_singleton]%elem_of_app; [| by rewrite H]. apply list_elem_of_fmap in H as (j & -> & _). done.
Qed.

Lemma shm_table_spec p junk s hs : inv s hs → wp (shm_table p junk) (λ r s', inv s' hs ∧ s' = with_vm_shm (vm_shm s') (with_heap (heap s') s) ∧
  match r with inl e => e ≠ 0 | inr t => vm_shm s' !! p = Some t ∧ ∀ i, total i (vm_shm s') = total i (vm_shm s) end) s.
Proof.
  intros Hi. assert (Hs : s = with_vm_shm (vm_shm s) (with_heap (heap s) s)) by (by destruct s). unfold shm_table. apply wp_bind, wp_get. destruct (vm_shm s !! p) as [t|] eqn:Ht; [by apply wp_ret |].
  destruct (Z.leb_spec (s32 (shmseg (info s))) 0) as [Hz|Hz]; [by apply wp_ret |]. destruct (_ >=? _); [by apply wp_ret |]. apply wp_bind.
  eapply wp_mono; [by apply (kheap_alloc_spec s hs) |]. intros [] s1 [Hi1 Es]; cbn [negb]; [| apply wp_ret; split; [done |]; split; [rewrite Es; by destruct s |]; done].
  assert (Hv : vm_shm s1 = vm_shm s) by (by rewrite Es). set (n := s32 (shmseg (info s))) in *. assert (Hn : 0 < n < 2 ^ 31) by (pose proof (swrap_lt 32 (shmseg (info s)) ltac:(lia)); unfold n in *; change (2 ^ (32 - 1)) with (2 ^ 31) in *; lia).
  assert (Htot : ∀ i, total i (<[p := new_table n junk]> (vm_shm s1)) = total i (vm_shm s)) by (intros i; rewrite Hv, total_new, new_table_cnt by done; lia).
  apply wp_bind, wp_modify_shm, wp_ret. split; [apply inv_with_tables; [done | intros i; by rewrite Htot, Hv |] |].
  - intros q t Hq. destruct (decide (q = p)) as [->|Hne]; [rewrite lookup_insert_eq in Hq; injection Hq as <-; by apply new_table_ok | rewrite lookup_insert_ne in Hq by done; by eapply iv_tables].
  - split; [rewrite Es; by destruct s |]. split; [cbn; by rewrite lookup_insert_eq | done].
Qed.

Lemma find_unused_spec segs t : table_ok segs t → ∃ k e, find_unused t 0 = Ok (k, e) ∧ rd t k = Ok e ∧ SHMID_IS_VALID (shmid e) = false.
Proof.
  intros (l & e0 & -> & He & _). assert (H : ∀ j, ∃ k e, find_unused (l ++ [e0]) j = Ok (j + k, e) ∧ rd (l ++ [e0]) k = Ok e ∧ SHMID_IS_VALID (shmid e) = false).
  { induction l as [|x l IH]; intros j; cbn [app find_unused].
    - rewrite He. exists 0, e0. by rewrite Z.add_0_r, He.
    - destruct (SHMID_IS_VALID (shmid x)) eqn:Ev; [| exists 0, x; by rewrite Z.add_0_r]. destruct (IH (j + 1)) as (k & e & -> & [? Hk]%rd_lookup & Hv). exists (k + 1), e.
      split; [f_equal; f_equal; lia |]. split; [| done]. apply rd_lookup. split; [lia |]. by replace (Z.to_nat (k + 1)) with (S (Z.to_nat k)) by lia. }
  destruct (H 0) as (k & e & Hf & Hk & Hv). by exists k, e.
Qed.

(** A table where an unused entry gets another address. *)
Lemma inv_put_va s hs p t k e v : inv s hs → vm_shm s !! p = Some t → rd t k = Ok e → shmid e = SHMID_UNALLOCATED →
  inv (with_vm_shm (<[p := <[Z.to_nat k := ShmmapState v (shmid e)]> t]> (vm_shm s)) s) hs.
Proof.
  intros Hi Ht Hk He. apply inv_with_tables; [done | |].
  - intros i. rewrite (total_put _ _ _ _ _ e) by done. unfold at_seg. cbn. lia.
  - intros q t' Hq. destruct (decide (q = p)) as [->|Hne]; [| rewrite lookup_insert_ne in Hq by done; by eapply iv_tables]. rewrite lookup_insert_eq in Hq. injection Hq as <-.
    eapply table_put; [by eapply iv_tables | done | by rewrite He | by left].
Qed.

Lemma int_id id : - 2 ^ 31 <= id < 2 ^ 31 → IPCID_TO_SEQ id < 2 ^ 15 → 0 <= id.
Proof.
  unfold IPCID_TO_SEQ. change 0xffff with (Z.ones 16). rewrite land_ones_mod by lia. unfold wrap. rewrite Z.shiftr_div_pow2 by lia. change (2 ^ 16) with 65536. change (2 ^ 31) with 2147483648. change (2 ^ 15) with 32768.
  intros Hr Hs. destruct (decide (0 <= id)) as [|Hneg]; [done | exfalso]. zlia.
Qed.

(** ** The call *)

(** The addresses from [addr] to [lim] are mapped piece by piece. *)
Fixpoint covers (addr lim : Z) (calls : list vmcall) : Prop :=
  match calls with
  | [] => addr = lim
  | Enter _ a c _ _ :: calls => a = addr ∧ 0 < c ∧ covers (addr + c) lim calls
  | _ => False
  end.

Lemma enters_cover H p pgmask map_size prot l : ∀ addr mapped, Forall (λ a, PAGE_SIZE <= hsize H a) l → to_map H pgmask map_size mapped l →
  covers addr (addr + (map_size - mapped)) (enters H p addr map_size mapped prot l).
Proof.
  induction l as [|a l IH]; intros addr mapped Hc Hm; [cbn in Hm |- *; lia |]. destruct (to_map_next _ _ _ _ _ _ Hc Hm) as (Hlt & _ & Hm').
  apply Forall_cons in Hc as [Ha Hc]. cbn. split; [done |]. split; [unfold PAGE_SIZE in *; lia |]. specialize (IH (addr + Z.min (hsize H a) (map_size - mapped)) _ Hc Hm').
  by replace (addr + Z.min (hsize H a) (map_size - mapped) + (map_size - (mapped + Z.min (hsize H a) (map_size - mapped)))) with (addr + (map_size - mapped)) in IH by lia.
Qed.

Definition prot_of (shmflg : Z) : Z := if tst shmflg SHM_RDONLY then VM_PROT_READ else Z.lor VM_PROT_READ VM_PROT_WRITE.

(** The process [p] has attached the segment with the identifier [id] at the
    address [v]. *)
Definition attaches (pgmask : Z) (p : nat) (id shmflg v : Z) (s s' : state) : Prop :=
  ∃ hs g t k, inv s' hs ∧ vm_shm s' !! p = Some t ∧ rd t k = Ok (ShmmapState v id) ∧ rd (shmsegs s') (IPCID_TO_IX id) = Ok g ∧ allocated g = true ∧
    let sz := vm_map_round_page (shm_segsz g) pgmask in let calls := enters (handles s') p v sz 0 (prot_of shmflg) (hs (IPCID_TO_IX id)) in
    vm s' = vm s ++ Reserve p v sz :: calls ∧ covers v (v + sz) calls.

Section attach.
Context (s : state) (hs : Z → list Z) (Hinv : inv s hs) (p : nat) (t : list shmmap_state) (k : Z) (e : shmmap_state) (id v now : Z) (g : shmid_ds).
Let i := IPCID_TO_IX id.
Hypotheses (Ht : vm_shm s !! p = Some t) (Hk : rd t k = Ok e) (He : shmid e = SHMID_UNALLOCATED) (Hid : 0 <= id).
Hypotheses (Hg : rd (shmsegs s) i = Ok g) (Ha : allocated g = true) (Hseq : _seq (shm_perm g) = IPCID_TO_SEQ id) (Hb : total i (vm_shm s) + 1 < 2 ^ 15).

Let g' := set_attached (Z.of_nat p) now (swrap 16 (shm_nattch g + 1)) g.
Let s' := with_segs (<[Z.to_nat i := g']> (shmsegs s)) (with_vm_shm (<[p := <[Z.to_nat k := ShmmapState v id]> t]> (vm_shm s)) s).

Lemma attach_inv : inv s' hs.
Proof.
  destruct (seg_used _ _ Hinv i g Hg Ha) as [Hq Hu]. pose proof (us_nattch _ _ _ _ Hu) as Hn. pose proof (us_bound _ _ _ _ Hu).
  assert (Hat : ∀ j, at_seg j (ShmmapState v id) = (i =? j)) by (intros j; unfold at_seg, SHMID_IS_VALID; cbn; destruct (Z.geb_spec id 0); [done | lia]).
  assert (Htot : ∀ j, total j (vm_shm s') = total j (vm_shm s) + Z.b2z (i =? j)).
  { intros j. cbn. rewrite (total_put _ _ _ _ _ e) by done. rewrite Hat. unfold at_seg. rewrite He. cbn. lia. }
  assert (Hw : swrap 16 (shm_nattch g + 1) = shm_nattch g + 1) by (apply swrap_small; [lia |]; change (2 ^ (16 - 1)) with (2 ^ 15); lia).
  eapply (inv_change s hs Hinv _ _ i g g'); try done.
  - apply Hinv.
  - apply Hinv.
  - split; [done | right]. rewrite Htot, Z.eqb_refl. cbn. destruct Hu. split; try done; cbn; try lia. change (removed g') with (removed g). intros Hr. destruct (us_removed Hr). split; [lia | done].
  - intros j Hj. rewrite Htot. destruct (Z.eqb_spec i j); [by subst | cbn; lia].
  - intros q t' Hq'. cbn in Hq'. eapply table_ok_update; [done | | by intros]. destruct (decide (q = p)) as [->|Hne]; [| rewrite lookup_insert_ne in Hq' by done; by eapply iv_tables].
    rewrite lookup_insert_eq in Hq'. injection Hq' as <-. eapply table_put; [by eapply iv_tables | done | by rewrite He | right]. split; [done |]. by exists g.
  - cbn. change (allocated g') with (allocated g). lia.
  - right. right. split; [done | by eapply last_not_used].
Qed.

End attach.

Lemma shm_errno_nz rv : shm_errno rv ≠ 0.
Proof. unfold shm_errno. by repeat case_match. Qed.

Lemma ret_nz pgmask p id flg s s' hs e : inv s' hs → e ≠ 0 → fine (Return e 0) s' ∧ ∀ v, Return e 0 = Return 0 v → attaches pgmask p id flg v s s'.
Proof. intros Hi He. split; [by eapply fine_inv |]. by intros v [= ?]. Qed.

Lemma shmat_spec pgmask now p junk c mac rv new_va rvs id shmaddr shmflg s : ok s → page_mask pgmask → - 2 ^ 31 <= id < 2 ^ 31 →
  total (IPCID_TO_IX id) (vm_shm s) + 1 < 2 ^ 15 →
  wp (shmat pgmask now p junk c mac rv new_va rvs id shmaddr shmflg) (λ r s', fine r s' ∧ ∀ v, r = Return 0 v → attaches pgmask p id shmflg v s s') s.
Proof.
  intros Hs Hpg Hint Hb. apply (wp_start (λ e, Return e 0)); [done | | intros e s' He Hd; split; [split; [by right | done] | by intros v [= ?]]]. intros hs s1 Hi (_ & Hv1 & Hl1). rewrite <- Hv1 in Hb.
  apply wp_bind. eapply wp_mono; [by apply (shm_table_spec p junk s1 hs) |]. intros [e|t] s2 (Hi2 & Es2 & Ht); [apply wp_ret; by eapply ret_nz |]. destruct Ht as [Ht Htot].
  rewrite <- Htot in Hb. assert (Hl2 : vm s2 = vm s) by (by rewrite Es2). clear Es2 Htot Hi Hv1 Hl1. apply wp_bind. eapply wp_mono; [by apply (find_shmid_spec id s2 hs) |].
  intros [[i g]|] s' [-> H]; [| apply wp_ret; by eapply ret_nz]. destruct H as (-> & Hg & Ha & Hrem & Hseq). cbn zeta. destruct (negb (ipcperm _ _ _ =? 0)) eqn:Ep; [apply wp_ret; eapply ret_nz; [done | lia] |].
  destruct (negb (mac =? 0)) eqn:Em; [apply wp_ret; eapply ret_nz; [done | lia] |]. destruct (find_unused_spec _ _ (iv_tables _ _ Hi2 p t Ht)) as (k & x & Hf & Hk & Hx).
  apply wp_bind, (wp_lift_shm _ (k, x)); [done |]. destruct (Z.eqb_spec (shmid x) SHMID_UNALLOCATED) as [Hux|]; cbn [negb]; [| apply wp_ret; by eapply ret_nz].
  cbn zeta. destruct (negb (tst shmflg SHM_RND) && _); [apply wp_ret; by eapply ret_nz |]. fold (prot_of shmflg). set (v := if shmaddr =? 0 then new_va else _). set (sz := vm_map_round_page (shm_segsz g) pgmask).
  apply wp_bind, wp_ask. set (s3 := with_vm _ s2). assert (Hi3 : inv s3 hs) by (by apply inv_with_vm).
  destruct (negb (rv =? KERN_SUCCESS)); [apply wp_ret; eapply ret_nz; [done | apply shm_errno_nz] |].
  apply wp_bind, (wp_put_entry _ t _ x); [done | done |]. set (t1 := <[Z.to_nat k := ShmmapState v (shmid x)]> t). set (s4 := with_vm_shm _ s3).
  assert (Hi4 : inv s4 hs) by (by apply inv_put_va). apply wp_bind, wp_get, wp_bind. destruct (seg_used _ _ Hi4 _ g Hg Ha) as [Hq Hu].
  eapply wp_mono; [apply (enter_handles_spec _ p pgmask sz (prot_of shmflg) (hs (IPCID_TO_IX id))) |].
  - apply Hu.
  - eapply owned_fuel, Hi4.
  - intros b Hb'. destruct (owned_handle _ _ _ _ (iv_heap _ _ Hi4) _ b Hb') as (H0 & h & Hh & Ho & _). split; [done |]. by exists h.
  - apply Hu.
  - by eapply used_to_map.
  - intros [rv' mapped] s5 (calls & -> & Hcalls). set (s5 := with_vm _ s4). assert (Hi5 : inv s5 hs) by (by apply inv_with_vm).
    cbn [fst snd] in Hcalls. destruct (Z.eqb_spec rv' KERN_SUCCESS) as [Hrv|]; cbn [negb].
    2: { apply wp_bind. destruct (mapped >? 0); [apply wp_ask | apply wp_ret]; apply wp_ret; eapply ret_nz; try apply shm_errno_nz; [by apply inv_with_vm | done]. }
    destruct (Hcalls Hrv) as [Ec _]. assert (Ht5 : vm_shm s5 !! p = Some t1) by (cbn; by rewrite lookup_insert_eq).
    assert (Hk5 : rd t1 k = Ok (ShmmapState v (shmid x))) by (by eapply rd_insert_eq). apply wp_bind, (wp_put_entry _ t1 _ _ _ _ _ Ht5 Hk5). apply wp_bind, (wp_put_seg _ g); [done |]. apply wp_ret.
    assert (Hid : 0 <= id) by (apply int_id; [done | rewrite <- Hseq; apply Hq]).
    assert (Htot5 : total (IPCID_TO_IX id) (vm_shm s5) + 1 < 2 ^ 15).
    { change (vm_shm s5) with (<[p := t1]> (vm_shm s2)). unfold t1. rewrite (total_put _ _ _ _ _ x) by done. unfold at_seg. cbn [shmid]. lia. }
    pose proof (attach_inv s5 hs Hi5 p t1 k (ShmmapState v (shmid x)) id v now g Ht5 Hk5 Hux Hid Hg Ha Hseq Htot5) as Hfin. split; [by eapply fine_inv |].
    intros v' [= <-]. exists hs, (set_attached (Z.of_nat p) now (swrap 16 (shm_nattch g + 1)) g), (<[Z.to_nat k := ShmmapState v id]> t1), k. split; [done |].
    split; [cbn; by rewrite lookup_insert_eq |]. split; [by eapply rd_insert_eq |]. split; [cbn; by eapply rd_insert_eq |]. split; [done |]. cbn zeta. split.
    + cbn. rewrite Hl2, Ec, <- app_assoc. done.
    + cbn [shm_segsz set_attached]. fold sz. replace (v + sz) with (v + (sz - 0)) by lia. apply (enters_cover _ _ pgmask); [apply Hu | by eapply used_to_map].
Qed.
