(* ===== verification/ShmGet.v ===== *)
(** * System V shared memory: creating *)

From stdpp Require Import functions.
From S2P Require Import Prelude Chain Ipc Shm ShmInv ShmHeap ShmOps ShmCalls ShmAttach.

Lemma find_seg_spec f l : ∀ i, 0 <= i → find_seg f l i = -1 ∧ (∀ g, g ∈ l → f g = false) ∨ ∃ j g, find_seg f l i = i + j ∧ rd l j = Ok g ∧ f g = true.
Proof.
  induction l as [|x l IH]; intros i Hi; cbn [find_seg]; [left; split; [done |]; by intros g ?%elem_of_nil |].
  destruct (f x) eqn:Ex; [right; exists 0, x; split; [lia |]; done |]. destruct (IH (i + 1)) as [[-> Hl]|(j & g & -> & [Hj Hg]%rd_lookup & Hf)]; [lia | |].
  - left. split; [done |]. intros g [->|Hg]%elem_of_cons; [done | by apply Hl].
  - right. exists (j + 1), g. split; [lia |]. split; [| done]. apply rd_lookup. split; [lia |]. by replace (Z.to_nat (j + 1)) with (S (Z.to_nat j)) by lia.
Qed.

(** The identifier names a segment of at least the size. *)
Definition names (s : state) (id key sz : Z) : Prop :=
  0 <= id ∧ ∃ g, rd (shmsegs s) (IPCID_TO_IX id) = Ok g ∧ allocated g = true ∧ removed g = false ∧ _seq (shm_perm g) = IPCID_TO_SEQ id ∧
    _key (shm_perm g) = key ∧ sz <= shm_segsz g.

(** What [shmget] may return. *)
Definition gets (key sz : Z) (r : out) (s : state) : Prop :=
  ok s ∧ match r with Return 0 id => names s id key sz | Return _ _ => True | _ => False end.

Lemma gets_error key sz s e : ok s → e ≠ 0 → gets key sz (Return e 0) s.
Proof. intros Hs He. split; [done |]. by destruct e. Qed.

Section existing.
Context (s : state) (hs : Z → list Z) (Hinv : inv s hs).

(** A segment that a key finds has not been removed. *)
Lemma find_key_spec key : key ≠ IPC_PRIVATE → let i := shm_find_segment_by_key key s in
  i = -1 ∨ ∃ g, rd (shmsegs s) i = Ok g ∧ allocated g = true ∧ removed g = false ∧ _key (shm_perm g) = key.
Proof.
  intros Hk. cbn zeta. unfold shm_find_segment_by_key. destruct (find_seg_spec (λ g, tst (mode (shm_perm g)) SHMSEG_ALLOCATED && (_key (shm_perm g) =? key)) (shmsegs s) 0 ltac:(lia)) as [[-> _]|(i & g & -> & Hg & Hf)]; [by left | right].
  rewrite Z.add_0_l. exists g. split; [done |]. apply andb_true_iff in Hf as [Ha He]. split; [done |]. assert (_key (shm_perm g) = key) as Hkey by lia. split; [| done].
  destruct (removed g) eqn:Er; [| done]. destruct (seg_used _ _ Hinv i g Hg Ha) as [_ Hu]. destruct (us_removed _ _ _ _ Hu Er) as [_ E]. by rewrite Hkey in E.
Qed.

Lemma existing_spec mac key sz shmflg md i g : rd (shmsegs s) i = Ok g → allocated g = true → removed g = false → _key (shm_perm g) = key →
  wp (shmget_existing mac key sz shmflg md i) (gets key sz) s.
Proof.
  intros Hg Ha Hr Hk. assert (Hok : ok s) by (left; by exists hs). unfold shmget_existing. apply wp_bind, (wp_get_seg _ g); [done |]. fold (removed g). rewrite Hr.
  destruct (negb _); [apply wp_ret; by apply gets_error |]. destruct (Z.eqb_spec mac 0) as [->|Hm]; cbn [negb]; [| apply wp_ret; by apply gets_error].
  destruct (negb (sz =? 0) && (sz >? shm_segsz g)) eqn:Es; [apply wp_ret; by apply gets_error |]. destruct (Z.land _ _ =? _); [apply wp_ret; by apply gets_error |].
  apply wp_ret. split; [done |]. destruct (seg_used _ _ Hinv i g Hg Ha) as [Hq Hu]. pose proof (seg_range _ _ Hinv i g Hg). pose proof (iv_mni _ _ Hinv).
  destruct (shm_id i (_seq (shm_perm g))) as (Hid0 & Hix & Hsq); [lia | done |]. split; [done |]. exists g. rewrite Hix, Hsq. split; [done |]. split; [done |]. split; [done |]. split; [done |]. split; [done |].
  destruct (us_size _ _ _ _ Hu). destruct (Z.eqb_spec sz 0); cbn in Es; lia.
Qed.

(** ** A place *)

Lemma take_place_spec : shm_nused s < shmmni (info s) →
  wp take_place (λ i s', s' = with_last_free (-1) s ∧ ∃ g, rd (shmsegs s) i = Ok g ∧ free_ok (hs i) (total i (vm_shm s)) g ∧ 0 <= _seq (shm_perm g) < 2 ^ 15) s.
Proof.
  intros Hn. assert (Hfree : ∀ i g, rd (shmsegs s) i = Ok g → tst (mode (shm_perm g)) SHMSEG_FREE = true → free_ok (hs i) (total i (vm_shm s)) g ∧ 0 <= _seq (shm_perm g) < 2 ^ 15).
  { intros i g Hg Hf. destruct (iv_seg _ _ Hinv i g Hg) as [Hq [?|Hu]]; [done |]. by rewrite (us_free _ _ _ _ Hu) in Hf. }
  unfold take_place. apply wp_bind, wp_get. destruct (iv_last _ _ Hinv) as [Hl|(g & Hg & Hm)].
  - rewrite Hl. cbn [Z.ltb Z.compare]. cbn zeta. destruct (find_seg_spec (λ g, tst (mode (shm_perm g)) SHMSEG_FREE) (shmsegs s) 0 ltac:(lia)) as [[_ Hno]|(i & g & -> & Hg & Hf)].
    + exfalso. destruct (cnt_full allocated (shmsegs s)) as (g & Hin & Ha); [rewrite <- (iv_nused _ _ Hinv), (iv_len _ _ Hinv); lia |]. apply list_elem_of_lookup_1 in Hin as Hj. destruct Hj as [j Hj].
      destruct (iv_seg _ _ Hinv (Z.of_nat j) g) as [_ [Hf|Hu]]; [apply rd_lookup; split; [lia | by rewrite Nat2Z.id] | |]; [| by rewrite (us_alloc _ _ _ _ Hu) in Ha].
      specialize (Hno g Hin). cbn in Hno. by rewrite (fr_mode _ _ _ Hf) in Hno.
    + rewrite Z.add_0_l. pose proof (rd_range _ _ _ Hg). destruct (Z.eqb_spec i (-1)); [lia |]. apply wp_ret. split; [rewrite <- Hl; by destruct s |]. exists g. split; [done |]. by apply Hfree.
  - pose proof (rd_range _ _ _ Hg). destruct (Z.ltb_spec (shm_last_free s) 0); [lia |]. apply wp_bind, wp_modify_shm, wp_ret. split; [done |]. exists g. split; [done |]. apply Hfree; [done |]. by rewrite Hm.
Qed.

End existing.

(** ** A new segment *)

Definition total_of (sz : Z) : Z := (sz + PAGE_MASK) / PAGE_SIZE * PAGE_SIZE.

Lemma round_overflow sz : 0 < sz → mach_vm_round_page_overflow sz = (sz + PAGE_MASK >=? 2 ^ 64, if sz + PAGE_MASK >=? 2 ^ 64 then snd (mach_vm_round_page_overflow sz) else total_of sz).
Proof.
  intros Hs. unfold mach_vm_round_page_overflow. destruct (Z.geb_spec (sz + PAGE_MASK) (2 ^ 64)); [done |]. f_equal. change PAGE_MASK with (2 ^ 12 - 1) in *.
  change (vm_map_round_page sz (2 ^ 12 - 1) = total_of sz). rewrite round_page by lia. done.
Qed.

(** The structure while the named entries are made, and after that. *)
Definition making (key : Z) (g : shmid_ds) : shmid_ds :=
  set_perm (λ p, IpcPerm (uid p) (gid p) (cuid p) (cgid p) (Z.lor SHMSEG_ALLOCATED SHMSEG_REMOVED) (Z.land (_seq p + 1) 0x7fff) key) g.

Lemma next_seq x : 0 <= Z.land x 0x7fff < 2 ^ 15.
Proof. change 0x7fff with (Z.ones 15). rewrite land_ones_mod by lia. by apply wrap_in_u. Qed.

Definition enough (sz : Z) (chunks : list chunk) : Prop := Forall (λ c, c = Made true) chunks ∧ sz <= Z.of_nat (length chunks) * ANON_MAX_SIZE.

Definition perms_of (md : Z) : Z := Z.lor (Z.land md ACCESSPERMS) SHMSEG_ALLOCATED.

Lemma perms_flag md f : Z.land ACCESSPERMS f = 0 → tst (perms_of md) f = tst SHMSEG_ALLOCATED f.
Proof. intros Hf. unfold perms_of. by rewrite tst_lor, tst_perms. Qed.

Lemma new_inv s hs i g s1 hs1 g1 g' nused committed key sz : inv s hs → rd (shmsegs s) i = Ok g → free_ok (hs i) (total i (vm_shm s)) g →
  made s1 hs1 i (total_of sz) g1 → makes i (making key g) (with_segs (<[Z.to_nat i := making key g]> (shmsegs s)) (with_last_free (-1) s)) hs g1 s1 hs1 →
  0 < sz → sz + PAGE_MASK < 2 ^ 64 → nused = shm_nused s + 1 → shm_nattch g' = 0 → shm_internal g' = shm_internal g1 → shm_segsz g' = sz →
  _seq (shm_perm g') = Z.land (_seq (shm_perm g) + 1) 0x7fff → (∃ md, mode (shm_perm g') = perms_of md) →
  inv (with_usage nused committed (with_segs (<[Z.to_nat i := g']> (shmsegs s1)) s1)) hs1.
Proof.
  intros Hi Hg Hf [Hg1 Hok Hch Hck Hsum] [Es Eg Hhs Hh] Hs Hb Hnu Hna Hint Hsz Hseq [md Hmode].
  assert (Hseg1 : shmsegs s1 = <[Z.to_nat i := g1]> (shmsegs s)) by (rewrite Es; cbn; by rewrite list_insert_insert_eq). assert (Hv : vm_shm s1 = vm_shm s) by (by rewrite Es).
  assert (Ha : allocated g = false) by (unfold allocated; by rewrite (fr_mode _ _ _ Hf)). assert (Ha' : allocated g' = true) by (unfold allocated; by rewrite Hmode, perms_flag).
  eapply (inv_change s hs Hi _ _ i g g'); try done.
  - by rewrite Es.
  - cbn. rewrite Es. apply Hi.
  - cbn. by rewrite Hseg1, list_insert_insert_eq.
  - split; [rewrite Hseq; apply next_seq | right]. cbn [vm_shm with_usage with_segs handles]. rewrite Hv, (fr_entries _ _ _ Hf). split; try done; rewrite ?Hint, ?Hsz, ?Hmode; try done.
    + by rewrite perms_flag.
    + by rewrite perms_flag.
    + unfold removed. by rewrite Hmode, perms_flag.
  - cbn. by rewrite Hv.
  - cbn [vm_shm with_usage with_segs shmsegs]. rewrite Hv, Hseg1, list_insert_insert_eq. intros p t Ht. eapply table_ok_update; [done | by eapply iv_tables |].
    intros x Hx Hax. pose proof (total_entry _ _ _ _ _ Ht Hx Hax). rewrite (fr_entries _ _ _ Hf) in *. lia.
  - cbn. rewrite Ha, Ha', Hnu. cbn. lia.
  - left. cbn. by rewrite Es.
Qed.

Lemma allocate_spec now p c chunks key sz md s hs : inv s hs → enough sz chunks → wp (shmget_allocate_segment now p c chunks key sz md) (gets key sz) s.
Proof.
  intros Hi [Hall Hen]. assert (Hok : ok s) by (left; by exists hs). unfold shmget_allocate_segment. apply wp_bind, wp_get.
  destruct (_ || _ || _) eqn:E1; [apply wp_ret; by apply gets_error |]. destruct (Z.geb_spec (shm_nused s) (shmmni (info s))) as [|Hnu]; [apply wp_ret; by apply gets_error |].
  assert (Hs : 0 < sz) by lia. clear E1. rewrite round_overflow by done. destruct (Z.geb_spec (sz + PAGE_MASK) (2 ^ 64)) as [|Hb]; [apply wp_ret; by apply gets_error |].
  destruct (u32 _ >? _); [apply wp_ret; by apply gets_error |]. apply wp_bind. eapply wp_mono; [by apply (take_place_spec s hs Hi) |]. intros i s0 (-> & g & Hg & Hf & Hq).
  apply wp_bind, (wp_get_seg _ g); [done |]. fold (making key g). apply wp_bind, (wp_put_seg _ g); [done |]. set (s0 := with_segs _ _). apply wp_bind.
  assert (Hm0 : made s0 hs i 0 (making key g)).
  { split; [cbn; by eapply rd_insert_eq | apply Hi | cbn; rewrite (fr_handles _ _ _ Hf); apply Hf | |]; rewrite (fr_handles _ _ _ Hf); [constructor | done]. }
  eapply wp_mono; [pose proof (make_chunks_spec i (total_of sz) ltac:(by eexists) chunks 0 0 s0 hs (making key g) Hm0) as Hmk; rewrite (fr_handles _ _ _ Hf) in Hmk; apply Hmk |].
  - by exists 0.
  - unfold total_of, PAGE_SIZE, PAGE_MASK in *. zlia.
  - done.
  - rewrite Z.sub_0_r. unfold total_of. replace (Z.of_nat (length chunks) * ANON_MAX_SIZE) with (Z.of_nat (length chunks) * 1048575 * PAGE_SIZE) in * by (unfold ANON_MAX_SIZE, PAGE_SIZE; lia).
    change PAGE_MASK with (PAGE_SIZE - 1). apply round_up_least; [done | lia].
  - intros [kret lsz] s1 (Hr & hs1 & g1 & Hmd & Hmk). cbn in Hr. subst kret. apply wp_bind, (wp_get_seg _ g1); [apply Hmd |]. cbn [negb KERN_SUCCESS Z.eqb].
    assert (Hp1 : shm_perm g1 = shm_perm (making key g)) by (by rewrite (ms_seg _ _ _ _ _ _ _ Hmk)). rewrite Hp1. cbn zeta. change (Z.land (mode (shm_perm (making key g))) SHMSEG_WANTED) with 0. rewrite Z.lor_0_l. fold (perms_of md).
    rewrite perms_flag by done. change (tst SHMSEG_ALLOCATED SHMSEG_WANTED) with false. apply wp_bind, (wp_put_seg _ g1); [apply Hmd |]. apply wp_bind, wp_modify_shm, wp_bind, wp_ret, wp_ret.
    set (g' := ShmidDs _ _ _ _ _ _ _ _ _). pose proof (ms_state _ _ _ _ _ _ _ Hmk) as Es1. split.
    + left. exists hs1. eapply (new_inv s hs i g s1 hs1 g1 g'); try done; [cbn; by rewrite Es1 | by exists md].
    + pose proof (seg_range _ _ Hi i g Hg). pose proof (iv_mni _ _ Hi). pose proof (next_seq (_seq (shm_perm g) + 1)) as Hq'. cbn [making set_perm shm_perm _seq].
      destruct (shm_id i (Z.land (_seq (shm_perm g) + 1) 0x7fff)) as (Hid0 & Hix & Hsq); [lia | done |]. split; [done |]. exists g'. rewrite Hix, Hsq.
      split; [cbn; eapply rd_insert_eq, Hmd |]. split; [unfold allocated; cbn; by rewrite perms_flag |]. split; [unfold removed; cbn; by rewrite perms_flag |]. done.
Qed.

Lemma shmget_again_spec now p c mac chunks key sz shmflg s hs : inv s hs → enough sz chunks → wp (shmget_again now p c mac chunks key sz shmflg) (gets key sz) s.
Proof.
  intros Hi Hen. unfold shmget_again. cbn zeta. apply wp_bind, wp_get. destruct (Z.eqb_spec key IPC_PRIVATE) as [->|Hk].
  - cbn [negb andb]. change (-1 >=? 0) with false. by eapply allocate_spec.
  - destruct (find_key_spec s hs Hi key Hk) as [->|(g & Hg & Ha & Hr & Hkey)].
    + change (-1 >=? 0) with false. destruct (negb false && _); [apply wp_ret; apply gets_error; [left; by exists hs | done] | by eapply allocate_spec].
    + pose proof (rd_range _ _ _ Hg). destruct (Z.geb_spec (shm_find_segment_by_key key s) 0); [| lia]. by eapply existing_spec.
Qed.

Lemma shmget_spec now p c mac chunks key sz shmflg s : ok s → enough sz chunks → wp (shmget now p c mac chunks key sz shmflg) (gets key sz) s.
Proof.
  intros Hs Hen. apply (wp_start (λ e, Return e 0)); [done | |].
  - intros hs s1 Hi _. by eapply shmget_again_spec.
  - intros e s' He Hd. apply gets_error; [by right | done].
Qed.

(** ** An allocation that fails *)

(** Nothing but memory keeps a segment of the size from being created. *)
Definition room (sz : Z) (s : state) : Prop :=
  0 < sz ∧ u64 (shmmin (info s)) <= sz <= u64 (shmmax (info s)) ∧ shm_nused s < shmmni (info s) ∧
  sz + PAGE_MASK < 2 ^ 64 ∧ u32 (shm_committed s + btoc (total_of sz)) <= shmall (info s).

(** Named entries or handles run out with the error [kret] before the segment
    has all of its memory. *)
Definition refuses (sz : Z) (chunks : list chunk) (kret : Z) : Prop :=
  ∃ n rest, chunks = replicate n (Made true) ++ rest ∧ Z.of_nat n * ANON_MAX_SIZE < total_of sz ∧ refusal kret rest.

Lemma refusal_error kret rest : refusal kret rest → kret ≠ KERN_SUCCESS.
Proof. destruct rest as [|[k|[]] rest]; cbn; [by intros -> | by intros [? ->] | done | by intros ->]. Qed.

(** A free place is left marked. *)
Lemma allocate_refused now p c chunks kret key sz md s hs : inv s hs → room sz s → refuses sz chunks kret →
  wp (shmget_allocate_segment now p c chunks key sz md) (λ r s', r = Return (shm_errno kret) 0 ∧ shm_inited s' = true ∧
    ∃ i g, rd (shmsegs s) i = Ok g ∧ mode (shm_perm g) = SHMSEG_FREE ∧ shmsegs s' = <[Z.to_nat i := making key g]> (shmsegs s)) s.
Proof.
  intros Hi (Hs & Hmm & Hnu & Hb & Hall) (n & rest & -> & Hn & Hr). unfold shmget_allocate_segment. apply wp_bind, wp_get.
  rewrite (proj2 (Z.leb_gt sz 0)), (proj2 (Z.ltb_ge sz _)), Z.gtb_ltb, (proj2 (Z.ltb_ge _ sz)) by lia. cbn [orb]. rewrite Z.geb_leb, (proj2 (Z.leb_gt _ _)) by lia.
  rewrite round_overflow by done. rewrite Z.geb_leb, (proj2 (Z.leb_gt _ _)) by lia. rewrite Z.gtb_ltb, (proj2 (Z.ltb_ge _ _)) by lia.
  apply wp_bind. eapply wp_mono; [by apply (take_place_spec s hs Hi) |]. intros i s0 (-> & g & Hg & Hf & Hq).
  apply wp_bind, (wp_get_seg _ g); [done |]. fold (making key g). apply wp_bind, (wp_put_seg _ g); [done |]. set (s0 := with_segs _ _). apply wp_bind.
  assert (Hm0 : made s0 hs i 0 (making key g)).
  { split; [cbn; by eapply rd_insert_eq | apply Hi | cbn; rewrite (fr_handles _ _ _ Hf); apply Hf | |]; rewrite (fr_handles _ _ _ Hf); [constructor | done]. }
  eapply wp_mono; [pose proof (make_chunks_refused i (total_of sz) kret rest Hr n 0 0 s0 hs (making key g) Hm0) as Hmk; rewrite (fr_handles _ _ _ Hf) in Hmk; by apply Hmk |].
  intros [k lsz] s1 (Hk & hs1 & g1 & sum & Hmd & Hms). cbn in Hk. subst k. apply wp_bind, (wp_get_seg _ g1); [apply Hmd |].
  rewrite (proj2 (Z.eqb_neq _ _) (refusal_error _ _ Hr)). cbn [negb]. apply wp_bind, wp_get, wp_bind. pose proof (md_heap _ _ _ _ _ Hmd) as Hok.
  eapply wp_mono; [apply (free_handles_spec _ _ (hs1 i)); [apply Hmd | apply Hok | by eapply owned_fuel | intros b; by apply (owned_handle _ _ _ _ Hok)] |].
  intros _ s2 (H & O & -> & _ & _). apply wp_bind, (wp_put_seg _ g1); [apply Hmd |]. apply wp_ret. split; [done |].
  pose proof (ms_state _ _ _ _ _ _ _ Hms) as Es. split; [cbn; rewrite Es; apply Hi |]. exists i, g. split; [done |]. split; [apply Hf |].
  cbn. rewrite Es. cbn. rewrite !list_insert_insert_eq. f_equal. rewrite (ms_seg _ _ _ _ _ _ _ Hms). unfold making, set_perm, set_internal. cbn. by rewrite (fr_internal _ _ _ Hf).
Qed.

(** ** A place that is marked *)

(** The key finds a segment that is marked as removed. *)
Definition marked (key : Z) (s : state) : Prop :=
  shm_inited s = true ∧ key ≠ IPC_PRIVATE ∧ ∃ g, rd (shmsegs s) (shm_find_segment_by_key key s) = Ok g ∧ removed g = true.

Lemma find_seg_only f l : ∀ k j g, rd l j = Ok g → f g = true → (∀ x, x ∈ take (Z.to_nat j) l → f x = false) → find_seg f l k = k + j.
Proof.
  induction l as [|x l IH]; intros k j g [Hj Hg]%rd_lookup Hf Hno; [done |]. cbn [find_seg]. destruct (decide (j = 0)) as [->|Hne].
  - injection Hg as ->. rewrite Hf. lia.
  - assert (Hs : Z.to_nat j = S (Z.to_nat (j - 1))) by lia. rewrite Hs in Hg, Hno. rewrite (Hno x) by constructor. rewrite (IH (k + 1) (j - 1) g); [lia | apply rd_lookup; split; [lia | done] | done |].
    intros z Hz. apply Hno. by constructor.
Qed.

Lemma find_seg_none f l : ∀ k, 0 <= k → find_seg f l k = -1 → ∀ x, x ∈ l → f x = false.
Proof.
  induction l as [|y l IH]; intros k Hk H x Hx; [by apply elem_of_nil in Hx |]. cbn [find_seg] in H. destruct (f y) eqn:Ey; [lia |].
  apply elem_of_cons in Hx as [->|Hx]; [done | by apply (IH (k + 1)); [lia | |]].
Qed.

Lemma find_seg_insert f l : ∀ k i g g', rd l i = Ok g → f g' = f g → find_seg f (<[Z.to_nat i := g']> l) k = find_seg f l k.
Proof.
  induction l as [|x l IH]; intros k i g g' [Hi Hg]%rd_lookup Hf; [done |]. destruct (decide (i = 0)) as [->|Hne]; [injection Hg as ->; change (<[Z.to_nat 0 := g']> (g :: l)) with (g' :: l); cbn [find_seg]; by rewrite Hf |].
  assert (Hs : Z.to_nat i = S (Z.to_nat (i - 1))) by lia. rewrite Hs in *. change (<[S (Z.to_nat (i - 1)) := g']> (x :: l)) with (x :: <[Z.to_nat (i - 1) := g']> l). cbn [find_seg]. rewrite (IH (k + 1) (i - 1) g g'); [done | apply rd_lookup; split; [lia | done] | done].
Qed.

(** The place of an allocation that has failed is marked. *)
Lemma refused_marked key s s' i g : shm_inited s' = true → key ≠ IPC_PRIVATE → shm_find_segment_by_key key s = -1 → rd (shmsegs s) i = Ok g →
  shmsegs s' = <[Z.to_nat i := making key g]> (shmsegs s) → marked key s'.
Proof.
  intros Hin Hk Hno Hg Hs. split; [done |]. split; [done |]. exists (making key g). split; [| done]. unfold shm_find_segment_by_key. rewrite Hs.
  rewrite (find_seg_only _ _ 0 i (making key g)); [by eapply rd_insert_eq | by eapply rd_insert_eq | cbn; by rewrite Z.eqb_refl |].
  intros x Hx. rewrite take_insert_ge in Hx by lia. apply (find_seg_none _ (shmsegs s) 0 ltac:(done) Hno). by apply elem_of_take in Hx as (k & ? & _); eapply list_elem_of_lookup_2.
Qed.

(** Asking for a key that is marked sleeps, and the key stays marked. *)
Lemma marked_sleeps now p c mac chunks key sz flg s : marked key s →
  wp (shmget_again now p c mac chunks key sz flg) (λ r s', r = AsleepLocked key sz flg ∧ marked key s') s.
Proof.
  intros (Hin & Hk & g & Hg & Hr). unfold shmget_again. cbn zeta. apply wp_bind, wp_get. rewrite (proj2 (Z.eqb_neq _ _) Hk). pose proof (rd_range _ _ _ Hg).
  rewrite Z.geb_leb, (proj2 (Z.leb_le _ _)) by lia. unfold shmget_existing. apply wp_bind, (wp_get_seg _ g); [done |]. fold (removed g). rewrite Hr.
  apply wp_bind, (wp_put_seg _ g); [done |]. apply wp_ret. split; [done |]. set (g' := set_mode _ g).
  assert (Hfl : ∀ f, tst (mode (shm_perm g')) f = tst (mode (shm_perm g)) f || tst SHMSEG_WANTED f) by (intros f; apply tst_lor).
  split; [done |]. split; [done |]. exists g'. split.
  - set (i := shm_find_segment_by_key key s) in *. set (s' := with_segs _ s). assert (shm_find_segment_by_key key s' = i) as -> by
      (apply (find_seg_insert _ (shmsegs s) 0 i g g' Hg); rewrite Hfl; cbn; by rewrite orb_false_r). cbn. by eapply rd_insert_eq.
  - unfold removed. by rewrite Hfl, (Hr : tst (mode (shm_perm g)) SHMSEG_REMOVED = true).
Qed.
