(* ===== verification/ShmThms.v ===== *)
(** * System V shared memory: runs and theorems

    Any number of processes make calls, fork, execute programs and exit, in
    any order. *)

From stdpp Require Import functions.
From S2P Require Import Prelude Chain Ipc Shm ShmInv ShmHeap ShmOps ShmCalls ShmAttach ShmGet.

(** [results] has what the last call of a process has returned; [mutex] is the
    process that holds the lock of the subsystem; [asleep] has the processes
    that sleep in [shmget], and their arguments. *)
Record sys := Sys { kernel : state; results : gmap nat out; mutex : option nat; asleep : gmap nat (Z * Z * Z) }.

(** A process waits while another one holds the lock. *)
Definition SYSV_SHM_SUBSYS_LOCK (p : nat) (y : sys) : option sys :=
  match mutex y with None => Some (Sys (kernel y) (results y) (Some p) (asleep y)) | Some _ => None end.
Definition SYSV_SHM_SUBSYS_UNLOCK (y : sys) : sys := Sys (kernel y) (results y) None (asleep y).

Inductive action :=
  | Get (c : cred) (mac now : Z) (chunks : list chunk) (key sz shmflg : Z)
  | At (pgmask now : Z) (junk : nat → Z) (c : cred) (mac rv new_va : Z) (rvs : list Z) (id shmaddr shmflg : Z)
  | Dt (pgmask now mac rv shmaddr : Z)
  | Ctl (pgmask now : Z) (is64 : bool) (c : cred) (mac eval : Z) (b : shmid_ds) (id : Z) (cmd : shmctl_cmd)
  | Fork (child : nat)
  | Exec (pgmask now : Z)
  | Exit (pgmask now : Z) (rvs : list Z)
  | Sysctl (which : limit) (err v : Z)
  | Woken (c : cred) (mac now : Z) (chunks : list chunk) (err : Z).

(** The body of a call has come to its end, where the lock is released, or to
    the sleep, where it is not. *)
Definition finish (p : nat) (y : sys) (r : out) (s : state) : sys :=
  let y := Sys s (<[p := r]> (results y)) (mutex y) (asleep y) in
  match r with
  | AsleepLocked key sz flg => Sys (kernel y) (results y) (mutex y) (<[p := (key, sz, flg)]> (asleep y))
  | _ => SYSV_SHM_SUBSYS_UNLOCK y
  end.

Definition call (p : nat) (y : sys) (m : M out) : option (res sys) :=
  y ← SYSV_SHM_SUBSYS_LOCK p y; Some ('(r, s) ← m (kernel y); Ok (finish p y r s)).

(** A new process gets the table of its parent if there is one, and a process
    that ends or executes a program gives its own up; whether there is one is
    looked up without the lock. *)
Definition with_table (p : nat) (y : sys) (m : M ()) : option (res sys) :=
  match vm_shm (kernel y) !! p with
  | None => Some (Ok y)
  | Some _ =>
      y ← SYSV_SHM_SUBSYS_LOCK p y;
      Some ('(_, s) ← m (kernel y); Ok (SYSV_SHM_SUBSYS_UNLOCK (Sys s (results y) (mutex y) (asleep y))))
  end.

Definition step (p : nat) (a : action) (y : sys) : option (res sys) :=
  match a with
  | Get c mac now chunks key sz flg => call p y (shmget now p c mac chunks key sz flg)
  | At pgmask now junk c mac rv new_va rvs id addr flg => call p y (shmat pgmask now p junk c mac rv new_va rvs id addr flg)
  | Dt pgmask now mac rv addr => call p y (shmdt pgmask now p mac rv addr)
  | Ctl pgmask now is64 c mac eval b id cmd => call p y (shmctl pgmask now is64 c mac eval b id cmd)
  | Fork child => with_table p y (_ ← shmfork p child; mret ())
  | Exec pgmask now => with_table p y (shmexec pgmask now p)
  | Exit pgmask now rvs => with_table p y (shmexit pgmask now p (λ j, default KERN_SUCCESS (rvs !! j)))
  | Sysctl which err v => call p y (e ← sysctl_shminfo which err v; mret (Return e 0))
  | Woken c mac now chunks err =>
      (* the lock is still held *)
      '(key, sz, flg) ← asleep y !! p;
      Some ('(r, s) ← shmget_wake now p c mac chunks err key sz flg (kernel y);
            Ok (finish p (Sys (kernel y) (results y) (mutex y) (delete p (asleep y))) r s))
  end.

Definition boot (i : shminfo) (hp : list bool) : sys := Sys (State i false 0 0 0 [] ∅ ∅ 1 ∅ hp [] []) ∅ None ∅.

(** Calls one after the other; what a process cannot do at that time, because
    it has to wait for the lock or is not asleep, is left out. *)
Fixpoint run (es : list (nat * action)) (y : sys) : res sys :=
  match es with
  | [] => Ok y
  | (p, a) :: es => match step p a y with None => run es y | Some r => y ← r; run es y end
  end.

(** There is memory for the named entries of a segment that is created and
    their handles; page masks are those of pages of up to 4096 bytes and
    identifiers have 32 bits; a segment has fewer than 32768 entries, and the
    table from 1 to 65536 places; a new process has no table; what is mapped can
    be unmapped when a process ends. *)
Definition action_ok (p : nat) (a : action) (y : sys) : Prop :=
  let s := kernel y in
  match a with
  | Get _ _ _ chunks _ sz _ => enough sz chunks
  | At pgmask _ _ _ _ _ _ _ id _ _ => page_mask pgmask ∧ - 2 ^ 31 <= id < 2 ^ 31 ∧ total (IPCID_TO_IX id) (vm_shm s) + 1 < 2 ^ 15
  | Fork child => vm_shm s !! child = None ∧ ∀ t, vm_shm s !! p = Some t → ∀ i, total i (vm_shm s) + cnt (at_seg i) t < 2 ^ 15
  | Exit _ _ rvs => Forall (λ rv, rv = KERN_SUCCESS) rvs
  | Sysctl Shmmni _ v => 0 < v <= 2 ^ 16
  | _ => True
  end.

Fixpoint valid (es : list (nat * action)) (y : sys) : Prop :=
  match es with
  | [] => True
  | (p, a) :: es => action_ok p a y ∧ match step p a y with None => valid es y | Some (Ok y') => valid es y' | Some Fault => True end
  end.

(** ** Every step *)

Definition good (y : sys) : Prop := ok (kernel y) ∧ mutex y = None ∧ asleep y = ∅.

Lemma with_info_inv s hs i : inv s hs → shmmni i = shmmni (info s) → inv (with_info i s) hs.
Proof.
  intros [] Hm. split; try done; cbn; rewrite Hm; done.
Qed.

Lemma sysctl_spec which err v s : ok s → (which = Shmmni → 0 < v <= 2 ^ 16) → wp (sysctl_shminfo which err v) (λ _, ok) s.
Proof.
  intros Hs Hv. unfold sysctl_shminfo. apply wp_bind, wp_get. cbn zeta. destruct (shm_inited s && _) eqn:Ei; [by apply wp_ret |]. destruct (negb (err =? 0)); [by apply wp_ret |].
  assert (Hok : ∀ i, (which = Shmmni ∨ shmmni i = shmmni (info s)) → (which = Shmmni → shmmni i = v) → ok (with_info i s)).
  { intros i Hi Hw. destruct Hs as [[hs H]|Hd].
    - left. exists hs. apply with_info_inv; [done |]. destruct Hi as [->|]; [| done]. by rewrite (iv_init _ _ H) in Ei.
    - right. split; try apply Hd. cbn. destruct Hi as [Hm| ->]; [rewrite Hw by done; by apply Hv | apply Hd]. }
  destruct which; (destruct (_ || _) || destruct (v <? 0)); first [by apply wp_ret | apply wp_bind, wp_modify_shm, wp_ret, Hok; cbn; naive_solver].
Qed.

Lemma call_good p y m : mutex y = None → asleep y = ∅ → wp m fine (kernel y) → ∃ y', call p y m = Some (Ok y') ∧ good y'.
Proof.
  intros Hn Ha H. destruct (wp_Ok _ _ _ H) as (r & s & Hm & Hs & Hr). unfold call, SYSV_SHM_SUBSYS_LOCK. rewrite Hn. cbn. rewrite Hm. cbn. eexists. split; [done |]. by destruct r.
Qed.

Lemma step_good p a y : good y → action_ok p a y → match step p a y with None => True | Some r => ∃ y', r = Ok y' ∧ good y' end.
Proof.
  intros (Hs & Hn & Has) Ha. unfold step.
  assert (Hcall : ∀ m, wp m fine (kernel y) → match call p y m with None => True | Some r => ∃ y', r = Ok y' ∧ good y' end).
  { intros m Hm. destruct (call_good p y m Hn Has Hm) as (y' & -> & Hg). by exists y'. }
  assert (Htab : ∀ m, (∀ t hs, inv (kernel y) hs → vm_shm (kernel y) !! p = Some t → wp m (λ _, ok) (kernel y)) → match with_table p y m with None => True | Some r => ∃ y', r = Ok y' ∧ good y' end).
  { intros m Hm. unfold with_table. destruct (vm_shm (kernel y) !! p) as [t|] eqn:Et; [| by exists y]. destruct Hs as [[hs Hi]|Hd]; [| by rewrite (dn_tables _ Hd), lookup_empty in Et].
    unfold SYSV_SHM_SUBSYS_LOCK. rewrite Hn. cbn. destruct (wp_Ok _ _ _ (Hm t hs Hi eq_refl)) as ([] & s & -> & Hs). cbn. eexists. by split; [done |]. }
  destruct a; cbn in Ha.
  - apply Hcall. eapply wp_mono; [by apply shmget_spec |]. intros r s [? Hr]. split; [done |]. by destruct r.
  - apply Hcall. destruct Ha as (? & ? & ?). eapply wp_mono; [by apply shmat_spec |]. by intros r s [? _].
  - apply Hcall. by apply shmdt_spec.
  - apply Hcall. by apply shmctl_spec.
  - apply Htab. intros t hs Hi Ht. destruct Ha as [Hc Hb]. apply wp_bind. eapply wp_mono; [by apply (shmfork_spec p child t _ hs); [| | | apply Hb] |]. done.
  - apply Htab. intros t hs Hi Ht. by eapply shmcleanup_spec.
  - apply Htab. intros t hs Hi Ht. eapply shmcleanup_spec; [done | done |]. intros _ j. destruct (rvs !! j) as [rv|] eqn:E; [| done].
    rewrite Forall_forall in Ha. by apply Ha, (list_elem_of_lookup_2 _ j).
  - apply Hcall. apply wp_bind. eapply wp_mono; [apply sysctl_spec; [done |] |].
    + intros ->. done.
    + intros e s He. by apply wp_ret.
  - by rewrite Has.
Qed.

Lemma run_good es : ∀ y, good y → valid es y → ∃ y', run es y = Ok y' ∧ good y'.
Proof.
  induction es as [|[p a] es IH]; intros y Hy Hv; [by exists y |]. cbn [run valid] in *. destruct Hv as [Ha Hv]. pose proof (step_good p a y Hy Ha) as H.
  destruct (step p a y) as [r|]; [| by apply IH]. destruct H as (y' & -> & Hy'). cbn. by apply IH.
Qed.

Lemma boot_good i hp : 0 < shmmni i <= 2 ^ 16 → good (boot i hp).
Proof. intros Hi. split; [right; by split | done]. Qed.

(** ** Runs that can be evaluated *)

(** More than the entries of all tables. *)
Definition all_entries (m : gmap nat (list shmmap_state)) : Z := map_fold (λ _ t n, Z.of_nat (length t) + n) 0 m.

Lemma total_all i m : total i m <= all_entries m.
Proof.
  unfold total, all_entries. induction m as [|p t m Hp Hfold IH] using map_first_key_ind; [done |].
  rewrite !map_fold_insert_first_key by done. pose proof (cnt_le (at_seg i) t). lia.
Qed.

Definition action_okb (p : nat) (a : action) (y : sys) : bool :=
  let s := kernel y in
  match a with
  | Get _ _ _ chunks _ sz _ => forallb (λ c, match c with Made true => true | _ => false end) chunks && (sz <=? Z.of_nat (length chunks) * ANON_MAX_SIZE)
  | At pgmask _ _ _ _ _ _ _ id _ _ => (pgmask =? PAGE_MASK) && (0 <=? id) && (id <? 2 ^ 31) && (all_entries (vm_shm s) + 1 <? 2 ^ 15)
  | Fork child => negb (bool_decide (is_Some (vm_shm s !! child))) && (all_entries (vm_shm s) + Z.of_nat (length (default [] (vm_shm s !! p))) <? 2 ^ 15)
  | Exit _ _ rvs => forallb (Z.eqb KERN_SUCCESS) rvs
  | Sysctl Shmmni _ v => (0 <? v) && (v <=? 2 ^ 16)
  | _ => true
  end.

Lemma shm_action_okb_sound p a y : action_okb p a y = true → action_ok p a y.
Proof.
  destruct a as [c mac now chunks key sz flg|pgmask now junk c mac rv nv rvs id addr flg| |  |child| |pgmask now rvs|which err v|]; cbn; try done.
  - intros [Hc Hs]%andb_true_iff. split; [| lia]. apply Forall_forall. intros x Hx. rewrite forallb_forall in Hc. specialize (Hc x). rewrite <- list_elem_of_In in Hc. by destruct x as [|[]]; [specialize (Hc Hx) | | specialize (Hc Hx)].
  - intros H. pose proof (total_all (IPCID_TO_IX id) (vm_shm (kernel y))). split; [exists 12; change (2 ^ 12 - 1) with PAGE_MASK; lia | lia].
  - intros [Hc Hb]%andb_true_iff. split; [destruct (vm_shm (kernel y) !! child); [by rewrite bool_decide_true in Hc | done] |]. intros t Ht i. rewrite Ht in Hb. cbn in Hb.
    pose proof (total_all i (vm_shm (kernel y))). pose proof (cnt_le (at_seg i) t). lia.
  - intros H. apply Forall_forall. intros x Hx. rewrite forallb_forall in H. specialize (H x). rewrite <- list_elem_of_In in H. specialize (H Hx). lia.
  - destruct which; try done. lia.
Qed.

Fixpoint validb (es : list (nat * action)) (y : sys) : bool :=
  match es with
  | [] => true
  | (p, a) :: es => action_okb p a y && match step p a y with None => validb es y | Some (Ok y') => validb es y' | Some Fault => true end
  end.

Lemma shm_validb_sound es : ∀ y, validb es y = true → valid es y.
Proof.
  induction es as [|[p a] es IH]; intros y; [done |]. cbn. intros [Ha Hv]%andb_true_iff. split; [by apply shm_action_okb_sound |]. destruct (step p a y) as [[y'|]|]; [by apply IH | done | by apply IH].
Qed.

Definition root : cred := Cred 0 0 true (λ _, true).
Definition no_ds : shmid_ds := ShmidDs (IpcPerm 0 0 0 0 0 0 0) 0 0 0 0 0 0 0 0.
Definition id0 : Z := 0x10000.

Definition get1 (p : nat) (key sz : Z) (chunks : list chunk) : nat * action := (p, Get root 0 1 chunks key sz (Z.lor IPC_CREAT 0x180)).
Definition at1 (p : nat) (id addr : Z) : nat * action := (p, At PAGE_MASK 2 (λ _, 0) root 0 0 addr [] id 0 0).
Definition dt1 (p : nat) (addr : Z) : nat * action := (p, Dt PAGE_MASK 3 0 0 addr).
Definition rm1 (p : nat) (id : Z) : nat * action := (p, Ctl PAGE_MASK 4 true root 0 0 no_ds id IPC_RMID).

Definition start : sys := boot shminfo_init (replicate 40 true).

(** A segment is created, attached, shared with a child, and removed; the
    parent detaches it and the child ends. *)
Definition demo : list (nat * action) :=
  [get1 1 77 5000 [Made true]; at1 1 id0 0x100000; (1%nat, Fork 2); rm1 1 id0; dt1 1 0x100000; (2%nat, Exit PAGE_MASK 5 [])].

Definition usage (y : sys) : Z * nat := (shm_nused (kernel y), size (objects (kernel y))).

Lemma demo_ends : (y ← run (take 5 demo) start; Ok (usage y)) = Ok (1, 1%nat) ∧ (y ← run demo start; Ok (usage y)) = Ok (0, 0%nat).
Proof. split; vm_compute; reflexivity. Qed.

(** ** All runs *)

(** What is in use adds up. *)
Record accounted (s : state) : Prop := {
  ac_count i g : rd (shmsegs s) i = Ok g → allocated g = true → shm_nattch g = total i (vm_shm s) ∧ (removed g = true → 0 < shm_nattch g);
  ac_entry p t e : vm_shm s !! p = Some t → e ∈ t → SHMID_IS_VALID (shmid e) = true →
    ∃ g, rd (shmsegs s) (IPCID_TO_IX (shmid e)) = Ok g ∧ allocated g = true ∧ _seq (shm_perm g) = IPCID_TO_SEQ (shmid e);
  ac_memory i g : rd (shmsegs s) i = Ok g → allocated g = true → ∃ l, path (hnext (handles s)) (shm_internal g) l 0 ∧ hsizes (handles s) l = total_of (shm_segsz g) ∧
    ∀ a, a ∈ l → ∃ h, handles s !! a = Some h ∧ shm_object h ∈ objects s;
  ac_leak o : o ∈ objects s → ∃ i g l a h, rd (shmsegs s) i = Ok g ∧ allocated g = true ∧ path (hnext (handles s)) (shm_internal g) l 0 ∧ a ∈ l ∧ handles s !! a = Some h ∧ shm_object h = o;
  ac_nused : shm_nused s = cnt allocated (shmsegs s)
}.

Lemma inv_accounted s hs : inv s hs → accounted s.
Proof.
  intros Hi. split.
  - intros i g Hg Ha. destruct (seg_used _ _ Hi i g Hg Ha) as [_ Hu]. rewrite (us_nattch _ _ _ _ Hu). split; [done |]. intros Hr. by apply (us_removed _ _ _ _ Hu).
  - intros p t e Ht He Hv. apply list_elem_of_lookup_1 in He as [k Hk]. apply (table_entry _ t (Z.of_nat k)); [by eapply iv_tables | apply rd_lookup; split; [lia | by rewrite Nat2Z.id] | done].
  - intros i g Hg Ha. destruct (seg_used _ _ Hi i g Hg Ha) as [_ Hu]. exists (hs i). split; [apply Hu |]. split; [apply Hu |]. intros a Hin.
    destruct (owned_handle _ _ _ _ (iv_heap _ _ Hi) i a Hin) as (_ & h & Hh & Ho & Hin'). exists h. by rewrite Ho.
  - intros o Ho. pose proof (iv_heap _ _ Hi) as Hok. apply (hp_objects _ _ _ _ Hok) in Ho as Hs. destruct Hs as [h Hh]. destruct (proj1 (hp_owned _ _ _ _ Hok (o + 1))) as [i Hin]; [by exists h |].
    assert (Hr : 0 <= i < shmmni (info s)) by (destruct (decide (0 <= i < shmmni (info s))) as [|Hn]; [done |]; rewrite (iv_out _ _ Hi i Hn) in Hin; by apply elem_of_nil in Hin).
    destruct (seg_exists _ _ Hi i Hr) as [g Hg]. destruct (iv_seg _ _ Hi i g Hg) as [_ [Hf|Hu]]; [rewrite (fr_handles _ _ _ Hf) in Hin; by apply elem_of_nil in Hin |].
    exists i, g, (hs i), (o + 1), h. split; [done |]. split; [apply Hu |]. split; [apply Hu |]. split; [done |]. split; [done |]. rewrite (hp_object _ _ _ _ Hok _ h) by done. lia.
  - apply Hi.
Qed.

(** C6: in every valid run of any number of processes that create, attach,
    detach, control and remove segments, fork, execute programs and exit, no
    call faults: nothing is used after it has been freed or released twice, and
    nothing panics; no call sleeps, and the lock is free again after each; the
    count of every segment is the number of entries that processes have for it,
    every entry is for a segment that still exists, a removed segment is
    attached by somebody, segments have all of the memory they should, and all
    named entries belong to segments.  A run is valid when named entries and
    their handles can be made ([shmget_wedges] shows what happens otherwise), no
    segment gets 32768 entries ([shm_nattch_wraps]), the table has from 1 to
    65536 places, page masks and identifiers are in range, a new process has no
    table yet, and what is mapped can be unmapped when a process ends. *)
Theorem shm_sound i hp es : 0 < shmmni i <= 2 ^ 16 → valid es (boot i hp) →
  ∃ y, run es (boot i hp) = Ok y ∧ mutex y = None ∧ asleep y = ∅ ∧ (shm_inited (kernel y) = true → accounted (kernel y)).
Proof.
  intros Hi Hv. destruct (run_good es _ (boot_good i hp Hi) Hv) as (y & Hy & Hs & Hn & Ha). exists y. split; [done |]. split; [done |]. split; [done |]. intros Hin.
  destruct Hs as [[hs H]|Hd]; [by eapply inv_accounted | by rewrite (dn_init _ Hd) in Hin].
Qed.

Lemma shm_sound_witness : ∃ y, run demo start = Ok y ∧ mutex y = None ∧ asleep y = ∅ ∧ (shm_inited (kernel y) = true → accounted (kernel y)).
Proof. apply (shm_sound shminfo_init); [split; reflexivity || discriminate | apply shm_validb_sound; vm_compute; reflexivity]. Defined.

Section reached.
Context (i : shminfo) (hp : list bool) (es : list (nat * action)) (y : sys).
Hypotheses (Hi : 0 < shmmni i <= 2 ^ 16) (Hv : valid es (boot i hp)) (Hrun : run es (boot i hp) = Ok y).

Lemma reached_good : good y.
Proof. destruct (run_good es _ (boot_good i hp Hi) Hv) as (y' & Hy & Hg). rewrite Hrun in Hy. by injection Hy as <-. Qed.

End reached.

(** C20: when [shmat] succeeds it has reserved the pages of the segment and
    mapped the named entries of the segment over them, one behind the other
    without a gap, with the protection that was asked for, and the table of
    the process has an entry for it. *)
Theorem shmat_maps i hp es y pgmask now p junk c mac rv new_va rvs id addr flg v s' : 0 < shmmni i <= 2 ^ 16 → valid es (boot i hp) → run es (boot i hp) = Ok y →
  action_ok p (At pgmask now junk c mac rv new_va rvs id addr flg) y → shmat pgmask now p junk c mac rv new_va rvs id addr flg (kernel y) = Ok (Return 0 v, s') →
  attaches pgmask p id flg v (kernel y) s'.
Proof.
  intros Hi Hv Hrun (Hp & Hid & Hb) Hm. destruct (reached_good i hp es y Hi Hv Hrun) as [Hs _].
  pose proof (shmat_spec pgmask now p junk c mac rv new_va rvs id addr flg (kernel y) Hs Hp Hid Hb) as H. unfold wp in H. rewrite Hm in H. by apply H.
Qed.

(** What a run that is evaluated has led to. *)
Lemma shm_check {A} es (f : sys → A) x y : run es start = Ok y → (y ← run es start; Ok (f y)) = Ok x → f y = x.
Proof. intros ->. cbn. by intros [= ->]. Qed.

Lemma shmat_maps_witness : ∃ y s', run (take 1 demo) start = Ok y ∧ attaches PAGE_MASK 1 id0 0 0x100000 (kernel y) s'.
Proof.
  assert (Hv : valid (take 1 demo) start) by (apply shm_validb_sound; vm_compute; reflexivity).
  destruct (run_good _ _ (boot_good shminfo_init (replicate 40 true) ltac:(split; reflexivity || discriminate)) Hv) as (y & Hy & _). exists y.
  assert (Hr : match shmat PAGE_MASK 2 1 (λ _, 0) root 0 0 0x100000 [] id0 0 0 (kernel y) with Ok (Return 0 v, _) => v | _ => 0 end = 0x100000)
    by (apply (shm_check (take 1 demo) (λ y, match shmat PAGE_MASK 2 1 (λ _, 0) root 0 0 0x100000 [] id0 0 0 (kernel y) with Ok (Return 0 v, _) => v | _ => 0 end) 0x100000 y Hy); vm_compute; reflexivity).
  assert (Ha : action_okb 1 (At PAGE_MASK 2 (λ _, 0) root 0 0 0x100000 [] id0 0 0) y = true)
    by (apply (shm_check (take 1 demo) (λ y, action_okb 1 (At PAGE_MASK 2 (λ _, 0) root 0 0 0x100000 [] id0 0 0) y) true y Hy); vm_compute; reflexivity).
  destruct (shmat PAGE_MASK 2 1 (λ _, 0) root 0 0 0x100000 [] id0 0 0 (kernel y)) as [[[e v| |] s']|] eqn:Em; try discriminate. destruct e; try discriminate. rewrite Hr in Em. exists s'. split; [exact Hy |].
  apply (shmat_maps shminfo_init (replicate 40 true) (take 1 demo) y PAGE_MASK 2 1 (λ _, 0) root 0 0 0x100000 [] id0 0 0 0x100000 s'); [split; reflexivity || discriminate | exact Hv | exact Hy | apply shm_action_okb_sound, Ha | exact Em].
Defined.

(** *** The last process *)

Lemma shmdt_detaches pgmask now p t k e g addr s hs : inv s hs → vm_shm s !! p = Some t → find_va addr t 0 = Ok (k, e) → SHMID_IS_VALID (shmid e) = true →
  rd (shmsegs s) (IPCID_TO_IX (shmid e)) = Ok g → wp (shmdt pgmask now p 0 KERN_SUCCESS addr) (λ r s', r = Return 0 0 ∧ ∃ hs', detached now p t k e g s hs s' hs') s.
Proof.
  intros Hi Ht Hf Hv Hg. destruct (iv_tables _ _ Hi p t Ht) as (l & e0 & Et & He0 & _). destruct (find_va_spec addr e0 He0 l 0) as (j & x & Hf' & Hk & _).
  rewrite <- Et, Hf in Hf'. injection Hf' as Ek <-. rewrite Z.add_0_l in Ek. subst j. rewrite <- Et in Hk. destruct (table_entry _ _ _ _ (iv_tables _ _ Hi p t Ht) Hk Hv) as (g' & Hg' & Ha & _).
  rewrite Hg in Hg'. injection Hg' as <-. unfold shmdt. apply wp_bind, (wp_of_Ok _ _ _ 0 s); [unfold shminit; rewrite st_bind_unfold; cbn; by rewrite (iv_init _ _ Hi) |].
  cbn [negb Z.eqb]. apply wp_bind, wp_get. rewrite Ht. apply wp_bind, (wp_lift_shm _ (k, e)); [done |]. rewrite Hv. cbn [negb]. apply wp_bind, (wp_get_seg _ g); [done |]. apply wp_bind.
  eapply wp_mono; [by apply (delete_mapping_spec s hs Hi p t k e g now) |]. intros r s' [(_ & _ & Hne & _)|(-> & hs' & Hd)]; [done |]. apply wp_ret. split; [done |]. by exists hs'.
Qed.

(** The named entries of the handles [l]. *)
Definition entry_of (s : state) (l : list Z) (o : Z) : Prop := ∃ a h, a ∈ l ∧ handles s !! a = Some h ∧ shm_object h = o.

Lemma entry_of_handle s hs i o : heap_ok (handles s) (objects s) (fresh s) hs → entry_of s (hs i) o ↔ o + 1 ∈ hs i.
Proof.
  intros Hok. split.
  - intros (a & h & Ha & Hh & Ho). rewrite (hp_object _ _ _ _ Hok a h Hh) in Ho. by replace (o + 1) with a by lia.
  - intros Ha. destruct (owned_handle _ _ _ _ Hok i _ Ha) as (_ & h & Hh & Ho & _). exists (o + 1), h. split; [done |]. split; [done |]. lia.
Qed.

(** The named entries when the handles of [i] are gone. *)
Lemma freed_objects H O n hs H' O' n' i : heap_ok H O n hs → heap_ok H' O' n' (<[i := []]> hs) → ∀ o, o ∈ O' ↔ o ∈ O ∧ o + 1 ∉ hs i.
Proof.
  intros Hok Hok' o. rewrite (hp_objects _ _ _ _ Hok'), (hp_objects _ _ _ _ Hok), (hp_owned _ _ _ _ Hok'), (hp_owned _ _ _ _ Hok). split.
  - intros (j & Hj). destruct (decide (j = i)) as [->|Hne]; [rewrite fn_lookup_insert in Hj; by apply elem_of_nil in Hj |]. rewrite fn_lookup_insert_ne in Hj by done.
    split; [by exists j |]. intros Hin. by destruct (Hne (hp_disj _ _ _ _ Hok _ _ _ Hj Hin)).
  - intros [[j Hj] Hn]. exists j. rewrite fn_lookup_insert_ne; [done |]. intros <-. by apply Hn.
Qed.

Lemma detached_objects now p t k e g s hs s' hs' : inv s hs → detached now p t k e g s hs s' hs' →
  ∀ o, o ∈ objects s' ↔ o ∈ objects s ∧ ¬ (last_one g = true ∧ entry_of s (hs (IPCID_TO_IX (shmid e))) o).
Proof.
  intros Hi (Hi' & _ & _ & _ & Hhs) o. pose proof (iv_heap _ _ Hi) as Hok. pose proof (iv_heap _ _ Hi') as Hok'. rewrite (entry_of_handle _ _ _ _ Hok), Hhs in *. destruct (last_one g).
  - rewrite (freed_objects _ _ _ _ _ _ _ _ Hok Hok'). naive_solver.
  - rewrite (hp_objects _ _ _ _ Hok'), (hp_objects _ _ _ _ Hok), (hp_owned _ _ _ _ Hok'), (hp_owned _ _ _ _ Hok). naive_solver.
Qed.

(** C15: a process that detaches a segment gives its entry up and leaves the
    segment as it is but for the count and the time; only when the segment has
    been removed and this was the last entry is the place free again, and then
    exactly the named entries of the segment are released. *)
Theorem shm_last_detach i hp es y pgmask now p t k e g addr : 0 < shmmni i <= 2 ^ 16 → valid es (boot i hp) → run es (boot i hp) = Ok y →
  vm_shm (kernel y) !! p = Some t → find_va addr t 0 = Ok (k, e) → SHMID_IS_VALID (shmid e) = true → rd (shmsegs (kernel y)) (IPCID_TO_IX (shmid e)) = Ok g →
  ∃ s' l, shmdt pgmask now p 0 KERN_SUCCESS addr (kernel y) = Ok (Return 0 0, s') ∧ vm_shm s' = <[p := <[Z.to_nat k := gone e]> t]> (vm_shm (kernel y)) ∧
    shmsegs s' = <[Z.to_nat (IPCID_TO_IX (shmid e)) := if last_one g then freed_seg (less now g) else less now g]> (shmsegs (kernel y)) ∧
    path (hnext (handles (kernel y))) (shm_internal g) l 0 ∧ ∀ o, o ∈ objects s' ↔ o ∈ objects (kernel y) ∧ ¬ (last_one g = true ∧ entry_of (kernel y) l o).
Proof.
  intros Hi Hv Hrun Ht Hf Hva Hg. destruct (reached_good i hp es y Hi Hv Hrun) as [[[hs Hin]|Hd] _]; [| by rewrite (dn_tables _ Hd), lookup_empty in Ht].
  destruct (wp_Ok _ _ _ (shmdt_detaches pgmask now p t k e g addr _ hs Hin Ht Hf Hva Hg)) as (r & s' & Hr & -> & hs' & Hdet). exists s', (hs (IPCID_TO_IX (shmid e))).
  split; [done |]. pose proof (detached_objects _ _ _ _ _ _ _ _ _ _ Hin Hdet) as Hobj. destruct Hdet as (Hin' & _ & Hm & Hsegs & _). split; [done |]. split; [done |]. split; [| done].
  destruct (iv_seg _ _ Hin _ g Hg) as [_ [Hfr|Hu]]; [| apply Hu]. rewrite (fr_internal _ _ _ Hfr), (fr_handles _ _ _ Hfr). done.
Qed.

Definition last_entry : shmmap_state := ShmmapState 0x100000 id0.
Definition last_seg : shmid_ds := ShmidDs (IpcPerm 0 0 0 0 0xd80 1 0) 5000 1 1 1 2 0 1 2.

Lemma shm_last_detach_witness : ∃ y s' l, run (take 2 demo ++ [rm1 1 id0]) start = Ok y ∧ shmdt PAGE_MASK 9 1 0 0 0x100000 (kernel y) = Ok (Return 0 0, s') ∧
  ∀ o, o ∈ objects s' ↔ o ∈ objects (kernel y) ∧ ¬ (last_one last_seg = true ∧ entry_of (kernel y) l o).
Proof.
  set (es := take 2 demo ++ [rm1 1 id0]). assert (Hv : valid es start) by (apply shm_validb_sound; vm_compute; reflexivity).
  destruct (run_good _ _ (boot_good shminfo_init (replicate 40 true) ltac:(split; reflexivity || discriminate)) Hv) as (y & Hy & _). exists y.
  assert (Ht : vm_shm (kernel y) !! 1%nat = Some (last_entry :: tail (new_table 8 (λ _, 0)))) by (apply (shm_check es (λ y, vm_shm (kernel y) !! 1%nat) _ y Hy); vm_compute; reflexivity).
  assert (Hg : rd (shmsegs (kernel y)) 0 = Ok last_seg) by (apply (shm_check es (λ y, rd (shmsegs (kernel y)) 0) _ y Hy); vm_compute; reflexivity).
  destruct (shm_last_detach shminfo_init (replicate 40 true) es y PAGE_MASK 9 1 (last_entry :: tail (new_table 8 (λ _, 0))) 0 last_entry last_seg 0x100000) as (s' & l & Hr & _ & _ & _ & Ho);
    [split; reflexivity || discriminate | exact Hv | exact Hy | exact Ht | reflexivity | reflexivity | exact Hg |]. exists s', l. split; [exact Hy |]. split; [exact Hr | exact Ho].
Defined.

(** ** Where the code falls short *)

Lemma shmget_inited now p c mac chunks key sz flg s : shm_inited s = true → shmget now p c mac chunks key sz flg s = shmget_again now p c mac chunks key sz flg s.
Proof. intros H. unfold shmget. by rewrite (st_bind_Ok _ _ _ 0 s) by (unfold shminit; rewrite st_bind_unfold; cbn; by rewrite H). Qed.

(** A creation that runs out of memory returns, and leaves its key marked. *)
Lemma get_refused y p c mac now chunks kret key sz flg hs : inv (kernel y) hs → mutex y = None → asleep y = ∅ →
  key ≠ IPC_PRIVATE → shm_find_segment_by_key key (kernel y) = -1 → tst flg IPC_CREAT = true → room sz (kernel y) → refuses sz chunks kret →
  ∃ y', step p (Get c mac now chunks key sz flg) y = Some (Ok y') ∧ results y' !! p = Some (Return (shm_errno kret) 0) ∧ mutex y' = None ∧ asleep y' = ∅ ∧ marked key (kernel y').
Proof.
  intros Hi Hn Ha Hk Hno Hc Hroom Href. unfold step, call, SYSV_SHM_SUBSYS_LOCK. rewrite Hn. cbn. rewrite (shmget_inited _ _ _ _ _ _ _ _ _ (iv_init _ _ Hi)).
  assert (E : shmget_again now p c mac chunks key sz flg (kernel y) = shmget_allocate_segment now p c chunks key sz (Z.land flg ACCESSPERMS) (kernel y)).
  { unfold shmget_again. rewrite st_bind_unfold. cbn [get]. rewrite (proj2 (Z.eqb_neq _ _) Hk), Hno. cbn [Z.geb Z.compare negb andb]. by rewrite Hc. }
  destruct (wp_Ok _ _ _ (allocate_refused now p c chunks kret key sz (Z.land flg ACCESSPERMS) _ hs Hi Hroom Href)) as (r & s' & Hr & -> & Hin & i & g & Hg & _ & Hs).
  rewrite E, Hr. cbn. eexists. split; [done |]. cbn. rewrite lookup_insert_eq, Ha. split; [done |]. split; [done |]. split; [done |]. by eapply refused_marked.
Qed.

(** The process [p] sleeps with the lock held, for a key that is marked. *)
Definition stuck (p : nat) (key sz flg : Z) (y : sys) : Prop :=
  mutex y = Some p ∧ asleep y = {[p := (key, sz, flg)]} ∧ marked key (kernel y).

Lemma get_stuck y p c mac now chunks key sz flg : mutex y = None → asleep y = ∅ → marked key (kernel y) →
  ∃ y', step p (Get c mac now chunks key sz flg) y = Some (Ok y') ∧ stuck p key sz flg y'.
Proof.
  intros Hn Ha Hm. unfold step, call, SYSV_SHM_SUBSYS_LOCK. rewrite Hn. cbn. rewrite shmget_inited by apply Hm.
  destruct (wp_Ok _ _ _ (marked_sleeps now p c mac chunks key sz flg _ Hm)) as (r & s' & -> & -> & Hm'). cbn. eexists. split; [done |]. split; [done |]. by rewrite Ha.
Qed.

(** The action is a signal that ends the sleep of [p]. *)
Definition interrupts (p : nat) (e : nat * action) : bool :=
  match e with (q, Woken _ _ _ _ err) => bool_decide (q = p) && negb (err =? 0) | _ => false end.

(** The action is a call, which takes the lock first. *)
Definition calls (a : action) : bool := match a with Fork _ | Exec _ _ | Exit _ _ _ | Woken _ _ _ _ _ => false | _ => true end.

Lemma stuck_call p key sz flg q a y : stuck p key sz flg y → calls a = true → step q a y = None.
Proof. intros (Hn & _) Ha. destruct a; try done; cbn; unfold call, SYSV_SHM_SUBSYS_LOCK; by rewrite Hn. Qed.

Lemma stuck_step p key sz flg q a y : stuck p key sz flg y → interrupts p (q, a) = false →
  match step q a y with None => True | Some r => ∃ y', r = Ok y' ∧ stuck p key sz flg y' end.
Proof.
  intros Hst Hno. destruct (calls a) eqn:Ea; [by rewrite (stuck_call p key sz flg q a y Hst Ea) |]. destruct Hst as (Hn & Has & Hm).
  assert (Htab : ∀ m, match with_table q y m with None => True | Some r => ∃ y', r = Ok y' ∧ stuck p key sz flg y' end).
  { intros m. unfold with_table. destruct (vm_shm (kernel y) !! q); [unfold SYSV_SHM_SUBSYS_LOCK; by rewrite Hn | by exists y]. }
  destruct a as [| | | |child|pgmask now|pgmask now rvs| |c mac now chunks err]; try done; try apply Htab. cbn [step]. rewrite Has.
  destruct (decide (q = p)) as [->|Hne]; [| by rewrite lookup_singleton_ne]. rewrite lookup_singleton_eq. cbn. cbn in Hno. rewrite bool_decide_true in Hno by done. cbn in Hno.
  unfold shmget_wake. rewrite Hno. destruct (wp_Ok _ _ _ (marked_sleeps now p c mac chunks key sz flg _ Hm)) as (r & s' & -> & -> & Hm'). cbn. eexists. split; [done |].
  split; [done |]. split; [cbn; by rewrite delete_singleton_eq | done].
Qed.

Lemma stuck_run p key sz flg es : ∀ y, stuck p key sz flg y → Forall (λ e, interrupts p e = false) es → ∃ y', run es y = Ok y' ∧ stuck p key sz flg y'.
Proof.
  induction es as [|[q a] es IH]; intros y Hy Hes; [by exists y |]. apply Forall_cons in Hes as [Ha Hes]. cbn [run]. pose proof (stuck_step p key sz flg q a y Hy Ha) as H.
  destruct (step q a y) as [r|]; [destruct H as (y' & -> & Hy'); cbn | ]; by apply IH.
Qed.

(** C34: a [shmget] that should create a segment and runs out of memory for its
    named entries returns the error, but leaves the place marked as allocated
    and removed, with the key.  The next process that asks for the key sleeps
    with the lock held; whatever other processes try and however often the
    sleeper is woken up, it sleeps on and every call has to wait for the lock,
    until a signal ends the sleep.  Then the call returns and releases the lock,
    and the key is as it was. *)
Theorem shmget_wedges i hp es0 y p c mac now chunks kret key sz flg p' c' mac' now' chunks' sz' flg' es :
  0 < shmmni i <= 2 ^ 16 → valid es0 (boot i hp) → run es0 (boot i hp) = Ok y → shm_inited (kernel y) = true →
  key ≠ IPC_PRIVATE → shm_find_segment_by_key key (kernel y) = -1 → tst flg IPC_CREAT = true → room sz (kernel y) → refuses sz chunks kret →
  Forall (λ e, interrupts p' e = false) es →
  ∃ y1 y2, run [(p, Get c mac now chunks key sz flg)] y = Ok y1 ∧ results y1 !! p = Some (Return (shm_errno kret) 0) ∧ mutex y1 = None ∧
    run ((p', Get c' mac' now' chunks' key sz' flg') :: es) y1 = Ok y2 ∧ mutex y2 = Some p' ∧ asleep y2 !! p' = Some (key, sz', flg') ∧
    (∀ q a, calls a = true → step q a y2 = None) ∧
    ∀ err, err ≠ 0 → ∃ y3, run [(p', Woken c' mac' now' chunks' err)] y2 = Ok y3 ∧ results y3 !! p' = Some (Return err 0) ∧ mutex y3 = None ∧ marked key (kernel y3).
Proof.
  intros Hi Hv Hrun Hin Hk Hno Hc Hroom Href Hes. destruct (reached_good i hp es0 y Hi Hv Hrun) as ([[hs Hinv]|Hd] & Hn & Ha); [| by rewrite (dn_init _ Hd) in Hin].
  destruct (get_refused y p c mac now chunks kret key sz flg hs Hinv Hn Ha Hk Hno Hc Hroom Href) as (y1 & Hy1 & Hr1 & Hn1 & Ha1 & Hm1).
  destruct (get_stuck y1 p' c' mac' now' chunks' key sz' flg' Hn1 Ha1 Hm1) as (ys & Hys & Hst). destruct (stuck_run p' key sz' flg' es ys Hst Hes) as (y2 & Hy2 & Hst2).
  exists y1, y2. cbn [run]. rewrite Hy1, Hys. cbn. split; [done |]. split; [done |]. split; [done |]. split; [done |]. split; [apply Hst2 |].
  split; [rewrite (proj1 (proj2 Hst2)); apply lookup_singleton_eq |]. split; [intros q a; by eapply stuck_call |]. intros err He. destruct Hst2 as (_ & Has & Hm2). cbn [step].
  rewrite Has, lookup_singleton_eq. cbn. unfold shmget_wake. rewrite (proj2 (Z.eqb_neq _ _) He). cbn. eexists. split; [done |]. cbn. by rewrite lookup_insert_eq.
Qed.

(** Some segment has been created; then no named entry can be made for the
    next. *)
Definition one : list (nat * action) := [get1 3 5 100 [Made true]].

Lemma shmget_wedges_witness : ∃ y y1 y2, run one start = Ok y ∧ run [get1 1 77 4096 [Refused KERN_NO_SPACE]] y = Ok y1 ∧ results y1 !! 1%nat = Some (Return ENOMEM 0) ∧
  run [get1 2 77 4096 []; rm1 4 id0; (2%nat, Woken root 0 1 [] 0)] y1 = Ok y2 ∧ mutex y2 = Some 2%nat.
Proof.
  destruct (run one start) as [y|] eqn:Hy; [| vm_compute in Hy; discriminate]. exists y.
  destruct (shmget_wedges shminfo_init (replicate 40 true) one y 1 root 0 1 [Refused KERN_NO_SPACE] KERN_NO_SPACE 77 4096 (Z.lor IPC_CREAT 0x180)
    2 root 0 1 [] 4096 (Z.lor IPC_CREAT 0x180) [rm1 4 id0; (2%nat, Woken root 0 1 [] 0)]) as (y1 & y2 & Hy1 & Hr & _ & Hy2 & Hm & _).
  - split; reflexivity || discriminate.
  - apply shm_validb_sound. vm_compute. reflexivity.
  - exact Hy.
  - apply (shm_check one (λ y, shm_inited (kernel y)) true y Hy). vm_compute. reflexivity.
  - discriminate.
  - apply (shm_check one (λ y, shm_find_segment_by_key 77 (kernel y)) (-1) y Hy). vm_compute. reflexivity.
  - reflexivity.
  - unfold room. pose proof (shm_check one (λ y, info (kernel y)) shminfo_init y Hy ltac:(vm_compute; reflexivity)) as ->.
    pose proof (shm_check one (λ y, shm_nused (kernel y)) 1 y Hy ltac:(vm_compute; reflexivity)) as ->.
    pose proof (shm_check one (λ y, shm_committed (kernel y)) 1 y Hy ltac:(vm_compute; reflexivity)) as ->. repeat split; reflexivity || discriminate.
  - exists 0%nat, [Refused KERN_NO_SPACE]. split; [reflexivity |]. split; [reflexivity |]. split; [discriminate | reflexivity].
  - repeat constructor.
  - exists y1, y2. split; [reflexivity |]. split; [exact Hy1 |]. split; [exact Hr |]. split; [exact Hy2 | exact Hm].
Defined.

(** When that has happened for every place, the next call panics. *)
Lemma shmget_panics : run (replicate 32 (get1 1 0 4096 [Refused KERN_NO_SPACE]) ++ [get1 1 0 4096 [Made true]]) start = Fault.
Proof. vm_compute. reflexivity. Qed.

(** *** Too many entries *)

(** The process 0 attaches a segment eight times, and forks. *)
Definition eight : list (nat * action) :=
  get1 0 77 4096 [Made true] :: map (λ n, at1 0 id0 (0x100000 + 0x1000 * Z.of_nat n)) (seq 0 8).
Definition forks (n : nat) : list (nat * action) := map (λ k, (0%nat, Fork k)) (seq 1 n).

Definition table8 : list shmmap_state :=
  map (λ n, ShmmapState (0x100000 + 0x1000 * Z.of_nat n) id0) (seq 0 8) ++ [ShmmapState 0 SHMID_SENTINEL].

(** The state when [n] processes have that table. *)
Definition seg8 (n : nat) : shmid_ds := ShmidDs (IpcPerm 0 0 0 0 0x980 1 77) 4096 0 0 (swrap 16 (8 * Z.of_nat n)) 2 0 1 2.
Definition vm8 : list vmcall :=
  concat (map (λ n, let a := 0x100000 + 0x1000 * Z.of_nat n in [Reserve 0 a 4096; Enter 0 a 4096 1 3]) (seq 0 8)).
Definition state8 (n : nat) (m : gmap nat (list shmmap_state)) (h : list bool) : state :=
  State shminfo_init true (-1) 1 1 (seg8 n :: replicate 31 free_seg) {[2 := ShmHandle 1 4096 0]} {[1]} 3 m h vm8 [].
Definition results8 : gmap nat out := {[0%nat := Return 0 0x107000]}.

Lemma run_eight h : run eight (boot shminfo_init (true :: true :: h)) = Ok (Sys (state8 1 {[0%nat := table8]} h) results8 None ∅).
Proof. vm_compute. reflexivity. Qed.

Lemma count8 e0 : shmid e0 = SHMID_SENTINEL → ∀ l s g x, (∀ e, e ∈ l → shmid e = id0) → rd (shmsegs s) 0 = Ok g → shm_nattch g = swrap 16 x →
  wp (fork_counts (l ++ [e0])) (λ _ s', s' = with_segs (<[0%nat := set_nattch (swrap 16 (x + Z.of_nat (length l))) g]> (shmsegs s)) s) s.
Proof.
  intros He0. induction l as [|e l IH]; intros s g x Hl Hg Hx; cbn [app fork_counts].
  - rewrite He0. apply wp_ret. cbn [length]. rewrite Z.add_0_r, <- Hx. apply rd_lookup in Hg as [_ Hg]. rewrite list_insert_id; [by destruct s |]. by destruct g.
  - rewrite (Hl e) by constructor. change (id0 =? SHMID_SENTINEL) with false. change (SHMID_IS_VALID id0) with true. change (IPCID_TO_IX id0) with 0. apply wp_bind, wp_bind, (wp_get_seg _ g); [done |].
    apply (wp_put_seg _ g); [done |]. eapply wp_mono; [apply (IH _ (set_nattch (swrap 16 (shm_nattch g + 1)) g) (x + 1)) |].
    + intros e' He'. apply Hl. by constructor.
    + exact (rd_insert_eq _ 0 _ _ Hg).
    + cbn. apply swrap_cong. by rewrite Hx, Z.add_mod, swrap_mod, <- Z.add_mod by lia.
    + intros [] s' ->. cbn [length]. replace (x + Z.of_nat (S (length l))) with (x + 1 + Z.of_nat (length l)) by lia. cbn -[Z.of_nat swrap]. by rewrite list_insert_insert_eq.
Qed.

Lemma fork_eight n k m h r : m !! 0%nat = Some table8 →
  step 0 (Fork k) (Sys (state8 n m (true :: h)) r None ∅) = Some (Ok (Sys (state8 (S n) (<[k := table8]> m) h) r None ∅)).
Proof.
  intros Hm. assert (Hw : wp (_ ← shmfork 0 k; mret ()) (λ _ s', s' = state8 (S n) (<[k := table8]> m) h) (state8 n m (true :: h))).
  { apply wp_bind. unfold shmfork. apply wp_bind, (wp_of_Ok _ _ _ 0 (state8 n m (true :: h))); [done |]. apply wp_bind, (wp_get_table _ table8); [done |].
    apply wp_bind, (wp_lift_shm _ (take 8 table8)); [done |]. apply wp_bind, (wp_of_Ok _ _ _ true (state8 n m h)); [done |]. cbn [negb]. apply wp_bind, wp_modify_shm, wp_bind.
    eapply wp_mono; [apply (count8 (ShmmapState 0 SHMID_SENTINEL) eq_refl (take 8 table8) _ (seg8 n) (8 * Z.of_nat n)); [| done | done] |].
    - intros e. cbn. rewrite !elem_of_cons, elem_of_nil. intros H. by repeat destruct H as [->|H].
    - intros [] s' ->. apply wp_ret, wp_ret. change (Z.of_nat (length (take 8 table8))) with 8. unfold state8, seg8. replace (8 * Z.of_nat (S n)) with (8 * Z.of_nat n + 8) by lia. reflexivity. }
  destruct (wp_Ok _ _ _ Hw) as ([] & s' & Hs & ->). unfold step, with_table. cbn [kernel vm_shm state8]. rewrite Hm. cbn. by rewrite Hs.
Qed.

Fixpoint tables8 (n : nat) : gmap nat (list shmmap_state) :=
  match n with O => {[0%nat := table8]} | S k => <[n := table8]> (tables8 k) end.

Lemma tables8_lookup n k : tables8 n !! k = if decide (k <= n)%nat then Some table8 else None.
Proof.
  induction n as [|n IH]; cbn [tables8]; [destruct (decide (k = 0%nat)) as [->|]; [done |]; rewrite lookup_singleton_ne, decide_False by lia; done |].
  destruct (decide (k = S n)) as [->|Hne]; [by rewrite lookup_insert_eq, decide_True by lia |]. rewrite lookup_insert_ne, IH by done.
  destruct (decide (k <= n)%nat); [by rewrite decide_True by lia | by rewrite decide_False by lia].
Qed.

Lemma tables8_total n : total 0 (tables8 n) = 8 * (Z.of_nat n + 1).
Proof.
  induction n as [|n IH]; [done |]. cbn [tables8]. rewrite total_new by (rewrite tables8_lookup, decide_False by lia; done). rewrite IH. change (cnt (at_seg 0) table8) with 8. lia.
Qed.

Lemma shm_run_app es es' : ∀ y y1, run es y = Ok y1 → run (es ++ es') y = run es' y1.
Proof. induction es as [|[p a] es IH]; intros y y1; cbn; [by intros [= ->] |]. destruct (step p a y) as [[y'|]|]; [apply IH | done | apply IH]. Qed.

Lemma run_forks n : ∀ h, run (eight ++ forks n) (boot shminfo_init (true :: true :: replicate n true ++ h)) = Ok (Sys (state8 (S n) (tables8 n) h) results8 None ∅).
Proof.
  induction n as [|n IH]; intros h; [cbn [forks map seq replicate]; rewrite app_nil_r; apply run_eight |]. unfold forks. rewrite seq_S, map_app, app_assoc. cbn [map Nat.add].
  rewrite (shm_run_app _ _ _ (Sys (state8 (S n) (tables8 n) (true :: h)) results8 None ∅)).
  - cbn [run]. by rewrite fork_eight by (by rewrite tables8_lookup, decide_True by lia).
  - rewrite <- IH. by rewrite replicate_S_end, <- app_assoc.
Qed.

Lemma cnt8 i : cnt (at_seg i) table8 <= 8.
Proof. change table8 with (take 8 table8 ++ [ShmmapState 0 SHMID_SENTINEL]). rewrite cnt_app. change (cnt (at_seg i) [_]) with 0. rewrite Z.add_0_r. apply (cnt_le (at_seg i) (take 8 table8)). Qed.

Lemma tables8_le n i : total i (tables8 n) <= 8 * (Z.of_nat n + 1).
Proof.
  pose proof (cnt8 i). induction n as [|n IH]; cbn [tables8]; [rewrite <- insert_empty, total_new by done; change (total i ∅) with 0; lia |].
  rewrite total_new by (rewrite tables8_lookup, decide_False by lia; done). lia.
Qed.

Lemma shm_valid_app es es' : ∀ y y1, valid es y → run es y = Ok y1 → valid es' y1 → valid (es ++ es') y.
Proof.
  induction es as [|[p a] es IH]; intros y y1 Hv Hr Hv'; [by injection Hr as -> |]. cbn in *. destruct Hv as [Ha Hv]. split; [done |].
  destruct (step p a y) as [[y'|]|]; [by eapply IH | done | by eapply IH].
Qed.

(** Up to 4095 processes have eight entries each. *)
Lemma valid_forks n : (n <= 4094)%nat → ∀ h, valid (eight ++ forks n) (boot shminfo_init (true :: true :: replicate n true ++ h)).
Proof.
  induction n as [|n IH]; intros Hn h; [cbn [forks map seq replicate]; rewrite app_nil_r; apply shm_validb_sound; vm_compute; reflexivity |]. unfold forks. rewrite seq_S, map_app, app_assoc. cbn [map Nat.add].
  eapply shm_valid_app; [rewrite replicate_S_end, <- app_assoc; apply IH; lia | rewrite replicate_S_end, <- app_assoc; apply run_forks |]. cbn [valid]. split; [| by destruct (step _ _ _) as [[]|]].
  split; cbn [kernel vm_shm state8]; [by rewrite tables8_lookup, decide_False by lia |]. intros t Ht i. rewrite tables8_lookup, decide_True in Ht by lia. injection Ht as <-.
  pose proof (tables8_le n i). pose proof (cnt8 i). lia.
Qed.

(** [IPC_RMID] frees a segment whose count is not positive. *)
Lemma remove_uncounted pgmask now is64 c eval b id g hs s : let i := IPCID_TO_IX id in shm_inited s = true → heap_ok (handles s) (objects s) (fresh s) hs → i < shmmni (info s) →
  rd (shmsegs s) i = Ok g → allocated g = true → removed g = false → _seq (shm_perm g) = IPCID_TO_SEQ id → path (hnext (handles s)) (shm_internal g) (hs i) 0 →
  ipcperm c (shm_perm g) IPC_M = 0 → shm_nattch g <= 0 →
  wp (shmctl pgmask now is64 c 0 eval b id IPC_RMID) (λ r s', r = Return 0 0 ∧ vm_shm s' = vm_shm s ∧ ∀ o, o ∈ objects s' ↔ o ∈ objects s ∧ o + 1 ∉ hs i) s.
Proof.
  intros i Hin Hok Hmni Hg Ha Hr Hseq Hp Hperm Hn. unfold shmctl. apply wp_bind, (wp_of_Ok _ _ _ 0 s); [unfold shminit; rewrite st_bind_unfold; cbn; by rewrite Hin |]. cbn [negb Z.eqb].
  apply wp_bind, (wp_of_Ok _ _ _ (Some (i, g)) s).
  { pose proof (rd_range _ _ _ Hg). unfold shm_find_segment_by_shmid. fold i. rewrite st_bind_unfold. cbn [get]. rewrite (proj2 (Z.ltb_ge i 0)), Z.geb_leb, (proj2 (Z.leb_gt _ i)) by lia. cbn [orb].
    unfold get_seg. rewrite !st_bind_unfold. cbn [get]. unfold liftr. rewrite Hg. cbn -[Z.lor]. rewrite mode_live. unfold allocated, removed in *. by rewrite Ha, Hr, Hseq, Z.eqb_refl. }
  cbn [negb Z.eqb]. rewrite Hperm. cbn [negb Z.eqb]. fold (removed_of g). apply wp_bind, (wp_put_seg _ g); [done |]. rewrite (proj2 (Z.leb_le _ _) Hn). apply wp_bind, wp_bind.
  eapply wp_mono; [apply (deallocate_spec pgmask i (removed_of g) (hs i) _ hs); [cbn; by eapply rd_insert_eq | done | done | done] |].
  intros _ s' (H & O & x & -> & Hok' & _). apply wp_modify_shm, wp_ret. split; [done |]. split; [done |]. by apply (freed_objects _ _ _ _ _ _ _ _ Hok Hok').
Qed.

(** C35: the count of a segment, [shm_nattch], has 16 bits with a sign.  When a
    process forks and there are 32768 entries for a segment or more after that,
    the count is negative; an [IPC_RMID] then releases the named entries of the
    segment at once, though processes have all of these entries for it. *)
Theorem shm_nattch_wraps i hp es y p t child q pgmask now is64 c eval b id g :
  0 < shmmni i <= 2 ^ 16 → valid es (boot i hp) → run es (boot i hp) = Ok y →
  vm_shm (kernel y) !! p = Some t → vm_shm (kernel y) !! child = None → head (heap (kernel y)) = Some true →
  rd (shmsegs (kernel y)) (IPCID_TO_IX id) = Ok g → allocated g = true → removed g = false → _seq (shm_perm g) = IPCID_TO_SEQ id → ipcperm c (shm_perm g) IPC_M = 0 →
  let n := total (IPCID_TO_IX id) (vm_shm (kernel y)) + cnt (at_seg (IPCID_TO_IX id)) t in 2 ^ 15 <= n →
  ∃ y1 y2 g1 l, run [(p, Fork child)] y = Ok y1 ∧ total (IPCID_TO_IX id) (vm_shm (kernel y1)) = n ∧
    rd (shmsegs (kernel y1)) (IPCID_TO_IX id) = Ok g1 ∧ shm_nattch g1 = n - 2 ^ 16 ∧ shm_nattch g1 < 0 ∧
    run [(q, Ctl pgmask now is64 c 0 eval b id IPC_RMID)] y1 = Ok y2 ∧ results y2 !! q = Some (Return 0 0) ∧ total (IPCID_TO_IX id) (vm_shm (kernel y2)) = n ∧
    path (hnext (handles (kernel y))) (shm_internal g) l 0 ∧ ∀ o, o ∈ objects (kernel y2) ↔ o ∈ objects (kernel y) ∧ ¬ entry_of (kernel y) l o.
Proof.
  intros Hi Hv Hrun Ht Hch Hh Hg Ha Hr Hseq Hperm n Hn. set (ix := IPCID_TO_IX id) in *.
  destruct (reached_good i hp es y Hi Hv Hrun) as ([[hs Hinv]|Hd] & Hm & Has); [| by rewrite (dn_tables _ Hd), lookup_empty in Ht].
  destruct (seg_used _ _ Hinv ix g Hg Ha) as [_ Hu]. pose proof (us_bound _ _ _ _ Hu) as Hb. pose proof (total_delete ix _ p t Ht). pose proof (total_nonneg ix (delete p (vm_shm (kernel y)))). pose proof (cnt_nonneg (at_seg ix) t).
  destruct (wp_Ok _ _ _ (shmfork_counts p child t _ hs Hinv Ht)) as (e & s1 & Hf & Hs1). rewrite Hh in Hs1. destruct Hs1 as (segs & -> & Hlen & Hsegs). specialize (Hsegs ix g Hg).
  set (s1 := with_segs _ _) in *. assert (Hcnt : shm_nattch (counted (cnt (at_seg ix) t) g) = n - 2 ^ 16).
  { unfold counted. rewrite (proj2 (Z.eqb_neq _ 0)) by (unfold n in *; lia). cbn [shm_nattch set_nattch]. rewrite (us_nattch _ _ _ _ Hu). fold n. rewrite (swrap_cong 16 n (n - 2 ^ 16)), swrap_small; [done | done | change (2 ^ (16 - 1)) with (2 ^ 15); unfold n in *; lia |]. replace n with (n - 2 ^ 16 + 1 * 2 ^ 16) at 1 by lia. by apply Z_mod_plus_full. }
  assert (Hkeep : shm_perm (counted (cnt (at_seg ix) t) g) = shm_perm g ∧ shm_internal (counted (cnt (at_seg ix) t) g) = shm_internal g) by (unfold counted; by destruct (_ =? 0)).
  destruct Hkeep as [Hkp Hki]. pose proof (seg_range _ _ Hinv ix g Hg).
  assert (Hneg : n - 2 ^ 16 < 0) by (unfold n in *; lia).
  destruct (wp_Ok _ _ _ (remove_uncounted pgmask now is64 c eval b id (counted (cnt (at_seg ix) t) g) hs s1 (iv_init _ _ Hinv) (iv_heap _ _ Hinv) ltac:(cbn; lia) Hsegs
    ltac:(unfold allocated; by rewrite Hkp) ltac:(unfold removed; by rewrite Hkp) ltac:(by rewrite Hkp) ltac:(rewrite Hki; apply Hu) ltac:(by rewrite Hkp) ltac:(lia))) as (r & s2 & Hc & -> & Hvm & Ho).
  exists (Sys s1 (results y) None ∅), (Sys s2 (<[q := Return 0 0]> (results y)) None ∅), (counted (cnt (at_seg ix) t) g), (hs ix).
  split; [cbn [run step]; unfold with_table, SYSV_SHM_SUBSYS_LOCK; rewrite Ht, Hm; cbn; rewrite st_bind_unfold, Hf; cbn; by rewrite Has |].
  split; [cbn; rewrite total_new by done; unfold n; lia |]. split; [done |]. split; [done |]. split; [by rewrite Hcnt |]. split; [cbn; by rewrite Hc |]. split; [cbn; by rewrite lookup_insert_eq |].
  split; [cbn [kernel]; rewrite Hvm; cbn; rewrite total_new by done; unfold n; lia |]. split; [apply Hu |]. intros o. cbn [kernel]. rewrite Ho. by rewrite (entry_of_handle _ _ _ _ (iv_heap _ _ Hinv)).
Qed.

Lemma shm_nattch_wraps_witness : ∃ y y1 y2 g1, run (eight ++ forks 4094) (boot shminfo_init (true :: true :: replicate 4094 true ++ [true])) = Ok y ∧
  run [(0%nat, Fork 5000)] y = Ok y1 ∧ rd (shmsegs (kernel y1)) 0 = Ok g1 ∧ shm_nattch g1 = -32768 ∧
  run [rm1 0 id0] y1 = Ok y2 ∧ total 0 (vm_shm (kernel y2)) = 32768 ∧ results y2 !! 0%nat = Some (Return 0 0).
Proof.
  pose proof (valid_forks 4094 ltac:(lia) [true]) as Hv. pose proof (run_forks 4094 [true]) as Hrun.
  assert (Htot : total 0 (tables8 4094) + cnt (at_seg 0) table8 = 32768) by (rewrite tables8_total; reflexivity).
  destruct (shm_nattch_wraps shminfo_init (true :: true :: replicate 4094 true ++ [true]) (eight ++ forks 4094) (Sys (state8 4095 (tables8 4094) [true]) results8 None ∅) 0 table8 5000 0 PAGE_MASK 4 true root 0 no_ds id0 (seg8 4095)) as (y1 & y2 & g1 & l & H1 & _ & H2 & H3 & _ & H4 & H5 & H6 & _).
  - split; reflexivity || discriminate.
  - exact Hv.
  - exact Hrun.
  - cbn [kernel vm_shm state8]. rewrite tables8_lookup, decide_True by lia. reflexivity.
  - cbn [kernel vm_shm state8]. rewrite tables8_lookup, decide_False by lia. reflexivity.
  - reflexivity.
  - reflexivity.
  - reflexivity.
  - reflexivity.
  - reflexivity.
  - reflexivity.
  - cbn [kernel vm_shm state8]. change (IPCID_TO_IX id0) with 0. rewrite Htot. discriminate.
  - cbn [kernel vm_shm state8] in H3, H6. change (IPCID_TO_IX id0) with 0 in *. rewrite Htot in H3, H6. eexists _, y1, y2, g1. split; [exact Hrun |]. split; [exact H1 |]. split; [exact H2 |]. split; [exact H3 |]. split; [exact H4 |]. split; [exact H6 | exact H5].
Defined.

(** A segment of 4 GB is a multiple of 2^32 bytes, which count as no pages
    against the limit of 1024 pages; it adds one page, for the last of its
    named entries, and its removal takes nothing away. *)
Lemma shmall_bypassed : let es := [(0%nat, Sysctl Shmmax 0 (2 ^ 33)); get1 0 0 (2 ^ 32) [Made true; Made true]] in
  (y ← run es start; Ok (results y !! 0%nat, shm_committed (kernel y))) = Ok (Some (Return 0 id0), 1) ∧
  (y ← run (es ++ [rm1 0 id0]) start; Ok (shm_nused (kernel y), shm_committed (kernel y))) = Ok (0, 1).
Proof. split; vm_compute; reflexivity. Qed.
